(* ===== verification/_CoqProject ===== *)
-Q . S2P
Prelude.v
Floats.v
DeviceFloats.v
DeviceFloatsTheory.v
Tensors.v
Triton.v
DeviceMemory.v
QuantKernels.v
QuantTheory.v
QuantProps.v
DequantKernels.v
DequantProps.v
QuantRoundTrip.v
BaseAllocator.v
TokenAllocator.v
PagedAllocator.v
PagedTheory.v
PagedProps.v
RadixKeys.v
RadixKeysTheory.v
RadixCache.v
RadixTheory.v
RadixSplit.v
RadixWalk.v
RadixInsert.v
RadixOps.v
RadixLocks.v
RadixEvict.v
RadixFacts.v
RadixProps.v
Request.v
ReqPool.v
TableKernels.v
TableKernelsTheory.v
KVIndices.v
Tagger.v
TaggerTheory.v
TriaxialPool.v
TriaxialBuffers.v
ExtendPlan.v
TriaxialAllocator.v
TriaxialAllocatorTheory.v
TriaxialInvariant.v
TriaxialBuffersTheory.v
TriaxialBuffersProps.v
TriaxialAllocatorProps.v
TriaxialPoolProps.v
TriaxialDecodeProps.v
ExtendPlanProps.v
DecodeAttention.v
OnlineSoftmax.v
DecodeAttentionProps.v
DecodePlan.v
DecodePlanTheory.v
DecodePlanProps.v
KVAllocator.v
ReqCache.v
ReqCacheProps.v
MemCommon.v
TokenMemProps.v
ExtendProps.v
TriaxialBatch.v
SchedulePolicy.v
SchedulePolicyTheory.v
SchedulePolicyProps.v
DecodeBatch.v
PrefillAdder.v
PrefillAdderProps.v
RunningReqs.v
DecodeBatchProps.v
PrefillDelayer.v
PrefillDelayerProps.v
SchedulerQueue.v
SchedulerQueueProps.v
SchedulerDecode.v
SchedulerDecodeProps.v
DecodeRounds.v
PrefillResults.v
SchedulerPrefill.v
SchedulerPrefillProps.v
