(* ===== verification/Prelude.v ===== *)
(** * The KV cache of the TriAxialKV serving engine

    The program is an LLM serving engine (a fork of SGLang) whose contribution,
    TriAxialKV, keeps the key-value cache of a multimodal agent in two
    precisions: a tagger gives every prompt token a modality, a turn and a
    block, a policy turns the tag into 4 or 2 bits, and an allocator with an
    INT4 and an INT2 region hands out the slots; kernels quantise the keys and
    values of a slot, and the attention of prefill and decode reads them back.
    This library models the part of the engine, under [src/python/sglang/srt/],
    that decides which token is kept where, from a request in the waiting queue
    to the slots of its tokens and back to the free lists, and the TriAxialKV
    path on the device, from the write of a key to the attention over it.

    ** The parts and how they interact

    A request ([class Req], file Request) waits in a queue that a scheduling
    policy sorts (SchedulePolicy), looking prefixes up in the radix tree
    (RadixCache).  The admission of a prefill batch (PrefillAdder) counts free
    and evictable memory and locks the tree nodes it relies on.  The batch
    allocation (MemCommon) evicts from the tree, takes slots from one of three
    allocators (TokenAllocator, PagedAllocator, TriaxialAllocator) through the
    interface KVAllocator, and writes them into the request table (ReqPool,
    TableKernels).  For the TriAxialKV allocator the bits of the slots come
    from the tagger (Tagger).  When a chunk is computed or a request finishes,
    its slots move into the tree or back to the allocator (ReqCache).  When
    decoding runs out of memory the running batch retracts requests
    (DecodeBatch).  The scheduler composes these parts: it keeps the waiting
    queue within its limits (SchedulerQueue), chooses a prefill batch
    (SchedulerPrefill) after agreeing with the other ranks (PrefillDelayer),
    and otherwise lets the running batch decode one token (SchedulerDecode);
    the requests of a prefill then join the running batch (PrefillResults).

    On the device the pool (TriaxialBuffers) groups the slots of a batch by
    precision and runs the quantising kernels (QuantKernels), which store the
    vectors of a slot as packed codes with a scale and a minimum.  A prefill
    (ExtendPlan) gathers the cached prefixes through the dequantising kernels
    (DequantKernels) into a scratch buffer that FlashInfer reads; a decode step
    (DecodePlan) chooses the number of splits of every request, lists the slots
    of the table rows (KVIndices) and runs the split-KV attention kernels
    (DecodeAttention) on the packed cache.

    ** Files

    Shared ground:
    - Prelude: exceptions as the monad [result], Python slicing, stable sort,
      list and permutation lemmas, the tactics and hint databases.
    - Floats: IEEE binary32 and binary64 arithmetic as the code uses it, and
      Python numbers that are an int or a float.
    - Tensors: one-dimensional torch operations (cat, sort, unique, cumsum).
    - Triton: launches of independent programs over a tensor, and the lemma
      that a launch with disjoint writes does not depend on the program order.
    - DeviceFloats, DeviceFloatsTheory: bf16, fp16 and fp32 numbers, their
      conversions, rounding, minima and maxima.
    - DeviceMemory: contiguous tensors, and launches whose programs are lists
      of writes.
    - OnlineSoftmax: real arithmetic with minus infinity, and the invariant of a
      softmax computed block by block.

    Components, each with the source it translates:
    - Tagger, TaggerTheory: [managers/triaxial_tagger.py]; rules, policy
      parsing, spans, blocks, bits, statistics.
    - TriaxialPool: [mem_cache/triaxial_pool.py]; sizes and layout of the two
      regions.
    - TriaxialBuffers, TriaxialBuffersTheory, TriaxialBuffersProps,
      TriaxialPoolProps, TriaxialDecodeProps: the rest of [class
      TriaxialKVPool]; buffers, grouping and the two write paths.
    - QuantKernels, QuantTheory, QuantProps, QuantRoundTrip and
      DequantKernels, DequantProps:
      [layers/attention/triton_ops/triaxial_kv.py]; quantising kernels, tile
      loaders, gather and the torch references.
    - DecodeAttention, DecodeAttentionProps: the decode attention kernels of
      the same file and [ref_attention].
    - KVIndices: [create_flashinfer_kv_indices_triton]
      ([layers/attention/utils.py]).
    - ExtendPlan, ExtendPlanProps: [TriaxialFlashInferBackend]
      ([layers/attention/triaxial_backend.py]).
    - DecodePlan, DecodePlanTheory, DecodePlanProps: [TriaxialTritonBackend]
      and the decode planning of [layers/attention/triton_backend.py].
    - TriaxialAllocator, TriaxialAllocatorTheory, TriaxialInvariant,
      TriaxialAllocatorProps: [class TriaxialAllocator].
    - BaseAllocator, TokenAllocator, PagedAllocator, PagedTheory, PagedProps:
      [mem_cache/allocator.py] with both Triton kernels and the reference loop.
    - RadixKeys, RadixCache: [mem_cache/radix_cache.py] and
      [mem_cache/evict_policy.py]; the tree is a map from node ids to nodes,
      which keeps the sharing of the Python objects.  RadixKeysTheory,
      RadixTheory, RadixSplit, RadixWalk, RadixInsert, RadixOps, RadixLocks,
      RadixEvict, RadixFacts, RadixProps: its well-formedness invariant and
      what each operation does to the stored content.
    - Request: memory, prefill and stop conditions of [class Req]
      ([managers/schedule_batch.py]).
    - ReqPool: [class ReqToTokenPool] ([mem_cache/memory_pool.py]).
    - ReqCache, ReqCacheProps: [cache_finished_req] and
      [cache_unfinished_req] of the radix and the chunk cache and
      [release_kv_cache].
    - TableKernels, TableKernelsTheory, MemCommon,
      TokenMemProps, ExtendProps, TriaxialBatch: [mem_cache/common.py].
    - SchedulePolicy, SchedulePolicyTheory, SchedulePolicyProps and
      PrefillAdder, PrefillAdderProps: [managers/schedule_policy.py].
    - DecodeBatch, DecodeBatchProps: filtering, merging and retraction of
      [ScheduleBatch].  RunningReqs: the memory of a set of running requests,
      as an invariant, and what evicting and releasing do to it.
    - PrefillDelayer, PrefillDelayerProps: [managers/prefill_delayer.py].
    - SchedulerQueue, SchedulerQueueProps: [_add_request_to_queue],
      [_set_or_validate_priority], [_abort_on_queued_limit],
      [_abort_on_waiting_timeout], [init_req_max_new_tokens] and the checks of
      [handle_generate_request] of [class Scheduler]
      ([managers/scheduler.py]).
    - SchedulerDecode, SchedulerDecodeProps: [update_running_batch], the
      memory part of [prepare_for_decode] and [process_batch_result_decode]
      ([managers/scheduler_output_processor_mixin.py]).  DecodeRounds: a step
      and the processing of its tokens, repeated.
    - PrefillResults: [process_batch_result_prefill] (same file) and the merge
      of a prefill into the running batch in [get_next_batch_to_run].
    - SchedulerPrefill, SchedulerPrefillProps: [get_new_batch_prefill] and
      [_get_new_batch_prefill_raw].

    Interfaces: [KVAllocator] (KVAllocator) has the operations every
    allocator offers to the caches; [BatchAllocator] (MemCommon) adds the
    allocation of a batch, and [BatchAllocatorLaws] (ExtendProps) states what
    the batch allocation relies on; TriaxialBatch discharges the laws for the
    TriAxialKV allocator and ExtendProps for the token allocator, and the
    theorems of ExtendProps are proved against the laws only; the paged
    allocator has its own theorems (PagedProps).  [KVDecodeLaws] and [KVGroupLaws] (RunningReqs) and
    [TokenDecode] (SchedulerDecodeProps) state what a decode step and the
    processing of its tokens rely on, with instances for the token and the
    TriAxialKV allocator.  [Arith] (DecodeAttention) is the arithmetic of the
    attention kernels; [exact] (OnlineSoftmax) is the instance of the theorems.

    ** What the theorems show

    - Tagging: the policy is its first matching rule, tags are well formed,
      the three axes are what the design says, the statistics add up.
    - Allocators: in every reachable state free, buffered and held slots
      partition the pool, also after a backup is restored, allocation refuses
      exactly when memory does not suffice and never hands out a held slot, the
      paged allocator continues the page of a request before it uses the
      request's own fresh pages, kernels in any program order compute what the
      reference loop computes.
    - Radix tree: lookup returns the longest stored prefix, insertion stores
      exactly the new key, locks are undone, the counters are the sizes of the
      tree, eviction terminates, frees the least important leaves and never a
      locked path.
    - Requests: the stop conditions, and that finishing a request neither leaks
      nor doubly frees a slot.
    - Batches: table kernels equal their reference loops, allocation behind
      the cache fails exactly when free plus evictable memory is short, a
      prefill batch gets fresh slots in its own rows, a queue is only
      reordered.
    - Scheduler: a decode step never runs out of memory and every request of
      the running batch decodes, goes back to the queue or is answered; any
      number of steps with any tokens keeps the memory consistent and loses no
      request, and after enough steps all are done; the request that is queued
      for a new one fits the limits of the server, its token limit included;
      retraction keeps the requests with the most output; a prefill pass splits
      the queue into the new batch and those who still wait, and with the token
      allocator and nothing running the batch can be allocated
      ([admitted_batch_fits]); when the prefill has
      run its requests finish, continue in chunks or decode with the others, and
      the running batch is again in the state the decode steps start from; the
      queue answers whoever it drops; the ranks of a group take the same decision and a
      prefill is delayed for a bounded number of passes.  With preemption,
      whoever is preempted in a pass that ends without a batch is lost
      ([preempted_request_lost]).  With TriAxialKV a prompt of 4-bit tokens is
      admitted although it cannot be allocated ([int4_prompt_overcommits]).  A
      prompt that is truncated gets no output: [truncated_prompt_silent].
    - Kernels: the three quantising kernels (INT4 tokens, INT2 values, INT2 key
      pages) and the gather compute their torch references bit for bit, in any
      program order, up to the sign of a zero.
    - Pool: what a prefill writes to the slots of the mixed allocator and reads
      back is the reference quantisation, nothing else changes, decode writes
      go to INT4 rows, and the buffers have the size of the budget.
    - Attention: the prefill plan hands FlashInfer every request in position
      order; a decode step returns the reference attention over the slots of
      every request, whatever the numbers of splits and the program order, for
      up to 16 query heads per key-value head or a multiple of 16; these, or a
      single key-value head, are exactly the head counts for which the kernel
      reads the right key-value head.

    Fuel: the walks down the tree, the walks up its parents, the eviction loop
    and the depth-first traversals are fixpoints on a number; the walks use the
    length of the key, one step each consuming at least one token, the others
    the number of nodes of the tree.  The theorems prove that this is enough:
    they state that the operations return [Ok].

    ** Conventions and limits

    Machine integers are [Z]; the slot numbers of the allocators are int64 and
    never leave the pool, so no operation on them wraps.  The request table
    stores int32 and slot numbers fit it.  Objects the code shares are shared
    in the model through ids (tree nodes) or threaded as state (allocator,
    table, requests of a batch).

    Parameters of the model: the clock of the tree nodes, the hash of a page,
    the order of a dictionary of children and of equal heap entries, the
    shuffle of the random policy, the exchange between the ranks
    ([torch.distributed]), the wall clock, the tokens the model samples, the
    tokenizer.

    Device tensors are total functions on offsets; the theorems show that what
    they rely on is in range.  Quantised values are exact IEEE results: the
    product of a level and an fp16 scale is exact in fp32, so a fused
    multiply-add gives the same sum.  The kernels ignore NaNs and order zeros by
    sign, torch does not; the equivalences are stated for finite inputs and up
    to the sign of zero ([zeq]).  The INT2 slots of a batch are distinct, so the
    order of equal keys in [argsort] does not matter.  The attention theorems
    are about exact arithmetic: the dequantised inputs are rounded as in the
    code, the rounding of dot products, [exp], [log] and of the output is not
    modelled.  [tl.log2] in the choice of the split counts is a parameter that
    gives fp32 numbers of magnitude below 256, lengths and core counts are below
    2^24.  What FlashInfer computes from plan and scratch is a parameter.

    The radix theorems assume the cache enabled and cache events off; events
    are modelled but not characterised.  [admitted_batch_fits] is about the
    token allocator and a pass with no running request, where the budget is an
    integer, without preemption and without a request continued in chunks,
    which takes its chunk even when the budget is used up.  The admission of
    TriAxialKV counts the free INT4 slots divided by their share of a mixed
    request, a heuristic; [int4_prompt_overcommits] shows where it fails.
    Masked lanes of the loads of the paged kernels are assumed to hold the same
    value in both loads.  A backup of the TriAxialKV allocator is taken and
    restored outside a free group, and restored once.
    [decode_step_conserves] is about pages of one token and a scheduler without
    overlap: the batch that decodes has its last token, so every request has
    more tokens than committed slots.  [decode_rounds_conserve] is about the
    rounds between two prefills; the tokens of the model are a parameter.  The
    rows of the request table take the prompt and all tokens a request may get,
    which is what [new_request_fits] gives for rows of [max_req_len] tokens.
    [prefill_pass_conserves] is about passes without preemption and without a
    request continued in chunks, [prefill_joins_running] about a prefill that is
    not mixed with decoding and whose requests hold the slots of the tokens they
    were prefilled with.  Requests of a queue are told apart by their
    ids, which are distinct.

    Not modelled: speculative decoding, disaggregated prefill and decode,
    sliding-window, mamba and hybrid pools and their tree caches, the
    hierarchical (host) cache, LoRA and multimodal fields of requests,
    diffusion models, detokenisation and log-probabilities, the preparation of
    model inputs other than their memory, CUDA graphs, the model runner and the
    attention of other backends, model code, the scheduler's event loop with
    its sockets, the streaming of outputs, HTTP and process glue, and the engine's C++, CUDA and Rust
    packages. *)

From Stdlib Require Export ZArith Lia Permutation.
From stdpp Require Export base list gmap strings sorting numbers.

#[global] Open Scope Z_scope.

(** ** Exceptions and the error monad

    Python code that raises is modelled by [result]: [Ok] carries the returned
    value, [Err] the class of the exception. *)

Inductive exn :=
  | RuntimeError | ValueError | AssertionError | NotImplementedError
  | IndexError | KeyError | TypeError | AttributeError | OverflowError | RecursionError | OSError | ZeroDivisionError.

#[global] Instance exn_eq_dec : EqDecision exn.
Proof. solve_decision. Defined.

Inductive result (A : Type) :=
  | Ok (a : A)
  | Err (e : exn).
Arguments Ok {A} a.
Arguments Err {A} e.

Definition rbind {A B} (r : result A) (k : A -> result B) : result B :=
  match r with Ok a => k a | Err e => Err e end.

Definition rassert (b : bool) : result unit :=
  if b then Ok tt else Err AssertionError.

Declare Scope py_scope.
Delimit Scope py_scope with py.
Notation "'let!' x := r 'in' k" := (rbind r (fun x => k))
  (at level 10, x pattern, r at level 100, k at level 200) : py_scope.
#[global] Open Scope py_scope.

Lemma rbind_ok {A B} (r : result A) (k : A -> result B) y : rbind r k = Ok y -> exists x, r = Ok x /\ k x = Ok y.
Proof. destruct r as [x|e]; [|done]. intros E. by exists x. Qed.

(** Map with early exit on the first exception, as a Python comprehension does. *)
Fixpoint rmap {A B} (f : A -> result B) (l : list A) : result (list B) :=
  match l with
  | [] => Ok []
  | x :: xs => let! y := f x in let! ys := rmap f xs in Ok (y :: ys)
  end.

(** Fold with early exit: a [for] loop whose body may raise. *)
Fixpoint rfold {A S} (f : S -> A -> result S) (s : S) (l : list A) : result S :=
  match l with
  | [] => Ok s
  | x :: xs => let! s' := f s x in rfold f s' xs
  end.

(** ** One-dimensional tensors and Python sequences *)

Definition zlen {A} (l : list A) : Z := Z.of_nat (length l).

(** Normalisation of a slice bound: a negative bound counts from the end and
    bounds are clipped to the sequence. *)
Definition py_bound (n i : Z) : Z :=
  if i <? 0 then Z.max 0 (n + i) else Z.min i n.

(** [l[a:b]] *)
Definition py_slice {A} (l : list A) (a b : Z) : list A :=
  let a' := py_bound (zlen l) a in
  let b' := py_bound (zlen l) b in
  take (Z.to_nat (b' - a')) (drop (Z.to_nat a') l).

(** [l[:b]] and [l[a:]] *)
Definition slice_to {A} (l : list A) (b : Z) : list A := py_slice l 0 b.
Definition slice_from {A} (l : list A) (a : Z) : list A := py_slice l a (zlen l).

(** [l[i]] for an index the caller has shown to be in range. *)
Definition tget (l : list Z) (i : Z) : Z := l !!! Z.to_nat i.

(** Element [i] of [l] for a possibly negative Python index. *)
Definition py_get {A} (l : list A) (i : Z) : result A :=
  let j := if i <? 0 then i + zlen l else i in
  if j <? 0 then Err IndexError
  else match l !! Z.to_nat j with Some x => Ok x | None => Err IndexError end.

(** [l[a:b] = v] with a scalar [v]. *)
Definition fill_slice (l : list Z) (a b v : Z) : list Z :=
  let a' := py_bound (zlen l) a in
  let b' := py_bound (zlen l) b in
  imap (fun i x => if (a' <=? Z.of_nat i) && (Z.of_nat i <? b') then v else x) l.

(** [l[i] = v] for an in-range, non-negative index. *)
Definition set_at (l : list Z) (i v : Z) : list Z := <[Z.to_nat i := v]> l.

(** [l[mask] = v] with a boolean mask of the same length. *)
Definition mask_fill (l : list Z) (mask : list bool) (v : Z) : list Z :=
  zip_with (fun x (b : bool) => if b then v else x) l mask.

(** [torch.arange(a, b)] *)
Definition arange (a b : Z) : list Z := seqZ a (b - a).

(** [torch.cumsum] *)
Fixpoint cumsum_from (acc : Z) (l : list Z) : list Z :=
  match l with
  | [] => []
  | x :: xs => (acc + x) :: cumsum_from (acc + x) xs
  end.
Definition cumsum (l : list Z) : list Z := cumsum_from 0 l.

Definition zsum (l : list Z) : Z := foldr Z.add 0 l.

(** [nonzero(mask)]: the positions of the set entries, ascending. *)
Fixpoint nonzero_from (i : Z) (mask : list bool) : list Z :=
  match mask with
  | [] => []
  | b :: bs => if b : bool then i :: nonzero_from (i + 1) bs else nonzero_from (i + 1) bs
  end.
Definition nonzero (mask : list bool) : list Z := nonzero_from 0 mask.

(** [x[mask]] *)
Fixpoint mask_select {A} (l : list A) (mask : list bool) : list A :=
  match l, mask with
  | x :: xs, b :: bs => if b : bool then x :: mask_select xs bs else mask_select xs bs
  | _, _ => []
  end.

(** [torch.repeat_interleave(values, repeats)] *)
Fixpoint repeat_interleave (vs reps : list Z) : list Z :=
  match vs, reps with
  | v :: vs', r :: rs' => replicate (Z.to_nat r) v ++ repeat_interleave vs' rs'
  | _, _ => []
  end.

(** [torch.bincount(l, minlength=n)] for entries below [n]. *)
Definition bincount (l : list Z) (n : nat) : list Z :=
  map (fun b => zlen (List.filter (Z.eqb b) l)) (seqZ 0 (Z.of_nat n)).

(** [out[idx] = vals] with an index tensor. *)
Definition scatter (out idx vals : list Z) : list Z :=
  foldl (fun o iv => set_at o (fst iv) (snd iv)) out (zip idx vals).

(** [t.index_add_(0, idx, ones)] and [np.add.at(t, idx, 1)]. *)
Definition add_at (t idx : list Z) : list Z :=
  foldl (fun t c => set_at t c (tget t c + 1)) t idx.

(** [torch.unique]: sorted, without repetitions. *)
Definition unique (l : list Z) : list Z := merge_sort Z.le (remove_dups l).

(** Number of entries of [l] that satisfy [f]. *)
Definition count {A} (f : A -> bool) (l : list A) : Z := zlen (List.filter f l).

Definition b2z (b : bool) : Z := if b then 1 else 0.

(** ** Automation *)

(** Turn boolean comparisons into propositions, then [lia]. *)
Ltac bool_lia :=
  repeat match goal with
  | H : context [Z.leb ?a ?b] |- _ => destruct (Z.leb_spec a b)
  | H : context [Z.ltb ?a ?b] |- _ => destruct (Z.ltb_spec a b)
  | H : context [Z.eqb ?a ?b] |- _ => destruct (Z.eqb_spec a b)
  | |- context [Z.leb ?a ?b] => destruct (Z.leb_spec a b)
  | |- context [Z.ltb ?a ?b] => destruct (Z.ltb_spec a b)
  | |- context [Z.eqb ?a ?b] => destruct (Z.eqb_spec a b)
  end; simpl in *; try congruence; try lia.

(** [lia] with the defining equations of quotients and remainders. *)
Ltac dlia := Z.to_euclidean_division_equations; lia.

#[global] Arguments seqZ : simpl never.

Create HintDb py.
Create Rewrite HintDb py.

(** ** Lengths *)

Lemma rmap_ok {B C} (f : B -> result C) (g : B -> C) l : (forall b, b ∈ l -> f b = Ok (g b)) -> rmap f l = Ok (map g l).
Proof.
  induction l as [|b l IH]; intros Hl; [done|]. simpl. rewrite Hl by (by left). cbn [rbind].
  rewrite IH by (intros c Hc; apply Hl; by right). done.
Qed.

Lemma zlen_nonneg {A} (l : list A) : 0 <= zlen l.
Proof. unfold zlen; lia. Qed.

Lemma to_nat_zlen {A} (l : list A) : Z.to_nat (zlen l) = length l.
Proof. apply Nat2Z.id. Qed.

Lemma zlen_nil {A} : zlen (@nil A) = 0.
Proof. reflexivity. Qed.

Lemma zlen_cons {A} (x : A) l : zlen (x :: l) = 1 + zlen l.
Proof. unfold zlen; simpl length; lia. Qed.

Lemma zlen_app {A} (l k : list A) : zlen (l ++ k) = zlen l + zlen k.
Proof. unfold zlen; rewrite length_app; lia. Qed.

Lemma fill_slice_length l a b v : length (fill_slice l a b v) = length l.
Proof. unfold fill_slice. apply length_imap. Qed.

Lemma set_at_length l i v : length (set_at l i v) = length l.
Proof. apply length_insert. Qed.

Lemma mask_fill_length l mask v :
  length mask = length l -> length (mask_fill l mask v) = length l.
Proof. intros H. unfold mask_fill. rewrite length_zip_with. lia. Qed.

(** ** Lookups after slice, point and mask assignment *)

Lemma fill_slice_lookup l a b v i :
  0 <= a -> 0 <= b ->
  fill_slice l a b v !! i =
    (fun x => if (a <=? Z.of_nat i) && (Z.of_nat i <? b) then v else x) <$> l !! i.
Proof.
  intros Ha Hb. unfold fill_slice. rewrite list_lookup_imap.
  destruct (l !! i) as [x|] eqn:E; simpl; [|done].
  apply lookup_lt_Some in E. unfold py_bound, zlen. f_equal. bool_lia.
Qed.

Lemma set_at_lookup l i v j :
  0 <= i -> set_at l i v !! j = (fun x => if Z.of_nat j =? i then v else x) <$> l !! j.
Proof.
  intros Hi. unfold set_at. destruct (decide (Z.to_nat i = j)) as [<-|Hne].
  - destruct (l !! Z.to_nat i) as [x|] eqn:E.
    + rewrite list_lookup_insert_eq by (by apply lookup_lt_Some in E).
      simpl. by rewrite Z2Nat.id, Z.eqb_refl.
    + rewrite list_insert_ge by (by apply lookup_ge_None). by rewrite E.
  - rewrite list_lookup_insert_ne by done.
    destruct (l !! j); simpl; [|done]. f_equal. bool_lia.
Qed.

Lemma mask_fill_lookup l mask v i :
  length mask = length l ->
  mask_fill l mask v !! i =
    (fun x => if default false (mask !! i) then v else x) <$> l !! i.
Proof.
  intros H. unfold mask_fill. rewrite lookup_zip_with.
  destruct (l !! i) as [x|] eqn:E; simpl; [|done].
  destruct (mask !! i) as [b|] eqn:E2; simpl; [done|].
  apply lookup_lt_Some in E. apply lookup_ge_None in E2. lia.
Qed.

(** ** [nonzero] *)

Lemma nonzero_from_elem k mask i :
  i ∈ nonzero_from k mask <-> k <= i /\ mask !! Z.to_nat (i - k) = Some true.
Proof.
  revert k; induction mask as [|b mask IH]; intros k; simpl.
  - split; [by intros ?%elem_of_nil|by intros [_ ?]].
  - assert (Hstep : i ∈ nonzero_from (k + 1) mask <->
        k + 1 <= i /\ (b :: mask) !! Z.to_nat (i - k) = Some true).
    { rewrite IH. split; intros [H1 H2]; (split; [lia|]);
        replace (Z.to_nat (i - k)) with (S (Z.to_nat (i - (k + 1)))) in * by lia; done. }
    destruct b.
    + rewrite elem_of_cons, Hstep. split.
      * intros [->|[? ?]]; [|split; [lia|done]].
        split; [lia|]. by rewrite Z.sub_diag.
      * intros [? ?]. destruct (Z.eq_dec i k); [by left|right]. split; [lia|done].
    + rewrite Hstep. split; intros [H1 H2]; (split; [|done]); [lia|]. destruct (Z.eq_dec i k) as [->|]; [|lia].
      rewrite Z.sub_diag in H2. done.
Qed.

Lemma nonzero_elem mask i :
  i ∈ nonzero mask <-> 0 <= i /\ mask !! Z.to_nat i = Some true.
Proof. unfold nonzero. rewrite nonzero_from_elem, Z.sub_0_r. done. Qed.

Lemma nonzero_from_sorted k mask : StronglySorted Z.lt (nonzero_from k mask).
Proof.
  revert k; induction mask as [|b mask IH]; intros k; simpl; [constructor|].
  destruct b; [|apply IH]. constructor; [apply IH|].
  rewrite list.Forall_forall. intros x Hx%nonzero_from_elem. lia.
Qed.

Lemma nonzero_sorted mask : StronglySorted Z.lt (nonzero mask).
Proof. apply nonzero_from_sorted. Qed.

Lemma StronglySorted_filter {A} (R : A -> A -> Prop) (f : A -> bool) l :
  StronglySorted R l -> StronglySorted R (List.filter f l).
Proof.
  induction 1 as [|x l _ IH Hx]; simpl; [constructor|].
  destruct (f x); [|done]. constructor; [done|].
  rewrite list.Forall_forall in *. intros y [Hy _]%list_elem_of_In%filter_In.
  apply Hx. by apply list_elem_of_In.
Qed.

(** ** Counting *)

Lemma count_nil {A} (f : A -> bool) : count f [] = 0.
Proof. done. Qed.

Lemma count_cons {A} (f : A -> bool) x l : count f (x :: l) = b2z (f x) + count f l.
Proof.
  unfold count; simpl. destruct (f x); simpl; unfold b2z; rewrite ?zlen_cons; lia.
Qed.

Lemma count_app {A} (f : A -> bool) l k : count f (l ++ k) = count f l + count f k.
Proof. unfold count. rewrite List.filter_app. apply zlen_app. Qed.

Lemma count_nonneg {A} (f : A -> bool) l : 0 <= count f l.
Proof. apply zlen_nonneg. Qed.

Lemma count_le {A} (f : A -> bool) l : count f l <= zlen l.
Proof.
  induction l as [|x l IH]; [done|]. rewrite count_cons, zlen_cons.
  destruct (f x); simpl; lia.
Qed.

Lemma count_zero {A} (f : A -> bool) l :
  (forall x, x ∈ l -> f x = false) -> count f l = 0.
Proof.
  induction l as [|x l IH]; intros H; [done|].
  rewrite count_cons, H, IH; [done| |by left]. intros y Hy. apply H. by right.
Qed.

Lemma count_negb {A} (f g : A -> bool) l :
  (forall x, f x = negb (g x)) -> count f l = zlen l - count g l.
Proof.
  intros H. induction l as [|x l IH]; [done|].
  rewrite !count_cons, zlen_cons, IH, H. destruct (g x); simpl; lia.
Qed.

(** In a strictly increasing list, the [k]-th entry is at most [i] exactly when
    more than [k] entries are. *)
Lemma sorted_count_le us k a i :
  StronglySorted Z.lt us -> us !! k = Some a ->
  (a <= i <-> Z.of_nat k + 1 <= count (fun s => s <=? i) us).
Proof.
  intros Hs. revert k. induction Hs as [|x us Hs IH Hx]; intros k; [done|].
  rewrite list.Forall_forall in Hx. rewrite count_cons.
  assert (Hz : i < x -> count (fun s => s <=? i) us = 0).
  { intros Hi. apply count_zero. intros y Hy. specialize (Hx y Hy). bool_lia. }
  destruct k as [|k]; simpl lookup.
  - intros [= ->]. pose proof (count_nonneg (fun s => s <=? i) us).
    destruct (Z.leb_spec a i) as [H1|H1]; simpl; [lia|]. rewrite Hz; lia.
  - intros Hk. rewrite (IH _ Hk).
    assert (x < a) by (apply Hx, list_elem_of_lookup; eauto).
    destruct (Z.leb_spec x i) as [H1|H1]; simpl; [lia|]. rewrite Hz; lia.
Qed.

(** ** Sums *)

Lemma zsum_app l k : zsum (l ++ k) = zsum l + zsum k.
Proof. unfold zsum. induction l as [|x l IH]; simpl; [done|]. lia. Qed.

Lemma zsum_set_at l i v :
  0 <= i < zlen l -> zsum (set_at l i v) = zsum l - tget l i + v.
Proof.
  intros Hi. unfold set_at, tget.
  destruct (lookup_lt_is_Some_2 l (Z.to_nat i)) as [x Hx]; [unfold zlen in Hi; lia|].
  rewrite list_lookup_total_alt, Hx. simpl.
  rewrite insert_take_drop by (by eapply lookup_lt_Some).
  rewrite <- (take_drop_middle l _ x Hx) at 3. rewrite !zsum_app. simpl. lia.
Qed.

(** ** Positions selected by a predicate, slices and folds *)

Lemma tget_map_lookup {A} (f : Z -> A) ids p b :
  0 <= p -> map f ids !! Z.to_nat p = Some b -> p < zlen ids /\ f (tget ids p) = b.
Proof.
  intros Hp. rewrite list_lookup_fmap. destruct (ids !! _) as [x|] eqn:E; [|done].
  intros [= <-]. split; [apply lookup_lt_Some in E; unfold zlen; lia|].
  unfold tget. by rewrite list_lookup_total_alt, E.
Qed.

Lemma nonzero_map_elem (f : Z -> bool) ids p :
  p ∈ nonzero (map f ids) <-> 0 <= p < zlen ids /\ f (tget ids p) = true.
Proof.
  rewrite nonzero_elem. split.
  - intros [Hp H]. apply tget_map_lookup in H; [|done]. tauto.
  - intros [[Hp Hn] H]. split; [done|]. rewrite list_lookup_fmap.
    destruct (lookup_lt_is_Some_2 ids (Z.to_nat p)) as [x E]; [unfold zlen in *; lia|].
    unfold tget in H. rewrite list_lookup_total_alt, E in H. rewrite E. simpl in *. by rewrite H.
Qed.

Lemma StronglySorted_map_filter {A} (g : A -> Z) (f : A -> bool) l :
  StronglySorted Z.lt (map g l) -> StronglySorted Z.lt (map g (List.filter f l)).
Proof.
  induction l as [|x l IH]; simpl; [done|]. intros [Hs Hx]%StronglySorted_inv.
  destruct (f x); [|auto]. simpl. constructor; [auto|].
  rewrite list.Forall_forall in *. intros y (z & -> & Hz)%list_elem_of_fmap.
  apply Hx, list_elem_of_fmap. exists z. split; [done|].
  apply list_elem_of_In, filter_In in Hz as [Hz _]. by apply list_elem_of_In.
Qed.

Lemma foldl_length {A} (f : list Z -> A -> list Z) l s :
  (forall s x, length (f s x) = length s) -> length (foldl f s l) = length s.
Proof. intros H. revert s; induction l as [|x l IH]; intros s; simpl; [done|]. by rewrite IH, H. Qed.

Lemma py_slice_seg (ids : list Z) st en o :
  0 <= st -> st <= en <= zlen ids ->
  0 <= o < zlen (py_slice ids st en) -> tget (py_slice ids st en) o = tget ids (st + o) /\ st + o < en.
Proof.
  intros Hst Hen Ho. unfold py_slice, py_bound in *.
  destruct (Z.ltb_spec st 0); [lia|]. destruct (Z.ltb_spec en 0); [lia|].
  rewrite (Z.min_l st), (Z.min_l en) in * by lia.
  unfold zlen in Ho. rewrite length_take, length_drop in Ho.
  split; [|lia]. unfold tget. rewrite !list_lookup_total_alt, lookup_take, lookup_drop.
  case_decide; [|lia]. do 2 f_equal. lia.
Qed.

Lemma bounds_lookup (us : list Z) n k : (k <= length us)%nat ->
  (us ++ [n]) !!! k = default n (us !! k).
Proof.
  intros Hk. destruct (us !! k) as [a|] eqn:E; simpl.
  - rewrite list_lookup_total_alt, lookup_app_l by (by apply lookup_lt_Some in E). by rewrite E.
  - apply lookup_ge_None in E. replace k with (length us) by lia.
    by rewrite list_lookup_total_alt, list_lookup_middle.
Qed.

#[export] Hint Rewrite @zlen_nil @zlen_cons @zlen_app : py.
#[export] Hint Resolve zlen_nonneg : py.
