(* ===== verification/Floats.v ===== *)
(** * IEEE 754 arithmetic used by the code

    Python floats are binary64; the kernels compute in binary32 and store
    binary16 metadata.  All formats are instances of the executable
    specification [SpecFloat] of the Standard Library (round to nearest, ties
    to even), so every float expression of the model evaluates. *)

From Corelib Require Export SpecFloat.
From S2P Require Import Prelude.

(** ** Python floats *)

Definition f64 := spec_float.

Definition f64_of_Z (z : Z) : f64 := binary_normalize 53 1024 z 0 false.
Definition f64_add : f64 -> f64 -> f64 := SFadd 53 1024.
Definition f64_sub : f64 -> f64 -> f64 := SFsub 53 1024.
Definition f64_mul : f64 -> f64 -> f64 := SFmul 53 1024.
Definition f64_div : f64 -> f64 -> f64 := SFdiv 53 1024.
Definition f64_one : f64 := f64_of_Z 1.

(** The double nearest to [a / b], i.e. a decimal literal such as [0.05]. *)
Definition f64_ratio (a b : Z) : f64 := f64_div (f64_of_Z a) (f64_of_Z b).

(** [max(a, b)] keeps [a] unless [b > a]. *)
Definition f64_max (a b : f64) : f64 := if SFltb a b then b else a.

(** [int(x)]: truncation towards zero. *)
Definition f64_int (x : f64) : result Z :=
  match x with
  | S754_zero _ => Ok 0
  | S754_infinity _ => Err OverflowError
  | S754_nan => Err ValueError
  | S754_finite s m e =>
      let a := if 0 <=? e then Z.pos m * 2 ^ e else Z.pos m / 2 ^ (- e) in
      Ok (if s then - a else a)
  end.

(** [m * 2^e] rounded to an integer, ties to even. *)
Definition round_half_even (m e : Z) : Z :=
  if 0 <=? e then m * 2 ^ e
  else
    let d := 2 ^ (- e) in
    let q := m / d in
    let r := m mod d in
    if 2 * r <? d then q
    else if d <? 2 * r then q + 1
    else if Z.even q then q else q + 1.

(** [round(x)] *)
Definition f64_round (x : f64) : result Z :=
  match x with
  | S754_zero _ => Ok 0
  | S754_infinity _ => Err OverflowError
  | S754_nan => Err ValueError
  | S754_finite s m e =>
      let a := round_half_even (Z.pos m) e in Ok (if s then - a else a)
  end.

Example f64_trunc_ex : f64_int (f64_mul (f64_of_Z 165423) (f64_ratio 85 100)) = Ok 140609.
Proof. vm_compute. reflexivity. Qed.

(** ** Python numbers

    Values that are integers until a float joins in: integer arithmetic is
    exact, mixed arithmetic converts to binary64, and integers are compared with
    floats exactly. *)

Inductive num := NInt (z : Z) | NFloat (f : f64).

Definition to_f64 (n : num) : f64 := match n with NInt z => f64_of_Z z | NFloat f => f end.

Definition num_op (fz : Z -> Z -> Z) (ff : f64 -> f64 -> f64) (a b : num) : num :=
  match a, b with
  | NInt x, NInt y => NInt (fz x y)
  | _, _ => NFloat (ff (to_f64 a) (to_f64 b))
  end.

Definition num_add : num -> num -> num := num_op Z.add f64_add.
Definition num_sub : num -> num -> num := num_op Z.sub f64_sub.
Definition num_mul : num -> num -> num := num_op Z.mul f64_mul.

(** [sum(l)] starts from the integer 0. *)
Definition num_sum (l : list num) : num := foldl num_add (NInt 0) l.

(** The value of [f] against the integer [z]; [None] for nan. *)
Definition f64_cmp_Z (f : f64) (z : Z) : option comparison :=
  match f with
  | S754_zero _ => Some (Z.compare 0 z)
  | S754_infinity s => Some (if s then Lt else Gt)
  | S754_nan => None
  | S754_finite s m e =>
      let v := if s then Z.neg m else Z.pos m in
      Some (if 0 <=? e then Z.compare (v * 2 ^ e) z else Z.compare v (z * 2 ^ (- e)))
  end.

Definition num_cmp (a b : num) : option comparison :=
  match a, b with
  | NInt x, NInt y => Some (Z.compare x y)
  | NFloat f, NInt z => f64_cmp_Z f z
  | NInt z, NFloat f => CompOpp <$> f64_cmp_Z f z
  | NFloat f, NFloat g => SFcompare f g
  end.

Definition num_leb (a b : num) : bool := match num_cmp a b with Some Lt | Some Eq => true | _ => false end.
Definition num_ltb (a b : num) : bool := match num_cmp a b with Some Lt => true | _ => false end.

(** [min(a, b)] keeps [a] unless [b < a]. *)
Definition num_min (a b : num) : num := if num_ltb b a then b else a.

(** [int(a)] *)
Definition num_int (a : num) : result Z := match a with NInt z => Ok z | NFloat f => f64_int f end.

Lemma num_leb_int a b : num_leb (NInt a) (NInt b) = (a <=? b).
Proof. unfold num_leb. simpl. unfold Z.leb. by destruct (a ?= b). Qed.

Lemma num_ltb_int a b : num_ltb (NInt a) (NInt b) = (a <? b).
Proof. unfold num_ltb. simpl. unfold Z.ltb. by destruct (a ?= b). Qed.

Example num_mixed : num_leb (NInt 3) (num_add (NInt 2) (NFloat f64_one)) = true /\ num_leb (NInt 4) (num_add (NInt 2) (NFloat f64_one)) = false.
Proof. by vm_compute. Qed.
