(* ===== verification/DeviceFloats.v ===== *)
(** * Floats of the device kernels

    The kernels of [layers/attention/triton_ops/triaxial_kv.py] read bf16 or
    fp16 tensors, compute in fp32 and keep scales and minima in fp16.  A value
    of any of these formats is a [spec_float] in the canonical form of its
    format; [.to(...)] is a correctly rounded conversion. *)

From S2P Require Import Prelude Floats.

(** Conversion to the format with [prec] bits and largest exponent [emax]. *)
Definition sf_cast (prec emax : Z) (x : spec_float) : spec_float :=
  match x with
  | S754_finite s m e => binary_round prec emax s m e
  | _ => x
  end.

Definition f32_of : spec_float -> spec_float := sf_cast 24 128.
Definition f16_of : spec_float -> spec_float := sf_cast 11 16.
Definition bf16_of : spec_float -> spec_float := sf_cast 8 128.

(** The element types of the tensors that hold dense keys and values. *)
Inductive dtype := BF16 | FP16.

Definition cast_to (t : dtype) : spec_float -> spec_float :=
  match t with BF16 => bf16_of | FP16 => f16_of end.

Definition f32_add : spec_float -> spec_float -> spec_float := SFadd 24 128.
Definition f32_sub : spec_float -> spec_float -> spec_float := SFsub 24 128.
Definition f32_mul : spec_float -> spec_float -> spec_float := SFmul 24 128.
Definition f32_div : spec_float -> spec_float -> spec_float := SFdiv 24 128.
Definition f32_of_Z (z : Z) : spec_float := binary_normalize 24 128 z 0 false.

Definition f_zero : spec_float := S754_zero false.

Definition is_nan (x : spec_float) : bool := match x with S754_nan => true | _ => false end.

Definition is_finite (x : spec_float) : bool :=
  match x with S754_zero _ | S754_finite _ _ _ => true | _ => false end.

(** [libdevice.rint] and [torch.round]: nearest integer, ties to even. *)
Definition f32_rint (x : spec_float) : spec_float :=
  match x with
  | S754_finite s m e =>
      let r := round_half_even (Z.pos m) e in
      binary_normalize 24 128 (if s then - r else r) 0 s
  | _ => x
  end.

(** [tl.maximum] and [tl.minimum]: a NaN operand is ignored and zeros are
    ordered by their sign. *)
Definition f_max (a b : spec_float) : spec_float :=
  match a, b with
  | S754_nan, _ => b
  | _, S754_nan => a
  | S754_zero true, S754_zero _ => b
  | _, _ => if SFltb a b then b else a
  end.

Definition f_min (a b : spec_float) : spec_float :=
  match a, b with
  | S754_nan, _ => b
  | _, S754_nan => a
  | S754_zero false, S754_zero _ => b
  | _, _ => if SFltb b a then b else a
  end.

(** [tl.max] and [tl.min] of a vector. *)
Definition f_reduce (op : spec_float -> spec_float -> spec_float) (l : list spec_float) : spec_float :=
  match l with [] => S754_nan | x :: xs => foldl op x xs end.

(** torch's [amax], [amin] and [clamp]: a NaN operand wins. *)
Definition torch_max (a b : spec_float) : spec_float :=
  if is_nan a then a else if is_nan b then b else if SFltb a b then b else a.

Definition torch_min (a b : spec_float) : spec_float :=
  if is_nan a then a else if is_nan b then b else if SFltb b a then b else a.

(** [.to(int32)] of a float; the value of a NaN or an infinity is the argument
    [undef]. *)
Definition f_to_int (undef : Z) (x : spec_float) : Z :=
  match x with
  | S754_zero _ => 0
  | S754_finite s m e =>
      let a := if 0 <=? e then Z.pos m * 2 ^ e else Z.pos m / 2 ^ (- e) in
      if s then - a else a
  | _ => undef
  end.

Example f32_tenth : f32_div (f32_of_Z 1) (f32_of_Z 10) = S754_finite false 13421773 (-27).
Proof. vm_compute. reflexivity. Qed.

Example f16_tenth : f16_of (f32_div (f32_of_Z 1) (f32_of_Z 10)) = S754_finite false 1638 (-14).
Proof. vm_compute. reflexivity. Qed.
