(* ===== verification/DeviceFloatsTheory.v ===== *)
(** * Rounding of the device floats

    A closed form of [binary_round_aux] on exact inputs, canonical results of
    conversions, the exactness of fp16 in fp32, and the equality of floats up
    to the sign of a zero. *)

From S2P Require Import Prelude Floats DeviceFloats.

(** ** Digits and shifts *)

Lemma digits2_log2 p : Z.pos (digits2_pos p) = Z.log2 (Z.pos p) + 1.
Proof.
  induction p as [p IH|p IH|]; cbn [digits2_pos]; [..|done]; rewrite Pos2Z.inj_succ, IH.
  - rewrite Pos2Z.inj_xI, Z.log2_succ_double by done. lia.
  - rewrite Pos2Z.inj_xO, Z.log2_double by done. lia.
Qed.

(** One shift of a record whose discarded bits are those of [m]. *)
Definition shr_of (m : Z) (n : Z) : shr_record :=
  {| shr_m := m / 2 ^ n; shr_r := Z.odd (m / 2 ^ (n - 1)); shr_s := negb (m mod 2 ^ (n - 1) =? 0) |}.

Lemma shr_1_first m : 0 <= m -> shr_1 {| shr_m := m; shr_r := false; shr_s := false |} = shr_of m 1.
Proof.
  intros Hm. unfold shr_of. replace (1 - 1) with 0 by lia. rewrite Z.pow_0_r, Z.div_1_r, Z.mod_1_r, Z.pow_1_r, <- Z.div2_div.
  destruct m as [|[p|p|]|]; done.
Qed.

Lemma shr_1_next m n : 0 <= m -> 1 <= n -> shr_1 (shr_of m n) = shr_of m (n + 1).
Proof.
  intros Hm Hn. unfold shr_of. replace (n + 1 - 1) with n by lia.
  assert (Hd : m / 2 ^ (n + 1) = m / 2 ^ n / 2).
  { rewrite Z.pow_add_r, Z.pow_1_r by lia. rewrite Z.div_div; [done| |lia]. lia. }
  assert (Hs : Z.odd (m / 2 ^ (n - 1)) || negb (m mod 2 ^ (n - 1) =? 0) = negb (m mod 2 ^ n =? 0)).
  { replace n with ((n - 1) + 1) at 3 by lia. rewrite Z.pow_add_r, Z.pow_1_r by lia.
    assert (0 < 2 ^ (n - 1)) by lia. rewrite (Z.rem_mul_r m) by lia.
    rewrite Zodd_mod. pose proof (Z.mod_pos_bound m (2 ^ (n - 1)) ltac:(lia)).
    pose proof (Z.mod_pos_bound (m / 2 ^ (n - 1)) 2 ltac:(lia)).
    destruct (Z.eqb_spec (m mod 2 ^ (n - 1)) 0), (Z.eqb_spec ((m / 2 ^ (n - 1)) mod 2) 1); simpl;
      symmetry; rewrite ?negb_true_iff, ?negb_false_iff, ?Z.eqb_neq, ?Z.eqb_eq; nia. }
  assert (Hp : 0 <= m / 2 ^ n) by (apply Z.div_pos; lia). rewrite Hd, <- Hs, <- Z.div2_div. unfold shr_1.
  destruct (m / 2 ^ n) as [|[p|p|]|] eqn:E; done.
Qed.

Lemma iter_pos_nat {A} (f : A -> A) p x : iter_pos f p x = Nat.iter (Pos.to_nat p) f x.
Proof.
  revert x. induction p as [p IH|p IH|]; intros x; cbn [iter_pos]; [| |done].
  - rewrite !IH, Pos2Nat.inj_xI. rewrite <- Nat.iter_add, <- Nat.iter_succ_r.
    f_equal. lia.
  - rewrite !IH, Pos2Nat.inj_xO, <- Nat.iter_add. f_equal. lia.
Qed.

Lemma shr_iter m p : 0 <= m ->
  iter_pos shr_1 p {| shr_m := m; shr_r := false; shr_s := false |} = shr_of m (Z.pos p).
Proof.
  intros Hm. rewrite iter_pos_nat. replace (Z.pos p) with (Z.of_nat (Pos.to_nat p)) by lia.
  destruct (Pos.to_nat p) as [|n] eqn:E; [lia|]. clear E p. induction n as [|n IH].
  - apply shr_1_first, Hm.
  - rewrite Nat.iter_succ, IH, shr_1_next by lia. f_equal. lia.
Qed.

Lemma round_shr_of m n : 0 <= m -> 1 <= n ->
  round_nearest_even (shr_m (shr_of m n)) (loc_of_shr_record (shr_of m n)) = round_half_even m (- n).
Proof.
  intros Hm Hn. unfold round_half_even. destruct (Z.leb_spec 0 (- n)); [lia|]. rewrite Z.opp_involutive.
  unfold shr_of, loc_of_shr_record. cbn [shr_m].
  assert (0 < 2 ^ (n - 1)) by lia. assert (E : 2 ^ n = 2 ^ (n - 1) * 2) by (replace n with (n - 1 + 1) at 1 by lia; rewrite Z.pow_add_r, Z.pow_1_r by lia; lia).
  pose proof (Z.rem_mul_r m (2 ^ (n - 1)) 2 ltac:(lia) ltac:(lia)) as Hr. rewrite <- E in Hr.
  rewrite Zodd_mod.
  pose proof (Z.mod_pos_bound m (2 ^ (n - 1)) ltac:(lia)). pose proof (Z.mod_pos_bound (m / 2 ^ (n - 1)) 2 ltac:(lia)).
  destruct (Z.eqb_spec ((m / 2 ^ (n - 1)) mod 2) 1), (Z.eqb_spec (m mod 2 ^ (n - 1)) 0); simpl;
    destruct (Z.ltb_spec (2 * (m mod 2 ^ n)) (2 ^ n)), (Z.ltb_spec (2 ^ n) (2 * (m mod 2 ^ n))); try nia; done.
Qed.

(** ** Closed form of the rounding of an exact value *)

Section rounding.
Context (prec emax : Z).
Notation fexp' := (fexp prec emax).

Lemma round_half_even_pos m n : 0 <= m -> 0 <= round_half_even m n.
Proof.
  intros Hm. unfold round_half_even. destruct (Z.leb_spec 0 n); [lia|].
  assert (0 <= m / 2 ^ (- n)) by (apply Z.div_pos; lia). repeat case_match; lia.
Qed.

Lemma round_half_even_exact m n : 0 <= n -> round_half_even (m * 2 ^ n) (- n) = m.
Proof.
  intros Hn. unfold round_half_even. destruct (Z.leb_spec 0 (- n)).
  - replace n with 0 by lia. simpl. lia.
  - rewrite Z.opp_involutive, Z.mod_mul, Z.div_mul by lia. destruct (Z.ltb_spec (2 * 0) (2 ^ n)); [done|lia].
Qed.

(** [m * 2^e] rounded: the mantissa after each of the two shifts. *)
Definition round_exp (m e : Z) : Z := Z.max e (fexp' (Zdigits2 m + e)).
Definition round_mant (m e : Z) : Z := round_half_even m (- (round_exp m e - e)).

Lemma shr_fexp_exact m e : 0 <= m ->
  let '(mrs, e') := shr_fexp prec emax m e loc_Exact in
  e' = round_exp m e /\ round_nearest_even (shr_m mrs) (loc_of_shr_record mrs) = round_mant m e /\
  shr_m mrs = m / 2 ^ (e' - e).
Proof.
  intros Hm. unfold shr_fexp, shr, shr_record_of_loc, round_mant, round_exp.
  set (f := fexp' _). destruct (f - e) as [|p|p] eqn:E.
  - rewrite Z.max_l by lia. rewrite !Z.sub_diag. simpl. rewrite Z.div_1_r. repeat split. unfold round_half_even. simpl. lia.
  - rewrite shr_iter by done. rewrite Z.max_r by lia. rewrite <- E. repeat split; [lia| |].
    + by apply round_shr_of; lia.
    + cbn [shr_m shr_of]. do 2 f_equal. lia.
  - rewrite Z.max_l by lia. rewrite !Z.sub_diag. simpl. rewrite Z.div_1_r. repeat split. unfold round_half_even. simpl. lia.
Qed.

Lemma binary_round_aux_exact s m e : 0 <= m ->
  binary_round_aux prec emax s m e loc_Exact =
    let m1 := round_mant m e in let e1 := round_exp m e in
    let e2 := round_exp m1 e1 in
    match m1 / 2 ^ (e2 - e1) with
    | Z0 => S754_zero s
    | Zpos m2 => if e2 <=? emax - prec then S754_finite s m2 e2 else S754_infinity s
    | Zneg _ => S754_nan
    end.
Proof.
  intros Hm. unfold binary_round_aux. pose proof (shr_fexp_exact m e Hm) as H1.
  destruct (shr_fexp _ _ m e loc_Exact) as [mrs e1]. destruct H1 as (He1 & Hm1 & _). rewrite Hm1.
  assert (H0 : 0 <= round_mant m e) by (apply round_half_even_pos, Hm).
  pose proof (shr_fexp_exact (round_mant m e) e1 H0) as H2.
  destruct (shr_fexp _ _ _ e1 loc_Exact) as [mrs2 e2]. destruct H2 as (He2 & _ & Hm2). subst e1.
  cbv zeta. rewrite <- He2, <- Hm2. destruct (shr_m mrs2); done.
Qed.
End rounding.

(** ** Conversions give canonical values *)

Lemma shl_align_spec m e e' :
  exists mz ez, shl_align m e e' = (mz, ez) /\ ez = Z.min e e' /\ Z.pos mz = Z.pos m * 2 ^ (e - ez).
Proof.
  unfold shl_align. destruct (e' - e) as [|d|d] eqn:E.
  - exists m, e. repeat split; [lia|]. rewrite Z.sub_diag. lia.
  - exists m, e. repeat split; [lia|]. rewrite Z.sub_diag. lia.
  - eexists _, e'. repeat split; [lia|]. replace (e - e') with (Z.pos d) by lia. clear E.
    rewrite Pos2Nat.inj_iter. replace (Z.pos d) with (Z.of_nat (Pos.to_nat d)) by lia.
    induction (Pos.to_nat d) as [|n IH]; [simpl; lia|].
    cbn [nat_rect Nat.iter]. rewrite Pos2Z.inj_xO. rewrite Nat2Z.inj_succ, Z.pow_succ_r by lia.
    rewrite IH. lia.
Qed.

Lemma Zdigits2_pos m : 0 < m -> Zdigits2 m = Z.log2 m + 1.
Proof. destruct m; try lia. intros _. apply digits2_log2. Qed.

Lemma log2_mul_pow2' m k : 0 < m -> 0 <= k -> Z.log2 (m * 2 ^ k) = Z.log2 m + k.
Proof. intros. rewrite Z.log2_mul_pow2 by lia. lia. Qed.

Section canonical.
Context (prec emax : Z) (Hprec : 1 < prec).
Notation fexp' := (fexp prec emax).
Notation emin' := (emin prec emax).

(** The mantissa of a rounded value has at most [prec] bits, or is [2^prec]. *)
Lemma round_mant_bound m e : 0 < m -> 0 <= round_mant prec emax m e <= 2 ^ prec.
Proof.
  intros Hm. split; [apply round_half_even_pos; lia|].
  unfold round_mant. set (e1 := round_exp prec emax m e).
  assert (Hd : e <= e1) by (unfold e1, round_exp; lia).
  assert (Hlog : Z.log2 m + 1 + e - prec <= e1).
  { unfold e1, round_exp, fexp. rewrite Zdigits2_pos by done. lia. }
  assert (Hup : m < 2 ^ (prec + (e1 - e))).
  { pose proof (Z.log2_spec m Hm) as [_ H]. eapply Z.lt_le_trans; [exact H|]. apply Z.pow_le_mono_r; lia. }
  rewrite Z.pow_add_r in Hup by lia. unfold round_half_even.
  destruct (Z.leb_spec 0 (- (e1 - e))).
  - replace (e1 - e) with 0 in * by lia. rewrite Z.pow_0_r in Hup. simpl. lia.
  - rewrite Z.opp_involutive. assert (0 < 2 ^ (e1 - e)) by lia.
    assert (m / 2 ^ (e1 - e) < 2 ^ prec) by (apply Z.div_lt_upper_bound; lia). repeat case_match; lia.
Qed.

Lemma round_exp_min m e : emin' <= round_exp prec emax m e.
Proof. unfold round_exp, fexp. lia. Qed.

(** The second shift only happens when rounding reached the next power of two. *)
Lemma second_shift m e : 0 < m -> 0 < round_mant prec emax m e ->
  let m1 := round_mant prec emax m e in let e1 := round_exp prec emax m e in
  (m1 < 2 ^ prec /\ round_exp prec emax m1 e1 = e1) \/
  (m1 = 2 ^ prec /\ round_exp prec emax m1 e1 = e1 + 1).
Proof.
  intros Hm Hm1. cbv zeta. pose proof (round_mant_bound m e Hm) as [_ Hb]. pose proof (round_exp_min m e) as He.
  set (m1 := round_mant prec emax m e) in *. set (e1 := round_exp prec emax m e) in *.
  unfold round_exp, fexp. rewrite Zdigits2_pos by done.
  destruct (Z.eq_dec m1 (2 ^ prec)) as [E|E]; [right|left]; (split; [lia|]).
  - rewrite E, Z.log2_pow2 by lia. lia.
  - assert (Z.log2 m1 < prec) by (apply Z.log2_lt_pow2; lia). lia.
Qed.

(** A rounded mantissa is at least half of the next power unless the exponent is minimal. *)
Lemma round_mant_large m e : 0 < m -> e <= fexp' (Zdigits2 m + e) -> emin' < round_exp prec emax m e ->
  2 ^ (prec - 1) <= round_mant prec emax m e.
Proof.
  intros Hm He Hmin. unfold round_mant. set (e1 := round_exp prec emax m e) in *.
  assert (E : e1 = Z.log2 m + 1 + e - prec).
  { unfold e1, round_exp, fexp in *. rewrite Zdigits2_pos in * by done. lia. }
  assert (Hlo : 2 ^ (prec - 1) * 2 ^ (e1 - e) <= m).
  { assert (e <= e1) by (unfold e1, round_exp; lia). rewrite <- Z.pow_add_r by lia.
    pose proof (Z.log2_spec m Hm) as [H' _]. etrans; [|exact H']. apply Z.pow_le_mono_r; lia. }
  assert (0 <= e1 - e) by (unfold e1, round_exp; lia).
  unfold round_half_even. destruct (Z.leb_spec 0 (- (e1 - e))).
  - replace (e1 - e) with 0 in * by lia. simpl. lia.
  - rewrite Z.opp_involutive. assert (0 < 2 ^ (e1 - e)) by lia.
    assert (2 ^ (prec - 1) <= m / 2 ^ (e1 - e)) by (apply Z.div_le_lower_bound; lia). repeat case_match; lia.
Qed.

Lemma round_aux_canonical s m e : 0 < m -> e <= fexp' (Zdigits2 m + e) ->
  valid_binary prec emax (binary_round_aux prec emax s m e loc_Exact) = true.
Proof.
  intros Hm He. rewrite binary_round_aux_exact by lia. cbv zeta.
  pose proof (round_mant_bound m e Hm) as [H0 _]. pose proof (round_mant_large m e Hm He) as Hl.
  pose proof (second_shift m e Hm) as Hs. pose proof (round_exp_min m e) as Hmin.
  set (m1 := round_mant prec emax m e) in *. set (e1 := round_exp prec emax m e) in *.
  destruct (Z.eq_dec m1 0) as [E0|E0]; [rewrite E0; by rewrite Zdiv_0_l|].
  destruct (m1 / 2 ^ _) as [|m2|m2] eqn:E2; [done| |done]. case_match eqn:Ele; [|done].
  unfold valid_binary, bounded, canonical_mantissa. rewrite Ele, andb_true_r. apply Z.eqb_eq.
  unfold fexp. change (Z.pos (digits2_pos m2)) with (Zdigits2 (Z.pos m2)). rewrite Zdigits2_pos, <- E2 by lia.
  destruct Hs as [[Hlt E]|[Heq E]]; [lia| |]; rewrite E in *.
  - rewrite Z.sub_diag, Z.pow_0_r, Z.div_1_r in *. assert (Z.log2 m1 < prec) by (apply Z.log2_lt_pow2; lia).
    destruct (Z.eq_dec e1 emin'); [lia|]. assert (prec - 1 <= Z.log2 m1); [|lia].
    apply Z.log2_le_pow2; lia.
  - replace (e1 + 1 - e1) with 1 in * by lia. rewrite Heq in *.
    replace prec with (prec - 1 + 1) at 1 by lia. rewrite Z.pow_add_r, Z.div_mul by lia.
    rewrite Z.log2_pow2 by lia. lia.
Qed.

Lemma binary_round_valid s m e : valid_binary prec emax (binary_round prec emax s m e) = true.
Proof.
  unfold binary_round.
  destruct (shl_align_spec m e (fexp' (Z.pos (digits2_pos m) + e))) as (mz & ez & -> & Hez & Hmz).
  apply round_aux_canonical; [lia|].
  rewrite Zdigits2_pos by lia. rewrite Hmz, log2_mul_pow2' by lia. rewrite digits2_log2 in Hez.
  replace (Z.log2 (Z.pos m) + (e - ez) + 1 + ez) with (Z.log2 (Z.pos m) + 1 + e) by lia. lia.
Qed.

Lemma cast_valid x : valid_binary prec emax (sf_cast prec emax x) = true.
Proof. destruct x; try done. apply binary_round_valid. Qed.
End canonical.

(** ** A narrower format inside a wider one *)

(** Rounding a value that needs no shift. *)
Lemma round_aux_id prec emax s m e :
  fexp prec emax (Z.pos (digits2_pos m) + e) <= e -> e <= emax - prec ->
  binary_round_aux prec emax s (Z.pos m) e loc_Exact = S754_finite s m e.
Proof.
  intros Hf He. rewrite binary_round_aux_exact by lia. cbv zeta.
  assert (E1 : round_exp prec emax (Z.pos m) e = e) by (unfold round_exp; cbn [Zdigits2]; lia).
  assert (E2 : round_mant prec emax (Z.pos m) e = Z.pos m).
  { unfold round_mant. rewrite E1, Z.sub_diag. unfold round_half_even. simpl. lia. }
  rewrite E1, E2, E1, Z.sub_diag, Z.pow_0_r, Z.div_1_r. destruct (Z.leb_spec e (emax - prec)); [done|lia].
Qed.

(** Both finite and non-zero with the same sign, or the same special value. *)
Definition same_class (x y : spec_float) : Prop :=
  match x, y with
  | S754_finite s _ _, S754_finite s' _ _ => s = s'
  | S754_finite _ _ _, _ => False
  | _, _ => y = x
  end.

Section widen.
Context (p1 e1 p2 e2 : Z) (Hp : 1 < p1 <= p2) (Hmin : emin p2 e2 <= emin p1 e1) (Hmax : e1 - p1 <= e2 - p2).

Lemma widen_finite s m e : bounded p1 e1 m e = true ->
  exists mz ez, sf_cast p2 e2 (S754_finite s m e) = S754_finite s mz ez /\
    ez <= e /\ Z.pos mz = Z.pos m * 2 ^ (e - ez).
Proof.
  unfold bounded, canonical_mantissa. intros [Hc%Z.eqb_eq Hb%Z.leb_le]%andb_prop.
  cbn [sf_cast]. unfold binary_round.
  destruct (shl_align_spec m e (fexp p2 e2 (Z.pos (digits2_pos m) + e))) as (mz & ez & -> & Hez & Hmz).
  assert (Hfe : fexp p2 e2 (Z.pos (digits2_pos m) + e) <= e) by (unfold fexp in *; lia).
  exists mz, ez. split; [|split; [lia|done]]. apply round_aux_id; [|lia].
  rewrite digits2_log2, Hmz, log2_mul_pow2' by lia. rewrite digits2_log2 in Hez, Hfe.
  replace (Z.log2 (Z.pos m) + (e - ez) + 1 + ez) with (Z.log2 (Z.pos m) + 1 + e) by lia. lia.
Qed.

(** Widening and narrowing again is the identity. *)
Lemma widen_narrow x : valid_binary p1 e1 x = true -> sf_cast p1 e1 (sf_cast p2 e2 x) = x.
Proof.
  destruct x as [s|s| |s m e]; try done. intros Hv. cbn [valid_binary] in Hv.
  destruct (widen_finite s m e Hv) as (mz & ez & -> & Hle & Hmz).
  unfold bounded, canonical_mantissa in Hv. apply andb_prop in Hv as [Hc%Z.eqb_eq Hb].
  cbn [sf_cast]. unfold binary_round. rewrite digits2_log2 in Hc.
  assert (Hd : Z.pos (digits2_pos mz) + ez = Z.log2 (Z.pos m) + 1 + e).
  { rewrite digits2_log2, Hmz, log2_mul_pow2' by lia. lia. }
  destruct (shl_align_spec mz ez (fexp p1 e1 (Z.pos (digits2_pos mz) + ez))) as (my & ey & -> & Hey & Hmy).
  rewrite Hd, Hc in Hey. assert (Ey : ey = ez) by lia. clear Hey. subst ey. rewrite Z.sub_diag, Z.mul_1_r in Hmy.
  rewrite binary_round_aux_exact by lia. cbv zeta.
  assert (E1 : round_exp p1 e1 (Z.pos my) ez = e).
  { unfold round_exp. rewrite Hmy. cbn [Zdigits2]. rewrite Hd, Hc. lia. }
  assert (E2 : round_mant p1 e1 (Z.pos my) ez = Z.pos m).
  { unfold round_mant. rewrite E1, Hmy, Hmz. apply round_half_even_exact. lia. }
  assert (E3 : round_exp p1 e1 (Z.pos m) e = e).
  { unfold round_exp. cbn [Zdigits2]. rewrite digits2_log2, Hc. lia. }
  rewrite E1, E2, E3, Z.sub_diag, Z.pow_0_r, Z.div_1_r, Hb. done.
Qed.

(** Widening keeps values apart from zero and does not overflow. *)
Lemma widen_class x : valid_binary p1 e1 x = true -> same_class x (sf_cast p2 e2 x).
Proof.
  destruct x as [s|s| |s m e]; try done. intros Hv. destruct (widen_finite s m e Hv) as (mz & ez & Ec & _). by rewrite Ec.
Qed.
End widen.

Lemma f16_f32_f16 x : f16_of (f32_of (f16_of x)) = f16_of x.
Proof.
  apply widen_narrow; [lia|done|lia|]. unfold f16_of. apply cast_valid. lia.
Qed.

Lemma f16_widen_class x : same_class (f16_of x) (f32_of (f16_of x)).
Proof.
  apply (widen_class 11 16 24 128); [lia|done|lia|]. unfold f16_of. apply cast_valid. lia.
Qed.

(** ** Operations on finite values do not give NaN *)

Lemma shr_1_nonneg mrs : 0 <= shr_m mrs -> 0 <= shr_m (shr_1 mrs).
Proof. destruct mrs as [m r s]. simpl. intros Hm. destruct m as [|[p|p|]|]; simpl; lia. Qed.

Lemma shr_nonneg mrs e n : 0 <= shr_m mrs -> 0 <= shr_m (shr mrs e n).1.
Proof.
  intros Hm. unfold shr. destruct n; simpl; [done| |done]. rewrite iter_pos_nat.
  induction (Pos.to_nat p); [done|]. rewrite Nat.iter_succ. by apply shr_1_nonneg.
Qed.

Lemma shr_fexp_nonneg prec emax m e l : 0 <= m -> 0 <= shr_m (shr_fexp prec emax m e l).1.
Proof. intros Hm. apply shr_nonneg. unfold shr_record_of_loc. by repeat case_match. Qed.

Lemma round_aux_not_nan prec emax s m e l : 0 <= m -> is_nan (binary_round_aux prec emax s m e l) = false.
Proof.
  intros Hm. unfold binary_round_aux. pose proof (shr_fexp_nonneg prec emax m e l Hm) as H1.
  destruct (shr_fexp _ _ m e l) as [mrs e1]. simpl in H1.
  assert (H2 : 0 <= round_nearest_even (shr_m mrs) (loc_of_shr_record mrs)).
  { unfold round_nearest_even. repeat case_match; lia. }
  pose proof (shr_fexp_nonneg prec emax _ e1 loc_Exact H2) as H3.
  destruct (shr_fexp _ _ _ e1 loc_Exact) as [mrs2 e2]. simpl in H3. repeat case_match; simplify_eq/=; done || lia.
Qed.

Lemma normalize_not_nan prec emax m e s : is_nan (binary_normalize prec emax m e s) = false.
Proof.
  unfold binary_normalize, binary_round.
  destruct m as [|p|p]; [done| |]; destruct (shl_align _ _ _); by apply round_aux_not_nan.
Qed.

Lemma cast_not_nan prec emax x : is_nan (sf_cast prec emax x) = is_nan x.
Proof.
  destruct x; try done. simpl. unfold binary_round. destruct (shl_align _ _ _). by apply round_aux_not_nan.
Qed.

Lemma sub_not_nan x y : is_finite x = true -> is_finite y = true -> is_nan (f32_sub x y) = false.
Proof.
  unfold f32_sub. destruct x as [[]|[]| |sx mx ex], y as [[]|[]| |sy my ey]; try done. intros _ _. apply normalize_not_nan.
Qed.

Lemma div_core_nonneg m1 e1 m2 e2 : 0 < m1 -> 0 < m2 -> 0 <= (SFdiv_core_binary 24 128 m1 e1 m2 e2).1.1.
Proof.
  intros H1 H2. unfold SFdiv_core_binary.
  match goal with |- context [Z.div_eucl ?a m2] => set (t := a) end.
  assert (0 <= t). { unfold t. case_match; try lia. apply Z.shiftl_nonneg. lia. }
  pose proof (Z.div_pos t m2) as Hd. unfold Z.div in Hd. destruct (Z.div_eucl t m2). simpl. lia.
Qed.

(** A divisor that is neither zero nor NaN. *)
Lemma div_not_nan x y : is_nan x = false -> is_nan y = false -> SFeqb y f_zero = false ->
  (is_finite x || is_finite y) = true -> is_nan (f32_div x y) = false.
Proof.
  unfold f32_div. destruct x as [[]|[]| |sx mx ex], y as [[]|[]| |sy my ey]; try done. intros _ _ _ _.
  cbn [SFdiv]. pose proof (div_core_nonneg (Z.pos mx) ex (Z.pos my) ey eq_refl eq_refl) as Hn.
  destruct (SFdiv_core_binary _ _ _ _ _ _) as [[q e'] l]. by apply round_aux_not_nan.
Qed.

(** ** Magnitudes *)

(** Below [2^k] in absolute value. *)
Definition below (k : Z) (x : spec_float) : Prop :=
  match x with
  | S754_zero _ => True
  | S754_finite _ m e => Z.pos (digits2_pos m) + e <= k
  | _ => False
  end.

Lemma round_exp_result prec emax s m e : 0 < m ->
  match binary_round_aux prec emax s m e loc_Exact with
  | S754_finite _ _ e2 => round_exp prec emax m e <= e2 <= emax - prec
  | _ => True
  end.
Proof.
  intros Hm. rewrite binary_round_aux_exact by lia. cbv zeta.
  set (e2 := round_exp prec emax (round_mant prec emax m e) (round_exp prec emax m e)).
  destruct (_ / _); [done| |done]. destruct (Z.leb_spec e2 (emax - prec)); [|done]. split; [|done]. unfold e2, round_exp. lia.
Qed.

Lemma f16_finite_below y : is_finite (f16_of y) = true -> below 16 y.
Proof.
  unfold f16_of. destruct y as [s|s| |s m e]; try done. cbn [sf_cast below]. unfold binary_round.
  destruct (shl_align_spec m e (fexp 11 16 (Z.pos (digits2_pos m) + e))) as (mz & ez & -> & Hez & Hmz).
  pose proof (round_exp_result 11 16 s (Z.pos mz) ez eq_refl) as Hr. intros Hf.
  assert (Hd : Z.pos (digits2_pos mz) + ez = Z.pos (digits2_pos m) + e).
  { rewrite !digits2_log2, Hmz, log2_mul_pow2' by lia. lia. }
  assert (Hre : round_exp 11 16 (Z.pos mz) ez >= Z.pos (digits2_pos m) + e - 11).
  { unfold round_exp, fexp. cbn [Zdigits2]. rewrite Hd. lia. }
  destruct (binary_round_aux 11 16 s (Z.pos mz) ez loc_Exact) eqn:E; try done; [|lia].
  destruct (Z.le_gt_cases (Z.pos (digits2_pos m) + e) 16) as [?|Hbig]; [done|exfalso].
  (* a large value does not round to zero *)
  pose proof (round_mant_large 11 16 ltac:(lia) (Z.pos mz) ez eq_refl) as Hl.
  assert (Hlow : 2 ^ 10 <= round_mant 11 16 (Z.pos mz) ez).
  { apply Hl; [cbn [Zdigits2]; rewrite Hd; lia|]. unfold emin. lia. }
  pose proof (second_shift 11 16 ltac:(lia) (Z.pos mz) ez eq_refl ltac:(lia)) as Hs. cbv zeta in Hs.
  rewrite binary_round_aux_exact in E by lia. cbv zeta in E.
  destruct Hs as [[_ Hs]|[Hm Hs]]; rewrite Hs in E.
  - rewrite Z.sub_diag, Z.pow_0_r, Z.div_1_r in E. destruct (round_mant _ _ _ _); [lia| |lia]. by destruct (_ <=? _).
  - rewrite Hm in E. replace (round_exp 11 16 (Z.pos mz) ez + 1 - round_exp 11 16 (Z.pos mz) ez) with 1 in E by lia.
    change (2 ^ 11 / 2 ^ 1) with 1024 in E. by destruct (_ <=? _).
Qed.

Lemma f16_widen_below y : is_finite (f16_of y) = true -> below 16 (f32_of (f16_of y)).
Proof.
  intros Hf. pose proof (cast_valid 11 16 ltac:(lia) y) as Hv. fold f16_of in Hv. fold (f16_of y) in Hv.
  destruct (f16_of y) as [s|s| |s m e] eqn:E; try done. cbn [valid_binary] in Hv.
  destruct (widen_finite 11 16 24 128 ltac:(lia) ltac:(done) ltac:(lia) s m e Hv) as (mz & ez & Ec & Hle & Hmz).
  unfold f32_of. rewrite Ec. cbn [below]. rewrite digits2_log2, Hmz, log2_mul_pow2' by lia.
  unfold bounded, canonical_mantissa in Hv. apply andb_prop in Hv as [Hc%Z.eqb_eq Hb%Z.leb_le].
  rewrite digits2_log2 in Hc. unfold fexp in Hc. lia.
Qed.

Lemma normalize_finite m e s : (m <> 0 -> Z.log2 (Z.abs m) + 1 + e <= 100) -> is_finite (binary_normalize 24 128 m e s) = true.
Proof.
  intros Hm. assert (Hr : forall s p, Z.log2 (Z.pos p) + 1 + e <= 100 -> is_finite (binary_round 24 128 s p e) = true).
  { clear. intros s p Hp. unfold binary_round.
    destruct (shl_align_spec p e (fexp 24 128 (Z.pos (digits2_pos p) + e))) as (mz & ez & -> & Hez & Hmz).
    rewrite binary_round_aux_exact by lia. cbv zeta. rewrite digits2_log2 in Hez.
    assert (Hd : Z.pos (digits2_pos mz) + ez = Z.log2 (Z.pos p) + 1 + e).
    { rewrite digits2_log2, Hmz, log2_mul_pow2' by lia. lia. }
    assert (He1 : round_exp 24 128 (Z.pos mz) ez <= 76).
    { unfold round_exp. cbn [Zdigits2]. rewrite Hd. unfold fexp in *. unfold emin in *. lia. }
    pose proof (round_mant_bound 24 128 ltac:(lia) (Z.pos mz) ez eq_refl) as [H0 Hb].
    destruct (Z.eq_dec (round_mant 24 128 (Z.pos mz) ez) 0) as [E0|E0]; [rewrite E0; by rewrite Zdiv_0_l|].
    pose proof (second_shift 24 128 ltac:(lia) (Z.pos mz) ez eq_refl ltac:(lia)) as Hs. cbv zeta in Hs.
    assert (He2 : round_exp 24 128 (round_mant 24 128 (Z.pos mz) ez) (round_exp 24 128 (Z.pos mz) ez) <= 77) by lia.
    set (e2 := round_exp _ _ (round_mant _ _ _ _) _) in *.
    assert (0 <= round_mant 24 128 (Z.pos mz) ez / 2 ^ (e2 - round_exp 24 128 (Z.pos mz) ez)) by (apply Z.div_pos; lia).
    destruct (_ / _); [done| |lia]. destruct (Z.leb_spec e2 (128 - 24)); [done|lia]. }
  destruct m; [done| |]; apply Hr; by apply Hm.
Qed.

Lemma sub_finite x y : below 16 x -> below 16 y -> is_finite (f32_sub x y) = true.
Proof.
  unfold f32_sub. destruct x as [[]|[]| |sx mx ex], y as [[]|[]| |sy my ey]; try done. cbn [below]. intros Hx Hy.
  cbn [SFsub].
  destruct (shl_align_spec mx ex (Z.min ex ey)) as (a & ea & -> & Hea & Ha).
  destruct (shl_align_spec my ey (Z.min ex ey)) as (b & eb & -> & Heb & Hb). cbn [fst].
  apply normalize_finite. intros Hne.
  set (ez := Z.min ex ey) in *. assert (ea = ez /\ eb = ez) as [-> ->] by lia.
  rewrite digits2_log2 in *.
  assert (Hup : forall m e, Z.log2 (Z.pos m) + 1 + e <= 16 -> ez <= e -> 0 <= 16 - ez -> Z.pos m * 2 ^ (e - ez) < 2 ^ (16 - ez)).
  { intros m e Hm He H0. pose proof (Z.log2_spec (Z.pos m) ltac:(lia)) as [_ Hl].
    pose proof (Z.log2_nonneg (Z.pos m)).
    eapply Z.lt_le_trans; [apply Z.mul_lt_mono_pos_r; [lia|exact Hl]|]. rewrite <- Z.pow_add_r by lia. apply Z.pow_le_mono_r; lia. }
  pose proof (Z.log2_nonneg (Z.pos mx)). pose proof (Z.log2_nonneg (Z.pos my)).
  pose proof (Hup mx ex Hx ltac:(lia) ltac:(lia)). pose proof (Hup my ey Hy ltac:(lia) ltac:(lia)).
  set (d := cond_Zopp sx (Z.pos a) - cond_Zopp sy (Z.pos b)) in *.
  assert (Z.abs d < 2 ^ (17 - ez)).
  { replace (17 - ez) with (16 - ez + 1) by lia. rewrite Z.pow_add_r, Z.pow_1_r by lia. unfold d, cond_Zopp. destruct sx, sy; lia. }
  assert (Z.log2 (Z.abs d) < 17 - ez) by (apply Z.log2_lt_pow2; lia). lia.
Qed.
