(* ===== verification/Tensors.v ===== *)
(** * Lemmas on one-dimensional tensor operations

    Prefix sums, masked selection, scatter through [nonzero], segmentation by
    [repeat_interleave], [bincount], [index_add_] and slicing, shared by the
    allocators and the pool. *)

From S2P Require Import Prelude.

(** ** Slices *)

Lemma slice_to_take {A} (l : list A) n : 0 <= n -> slice_to l n = take (Z.to_nat n) l.
Proof.
  intros Hn. unfold slice_to, py_slice, py_bound, zlen.
  destruct (Z.ltb_spec n 0); [lia|]. destruct (Z.ltb_spec 0 0); [lia|].
  rewrite (Z.min_l 0), drop_0 by lia.
  destruct (Z.le_gt_cases n (Z.of_nat (length l))).
  - f_equal. lia.
  - rewrite (take_ge l (Z.to_nat n)), take_ge; [done|lia|lia].
Qed.

Lemma slice_from_drop {A} (l : list A) n : 0 <= n -> slice_from l n = drop (Z.to_nat n) l.
Proof.
  intros Hn. unfold slice_from, py_slice, py_bound, zlen.
  destruct (Z.ltb_spec n 0); [lia|].
  destruct (Z.ltb_spec (Z.of_nat (length l)) 0); [lia|].
  rewrite (Z.min_l (Z.of_nat (length l))) by lia.
  destruct (Z.le_gt_cases n (Z.of_nat (length l))).
  - rewrite Z.min_l by lia. rewrite take_ge; [done|]. rewrite length_drop. lia.
  - rewrite Z.min_r by lia. rewrite !drop_ge by lia. by rewrite take_nil.
Qed.

Lemma py_slice_take_drop {A} (l : list A) a b :
  0 <= a -> a <= b -> py_slice l a b = take (Z.to_nat (b - a)) (drop (Z.to_nat a) l).
Proof.
  intros Ha Hb. unfold py_slice, py_bound. destruct (Z.ltb_spec a 0); [lia|].
  destruct (Z.ltb_spec b 0); [lia|]. unfold zlen.
  destruct (Z.le_gt_cases a (Z.of_nat (length l))).
  - rewrite (Z.min_l a) by lia. destruct (Z.le_gt_cases b (Z.of_nat (length l))).
    + by rewrite Z.min_l by lia.
    + rewrite Z.min_r by lia. rewrite !take_ge; [done| |]; rewrite length_drop; lia.
  - rewrite !drop_ge by lia. by rewrite !take_nil.
Qed.

Lemma slice_from_suffix {A} (l k : list A) : k <> [] -> slice_from (l ++ k) (- zlen k) = k.
Proof.
  intros Hk. assert (0 < zlen k) by (destruct k; [done|unfold zlen; simpl; lia]).
  unfold slice_from, py_slice, py_bound, zlen in *. rewrite !length_app.
  destruct (Z.ltb_spec (- Z.of_nat (length k)) 0); [|lia]. destruct (Z.ltb_spec (Z.of_nat (length l + length k)) 0); [lia|].
  rewrite Z.max_r, Z.min_l by lia. rewrite drop_app_le by lia.
  replace (Z.to_nat (- Z.of_nat (length k) + Z.of_nat (length l + length k))) with (length l) by lia.
  rewrite drop_ge by lia. apply take_ge. simpl. lia.
Qed.

Lemma zlen_take {A} (l : list A) n : 0 <= n <= zlen l -> zlen (take (Z.to_nat n) l) = n.
Proof. unfold zlen. intros. rewrite length_take. lia. Qed.

Lemma zlen_drop {A} (l : list A) n : 0 <= n <= zlen l -> zlen (drop (Z.to_nat n) l) = zlen l - n.
Proof. unfold zlen. intros. rewrite length_drop. lia. Qed.

Lemma tget_nat (l : list Z) (i : nat) : tget l (Z.of_nat i) = l !!! i.
Proof. unfold tget. by rewrite Nat2Z.id. Qed.

Lemma tget_lookup_Some (l : list Z) (i : nat) x : l !! i = Some x -> tget l (Z.of_nat i) = x.
Proof. intros H. by rewrite tget_nat, list_lookup_total_alt, H. Qed.

(** ** Prefix sums *)

Lemma cumsum_from_length acc l : length (cumsum_from acc l) = length l.
Proof. revert acc; induction l as [|x l IH]; intros acc; simpl; [done|]. by rewrite IH. Qed.

Lemma cumsum_from_lookup acc l i :
  (i < length l)%nat -> cumsum_from acc l !! i = Some (acc + zsum (take (S i) l)).
Proof.
  revert acc i; induction l as [|x l IH]; intros acc i; simpl; [lia|].
  destruct i as [|i]; simpl; intros Hi.
  - f_equal. unfold zsum; simpl. lia.
  - rewrite IH by lia. f_equal. unfold zsum. simpl. lia.
Qed.

Lemma cumsum_from_app acc l k :
  cumsum_from acc (l ++ k) = cumsum_from acc l ++ cumsum_from (acc + zsum l) k.
Proof.
  revert acc; induction l as [|x l IH]; intros acc; simpl.
  - by rewrite Z.add_0_r.
  - rewrite IH. unfold zsum; simpl. by rewrite Z.add_assoc.
Qed.

Lemma zsum_b2z {A} (f : A -> bool) l : zsum (map (fun x => b2z (f x)) l) = count f l.
Proof.
  unfold zsum. induction l as [|x l IH]; simpl; [done|]. rewrite IH, count_cons. done.
Qed.

Lemma zsum_mask (m : list bool) : zsum (map b2z m) = count id m.
Proof. apply (zsum_b2z id). Qed.

Lemma tget_cons_cumsum l n :
  0 <= n <= zlen l -> tget (0 :: cumsum l) n = zsum (take (Z.to_nat n) l).
Proof.
  intros Hn. destruct (Z.eq_dec n 0) as [->|Hne]; [done|].
  unfold tget. replace (Z.to_nat n) with (S (Z.to_nat (n - 1))) by lia. simpl.
  unfold cumsum. rewrite list_lookup_total_alt, cumsum_from_lookup; [done|].
  unfold zlen in Hn; lia.
Qed.

(** ** Masks *)

Lemma mask_select_app {A} (l k : list A) m m' :
  length l = length m -> mask_select (l ++ k) (m ++ m') = mask_select l m ++ mask_select k m'.
Proof.
  revert m; induction l as [|x l IH]; intros [|b m]; simpl; intros H; try lia; [done|].
  rewrite IH by lia. by destruct b.
Qed.

Lemma count_map {A B} (f : B -> bool) (g : A -> B) l : count f (map g l) = count (fun x => f (g x)) l.
Proof. induction l as [|x l IH]; [done|]. simpl. by rewrite !count_cons, IH. Qed.

Lemma count_ext {A} (f g : A -> bool) l :
  (forall x, x ∈ l -> f x = g x) -> count f l = count g l.
Proof.
  induction l as [|x l IH]; intros H; [done|]. rewrite !count_cons, H, IH; [done| |by left].
  intros y Hy. apply H. by right.
Qed.

Lemma count_take_S (m : list bool) i b :
  m !! i = Some b -> count id (take (S i) m) = count id (take i m) + b2z b.
Proof. intros H. rewrite (take_S_r _ _ _ H), count_app, count_cons, count_nil. simpl. lia. Qed.

Lemma count_take_le {A} (f : A -> bool) l i : count f (take i l) <= count f l.
Proof.
  rewrite <- (take_drop i l) at 2. rewrite count_app. pose proof (count_nonneg f (drop i l)). lia.
Qed.

Lemma count_negb_mask (m : list bool) : count id (map negb m) = zlen m - count id m.
Proof. rewrite count_map. by apply count_negb. Qed.

(** Writing through the positions of a mask. *)
Lemma scatter_app out i1 i2 v1 v2 :
  length i1 = length v1 -> scatter out (i1 ++ i2) (v1 ++ v2) = scatter (scatter out i1 v1) i2 v2.
Proof. intros H. unfold scatter. by rewrite zip_with_app, foldl_app by done. Qed.

Lemma scatter_length out idx vals : length (scatter out idx vals) = length out.
Proof. unfold scatter. apply foldl_length. intros. apply set_at_length. Qed.

Lemma scatter_nonzero_from k mask vals out i :
  0 <= k -> zlen vals = count id mask -> length out = (Z.to_nat k + length mask)%nat ->
  scatter out (nonzero_from k mask) vals !! i =
    if (k <=? Z.of_nat i) && default false (mask !! (i - Z.to_nat k)%nat)
    then vals !! Z.to_nat (count id (take (i - Z.to_nat k)%nat mask))
    else out !! i.
Proof.
  revert k vals out. induction mask as [|b mask IH]; intros k vals out Hk Hv Hl; simpl.
  { by rewrite andb_false_r. }
  rewrite count_cons in Hv. simpl in Hl.
  destruct b; simpl in *.
  - destruct vals as [|v vals]; [rewrite zlen_nil in Hv; pose proof (count_nonneg id mask); unfold id in *; simpl in *; lia|].
    unfold scatter. simpl. fold (scatter (set_at out k v) (nonzero_from (k + 1) mask) vals).
    rewrite IH; [|lia|rewrite zlen_cons in Hv; unfold id in *; simpl in *; lia|rewrite set_at_length; lia].
    destruct (Z.compare_spec (Z.of_nat i) k) as [He|Hlt|Hgt].
    + replace (i - Z.to_nat k)%nat with 0%nat by lia. rewrite take_0, count_nil. simpl.
      replace (k + 1 <=? Z.of_nat i) with false by bool_lia. simpl.
      replace (k <=? Z.of_nat i) with true by bool_lia. simpl.
      rewrite set_at_lookup by lia. destruct (lookup_lt_is_Some_2 out i) as [x ->]; [lia|].
      simpl. f_equal. bool_lia.
    + replace (k + 1 <=? Z.of_nat i) with false by bool_lia.
      replace (k <=? Z.of_nat i) with false by bool_lia. simpl.
      rewrite set_at_lookup by lia. destruct (out !! i); simpl; [f_equal; bool_lia|done].
    + replace (k + 1 <=? Z.of_nat i) with true by bool_lia.
      replace (k <=? Z.of_nat i) with true by bool_lia. simpl.
      replace (i - Z.to_nat k)%nat with (S (i - Z.to_nat (k + 1)))%nat by lia. simpl.
      destruct (default false _).
      * rewrite count_cons. pose proof (count_nonneg id (take (i - Z.to_nat (k + 1)) mask)).
        simpl. by replace (Z.to_nat (1 + count id (take (i - Z.to_nat (k + 1)) mask)))
          with (S (Z.to_nat (count id (take (i - Z.to_nat (k + 1)) mask)))) by lia.
      * rewrite set_at_lookup by lia. destruct (out !! i); simpl; [f_equal; bool_lia|done].
  - rewrite IH; [|lia|unfold id in *; simpl in *; lia|lia].
    destruct (Z.compare_spec (Z.of_nat i) k) as [He|Hlt|Hgt].
    + replace (i - Z.to_nat k)%nat with 0%nat by lia. simpl.
      replace (k + 1 <=? Z.of_nat i) with false by bool_lia. by rewrite andb_false_r.
    + replace (k + 1 <=? Z.of_nat i) with false by bool_lia.
      by replace (k <=? Z.of_nat i) with false by bool_lia.
    + replace (k + 1 <=? Z.of_nat i) with true by bool_lia.
      replace (k <=? Z.of_nat i) with true by bool_lia. simpl.
      replace (i - Z.to_nat k)%nat with (S (i - Z.to_nat (k + 1)))%nat by lia. simpl.
      rewrite count_cons. simpl. done.
Qed.

Lemma scatter_nonzero mask vals out i :
  zlen vals = count id mask -> length out = length mask ->
  scatter out (nonzero mask) vals !! i =
    if default false (mask !! i) then vals !! Z.to_nat (count id (take i mask)) else out !! i.
Proof.
  intros Hv Hl. unfold nonzero. rewrite scatter_nonzero_from by (done || lia).
  replace (i - Z.to_nat 0)%nat with i by lia. by replace (0 <=? Z.of_nat i) with true by bool_lia.
Qed.

Lemma nonzero_from_length k mask : zlen (nonzero_from k mask) = count id mask.
Proof.
  revert k. induction mask as [|b mask IH]; intros k; simpl; [done|].
  rewrite count_cons. destruct b; simpl; rewrite ?zlen_cons, IH; done.
Qed.

Lemma nonzero_length mask : zlen (nonzero mask) = count id mask.
Proof. apply nonzero_from_length. Qed.

(** The positions of a mask, in order. *)
Lemma nonzero_from_lookup k mask i :
  0 <= k -> mask !! i = Some true ->
  nonzero_from k mask !! Z.to_nat (count id (take i mask)) = Some (k + Z.of_nat i).
Proof.
  revert k i. induction mask as [|b mask IH]; intros k i Hk; [done|].
  destruct i as [|i]; simpl.
  - intros [= ->]. simpl. f_equal. lia.
  - intros Hi. rewrite count_cons. pose proof (count_nonneg id (take i mask)).
    specialize (IH (k + 1) i ltac:(lia) Hi). destruct b; cbn [id b2z].
    + replace (Z.to_nat (1 + count id (take i mask))) with (S (Z.to_nat (count id (take i mask)))) by lia.
      cbn [lookup list_lookup]. etransitivity; [exact IH|]. f_equal. lia.
    + rewrite Z.add_0_l. etransitivity; [exact IH|]. f_equal. lia.
Qed.

Lemma nonzero_lookup mask i :
  mask !! i = Some true ->
  nonzero mask !! Z.to_nat (count id (take i mask)) = Some (Z.of_nat i).
Proof. intros H. unfold nonzero. by rewrite nonzero_from_lookup. Qed.

(** ** Merging two lists along a mask *)

Fixpoint merge_mask (mask : list bool) (l1 l2 : list Z) : list Z :=
  match mask with
  | [] => []
  | true :: m => match l1 with x :: l1' => x :: merge_mask m l1' l2 | [] => [] end
  | false :: m => match l2 with x :: l2' => x :: merge_mask m l1 l2' | [] => [] end
  end.

Lemma merge_mask_lookup mask l1 l2 i b :
  zlen l1 = count id mask -> zlen l2 = zlen mask - count id mask -> mask !! i = Some b ->
  merge_mask mask l1 l2 !! i =
    if b : bool then l1 !! Z.to_nat (count id (take i mask))
    else l2 !! Z.to_nat (Z.of_nat i - count id (take i mask)).
Proof.
  revert l1 l2 i. induction mask as [|c mask IH]; intros l1 l2 i H1 H2 Hi; [done|].
  rewrite count_cons in H1, H2. rewrite zlen_cons in H2.
  pose proof (count_nonneg id mask). pose proof (count_le id mask).
  destruct c; simpl in *.
  - destruct l1 as [|x l1]; [rewrite zlen_nil in H1; simpl in *; lia|]. rewrite zlen_cons in H1.
    destruct i as [|i]; simpl in *; [by injection Hi as <-|].
    rewrite (IH l1 l2 i) by (done || simpl in *; lia). rewrite count_cons. simpl.
    pose proof (count_nonneg id (take i mask)). pose proof (count_le id (take i mask)) as Hc.
    unfold zlen in Hc. rewrite length_take in Hc.
    destruct b.
    + by replace (Z.to_nat (1 + count id (take i mask))) with (S (Z.to_nat (count id (take i mask)))) by lia.
    + f_equal. lia.
  - destruct l2 as [|x l2]; [rewrite zlen_nil in H2; simpl in *; lia|]. rewrite zlen_cons in H2.
    destruct i as [|i]; simpl in *; [by injection Hi as <-|].
    rewrite (IH l1 l2 i) by (done || simpl in *; lia). rewrite count_cons. simpl.
    pose proof (count_nonneg id (take i mask)). pose proof (count_le id (take i mask)) as Hc.
    unfold zlen in Hc. rewrite length_take in Hc. apply lookup_lt_Some in Hi.
    destruct b; [done|].
    replace (Z.to_nat (Z.of_nat (S i) - (0 + count id (take i mask))))
      with (S (Z.to_nat (Z.of_nat i - count id (take i mask)))) by lia. done.
Qed.

Lemma merge_mask_length mask l1 l2 :
  zlen l1 = count id mask -> zlen l2 = zlen mask - count id mask ->
  length (merge_mask mask l1 l2) = length mask.
Proof.
  revert l1 l2. induction mask as [|c mask IH]; intros l1 l2 H1 H2; [done|].
  rewrite count_cons in H1, H2. rewrite zlen_cons in H2.
  pose proof (count_nonneg id mask). pose proof (count_le id mask).
  destruct c; simpl in *.
  - destruct l1 as [|x l1]; [rewrite zlen_nil in H1; lia|]. rewrite zlen_cons in H1.
    simpl. by rewrite IH by lia.
  - destruct l2 as [|x l2]; [rewrite zlen_nil in H2; lia|]. rewrite zlen_cons in H2.
    simpl. by rewrite IH by lia.
Qed.

Lemma merge_mask_perm mask l1 l2 :
  zlen l1 = count id mask -> zlen l2 = zlen mask - count id mask ->
  merge_mask mask l1 l2 ≡ₚ l1 ++ l2.
Proof.
  revert l1 l2. induction mask as [|c mask IH]; intros l1 l2 H1 H2.
  { rewrite count_nil in *. change (zlen (@nil bool)) with 0 in H2. destruct l1, l2; try done;
    rewrite zlen_cons in *; pose proof (zlen_nonneg l1); pose proof (zlen_nonneg l2); lia. }
  rewrite count_cons in H1, H2. rewrite zlen_cons in H2.
  pose proof (count_nonneg id mask). pose proof (count_le id mask).
  destruct c; simpl in *.
  - destruct l1 as [|x l1]; [rewrite zlen_nil in H1; lia|]. rewrite zlen_cons in H1.
    simpl. by rewrite IH by lia.
  - destruct l2 as [|x l2]; [rewrite zlen_nil in H2; lia|]. rewrite zlen_cons in H2.
    simpl. rewrite IH by lia. by apply Permutation_middle.
Qed.

Lemma count_perm {A} (f : A -> bool) (l k : list A) : l ≡ₚ k -> count f l = count f k.
Proof.
  induction 1; [done| | |congruence]; rewrite ?count_cons in *; lia.
Qed.

Lemma filter_perm {A} (f : A -> bool) (l k : list A) : l ≡ₚ k -> List.filter f l ≡ₚ List.filter f k.
Proof.
  induction 1 as [|x l k _ IH|x y l|l1 l2 l3 _ IH1 _ IH2]; simpl.
  - done.
  - destruct (f x); by rewrite IH.
  - destruct (f x), (f y); try done. apply Permutation_swap.
  - by rewrite IH1.
Qed.

Lemma filter_all {A} (f : A -> bool) (l : list A) :
  (forall x, x ∈ l -> f x = true) -> List.filter f l = l.
Proof.
  induction l as [|x l IH]; simpl; intros H; [done|]. rewrite H, IH; [done| |by left].
  intros y Hy. apply H. by right.
Qed.

Lemma filter_none {A} (f : A -> bool) (l : list A) :
  (forall x, x ∈ l -> f x = false) -> List.filter f l = [].
Proof.
  induction l as [|x l IH]; simpl; intros H; [done|]. rewrite H, IH; [done| |by left].
  intros y Hy. apply H. by right.
Qed.

Lemma NoDup_filter_b {A} (f : A -> bool) (l : list A) : NoDup l -> NoDup (List.filter f l).
Proof. rewrite !NoDup_ListNoDup. apply List.NoDup_filter. Qed.

Lemma elem_of_filter_b {A} (f : A -> bool) (l : list A) x :
  x ∈ List.filter f l <-> x ∈ l /\ f x = true.
Proof. rewrite !list_elem_of_In. apply filter_In. Qed.

(** The two halves of a list that a boolean predicate separates. *)
Lemma filter_split_perm {A} (f : A -> bool) (l : list A) :
  List.filter f l ++ List.filter (fun x => negb (f x)) l ≡ₚ l.
Proof.
  induction l as [|x l IH]; simpl; [done|]. destruct (f x); simpl.
  - by rewrite IH.
  - by rewrite <- Permutation_middle, IH.
Qed.

Lemma filter_comm {A} (f g : A -> bool) l :
  List.filter f (List.filter g l) = List.filter g (List.filter f l).
Proof.
  induction l as [|x l IH]; [done|]. simpl.
  destruct (g x) eqn:Eg, (f x) eqn:Ef; simpl; rewrite ?Eg, ?Ef, IH; done.
Qed.

Lemma zlen_le_0 {A} (l : list A) : zlen l <= 0 -> l = [].
Proof. destruct l as [|x l]; [done|]. rewrite zlen_cons. pose proof (zlen_nonneg l). lia. Qed.

Lemma tget_set_at l i v p :
  0 <= i < zlen l -> 0 <= p -> tget (set_at l i v) p = if p =? i then v else tget l p.
Proof.
  intros Hi Hp. unfold tget, set_at. unfold zlen in Hi. destruct (Z.eqb_spec p i) as [->|Hne].
  - rewrite list_lookup_total_insert_eq by lia. done.
  - rewrite list_lookup_total_insert_ne by lia. done.
Qed.

Lemma zlen_set_at l i v : zlen (set_at l i v) = zlen l.
Proof. unfold zlen. by rewrite set_at_length. Qed.

Lemma add_at_spec t idx :
  (forall i, i ∈ idx -> 0 <= i < zlen t) ->
  zlen (add_at t idx) = zlen t /\ zsum (add_at t idx) = zsum t + zlen idx /\
  forall p, 0 <= p -> tget (add_at t idx) p = tget t p + count (Z.eqb p) idx.
Proof.
  unfold add_at. revert t. induction idx as [|i idx IH]; intros t H; simpl.
  - change (zlen []) with 0. repeat split; [lia|]. intros p Hp. change (count (Z.eqb p) []) with 0. lia.
  - assert (Hi : 0 <= i < zlen t) by (apply H; by left).
    destruct (IH (set_at t i (tget t i + 1))) as (H1 & H2 & H3).
    { intros j Hj. rewrite zlen_set_at. apply H. by right. }
    rewrite H1, H2, zlen_set_at, zsum_set_at, zlen_cons by done. repeat split; [lia|].
    intros p Hp. rewrite H3, tget_set_at, count_cons by done.
    destruct (Z.eqb_spec p i); subst; simpl; lia.
Qed.

Lemma zsum_const {A} (f : A -> Z) v l : (forall x, x ∈ l -> f x = v) -> zsum (map f l) = zlen l * v.
Proof.
  unfold zsum. induction l as [|x l IH]; intros H; [done|]. cbn [map foldr].
  rewrite IH, H, zlen_cons by set_solver. lia.
Qed.

Lemma unique_elem x l : x ∈ unique l <-> x ∈ l.
Proof. unfold unique. rewrite merge_sort_Permutation. apply elem_of_remove_dups. Qed.

Lemma unique_NoDup l : NoDup (unique l).
Proof. unfold unique. rewrite merge_sort_Permutation. apply NoDup_remove_dups. Qed.

Lemma decide_elem_app (p c : Z) l k :
  (forall x, x ∈ l -> x ∉ k) ->
  (if decide (p ∈ l ++ k) then c else 0) =
  (if decide (p ∈ l) then c else 0) + (if decide (p ∈ k) then c else 0).
Proof.
  intros H. specialize (H p). destruct (decide (p ∈ l ++ k)) as [Ha|Ha];
    rewrite elem_of_app in Ha; destruct (decide (p ∈ l)), (decide (p ∈ k)); try lia; tauto.
Qed.

Lemma zsum_map_add {A} (f g : A -> Z) l :
  zsum (map (fun x => f x + g x) l) = zsum (map f l) + zsum (map g l).
Proof. unfold zsum. induction l as [|x l IH]; simpl; lia. Qed.

Lemma zsum_indicator (ps : list Z) m n c :
  NoDup ps -> (forall p, p ∈ ps -> m <= p < m + n) ->
  zsum (map (fun p => if decide (p ∈ ps) then c else 0) (seqZ m n)) = zlen ps * c.
Proof.
  intros Hnd Hr.
  assert (Hp : ps ++ List.filter (fun p => negb (bool_decide (p ∈ ps))) (seqZ m n) ≡ₚ seqZ m n).
  { rewrite <- (filter_split_perm (fun p => bool_decide (p ∈ ps)) (seqZ m n)) at 2.
    apply Permutation_app; [|done]. apply NoDup_Permutation; [done|apply NoDup_filter_b, NoDup_seqZ|].
    intros p. rewrite elem_of_filter_b, elem_of_seqZ, bool_decide_eq_true. specialize (Hr p). tauto. }
  assert (Hz : forall l k, l ≡ₚ k -> zsum l = zsum k) by (intros l k; unfold zsum; induction 1; simpl; lia).
  rewrite <- (Hz _ _ (Permutation_map (fun p => if decide (p ∈ ps) then c else 0) Hp)).
  rewrite map_app, zsum_app, (zsum_const _ c), (zsum_const _ 0).
  - lia.
  - intros p [_ H]%elem_of_filter_b. rewrite decide_False; [done|]. intros Hin. by rewrite bool_decide_true in H.
  - intros p H. by rewrite decide_True.
Qed.

(** The counters as a sum over the pages. *)
Lemma zsum_tget (l : list Z) : zsum (map (tget l) (seqZ 0 (zlen l))) = zsum l.
Proof.
  f_equal. apply list_eq. intros i. rewrite list_lookup_fmap. destruct (l !! i) as [x|] eqn:E.
  - rewrite lookup_seqZ_lt by (apply lookup_lt_Some in E; unfold zlen; lia). simpl. f_equal.
    rewrite Z.add_0_l. by apply tget_lookup_Some.
  - rewrite lookup_seqZ_ge; [done|]. apply lookup_ge_None in E. unfold zlen. lia.
Qed.

Lemma zsum_nonneg l : Forall (fun x => 0 <= x) l -> 0 <= zsum l.
Proof. induction 1; unfold zsum in *; simpl; lia. Qed.

Lemma zsum_take_S (l : list Z) k x : l !! k = Some x -> zsum (take (S k) l) = zsum (take k l) + x.
Proof.
  intros H. rewrite (take_S_r _ _ _ H), zsum_app. unfold zsum at 2. simpl. lia.
Qed.
