(* ===== verification/Triton.v ===== *)
(** * Triton programs on one-dimensional integer memories

    The fragment of the Triton language that the bookkeeping kernels use: block
    ranges, masked loads and stores, and a launch over a grid.  A memory is the
    contents of one tensor; the value of a lane whose mask is off and that names
    no [other] value is the parameter [undef].  Programs of one launch run in
    any order: a launch takes the order of the program ids. *)

From S2P Require Import Prelude Tensors.

Definition tl_arange (n : Z) : list Z := seqZ 0 n.

(** [tl.load(ptr + off)] for one lane; memory outside the tensor is unspecified
    and read as 0, and callers show that such values are not used. *)
Definition tl_load (mem : list Z) (i : Z) : Z := if i <? 0 then 0 else tget mem i.

Lemma tl_load_tget mem i : 0 <= i -> tl_load mem i = tget mem i.
Proof. intros Hi. unfold tl_load. destruct (Z.ltb_spec i 0); [lia|done]. Qed.

Definition tl_load_masked (undef : Z) (mem : list Z) (mask : bool) (i : Z) : Z :=
  if mask then tl_load mem i else undef.

(** [tl.store(out + base + off, val, mask)] over the lanes [lanes]. *)
Definition tl_store (out : list Z) (lanes : list Z) (addr val : Z -> Z) (mask : Z -> bool) : list Z :=
  foldl (fun o l => if mask l && (0 <=? addr l) then set_at o (addr l) (val l) else o) out lanes.

Definition tl_sum (l : list Z) : Z := zsum l.

Definition tl_cdiv (a b : Z) : Z := (a + b - 1) / b.

(** A grid of programs, in the order in which they happen to run. *)
Definition launch (prog : list Z -> Z -> list Z) (order : list Z) (out : list Z) : list Z :=
  foldl prog out order.

(** ** Contiguous stores *)

Lemma tl_store_length out lanes addr val mask :
  length (tl_store out lanes addr val mask) = length out.
Proof.
  unfold tl_store. apply foldl_length. intros s x. destruct (mask x && _); [apply set_at_length|done].
Qed.

Lemma launch_length prog order out :
  (forall o p, length (prog o p) = length o) -> length (launch prog order out) = length out.
Proof. apply foldl_length. Qed.

Lemma tl_store_app out l1 l2 addr val mask :
  tl_store out (l1 ++ l2) addr val mask = tl_store (tl_store out l1 addr val mask) l2 addr val mask.
Proof. apply foldl_app. Qed.

(** A store through an injective address function writes each selected lane. *)
Lemma tl_store_lookup out lanes addr val mask i :
  (forall a b, a ∈ lanes -> b ∈ lanes -> addr a = addr b -> a = b) ->
  (forall l, l ∈ lanes -> mask l = true -> 0 <= addr l) -> NoDup lanes ->
  (i < length out)%nat ->
  (forall l, l ∈ lanes -> mask l = true -> addr l = Z.of_nat i ->
     tl_store out lanes addr val mask !! i = Some (val l)) /\
  ((forall l, l ∈ lanes -> mask l = true -> addr l <> Z.of_nat i) ->
     tl_store out lanes addr val mask !! i = out !! i).
Proof.
  intros Hinj Hpos Hnd. revert out. induction lanes as [|x lanes IH] using rev_ind; intros out Hi.
  - split; [by intros l ?%elem_of_nil|done].
  - apply list.NoDup_app in Hnd as (Hnd & Hd & _). rewrite tl_store_app.
    destruct (IH) with (out := out) as [IH1 IH2]; [set_solver|set_solver|done|done|].
    set (o := tl_store out lanes addr val mask) in *.
    assert (Hlo : length o = length out) by apply tl_store_length.
    assert (Hx : tl_store o [x] addr val mask !! i =
      if mask x && (addr x =? Z.of_nat i) then Some (val x) else o !! i).
    { unfold tl_store. simpl. destruct (mask x) eqn:Em; simpl; [|done].
      assert (Hp : 0 <= addr x) by (apply Hpos; [set_solver|done]).
      destruct (Z.leb_spec 0 (addr x)); [|lia]. simpl. rewrite set_at_lookup by done.
      destruct (lookup_lt_is_Some_2 o i) as [y Hy]; [lia|]. rewrite Hy. simpl.
      rewrite (Z.eqb_sym (addr x)). by destruct (_ =? _). }
    rewrite Hx. split.
    + intros l Hl Hm Ha. apply elem_of_app in Hl as [Hl|Hl%list_elem_of_singleton].
      * destruct (mask x && (addr x =? Z.of_nat i)) eqn:E; [|by apply IH1].
        apply andb_prop in E as [_ E]. apply Z.eqb_eq in E.
        assert (l = x) by (apply Hinj; [set_solver|set_solver|lia]). subst. exfalso. eapply Hd; [done|set_solver].
      * subst l. rewrite Hm, Ha, Z.eqb_refl. done.
    + intros Hno. destruct (mask x) eqn:Em; simpl.
      * destruct (Z.eqb_spec (addr x) (Z.of_nat i)) as [E|E].
        { exfalso. eapply (Hno x); [set_solver|done|done]. }
        apply IH2. intros l Hl. apply Hno. set_solver.
      * apply IH2. intros l Hl. apply Hno. set_solver.
Qed.

(** The common shape: lanes [0..w), address [base + lane], mask [lane < n]. *)
Lemma tl_store_block out w base val n i :
  0 <= base -> n <= w -> (i < length out)%nat ->
  tl_store out (tl_arange w) (fun l => base + l) val (fun l => l <? n) !! i =
    if (base <=? Z.of_nat i) && (Z.of_nat i <? base + n) then Some (val (Z.of_nat i - base))
    else out !! i.
Proof.
  intros Hb Hn Hi.
  destruct (tl_store_lookup out (tl_arange w) (fun l => base + l) val (fun l => l <? n) i) as [H1 H2].
  - intros; lia.
  - intros l Hl%elem_of_seqZ _. lia.
  - apply NoDup_seqZ.
  - done.
  - destruct ((base <=? Z.of_nat i) && (Z.of_nat i <? base + n)) eqn:E.
    + apply H1; [apply elem_of_seqZ; bool_lia|bool_lia|lia].
    + apply H2. intros l Hl%elem_of_seqZ Hm. bool_lia.
Qed.

(** A launch whose programs write disjoint regions does not depend on the order. *)
Lemma launch_lookup (prog : list Z -> Z -> list Z) (region : Z -> nat -> Prop) (val : nat -> Z)
    order out i :
  (forall o p, length (prog o p) = length o) ->
  (forall o p, p ∈ order -> (i < length o)%nat -> region p i -> prog o p !! i = Some (val i)) ->
  (forall o p, p ∈ order -> (i < length o)%nat -> ~ region p i -> prog o p !! i = o !! i) ->
  (forall p, region p i \/ ~ region p i) ->
  (i < length out)%nat ->
  ((exists p, p ∈ order /\ region p i) -> launch prog order out !! i = Some (val i)) /\
  ((forall p, p ∈ order -> ~ region p i) -> launch prog order out !! i = out !! i).
Proof.
  intros Hlen Hin Hout Hdec. unfold launch.
  induction order as [|p order IH] using rev_ind; intros Hi.
  - split; [by intros (p & ?%elem_of_nil & _)|done].
  - rewrite foldl_app. simpl.
    assert (Hl : (i < length (foldl prog out order))%nat) by (rewrite foldl_length; done).
    destruct IH as [IH1 IH2]; [set_solver|set_solver|done|].
    destruct (Hdec p) as [Hr|Hr].
    + split; [|intros Hno; exfalso; apply (Hno p); [set_solver|done]].
      intros _. apply Hin; [set_solver|done|done].
    + rewrite Hout by (set_solver || done). split.
      * intros (q & [Hq|Hq%list_elem_of_singleton]%elem_of_app & Hqr); [|by subst].
        apply IH1. by exists q.
      * intros Hno. apply IH2. intros q Hq. apply Hno. set_solver.
Qed.

(** ** Blocked loops

    [for b in range(cdiv(n, BLOCK))] with offsets [b * BLOCK + lane] masked by
    [offset < n]. *)

Definition tl_blocks (out : list Z) (BLOCK n base : Z) (val : Z -> Z) : list Z :=
  foldl (fun o b =>
      tl_store o (tl_arange BLOCK) (fun l => base + (b * BLOCK + l))
        (fun l => val (b * BLOCK + l)) (fun l => b * BLOCK + l <? n))
    out (tl_arange (tl_cdiv n BLOCK)).

Lemma tl_blocks_length out B n base val : length (tl_blocks out B n base val) = length out.
Proof. apply foldl_length. intros. apply tl_store_length. Qed.

Lemma tl_arange_S k : 0 <= k -> tl_arange (k + 1) = tl_arange k ++ [k].
Proof.
  intros Hk. unfold tl_arange. rewrite seqZ_app by lia. f_equal.
Qed.

Lemma tl_blocks_prefix out B n base val i k :
  0 < B -> 0 <= base -> 0 <= k -> (i < length out)%nat ->
  foldl (fun o b =>
      tl_store o (tl_arange B) (fun l => base + (b * B + l))
        (fun l => val (b * B + l)) (fun l => b * B + l <? n)) out (tl_arange k) !! i =
    if (base <=? Z.of_nat i) && (Z.of_nat i <? base + Z.min n (k * B))
    then Some (val (Z.of_nat i - base)) else out !! i.
Proof.
  intros HB Hb Hk Hi. pattern k. apply natlike_ind; [|clear k Hk|done].
  - simpl. destruct (_ && _) eqn:E; [|done]. bool_lia.
  - intros k Hk IH. unfold Z.succ. rewrite tl_arange_S, foldl_app by done. cbn [foldl].
    set (o := foldl _ out (tl_arange k)) in *.
    assert (Hlo : length o = length out) by (apply foldl_length; intros; apply tl_store_length).
    destruct (tl_store_lookup o (tl_arange B) (fun l => base + (k * B + l))
      (fun l => val (k * B + l)) (fun l => k * B + l <? n) i) as [H1 H2].
    + intros; lia.
    + intros l Hl%elem_of_seqZ _. nia.
    + apply NoDup_seqZ.
    + lia.
    + destruct (decide (base + k * B <= Z.of_nat i < base + Z.min n ((k + 1) * B))) as [Hin|Hout].
      * rewrite (H1 (Z.of_nat i - base - k * B)); [|apply elem_of_seqZ; lia|bool_lia|lia]. cbv beta.
        replace (k * B + (Z.of_nat i - base - k * B)) with (Z.of_nat i - base) by lia.
        rewrite (proj2 (andb_true_iff _ _)); [done|]. rewrite Z.leb_le, Z.ltb_lt. nia.
      * rewrite H2 by (intros l Hl%elem_of_seqZ Hm; bool_lia). rewrite IH.
        assert (Heq : ((base <=? Z.of_nat i) && (Z.of_nat i <? base + Z.min n (k * B))) =
                ((base <=? Z.of_nat i) && (Z.of_nat i <? base + Z.min n ((k + 1) * B)))).
        { apply eq_true_iff_eq. rewrite !andb_true_iff, !Z.leb_le, !Z.ltb_lt. nia. }
        by rewrite Heq.
Qed.

Lemma tl_blocks_lookup out B n base val i :
  0 < B -> 0 <= base -> (i < length out)%nat ->
  tl_blocks out B n base val !! i =
    if (base <=? Z.of_nat i) && (Z.of_nat i <? base + n)
    then Some (val (Z.of_nat i - base)) else out !! i.
Proof.
  intros HB Hb Hi. unfold tl_blocks. destruct (Z.le_gt_cases 0 (tl_cdiv n B)) as [Hk|Hk].
  - rewrite tl_blocks_prefix by done. unfold tl_cdiv in *.
    assert (n <= (n + B - 1) / B * B) by (Z.to_euclidean_division_equations; nia).
    rewrite Z.min_l by done. done.
  - unfold tl_arange. assert (n <= 0) by (unfold tl_cdiv in Hk; Z.to_euclidean_division_equations; nia).
    replace (seqZ 0 (tl_cdiv n B)) with (@nil Z) by (unfold seqZ; by replace (Z.to_nat (tl_cdiv n B)) with 0%nat by lia).
    simpl. destruct (_ && _) eqn:E; [bool_lia|done].
Qed.
