(* ===== verification/DeviceMemory.v ===== *)
(** * Device memory, launches and contiguous tensors

    A tensor is its shape and a memory that gives the element at each offset in
    row-major order.  A program of a launch that does not read what the launch
    writes is the list of its writes; the programs of a launch run in any
    order. *)

From S2P Require Import Prelude.

Definition mem (A : Type) := Z -> A.

Definition poke {A} (m : mem A) (a : Z) (v : A) : mem A := fun x => if x =? a then v else m x.

Definition apply_writes {A} (m : mem A) (ws : list (Z * A)) : mem A :=
  foldl (fun m '(a, v) => poke m a v) m ws.

Record tensor (A : Type) := { shape : list Z; elems : mem A }.
Arguments shape {A} _.
Arguments elems {A} _.

Definition with_elems {A} (t : tensor A) (m : mem A) : tensor A := {| shape := shape t; elems := m |}.

Definition dim {A} (t : tensor A) (i : nat) : Z := shape t !!! i.

Definition numel {A} (t : tensor A) : Z := foldr Z.mul 1 (shape t).

(** Offset of [idx] in a contiguous tensor of shape [sh]. *)
Fixpoint offset_from (acc : Z) (sh idx : list Z) : Z :=
  match sh, idx with
  | n :: sh', i :: idx' => offset_from (acc * n + i) sh' idx'
  | _, _ => acc
  end.

Definition at_ {A} (t : tensor A) (idx : list Z) : A := elems t (offset_from 0 (shape t) idx).

(** The programs [(p, q)] of a grid of two axes. *)
Definition grid2 (n m : Z) : list (Z * Z) := flat_map (fun p => map (pair p) (seqZ 0 m)) (seqZ 0 n).

(** ** Writes *)

Lemma apply_writes_app {A} (m : mem A) ws ws' : apply_writes m (ws ++ ws') = apply_writes (apply_writes m ws) ws'.
Proof. apply foldl_app. Qed.

Lemma apply_writes_frame {A} (m : mem A) ws a : a ∉ ws.*1 -> apply_writes m ws a = m a.
Proof.
  induction ws as [|[b v] ws IH] using rev_ind; [done|]. rewrite fmap_app, not_elem_of_app. intros [H1 H2].
  rewrite apply_writes_app. simpl. unfold poke. destruct (Z.eqb_spec a b); [|by apply IH]. subst. set_solver.
Qed.

(** A launch is the writes of its programs one after the other. *)
Lemma launch_flat {A P} (prog : P -> list (Z * A)) (m : mem A) order :
  foldl (fun m p => apply_writes m (prog p)) m order = apply_writes m (flat_map prog order).
Proof.
  revert m. induction order as [|p order IH]; intros m; [done|]. simpl. by rewrite IH, apply_writes_app.
Qed.

Lemma elem_of_flat_map {A B} (f : A -> list B) l y : y ∈ flat_map f l <-> exists x, x ∈ l /\ y ∈ f x.
Proof.
  rewrite list_elem_of_In, in_flat_map. split; intros (x & H1 & H2); exists x; by rewrite ?list_elem_of_In in *.
Qed.

Lemma elem_of_lmap {A B} (f : A -> B) l y : y ∈ map f l <-> exists x, x ∈ l /\ y = f x.
Proof. rewrite list_elem_of_fmap. naive_solver. Qed.

Lemma elem_of_grid2 n m p q : (p, q) ∈ grid2 n m <-> 0 <= p < n /\ 0 <= q < m.
Proof.
  unfold grid2. rewrite elem_of_flat_map. split.
  - intros (x & Hx%elem_of_seqZ & (y & Hy%elem_of_seqZ & [= -> ->])%elem_of_lmap). lia.
  - intros [Hp Hq]. exists p. split; [apply elem_of_seqZ; lia|]. apply elem_of_lmap. exists q. split; [apply elem_of_seqZ; lia|done].
Qed.

(** Offsets with bounded inner indices determine the indices. *)
Lemma offset_inj w a b i j : 0 <= i < w -> 0 <= j < w -> a * w + i = b * w + j -> a = b /\ i = j.
Proof. intros. assert (a = b) by nia. subst. lia. Qed.

(** The value a launch leaves in a cell when the cell's writers agree. *)
Lemma launch_cell {A P} (prog : P -> list (Z * A)) (m : mem A) order grid a v :
  order ≡ₚ grid -> (exists p, p ∈ grid /\ (a, v) ∈ prog p) ->
  (forall p w, p ∈ grid -> (a, w) ∈ prog p -> w = v) ->
  apply_writes m (flat_map prog order) a = v.
Proof.
  intros Hp (p & Hpg & Hin) Huniq.
  assert (Hall : forall w, (a, w) ∈ flat_map prog order -> w = v).
  { intros w (q & Hq & Hw)%elem_of_flat_map. apply (Huniq q); [by rewrite <- Hp|done]. }
  assert (Hex : (a, v) ∈ flat_map prog order) by (apply elem_of_flat_map; exists p; by rewrite Hp).
  clear -Hall Hex. induction (flat_map prog order) as [|[b w] ws IH] using rev_ind; [set_solver|].
  rewrite apply_writes_app. simpl. unfold poke. destruct (Z.eqb_spec a b) as [->|E].
  - apply Hall. set_solver.
  - apply IH; [intros; apply Hall; set_solver|]. apply elem_of_app in Hex as [?|?]; [done|set_solver].
Qed.

Lemma launch_frame {A P} (prog : P -> list (Z * A)) (m : mem A) order grid a :
  order ≡ₚ grid -> (forall p w, p ∈ grid -> (a, w) ∈ prog p -> False) ->
  apply_writes m (flat_map prog order) a = m a.
Proof.
  intros Hp Hno. apply apply_writes_frame. intros ([b w] & -> & (q & Hq & Hw)%elem_of_flat_map)%list_elem_of_fmap.
  apply (Hno q w); [by rewrite <- Hp|done].
Qed.

(** ** Rows of cells

    Program [(i, h)] of a grid fills the [W] cells of head [h] of row [row i]
    of a tensor with [H] heads per row. *)

Definition cells {A} (base W : Z) (val : Z -> A) (ws : list (Z * A)) : Prop :=
  forall a v, (a, v) ∈ ws <-> exists k, 0 <= k < W /\ a = base + k /\ v = val k.

(** All writes fall into the [W] cells from [base]. *)
Definition within {A} (base W : Z) (ws : list (Z * A)) : Prop :=
  forall a v, (a, v) ∈ ws -> exists k, 0 <= k < W /\ a = base + k.

Lemma cells_within {A} base W (val : Z -> A) ws : cells base W val ws -> within base W ws.
Proof. intros Hc a v (k & Hk & -> & _)%Hc. by exists k. Qed.

Section rows.
Context {A : Type} (prog : Z * Z -> list (Z * A)) (order : list (Z * Z)) (n H W : Z) (row : Z -> Z).
Context (Horder : order ≡ₚ grid2 n H).
Context (Hprog : forall i h, 0 <= i < n -> 0 <= h < H -> within ((row i * H + h) * W) W (prog (i, h))).

(** Row [row i] is written by program row [i] only. *)
Definition sole_writer (i : Z) : Prop := forall i', 0 <= i' < n -> row i' = row i -> i' = i.

Lemma launch_cells (m : mem A) i h k (val : Z -> A) :
  cells ((row i * H + h) * W) W val (prog (i, h)) ->
  0 <= i < n -> 0 <= h < H -> sole_writer i -> 0 <= k < W ->
  apply_writes m (flat_map prog order) ((row i * H + h) * W + k) = val k.
Proof using Horder Hprog.
  intros Hc Hi Hh Hsole Hk. apply (launch_cell prog m order (grid2 n H)); [done| |].
  - exists (i, h). split; [by apply elem_of_grid2|]. apply Hc. by exists k.
  - intros [i' h'] w [Hi' Hh']%elem_of_grid2 Hin. destruct (Hprog i' h' Hi' Hh' _ _ Hin) as (k' & Hk' & Ha).
    apply offset_inj in Ha as [Ha ->]; [|done..]. apply offset_inj in Ha as [Hr ->]; [|done..].
    rewrite (Hsole i' Hi' (eq_sym Hr)) in Hin. apply Hc in Hin as (k & _ & E & ->). f_equal. lia.
Qed.

Lemma launch_cells_frame (m : mem A) r h k :
  (forall i, 0 <= i < n -> row i <> r) -> 0 <= h < H -> 0 <= k < W ->
  apply_writes m (flat_map prog order) ((r * H + h) * W + k) = m ((r * H + h) * W + k).
Proof using Horder Hprog.
  intros Hr Hh Hk. apply (launch_frame prog m order (grid2 n H)); [done|].
  intros [i' h'] w [Hi' Hh']%elem_of_grid2 Hin. destruct (Hprog i' h' Hi' Hh' _ _ Hin) as (k' & Hk' & Ha).
  apply offset_inj in Ha as [Ha ->]; [|done..]. apply offset_inj in Ha as [E ->]; [|done..]. by apply (Hr i').
Qed.
End rows.

(** ** Tables of values *)

Lemma lookup_tabulate {A} (f : Z -> A) n (i : nat) : Z.of_nat i < n -> map f (seqZ 0 n) !! i = Some (f (Z.of_nat i)).
Proof. intros Hi. rewrite list_lookup_fmap, lookup_seqZ_lt by done. done. Qed.

Lemma length_tabulate {A} (f : Z -> A) n : length (map f (seqZ 0 n)) = Z.to_nat n.
Proof. by rewrite length_map, length_seqZ. Qed.

Lemma tabulate_ext {A} (f g : Z -> A) n : (forall i, 0 <= i < n -> f i = g i) -> map f (seqZ 0 n) = map g (seqZ 0 n).
Proof. intros H. apply map_ext_in. intros i Hi%list_elem_of_In%elem_of_seqZ. apply H. lia. Qed.

(** Blocks of [n] of a table. *)
Lemma tabulate_split {A} (f : Z -> A) k n : 0 <= k -> 0 <= n ->
  map f (seqZ 0 (k + n)) = map f (seqZ 0 k) ++ map (fun j => f (k + j)) (seqZ 0 n).
Proof.
  intros Hk Hn. rewrite seqZ_app, map_app by done. f_equal. simpl.
  apply list_eq. intros i.
  destruct (Z.lt_ge_cases (Z.of_nat i) n).
  - rewrite !list_lookup_fmap, !lookup_seqZ_lt by done. simpl. by replace (k + Z.of_nat i) with (k + (0 + Z.of_nat i)) by lia.
  - rewrite !lookup_ge_None_2; [done|rewrite length_map, length_seqZ; lia..].
Qed.

Lemma concat_tabulate {A} (f : Z -> Z -> A) k n : 0 <= k -> 0 < n ->
  concat (map (fun g => map (f g) (seqZ 0 n)) (seqZ 0 k)) = map (fun d => f (d / n) (d mod n)) (seqZ 0 (k * n)).
Proof.
  intros Hk Hn. pattern k. apply natlike_ind; [done| |done]. clear k Hk. intros k Hk IH. unfold Z.succ.
  replace ((k + 1) * n) with (k * n + n) by lia. rewrite !tabulate_split, concat_app, IH by nia. f_equal. simpl.
  rewrite app_nil_r. apply tabulate_ext. intros j Hj. f_equal.
  - apply Z.div_unique with j; lia.
  - apply Z.mod_unique with k; lia.
Qed.

Lemma elem_of_tabulate {A} (f : Z -> A) n y : y ∈ map f (seqZ 0 n) <-> exists i, 0 <= i < n /\ y = f i.
Proof. rewrite elem_of_lmap. split; intros (i & Hi & ->); exists i; rewrite elem_of_seqZ in *; split; done || lia. Qed.

(** ** Stores of two-dimensional tiles *)

(** [tl.store(base + g[:, None] * w + b[None, :], f)]. *)
Lemma tile_cells {A} (base w ng : Z) (f : Z -> Z -> A) (val : Z -> A) : 0 < w ->
  (forall g b, 0 <= g < ng -> 0 <= b < w -> f g b = val (g * w + b)) ->
  cells base (ng * w) val (flat_map (fun g => map (fun b => (base + g * w + b, f g b)) (seqZ 0 w)) (seqZ 0 ng)).
Proof.
  intros Hw Hf a v. rewrite elem_of_flat_map. setoid_rewrite elem_of_tabulate. split.
  - intros (g & Hg%elem_of_seqZ & b & Hb & [= -> ->]). exists (g * w + b). rewrite Hf by lia. repeat split; nia.
  - intros (k & Hk & -> & ->). pose proof (Z.div_mod k w). pose proof (Z.mod_pos_bound k w).
    assert (0 <= k / w < ng) by (split; [apply Z.div_pos|apply Z.div_lt_upper_bound]; lia).
    exists (k / w). split; [apply elem_of_seqZ; lia|]. exists (k mod w). split; [lia|].
    rewrite Hf by lia. replace (k / w * w + k mod w) with k by lia. f_equal. lia.
Qed.

Lemma tile_within {A} (base w ng : Z) (f : Z -> Z -> A) : 0 < w ->
  within base (ng * w) (flat_map (fun g => map (fun b => (base + g * w + b, f g b)) (seqZ 0 w)) (seqZ 0 ng)).
Proof.
  intros Hw. eapply cells_within, (tile_cells _ _ _ _ (fun k => f (k / w) (k mod w))); [done|].
  intros g b Hg Hb. f_equal; [apply Z.div_unique with b|apply Z.mod_unique with g]; lia.
Qed.

(** The same with the axes of the tile exchanged. *)
Lemma tile_cells_flip {A} (base w ng : Z) (f : Z -> Z -> A) (val : Z -> A) : 0 < w ->
  (forall g b, 0 <= g < ng -> 0 <= b < w -> f b g = val (g * w + b)) ->
  cells base (ng * w) val (flat_map (fun b => map (fun g => (base + g * w + b, f b g)) (seqZ 0 ng)) (seqZ 0 w)).
Proof.
  intros Hw Hf a v. pose proof (tile_cells base w ng (flip f) val Hw Hf a v) as Hc. rewrite <- Hc. clear Hc.
  rewrite !elem_of_flat_map. setoid_rewrite elem_of_tabulate. unfold flip.
  split; intros (x & Hx%elem_of_seqZ & y & Hy & ->); exists y; (split; [apply elem_of_seqZ; lia|]); exists x; (split; [lia|done]).
Qed.

Lemma tile_within_flip {A} (base w ng : Z) (f : Z -> Z -> A) : 0 < w ->
  within base (ng * w) (flat_map (fun b => map (fun g => (base + g * w + b, f b g)) (seqZ 0 ng)) (seqZ 0 w)).
Proof.
  intros Hw. eapply cells_within, (tile_cells_flip _ _ _ _ (fun k => f (k mod w) (k / w))); [done|].
  intros g b Hg Hb. f_equal; [apply Z.mod_unique with g|apply Z.div_unique with b]; lia.
Qed.

(** Pairs stored side by side. *)
Lemma pair_cells {A} (base n : Z) (f g : Z -> A) :
  cells base (n * 2) (fun k => if k mod 2 =? 0 then f (k / 2) else g (k / 2))
    (map (fun k => (base + k * 2, f k)) (seqZ 0 n) ++ map (fun k => (base + k * 2 + 1, g k)) (seqZ 0 n)).
Proof.
  intros a v. rewrite elem_of_app, !elem_of_tabulate. split.
  - intros [(k & Hk & [= -> ->])|(k & Hk & [= -> ->])].
    + exists (k * 2). rewrite Z.mod_mul, Z.div_mul by lia. repeat split; lia || done.
    + exists (k * 2 + 1). replace ((k * 2 + 1) mod 2) with 1 by (apply Z.mod_unique with k; lia).
      replace ((k * 2 + 1) / 2) with k by (apply Z.div_unique with 1; lia). repeat split; lia || done.
  - intros (k & Hk & -> & ->). pose proof (Z.div_mod k 2). pose proof (Z.mod_pos_bound k 2).
    destruct (Z.eqb_spec (k mod 2) 0); [left|right]; exists (k / 2); (split; [lia|f_equal; lia]).
Qed.
