(* ===== verification/QuantKernels.v ===== *)
(** * Quantising kernels of the mixed INT2 / INT4 cache

    The write side of [layers/attention/triton_ops/triaxial_kv.py]: the Triton
    kernels that quantise and pack keys and values, their launchers, and the
    torch references.  A kernel is a function from its program ids to the
    writes of that program; the order of the programs of launch [k] is the
    argument [sched k]. *)

From S2P Require Import Prelude Floats DeviceFloats DeviceMemory.

Definition G : Z := 32.

Record TriaxialLayerKV := {
  kv_offset : Z;
  k2_data : tensor Z; k2_meta : tensor spec_float;
  v2_data : tensor Z; v2_meta : tensor spec_float;
  k4_data : tensor Z; k4_meta : tensor spec_float;
  v4_data : tensor Z; v4_meta : tensor spec_float
}.

Definition num_kv_heads (kv : TriaxialLayerKV) : Z := dim (k4_data kv) 1.
Definition head_dim (kv : TriaxialLayerKV) : Z := dim (k4_data kv) 2 * 2.

Definition check_head_dim (D min_d : Z) : result unit :=
  rassert ((D mod G =? 0) && (Z.land D (D - 1) =? 0) && (min_d <=? D)).

(** ** Quantisation of one value *)

Definition scale_min (mx mn : spec_float) (QMAX : Z) : spec_float * spec_float :=
  let sc := f32_div (f32_sub mx mn) (f32_of_Z QMAX) in
  let sc_h := f16_of sc in
  let sc_h := f16_of (if SFeqb sc_h f_zero then f32_of_Z 1 else f32_of sc_h) in
  let mn_h := f16_of mn in
  (f32_of sc_h, f32_of mn_h).

Definition quantize (x sc mn : spec_float) (QMAX : Z) : Z :=
  let q := f32_rint (f32_div (f32_sub x mn) sc) in
  let q := f_min (f_max q f_zero) (f32_of_Z QMAX) in
  f_to_int 0 q.

(** [.to(tl.uint8)] *)
Definition to_uint8 (z : Z) : Z := z mod 256.

Definition pack4 (q_lo q_hi : Z) : Z := to_uint8 (Z.lor q_lo (Z.shiftl q_hi 4)).

Definition pack2 (q0 q1 q2 q3 : Z) : Z :=
  to_uint8 (Z.lor (Z.lor (Z.lor q0 (Z.shiftl q1 2)) (Z.shiftl q2 4)) (Z.shiftl q3 6)).

Definition tl_max (l : list spec_float) : spec_float := f_reduce f_max l.
Definition tl_min (l : list spec_float) : spec_float := f_reduce f_min l.

(** ** The kernels *)

Section kernels.
Context (X : mem spec_float) (stride_xn stride_xh H D NG : Z).

(** Low and high nibbles: channels [2b] and [2b + 1] of group [g]. *)
Definition int4_lo (i h g b : Z) : spec_float :=
  f32_of (X (i * stride_xn + h * stride_xh + (g * 32 + 2 * b))).
Definition int4_hi (i h g b : Z) : spec_float :=
  f32_of (X (i * stride_xn + h * stride_xh + (g * 32 + 2 * b) + 1)).

Definition int4_scale_min (i h g : Z) : spec_float * spec_float :=
  let bs := seqZ 0 16 in
  let mx := f_max (tl_max (map (int4_lo i h g) bs)) (tl_max (map (int4_hi i h g) bs)) in
  let mn := f_min (tl_min (map (int4_lo i h g) bs)) (tl_min (map (int4_hi i h g) bs)) in
  scale_min mx mn 15.

Definition quant_int4_tokens_kernel (Rows : list Z) (pid : Z * Z) : list (Z * Z) * list (Z * spec_float) :=
  let (i, h) := pid in
  let row := tget Rows i in
  let q x g := quantize x (int4_scale_min i h g).1 (int4_scale_min i h g).2 15 in
  let packed g b := pack4 (q (int4_lo i h g b) g) (q (int4_hi i h g b) g) in
  let d_base := (row * H + h) * (D / 2) in
  let m_base := (row * H + h) * (NG * 2) in
  (flat_map (fun g => map (fun b => (d_base + g * 16 + b, packed g b)) (seqZ 0 16)) (seqZ 0 NG),
   map (fun g => (m_base + g * 2, f16_of (int4_scale_min i h g).1)) (seqZ 0 NG) ++
   map (fun g => (m_base + g * 2 + 1, f16_of (int4_scale_min i h g).2)) (seqZ 0 NG)).

(** Channel [4b + c] of group [g]. *)
Definition int2_v_x (i h g c b : Z) : spec_float :=
  f32_of (X (i * stride_xn + h * stride_xh + (g * 32 + 4 * b) + c)).

Definition int2_v_scale_min (i h g : Z) : spec_float * spec_float :=
  let bs := seqZ 0 8 in
  let mxs c := tl_max (map (int2_v_x i h g c) bs) in
  let mns c := tl_min (map (int2_v_x i h g c) bs) in
  let mx := f_max (f_max (mxs 0) (mxs 1)) (f_max (mxs 2) (mxs 3)) in
  let mn := f_min (f_min (mns 0) (mns 1)) (f_min (mns 2) (mns 3)) in
  scale_min mx mn 3.

Definition quant_int2_v_tokens_kernel (Rows : list Z) (pid : Z * Z) : list (Z * Z) * list (Z * spec_float) :=
  let (i, h) := pid in
  let row := tget Rows i in
  let q c g b := quantize (int2_v_x i h g c b) (int2_v_scale_min i h g).1 (int2_v_scale_min i h g).2 3 in
  let packed g b := pack2 (q 0 g b) (q 1 g b) (q 2 g b) (q 3 g b) in
  let d_base := (row * H + h) * (D / 4) in
  let m_base := (row * H + h) * (NG * 2) in
  (flat_map (fun g => map (fun b => (d_base + g * 8 + b, packed g b)) (seqZ 0 8)) (seqZ 0 NG),
   map (fun g => (m_base + g * 2, f16_of (int2_v_scale_min i h g).1)) (seqZ 0 NG) ++
   map (fun g => (m_base + g * 2 + 1, f16_of (int2_v_scale_min i h g).2)) (seqZ 0 NG)).

(** Token [4b + c] of page [p], channel [d]; [TokRows] is the matrix of token
    rows, 32 per page. *)
Definition int2_k_x (TokRows : list Z) (p h d c b : Z) : spec_float :=
  f32_of (X (h * stride_xh + d + tget TokRows (p * 32 + 4 * b + c) * stride_xn)).

Definition int2_k_scale_min (TokRows : list Z) (p h d : Z) : spec_float * spec_float :=
  let bs := seqZ 0 8 in
  let mxs c := tl_max (map (int2_k_x TokRows p h d c) bs) in
  let mns c := tl_min (map (int2_k_x TokRows p h d c) bs) in
  let mx := f_max (f_max (mxs 0) (mxs 1)) (f_max (mxs 2) (mxs 3)) in
  let mn := f_min (f_min (mns 0) (mns 1)) (f_min (mns 2) (mns 3)) in
  scale_min mx mn 3.

Definition quant_int2_k_pages_kernel (TokRows Pages : list Z) (pid : Z * Z) : list (Z * Z) * list (Z * spec_float) :=
  let (p, h) := pid in
  let page := tget Pages p in
  let sm := int2_k_scale_min TokRows p h in
  let q c b d := quantize (int2_k_x TokRows p h d c b) (sm d).1 (sm d).2 3 in
  let packed b d := pack2 (q 0 b d) (q 1 b d) (q 2 b d) (q 3 b d) in
  let d_base := (page * H + h) * (D * 8) in
  let m_base := (page * H + h) * (D * 2) in
  (flat_map (fun b => map (fun d => (d_base + d * 8 + b, packed b d)) (seqZ 0 D)) (seqZ 0 8),
   map (fun d => (m_base + d * 2, f16_of (sm d).1)) (seqZ 0 D) ++
   map (fun d => (m_base + d * 2 + 1, f16_of (sm d).2)) (seqZ 0 D)).
End kernels.

(** Run the programs of a grid on a data and a meta tensor. *)
Definition launch_quant (prog : Z * Z -> list (Z * Z) * list (Z * spec_float)) (order : list (Z * Z))
    (data : tensor Z) (meta : tensor spec_float) : tensor Z * tensor spec_float :=
  (with_elems data (foldl (fun m p => apply_writes m (prog p).1) (elems data) order),
   with_elems meta (foldl (fun m p => apply_writes m (prog p).2) (elems meta) order)).

(** ** Launchers *)

Section launchers.
Context (order : list (Z * Z)).

(** [x] is contiguous: its callers pass [.contiguous()] tensors. *)
Definition quant_int4_tokens (x : tensor spec_float) (rows : list Z) (data : tensor Z) (meta : tensor spec_float)
  : result (tensor Z * tensor spec_float) :=
  let '(n, H, D) := (dim x 0, dim x 1, dim x 2) in
  if n =? 0 then Ok (data, meta)
  else
    let! _ := check_head_dim D 32 in
    let! _ := rassert (bool_decide (tail (shape data) = [H; D / 2]) && bool_decide (tail (shape meta) = [H; D / G; 2])) in
    Ok (launch_quant (quant_int4_tokens_kernel (elems x) (H * D) D H D (D / G) rows) order data meta).

Definition quant_int2_v_tokens (x : tensor spec_float) (rows : list Z) (data : tensor Z) (meta : tensor spec_float)
  : result (tensor Z * tensor spec_float) :=
  let '(n, H, D) := (dim x 0, dim x 1, dim x 2) in
  if n =? 0 then Ok (data, meta)
  else
    let! _ := check_head_dim D 32 in
    let! _ := rassert (bool_decide (tail (shape data) = [H; D / 4]) && bool_decide (tail (shape meta) = [H; D / G; 2])) in
    Ok (launch_quant (quant_int2_v_tokens_kernel (elems x) (H * D) D H D (D / G) rows) order data meta).

(** [tok_rows] is given by its rows. *)
Definition quant_int2_k_pages (x : tensor spec_float) (tok_rows : list (list Z)) (pages : list Z)
    (data : tensor Z) (meta : tensor spec_float) : result (tensor Z * tensor spec_float) :=
  let '(n, H, D) := (dim x 0, dim x 1, dim x 2) in
  let num_pages := zlen pages in
  if num_pages =? 0 then Ok (data, meta)
  else
    let! _ := check_head_dim D 32 in
    let! _ := rassert ((zlen tok_rows =? num_pages) && forallb (fun r => zlen r =? G) tok_rows) in
    let! _ := rassert (bool_decide (tail (shape data) = [H; D; 8]) && bool_decide (tail (shape meta) = [H; D; 2])) in
    Ok (launch_quant (quant_int2_k_pages_kernel (elems x) (H * D) D H D (concat tok_rows) pages) order data meta).
End launchers.

(** ** Torch references *)

(** Rows of [n] elements, [reshape(-1, n)]. *)
Fixpoint chunks {A} (fuel : nat) (n : nat) (l : list A) : list (list A) :=
  match fuel with
  | O => []
  | S f => match l with [] => [] | _ => take n l :: chunks f n (drop n l) end
  end.

Definition reshape {A} (n : nat) (l : list A) : list (list A) := chunks (length l) n l.

Definition ref_scale_min (x : list spec_float) (qmax : Z) : spec_float * spec_float :=
  let mx := f_reduce torch_max x in
  let mn := f_reduce torch_min x in
  let sc := f16_of (f32_div (f32_sub mx mn) (f32_of_Z qmax)) in
  let sc := if SFeqb sc f_zero then f16_of (f32_of_Z 1) else sc in
  (sc, f16_of mn).

(** [nan_int] is what the conversion of a NaN to [int32] gives. *)
Definition ref_quantize (nan_int : Z) (x sc mn : spec_float) (qmax : Z) : Z :=
  let q := f32_rint (f32_div (f32_sub x (f32_of mn)) (f32_of sc)) in
  f_to_int nan_int (torch_min (torch_max q f_zero) (f32_of_Z qmax)).

Definition pack4_row (q : list Z) : Z := pack4 (q !!! 0%nat) (q !!! 1%nat).
Definition pack2_row (q : list Z) : Z := pack2 (q !!! 0%nat) (q !!! 1%nat) (q !!! 2%nat) (q !!! 3%nat).

(** Levels of a vector quantised in groups of 32. *)
Definition ref_levels (nan_int qmax : Z) (x : list spec_float) : list Z :=
  concat (map (fun g => let '(sc, mn) := ref_scale_min g qmax in
                        map (fun v => ref_quantize nan_int v sc mn qmax) g)
              (reshape 32 (map f32_of x))).

Definition ref_metas (qmax : Z) (x : list spec_float) : list (spec_float * spec_float) :=
  map (fun g => ref_scale_min g qmax) (reshape 32 (map f32_of x)).

(** Per token and head: the packed bytes and the [scale, min] pairs. *)
Definition ref_quant_int4_tokens (nan_int : Z) (x : list (list (list spec_float)))
  : list (list (list Z)) * list (list (list (spec_float * spec_float))) :=
  (map (map (fun v => map pack4_row (reshape 2 (ref_levels nan_int 15 v)))) x,
   map (map (ref_metas 15)) x).

Definition ref_quant_int2_v_tokens (nan_int : Z) (x : list (list (list spec_float)))
  : list (list (list Z)) * list (list (list (spec_float * spec_float))) :=
  (map (map (fun v => map pack2_row (reshape 4 (ref_levels nan_int 3 v)))) x,
   map (map (ref_metas 3)) x).

(** The tokens of each page in order, [P, 32, H, D], moved to [P, H, D, 32]. *)
Definition permute_pages (x_pages : tensor spec_float) : list (list (list (list spec_float))) :=
  map (fun p => map (fun h => map (fun d => map (fun j => at_ x_pages [p; j; h; d]) (seqZ 0 (dim x_pages 1)))
      (seqZ 0 (dim x_pages 3))) (seqZ 0 (dim x_pages 2))) (seqZ 0 (dim x_pages 0)).

(** Per page, head and channel over the 32 tokens of the page. *)
Definition ref_quant_int2_k_pages (nan_int : Z) (x_pages : tensor spec_float)
  : result (list (list (list (list Z))) * list (list (list (spec_float * spec_float)))) :=
  let! _ := rassert (dim x_pages 1 =? G) in
  let xf := permute_pages x_pages in
  Ok (map (map (map (fun v => map pack2_row (reshape 4 (ref_levels nan_int 3 v))))) xf,
      map (map (map (fun v => ref_scale_min (map f32_of v) 3))) xf).

(** ** Unpacking and dequantising references *)

Definition ref_unpack_int4 (data : list Z) : list Z :=
  flat_map (fun d => [Z.land d 15; Z.land (Z.shiftr d 4) 15]) data.

Definition ref_unpack_int2 (data : list Z) : list Z :=
  flat_map (fun d => [Z.land d 3; Z.land (Z.shiftr d 2) 3; Z.land (Z.shiftr d 4) 3; Z.land (Z.shiftr d 6) 3]) data.

(** [q * scale + min] in fp32, [scale] and [min] in fp16. *)
Definition dequant (q : Z) (sc mn : spec_float) : spec_float :=
  f32_add (f32_mul (f32_of_Z q) (f32_of sc)) (f32_of mn).

(** One row of the per-token layout. *)
Definition ref_dequant_row (bits : Z) (data : list Z) (meta : list (spec_float * spec_float)) : list spec_float :=
  let q := if bits =? 4 then ref_unpack_int4 data else ref_unpack_int2 data in
  concat (zip_with (fun g '(sc, mn) => map (fun q => dequant q sc mn) g) (reshape 32 q) meta).

Definition ref_dequant_tokens (bits : Z) (data : list (list (list Z))) (meta : list (list (list (spec_float * spec_float))))
  : list (list (list spec_float)) :=
  zip_with (zip_with (ref_dequant_row bits)) data meta.

(** The result has the token axis first, as in the code: [P, 32, H, D]. *)
Definition ref_dequant_k_pages (data : list (list (list (list Z)))) (meta : list (list (list (spec_float * spec_float))))
  : list (list (list (list spec_float))) :=
  zip_with (fun dp mp =>
      map (fun j => zip_with (zip_with (fun bytes '(sc, mn) => dequant (tget (ref_unpack_int2 bytes) j) sc mn)) dp mp)
          (seqZ 0 32)) data meta.

Definition ref_quant_dequant_int4 (nan_int : Z) (x : list (list (list spec_float))) : list (list (list spec_float)) :=
  let '(d, m) := ref_quant_int4_tokens nan_int x in ref_dequant_tokens 4 d m.

Definition ref_quant_dequant_int2_v (nan_int : Z) (x : list (list (list spec_float))) : list (list (list spec_float)) :=
  let '(d, m) := ref_quant_int2_v_tokens nan_int x in ref_dequant_tokens 2 d m.

Definition ref_quant_dequant_int2_k_page (nan_int : Z) (x_pages : tensor spec_float)
  : result (list (list (list (list spec_float)))) :=
  let! (d, m) := ref_quant_int2_k_pages nan_int x_pages in Ok (ref_dequant_k_pages d m).
