(* ===== verification/QuantTheory.v ===== *)
(** * Theory of the quantisation

    Extrema do not depend on the order of a reduction, up to the sign of a
    zero; the level of a value is in range whatever the value; kernel and torch
    formulas agree where no NaN arises. *)

From S2P Require Import Prelude Tensors Floats DeviceFloats DeviceFloatsTheory DeviceMemory QuantKernels.

(** ** The order of floats *)

(** The position of a float that is not NaN: class, then signed exponent, then signed mantissa. *)
Definition rank (x : spec_float) : Z * Z * Z :=
  match x with
  | S754_infinity true => (-2, 0, 0)
  | S754_finite true m e => (-1, - e, - Z.pos m)
  | S754_zero _ | S754_nan => (0, 0, 0)
  | S754_finite false m e => (1, e, Z.pos m)
  | S754_infinity false => (2, 0, 0)
  end.

Definition rank_lt (a b : Z * Z * Z) : Prop :=
  let '(a1, a2, a3) := a in let '(b1, b2, b3) := b in
  a1 < b1 \/ (a1 = b1 /\ (a2 < b2 \/ (a2 = b2 /\ a3 < b3))).

Lemma SFltb_rank a b : is_nan a = false -> is_nan b = false -> SFltb a b = true <-> rank_lt (rank a) (rank b).
Proof.
  unfold SFltb, SFcompare, rank, rank_lt.
  destruct a as [[]|[]| |[] m1 e1], b as [[]|[]| |[] m2 e2]; try done; intros _ _; try (split; done || lia).
  all: change (Pos.compare_cont Eq m1 m2) with (Pos.compare m1 m2);
    destruct (Z.compare_spec e1 e2); subst; try (split; intros; done || lia);
    destruct (Pos.compare_spec m1 m2); subst; simpl; split; intros; done || lia.
Qed.

(** Equal up to the sign of a zero. *)
Definition zeq (a b : spec_float) : Prop :=
  a = b \/ (exists s s', a = S754_zero s /\ b = S754_zero s').

Lemma rank_inj a b : is_nan a = false -> is_nan b = false -> rank a = rank b -> zeq a b.
Proof.
  unfold zeq, rank. destruct a as [[]|[]| |[] m1 e1], b as [[]|[]| |[] m2 e2]; intros; simplify_eq; eauto;
    left; f_equal; lia.
Qed.

Lemma zeq_nan a b : zeq a b -> is_nan a = is_nan b.
Proof. intros [->|(s & s' & -> & ->)]; done. Qed.

(** ** Extrema of a vector *)

Definition fle (a b : spec_float) : Prop := ~ rank_lt (rank b) (rank a).

Lemma fle_trans a b c : fle a b -> fle b c -> fle a c.
Proof. unfold fle, rank_lt. destruct (rank a) as [[??]?], (rank b) as [[??]?], (rank c) as [[??]?]. lia. Qed.

Lemma fle_refl a : fle a a.
Proof. unfold fle, rank_lt. destruct (rank a) as [[??]?]. lia. Qed.

Lemma fle_antisym a b : is_nan a = false -> is_nan b = false -> fle a b -> fle b a -> zeq a b.
Proof.
  intros Ha Hb. unfold fle, rank_lt. intros. apply rank_inj; [done..|].
  destruct (rank a) as [[??]?], (rank b) as [[??]?]. repeat f_equal; lia.
Qed.

(** [m] is a largest (or, for the reversed order, smallest) element of [l]. *)
Definition extremum (R : spec_float -> spec_float -> Prop) (l : list spec_float) (m : spec_float) : Prop :=
  m ∈ l /\ forall x, x ∈ l -> R x m.

(** A binary operation that picks a larger operand. *)
Definition picks (R : spec_float -> spec_float -> Prop) (op : spec_float -> spec_float -> spec_float) : Prop :=
  forall a b, is_nan a = false -> is_nan b = false -> (op a b = a \/ op a b = b) /\ R a (op a b) /\ R b (op a b).

Lemma ltb_false_fle a b : is_nan a = false -> is_nan b = false -> SFltb a b = false -> fle b a.
Proof. intros Ha Hb H. unfold fle. rewrite <- SFltb_rank by done. by rewrite H. Qed.

Lemma ltb_true_fle a b : is_nan a = false -> is_nan b = false -> SFltb a b = true -> fle a b.
Proof.
  intros Ha Hb H%SFltb_rank; [|done..]. unfold fle, rank_lt in *.
  destruct (rank a) as [[??]?], (rank b) as [[??]?]. lia.
Qed.

Ltac pick_max := intros a b Ha Hb;
  match goal with |- context [SFltb ?x ?y] => destruct (SFltb x y) eqn:E end;
  (split; [auto|split; eauto using fle_refl, ltb_false_fle, ltb_true_fle]).

Lemma torch_max_picks : picks fle torch_max.
Proof. unfold picks, torch_max. intros a b Ha Hb. rewrite Ha, Hb. revert a b Ha Hb. pick_max. Qed.

Lemma torch_min_picks : picks (flip fle) torch_min.
Proof. unfold picks, torch_min, flip. intros a b Ha Hb. rewrite Ha, Hb. revert a b Ha Hb. pick_max. Qed.

Lemma f_max_picks : picks fle f_max.
Proof.
  unfold picks. intros a b Ha Hb.
  assert (E : f_max a b = (if SFltb a b then b else a) \/ (exists s, a = S754_zero true /\ b = S754_zero s /\ f_max a b = b)).
  { unfold f_max. destruct a as [[]|[]| |[]], b as [[]|[]| |[]]; try done; eauto. }
  destruct E as [->|(s & -> & -> & ->)]; [revert a b Ha Hb; pick_max|]. split; [auto|]. split; [|apply fle_refl]. unfold fle, rank_lt. simpl. lia.
Qed.

Lemma f_min_picks : picks (flip fle) f_min.
Proof.
  unfold picks, flip. intros a b Ha Hb.
  assert (E : f_min a b = (if SFltb b a then b else a) \/ (exists s, a = S754_zero false /\ b = S754_zero s /\ f_min a b = b)).
  { unfold f_min. destruct a as [[]|[]| |[]], b as [[]|[]| |[]]; try done; eauto. }
  destruct E as [->|(s & -> & -> & ->)]; [revert a b Ha Hb; pick_max|]. split; [auto|]. split; [|apply fle_refl]. unfold fle, rank_lt. simpl. lia.
Qed.

Section extrema.
Context (R : spec_float -> spec_float -> Prop) (R_refl : forall a, R a a)
  (R_trans : forall a b c, R a b -> R b c -> R a c) (op : spec_float -> spec_float -> spec_float) (Hop : picks R op).

Definition no_nan (l : list spec_float) : Prop := forall x, x ∈ l -> is_nan x = false.

Lemma extremum_app l k a b : no_nan (l ++ k) -> extremum R l a -> extremum R k b -> extremum R (l ++ k) (op a b).
Proof using R_refl R_trans Hop.
  intros Hn [Ha Hla] [Hb Hkb]. destruct (Hop a b) as (Hor & H1 & H2); [apply Hn; set_solver..|]. split.
  - destruct Hor as [-> | ->]; set_solver.
  - intros x [Hx|Hx]%elem_of_app; eauto.
Qed.

Lemma extremum_reduce l : l <> [] -> no_nan l -> extremum R l (f_reduce op l).
Proof using R_refl R_trans Hop.
  destruct l as [|x l]; [done|]. intros _. simpl.
  induction l as [|y l IH] using rev_ind; intros Hn.
  - split; [set_solver|]. intros z ->%list_elem_of_singleton. apply R_refl.
  - rewrite foldl_app. simpl. rewrite app_comm_cons in *. apply extremum_app; [done| |].
    + apply IH. intros z Hz. apply Hn. set_solver.
    + split; [set_solver|]. intros z ->%list_elem_of_singleton. apply R_refl.
Qed.

Lemma extremum_same l k a : (forall x, x ∈ l <-> x ∈ k) -> extremum R l a -> extremum R k a.
Proof. intros He [H1 H2]. split; [by apply He|]. intros x Hx. apply H2, He, Hx. Qed.
End extrema.

Lemma extremum_unique_max l a b : no_nan l -> extremum fle l a -> extremum fle l b -> zeq a b.
Proof. intros Hn [Ha H1] [Hb H2]. apply fle_antisym; auto. Qed.

Lemma extremum_unique_min l a b : no_nan l -> extremum (flip fle) l a -> extremum (flip fle) l b -> zeq a b.
Proof. unfold flip. intros Hn [Ha H1] [Hb H2]. apply fle_antisym; auto. Qed.

(** ** Levels *)

(** A large integer as fp32 lies above every level. *)
Lemma normalize_large r s : 16 <= r ->
  (exists m e, binary_normalize 24 128 r 0 s = S754_finite false m e /\ -19 <= e) \/
  binary_normalize 24 128 r 0 s = S754_infinity false.
Proof.
  intros Hr. destruct r as [|p|p]; try lia. cbn [binary_normalize]. unfold binary_round.
  destruct (shl_align_spec p 0 (fexp 24 128 (Z.pos (digits2_pos p) + 0))) as (mz & ez & -> & Hez & Hmz).
  assert (Hlog : 4 <= Z.log2 (Z.pos p)) by (apply (Z.log2_le_mono 16); lia).
  assert (Hd : Zdigits2 (Z.pos mz) + ez = Z.log2 (Z.pos p) + 1).
  { rewrite Zdigits2_pos by lia. rewrite Hmz, log2_mul_pow2' by lia. lia. }
  assert (He1 : -19 <= round_exp 24 128 (Z.pos mz) ez).
  { unfold round_exp, fexp. rewrite Hd. lia. }
  assert (Hm1 : 2 ^ 23 <= round_mant 24 128 (Z.pos mz) ez).
  { apply (round_mant_large 24 128); [lia|done| |unfold emin; lia]. rewrite Hd.
    rewrite digits2_log2, Z.add_0_r in Hez. lia. }
  pose proof (second_shift 24 128 ltac:(lia) (Z.pos mz) ez ltac:(lia) ltac:(lia)) as Hs. cbv zeta in Hs.
  rewrite binary_round_aux_exact by lia. cbv zeta.
  set (m1 := round_mant 24 128 (Z.pos mz) ez) in *. set (e1 := round_exp 24 128 (Z.pos mz) ez) in *.
  destruct Hs as [[_ ->]|[-> ->]].
  - rewrite Z.sub_diag, Z.pow_0_r, Z.div_1_r. destruct m1; [lia| |lia]. case_match; eauto.
  - replace (e1 + 1 - e1) with 1 by lia. change (2 ^ 24 / 2 ^ 1) with 8388608.
    destruct (e1 + 1 <=? 128 - 24); [|by right]. left. eexists _, _. split; [done|]. lia.
Qed.

Lemma normalize_negative r s : r < 0 ->
  f_max (binary_normalize 24 128 r 0 s) f_zero = f_zero /\
  exists q, binary_normalize 24 128 r 0 s = q /\ is_nan q = false /\ (SFltb q f_zero = true \/ q = S754_zero true).
Proof.
  intros Hr. destruct r as [|p|p]; try lia. cbn [binary_normalize].
  assert (H : match binary_round 24 128 true p 0 with S754_nan => False | S754_zero s | S754_infinity s | S754_finite s _ _ => s = true end).
  { pose proof (normalize_not_nan 24 128 (Z.neg p) 0 s) as Hn. cbn [binary_normalize] in Hn. unfold binary_round in *.
    destruct (shl_align _ _ _) as [mz ez]. unfold binary_round_aux in *.
    destruct (shr_fexp _ _ (Z.pos mz) ez _) as [mrs e1]. destruct (shr_fexp _ _ _ e1 _) as [mrs2 e2].
    repeat case_match; done. }
  destruct (binary_round 24 128 true p 0) as [|s'| |s' m e]; subst; try done; split; eauto.
Qed.

(** Both clamps of a rounded quotient give the same integer, from 0 to [Q]. *)
Lemma clamp_level Q y : Q = 3 \/ Q = 15 ->
  0 <= f_to_int 0 (f_min (f_max (f32_rint y) f_zero) (f32_of_Z Q)) <= Q /\
  (is_nan y = false -> forall u,
     f_to_int u (torch_min (torch_max (f32_rint y) f_zero) (f32_of_Z Q)) =
     f_to_int 0 (f_min (f_max (f32_rint y) f_zero) (f32_of_Z Q))).
Proof.
  intros HQ. destruct y as [s|s| |s m e].
  - destruct HQ as [-> | ->], s; vm_compute; by split.
  - destruct HQ as [-> | ->], s; vm_compute; by split.
  - destruct HQ as [-> | ->]; vm_compute; by split.
  - cbn [f32_rint]. set (r := if s then _ else _). clearbody r. destruct (Z.lt_trichotomy r 0) as [Hr|[->|Hr]].
    + destruct (normalize_negative r s Hr) as [E (q & Eq & Hn & Hq)]. rewrite E. rewrite Eq. clear E Eq.
      assert (Ht : f_to_int 0 (torch_max q f_zero) = 0 /\ (torch_max q f_zero = f_zero \/ torch_max q f_zero = S754_zero true)).
      { unfold torch_max. rewrite Hn. simpl. destruct Hq as [-> | ->]; simpl; auto. }
      destruct Ht as [_ [-> | ->]]; destruct HQ as [-> | ->]; vm_compute; by split.
    + destruct HQ as [-> | ->], s; vm_compute; by split.
    + destruct (Z.lt_ge_cases r 16) as [Hs|Hs].
      * assert (Hen : r ∈ seqZ 1 15) by (apply elem_of_seqZ; lia). clear Hr Hs.
        assert (Hall : forall r', r' ∈ seqZ 1 15 -> forall Q', Q' ∈ [3; 15] ->
          let q := binary_normalize 24 128 r' 0 s in
          0 <= f_to_int 0 (f_min (f_max q f_zero) (f32_of_Z Q')) <= Q' /\
          (forall u, f_to_int u (torch_min (torch_max q f_zero) (f32_of_Z Q')) = f_to_int 0 (f_min (f_max q f_zero) (f32_of_Z Q')))).
        { intros r' Hr' Q' HQ'. change (seqZ 1 15) with [1;2;3;4;5;6;7;8;9;10;11;12;13;14;15] in Hr'.
          repeat (apply elem_of_cons in Hr' as [-> |Hr']; [repeat (apply elem_of_cons in HQ' as [-> |HQ']; [vm_compute; by split|]); by apply elem_of_nil in HQ'|]).
          by apply elem_of_nil in Hr'. }
        destruct (Hall r Hen Q) as [H1 H2]; [set_solver|]. split; [done|]. intros _. apply H2.
      * destruct (normalize_large r s Hs) as [(m' & e' & -> & He) | ->];
          [|destruct HQ as [-> | ->]; vm_compute; by split].
        assert (Hlt : forall Q', Q' = 3 \/ Q' = 15 -> SFltb (f32_of_Z Q') (S754_finite false m' e') = true).
        { intros Q' HQ'. apply SFltb_rank; [by destruct HQ' as [-> | ->]|done|].
          destruct HQ' as [-> | ->]; [change (f32_of_Z 3) with (S754_finite false 12582912 (-22))
                                     |change (f32_of_Z 15) with (S754_finite false 15728640 (-20))]; simpl; lia. }
        assert (E1 : f_max (S754_finite false m' e') f_zero = S754_finite false m' e') by done.
        assert (E2 : torch_max (S754_finite false m' e') f_zero = S754_finite false m' e') by done.
        rewrite E1, E2. unfold torch_min. assert (Hq : f_min (S754_finite false m' e') (f32_of_Z Q) = f32_of_Z Q).
        { specialize (Hlt Q HQ). destruct HQ as [-> | ->]; cbn [f_min]; [change (f32_of_Z 3) with (S754_finite false 12582912 (-22)) in *
             |change (f32_of_Z 15) with (S754_finite false 15728640 (-20)) in *]; by rewrite Hlt. }
        rewrite Hq, (Hlt Q HQ). destruct HQ as [-> | ->]; vm_compute; by split.
Qed.

Lemma quantize_range x sc mn Q : Q = 3 \/ Q = 15 -> 0 <= quantize x sc mn Q <= Q.
Proof. intros HQ. apply clamp_level, HQ. Qed.

(** ** The sign of a zero does not matter *)

#[global] Instance zeq_equiv : Equivalence zeq.
Proof.
  split.
  - intros a. by left.
  - intros a b [E|(s & s' & -> & ->)]; [by left|right; eauto].
  - intros a b c [E|(s & s' & -> & E)] [E'|(t & t' & E' & ->)]; subst; [by left|right; eauto..].
Qed.

#[global] Instance f32_sub_zeq : Proper (zeq ==> zeq ==> zeq) f32_sub.
Proof.
  intros a a' [->|(s & s' & -> & ->)] b b' [->|(t & t' & -> & ->)]; try done; unfold f32_sub.
  - destruct a' as [[]|[]| |]; destruct t, t'; try done; try (by left); right; eauto.
  - destruct b' as [[]|[]| |]; destruct s, s'; try done; try (by left); right; eauto.
  - destruct s, s', t, t'; right; eauto.
Qed.

#[global] Instance f32_div_zeq : Proper (zeq ==> eq ==> zeq) f32_div.
Proof.
  intros a a' [->|(s & s' & -> & ->)] b b' <-; [done|]. unfold f32_div.
  destruct b as [[]|[]| |[]], s, s'; simpl; try (by left); right; eauto.
Qed.

#[global] Instance sf_cast_zeq prec emax : Proper (zeq ==> zeq) (sf_cast prec emax).
Proof. intros a a' [->|(s & s' & -> & ->)]; [done|right; eauto]. Qed.

#[global] Instance SFeqb_zeq : Proper (zeq ==> eq ==> eq) SFeqb.
Proof. intros a a' [->|(s & s' & -> & ->)] b b' <-; [done|]. by destruct b. Qed.

(** Equal floats that are not zero are the same. *)
Lemma zeq_where a b c : zeq a b -> (if SFeqb a f_zero then c else a) = (if SFeqb b f_zero then c else b).
Proof. intros [->|(s & s' & -> & ->)]; done. Qed.

Lemma clamp_zeq Q y y' : zeq y y' -> Q = 3 \/ Q = 15 ->
  f_to_int 0 (f_min (f_max (f32_rint y) f_zero) (f32_of_Z Q)) = f_to_int 0 (f_min (f_max (f32_rint y') f_zero) (f32_of_Z Q)).
Proof.
  intros [->|(s & s' & -> & ->)] HQ; [done|]. destruct HQ as [-> | ->], s, s'; by vm_compute.
Qed.

(** ** Kernel formulas and torch formulas *)

Lemma f16_finite_inv y : is_finite (f16_of y) = true -> is_finite y = true.
Proof. by destruct y. Qed.

Lemma finite_not_nan y : is_finite y = true -> is_nan y = false.
Proof. by destruct y. Qed.

Lemma f16_finite_f32 y : is_finite (f16_of y) = true -> is_finite (f32_of (f16_of y)) = true.
Proof.
  intros Hf. pose proof (f16_widen_class y) as Hc. unfold same_class in Hc.
  destruct (f16_of y) as [s|s| |s m e]; [by rewrite Hc|done|done|]. by destruct (f32_of (S754_finite s m e)).
Qed.

(** The scale used by the kernel is never zero or NaN. *)
Lemma scale_nonzero mx mn Q : is_finite mx = true -> is_finite mn = true -> Q = 3 \/ Q = 15 ->
  is_nan (scale_min mx mn Q).1 = false /\ SFeqb (scale_min mx mn Q).1 f_zero = false.
Proof.
  intros Hmx Hmn HQ. unfold scale_min. cbn [fst]. set (d := f32_div _ _).
  assert (Hd : is_nan d = false).
  { apply div_not_nan; [by apply sub_not_nan|by destruct HQ as [-> | ->]..|].
    destruct HQ as [-> | ->]; simpl; by rewrite orb_true_r. }
  clearbody d. assert (Hh : is_nan (f16_of d) = false) by (unfold f16_of; by rewrite cast_not_nan).
  destruct (SFeqb (f16_of d) f_zero) eqn:E; [by vm_compute|].
  rewrite f16_f32_f16. pose proof (f16_widen_class d) as Hc. unfold same_class in Hc.
  destruct (f16_of d) as [s|s| |s m e]; try done; try (by rewrite Hc; destruct s).
  destruct (f32_of (S754_finite s m e)); done || by destruct s0.
Qed.

Section formulas.
Context (Q : Z) (HQ : Q = 3 \/ Q = 15) (l : list spec_float).
Context (Hfin : forall y, y ∈ l -> is_finite (f16_of y) = true).

Lemma group_no_nan : no_nan l.
Proof using Hfin. intros y Hy. apply finite_not_nan, f16_finite_inv, Hfin, Hy. Qed.

(** Scale, minimum and levels of a group, computed by the kernel from the
    extrema [mx], [mn] and by torch from its own. *)
Lemma group_formulas mx mn : l <> [] -> extremum fle l mx -> extremum (flip fle) l mn ->
  f16_of (scale_min mx mn Q).1 = (ref_scale_min l Q).1 /\
  f16_of (scale_min mx mn Q).2 = f16_of mn /\
  zeq (f16_of mn) (ref_scale_min l Q).2 /\
  forall x u, x ∈ l ->
    quantize x (scale_min mx mn Q).1 (scale_min mx mn Q).2 Q = ref_quantize u x (ref_scale_min l Q).1 (ref_scale_min l Q).2 Q.
Proof using HQ Hfin.
  intros Hne Hmx Hmn. pose proof group_no_nan as Hn.
  assert (Hmx' : extremum fle l (f_reduce torch_max l)).
  { apply extremum_reduce; [apply fle_refl|apply fle_trans|apply torch_max_picks|done|done]. }
  assert (Hmn' : extremum (flip fle) l (f_reduce torch_min l)).
  { apply extremum_reduce; [intros; apply fle_refl|intros a b c H1 H2; by eapply fle_trans|apply torch_min_picks|done|done]. }
  pose proof (extremum_unique_max l _ _ Hn Hmx Hmx') as Ex. pose proof (extremum_unique_min l _ _ Hn Hmn Hmn') as En.
  assert (Fmx : is_finite mx = true) by (apply f16_finite_inv, Hfin, Hmx).
  assert (Fmn : is_finite mn = true) by (apply f16_finite_inv, Hfin, Hmn).
  assert (Fmn' : is_finite (f32_of (f16_of mn)) = true) by (apply f16_finite_f32, Hfin, Hmn).
  pose proof (scale_nonzero mx mn Q Fmx Fmn HQ) as [Sn Sz].
  assert (Esc : f16_of (scale_min mx mn Q).1 = (ref_scale_min l Q).1).
  { unfold scale_min, ref_scale_min. cbn [fst]. rewrite f16_f32_f16.
    transitivity (if SFeqb (f16_of (f32_div (f32_sub mx mn) (f32_of_Z Q))) f_zero then f16_of (f32_of_Z 1)
                  else f16_of (f32_div (f32_sub mx mn) (f32_of_Z Q))).
    - destruct (SFeqb (f16_of (f32_div (f32_sub mx mn) (f32_of_Z Q))) f_zero); [done|]. apply f16_f32_f16.
    - apply zeq_where. unfold f16_of. by rewrite Ex, En. }
  assert (Emn : zeq (f16_of mn) (ref_scale_min l Q).2).
  { unfold ref_scale_min, f16_of. cbn [snd]. by rewrite En. }
  split; [done|]. split; [apply f16_f32_f16|]. split; [done|]. intros x u Hx.
  assert (Ef : f32_of (f16_of (scale_min mx mn Q).1) = (scale_min mx mn Q).1).
  { unfold scale_min. cbn [fst]. by rewrite f16_f32_f16. }
  unfold ref_quantize. rewrite <- Esc, Ef.
  set (y := f32_div (f32_sub x (f32_of (ref_scale_min l Q).2)) (scale_min mx mn Q).1).
  assert (Hy : is_nan y = false).
  { assert (Hs : is_finite (f32_sub x (f32_of (ref_scale_min l Q).2)) = true).
    { apply sub_finite; [apply f16_finite_below, Hfin, Hx|]. unfold ref_scale_min. cbn [snd].
      apply f16_widen_below, Hfin, Hmn'. }
    apply div_not_nan; [by apply finite_not_nan|done|done|by rewrite Hs]. }
  rewrite (proj2 (clamp_level Q y HQ) Hy u). apply clamp_zeq; [|done]. unfold y, f32_of. by rewrite <- Emn.
Qed.
End formulas.
