(* ===== verification/QuantProps.v ===== *)
(** * The quantising kernels compute the torch references

    For every order of the programs, and for vectors whose elements are finite
    in fp16, the bytes and the metadata a launch leaves in a row are those of
    the reference, up to the sign of a zero minimum; other rows keep their
    contents. *)

From S2P Require Import Prelude Tensors Floats DeviceFloats DeviceFloatsTheory DeviceMemory QuantKernels QuantTheory.

(** ** Closed forms of the references *)

Lemma chunks_tabulate {A} (n : nat) (k : nat) : (0 < n)%nat -> forall fuel (f : Z -> A), (k * n <= fuel)%nat ->
  chunks fuel n (map f (seqZ 0 (Z.of_nat (k * n)))) =
    map (fun g => map (fun j => f (g * Z.of_nat n + j)) (seqZ 0 (Z.of_nat n))) (seqZ 0 (Z.of_nat k)).
Proof.
  intros Hn. induction k as [|k IH]; intros fuel f Hf; [by destruct fuel|].
  destruct fuel as [|fuel]; [lia|].
  replace (Z.of_nat (S k * n)) with (Z.of_nat n + Z.of_nat (k * n)) by lia.
  replace (Z.of_nat (S k)) with (1 + Z.of_nat k) by lia.
  rewrite !tabulate_split by lia. cbn [chunks].
  destruct (map f (seqZ 0 (Z.of_nat n)) ++ _) as [|x l] eqn:E.
  { apply (f_equal length) in E. rewrite length_app, length_tabulate in E. simpl in E. lia. }
  rewrite <- E. clear E x l.
  rewrite take_app_length', drop_app_length' by (rewrite length_tabulate; lia).
  rewrite IH by lia. cbn [map seqZ app]. f_equal.
  apply tabulate_ext. intros g Hg. apply tabulate_ext. intros j Hj. f_equal. lia.
Qed.

Lemma reshape_tabulate {A} (n : nat) k (f : Z -> A) : (0 < n)%nat -> 0 <= k ->
  reshape n (map f (seqZ 0 (k * Z.of_nat n))) =
    map (fun g => map (fun j => f (g * Z.of_nat n + j)) (seqZ 0 (Z.of_nat n))) (seqZ 0 k).
Proof.
  intros Hn Hk. unfold reshape. rewrite length_tabulate.
  replace (k * Z.of_nat n) with (Z.of_nat (Z.to_nat k * n)) by lia. rewrite chunks_tabulate by lia. by rewrite Z2Nat.id.
Qed.

(** The fp32 values of group [g] of a vector. *)
Definition group (v : Z -> spec_float) (g : Z) : list spec_float := map (fun j => f32_of (v (g * 32 + j))) (seqZ 0 32).

Definition ref_level (u Q : Z) (v : Z -> spec_float) (d : Z) : Z :=
  let sm := ref_scale_min (group v (d / 32)) Q in ref_quantize u (f32_of (v d)) sm.1 sm.2 Q.

Lemma ref_levels_tabulate u Q v ng : 0 <= ng ->
  ref_levels u Q (map v (seqZ 0 (ng * 32))) = map (ref_level u Q v) (seqZ 0 (ng * 32)).
Proof.
  intros Hg. unfold ref_levels. rewrite map_map, (reshape_tabulate 32) by lia. rewrite map_map.
  transitivity (concat (map (fun g => map (fun j => ref_level u Q v (g * 32 + j)) (seqZ 0 32)) (seqZ 0 ng))).
  - apply (f_equal (@concat Z)), tabulate_ext. intros g Hg'.
    change (map (fun j => f32_of (v (g * Z.of_nat 32 + j))) (seqZ 0 (Z.of_nat 32))) with (group v g).
    destruct (ref_scale_min (group v g) Q) as [sc mn] eqn:E. unfold group. rewrite map_map. apply tabulate_ext. intros j Hj.
    unfold ref_level. replace ((g * 32 + j) / 32) with g by (apply Z.div_unique with j; lia). by rewrite E.
  - rewrite (concat_tabulate (fun g j => ref_level u Q v (g * 32 + j))) by lia.
    apply tabulate_ext. intros d Hd. replace (d / 32 * 32 + d mod 32) with d by (pose proof (Z.div_mod d 32); lia). reflexivity.
Qed.

Lemma ref_metas_tabulate Q v ng : 0 <= ng ->
  ref_metas Q (map v (seqZ 0 (ng * 32))) = map (fun g => ref_scale_min (group v g) Q) (seqZ 0 ng).
Proof. intros Hg. unfold ref_metas. rewrite map_map, (reshape_tabulate 32), map_map by lia. done. Qed.

Lemma ref_levels_vec u Q v D : 0 <= D -> D mod 32 = 0 -> ref_levels u Q (map v (seqZ 0 D)) = map (ref_level u Q v) (seqZ 0 D).
Proof.
  intros H0 HD. pose proof (ref_levels_tabulate u Q v (D / 32) ltac:(dlia)) as H.
  by replace (D / 32 * 32) with D in H by dlia.
Qed.

Lemma ref_metas_vec Q v D : 0 <= D -> D mod 32 = 0 ->
  ref_metas Q (map v (seqZ 0 D)) = map (fun g => ref_scale_min (group v g) Q) (seqZ 0 (D / 32)).
Proof.
  intros H0 HD. pose proof (ref_metas_tabulate Q v (D / 32) ltac:(dlia)) as H.
  by replace (D / 32 * 32) with D in H by dlia.
Qed.

(** Bytes of a packed vector of levels. *)
Definition byte4 (L : Z -> Z) (j : Z) : Z := pack4 (L (j * 2)) (L (j * 2 + 1)).
Definition byte2 (L : Z -> Z) (j : Z) : Z := pack2 (L (j * 4)) (L (j * 4 + 1)) (L (j * 4 + 2)) (L (j * 4 + 3)).

Lemma pack4_tabulate L w : 0 <= w -> map pack4_row (reshape 2 (map L (seqZ 0 (w * 2)))) = map (byte4 L) (seqZ 0 w).
Proof.
  intros Hw. rewrite (reshape_tabulate 2), map_map by lia. apply tabulate_ext. intros j Hj.
  unfold byte4, pack4_row. simpl. by rewrite Z.add_0_r.
Qed.

Lemma pack2_tabulate L w : 0 <= w -> map pack2_row (reshape 4 (map L (seqZ 0 (w * 4)))) = map (byte2 L) (seqZ 0 w).
Proof.
  intros Hw. rewrite (reshape_tabulate 4), map_map by lia. apply tabulate_ext. intros j Hj.
  unfold byte2, pack2_row. simpl. by rewrite Z.add_0_r.
Qed.

(** ** One group *)

(** Every element of group [g] is finite in fp16. *)
Definition fits (v : Z -> spec_float) (g : Z) : Prop :=
  forall j, 0 <= j < 32 -> is_finite (f16_of (f32_of (v (g * 32 + j)))) = true.

Lemma fits_group v g y : fits v g -> y ∈ group v g -> is_finite (f16_of y) = true.
Proof. intros Hf (j & Hj & ->)%elem_of_tabulate. by apply Hf. Qed.

(** Even and odd positions, and positions by their remainder modulo 4. *)
Lemma interleave2 {A} (f : Z -> A) x :
  x ∈ map (fun b => f (2 * b)) (seqZ 0 16) ++ map (fun b => f (2 * b + 1)) (seqZ 0 16) <-> x ∈ map f (seqZ 0 32).
Proof.
  rewrite elem_of_app, !elem_of_tabulate. split.
  - intros [(b & Hb & ->)|(b & Hb & ->)]; eexists; (split; [|done]); lia.
  - intros (i & Hi & ->). pose proof (Z.div_mod i 2). pose proof (Z.mod_pos_bound i 2).
    destruct (Z.eq_dec (i mod 2) 0) as [E|E]; [left|right]; exists (i / 2); (split; [lia|f_equal; lia]).
Qed.

Definition residue {A} (f : Z -> A) (c : Z) : list A := map (fun b => f (4 * b + c)) (seqZ 0 8).

Lemma interleave4 {A} (f : Z -> A) x :
  x ∈ (residue f 0 ++ residue f 1) ++ (residue f 2 ++ residue f 3) <-> x ∈ map f (seqZ 0 32).
Proof.
  unfold residue. rewrite !elem_of_app, !elem_of_tabulate. split.
  - intros [[(b & Hb & ->)|(b & Hb & ->)]|[(b & Hb & ->)|(b & Hb & ->)]]; eexists; (split; [|done]); lia.
  - intros (i & Hi & ->). pose proof (Z.div_mod i 4). pose proof (Z.mod_pos_bound i 4).
    assert (Hb : forall c, i mod 4 = c -> exists b, 0 <= b < 8 /\ f i = f (4 * b + c)).
    { intros c Hc. exists (i / 4). split; [lia|f_equal; lia]. }
    destruct (Z.eq_dec (i mod 4) 0) as [E|E0]; [left; left; by apply Hb|].
    destruct (Z.eq_dec (i mod 4) 1) as [E|E1]; [left; right; by apply Hb|].
    destruct (Z.eq_dec (i mod 4) 2) as [E|E2]; [right; left; by apply Hb|right; right; apply Hb; lia].
Qed.

Section extrema_of_parts.
Context (R : spec_float -> spec_float -> Prop) (R_refl : forall a, R a a)
  (R_trans : forall a b c, R a b -> R b c -> R a c) (op : spec_float -> spec_float -> spec_float) (Hop : picks R op).
Context (f : Z -> spec_float) (Hn : no_nan (map f (seqZ 0 32))).

Lemma extremum2 : extremum R (map f (seqZ 0 32))
  (op (f_reduce op (map (fun b => f (2 * b)) (seqZ 0 16))) (f_reduce op (map (fun b => f (2 * b + 1)) (seqZ 0 16)))).
Proof using R_refl R_trans Hop Hn.
  eapply extremum_same; [apply (interleave2 f)|].
  assert (Hn' : no_nan (map (fun b => f (2 * b)) (seqZ 0 16) ++ map (fun b => f (2 * b + 1)) (seqZ 0 16))).
  { intros x Hx. apply Hn, (interleave2 f), Hx. }
  apply (extremum_app R R_refl R_trans op Hop _ _ _ _ Hn').
  - apply extremum_reduce; [done..|]. intros x Hx. apply Hn', elem_of_app. by left.
  - apply extremum_reduce; [done..|]. intros x Hx. apply Hn', elem_of_app. by right.
Qed.

Lemma extremum4 : extremum R (map f (seqZ 0 32))
  (op (op (f_reduce op (residue f 0)) (f_reduce op (residue f 1))) (op (f_reduce op (residue f 2)) (f_reduce op (residue f 3)))).
Proof using R_refl R_trans Hop Hn.
  eapply extremum_same; [apply (interleave4 f)|].
  assert (Hn' : no_nan ((residue f 0 ++ residue f 1) ++ (residue f 2 ++ residue f 3))).
  { intros x Hx. apply Hn, (interleave4 f), Hx. }
  assert (Hr : forall c, no_nan (residue f c) -> extremum R (residue f c) (f_reduce op (residue f c))).
  { intros c Hc. by apply extremum_reduce. }
  assert (H01 : no_nan (residue f 0 ++ residue f 1)) by (intros x Hx; apply Hn', elem_of_app; by left).
  assert (H23 : no_nan (residue f 2 ++ residue f 3)) by (intros x Hx; apply Hn', elem_of_app; by right).
  assert (Hl : forall l k, no_nan (l ++ k) -> no_nan l) by (intros l k H x Hx; apply H, elem_of_app; by left).
  assert (Hk : forall l k, no_nan (l ++ k) -> no_nan k) by (intros l k H x Hx; apply H, elem_of_app; by right).
  apply (extremum_app R R_refl R_trans op Hop _ _ _ _ Hn').
  - apply (extremum_app R R_refl R_trans op Hop _ _ _ _ H01); eauto.
  - apply (extremum_app R R_refl R_trans op Hop _ _ _ _ H23); eauto.
Qed.
End extrema_of_parts.

(** Scale, minimum and levels of one group, from any extrema of it. *)
Lemma group_levels Q v g mx mn : Q = 3 \/ Q = 15 -> fits v g ->
  extremum fle (group v g) mx -> extremum (flip fle) (group v g) mn ->
  f16_of (scale_min mx mn Q).1 = (ref_scale_min (group v g) Q).1 /\
  zeq (f16_of (scale_min mx mn Q).2) (ref_scale_min (group v g) Q).2 /\
  forall d u, d / 32 = g -> quantize (f32_of (v d)) (scale_min mx mn Q).1 (scale_min mx mn Q).2 Q = ref_level u Q v d.
Proof.
  intros HQ Hf Hmx Hmn.
  destruct (group_formulas Q HQ (group v g) (fun y => fits_group v g y Hf) mx mn) as (H1 & H2 & H3 & H4); [done..|].
  split; [exact H1|]. split; [by rewrite H2|]. intros d u Hd. unfold ref_level. rewrite Hd. apply H4, elem_of_tabulate.
  exists (d mod 32). split; [apply Z.mod_pos_bound; lia|].
  replace (g * 32 + d mod 32) with d by (pose proof (Z.div_mod d 32); lia). reflexivity.
Qed.

(** ** The kernels *)

(** [mv] holds the reference metadata of groups [0..ng), up to the sign of a zero minimum. *)
Definition meta_of (Q ng : Z) (grp : Z -> list spec_float) (mv : Z -> spec_float) : Prop :=
  forall g, 0 <= g < ng -> mv (g * 2) = (ref_scale_min (grp g) Q).1 /\ zeq (mv (g * 2 + 1)) (ref_scale_min (grp g) Q).2.

Lemma pair_meta Q ng grp (f1 f2 : Z -> spec_float) :
  (forall g, 0 <= g < ng -> f1 g = (ref_scale_min (grp g) Q).1 /\ zeq (f2 g) (ref_scale_min (grp g) Q).2) ->
  meta_of Q ng grp (fun k => if k mod 2 =? 0 then f1 (k / 2) else f2 (k / 2)).
Proof.
  intros Hf g Hg. rewrite Z.mod_mul, Z.div_mul by lia.
  replace ((g * 2 + 1) mod 2) with 1 by (apply Z.mod_unique with g; lia).
  replace ((g * 2 + 1) / 2) with g by (apply Z.div_unique with 1; lia). by apply Hf.
Qed.

Section kernels.
Context (X : mem spec_float) (sxn sxh H D NG : Z) (HNG : 0 <= NG) (HD : D = NG * 32).

Section one_program.
Context (u i h : Z).
Notation v := (fun d => X (i * sxn + h * sxh + d)).

Lemma int4_group g : fits v g ->
  f16_of (int4_scale_min X sxn sxh i h g).1 = (ref_scale_min (group v g) 15).1 /\
  zeq (f16_of (int4_scale_min X sxn sxh i h g).2) (ref_scale_min (group v g) 15).2 /\
  forall d, d / 32 = g ->
    quantize (f32_of (v d)) (int4_scale_min X sxn sxh i h g).1 (int4_scale_min X sxn sxh i h g).2 15 = ref_level u 15 v d.
Proof.
  intros Hf. assert (Hn : no_nan (group v g)) by (intros y Hy; by apply finite_not_nan, f16_finite_inv, (fits_group v g)).
  set (f := fun j => f32_of (v (g * 32 + j))).
  assert (E : map (int4_hi X sxn sxh i h g) (seqZ 0 16) = map (fun b => f (2 * b + 1)) (seqZ 0 16)).
  { apply tabulate_ext. intros b _. unfold int4_hi, f. by rewrite <- !Z.add_assoc. }
  assert (E' : map (int4_lo X sxn sxh i h g) (seqZ 0 16) = map (fun b => f (2 * b)) (seqZ 0 16)) by done.
  unfold int4_scale_min. cbv zeta. rewrite E, E'.
  destruct (group_levels 15 v g _ _ (or_intror eq_refl) Hf
    (extremum2 fle fle_refl fle_trans f_max f_max_picks f Hn)
    (extremum2 (flip fle) fle_refl (fun a b c H1 H2 => fle_trans c b a H2 H1) f_min f_min_picks f Hn)) as (H1 & H2 & H3).
  split; [exact H1|]. split; [exact H2|]. intros d Hd. apply H3, Hd.
Qed.

Lemma int4_kernel_cells rows : (forall g, 0 <= g < NG -> fits v g) ->
  cells ((tget rows i * H + h) * (D / 2)) (D / 2) (byte4 (ref_level u 15 v))
    (quant_int4_tokens_kernel X sxn sxh H D NG rows (i, h)).1 /\
  exists mv, meta_of 15 NG (group v) mv /\
    cells ((tget rows i * H + h) * (NG * 2)) (NG * 2) mv (quant_int4_tokens_kernel X sxn sxh H D NG rows (i, h)).2.
Proof using HNG HD.
  intros Hf. unfold quant_int4_tokens_kernel. cbv zeta. cbn [fst snd].
  assert (ED : D / 2 = NG * 16) by (subst D; dlia). rewrite ED. split.
  - apply tile_cells; [lia|]. intros g b Hg Hb. destruct (int4_group g (Hf g Hg)) as (_ & _ & Hq).
    unfold byte4. rewrite <- (Hq ((g * 16 + b) * 2)), <- (Hq ((g * 16 + b) * 2 + 1)) by dlia. unfold int4_lo, int4_hi.
    replace (g * 32 + 2 * b) with ((g * 16 + b) * 2) by lia. by rewrite <- !Z.add_assoc.
  - eexists. split; [|apply pair_cells]. apply pair_meta. intros g Hg. destruct (int4_group g (Hf g Hg)) as (H1 & H2 & _). by split.
Qed.
Lemma int2_v_group g : fits v g ->
  f16_of (int2_v_scale_min X sxn sxh i h g).1 = (ref_scale_min (group v g) 3).1 /\
  zeq (f16_of (int2_v_scale_min X sxn sxh i h g).2) (ref_scale_min (group v g) 3).2 /\
  forall d, d / 32 = g ->
    quantize (f32_of (v d)) (int2_v_scale_min X sxn sxh i h g).1 (int2_v_scale_min X sxn sxh i h g).2 3 = ref_level u 3 v d.
Proof.
  intros Hf. assert (Hn : no_nan (group v g)) by (intros y Hy; by apply finite_not_nan, f16_finite_inv, (fits_group v g)).
  set (f := fun j => f32_of (v (g * 32 + j))).
  assert (E : forall c, map (int2_v_x X sxn sxh i h g c) (seqZ 0 8) = residue f c).
  { intros c. apply tabulate_ext. intros b _. unfold int2_v_x, f. by rewrite <- !Z.add_assoc. }
  unfold int2_v_scale_min. cbv zeta. rewrite !E.
  destruct (group_levels 3 v g _ _ (or_introl eq_refl) Hf
    (extremum4 fle fle_refl fle_trans f_max f_max_picks f Hn)
    (extremum4 (flip fle) fle_refl (fun a b c H1 H2 => fle_trans c b a H2 H1) f_min f_min_picks f Hn)) as (H1 & H2 & H3).
  split; [exact H1|]. split; [exact H2|]. intros d Hd. apply H3, Hd.
Qed.

Lemma int2_v_kernel_cells rows : (forall g, 0 <= g < NG -> fits v g) ->
  cells ((tget rows i * H + h) * (D / 4)) (D / 4) (byte2 (ref_level u 3 v))
    (quant_int2_v_tokens_kernel X sxn sxh H D NG rows (i, h)).1 /\
  exists mv, meta_of 3 NG (group v) mv /\
    cells ((tget rows i * H + h) * (NG * 2)) (NG * 2) mv (quant_int2_v_tokens_kernel X sxn sxh H D NG rows (i, h)).2.
Proof using HNG HD.
  intros Hf. unfold quant_int2_v_tokens_kernel. cbv zeta. cbn [fst snd].
  assert (ED : D / 4 = NG * 8) by (subst D; dlia). rewrite ED. split.
  - apply tile_cells; [lia|]. intros g b Hg Hb. destruct (int2_v_group g (Hf g Hg)) as (_ & _ & Hq).
    assert (Hc : forall c, 0 <= c < 4 -> quantize (int2_v_x X sxn sxh i h g c b) (int2_v_scale_min X sxn sxh i h g).1
      (int2_v_scale_min X sxn sxh i h g).2 3 = ref_level u 3 v ((g * 8 + b) * 4 + c)).
    { intros c Hc. rewrite <- Hq by dlia. unfold int2_v_x.
      replace ((g * 8 + b) * 4 + c) with (g * 32 + 4 * b + c) by lia. by rewrite <- !Z.add_assoc. }
    unfold byte2. rewrite !Hc by lia. by rewrite Z.add_0_r.
  - eexists. split; [|apply pair_cells]. apply pair_meta. intros g Hg. destruct (int2_v_group g (Hf g Hg)) as (H1 & H2 & _). by split.
Qed.
End one_program.

(** Tokens of page [p], head [h], channel [d], in the order of the page. *)
Notation kv_page toks h d := (fun j => X (h * sxh + d + tget toks j * sxn)).

Lemma int2_k_group u toks p h d : fits (kv_page toks h d) p ->
  f16_of (int2_k_scale_min X sxn sxh toks p h d).1 = (ref_scale_min (group (kv_page toks h d) p) 3).1 /\
  zeq (f16_of (int2_k_scale_min X sxn sxh toks p h d).2) (ref_scale_min (group (kv_page toks h d) p) 3).2 /\
  forall j, j / 32 = p ->
    quantize (f32_of (kv_page toks h d j)) (int2_k_scale_min X sxn sxh toks p h d).1 (int2_k_scale_min X sxn sxh toks p h d).2 3 =
    ref_level u 3 (kv_page toks h d) j.
Proof.
  intros Hf. set (v := kv_page toks h d) in *.
  assert (Hn : no_nan (group v p)) by (intros y Hy; by apply finite_not_nan, f16_finite_inv, (fits_group v p)).
  set (f := fun j => f32_of (v (p * 32 + j))).
  assert (E : forall c, map (int2_k_x X sxn sxh toks p h d c) (seqZ 0 8) = residue f c).
  { intros c. apply tabulate_ext. intros b _. unfold int2_k_x, f, v. by rewrite <- !Z.add_assoc. }
  unfold int2_k_scale_min. cbv zeta. rewrite !E.
  destruct (group_levels 3 v p _ _ (or_introl eq_refl) Hf
    (extremum4 fle fle_refl fle_trans f_max f_max_picks f Hn)
    (extremum4 (flip fle) fle_refl (fun a b c H1 H2 => fle_trans c b a H2 H1) f_min f_min_picks f Hn)) as (H1 & H2 & H3).
  split; [exact H1|]. split; [exact H2|]. intros j Hj. apply H3, Hj.
Qed.

Lemma int2_k_kernel_cells u toks pages p h : 0 <= D -> (forall d, 0 <= d < D -> fits (kv_page toks h d) p) ->
  cells ((tget pages p * H + h) * (D * 8)) (D * 8)
    (fun k => byte2 (ref_level u 3 (kv_page toks h (k / 8))) (p * 8 + k mod 8))
    (quant_int2_k_pages_kernel X sxn sxh H D toks pages (p, h)).1 /\
  exists mv, meta_of 3 D (fun d => group (kv_page toks h d) p) mv /\
    cells ((tget pages p * H + h) * (D * 2)) (D * 2) mv (quant_int2_k_pages_kernel X sxn sxh H D toks pages (p, h)).2.
Proof using.
  intros HD0 Hf. unfold quant_int2_k_pages_kernel. cbv zeta. cbn [fst snd]. split.
  - apply tile_cells_flip; [lia|]. intros d b Hd Hb.
    replace ((d * 8 + b) / 8) with d by (apply Z.div_unique with b; lia).
    replace ((d * 8 + b) mod 8) with b by (apply Z.mod_unique with d; lia).
    destruct (int2_k_group u toks p h d (Hf d Hd)) as (_ & _ & Hq).
    assert (Hc : forall c, 0 <= c < 4 -> quantize (int2_k_x X sxn sxh toks p h d c b) (int2_k_scale_min X sxn sxh toks p h d).1
      (int2_k_scale_min X sxn sxh toks p h d).2 3 = ref_level u 3 (kv_page toks h d) ((p * 8 + b) * 4 + c)).
    { intros c Hc. rewrite <- Hq by dlia. unfold int2_k_x.
      replace ((p * 8 + b) * 4 + c) with (p * 32 + 4 * b + c) by lia. reflexivity. }
    unfold byte2. rewrite !Hc by lia. by rewrite Z.add_0_r.
  - eexists. split; [|apply pair_cells]. apply pair_meta. intros d Hd.
    destruct (int2_k_group u toks p h d (Hf d Hd)) as (H1 & H2 & _). by split.
Qed.
End kernels.

(** ** The launchers

    What a launch leaves in a row, and what it does not touch. *)

(** [data] and [meta] hold, for row [r], head [h], bytes [bytes] and the reference metadata of [grp]. *)
Definition row_holds (Q W NG H : Z) (data : tensor Z) (meta : tensor spec_float) (r h : Z) (bytes : Z -> Z)
    (grp : Z -> list spec_float) : Prop :=
  (forall k, 0 <= k < W -> elems data ((r * H + h) * W + k) = bytes k) /\
  meta_of Q NG grp (fun k => elems meta ((r * H + h) * (NG * 2) + k)).

Definition row_same (W NG H : Z) (data data' : tensor Z) (meta meta' : tensor spec_float) (r h : Z) : Prop :=
  (forall k, 0 <= k < W -> elems data' ((r * H + h) * W + k) = elems data ((r * H + h) * W + k)) /\
  (forall k, 0 <= k < NG * 2 -> elems meta' ((r * H + h) * (NG * 2) + k) = elems meta ((r * H + h) * (NG * 2) + k)).

Section launch.
Context (Q W NG H n : Z) (prog : Z * Z -> list (Z * Z) * list (Z * spec_float)) (order : list (Z * Z)) (row : Z -> Z).
Context (Horder : order ≡ₚ grid2 n H).
Context (Hwd : forall i h, 0 <= i < n -> 0 <= h < H -> within ((row i * H + h) * W) W (prog (i, h)).1).
Context (Hwm : forall i h, 0 <= i < n -> 0 <= h < H -> within ((row i * H + h) * (NG * 2)) (NG * 2) (prog (i, h)).2).
Context (data : tensor Z) (meta : tensor spec_float).

Lemma launch_row i h bytes grp mv : 0 <= i < n -> 0 <= h < H -> sole_writer n row i ->
  cells ((row i * H + h) * W) W bytes (prog (i, h)).1 ->
  meta_of Q NG grp mv -> cells ((row i * H + h) * (NG * 2)) (NG * 2) mv (prog (i, h)).2 ->
  row_holds Q W NG H (launch_quant prog order data meta).1 (launch_quant prog order data meta).2 (row i) h bytes grp.
Proof using Horder Hwd Hwm.
  intros Hi Hh Hs Hc Hmv Hm. unfold launch_quant. split; cbn [fst snd with_elems elems].
  - intros k Hk. rewrite (launch_flat (fun p => (prog p).1)).
    by apply (launch_cells (fun p => (prog p).1) order n H W row Horder Hwd _ i h k bytes).
  - intros g Hg. rewrite (launch_flat (fun p => (prog p).2)).
    rewrite !(launch_cells (fun p => (prog p).2) order n H (NG * 2) row Horder Hwm _ i h _ mv) by (done || lia). by apply Hmv.
Qed.

Lemma launch_other r h : 0 <= h < H -> (forall i, 0 <= i < n -> row i <> r) ->
  row_same W NG H data (launch_quant prog order data meta).1 meta (launch_quant prog order data meta).2 r h.
Proof using Horder Hwd Hwm.
  intros Hh Hr. unfold launch_quant. split; cbn [fst snd with_elems elems]; intros k Hk.
  - rewrite (launch_flat (fun p => (prog p).1)). by apply (launch_cells_frame (fun p => (prog p).1) order n H W row Horder Hwd).
  - rewrite (launch_flat (fun p => (prog p).2)). by apply (launch_cells_frame (fun p => (prog p).2) order n H (NG * 2) row Horder Hwm).
Qed.
End launch.

(** The vector of token [i], head [h] of a contiguous tensor [n, H, D]. *)
Definition vec (x : tensor spec_float) (i h d : Z) : spec_float := elems x (i * (dim x 1 * dim x 2) + h * dim x 2 + d).

(** The vector is finite in fp16. *)
Definition fits_row (x : tensor spec_float) (i h : Z) : Prop := forall d, 0 <= d < dim x 2 -> is_finite (f16_of (f32_of (vec x i h d))) = true.

Lemma fits_row_groups x i h : dim x 2 mod 32 = 0 -> fits_row x i h -> forall g, 0 <= g < dim x 2 / 32 -> fits (vec x i h) g.
Proof. intros HD Hf g Hg j Hj. apply Hf. dlia. Qed.

Lemma check_head_dim_ok D m : check_head_dim D m = Ok tt -> D mod 32 = 0 /\ m <= D.
Proof.
  unfold check_head_dim, rassert. case_match eqn:E; [|done]. intros _.
  apply andb_prop in E as [[E1 _]%andb_prop E2]. unfold G in E1. lia.
Qed.

Section tokens.
Context (u : Z) (order : list (Z * Z)) (x : tensor spec_float) (rows : list Z) (data : tensor Z) (meta : tensor spec_float).
Context (n H D : Z) (Hx : shape x = [n; H; D]) (Hn : 0 < n) (HD : check_head_dim D 32 = Ok tt) (Horder : order ≡ₚ grid2 n H).
Context (Hmeta : tail (shape meta) = [H; D / 32; 2]).

(** What a launch over the rows [rows] writes: for [bits] levels, [W] bytes per row. *)
Definition tokens_written (Q W : Z) (bytes : (Z -> Z) -> Z -> Z) (data' : tensor Z) (meta' : tensor spec_float) : Prop :=
  shape data' = shape data /\ shape meta' = shape meta /\
  (forall i h, 0 <= i < n -> 0 <= h < H -> sole_writer n (tget rows) i -> fits_row x i h ->
     row_holds Q W (D / 32) H data' meta' (tget rows i) h (bytes (ref_level u Q (vec x i h))) (group (vec x i h))) /\
  (forall r h, 0 <= h < H -> (forall i, 0 <= i < n -> tget rows i <> r) -> row_same W (D / 32) H data data' meta meta' r h).

Lemma dims_x : dim x 0 = n /\ dim x 1 = H /\ dim x 2 = D.
Proof using Hx. unfold dim. by rewrite Hx. Qed.

Lemma int4_tokens_written : tail (shape data) = [H; D / 2] ->
  exists data' meta', quant_int4_tokens order x rows data meta = Ok (data', meta') /\ tokens_written 15 (D / 2) byte4 data' meta'.
Proof using Hx Hn HD Horder Hmeta.
  intros Hdata. destruct dims_x as (D0 & D1 & D2). unfold quant_int4_tokens. rewrite D0, D1, D2, HD, Hdata, Hmeta.
  destruct (Z.eqb_spec n 0); [lia|]. cbn [rbind]. rewrite !bool_decide_true by done. cbn [andb rassert rbind].
  destruct (check_head_dim_ok D 32 HD) as [Hmod HD32].
  eexists _, _. split; [by rewrite <- surjective_pairing|].
  assert (ED : D / 2 = D / 32 * 16) by dlia.
  assert (Hw1 : forall i h, within ((tget rows i * H + h) * (D / 2)) (D / 2) (quant_int4_tokens_kernel (elems x) (H * D) D H D (D / G) rows (i, h)).1).
  { intros i h. unfold quant_int4_tokens_kernel. cbn [fst]. unfold G. rewrite ED. apply tile_within. lia. }
  assert (Hw2 : forall i h, within ((tget rows i * H + h) * (D / 32 * 2)) (D / 32 * 2) (quant_int4_tokens_kernel (elems x) (H * D) D H D (D / G) rows (i, h)).2).
  { intros i h. unfold quant_int4_tokens_kernel. cbn [snd]. eapply cells_within, pair_cells. }
  split; [done|]. split; [done|]. split.
  - intros i h Hi Hh Hs Hf.
    destruct (int4_kernel_cells (elems x) (H * D) D H D (D / G) ltac:(unfold G; dlia) ltac:(unfold G; dlia) u i h rows) as [Hc (mv & Hmv & Hcm)].
    { pose proof (fits_row_groups x i h) as Hg. unfold vec in Hg. rewrite D1, D2 in Hg. by apply Hg. }
    pose proof (launch_row 15 (D / 2) (D / 32) H n _ order (tget rows) Horder (fun i h _ _ => Hw1 i h) (fun i h _ _ => Hw2 i h)
      data meta i h _ _ mv Hi Hh Hs Hc Hmv Hcm) as Hr. unfold vec. rewrite D1, D2. exact Hr.
  - intros r h Hh Hr. by apply (launch_other (D / 2) (D / 32) H n _ order (tget rows) Horder (fun i h _ _ => Hw1 i h) (fun i h _ _ => Hw2 i h)).
Qed.

Lemma int2_v_tokens_written : tail (shape data) = [H; D / 4] ->
  exists data' meta', quant_int2_v_tokens order x rows data meta = Ok (data', meta') /\ tokens_written 3 (D / 4) byte2 data' meta'.
Proof using Hx Hn HD Horder Hmeta.
  intros Hdata. destruct dims_x as (D0 & D1 & D2). unfold quant_int2_v_tokens. rewrite D0, D1, D2, HD, Hdata, Hmeta.
  destruct (Z.eqb_spec n 0); [lia|]. cbn [rbind]. rewrite !bool_decide_true by done. cbn [andb rassert rbind].
  destruct (check_head_dim_ok D 32 HD) as [Hmod HD32].
  eexists _, _. split; [by rewrite <- surjective_pairing|].
  assert (ED : D / 4 = D / 32 * 8) by dlia.
  assert (Hw1 : forall i h, within ((tget rows i * H + h) * (D / 4)) (D / 4) (quant_int2_v_tokens_kernel (elems x) (H * D) D H D (D / G) rows (i, h)).1).
  { intros i h. unfold quant_int2_v_tokens_kernel. cbn [fst]. unfold G. rewrite ED. apply tile_within. lia. }
  assert (Hw2 : forall i h, within ((tget rows i * H + h) * (D / 32 * 2)) (D / 32 * 2) (quant_int2_v_tokens_kernel (elems x) (H * D) D H D (D / G) rows (i, h)).2).
  { intros i h. unfold quant_int2_v_tokens_kernel. cbn [snd]. eapply cells_within, pair_cells. }
  split; [done|]. split; [done|]. split.
  - intros i h Hi Hh Hs Hf.
    destruct (int2_v_kernel_cells (elems x) (H * D) D H D (D / G) ltac:(unfold G; dlia) ltac:(unfold G; dlia) u i h rows) as [Hc (mv & Hmv & Hcm)].
    { pose proof (fits_row_groups x i h) as Hg. unfold vec in Hg. rewrite D1, D2 in Hg. by apply Hg. }
    pose proof (launch_row 3 (D / 4) (D / 32) H n _ order (tget rows) Horder (fun i h _ _ => Hw1 i h) (fun i h _ _ => Hw2 i h)
      data meta i h _ _ mv Hi Hh Hs Hc Hmv Hcm) as Hr. unfold vec. rewrite D1, D2. exact Hr.
  - intros r h Hh Hr. by apply (launch_other (D / 4) (D / 32) H n _ order (tget rows) Horder (fun i h _ _ => Hw1 i h) (fun i h _ _ => Hw2 i h)).
Qed.
End tokens.

(** Channel [d] of head [h] over the tokens listed in [toks]. *)
Definition chan (x : tensor spec_float) (toks : list Z) (h d j : Z) : spec_float :=
  elems x (h * dim x 2 + d + tget toks j * (dim x 1 * dim x 2)).

Section pages.
Context (u : Z) (order : list (Z * Z)) (x : tensor spec_float) (tok_rows : list (list Z)) (pages : list Z)
  (data : tensor Z) (meta : tensor spec_float).
Context (n H D : Z) (Hx : shape x = [n; H; D]) (Hp : 0 < zlen pages) (HD : check_head_dim D 32 = Ok tt)
  (Horder : order ≡ₚ grid2 (zlen pages) H).
Context (Htok : zlen tok_rows = zlen pages) (Htok32 : Forall (fun r => zlen r = 32) tok_rows).
Notation toks := (concat tok_rows).

Definition pages_written (data' : tensor Z) (meta' : tensor spec_float) : Prop :=
  shape data' = shape data /\ shape meta' = shape meta /\
  (forall p h, 0 <= p < zlen pages -> 0 <= h < H -> sole_writer (zlen pages) (tget pages) p ->
     (forall d, 0 <= d < D -> fits (chan x toks h d) p) ->
     row_holds 3 (D * 8) D H data' meta' (tget pages p) h
       (fun k => byte2 (ref_level u 3 (chan x toks h (k / 8))) (p * 8 + k mod 8))
       (fun d => group (chan x toks h d) p)) /\
  (forall r h, 0 <= h < H -> (forall p, 0 <= p < zlen pages -> tget pages p <> r) -> row_same (D * 8) D H data data' meta meta' r h).

Lemma int2_k_pages_written : tail (shape data) = [H; D; 8] -> tail (shape meta) = [H; D; 2] ->
  exists data' meta', quant_int2_k_pages order x tok_rows pages data meta = Ok (data', meta') /\ pages_written data' meta'.
Proof using Hx Hp HD Horder Htok Htok32.
  intros Hdata Hmeta.
  assert (D1 : dim x 1 = H) by (unfold dim; by rewrite Hx). assert (D2 : dim x 2 = D) by (unfold dim; by rewrite Hx).
  unfold quant_int2_k_pages. rewrite D1, D2, HD, Hdata, Hmeta, Htok.
  destruct (Z.eqb_spec (zlen pages) 0); [lia|]. cbn [rbind]. rewrite Z.eqb_refl, !bool_decide_true by done.
  assert (E32 : forallb (fun r => zlen r =? G) tok_rows = true).
  { apply forallb_forall. intros r Hr. rewrite Forall_forall in Htok32. apply Z.eqb_eq, (Htok32 r Hr). }
  rewrite E32. cbn [andb rassert rbind]. destruct (check_head_dim_ok D 32 HD) as [Hmod HD32].
  eexists _, _. split; [by rewrite <- surjective_pairing|].
  assert (Hw1 : forall i h, within ((tget pages i * H + h) * (D * 8)) (D * 8) (quant_int2_k_pages_kernel (elems x) (H * D) D H D toks pages (i, h)).1).
  { intros i h. unfold quant_int2_k_pages_kernel. cbn [fst]. apply tile_within_flip. lia. }
  assert (Hw2 : forall i h, within ((tget pages i * H + h) * (D * 2)) (D * 2) (quant_int2_k_pages_kernel (elems x) (H * D) D H D toks pages (i, h)).2).
  { intros i h. unfold quant_int2_k_pages_kernel. cbn [snd]. eapply cells_within, pair_cells. }
  split; [done|]. split; [done|]. split.
  - intros p h Hpr Hh Hs Hf. unfold chan in *. rewrite D1, D2 in *.
    destruct (int2_k_kernel_cells (elems x) (H * D) D H D u toks pages p h ltac:(lia) Hf) as [Hc (mv & Hmv & Hcm)].
    exact (launch_row 3 (D * 8) D H (zlen pages) _ order (tget pages) Horder (fun i h _ _ => Hw1 i h) (fun i h _ _ => Hw2 i h)
      data meta p h _ _ mv Hpr Hh Hs Hc Hmv Hcm).
  - intros r h Hh Hr. by apply (launch_other (D * 8) D H (zlen pages) _ order (tget pages) Horder (fun i h _ _ => Hw1 i h) (fun i h _ _ => Hw2 i h)).
Qed.
End pages.

(** ** The properties *)

(** A tensor as nested lists, [x.tolist()]. *)
Definition tolist3 (x : tensor spec_float) : list (list (list spec_float)) :=
  map (fun i => map (fun h => map (fun d => at_ x [i; h; d]) (seqZ 0 (dim x 2))) (seqZ 0 (dim x 1))) (seqZ 0 (dim x 0)).

(** [l[i][h][j]] *)
Definition get3 {A} (l : list (list (list A))) (i h j : Z) : option A :=
  match l !! Z.to_nat i with
  | Some r => match r !! Z.to_nat h with Some v => v !! Z.to_nat j | None => None end
  | None => None
  end.

Lemma tabulate_get {A} (f : Z -> A) n i : 0 <= i < n -> map f (seqZ 0 n) !! Z.to_nat i = Some (f i).
Proof. intros Hi. rewrite lookup_tabulate by lia. by rewrite Z2Nat.id by lia. Qed.

Lemma at_vec x n H D i h d : shape x = [n; H; D] -> at_ x [i; h; d] = vec x i h d.
Proof. intros Hx. unfold at_, vec, dim. rewrite Hx. simpl. f_equal. lia. Qed.

Lemma tolist3_row {B} (F : list spec_float -> list B) x n H D i h j : shape x = [n; H; D] -> 0 <= i < n -> 0 <= h < H ->
  get3 (map (map F) (tolist3 x)) i h j = F (map (vec x i h) (seqZ 0 D)) !! Z.to_nat j.
Proof.
  intros Hx Hi Hh. unfold get3, tolist3. unfold dim at 1 2 3. rewrite Hx. cbn [lookup_total list_lookup_total].
  rewrite map_map, tabulate_get by done. rewrite map_map, tabulate_get by done.
  do 2 f_equal. apply tabulate_ext. intros d _. by apply (at_vec x n H D).
Qed.

(** What the reference [rd], [rm] prescribes for the rows of a launch. *)
Definition reference_written (W : Z) (x : tensor spec_float) (rows : list Z) (n H D : Z) (data data' : tensor Z)
    (meta meta' : tensor spec_float) (rd : list (list (list Z))) (rm : list (list (list (spec_float * spec_float)))) : Prop :=
  (forall i h, 0 <= i < n -> 0 <= h < H -> sole_writer n (tget rows) i -> fits_row x i h ->
     (forall j, 0 <= j < W -> get3 rd i h j = Some (at_ data' [tget rows i; h; j])) /\
     (forall g, 0 <= g < D / 32 -> exists mn, get3 rm i h g = Some (at_ meta' [tget rows i; h; g; 0], mn) /\
        zeq (at_ meta' [tget rows i; h; g; 1]) mn)) /\
  (forall r h, 0 <= h < H -> (forall i, 0 <= i < n -> tget rows i <> r) ->
     (forall j, 0 <= j < W -> at_ data' [r; h; j] = at_ data [r; h; j]) /\
     (forall g c, 0 <= g < D / 32 -> 0 <= c < 2 -> at_ meta' [r; h; g; c] = at_ meta [r; h; g; c])).

Lemma written_reference u x rows data meta n H D Q W bytes (pack : list Z -> list Z) data' meta' :
  shape x = [n; H; D] -> check_head_dim D 32 = Ok tt ->
  tail (shape data) = [H; W] -> tail (shape meta) = [H; D / 32; 2] ->
  (forall L, pack (map L (seqZ 0 D)) = map (bytes L) (seqZ 0 W)) ->
  tokens_written u x rows data meta n H D Q W bytes data' meta' ->
  reference_written W x rows n H D data data' meta meta'
    (map (map (fun v => pack (ref_levels u Q v))) (tolist3 x)) (map (map (ref_metas Q)) (tolist3 x)).
Proof.
  intros Hx HD Hsd Hsm Hpack (E1 & E2 & Hw & Hf).
  assert (Hd : forall (t : tensor Z) r h j, shape t = shape data -> at_ t [r; h; j] = elems t ((r * H + h) * W + j)).
  { intros t r h j Es. unfold at_. rewrite Es. destruct (shape data) as [|R sh]; [done|]. simpl in Hsd. subst sh. done. }
  assert (Hm : forall (t : tensor spec_float) r h g c, shape t = shape meta -> at_ t [r; h; g; c] = elems t ((r * H + h) * (D / 32 * 2) + (g * 2 + c))).
  { intros t r h g c Es. unfold at_. rewrite Es. destruct (shape meta) as [|R sh]; [done|]. simpl in Hsm. subst sh. simpl. f_equal. lia. }
  destruct (check_head_dim_ok D 32 HD) as [Hmod HD32]. split.
  - intros i h Hi Hh Hs Hfit. destruct (Hw i h Hi Hh Hs Hfit) as [Hb Hmt]. split.
    + intros j Hj. rewrite (tolist3_row (fun v => pack (ref_levels u Q v)) x n H D) by done.
      rewrite ref_levels_vec, Hpack, tabulate_get, Hd, Hb by (done || lia). done.
    + intros g Hg. destruct (Hmt g Hg) as [Hsc Hmn]. exists (ref_scale_min (group (vec x i h) g) Q).2.
      rewrite (tolist3_row (ref_metas Q) x n H D) by done.
      rewrite ref_metas_vec, tabulate_get, !Hm by (done || lia). rewrite Z.add_0_r. split; [|exact Hmn].
      rewrite Hsc. by rewrite <- surjective_pairing.
  - intros r h Hh Hr. destruct (Hf r h Hh Hr) as [Hb Hmt]. split.
    + intros j Hj. rewrite !Hd by done. by apply Hb.
    + intros g c Hg Hc. rewrite !Hm by done. apply Hmt. lia.
Qed.

(** [l[p][i][h][j]] *)
Definition get4 {A} (l : list (list (list (list A)))) (p i h j : Z) : option A :=
  match l !! Z.to_nat p with Some r => get3 r i h j | None => None end.

(** The key pages of a launch, [x[tok_rows]]: page, token of the page, head, channel. *)
Definition index_pages (x : tensor spec_float) (tok_rows : list (list Z)) : tensor spec_float :=
  let H := dim x 1 in
  let D := dim x 2 in
  {| shape := [zlen tok_rows; 32; H; D];
     elems := fun a => at_ x [tget (concat tok_rows) (a / (H * D)); a / D mod H; a mod D] |}.

(** Channel [d] of head [h] over the tokens of page [p]. *)
Definition page_chan (x : tensor spec_float) (p h d j : Z) : spec_float := at_ x [p; j; h; d].

Lemma index_pages_chan x n H D tok_rows p h d j : shape x = [n; H; D] -> 0 <= j < 32 -> 0 <= h < H -> 0 <= d < D ->
  page_chan (index_pages x tok_rows) p h d j = chan x (concat tok_rows) h d (p * 32 + j).
Proof.
  intros Hx Hj Hh Hd. unfold page_chan, index_pages, chan, at_, dim. rewrite Hx. simpl.
  set (t := p * 32 + j). assert (Ea : ((((0 * zlen tok_rows + p) * 32 + j) * H + h) * D + d) = (t * H + h) * D + d) by (unfold t; lia).
  rewrite Ea. f_equal.
  assert (E1 : ((t * H + h) * D + d) / D = t * H + h) by (symmetry; apply Z.div_unique with d; lia).
  assert (E2 : ((t * H + h) * D + d) / (H * D) = t) by (symmetry; apply Z.div_unique with (h * D + d); nia).
  assert (E3 : (t * H + h) mod H = h) by (symmetry; apply Z.mod_unique with t; lia).
  assert (E4 : ((t * H + h) * D + d) mod D = d) by (symmetry; apply Z.mod_unique with (t * H + h); lia).
  rewrite E2, E1, E3, E4. lia.
Qed.

(** A group that is listed elsewhere has the same levels. *)
Lemma ref_level_shift u Q v w g j : (forall i, 0 <= i < 32 -> v i = w (g * 32 + i)) -> 0 <= j < 32 ->
  ref_level u Q w (g * 32 + j) = ref_level u Q v j.
Proof.
  intros E Hj. unfold ref_level. rewrite <- E by done.
  replace ((g * 32 + j) / 32) with g by (apply Z.div_unique with j; lia). rewrite (Z.div_small j 32) by lia.
  replace (group w g) with (group v 0); [done|]. apply tabulate_ext. intros i Hi. by rewrite <- E.
Qed.

(** What the reference [rd], [rm] prescribes for the pages of a launch. *)
Definition reference_pages (x_pages : tensor spec_float) (pages : list Z) (H D : Z) (data data' : tensor Z)
    (meta meta' : tensor spec_float) (rd : list (list (list (list Z)))) (rm : list (list (list (spec_float * spec_float)))) : Prop :=
  (forall p h, 0 <= p < zlen pages -> 0 <= h < H -> sole_writer (zlen pages) (tget pages) p ->
     (forall d j, 0 <= d < D -> 0 <= j < 32 -> is_finite (f16_of (f32_of (at_ x_pages [p; j; h; d]))) = true) ->
     forall d, 0 <= d < D ->
       (forall b, 0 <= b < 8 -> get4 rd p h d b = Some (at_ data' [tget pages p; h; d; b])) /\
       (exists mn, get3 rm p h d = Some (at_ meta' [tget pages p; h; d; 0], mn) /\ zeq (at_ meta' [tget pages p; h; d; 1]) mn)) /\
  (forall r h d, 0 <= h < H -> 0 <= d < D -> (forall p, 0 <= p < zlen pages -> tget pages p <> r) ->
     (forall b, 0 <= b < 8 -> at_ data' [r; h; d; b] = at_ data [r; h; d; b]) /\
     (forall c, 0 <= c < 2 -> at_ meta' [r; h; d; c] = at_ meta [r; h; d; c])).

(** Page [p], head [h], channel [d] of the reference. *)
Lemma permute_pages_chan {B} (F : list spec_float -> B) x_pages np H D p h d :
  shape x_pages = [np; 32; H; D] -> 0 <= p < np -> 0 <= h < H -> 0 <= d < D ->
  get3 (map (map (map F)) (permute_pages x_pages)) p h d = Some (F (map (page_chan x_pages p h d) (seqZ 0 32))).
Proof.
  intros Hx Hp Hh Hd. unfold get3, permute_pages, dim. rewrite Hx. simpl.
  rewrite map_map, tabulate_get by done. rewrite map_map, tabulate_get by done. rewrite map_map, tabulate_get by done. done.
Qed.

Lemma get4_get3 {A} (l : list (list (list (list A)))) p h d b v : get3 l p h d = Some v -> get4 l p h d b = v !! Z.to_nat b.
Proof.
  unfold get4, get3. destruct (l !! Z.to_nat p) as [r|]; [|done]. destruct (r !! Z.to_nat h) as [q|]; [|done]. by intros ->.
Qed.

Lemma written_reference_pages u x tok_rows pages data meta n H D data' meta' :
  shape x = [n; H; D] -> 0 < zlen pages -> zlen tok_rows = zlen pages ->
  tail (shape data) = [H; D; 8] -> tail (shape meta) = [H; D; 2] ->
  pages_written u x tok_rows pages data meta H D data' meta' ->
  exists rd rm, ref_quant_int2_k_pages u (index_pages x tok_rows) = Ok (rd, rm) /\
    reference_pages (index_pages x tok_rows) pages H D data data' meta meta' rd rm.
Proof.
  intros Hx Hp Htok Hsd Hsm (E1 & E2 & Hw & Hf). eexists _, _. split; [reflexivity|].
  assert (Hsx : shape (index_pages x tok_rows) = [zlen tok_rows; 32; H; D]) by (unfold index_pages, dim; by rewrite Hx).
  assert (Hd : forall (t : tensor Z) r h d b, shape t = shape data -> at_ t [r; h; d; b] = elems t ((r * H + h) * (D * 8) + (d * 8 + b))).
  { intros t r h d b Es. unfold at_. rewrite Es. destruct (shape data) as [|R sh]; [done|]. simpl in Hsd. subst sh. simpl. f_equal. lia. }
  assert (Hm : forall (t : tensor spec_float) r h d c, shape t = shape meta -> at_ t [r; h; d; c] = elems t ((r * H + h) * (D * 2) + (d * 2 + c))).
  { intros t r h d c Es. unfold at_. rewrite Es. destruct (shape meta) as [|R sh]; [done|]. simpl in Hsm. subst sh. simpl. f_equal. lia. }
  split.
  - intros p h Hpr Hh Hs Hfin.
    assert (Hch : forall d j, 0 <= d < D -> 0 <= j < 32 ->
      page_chan (index_pages x tok_rows) p h d j = chan x (concat tok_rows) h d (p * 32 + j)).
    { intros d j Hd' Hj. by apply (index_pages_chan x n H D). }
    destruct (Hw p h Hpr Hh Hs) as [Hb Hmt].
    { intros d Hd' j Hj. rewrite <- Hch by done. by apply Hfin. }
    intros d Hd'. set (v := page_chan (index_pages x tok_rows) p h d). split.
    + intros b Hb'. erewrite get4_get3 by (apply (permute_pages_chan _ _ (zlen tok_rows) H D); (done || lia)). fold v.
      rewrite ref_levels_vec, (pack2_tabulate _ 8), tabulate_get, Hd, Hb by (done || lia).
      replace ((d * 8 + b) / 8) with d by (apply Z.div_unique with b; lia).
      replace ((d * 8 + b) mod 8) with b by (apply Z.mod_unique with d; lia). unfold byte2.
      assert (Hl : forall c, 0 <= c < 4 -> ref_level u 3 (chan x (concat tok_rows) h d) ((p * 8 + b) * 4 + c) = ref_level u 3 v (b * 4 + c)).
      { intros c Hc. replace ((p * 8 + b) * 4 + c) with (p * 32 + (b * 4 + c)) by lia. apply ref_level_shift; [|lia].
        intros i Hi. by apply Hch. }
      rewrite <- !Hl by lia. pose proof (Hl 0 ltac:(lia)) as H0. rewrite !Z.add_0_r in H0. by rewrite H0.
    + destruct (Hmt d Hd') as [Hsc Hmn]. exists (ref_scale_min (group v 0) 3).2.
      assert (Eg : group (chan x (concat tok_rows) h d) p = group v 0) by (apply tabulate_ext; intros j Hj; f_equal; symmetry; by apply Hch).
      rewrite Eg in *. rewrite (permute_pages_chan (fun v => ref_scale_min (map f32_of v) 3) _ (zlen tok_rows) H D) by (done || lia). fold v.
      rewrite !Hm by done. rewrite Z.add_0_r. split; [|exact Hmn]. rewrite Hsc, map_map. by rewrite <- surjective_pairing.
  - intros r h d Hh Hd' Hr. destruct (Hf r h Hh Hr) as [Hb Hmt]. split.
    + intros b Hb'. rewrite !Hd by done. apply Hb. lia.
    + intros c Hc. rewrite !Hm by done. apply Hmt. lia.
Qed.

(** C6: Whatever the order of its programs, each of the three Triton kernels
    that quantise leaves in the cache what the torch reference computes. For a
    batch of tokens, at 4 bits or for the 2-bit values, the row of each token
    holds the bytes and scales of [ref_quant_int4_tokens] or
    [ref_quant_int2_v_tokens]; for the 2-bit keys, each listed page holds, for
    every head and channel, the bytes and the scale of
    [ref_quant_int2_k_pages] at the 32 tokens [x[tok_rows]] of the page. The
    minima agree up to the sign of a zero. This is for vectors that are finite
    in fp16 and rows or pages listed once; rows and pages that are not listed
    keep their contents. *)
Theorem quant_kernels_are_reference u x n H D : shape x = [n; H; D] -> check_head_dim D 32 = Ok tt ->
  (forall (int4 : bool) order rows data meta,
     let W := if int4 then D / 2 else D / 4 in
     0 < n -> order ≡ₚ grid2 n H -> tail (shape data) = [H; W] -> tail (shape meta) = [H; D / 32; 2] ->
     exists data' meta',
       (if int4 then quant_int4_tokens order x rows data meta else quant_int2_v_tokens order x rows data meta) = Ok (data', meta') /\
       let '(rd, rm) := if int4 then ref_quant_int4_tokens u (tolist3 x) else ref_quant_int2_v_tokens u (tolist3 x) in
       reference_written W x rows n H D data data' meta meta' rd rm) /\
  (forall order tok_rows pages data meta,
     0 < zlen pages -> order ≡ₚ grid2 (zlen pages) H -> zlen tok_rows = zlen pages ->
     Forall (fun r => zlen r = 32 /\ Forall (fun t => 0 <= t < n) r) tok_rows ->
     tail (shape data) = [H; D; 8] -> tail (shape meta) = [H; D; 2] ->
     exists data' meta' rd rm,
       quant_int2_k_pages order x tok_rows pages data meta = Ok (data', meta') /\
       ref_quant_int2_k_pages u (index_pages x tok_rows) = Ok (rd, rm) /\
       reference_pages (index_pages x tok_rows) pages H D data data' meta meta' rd rm).
Proof.
  intros Hx HD. destruct (check_head_dim_ok D 32 HD) as [Hmod HD32]. split.
  - intros [] order rows data meta W Hn Ho Hsd Hsm; subst W.
    + destruct (int4_tokens_written u order x rows data meta n H D Hx Hn HD Ho Hsm Hsd) as (d' & m' & E & Hw).
      exists d', m'. split; [exact E|]. cbn [ref_quant_int4_tokens].
      apply (written_reference u x rows data meta n H D 15 (D / 2) byte4 (fun l => map pack4_row (reshape 2 l))); try done.
      intros L. replace D with (D / 2 * 2) at 1 by dlia. apply pack4_tabulate. dlia.
    + destruct (int2_v_tokens_written u order x rows data meta n H D Hx Hn HD Ho Hsm Hsd) as (d' & m' & E & Hw).
      exists d', m'. split; [exact E|]. cbn [ref_quant_int2_v_tokens].
      apply (written_reference u x rows data meta n H D 3 (D / 4) byte2 (fun l => map pack2_row (reshape 4 l))); try done.
      intros L. replace D with (D / 4 * 4) at 1 by dlia. apply pack2_tabulate. dlia.
  - intros order tok_rows pages data meta Hp Ho Htok Hrows Hsd Hsm.
    destruct (int2_k_pages_written u order x tok_rows pages data meta n H D Hx Hp HD Ho Htok) as (d' & m' & E & Hw); [|done..|].
    { eapply Forall_impl; [|exact Hrows]. by intros r []. }
    destruct (written_reference_pages u x tok_rows pages data meta n H D d' m' Hx Hp Htok Hsd Hsm Hw) as (rd & rm & Er & Hr).
    by exists d', m', rd, rm.
Qed.

(** Two tokens of one head and 32 channels, written to rows 3 and 1; and one
    key page of the first token 31 times and the second once, written to page 2. *)
Definition sample_x : tensor spec_float :=
  {| shape := [2; 1; 32]; elems := fun a => cast_to BF16 (f32_div (f32_of_Z (a * a - 40 * a)) (f32_of_Z 7)) |}.
Definition sample_order : list (Z * Z) := [(1, 0); (0, 0)].
Definition sample_data : tensor Z := {| shape := [4; 1; 16]; elems := fun _ => 0 |}.
Definition sample_meta : tensor spec_float := {| shape := [4; 1; 1; 2]; elems := fun _ => f_zero |}.
Definition sample_toks : list (list Z) := [replicate 31 0 ++ [1]].
Definition sample_k_data : tensor Z := {| shape := [4; 1; 32; 8]; elems := fun _ => 0 |}.
Definition sample_k_meta : tensor spec_float := {| shape := [4; 1; 32; 2]; elems := fun _ => f_zero |}.

Lemma forallb_seqZ (f : Z -> bool) n i : forallb f (seqZ 0 n) = true -> 0 <= i < n -> f i = true.
Proof. intros Hf Hi. rewrite forallb_forall in Hf. apply Hf, list_elem_of_In, elem_of_seqZ. lia. Qed.

Lemma quant_kernels_are_reference_witness :
  (exists data' meta', quant_int4_tokens sample_order sample_x [3; 1] sample_data sample_meta = Ok (data', meta') /\
     get3 (ref_quant_int4_tokens 0 (tolist3 sample_x)).1 0 0 5 = Some (at_ data' [3; 0; 5])) /\
  (exists data' meta' rd rm, quant_int2_k_pages [(0, 0)] sample_x sample_toks [2] sample_k_data sample_k_meta = Ok (data', meta') /\
     ref_quant_int2_k_pages 0 (index_pages sample_x sample_toks) = Ok (rd, rm) /\
     get4 rd 0 0 9 7 = Some (at_ data' [2; 0; 9; 7])).
Proof.
  destruct (quant_kernels_are_reference 0 sample_x 2 1 32) as [Ht Hp]; [reflexivity..|]. split.
  - destruct (Ht true sample_order [3; 1] sample_data sample_meta) as (d' & m' & E & [Hw _]);
      [lia|apply Permutation_swap|reflexivity|reflexivity|].
    exists d', m'. split; [exact E|]. destruct (Hw 0 0) as [Hb _]; [lia|lia| | |].
    + intros i' Hi' E'. assert (i' = 0 \/ i' = 1) as [-> | ->] by lia; [done|by vm_compute in E'].
    + intros d Hd. apply (forallb_seqZ (fun d => is_finite (f16_of (f32_of (vec sample_x 0 0 d)))) 32); [vm_compute; reflexivity|exact Hd].
    + apply (Hb 5). vm_compute. by split.
  - destruct (Hp [(0, 0)] sample_toks [2] sample_k_data sample_k_meta) as (d' & m' & rd & rm & E & Er & [Hw _]);
      [vm_compute; reflexivity|reflexivity|reflexivity| |reflexivity|reflexivity|].
    { constructor; [|constructor]. split; [reflexivity|]. apply Forall_app. split; [apply Forall_replicate; lia|].
      constructor; [lia|constructor]. }
    exists d', m', rd, rm. split; [exact E|]. split; [exact Er|].
    destruct (Hw 0 0) with (d := 9) as [Hb _]; [vm_compute; by split|lia| | |lia|].
    + intros p Hpr _. change (zlen [2]) with 1 in Hpr. lia.
    + intros d j Hd Hj.
      apply (forallb_seqZ (fun j => is_finite (f16_of (f32_of (at_ (index_pages sample_x sample_toks) [0; j; 0; d])))) 32); [|exact Hj].
      apply (forallb_seqZ (fun d => forallb (fun j => is_finite (f16_of (f32_of (at_ (index_pages sample_x sample_toks) [0; j; 0; d])))) (seqZ 0 32)) 32);
        [vm_compute; reflexivity|exact Hd].
    + apply (Hb 7). lia.
Defined.
