(* ===== verification/DequantKernels.v ===== *)
(** * Dequantising kernels of the mixed INT2 / INT4 cache

    The read side of [layers/attention/triton_ops/triaxial_kv.py]: the tile
    loaders shared by the gather and the decode kernel, [dequant_gather], and
    the torch reference [ref_dequant_gather].  A tile is given lane by lane;
    lane [b] of the channel axis carries the four channels [4b .. 4b + 3]. *)

From S2P Require Import Prelude Floats DeviceFloats DeviceMemory QuantKernels Triton.

Definition tile4 : Type := spec_float * spec_float * spec_float * spec_float.

Definition sub_tile (t : tile4) (c : Z) : spec_float :=
  let '(t0, t1, t2, t3) := t in if c =? 0 then t0 else if c =? 1 then t1 else if c =? 2 then t2 else t3.

(** [tl.load(ptr, mask=mask, other=other)] for one lane. *)
Definition load_masked {A} (m : mem A) (mask : bool) (other : A) (a : Z) : A := if mask then m a else other.

(** [(q).to(tl.float32) * sc + mn] with fp32 [sc], [mn]. *)
Definition dequant32 (q : Z) (sc mn : spec_float) : spec_float := f32_add (f32_mul (f32_of_Z q) sc) mn.

(** [tl.max] and [tl.min] of integers. *)
Definition zmax (l : list Z) : Z := match l with [] => 0 | x :: xs => foldl Z.max x xs end.
Definition zmin (l : list Z) : Z := match l with [] => 0 | x :: xs => foldl Z.min x xs end.

(** ** Tile loaders *)

Section tiles.
Context (D NG H cur_kv_head : Z).

(** [_expand_rows] and [_expand_cols] with 8 repetitions: lane [b] takes group [b // 8]. *)
Definition expand (m : Z -> spec_float) (b : Z) : spec_float := m (b / 8).

Definition k4_tiles (K4D : mem Z) (K4M : mem spec_float) (offset loc : Z) (mask : bool) (b : Z) : tile4 :=
  let row := (loc - offset) * H + cur_kv_head in
  let base := row * (D / 2) + 2 * b in
  let B0 := load_masked K4D mask 0 base in
  let B1 := load_masked K4D mask 0 (base + 1) in
  let moff g := (row * NG + g) * 2 in
  let sc := expand (fun g => f32_of (load_masked K4M mask f_zero (moff g))) b in
  let mn := expand (fun g => f32_of (load_masked K4M mask f_zero (moff g + 1))) b in
  (dequant32 (Z.land B0 15) sc mn, dequant32 (Z.land (Z.shiftr B0 4) 15) sc mn,
   dequant32 (Z.land B1 15) sc mn, dequant32 (Z.land (Z.shiftr B1 4) 15) sc mn).

Definition v4_tiles (V4D : mem Z) (V4M : mem spec_float) (offset loc : Z) (mask : bool) (b : Z) : tile4 :=
  let row := (loc - offset) * H + cur_kv_head in
  let base := row * (D / 2) + 2 * b in
  let B0 := load_masked V4D mask 0 base in
  let B1 := load_masked V4D mask 0 (base + 1) in
  let moff g := (row * NG + g) * 2 in
  let sc := expand (fun g => f32_of (load_masked V4M mask f_zero (moff g))) b in
  let mn := expand (fun g => f32_of (load_masked V4M mask f_zero (moff g + 1))) b in
  (dequant32 (Z.land B0 15) sc mn, dequant32 (Z.land (Z.shiftr B0 4) 15) sc mn,
   dequant32 (Z.land B1 15) sc mn, dequant32 (Z.land (Z.shiftr B1 4) 15) sc mn).

Definition v2_tiles (V2D : mem Z) (V2M : mem spec_float) (loc : Z) (mask : bool) (b : Z) : tile4 :=
  let row := loc * H + cur_kv_head in
  let B := load_masked V2D mask 0 (row * (D / 4) + b) in
  let moff g := (row * NG + g) * 2 in
  let sc := expand (fun g => f32_of (load_masked V2M mask f_zero (moff g))) b in
  let mn := expand (fun g => f32_of (load_masked V2M mask f_zero (moff g + 1))) b in
  (dequant32 (Z.land B 3) sc mn, dequant32 (Z.land (Z.shiftr B 2) 3) sc mn,
   dequant32 (Z.land (Z.shiftr B 4) 3) sc mn, dequant32 (Z.land (Z.shiftr B 6) 3) sc mn).

(** The lanes of a block are [loc n], [mask n] for [n] in [0, BLOCK_N).  Entry
    [k] of the metadata of channels [4b .. 4b + 3] for lane [n]: that of at most
    two pages is loaded once, else per element. *)
Definition k2_lane_meta (K2M : mem spec_float) (BLOCK_N : Z) (loc : Z -> Z) (mask : Z -> bool) (n b k : Z) : spec_float :=
  let lanes := seqZ 0 BLOCK_N in
  let page n := loc n / 32 in
  let pbase := (page n * H + cur_kv_head) * D in
  let p_hi := zmax (map (fun n => if mask n then page n else 0) lanes) in
  let p_lo := zmin (map (fun n => if mask n then page n else p_hi) lanes) in
  let on_two n := if mask n then (if (page n =? p_lo) || (page n =? p_hi) then 1 else 0) else 1 in
  if zmin (map on_two lanes) =? 1 then
    let cb_lo := ((p_lo * H + cur_kv_head) * D + 4 * b) * 2 in
    let cb_hi := ((p_hi * H + cur_kv_head) * D + 4 * b) * 2 in
    if page n =? p_lo then f32_of (K2M (cb_lo + k)) else f32_of (K2M (cb_hi + k))
  else f32_of (load_masked K2M (mask n) f_zero (pbase * 2 + 8 * b + k)).

Definition k2_tiles (K2D : mem Z) (K2M : mem spec_float) (BLOCK_N : Z) (loc : Z -> Z) (mask : Z -> bool) (n b : Z) : tile4 :=
  let page := loc n / 32 in
  let j := loc n mod 32 in
  let pbase := (page * H + cur_kv_head) * D in
  let bptr := pbase * 8 + j / 4 + 32 * b in
  let shift := 2 * (j mod 4) in
  let q c := Z.land (Z.shiftr (load_masked K2D (mask n) 0 (bptr + 8 * c)) shift) 3 in
  let meta := k2_lane_meta K2M BLOCK_N loc mask n b in
  (dequant32 (q 0) (meta 0) (meta 1), dequant32 (q 1) (meta 2) (meta 3),
   dequant32 (q 2) (meta 4) (meta 5), dequant32 (q 3) (meta 6) (meta 7)).
End tiles.

(** ** dequant_gather *)

Section gather.
Context (t : dtype) (kv : TriaxialLayerKV) (H D NG : Z).

(** The writes of program [(pid, h)] to [OutK] and to [OutV]. *)
Definition dequant_gather_kernel (Slots : list Z) (m BLOCK_N stride_on stride_oh : Z) (prog : Z * Z)
  : list (Z * spec_float) * list (Z * spec_float) :=
  let (pid, h) := prog in
  let offset := kv_offset kv in
  let offs_n n := pid * BLOCK_N + n in
  let mask_n n := offs_n n <? m in
  let loc n := if mask_n n then tget Slots (offs_n n) else 0 in
  let is2 n := loc n <? offset in
  let mask2 n := mask_n n && is2 n in
  let mask4 n := mask_n n && negb (is2 n) in
  let k n b := if is2 n
    then k2_tiles D H h (elems (k2_data kv)) (elems (k2_meta kv)) BLOCK_N loc mask2 n b
    else k4_tiles D NG H h (elems (k4_data kv)) (elems (k4_meta kv)) offset (loc n) (mask4 n) b in
  let v n b := if is2 n
    then v2_tiles D NG H h (elems (v2_data kv)) (elems (v2_meta kv)) (loc n) (mask2 n) b
    else v4_tiles D NG H h (elems (v4_data kv)) (elems (v4_meta kv)) offset (loc n) (mask4 n) b in
  let store tile c := flat_map (fun n => if mask_n n
      then map (fun b => (offs_n n * stride_on + h * stride_oh + 4 * b + c, cast_to t (sub_tile (tile n b) c))) (seqZ 0 (D / 4))
      else []) (seqZ 0 BLOCK_N) in
  (flat_map (store k) (seqZ 0 4), flat_map (store v) (seqZ 0 4)).
End gather.

(** [out_k], [out_v] have the element type [t] and are contiguous. *)
Definition dequant_gather (order : list (Z * Z)) (t : dtype) (slots : list Z) (kv : TriaxialLayerKV)
    (out_k out_v : tensor spec_float) : result (tensor spec_float * tensor spec_float) :=
  let m := zlen slots in
  if m =? 0 then Ok (out_k, out_v)
  else
    let H := num_kv_heads kv in
    let D := head_dim kv in
    let! _ := check_head_dim D 64 in
    let! _ := rassert (bool_decide (shape out_k = [m; H; D]) && bool_decide (shape out_v = [m; H; D])) in
    let prog := dequant_gather_kernel t kv H D (D / G) slots m 32 (H * D) D in
    Ok (with_elems out_k (foldl (fun mm p => apply_writes mm (prog p).1) (elems out_k) order),
        with_elems out_v (foldl (fun mm p => apply_writes mm (prog p).2) (elems out_v) order)).

(** ** Reference *)

(** The bytes and the [scale, min] pairs of one row and head of a per-token tensor. *)
Definition row_bytes (data : tensor Z) (r h : Z) : list Z := map (fun j => at_ data [r; h; j]) (seqZ 0 (dim data 2)).
Definition row_metas (meta : tensor spec_float) (r h : Z) : list (spec_float * spec_float) :=
  map (fun g => (at_ meta [r; h; g; 0], at_ meta [r; h; g; 1])) (seqZ 0 (dim meta 2)).

Definition ref_gather_k (kv : TriaxialLayerKV) (s h : Z) : list spec_float :=
  if s <? kv_offset kv then
    let page := s / G in
    let j := s mod G in
    map (fun d =>
        let byte := at_ (k2_data kv) [page; h; d; j / 4] in
        let q := Z.land (Z.shiftr byte (2 * (j mod 4))) 3 in
        dequant q (at_ (k2_meta kv) [page; h; d; 0]) (at_ (k2_meta kv) [page; h; d; 1]))
      (seqZ 0 (head_dim kv))
  else let r := s - kv_offset kv in ref_dequant_row 4 (row_bytes (k4_data kv) r h) (row_metas (k4_meta kv) r h).

Definition ref_gather_v (kv : TriaxialLayerKV) (s h : Z) : list spec_float :=
  if s <? kv_offset kv then ref_dequant_row 2 (row_bytes (v2_data kv) s h) (row_metas (v2_meta kv) s h)
  else let r := s - kv_offset kv in ref_dequant_row 4 (row_bytes (v4_data kv) r h) (row_metas (v4_meta kv) r h).

Definition ref_dequant_gather (slots : list Z) (kv : TriaxialLayerKV)
  : list (list (list spec_float)) * list (list (list spec_float)) :=
  let hs := seqZ 0 (num_kv_heads kv) in
  (map (fun s => map (ref_gather_k kv s) hs) slots, map (fun s => map (ref_gather_v kv s) hs) slots).
