(* ===== verification/DequantProps.v ===== *)
(** * What the dequantising kernels read

    The value stored for a slot, head and channel in each of the four layouts;
    the tile loaders and the torch reference both compute it. *)

From S2P Require Import Prelude Tensors Floats DeviceFloats DeviceMemory QuantKernels Triton DequantKernels QuantTheory QuantProps.

(** ** Fields of a byte *)

Definition nib (B c : Z) : Z := Z.land (Z.shiftr B (4 * c)) 15.
Definition crumb (B c : Z) : Z := Z.land (Z.shiftr B (2 * c)) 3.

(** ** Stored values *)

Section stored.
Context (H D NG : Z).

Definition stored4 (data : mem Z) (meta : mem spec_float) (r h d : Z) : spec_float :=
  dequant (nib (data ((r * H + h) * (D / 2) + d / 2)) (d mod 2))
    (meta (((r * H + h) * NG + d / 32) * 2)) (meta (((r * H + h) * NG + d / 32) * 2 + 1)).

Definition stored2v (data : mem Z) (meta : mem spec_float) (r h d : Z) : spec_float :=
  dequant (crumb (data ((r * H + h) * (D / 4) + d / 4)) (d mod 4))
    (meta (((r * H + h) * NG + d / 32) * 2)) (meta (((r * H + h) * NG + d / 32) * 2 + 1)).

Definition stored2k (data : mem Z) (meta : mem spec_float) (s h d : Z) : spec_float :=
  dequant (crumb (data (((s / 32 * H + h) * D + d) * 8 + s mod 32 / 4)) (s mod 32 mod 4))
    (meta (((s / 32 * H + h) * D + d) * 2)) (meta (((s / 32 * H + h) * D + d) * 2 + 1)).
End stored.

(** The key and the value of slot [s]. *)
Definition slot_k (kv : TriaxialLayerKV) (s h d : Z) : spec_float :=
  let H := num_kv_heads kv in let D := head_dim kv in
  if s <? kv_offset kv then stored2k H D (elems (k2_data kv)) (elems (k2_meta kv)) s h d
  else stored4 H D (D / 32) (elems (k4_data kv)) (elems (k4_meta kv)) (s - kv_offset kv) h d.

Definition slot_v (kv : TriaxialLayerKV) (s h d : Z) : spec_float :=
  let H := num_kv_heads kv in let D := head_dim kv in
  if s <? kv_offset kv then stored2v H D (D / 32) (elems (v2_data kv)) (elems (v2_meta kv)) s h d
  else stored4 H D (D / 32) (elems (v4_data kv)) (elems (v4_meta kv)) (s - kv_offset kv) h d.

(** ** Tiles *)

Ltac by_residue c := assert (c = 0 \/ c = 1 \/ c = 2 \/ c = 3) as [-> |[-> |[-> | ->]]] by lia; cbn [sub_tile Z.eqb Pos.eqb].

Section tiles.
Context (D NG H h : Z).

Lemma div_mod_4 b c : 0 <= c < 4 -> (4 * b + c) / 4 = b /\ (4 * b + c) mod 4 = c /\ (4 * b + c) / 32 = b / 8 /\
  (4 * b + c) / 2 = 2 * b + c / 2 /\ (4 * b + c) mod 2 = c mod 2.
Proof. intros Hc. repeat split; dlia. Qed.

Lemma k4_tile_stored K4D K4M offset loc b c : 0 <= c < 4 ->
  sub_tile (k4_tiles D NG H h K4D K4M offset loc true b) c = stored4 H D NG K4D K4M (loc - offset) h (4 * b + c).
Proof.
  intros Hc. unfold k4_tiles, stored4, load_masked, expand. destruct (div_mod_4 b c Hc) as (_ & _ & -> & -> & ->).
  by_residue c; unfold nib; cbn [Z.mul Z.div Z.modulo Z.div_eucl]; rewrite ?Z.add_0_r, ?Z.shiftr_0_r, ?Z.add_assoc; reflexivity.
Qed.

Lemma v4_tile_stored V4D V4M offset loc b c : 0 <= c < 4 ->
  sub_tile (v4_tiles D NG H h V4D V4M offset loc true b) c = stored4 H D NG V4D V4M (loc - offset) h (4 * b + c).
Proof. apply k4_tile_stored. Qed.

Lemma v2_tile_stored V2D V2M loc b c : 0 <= c < 4 ->
  sub_tile (v2_tiles D NG H h V2D V2M loc true b) c = stored2v H D NG V2D V2M loc h (4 * b + c).
Proof.
  intros Hc. unfold v2_tiles, stored2v, load_masked, expand. destruct (div_mod_4 b c Hc) as (-> & -> & -> & _).
  by_residue c; unfold crumb; rewrite ?Z.shiftr_0_r; reflexivity.
Qed.

Lemma zmax_ge x l : x ∈ l -> x <= zmax l.
Proof.
  destruct l as [|y l]; [set_solver|]. intros Hx. unfold zmax.
  assert (Hf : forall a, a <= foldl Z.max a l /\ forall z, z ∈ l -> z <= foldl Z.max a l).
  { clear Hx. induction l as [|w l IH]; intros a; simpl; [split; [lia|set_solver]|].
    destruct (IH (Z.max a w)) as [H1 H2]. split; [lia|]. intros z [-> |Hz]%elem_of_cons; [lia|]. by apply H2. }
  destruct (Hf y) as [H1 H2]. apply elem_of_cons in Hx as [-> |Hx]; auto.
Qed.

Lemma zmin_le x l : x ∈ l -> zmin l <= x.
Proof.
  destruct l as [|y l]; [set_solver|]. simpl. intros Hx.
  assert (Hf : forall a, foldl Z.min a l <= a /\ forall z, z ∈ l -> foldl Z.min a l <= z).
  { clear. induction l as [|w l IH]; intros a; simpl; [split; [lia|set_solver]|].
    destruct (IH (Z.min a w)) as [H1 H2]. split; [lia|]. intros z [-> |Hz]%elem_of_cons; [lia|]. by apply H2. }
  destruct (Hf y) as [H1 H2]. apply elem_of_cons in Hx as [-> |Hx]; auto.
Qed.

(** Both ways of loading the metadata give that of the page of the lane. *)
Lemma k2_lane_meta_page K2M B loc mask n b k : 0 <= n < B -> mask n = true ->
  k2_lane_meta D H h K2M B loc mask n b k = f32_of (K2M ((loc n / 32 * H + h) * D * 2 + 8 * b + k)).
Proof.
  intros Hn Hm. unfold k2_lane_meta. cbv zeta. set (p_hi := zmax _).
  set (p_lo := zmin (map (fun n => if mask n then loc n / 32 else p_hi) _)).
  destruct (Z.eqb_spec (zmin (map (fun n => if mask n then if (loc n / 32 =? p_lo) || (loc n / 32 =? p_hi) then 1 else 0 else 1)
    (seqZ 0 B))) 1) as [E|E]; [|unfold load_masked; by rewrite Hm].
  assert (Hp : loc n / 32 = p_lo \/ loc n / 32 = p_hi).
  { match type of E with zmin (map ?f _) = 1 => pose proof (zmin_le (f n) (map f (seqZ 0 B))) as Hz end.
    rewrite E in Hz. cbv beta in Hz. rewrite Hm in Hz.
    destruct (Z.eqb_spec (loc n / 32) p_lo), (Z.eqb_spec (loc n / 32) p_hi); auto. simpl in Hz.
    exfalso. enough (1 <= 0) by lia. apply Hz, elem_of_lmap. exists n. split; [apply elem_of_seqZ; lia|].
    rewrite Hm. destruct (Z.eqb_spec (loc n / 32) p_lo), (Z.eqb_spec (loc n / 32) p_hi); done. }
  destruct (Z.eqb_spec (loc n / 32) p_lo) as [E'|E']; [|destruct Hp as [?|Hp]; [done|]].
  - rewrite <- E'. do 2 f_equal. lia.
  - rewrite <- Hp. do 2 f_equal. lia.
Qed.

Lemma k2_tile_stored K2D K2M B loc mask n b c : 0 <= n < B -> mask n = true -> 0 <= c < 4 ->
  sub_tile (k2_tiles D H h K2D K2M B loc mask n b) c = stored2k H D K2D K2M (loc n) h (4 * b + c).
Proof.
  intros Hn Hm Hc. unfold k2_tiles, stored2k. rewrite !k2_lane_meta_page by done. unfold load_masked. rewrite Hm.
  assert (Ha : forall c', (loc n / 32 * H + h) * D * 8 + loc n mod 32 / 4 + 32 * b + 8 * c' =
                          ((loc n / 32 * H + h) * D + (4 * b + c')) * 8 + loc n mod 32 / 4) by lia.
  assert (Hk : forall c' k, (loc n / 32 * H + h) * D * 2 + 8 * b + (2 * c' + k) = ((loc n / 32 * H + h) * D + (4 * b + c')) * 2 + k) by lia.
  pose proof (fun c' => eq_trans (Hk c' 0) (Z.add_0_r _)) as Hk0.
  rewrite !Ha. by_residue c; unfold crumb, dequant.
  - rewrite <- (Hk 0 1), <- (Hk0 0). reflexivity.
  - rewrite <- (Hk 1 1), <- (Hk0 1). reflexivity.
  - rewrite <- (Hk 2 1), <- (Hk0 2). reflexivity.
  - rewrite <- (Hk 3 1), <- (Hk0 3). reflexivity.
Qed.
End tiles.

(** ** The reference reads the stored values *)

Lemma zip_tabulate {A B C} (f : A -> B -> C) (a : Z -> A) (b : Z -> B) n :
  zip_with f (map a (seqZ 0 n)) (map b (seqZ 0 n)) = map (fun i => f (a i) (b i)) (seqZ 0 n).
Proof. induction (seqZ 0 n) as [|i l IH]; [done|]. simpl. by rewrite IH. Qed.

Lemma unpack4_tabulate B w : 0 <= w ->
  ref_unpack_int4 (map B (seqZ 0 w)) = map (fun d => nib (B (d / 2)) (d mod 2)) (seqZ 0 (w * 2)).
Proof.
  intros Hw. unfold ref_unpack_int4. rewrite flat_map_concat_map, map_map.
  rewrite <- (concat_tabulate (fun j c => nib (B j) c)) by lia. apply (f_equal (@concat Z)), tabulate_ext.
  intros j _. unfold nib. simpl. by rewrite Z.shiftr_0_r.
Qed.

Lemma unpack2_tabulate B w : 0 <= w ->
  ref_unpack_int2 (map B (seqZ 0 w)) = map (fun d => crumb (B (d / 4)) (d mod 4)) (seqZ 0 (w * 4)).
Proof.
  intros Hw. unfold ref_unpack_int2. rewrite flat_map_concat_map, map_map.
  rewrite <- (concat_tabulate (fun j c => crumb (B j) c)) by lia. apply (f_equal (@concat Z)), tabulate_ext.
  intros j _. unfold crumb. simpl. by rewrite Z.shiftr_0_r.
Qed.

(** Levels [L] dequantised with one [scale, min] pair per 32 channels. *)
Lemma dequant_groups_tabulate (L : Z -> Z) (M : Z -> spec_float * spec_float) ng : 0 <= ng ->
  concat (zip_with (fun g '(sc, mn) => map (fun q => dequant q sc mn) g) (reshape 32 (map L (seqZ 0 (ng * 32)))) (map M (seqZ 0 ng))) =
  map (fun d => dequant (L d) (M (d / 32)).1 (M (d / 32)).2) (seqZ 0 (ng * 32)).
Proof.
  intros Hg. rewrite (reshape_tabulate 32), zip_tabulate by lia.
  transitivity (concat (map (fun g => map (fun j => dequant (L (g * 32 + j)) (M g).1 (M g).2) (seqZ 0 32)) (seqZ 0 ng))).
  - apply (f_equal (@concat _)), tabulate_ext. intros g _. destruct (M g) as [sc mn]. by rewrite map_map.
  - rewrite (concat_tabulate (fun g j => dequant (L (g * 32 + j)) (M g).1 (M g).2)) by lia. apply tabulate_ext. intros d Hd.
    by replace (d / 32 * 32 + d mod 32) with d by (pose proof (Z.div_mod d 32); lia).
Qed.

(** One row of the per-token layout. *)
Lemma dequant_row_tabulate (int4 : bool) B M D : 0 <= D -> D mod 32 = 0 ->
  ref_dequant_row (if int4 then 4 else 2) (map B (seqZ 0 (if int4 then D / 2 else D / 4))) (map M (seqZ 0 (D / 32))) =
  map (fun d => dequant (if int4 then nib (B (d / 2)) (d mod 2) else crumb (B (d / 4)) (d mod 4)) (M (d / 32)).1 (M (d / 32)).2) (seqZ 0 D).
Proof.
  intros H0 HD. unfold ref_dequant_row. destruct int4; cbn [Z.eqb Pos.eqb].
  - rewrite unpack4_tabulate by dlia. replace (D / 2 * 2) with (D / 32 * 32) by dlia.
    rewrite dequant_groups_tabulate by dlia. by replace (D / 32 * 32) with D by dlia.
  - rewrite unpack2_tabulate by dlia. replace (D / 4 * 4) with (D / 32 * 32) by dlia.
    rewrite dequant_groups_tabulate by dlia. by replace (D / 32 * 32) with D by dlia.
Qed.

(** The shapes of a layer with [H] heads of [D] channels. *)
Record kv_shaped (kv : TriaxialLayerKV) (H D : Z) : Prop := {
  sh_k2d : tail (shape (k2_data kv)) = [H; D; 8]; sh_k2m : tail (shape (k2_meta kv)) = [H; D; 2];
  sh_v2d : tail (shape (v2_data kv)) = [H; D / 4]; sh_v2m : tail (shape (v2_meta kv)) = [H; D / 32; 2];
  sh_k4d : tail (shape (k4_data kv)) = [H; D / 2]; sh_k4m : tail (shape (k4_meta kv)) = [H; D / 32; 2];
  sh_v4d : tail (shape (v4_data kv)) = [H; D / 2]; sh_v4m : tail (shape (v4_meta kv)) = [H; D / 32; 2];
  sh_dim : 0 <= D /\ D mod 32 = 0
}.

Lemma shaped_heads kv H D : kv_shaped kv H D -> num_kv_heads kv = H /\ head_dim kv = D.
Proof.
  intros Hs. pose proof (sh_k4d kv H D Hs) as E. pose proof (sh_dim kv H D Hs). unfold num_kv_heads, head_dim, dim.
  destruct (shape (k4_data kv)) as [|R sh]; [done|]. simpl in E. subst sh. simpl. split; [done|dlia].
Qed.

Lemma at_row3 {A} (t : tensor A) H W r h j : tail (shape t) = [H; W] -> at_ t [r; h; j] = elems t ((r * H + h) * W + j).
Proof. intros E. unfold at_. destruct (shape t) as [|R sh]; [done|]. simpl in E. by subst sh. Qed.

Lemma at_row4 {A} (t : tensor A) H W V r h j k : tail (shape t) = [H; W; V] ->
  at_ t [r; h; j; k] = elems t (((r * H + h) * W + j) * V + k).
Proof. intros E. unfold at_. destruct (shape t) as [|R sh]; [done|]. simpl in E. by subst sh. Qed.

Lemma row_bytes_tabulate t H W r h : tail (shape t) = [H; W] ->
  row_bytes t r h = map (fun j => elems t ((r * H + h) * W + j)) (seqZ 0 W).
Proof.
  intros E. unfold row_bytes. replace (dim t 2) with W by (unfold dim; destruct (shape t); [done|]; simpl in E; by subst).
  apply tabulate_ext. intros j _. by apply at_row3.
Qed.

Lemma row_metas_tabulate t H NG r h : tail (shape t) = [H; NG; 2] ->
  row_metas t r h = map (fun g => (elems t (((r * H + h) * NG + g) * 2), elems t (((r * H + h) * NG + g) * 2 + 1))) (seqZ 0 NG).
Proof.
  intros E. unfold row_metas. replace (dim t 2) with NG by (unfold dim; destruct (shape t); [done|]; simpl in E; by subst).
  apply tabulate_ext. intros j _. by rewrite !(at_row4 t H NG 2), Z.add_0_r.
Qed.

Lemma ref_gather_k_slot kv H D s h : kv_shaped kv H D -> ref_gather_k kv s h = map (slot_k kv s h) (seqZ 0 D).
Proof.
  intros Hs. destruct (shaped_heads kv H D Hs) as [EH ED]. unfold ref_gather_k, slot_k. rewrite EH, ED.
  destruct (s <? kv_offset kv).
  - apply tabulate_ext. intros d _. unfold stored2k, crumb, G.
    by rewrite (at_row4 _ H D 8), !(at_row4 _ H D 2), Z.add_0_r by apply Hs.
  - rewrite (row_bytes_tabulate _ H (D / 2)), (row_metas_tabulate _ H (D / 32)) by apply Hs.
    apply (dequant_row_tabulate true); apply (sh_dim kv H D Hs).
Qed.

Lemma ref_gather_v_slot kv H D s h : kv_shaped kv H D -> ref_gather_v kv s h = map (slot_v kv s h) (seqZ 0 D).
Proof.
  intros Hs. destruct (shaped_heads kv H D Hs) as [EH ED]. unfold ref_gather_v, slot_v. rewrite EH, ED.
  destruct (s <? kv_offset kv).
  - rewrite (row_bytes_tabulate _ H (D / 4)), (row_metas_tabulate _ H (D / 32)) by apply Hs.
    apply (dequant_row_tabulate false); apply (sh_dim kv H D Hs).
  - rewrite (row_bytes_tabulate _ H (D / 2)), (row_metas_tabulate _ H (D / 32)) by apply Hs.
    apply (dequant_row_tabulate true); apply (sh_dim kv H D Hs).
Qed.

(** ** dequant_gather *)

Section gather.
Context (t : dtype) (kv : TriaxialLayerKV) (H D : Z) (Hs : kv_shaped kv H D) (HD : 0 < D) (slots : list Z).
Notation m := (zlen slots).
Notation prog := (dequant_gather_kernel t kv H D (D / G) slots m 32 (H * D) D).

(** The lanes a program stores. *)
Lemma gather_store pid h (tile : Z -> Z -> tile4) a w :
  (a, w) ∈ flat_map (fun c => flat_map (fun n => if pid * 32 + n <? m
      then map (fun b => ((pid * 32 + n) * (H * D) + h * D + 4 * b + c, cast_to t (sub_tile (tile n b) c))) (seqZ 0 (D / 4)) else [])
      (seqZ 0 32)) (seqZ 0 4) <->
  exists n b c, 0 <= n < 32 /\ pid * 32 + n < m /\ 0 <= b < D / 4 /\ 0 <= c < 4 /\
    a = ((pid * 32 + n) * H + h) * D + (4 * b + c) /\ w = cast_to t (sub_tile (tile n b) c).
Proof.
  rewrite elem_of_flat_map. setoid_rewrite elem_of_flat_map. split.
  - intros (c & Hc%elem_of_seqZ & n & Hn%elem_of_seqZ & Hin). destruct (Z.ltb_spec (pid * 32 + n) m); [|set_solver].
    apply elem_of_tabulate in Hin as (b & Hb & [= -> ->]). exists n, b, c. repeat split; lia || done.
  - intros (n & b & c & Hn & Hm & Hb & Hc & -> & ->). exists c. split; [apply elem_of_seqZ; lia|].
    exists n. split; [apply elem_of_seqZ; lia|]. destruct (Z.ltb_spec (pid * 32 + n) m); [|lia].
    apply elem_of_tabulate. exists b. split; [lia|]. f_equal. lia.
Qed.

(** A launch of programs that store the channels of one value per lane. *)
Lemma gather_launch (ws : Z * Z -> list (Z * spec_float)) (val : Z -> Z -> Z -> spec_float) order (mm : mem spec_float) i h d :
  order ≡ₚ grid2 (tl_cdiv m 32) H ->
  (forall pid h a w, 0 <= h < H -> (a, w) ∈ ws (pid, h) <->
     exists n b c, 0 <= n < 32 /\ pid * 32 + n < m /\ 0 <= b < D / 4 /\ 0 <= c < 4 /\
       a = ((pid * 32 + n) * H + h) * D + (4 * b + c) /\ w = val (pid * 32 + n) h (4 * b + c)) ->
  0 <= i < m -> 0 <= h < H -> 0 <= d < D ->
  apply_writes mm (flat_map ws order) ((i * H + h) * D + d) = val i h d.
Proof using Hs HD.
  intros Ho Hws Hi Hh Hd. pose proof (sh_dim kv H D Hs) as [_ Hmod].
  assert (Hq : D / 4 * 4 = D) by dlia. apply (launch_cell ws mm order (grid2 (tl_cdiv m 32) H)); [done| |].
  - exists (i / 32, h). split.
    + apply elem_of_grid2. split; [|done]. unfold tl_cdiv. dlia.
    + apply Hws; [done|]. exists (i mod 32), (d / 4), (d mod 4).
      replace (i / 32 * 32 + i mod 32) with i by dlia. replace (4 * (d / 4) + d mod 4) with d by dlia. repeat split; dlia || done.
  - intros [pid h'] w [Hp Hh']%elem_of_grid2 (n & b & c & Hn & Hm & Hb & Hc & Ha & ->)%Hws; [|done].
    apply offset_inj in Ha as [Ha Hdd]; [|lia|lia]. apply offset_inj in Ha as [Ha ->]; [|lia|lia]. by rewrite <- Ha, Hdd.
Qed.

Lemma store_ext (ws : list (Z * spec_float)) pid h a w (tile : Z -> Z -> tile4) (val : Z -> Z -> Z -> spec_float) :
  (forall n b c, 0 <= n < 32 -> pid * 32 + n < m -> 0 <= c < 4 -> sub_tile (tile n b) c = val (pid * 32 + n) h (4 * b + c)) ->
  ((a, w) ∈ ws <-> exists n b c, 0 <= n < 32 /\ pid * 32 + n < m /\ 0 <= b < D / 4 /\ 0 <= c < 4 /\
    a = ((pid * 32 + n) * H + h) * D + (4 * b + c) /\ w = cast_to t (sub_tile (tile n b) c)) ->
  (a, w) ∈ ws <-> exists n b c, 0 <= n < 32 /\ pid * 32 + n < m /\ 0 <= b < D / 4 /\ 0 <= c < 4 /\
    a = ((pid * 32 + n) * H + h) * D + (4 * b + c) /\ w = cast_to t (val (pid * 32 + n) h (4 * b + c)).
Proof.
  intros Hv ->. split; intros (n & b & c & Hn & Hm & Hb & Hc & -> & ->); exists n, b, c; do 5 (split; [done|]);
    by rewrite Hv.
Qed.

Lemma gather_k_writes pid h a w : 0 <= h < H -> (a, w) ∈ (prog (pid, h)).1 <->
  exists n b c, 0 <= n < 32 /\ pid * 32 + n < m /\ 0 <= b < D / 4 /\ 0 <= c < 4 /\
    a = ((pid * 32 + n) * H + h) * D + (4 * b + c) /\ w = cast_to t (slot_k kv (tget slots (pid * 32 + n)) h (4 * b + c)).
Proof using Hs HD.
  intros Hh. destruct (shaped_heads kv H D Hs) as [EH ED].
  eapply (store_ext _ pid h a w _ (fun i h d => slot_k kv (tget slots i) h d)); [|apply gather_store].
  intros n b c Hn Hm Hc. cbv beta. unfold slot_k. rewrite EH, ED.
  assert (Em : (pid * 32 + n <? m) = true) by (apply Z.ltb_lt; lia).
  destruct (tget slots (pid * 32 + n) <? kv_offset kv) eqn:E; rewrite Em, E.
  - rewrite k2_tile_stored; [by rewrite Em|done|by rewrite Em, E|done].
  - cbn [andb negb]. by apply k4_tile_stored.
Qed.

Lemma gather_v_writes pid h a w : 0 <= h < H -> (a, w) ∈ (prog (pid, h)).2 <->
  exists n b c, 0 <= n < 32 /\ pid * 32 + n < m /\ 0 <= b < D / 4 /\ 0 <= c < 4 /\
    a = ((pid * 32 + n) * H + h) * D + (4 * b + c) /\ w = cast_to t (slot_v kv (tget slots (pid * 32 + n)) h (4 * b + c)).
Proof using Hs HD.
  intros Hh. destruct (shaped_heads kv H D Hs) as [EH ED].
  eapply (store_ext _ pid h a w _ (fun i h d => slot_v kv (tget slots i) h d)); [|apply gather_store].
  intros n b c Hn Hm Hc. cbv beta. unfold slot_v. rewrite EH, ED.
  assert (Em : (pid * 32 + n <? m) = true) by (apply Z.ltb_lt; lia).
  destruct (tget slots (pid * 32 + n) <? kv_offset kv) eqn:E; rewrite Em, E; cbn [andb negb].
  - by apply v2_tile_stored.
  - by apply v4_tile_stored.
Qed.

(** The gathered tensors hold the stored values of the slots. *)
Lemma gather_slots order out_k out_v : slots <> [] -> check_head_dim D 64 = Ok tt ->
  order ≡ₚ grid2 (tl_cdiv m 32) H -> shape out_k = [m; H; D] -> shape out_v = [m; H; D] ->
  exists ok ov, dequant_gather order t slots kv out_k out_v = Ok (ok, ov) /\ shape ok = shape out_k /\ shape ov = shape out_v /\
    forall i h d, 0 <= i < m -> 0 <= h < H -> 0 <= d < D ->
      elems ok ((i * H + h) * D + d) = cast_to t (slot_k kv (tget slots i) h d) /\
      elems ov ((i * H + h) * D + d) = cast_to t (slot_v kv (tget slots i) h d).
Proof using Hs HD.
  intros Hne Hchk Ho Hk Hv. destruct (shaped_heads kv H D Hs) as [EH ED].
  assert (Hm : 0 < m) by (destruct slots; [done|unfold zlen; simpl; lia]).
  unfold dequant_gather. rewrite EH, ED, Hchk, Hk, Hv. destruct (Z.eqb_spec m 0); [lia|]. cbn [rbind].
  rewrite bool_decide_true by done. cbn [andb rassert rbind]. eexists _, _. split; [reflexivity|].
  split; [done|]. split; [done|]. intros i h d Hi Hh Hd. cbn [with_elems elems]. split.
  - rewrite (launch_flat (fun p => (prog p).1)).
    by apply (gather_launch (fun p => (prog p).1) (fun i h d => cast_to t (slot_k kv (tget slots i) h d)) order _ i h d Ho gather_k_writes).
  - rewrite (launch_flat (fun p => (prog p).2)).
    by apply (gather_launch (fun p => (prog p).2) (fun i h d => cast_to t (slot_v kv (tget slots i) h d)) order _ i h d Ho gather_v_writes).
Qed.
End gather.

Lemma get3_map (slots : list Z) (F : Z -> Z -> list spec_float) H i h d : 0 <= i < zlen slots -> 0 <= h < H ->
  get3 (map (fun s => map (F s) (seqZ 0 H)) slots) i h d = F (tget slots i) h !! Z.to_nat d.
Proof.
  intros Hi Hh. destruct (lookup_lt_is_Some_2 slots (Z.to_nat i)) as [s E]; [unfold zlen in Hi; lia|].
  unfold get3. rewrite list_lookup_fmap, E. cbn [fmap option_fmap option_map]. rewrite tabulate_get by done.
  unfold tget. by rewrite (list_lookup_total_correct _ _ _ E).
Qed.

(** C7: [dequant_gather] returns, for every slot, head and channel, the torch
    reference [ref_dequant_gather] rounded to the output type: the kernel's
    choice between the INT2, INT4 and mixed paths of a block, its interleaved
    sub-tiles and its two ways of loading page metadata do not show, and neither
    does the order of its programs. *)
Theorem gather_is_reference t kv H D slots order out_k out_v :
  kv_shaped kv H D -> slots <> [] -> check_head_dim D 64 = Ok tt -> order ≡ₚ grid2 (tl_cdiv (zlen slots) 32) H ->
  shape out_k = [zlen slots; H; D] -> shape out_v = [zlen slots; H; D] ->
  exists gk gv, dequant_gather order t slots kv out_k out_v = Ok (gk, gv) /\
    forall i h d, 0 <= i < zlen slots -> 0 <= h < H -> 0 <= d < D -> exists wk wv,
      get3 (ref_dequant_gather slots kv).1 i h d = Some wk /\ at_ gk [i; h; d] = cast_to t wk /\
      get3 (ref_dequant_gather slots kv).2 i h d = Some wv /\ at_ gv [i; h; d] = cast_to t wv.
Proof.
  intros Hs Hne H64 Ho Sk Sv. assert (HD0 : 0 < D) by (destruct (check_head_dim_ok _ _ H64); lia).
  destruct (gather_slots t kv H D Hs HD0 slots order out_k out_v Hne H64 Ho Sk Sv) as (gk & gv & E & Ek & Ev & Hc).
  exists gk, gv. split; [done|]. intros i h d Hi Hh Hd. exists (slot_k kv (tget slots i) h d), (slot_v kv (tget slots i) h d).
  destruct (Hc i h d Hi Hh Hd) as [Ck Cv]. destruct (shaped_heads kv H D Hs) as [EH ED].
  unfold ref_dequant_gather. rewrite EH. cbn [fst snd]. rewrite !get3_map by done.
  rewrite (ref_gather_k_slot kv H D), (ref_gather_v_slot kv H D), !tabulate_get by done.
  rewrite (at_row3 gk H D), (at_row3 gv H D) by (by rewrite ?Ek, ?Ev, ?Sk, ?Sv). by rewrite Ck, Cv.
Qed.
