(* ===== verification/QuantRoundTrip.v ===== *)
(** * Writing and reading back

    The levels packed into a byte are recovered from it, and what the loaders
    read from a row that holds a quantised vector is the reference
    quantise-then-dequantise of that vector. *)

From S2P Require Import Prelude Tensors Floats DeviceFloats DeviceFloatsTheory DeviceMemory QuantKernels QuantTheory QuantProps Triton DequantKernels DequantProps.

(** ** Packing *)

Lemma pack4_nib a b c : 0 <= a <= 15 -> 0 <= b <= 15 -> 0 <= c < 2 -> nib (pack4 a b) c = (if c =? 0 then a else b).
Proof.
  intros Ha Hb Hc.
  assert (Hall : forallb (fun a => forallb (fun b => forallb (fun c => nib (pack4 a b) c =? (if c =? 0 then a else b)) (seqZ 0 2))
    (seqZ 0 16)) (seqZ 0 16) = true) by (vm_compute; reflexivity).
  apply (forallb_seqZ _ 16 a) in Hall; [|lia]. apply (forallb_seqZ _ 16 b) in Hall; [|lia].
  apply (forallb_seqZ _ 2 c) in Hall; [|lia]. by apply Z.eqb_eq in Hall.
Qed.

Definition pick4 (a b c d i : Z) : Z := if i =? 0 then a else if i =? 1 then b else if i =? 2 then c else d.

Lemma pack2_crumb a b c d i : 0 <= a <= 3 -> 0 <= b <= 3 -> 0 <= c <= 3 -> 0 <= d <= 3 -> 0 <= i < 4 ->
  crumb (pack2 a b c d) i = pick4 a b c d i.
Proof.
  intros Ha Hb Hc Hd Hi.
  assert (Hall : forallb (fun a => forallb (fun b => forallb (fun c => forallb (fun d => forallb (fun i =>
    crumb (pack2 a b c d) i =? pick4 a b c d i) (seqZ 0 4)) (seqZ 0 4)) (seqZ 0 4)) (seqZ 0 4)) (seqZ 0 4) = true) by (vm_compute; reflexivity).
  apply (forallb_seqZ _ 4 a) in Hall; [|lia]. apply (forallb_seqZ _ 4 b) in Hall; [|lia].
  apply (forallb_seqZ _ 4 c) in Hall; [|lia]. apply (forallb_seqZ _ 4 d) in Hall; [|lia].
  apply (forallb_seqZ _ 4 i) in Hall; [|lia]. by apply Z.eqb_eq in Hall.
Qed.

(** ** Reference levels are in range *)

Lemma ref_level_range u Q v d : Q = 3 \/ Q = 15 -> fits v (d / 32) -> 0 <= ref_level u Q v d <= Q.
Proof.
  intros HQ Hf.
  assert (Hn : no_nan (group v (d / 32))) by (intros y Hy; by apply finite_not_nan, f16_finite_inv, (fits_group v (d / 32))).
  destruct (group_levels Q v (d / 32) (f_reduce torch_max (group v (d / 32))) (f_reduce torch_min (group v (d / 32))) HQ Hf) as (_ & _ & Hq).
  - by apply extremum_reduce; [apply fle_refl|apply fle_trans|apply torch_max_picks|..].
  - apply extremum_reduce; [intros; apply fle_refl|intros a b c H1 H2; by eapply fle_trans|apply torch_min_picks|done|done].
  - rewrite <- (Hq d u eq_refl). by apply quantize_range.
Qed.

(** ** Reading a row *)

(** Quantise and dequantise channel [d] of [v]. *)
Definition ref_value (u Q : Z) (v : Z -> spec_float) (d : Z) : spec_float :=
  let sm := ref_scale_min (group v (d / 32)) Q in dequant (ref_level u Q v d) sm.1 sm.2.

#[global] Instance f32_add_zeq x : Proper (zeq ==> zeq) (f32_add x).
Proof.
  intros b b' [->|(t & t' & -> & ->)]; [done|]. unfold f32_add.
  destruct x as [[]|[]| |], t, t'; simpl; try (by left); right; eauto.
Qed.

#[global] Instance dequant_zeq q sc : Proper (zeq ==> zeq) (dequant q sc).
Proof. intros a b E. unfold dequant, f32_of. by rewrite E. Qed.

(** Position [d] of a vector of levels packed four to a byte. *)
Lemma crumb_byte2 (L : Z -> Z) d : (forall d', d' / 4 = d / 4 -> 0 <= L d' <= 3) -> crumb (byte2 L (d / 4)) (d mod 4) = L d.
Proof.
  intros Hl. unfold byte2. rewrite pack2_crumb by (try apply Hl; dlia). unfold pick4.
  destruct (Z.eqb_spec (d mod 4) 0); [f_equal; dlia|]. destruct (Z.eqb_spec (d mod 4) 1); [f_equal; dlia|].
  destruct (Z.eqb_spec (d mod 4) 2); f_equal; dlia.
Qed.

Section read.
Context (u H D : Z) (HD : 0 <= D /\ D mod 32 = 0) (data : tensor Z) (meta : tensor spec_float).

Lemma read_int4 v r h d : (forall g, 0 <= g < D / 32 -> fits v g) -> 0 <= d < D ->
  row_holds 15 (D / 2) (D / 32) H data meta r h (byte4 (ref_level u 15 v)) (group v) ->
  zeq (stored4 H D (D / 32) (elems data) (elems meta) r h d) (ref_value u 15 v d).
Proof using HD.
  intros Hf Hd [Hb Hm]. assert (Hg : 0 <= d / 32 < D / 32) by dlia. destruct (Hm (d / 32) Hg) as [Hsc Hmn].
  unfold stored4, ref_value. rewrite Hb by dlia.
  replace (((r * H + h) * (D / 32) + d / 32) * 2) with ((r * H + h) * (D / 32 * 2) + d / 32 * 2) by lia.
  rewrite <- Z.add_assoc, Hsc, Hmn. unfold byte4.
  assert (Hl : forall d', d' / 32 = d / 32 -> 0 <= ref_level u 15 v d' <= 15).
  { intros d' E. apply ref_level_range; [auto|]. rewrite E. by apply Hf. }
  rewrite pack4_nib by (try apply Hl; dlia).
  replace (if d mod 2 =? 0 then ref_level u 15 v (d / 2 * 2) else ref_level u 15 v (d / 2 * 2 + 1)) with (ref_level u 15 v d); [done|].
  destruct (Z.eqb_spec (d mod 2) 0).
  - by replace (d / 2 * 2) with d by dlia.
  - by replace (d / 2 * 2 + 1) with d by dlia.
Qed.

Lemma read_int2_v v r h d : (forall g, 0 <= g < D / 32 -> fits v g) -> 0 <= d < D ->
  row_holds 3 (D / 4) (D / 32) H data meta r h (byte2 (ref_level u 3 v)) (group v) ->
  zeq (stored2v H D (D / 32) (elems data) (elems meta) r h d) (ref_value u 3 v d).
Proof using HD.
  intros Hf Hd [Hb Hm]. assert (Hg : 0 <= d / 32 < D / 32) by dlia. destruct (Hm (d / 32) Hg) as [Hsc Hmn].
  unfold stored2v, ref_value. rewrite Hb by dlia.
  replace (((r * H + h) * (D / 32) + d / 32) * 2) with ((r * H + h) * (D / 32 * 2) + d / 32 * 2) by lia.
  rewrite <- Z.add_assoc, Hsc, Hmn. rewrite crumb_byte2; [done|].
  intros d' E. apply ref_level_range; [auto|]. replace (d' / 32) with (d / 32) by dlia. by apply Hf.
Qed.

(** Slot [s] of page [s / 32], which holds the tokens [p * 32 ..] of [w]. *)
Lemma read_int2_k (w : Z -> Z -> spec_float) p s h d : (forall d, 0 <= d < D -> fits (w d) p) -> 0 <= d < D ->
  row_holds 3 (D * 8) D H data meta (s / 32) h (fun k => byte2 (ref_level u 3 (w (k / 8))) (p * 8 + k mod 8)) (fun d => group (w d) p) ->
  zeq (stored2k H D (elems data) (elems meta) s h d) (ref_value u 3 (w d) (p * 32 + s mod 32)).
Proof using HD.
  intros Hf Hd [Hb Hm]. destruct (Hm d Hd) as [Hsc Hmn]. unfold stored2k, ref_value.
  set (j := s mod 32). assert (Hj : 0 <= j < 32) by (apply Z.mod_pos_bound; lia).
  replace ((p * 32 + j) / 32) with p by dlia.
  replace (((s / 32 * H + h) * D + d) * 8 + j / 4) with ((s / 32 * H + h) * (D * 8) + (d * 8 + j / 4)) by lia.
  replace (((s / 32 * H + h) * D + d) * 2) with ((s / 32 * H + h) * (D * 2) + d * 2) by lia.
  rewrite Hb by dlia. rewrite <- Z.add_assoc, Hsc, Hmn.
  replace ((d * 8 + j / 4) / 8) with d by dlia. replace ((d * 8 + j / 4) mod 8) with (j / 4) by dlia.
  replace (p * 8 + j / 4) with ((p * 32 + j) / 4) by dlia. replace (j mod 4) with ((p * 32 + j) mod 4) by dlia.
  rewrite crumb_byte2; [done|]. intros d' E. apply ref_level_range; [auto|]. replace (d' / 32) with p by dlia. by apply Hf.
Qed.
End read.

(** ** The quantise-then-dequantise references

    The references [ref_quant_dequant_int4], [ref_quant_dequant_int2_v] and
    [ref_quant_dequant_int2_k_page] of [triaxial_kv.py], evaluated at one
    channel: packing and unpacking cancel, and what remains is [ref_value]. *)

Lemma zip_with_maps {A B C E} (f : B -> C -> E) (g : A -> B) (h : A -> C) l :
  zip_with f (map g l) (map h l) = map (fun x => f (g x) (h x)) l.
Proof. induction l as [|x l IH]; [done|]. simpl. by rewrite IH. Qed.

Lemma dequant_tokens_map bits F M (x : list (list (list spec_float))) :
  ref_dequant_tokens bits (map (map F) x) (map (map M) x) = map (map (fun v => ref_dequant_row bits (F v) (M v))) x.
Proof. unfold ref_dequant_tokens. rewrite zip_with_maps. apply map_ext. intros r. apply zip_with_maps. Qed.

Section row.
Context (u D : Z) (H0 : 0 <= D) (HD : D mod 32 = 0) (v : Z -> spec_float) (Hf : forall g, 0 <= g < D / 32 -> fits v g).

Lemma levels_range Q d : Q = 3 \/ Q = 15 -> 0 <= d < D -> 0 <= ref_level u Q v d <= Q.
Proof using H0 HD Hf. intros HQ Hd. apply ref_level_range; [done|]. apply Hf. dlia. Qed.

Lemma quant_dequant_row4 :
  ref_dequant_row 4 (map pack4_row (reshape 2 (ref_levels u 15 (map v (seqZ 0 D))))) (ref_metas 15 (map v (seqZ 0 D))) =
  map (ref_value u 15 v) (seqZ 0 D).
Proof using H0 HD Hf.
  rewrite ref_levels_vec, ref_metas_vec by done.
  assert (E : map pack4_row (reshape 2 (map (ref_level u 15 v) (seqZ 0 D))) = map (byte4 (ref_level u 15 v)) (seqZ 0 (D / 2))).
  { replace D with (D / 2 * 2) at 1 by dlia. apply pack4_tabulate. dlia. }
  rewrite E. rewrite (dequant_row_tabulate true) by done. apply tabulate_ext. intros d Hd. unfold ref_value, byte4.
  rewrite pack4_nib by (try (apply levels_range; [by right|]); dlia).
  replace (if d mod 2 =? 0 then ref_level u 15 v (d / 2 * 2) else ref_level u 15 v (d / 2 * 2 + 1)) with (ref_level u 15 v d); [reflexivity|].
  destruct (Z.eqb_spec (d mod 2) 0).
  - by replace (d / 2 * 2) with d by dlia.
  - by replace (d / 2 * 2 + 1) with d by dlia.
Qed.

Lemma quant_dequant_row2 :
  ref_dequant_row 2 (map pack2_row (reshape 4 (ref_levels u 3 (map v (seqZ 0 D))))) (ref_metas 3 (map v (seqZ 0 D))) =
  map (ref_value u 3 v) (seqZ 0 D).
Proof using H0 HD Hf.
  rewrite ref_levels_vec, ref_metas_vec by done.
  assert (E : map pack2_row (reshape 4 (map (ref_level u 3 v) (seqZ 0 D))) = map (byte2 (ref_level u 3 v)) (seqZ 0 (D / 4))).
  { replace D with (D / 4 * 4) at 1 by dlia. apply pack2_tabulate. dlia. }
  rewrite E. rewrite (dequant_row_tabulate false) by done. apply tabulate_ext. intros d Hd. unfold ref_value.
  rewrite crumb_byte2; [reflexivity|]. intros d' Hd'. apply levels_range; [by left|]. dlia.
Qed.
End row.

(** ** The references at one channel *)

Section tokens.
Context (u n H D : Z) (H0 : 0 <= D) (HD : D mod 32 = 0) (x : tensor spec_float) (Hx : shape x = [n; H; D]).

Lemma fits_row_vec i h : fits_row x i h -> forall g, 0 <= g < D / 32 -> fits (vec x i h) g.
Proof using H0 HD Hx.
  assert (Ed : dim x 2 = D) by (unfold dim; by rewrite Hx). rewrite <- Ed in *. by apply fits_row_groups.
Qed.

Lemma quant_dequant_int4_at i h d : 0 <= i < n -> 0 <= h < H -> 0 <= d < D -> fits_row x i h ->
  get3 (ref_quant_dequant_int4 u (tolist3 x)) i h d = Some (ref_value u 15 (vec x i h) d).
Proof using H0 HD Hx.
  intros Hi Hh Hd Hf. unfold ref_quant_dequant_int4, ref_quant_int4_tokens. rewrite dequant_tokens_map.
  rewrite (tolist3_row (fun v => ref_dequant_row 4 (map pack4_row (reshape 2 (ref_levels u 15 v))) (ref_metas 15 v)) x n H D) by done.
  rewrite quant_dequant_row4 by (done || by apply fits_row_vec). by apply tabulate_get.
Qed.

Lemma quant_dequant_int2_v_at i h d : 0 <= i < n -> 0 <= h < H -> 0 <= d < D -> fits_row x i h ->
  get3 (ref_quant_dequant_int2_v u (tolist3 x)) i h d = Some (ref_value u 3 (vec x i h) d).
Proof using H0 HD Hx.
  intros Hi Hh Hd Hf. unfold ref_quant_dequant_int2_v, ref_quant_int2_v_tokens. rewrite dequant_tokens_map.
  rewrite (tolist3_row (fun v => ref_dequant_row 2 (map pack2_row (reshape 4 (ref_levels u 3 v))) (ref_metas 3 v)) x n H D) by done.
  rewrite quant_dequant_row2 by (done || by apply fits_row_vec). by apply tabulate_get.
Qed.
End tokens.

(** ** Key pages *)

Lemma quant_dequant_int2_k_at u x np H D p j h d : shape x = [np; 32; H; D] ->
  0 <= p < np -> 0 <= j < 32 -> 0 <= h < H -> 0 <= d < D -> fits (page_chan x p h d) 0 ->
  exists r, ref_quant_dequant_int2_k_page u x = Ok r /\ get4 r p j h d = Some (ref_value u 3 (page_chan x p h d) j).
Proof.
  intros Hx Hp Hj Hh Hd Hf. unfold ref_quant_dequant_int2_k_page, ref_quant_int2_k_pages.
  assert (E1 : dim x 1 = 32) by (unfold dim; by rewrite Hx). rewrite E1. cbn [Z.eqb Pos.eqb G rassert rbind].
  eexists. split; [reflexivity|]. unfold ref_dequant_k_pages, get4. rewrite zip_with_maps. unfold permute_pages.
  assert (E0 : dim x 0 = np) by (unfold dim; by rewrite Hx). assert (E2 : dim x 2 = H) by (unfold dim; by rewrite Hx).
  assert (E3 : dim x 3 = D) by (unfold dim; by rewrite Hx). rewrite E0, E1, E2, E3.
  rewrite map_map, tabulate_get by done. unfold get3. rewrite tabulate_get by done.
  rewrite zip_with_maps, map_map, tabulate_get by done. rewrite zip_with_maps, map_map, tabulate_get by done.
  change (map (fun j => at_ x [p; j; h; d]) (seqZ 0 32)) with (map (page_chan x p h d) (seqZ 0 32)).
  assert (EL : map pack2_row (reshape 4 (ref_levels u 3 (map (page_chan x p h d) (seqZ 0 32)))) = map (byte2 (ref_level u 3 (page_chan x p h d))) (seqZ 0 8)).
  { rewrite ref_levels_vec by done. apply (pack2_tabulate _ 8). lia. }
  rewrite EL, unpack2_tabulate by lia. rewrite map_map.
  unfold ref_value, tget. rewrite (list_lookup_total_correct _ _ _ (tabulate_get _ (8 * 4) j ltac:(lia))).
  rewrite crumb_byte2.
  - replace (j / 32) with 0 by dlia.
    change (map (fun j => f32_of (page_chan x p h d j)) (seqZ 0 32)) with (group (page_chan x p h d) 0).
    by destruct (ref_scale_min (group (page_chan x p h d) 0) 3).
  - intros d' E'. apply ref_level_range; [by left|]. by replace (d' / 32) with 0 by dlia.
Qed.
