(* ===== verification/BaseAllocator.v ===== *)
(** * State and shared methods of the slot allocators

    Models [BaseTokenToKVPoolAllocator] of [srt/mem_cache/allocator.py]: the free
    and release lists, their merge, the state snapshot and the free groups.  The
    method [free], which subclasses provide, is an argument of
    [free_group_end]. *)

From S2P Require Import Prelude Tensors.

Record BaseAllocator := {
  size : Z;
  page_size : Z;
  need_sort : bool;
  free_pages : list Z;
  release_pages : list Z;
  is_not_in_free_group : bool;
  free_group : list (list Z)
}.

Definition set_free (a : BaseAllocator) (f r : list Z) : BaseAllocator :=
  {| size := size a; page_size := page_size a; need_sort := need_sort a;
     free_pages := f; release_pages := r;
     is_not_in_free_group := is_not_in_free_group a; free_group := free_group a |}.

Definition set_group (a : BaseAllocator) (b : bool) (g : list (list Z)) : BaseAllocator :=
  {| size := size a; page_size := page_size a; need_sort := need_sort a;
     free_pages := free_pages a; release_pages := release_pages a;
     is_not_in_free_group := b; free_group := g |}.

Definition available_size (a : BaseAllocator) : Z :=
  (zlen (free_pages a) + zlen (release_pages a)) * page_size a.

Definition backup_state (a : BaseAllocator) : list Z * list Z := (free_pages a, release_pages a).

Definition restore_state (a : BaseAllocator) (st : list Z * list Z) : BaseAllocator :=
  set_free a (fst st) (snd st).

Definition free_group_begin (a : BaseAllocator) : BaseAllocator := set_group a false [].

Definition free_group_end {A} (free : BaseAllocator -> list Z -> A) (ret : BaseAllocator -> A)
    (a : BaseAllocator) : A :=
  let a1 := set_group a true (free_group a) in
  match free_group a1 with
  | [] => ret a1
  | g => free a1 (concat g)
  end.

(** [torch.sort] *)
Definition sort (l : list Z) : list Z := merge_sort Z.le l.

Definition merge_and_sort_free (a : BaseAllocator) : BaseAllocator :=
  if 0 <? zlen (release_pages a)
  then set_free a (sort (free_pages a ++ release_pages a)) []
  else a.

(** Sorting the free list changes neither the set of free pages nor their number. *)
Lemma merge_and_sort_free_perm a :
  free_pages (merge_and_sort_free a) ++ release_pages (merge_and_sort_free a) ≡ₚ
  free_pages a ++ release_pages a.
Proof.
  unfold merge_and_sort_free. destruct (0 <? _); [|done]. simpl.
  rewrite app_nil_r. apply merge_sort_Permutation.
Qed.

Lemma merge_and_sort_free_fields a :
  size (merge_and_sort_free a) = size a /\ page_size (merge_and_sort_free a) = page_size a /\
  need_sort (merge_and_sort_free a) = need_sort a /\
  is_not_in_free_group (merge_and_sort_free a) = is_not_in_free_group a /\
  free_group (merge_and_sort_free a) = free_group a.
Proof. unfold merge_and_sort_free. by destruct (0 <? _). Qed.

(** After a merge every page is on the free list, in increasing order. *)
Lemma merge_and_sort_free_all a :
  release_pages (merge_and_sort_free a) = [] /\
  (0 < zlen (release_pages a) -> Sorted Z.le (free_pages (merge_and_sort_free a))).
Proof.
  unfold merge_and_sort_free. destruct (Z.ltb_spec 0 (zlen (release_pages a))) as [H|H]; simpl.
  - split; [done|]. intros _. apply Sorted_merge_sort. intros x y. lia.
  - split; [by apply zlen_le_0|lia].
Qed.
