(* ===== verification/TokenAllocator.v ===== *)
(** * Token-granular allocator

    Models class [TokenToKVPoolAllocator] of [srt/mem_cache/allocator.py]. *)

From S2P Require Import Prelude Tensors BaseAllocator.

Definition clear (size : Z) (need_sort : bool) : BaseAllocator :=
  {| size := size; page_size := 1; need_sort := need_sort;
     free_pages := arange 1 (size + 1); release_pages := [];
     is_not_in_free_group := true; free_group := [] |}.

Definition available_size (a : BaseAllocator) : Z :=
  zlen (free_pages a) + zlen (release_pages a).

Definition alloc (a : BaseAllocator) (need_size : Z) : option (list Z) * BaseAllocator :=
  let a1 := if need_sort a && (zlen (free_pages a) <? need_size)
            then merge_and_sort_free a else a in
  if zlen (free_pages a1) <? need_size then (None, a1)
  else (Some (slice_to (free_pages a1) need_size),
        set_free a1 (slice_from (free_pages a1) need_size) (release_pages a1)).

Definition free (a : BaseAllocator) (free_index : list Z) : BaseAllocator :=
  if zlen free_index =? 0 then a
  else if is_not_in_free_group a then
    if need_sort a then set_free a (free_pages a) (release_pages a ++ free_index)
    else set_free a (free_pages a ++ free_index) (release_pages a)
  else set_group a false (free_group a ++ [free_index]).

Definition group_end (a : BaseAllocator) : BaseAllocator := free_group_end free (fun a => a) a.

(** ** Ownership *)

Definition parked (a : BaseAllocator) : list Z :=
  if is_not_in_free_group a then [] else concat (free_group a).

(** Free, released, parked and held slots are the slots [1..size], each once. *)
Definition token_inv (a : BaseAllocator) (owned : list Z) : Prop :=
  free_pages a ++ release_pages a ++ parked a ++ owned ≡ₚ seqZ 1 (size a).

#[global] Instance token_inv_proper : Proper ((=) ==> (≡ₚ) ==> iff) token_inv.
Proof. intros a ? <- l k Hp. unfold token_inv. by rewrite Hp. Qed.

Lemma token_inv_clear size b : token_inv (clear size b) [].
Proof.
  unfold token_inv, clear, arange; simpl. rewrite app_nil_r. by replace (size + 1 - 1) with size by lia.
Qed.

Lemma token_inv_merge a owned : token_inv a owned -> token_inv (merge_and_sort_free a) owned.
Proof.
  intros H. destruct (merge_and_sort_free_fields a) as (E1 & _ & _ & E2 & E3).
  unfold token_inv, parked in *. by rewrite E1, E2, E3, app_assoc, merge_and_sort_free_perm, <- app_assoc.
Qed.

Lemma perm_hoist {A} (t d r p o : list A) : d ++ r ++ p ++ t ++ o ≡ₚ (t ++ d) ++ r ++ p ++ o.
Proof.
  rewrite (Permutation_app_swap_app p t), (Permutation_app_swap_app r t), (Permutation_app_swap_app d t).
  by rewrite <- app_assoc.
Qed.

Lemma alloc_state a n :
  let a1 := if need_sort a && (zlen (free_pages a) <? n) then merge_and_sort_free a else a in
  0 <= n ->
  alloc a n = if zlen (free_pages a1) <? n then (None, a1)
              else (Some (take (Z.to_nat n) (free_pages a1)),
                    set_free a1 (drop (Z.to_nat n) (free_pages a1)) (release_pages a1)).
Proof.
  cbv zeta. intros Hn. unfold alloc. cbv zeta.
  by rewrite slice_to_take, slice_from_drop.
Qed.

Lemma token_inv_alloc a n r a' owned :
  token_inv a owned -> 0 <= n -> alloc a n = (r, a') ->
  match r with
  | Some out => zlen out = n /\ token_inv a' (out ++ owned)
  | None => token_inv a' owned
  end.
Proof.
  intros Hi Hn. rewrite alloc_state by done.
  set (a1 := if need_sort a && _ then merge_and_sort_free a else a).
  assert (Hi1 : token_inv a1 owned) by (unfold a1; destruct (_ && _); [by apply token_inv_merge|done]).
  destruct (Z.ltb_spec (zlen (free_pages a1)) n); intros [= <- <-]; [done|].
  split; [apply zlen_take; lia|].
  unfold token_inv, parked in *. simpl. rewrite <- Hi1.
  rewrite <- (take_drop (Z.to_nat n) (free_pages a1)) at 3. apply perm_hoist.
Qed.

(** A release returns exactly the given slots. *)
Lemma token_inv_free a l owned : token_inv a (l ++ owned) -> token_inv (free a l) owned.
Proof.
  intros Hi. unfold free. destruct (Z.eqb_spec (zlen l) 0) as [Hz|Hz].
  { rewrite (zlen_le_0 l) in Hi by lia. done. }
  unfold token_inv, parked in *. destruct (is_not_in_free_group a) eqn:Eg.
  - destruct (need_sort a); simpl; rewrite Eg, <- Hi; simpl.
    + by rewrite <- !app_assoc.
    + rewrite <- !app_assoc. f_equiv. rewrite app_assoc, (Permutation_app_comm l), <- app_assoc. done.
  - simpl. rewrite <- Hi, concat_app. simpl. by rewrite app_nil_r, <- !app_assoc.
Qed.

Lemma token_inv_group_end a owned :
  is_not_in_free_group a = false -> token_inv a owned -> token_inv (group_end a) owned.
Proof.
  intros Hg Hi. unfold group_end, free_group_end. simpl. unfold token_inv, parked in Hi. rewrite Hg in Hi.
  destruct (free_group a) as [|g gs]; [done|]. apply token_inv_free. exact Hi.
Qed.

Lemma token_inv_available a owned :
  0 <= size a -> token_inv a owned ->
  available_size a + zlen (parked a) + zlen owned = size a.
Proof.
  unfold token_inv, available_size. intros Hs Hi. apply Permutation_length in Hi.
  rewrite !length_app, length_seqZ in Hi. unfold zlen. lia.
Qed.
