(* ===== verification/PagedAllocator.v ===== *)
(** * Page-granular allocator

    Models [alloc_extend_naive], the Triton kernels [alloc_extend_kernel] and
    [alloc_decode_kernel], and class [PagedTokenToKVPoolAllocator] of
    [srt/mem_cache/allocator.py], with [get_num_new_pages] and
    [next_power_of_2] of [srt/utils/common.py].  [debug_mode] is the environment
    switch SGLANG_DEBUG_MEMORY_POOL. *)

From S2P Require Import Prelude Tensors Triton BaseAllocator.

(** [(x + page_size - 1) // page_size] *)
Definition pages_of (x page_size : Z) : Z := (x + page_size - 1) / page_size.

Definition next_power_of_2 (n : Z) : Z :=
  if 0 <? n then Z.shiftl 1 (if n - 1 =? 0 then 0 else Z.log2 (n - 1) + 1) else 1.

Definition get_num_new_pages (seq_lens : list Z) (page_size : Z) (prefix_lens : option (list Z))
    (decode : bool) : result Z :=
  match prefix_lens, decode with
  | Some pre, false =>
      Ok (zsum (zip_with (fun s p => pages_of s page_size - pages_of p page_size) seq_lens pre))
  | _, true => Ok (count (fun s => s mod page_size =? 1) seq_lens)
  | None, false => Err AssertionError
  end.

(** [out[a : a + len(vals)] = vals] *)
Definition put_slice (out : list Z) (a : Z) (vals : list Z) : list Z :=
  scatter out (seqZ a (zlen vals)) vals.

(** ** Reference loop *)

Definition naive_step (prefix_lens seq_lens last_loc free_pages : list Z) (page_size : Z)
    (out : list Z) (i : Z) : result (list Z) :=
  let extend_lens := zip_with Z.sub seq_lens prefix_lens in
  let end_pos := cumsum extend_lens in
  let start_pos := zip_with Z.sub end_pos extend_lens in
  let num_new_pages := zip_with (fun s p => pages_of s page_size - pages_of p page_size) seq_lens prefix_lens in
  let num_full_new_pages := zip_with (fun s p => s / page_size - pages_of p page_size) seq_lens prefix_lens in
  let need_page := zip_with Z.sub num_new_pages num_full_new_pages in
  let end_new_pages := cumsum num_new_pages in
  let start_new_pages := zip_with Z.sub end_new_pages num_new_pages in
  let pos_in_page := tl_arange page_size in
  let pre := tget prefix_lens i in
  let seq := tget seq_lens i in
  let num1 := Z.min seq (pages_of pre page_size * page_size) - pre in
  let out1 :=
    if num1 =? 0 then out
    else put_slice out (tget start_pos i)
           (map (fun j => tget last_loc i + 1 + j) (slice_to pos_in_page num1)) in
  if pre + num1 =? seq then Ok out1
  else
    let num2 := (seq / page_size - pages_of pre page_size) * page_size in
    let! out2 :=
      if num2 =? 0 then Ok out1
      else
        let pages := py_slice free_pages (tget start_new_pages i)
                       (tget end_new_pages i - tget need_page i) in
        let vals := concat (map (fun p => map (fun j => p * page_size + j) pos_in_page) pages) in
        if zlen vals =? num2
        then Ok (put_slice out1 (tget start_pos i + num1) vals)
        else Err RuntimeError in
    if pre + num1 + num2 =? seq then Ok out2
    else
      let num3 := seq - seq / page_size * page_size in
      if num3 =? 0 then Ok out2
      else
        let! p := py_get free_pages (tget end_new_pages i - 1) in
        Ok (put_slice out2 (tget end_pos i - num3)
              (map (fun j => p * page_size + j) (slice_to pos_in_page num3))).

Definition alloc_extend_naive (prefix_lens seq_lens last_loc free_pages out : list Z) (page_size : Z)
  : result (list Z) :=
  rfold (naive_step prefix_lens seq_lens last_loc free_pages page_size) out
    (arange 0 (zlen prefix_lens)).

(** ** Triton kernels

    Lanes that a load masks off hold an unspecified value.  The kernels subtract
    two such loads lane by lane and sum the differences over all lanes, so their
    result is determined only if the masked lanes of both loads hold the same
    value; [undef] is that value, any number. *)

Definition alloc_extend_kernel (undef : Z) (pre_lens seq_lens last_locs free_page : list Z)
    (bs_upper page_size : Z) (out : list Z) (pid : Z) : list Z :=
  let load_offset := tl_arange bs_upper in
  let seq_at l := tl_load_masked undef seq_lens (l <=? pid) l in
  let pre_at l := tl_load_masked undef pre_lens (l <=? pid) l in
  let extend_lens := map (fun l => seq_at l - pre_at l) load_offset in
  let seq_len := tl_load seq_lens pid in
  let pre_len := tl_load pre_lens pid in
  let extend_len := seq_len - pre_len in
  let output_start_loc := tl_sum extend_lens - extend_len in
  let num_new_pages := map (fun l => pages_of (seq_at l) page_size - pages_of (pre_at l) page_size) load_offset in
  let num_page_start_loc_self := pages_of seq_len page_size - pages_of pre_len page_size in
  let new_page_start_loc := tl_sum num_new_pages - num_page_start_loc_self in
  let last_loc := tl_load last_locs pid in
  let num_part1 := Z.min seq_len (pages_of pre_len page_size * page_size) - pre_len in
  let out1 := tl_store out (tl_arange page_size) (fun l => output_start_loc + l)
                (fun l => last_loc + 1 + l) (fun l => l <? num_part1) in
  if pre_len + num_part1 =? seq_len then out1
  else
    let num_part2 := seq_len / page_size * page_size - pages_of pre_len page_size * page_size in
    let out2 := tl_blocks out1 4096 num_part2 (output_start_loc + num_part1)
      (fun o => tl_load free_page (new_page_start_loc + o / page_size) * page_size + o mod page_size) in
    if pre_len + num_part1 + num_part2 =? seq_len then out2
    else
      let num_part3 := seq_len - seq_len / page_size * page_size in
      let start_loc := tl_load free_page (new_page_start_loc + num_page_start_loc_self - 1) in
      tl_store out2 (tl_arange page_size) (fun l => output_start_loc + num_part1 + num_part2 + l)
        (fun l => start_loc * page_size + l) (fun l => l <? num_part3).

Definition alloc_decode_kernel (undef : Z) (seq_lens last_locs free_page : list Z)
    (bs_upper page_size : Z) (out : list Z) (pid : Z) : list Z :=
  let load_offset := tl_arange bs_upper in
  let seq_at l := tl_load_masked undef seq_lens (l <=? pid) l in
  let pre_at l := if l <=? pid then seq_at l - 1 else seq_at l in
  let seq_len := tl_load seq_lens pid in
  let pre_len := seq_len - 1 in
  let num_new_pages := map (fun l => pages_of (seq_at l) page_size - pages_of (pre_at l) page_size) load_offset in
  let num_page_start_loc_self := pages_of seq_len page_size - pages_of pre_len page_size in
  let new_page_start_loc := tl_sum num_new_pages - num_page_start_loc_self in
  if num_page_start_loc_self =? 0
  then set_at out pid (tl_load last_locs pid + 1)
  else set_at out pid (tl_load free_page new_page_start_loc * page_size).

(** ** The class *)

Definition num_pages (size page_size : Z) : Z := size / page_size.

Definition clear (size page_size : Z) (need_sort : bool) : BaseAllocator :=
  {| size := size; page_size := page_size; need_sort := need_sort;
     free_pages := arange 1 (num_pages size page_size + 1); release_pages := [];
     is_not_in_free_group := true; free_group := [] |}.

Definition alloc (debug_mode : bool) (a : BaseAllocator) (need_size : Z)
  : result (option (list Z) * BaseAllocator) :=
  if debug_mode && negb (need_size mod page_size a =? 0) then Err AssertionError
  else
    let n := need_size / page_size a in
    let a1 := if need_sort a && (zlen (free_pages a) <? n) then merge_and_sort_free a else a in
    if zlen (free_pages a1) <? n then Ok (None, a1)
    else
      let out_pages := slice_to (free_pages a1) n in
      let out_indices :=
        concat (map (fun p => map (fun j => p * page_size a + j) (tl_arange (page_size a))) out_pages) in
      Ok (Some out_indices, set_free a1 (slice_from (free_pages a1) n) (release_pages a1)).

(** Outside debug mode [alloc] and [free] do not raise. *)
Lemma alloc_ok a n : exists r, alloc false a n = Ok r.
Proof. unfold alloc. cbn [andb]. destruct (_ <? _); by eexists. Qed.

Definition all_distinct (l : list Z) : bool := zlen (unique l) =? zlen l.

(** [order] is the order in which the programs of the launch run; the CPU and
    device copies of the lengths hold the same values. *)
Definition alloc_extend (debug_mode : bool) (undef : Z) (order : list Z) (a : BaseAllocator)
    (prefix_lens seq_lens last_loc : list Z) (extend_num_tokens : Z)
  : result (option (list Z) * BaseAllocator) :=
  if debug_mode &&
     negb (forallb id (zip_with (fun l p => (l + 1) mod page_size a =? p mod page_size a) last_loc prefix_lens))
  then Err AssertionError
  else
    let bs := zlen prefix_lens in
    let a1 := if need_sort a && (zlen (free_pages a) <? extend_num_tokens / page_size a + bs + 1)
              then merge_and_sort_free a else a in
    let out_indices := launch
      (alloc_extend_kernel undef prefix_lens seq_lens last_loc (free_pages a1)
         (next_power_of_2 bs) (page_size a)) order
      (replicate (Z.to_nat extend_num_tokens) 0) in
    if debug_mode && negb (all_distinct out_indices) then Err AssertionError
    else
      let! n := get_num_new_pages seq_lens (page_size a) (Some prefix_lens) false in
      if zlen (free_pages a1) <? n then Ok (None, a1)
      else Ok (Some out_indices, set_free a1 (slice_from (free_pages a1) n) (release_pages a1)).

Definition alloc_decode (debug_mode : bool) (undef : Z) (order : list Z) (a : BaseAllocator)
    (seq_lens last_loc : list Z) : result (option (list Z) * BaseAllocator) :=
  if debug_mode &&
     negb (forallb id (zip_with (fun l s => (l + 2) mod page_size a =? s mod page_size a) last_loc seq_lens))
  then Err AssertionError
  else
    let bs := zlen seq_lens in
    let a1 := if need_sort a && (zlen (free_pages a) <? bs) then merge_and_sort_free a else a in
    let out_indices := launch
      (alloc_decode_kernel undef seq_lens last_loc (free_pages a1) (next_power_of_2 bs) (page_size a))
      order (replicate (Z.to_nat bs) 0) in
    if debug_mode && negb (all_distinct out_indices) then Err AssertionError
    else
      let! n := get_num_new_pages seq_lens (page_size a) None true in
      if zlen (free_pages a1) <? n then Ok (None, a1)
      else Ok (Some out_indices, set_free a1 (slice_from (free_pages a1) n) (release_pages a1)).

Definition free (debug_mode : bool) (a : BaseAllocator) (free_index : list Z) : result BaseAllocator :=
  if zlen free_index =? 0 then Ok a
  else
    let a1 :=
      if is_not_in_free_group a then
        let free_page_indices := unique (map (fun s => s / page_size a) free_index) in
        if need_sort a then set_free a (free_pages a) (free_page_indices ++ release_pages a)
        else set_free a (free_page_indices ++ free_pages a) (release_pages a)
      else set_group a false (free_group a ++ [free_index]) in
    if debug_mode && negb (all_distinct (free_pages a1)) then Err AssertionError else Ok a1.

Lemma free_ok a l : exists a', free false a l = Ok a'.
Proof. unfold free. destruct (_ =? 0); by eexists. Qed.

Definition group_end (debug_mode : bool) (a : BaseAllocator) : result BaseAllocator :=
  free_group_end (free debug_mode) Ok a.
