(* ===== verification/PagedTheory.v ===== *)
(** * Properties of the paged allocator

    The Triton extend kernel, run in any program order, and the reference loop
    compute the same slots; the decode kernel is the one-token case; the slots
    of a request keep their position modulo the page size. *)

From S2P Require Import Prelude Tensors Triton BaseAllocator PagedAllocator.

(** ** Pages *)

Lemma pages_of_bounds x ps : 0 < ps -> x <= pages_of x ps * ps < x + ps.
Proof. intros H. unfold pages_of. Z.to_euclidean_division_equations. nia. Qed.

Lemma div_bounds x ps : 0 < ps -> x / ps * ps <= x < x / ps * ps + ps.
Proof. intros H. Z.to_euclidean_division_equations. nia. Qed.

(** The last, partial page exists exactly when the length is not a multiple. *)
Lemma pages_of_div x ps :
  0 < ps -> (x = x / ps * ps /\ pages_of x ps = x / ps) \/
            (x / ps * ps < x /\ pages_of x ps = x / ps + 1).
Proof.
  intros H. pose proof (div_bounds x ps H). pose proof (pages_of_bounds x ps H).
  destruct (Z.eq_dec x (x / ps * ps)); [left|right]; split; try lia; nia.
Qed.

Lemma pages_of_mono x y ps : 0 < ps -> x <= y -> pages_of x ps <= pages_of y ps.
Proof. intros H Hxy. unfold pages_of. apply Z.div_le_mono; lia. Qed.

Lemma zsum_take_mono (l : list Z) i j :
  Forall (fun x => 0 <= x) l -> (i <= j)%nat -> zsum (take i l) <= zsum (take j l).
Proof.
  intros Hl Hij. rewrite <- (take_drop i (take j l)). rewrite take_take, Nat.min_l by done.
  rewrite zsum_app. assert (0 <= zsum (drop i (take j l))); [|lia].
  assert (Hf : Forall (fun x => 0 <= x) (drop i (take j l))) by (by apply Forall_drop, Forall_take).
  unfold zsum. induction Hf; simpl; lia.
Qed.

Lemma put_slice_length out a vals : length (put_slice out a vals) = length out.
Proof. apply scatter_length. Qed.

Lemma put_slice_lookup out a vals i :
  0 <= a -> (i < length out)%nat ->
  put_slice out a vals !! i =
    if (a <=? Z.of_nat i) && (Z.of_nat i <? a + zlen vals) then vals !! (i - Z.to_nat a)%nat
    else out !! i.
Proof.
  intros Ha. unfold put_slice. revert out. induction vals as [|v vals IH] using rev_ind; intros out Hi.
  - unfold scatter, seqZ. change (zlen []) with 0. simpl. destruct (_ && _) eqn:E; [bool_lia|done].
  - rewrite zlen_app. change (zlen [v]) with 1. pose proof (zlen_nonneg vals).
    rewrite seqZ_app by lia. rewrite scatter_app by (rewrite length_seqZ; unfold zlen; lia).
    assert (Hs1 : scatter (scatter out (seqZ a (zlen vals)) vals) (seqZ (a + zlen vals) 1) [v] =
       set_at (scatter out (seqZ a (zlen vals)) vals) (a + zlen vals) v).
    { unfold scatter at 1. rewrite (seqZ_cons (a + zlen vals)) by lia. done. }
    rewrite Hs1, set_at_lookup by lia. rewrite IH by done.
    destruct (lookup_lt_is_Some_2 out i Hi) as [y Hy]. rewrite Hy.
    destruct (Z.leb_spec a (Z.of_nat i)), (Z.ltb_spec (Z.of_nat i) (a + zlen vals)),
      (Z.ltb_spec (Z.of_nat i) (a + (zlen vals + 1))), (Z.eqb_spec (Z.of_nat i) (a + zlen vals)); simpl; try lia; try done.
    + rewrite lookup_app_l by (unfold zlen in *; lia). destruct (vals !! _); done.
    + rewrite lookup_app_r by (unfold zlen in *; lia).
      by replace (i - Z.to_nat a - length vals)%nat with 0%nat by (unfold zlen in *; lia).
Qed.

(** ** The batch *)

Section extend.
Context (pre_lens seq_lens last_locs free : list Z) (ps : Z).

Definition exts : list Z := zip_with Z.sub seq_lens pre_lens.
Definition news : list Z := zip_with (fun s p => pages_of s ps - pages_of p ps) seq_lens pre_lens.

(** Slot of position [t] of request [pid]. *)
Definition slot_ref (pid t : Z) : Z :=
  let pre := tget pre_lens pid in
  if t <? pages_of pre ps * ps then tget last_locs pid + 1 + (t - pre)
  else tget free (zsum (take (Z.to_nat pid) news) + (t / ps - pages_of pre ps)) * ps + t mod ps.

(** The slots of the whole batch: the new positions of each request, in batch order. *)
Definition extend_ref : list Z :=
  concat (map (fun pid => map (slot_ref pid) (seqZ (tget pre_lens pid) (tget exts pid)))
            (seqZ 0 (zlen pre_lens))).

Record batch_ok : Prop := {
  bo_ps : 0 < ps;
  bo_seq : length seq_lens = length pre_lens;
  bo_last : length last_locs = length pre_lens;
  bo_le : forall i p s, pre_lens !! i = Some p -> seq_lens !! i = Some s -> 0 <= p <= s
}.

Context (Hok : batch_ok).

Lemma lens_lookup i : (i < length pre_lens)%nat ->
  exists p s, pre_lens !! i = Some p /\ seq_lens !! i = Some s /\ 0 <= p <= s /\
    exts !! i = Some (s - p) /\ news !! i = Some (pages_of s ps - pages_of p ps) /\
    tget pre_lens (Z.of_nat i) = p /\ tget seq_lens (Z.of_nat i) = s.
Proof.
  intros Hi. destruct (lookup_lt_is_Some_2 pre_lens i Hi) as [p Hp].
  destruct (lookup_lt_is_Some_2 seq_lens i) as [s Hs]; [rewrite (bo_seq Hok); done|].
  exists p, s. unfold exts, news. rewrite !lookup_zip_with, Hp, Hs.
  pose proof (bo_le Hok _ _ _ Hp Hs).
  split_and!; try done; try lia; by apply tget_lookup_Some.
Qed.

Lemma exts_nonneg : Forall (fun x => 0 <= x) exts.
Proof.
  apply list.Forall_forall. intros x [i Hx]%list_elem_of_lookup.
  unfold exts in Hx. rewrite lookup_zip_with in Hx.
  destruct (seq_lens !! i) as [s|] eqn:Es; [|done]. simpl in Hx.
  destruct (pre_lens !! i) as [p|] eqn:Ep; [|done]. simpl in Hx. injection Hx as <-.
  pose proof (bo_le Hok _ _ _ Ep Es). lia.
Qed.

Lemma news_nonneg : Forall (fun x => 0 <= x) news.
Proof.
  apply list.Forall_forall. intros x [i Hx]%list_elem_of_lookup.
  unfold news in Hx. rewrite lookup_zip_with in Hx.
  destruct (seq_lens !! i) as [s|] eqn:Es; [|done]. simpl in Hx.
  destruct (pre_lens !! i) as [p|] eqn:Ep; [|done]. simpl in Hx. injection Hx as <-.
  pose proof (bo_le Hok _ _ _ Ep Es).
  pose proof (pages_of_mono p s ps (bo_ps Hok)). lia.
Qed.

(** Masked lanes of the cumulative loads cancel whatever they hold. *)
Lemma masked_sum (f : Z -> Z -> Z) (ds : list Z) undef n pid :
  (pid < length pre_lens)%nat -> Z.of_nat (length pre_lens) <= n -> f undef undef = 0 ->
  (forall i s p, seq_lens !! i = Some s -> pre_lens !! i = Some p -> ds !! i = Some (f s p)) ->
  length ds = length pre_lens ->
  tl_sum (map (fun l => f (tl_load_masked undef seq_lens (l <=? Z.of_nat pid) l)
                          (tl_load_masked undef pre_lens (l <=? Z.of_nat pid) l)) (tl_arange n))
  = zsum (take (S pid) ds).
Proof.
  intros Hp Hn Hu Hds Hlen. unfold tl_sum, tl_arange.
  replace n with (Z.of_nat (S pid) + (n - Z.of_nat (S pid))) by lia.
  rewrite seqZ_app, map_app, zsum_app by lia.
  replace (zsum (map _ (seqZ (0 + _) _))) with 0.
  2:{ symmetry. rewrite (zsum_const _ 0); [lia|]. intros l Hl%elem_of_seqZ. unfold tl_load_masked.
      destruct (Z.leb_spec l (Z.of_nat pid)); [lia|done]. }
  rewrite Z.add_0_r. f_equal. apply list_eq. intros i. rewrite list_lookup_fmap.
  destruct (decide (i < S pid)%nat) as [Hi|Hi].
  - rewrite lookup_seqZ_lt, lookup_take by lia. rewrite decide_True by done. simpl.
    destruct (lens_lookup i) as (p & s & Hpi & Hsi & _ & _ & _ & Tp & Ts); [lia|].
    rewrite (Hds _ _ _ Hsi Hpi). unfold tl_load_masked, tl_load.
    destruct (Z.leb_spec (0 + Z.of_nat i) (Z.of_nat pid)); [|lia].
    destruct (Z.ltb_spec (0 + Z.of_nat i) 0); [lia|]. rewrite Z.add_0_l, Tp, Ts. done.
  - rewrite lookup_seqZ_ge, lookup_take by lia. by rewrite decide_False.
Qed.

(** The three parts of a request: rest of the old page, whole pages, new partial page. *)
Lemma slot_ref_part1 pid p l :
  tget pre_lens pid = p -> 0 <= l -> l < pages_of p ps * ps - p ->
  slot_ref pid (p + l) = tget last_locs pid + 1 + l.
Proof.
  intros Hp Hl Hlt. unfold slot_ref. rewrite Hp. destruct (Z.ltb_spec (p + l) (pages_of p ps * ps)); lia.
Qed.

Lemma slot_ref_part2 pid p off :
  tget pre_lens pid = p -> 0 <= off ->
  slot_ref pid (pages_of p ps * ps + off) =
    tget free (zsum (take (Z.to_nat pid) news) + off / ps) * ps + off mod ps.
Proof.
  intros Hp Ho. unfold slot_ref. rewrite Hp. pose proof (bo_ps Hok) as Hps.
  destruct (Z.ltb_spec (pages_of p ps * ps + off) (pages_of p ps * ps)); [lia|].
  rewrite Z.div_add_l by lia.
  replace ((pages_of p ps * ps + off) mod ps) with (off mod ps)
    by (rewrite (Z.add_comm _ off), Z.mod_add by lia; done).
  do 3 f_equal. lia.
Qed.

(** One program writes the slots of its request and nothing else. *)
Lemma alloc_extend_kernel_lookup undef n out pid i :
  (pid < length pre_lens)%nat -> Z.of_nat (length pre_lens) <= n -> (i < length out)%nat ->
  let o := zsum (take pid exts) in
  alloc_extend_kernel undef pre_lens seq_lens last_locs free n ps out (Z.of_nat pid) !! i =
    if (o <=? Z.of_nat i) && (Z.of_nat i <? o + tget exts (Z.of_nat pid))
    then Some (slot_ref (Z.of_nat pid) (tget pre_lens (Z.of_nat pid) + (Z.of_nat i - o)))
    else out !! i.
Proof.
  intros Hp Hn Hi o. pose proof (bo_ps Hok) as Hps.
  destruct (lens_lookup pid Hp) as (p & s & Hpi & Hsi & Hle & Hex & Hnw & Tp & Ts).
  assert (Ho : 0 <= o) by (apply (zsum_take_mono exts 0 pid exts_nonneg); lia).
  assert (Hns : 0 <= zsum (take pid news)) by (apply (zsum_take_mono news 0 pid news_nonneg); lia).
  unfold alloc_extend_kernel. cbv zeta.
  rewrite (masked_sum Z.sub exts) by (done || lia || (intros i' s' p' H1 H2; unfold exts; by rewrite lookup_zip_with, H1, H2)
    || (unfold exts; rewrite length_zip_with, (bo_seq Hok); lia)).
  rewrite (masked_sum (fun s p => pages_of s ps - pages_of p ps) news)
    by (done || lia || (intros i' s' p' H1 H2; unfold news; by rewrite lookup_zip_with, H1, H2)
    || (unfold news; rewrite length_zip_with, (bo_seq Hok); lia)).
  rewrite (zsum_take_S _ _ _ Hex), (zsum_take_S _ _ _ Hnw).
  rewrite !(tl_load_tget _ (Z.of_nat pid)), (tget_lookup_Some _ _ _ Hex), Tp, Ts by lia.
  fold o. replace (o + (s - p) - (s - p)) with o by lia.
  set (ns := zsum (take pid news)) in *.
  replace (ns + (pages_of s ps - pages_of p ps) - (pages_of s ps - pages_of p ps)) with ns by lia.
  pose proof (pages_of_bounds p ps Hps) as HP. pose proof (div_bounds s ps Hps) as HQ.
  assert (Hpart2 : forall off, 0 <= off -> slot_ref (Z.of_nat pid) (pages_of p ps * ps + off) =
             tget free (ns + off / ps) * ps + off mod ps).
  { intros off Hoff. rewrite (slot_ref_part2 _ p) by done. by rewrite Nat2Z.id. }
  assert (Hpart1 : forall l, 0 <= l -> l < pages_of p ps * ps - p ->
             slot_ref (Z.of_nat pid) (p + l) = tget last_locs (Z.of_nat pid) + 1 + l)
    by (intros; by apply slot_ref_part1).
  destruct (Z.le_gt_cases s (pages_of p ps * ps)) as [Hs|Hs].
  { rewrite Z.min_l by lia. replace (p + (s - p)) with s by lia. rewrite Z.eqb_refl.
    rewrite tl_store_block by lia. destruct (_ && _) eqn:E; [|done]. f_equal. rewrite Hpart1; bool_lia. }
  rewrite Z.min_r by lia.
  destruct (Z.eqb_spec (p + (pages_of p ps * ps - p)) s) as [|_]; [lia|].
  set (num1 := pages_of p ps * ps - p) in *. set (num2 := s / ps * ps - pages_of p ps * ps).
  assert (HPQ : pages_of p ps <= s / ps) by nia. assert (Hn2 : 0 <= num2) by (unfold num2; nia).
  set (out1 := tl_store out _ _ _ _).
  assert (H1 : out1 !! i = if (o <=? Z.of_nat i) && (Z.of_nat i <? o + num1)
     then Some (slot_ref (Z.of_nat pid) (p + (Z.of_nat i - o))) else out !! i).
  { unfold out1. rewrite tl_store_block by (unfold num1; lia).
    destruct (_ && _) eqn:E; [|done]. f_equal. rewrite Hpart1; unfold num1 in *; bool_lia. }
  assert (Hl1 : length out1 = length out) by apply tl_store_length.
  set (out2 := tl_blocks out1 _ _ _ _).
  assert (H2 : out2 !! i = if (o <=? Z.of_nat i) && (Z.of_nat i <? o + num1 + num2)
     then Some (slot_ref (Z.of_nat pid) (p + (Z.of_nat i - o))) else out !! i).
  { unfold out2. rewrite tl_blocks_lookup, H1 by (unfold num1; lia).
    destruct (Z.leb_spec (o + num1) (Z.of_nat i)), (Z.ltb_spec (Z.of_nat i) (o + num1 + num2)),
      (Z.leb_spec o (Z.of_nat i)), (Z.ltb_spec (Z.of_nat i) (o + num1)); simpl; try done; try (unfold num1 in *; lia).
    set (off := Z.of_nat i - (o + num1)). assert (0 <= off / ps) by (apply Z.div_pos; lia).
    rewrite tl_load_tget by lia. f_equal.
    replace (p + (Z.of_nat i - o)) with (pages_of p ps * ps + off) by (unfold off, num1; lia).
    rewrite Hpart2 by (unfold off; lia). done. }
  assert (Hl2 : length out2 = length out) by (unfold out2; by rewrite tl_blocks_length).
  destruct (Z.eqb_spec (p + num1 + num2) s) as [Hs2|Hs2].
  { rewrite H2. replace (o + num1 + num2) with (o + (s - p)) by lia. done. }
  destruct (pages_of_div s ps Hps) as [[? ?]|[Hlt Hq]]; [unfold num1, num2 in *; lia|].
  rewrite tl_store_block, H2 by (unfold num1, num2 in *; lia).
  destruct (Z.leb_spec (o + num1 + num2) (Z.of_nat i)), (Z.ltb_spec (Z.of_nat i) (o + (s - p))),
      (Z.leb_spec o (Z.of_nat i)), (Z.ltb_spec (Z.of_nat i) (o + num1 + num2)),
      (Z.ltb_spec (Z.of_nat i) (o + num1 + num2 + (s - s / ps * ps))); simpl; try done; try (unfold num1, num2 in *; lia).
  f_equal. set (l := Z.of_nat i - (o + num1 + num2)).
  replace (p + (Z.of_nat i - o)) with (pages_of p ps * ps + (num2 + l)) by (unfold l, num1; lia).
  rewrite Hpart2 by (unfold l; lia). rewrite tl_load_tget by lia.
  replace (num2 + l) with ((s / ps - pages_of p ps) * ps + l) by (unfold num2; lia).
  assert (0 <= l < ps) by (unfold l, num1, num2 in *; lia).
  replace (((s / ps - pages_of p ps) * ps + l) / ps) with (s / ps - pages_of p ps)
    by (rewrite Z.div_add_l, (Z.div_small l ps) by lia; lia).
  replace (((s / ps - pages_of p ps) * ps + l) mod ps) with l
    by (rewrite Z.add_comm, Z.mod_add, Z.mod_small by lia; done).
  do 3 f_equal. lia.
Qed.
End extend.

(** ** Stores as slice assignments *)

Lemma tl_store_put out w base val n :
  0 <= base -> 0 <= n <= w ->
  tl_store out (tl_arange w) (fun l => base + l) val (fun l => l <? n) =
  put_slice out base (map val (seqZ 0 n)).
Proof.
  intros Hb Hn. apply list_eq. intros i.
  destruct (decide (i < length out)%nat) as [Hi|Hi].
  - rewrite tl_store_block, put_slice_lookup by (done || lia).
    unfold zlen. rewrite length_map, length_seqZ, Z2Nat.id by lia.
    destruct (_ && _) eqn:E; [|done]. rewrite list_lookup_fmap, lookup_seqZ_lt by bool_lia.
    simpl. do 2 f_equal. bool_lia.
  - rewrite !(proj2 (lookup_ge_None _ _)); [done|rewrite put_slice_length; lia|rewrite tl_store_length; lia].
Qed.

Lemma tl_blocks_put out B n base val :
  0 < B -> 0 <= base -> 0 <= n ->
  tl_blocks out B n base val = put_slice out base (map val (seqZ 0 n)).
Proof.
  intros HB Hb Hn. apply list_eq. intros i.
  destruct (decide (i < length out)%nat) as [Hi|Hi].
  - rewrite tl_blocks_lookup, put_slice_lookup by (done || lia).
    unfold zlen. rewrite length_map, length_seqZ, Z2Nat.id by lia.
    destruct (_ && _) eqn:E; [|done]. rewrite list_lookup_fmap, lookup_seqZ_lt by bool_lia.
    simpl. do 2 f_equal. bool_lia.
  - rewrite !(proj2 (lookup_ge_None _ _)); [done|rewrite put_slice_length; lia|rewrite tl_blocks_length; lia].
Qed.

Lemma put_slice_nil out a : put_slice out a [] = out.
Proof. done. Qed.

(** The slots of a list of pages. *)
Lemma page_block_slots ps pages :
  0 < ps ->
  concat (map (fun p => map (fun j => p * ps + j) (seqZ 0 ps)) pages) =
  map (fun off => tget pages (off / ps) * ps + off mod ps) (seqZ 0 (zlen pages * ps)).
Proof.
  intros Hps. induction pages as [|p pages IH]; [done|]. cbn [map concat]. rewrite IH, zlen_cons.
  pose proof (zlen_nonneg pages).
  replace ((1 + zlen pages) * ps) with (ps + zlen pages * ps) by lia.
  rewrite seqZ_app, map_app by lia. f_equal.
  - apply map_ext_in. intros j Hj%list_elem_of_In. apply elem_of_seqZ in Hj.
    rewrite Z.div_small, Z.mod_small by lia. done.
  - apply list_eq. intros i. rewrite !list_lookup_fmap.
    destruct (decide (Z.of_nat i < zlen pages * ps)) as [Hi|Hi].
    + rewrite !lookup_seqZ_lt by lia. simpl. f_equal.
      replace (0 + ps + Z.of_nat i) with (1 * ps + Z.of_nat i) by lia. rewrite Z.add_0_l.
      rewrite Z.div_add_l by lia. replace ((1 * ps + Z.of_nat i) mod ps) with (Z.of_nat i mod ps)
        by (rewrite (Z.add_comm (1 * ps)), Z.mod_add by lia; done).
      f_equal. f_equal. unfold tget. assert (0 <= Z.of_nat i / ps) by (apply Z.div_pos; lia).
      replace (Z.to_nat (1 + Z.of_nat i / ps)) with (S (Z.to_nat (Z.of_nat i / ps))) by lia. done.
    + rewrite !lookup_seqZ_ge by lia. done.
Qed.

Lemma cumsum_tget l i x : l !! i = Some x -> tget (cumsum l) (Z.of_nat i) = zsum (take i l) + x.
Proof.
  intros H. rewrite <- (zsum_take_S _ _ _ H). apply tget_lookup_Some.
  unfold cumsum. rewrite cumsum_from_lookup by (by eapply lookup_lt_Some). done.
Qed.

Lemma start_tget l i x : l !! i = Some x ->
  tget (zip_with Z.sub (cumsum l) l) (Z.of_nat i) = zsum (take i l).
Proof.
  intros H. assert (Hi : (i < length l)%nat) by (by eapply lookup_lt_Some).
  apply tget_lookup_Some. rewrite lookup_zip_with. unfold cumsum. rewrite cumsum_from_lookup, H by done.
  simpl. rewrite (zsum_take_S _ _ _ H). f_equal. lia.
Qed.

Lemma slice_to_arange ps n : 0 <= n <= ps -> slice_to (tl_arange ps) n = seqZ 0 n.
Proof.
  intros Hn. rewrite slice_to_take by lia. unfold tl_arange.
  replace ps with (n + (ps - n)) by lia. rewrite seqZ_app by lia.
  rewrite take_app_length'; [done|]. rewrite length_seqZ. lia.
Qed.

Section naive.
Context (pre_lens seq_lens last_locs free : list Z) (ps : Z).
Context (Hok : batch_ok pre_lens seq_lens last_locs ps).
Context (Hpages : zsum (news pre_lens seq_lens ps) <= zlen free).

(** With enough free pages one iteration of the reference loop does what one
    program of the kernel does. *)
Lemma naive_step_kernel undef n out pid :
  (pid < length pre_lens)%nat -> Z.of_nat (length pre_lens) <= n ->
  naive_step pre_lens seq_lens last_locs free ps out (Z.of_nat pid) =
  Ok (alloc_extend_kernel undef pre_lens seq_lens last_locs free n ps out (Z.of_nat pid)).
Proof.
  intros Hp Hn. pose proof (bo_ps _ _ _ _ Hok) as Hps.
  destruct (lens_lookup _ _ _ _ Hok pid Hp) as (p & s & Hpi & Hsi & Hle & Hex & Hnw & Tp & Ts).
  set (ns := zsum (take pid (news pre_lens seq_lens ps))).
  set (o := zsum (take pid (exts pre_lens seq_lens))).
  assert (Ho : 0 <= o) by (apply (zsum_take_mono _ 0 pid (exts_nonneg _ _ _ _ Hok)); lia).
  assert (Hns : 0 <= ns) by (apply (zsum_take_mono _ 0 pid (news_nonneg _ _ _ _ Hok)); lia).
  assert (Htot : ns + (pages_of s ps - pages_of p ps) <= zlen free).
  { unfold ns. rewrite <- (zsum_take_S _ _ _ Hnw). etransitivity; [|exact Hpages].
    rewrite <- (take_ge (news pre_lens seq_lens ps) (length (news pre_lens seq_lens ps))) at 2 by lia.
    apply zsum_take_mono; [apply (news_nonneg _ _ _ _ Hok)|]. by apply lookup_lt_Some in Hnw. }
  unfold naive_step, alloc_extend_kernel. cbv zeta.
  rewrite (masked_sum _ _ _ _ Hok Z.sub (exts pre_lens seq_lens)) by (done || lia || (intros i' s' p' H1 H2; unfold exts; by rewrite lookup_zip_with, H1, H2)
    || (unfold exts; rewrite length_zip_with, (bo_seq _ _ _ _ Hok); lia)).
  rewrite (masked_sum _ _ _ _ Hok (fun s p => pages_of s ps - pages_of p ps) (news pre_lens seq_lens ps))
    by (done || lia || (intros i' s' p' H1 H2; unfold news; by rewrite lookup_zip_with, H1, H2)
    || (unfold news; rewrite length_zip_with, (bo_seq _ _ _ _ Hok); lia)).
  fold (exts pre_lens seq_lens). fold (news pre_lens seq_lens ps).
  rewrite (start_tget _ _ _ Hex), (cumsum_tget _ _ _ Hex), (start_tget _ _ _ Hnw), (cumsum_tget _ _ _ Hnw).
  rewrite (zsum_take_S _ _ _ Hex), (zsum_take_S _ _ _ Hnw).
  rewrite !(tl_load_tget _ (Z.of_nat pid)), Tp, Ts by lia. fold o ns.
  assert (Hneed : tget (zip_with Z.sub (news pre_lens seq_lens ps)
      (zip_with (fun s p => s / ps - pages_of p ps) seq_lens pre_lens)) (Z.of_nat pid) =
      pages_of s ps - pages_of p ps - (s / ps - pages_of p ps)).
  { apply tget_lookup_Some. rewrite lookup_zip_with, Hnw, lookup_zip_with, Hsi, Hpi. done. }
  rewrite Hneed. replace (o + (s - p) - (s - p)) with o by lia.
  replace (ns + (pages_of s ps - pages_of p ps) - (pages_of s ps - pages_of p ps)) with ns by lia.
  replace (ns + (pages_of s ps - pages_of p ps) - (pages_of s ps - pages_of p ps - (s / ps - pages_of p ps)))
    with (ns + (s / ps - pages_of p ps)) by lia.
  pose proof (pages_of_bounds p ps Hps) as HP. pose proof (div_bounds s ps Hps) as HQ.
  set (num1 := Z.min s (pages_of p ps * ps) - p).
  assert (Hn1 : 0 <= num1 <= ps) by (unfold num1; lia).
  rewrite (tl_store_put out ps o _ num1) by lia. rewrite slice_to_arange by lia.
  set (out1 := put_slice out o _).
  replace (if num1 =? 0 then out else out1) with out1
    by (destruct (Z.eqb_spec num1 0) as [E|]; [unfold out1; rewrite E; done|done]).
  destruct (Z.eqb_spec (p + num1) s) as [|Hs]; [done|].
  assert (Hs' : pages_of p ps * ps < s) by (unfold num1 in *; lia).
  assert (HPQ : 0 <= s / ps - pages_of p ps) by nia.
  replace (s / ps * ps - pages_of p ps * ps) with ((s / ps - pages_of p ps) * ps) by lia.
  set (full := s / ps - pages_of p ps) in *.
  assert (Hfull : 0 <= full * ps) by nia.
  assert (Hge : full <= pages_of s ps - pages_of p ps).
  { unfold full. destruct (pages_of_div s ps Hps); lia. }
  rewrite (tl_blocks_put out1 4096 (full * ps)) by lia.
  assert (Hsl : py_slice free ns (ns + full) = take (Z.to_nat full) (drop (Z.to_nat ns) free)).
  { unfold py_slice, py_bound. destruct (Z.ltb_spec ns 0); [lia|]. destruct (Z.ltb_spec (ns + full) 0); [lia|].
    rewrite !Z.min_l by lia. do 2 f_equal. lia. }
  assert (Hlen : zlen (take (Z.to_nat full) (drop (Z.to_nat ns) free)) = full).
  { apply zlen_take. rewrite zlen_drop by lia. lia. }
  rewrite Hsl. change (tl_arange ps) with (seqZ 0 ps). rewrite page_block_slots, Hlen by done.
  set (v2 := map _ (seqZ 0 (full * ps))). set (v2' := map _ (seqZ 0 (full * ps))).
  assert (Hv : v2 = v2').
  { unfold v2, v2'. apply map_ext_in. intros off Hoff%list_elem_of_In. apply elem_of_seqZ in Hoff.
    assert (0 <= off / ps < full) by (split; [apply Z.div_pos; lia|apply Z.div_lt_upper_bound; lia]).
    rewrite tl_load_tget by lia. do 2 f_equal. unfold tget.
    rewrite !list_lookup_total_alt, lookup_take, decide_True, lookup_drop by lia. do 2 f_equal. lia. }
  assert (Hz : (zlen v2 =? full * ps) = true).
  { apply Z.eqb_eq. unfold v2, zlen. rewrite length_map, length_seqZ. lia. }
  rewrite Hz, Hv. set (out2 := put_slice out1 _ v2').
  replace (if full * ps =? 0 then Ok out1 else Ok out2) with (Ok out2).
  2:{ destruct (Z.eqb_spec (full * ps) 0) as [E|]; [|done]. unfold out2, v2'. by rewrite E. }
  simpl. destruct (Z.eqb_spec (p + num1 + full * ps) s) as [|Hs2]; [done|].
  assert (E1 : num1 = pages_of p ps * ps - p) by (unfold num1; lia).
  destruct (pages_of_div s ps Hps) as [[Hq1 Hq2]|[Hlt Hq]]; [unfold full in *; lia|].
  destruct (Z.eqb_spec (s - s / ps * ps) 0) as [|Hn3]; [lia|].
  assert (Hidx : 0 <= ns + (pages_of s ps - pages_of p ps) - 1 < zlen free) by (unfold full in *; lia).
  unfold py_get. destruct (Z.ltb_spec (ns + (pages_of s ps - pages_of p ps) - 1) 0); [lia|].
  destruct (Z.ltb_spec (ns + (pages_of s ps - pages_of p ps) - 1) 0); [lia|].
  destruct (lookup_lt_is_Some_2 free (Z.to_nat (ns + (pages_of s ps - pages_of p ps) - 1))) as [pg Hpg];
    [unfold zlen in Hidx; lia|].
  rewrite Hpg. simpl. f_equal. rewrite tl_store_put by lia. rewrite slice_to_arange by lia.
  f_equal; [unfold full in *; lia|]. apply map_ext. intros j. rewrite tl_load_tget by lia.
  unfold tget. by rewrite list_lookup_total_alt, Hpg.
Qed.
End naive.

(** ** The whole batch *)

Lemma zsum_locate (l : list Z) (i : Z) :
  Forall (fun x => 0 <= x) l -> 0 <= i < zsum l ->
  exists k x, l !! k = Some x /\ zsum (take k l) <= i < zsum (take k l) + x.
Proof.
  intros Hl. revert i. induction Hl as [|x l Hx Hl IH]; intros i Hi.
  - unfold zsum in Hi. simpl in Hi. lia.
  - unfold zsum in Hi. cbn [foldr] in Hi. fold (zsum l) in Hi. destruct (Z.lt_ge_cases i x) as [Hlt|Hge].
    + exists 0%nat, x. unfold zsum. simpl. split; [done|lia].
    + destruct (IH (i - x)) as (k & y & Hk & Hb); [lia|]. exists (S k), y. split; [done|].
      cbn [take]. unfold zsum at 1 2. cbn [foldr]. fold (zsum (take k l)). lia.
Qed.

Lemma zsum_locate_unique (l : list Z) j k x y (i : Z) :
  Forall (fun x => 0 <= x) l -> l !! j = Some x -> l !! k = Some y ->
  zsum (take j l) <= i < zsum (take j l) + x -> zsum (take k l) <= i < zsum (take k l) + y -> j = k.
Proof.
  intros Hl Hj Hk Bj Bk. destruct (Nat.lt_trichotomy j k) as [H|[H|H]]; [|done|].
  - pose proof (zsum_take_mono l (S j) k Hl H). rewrite (zsum_take_S _ _ _ Hj) in *. lia.
  - pose proof (zsum_take_mono l (S k) j Hl H). rewrite (zsum_take_S _ _ _ Hk) in *. lia.
Qed.

Lemma concat_lookup {A} (ls : list (list A)) k l j x :
  ls !! k = Some l -> l !! j = Some x ->
  concat ls !! (length (concat (take k ls)) + j)%nat = Some x.
Proof.
  intros Hk Hj. rewrite <- (take_drop_middle _ _ _ Hk) at 2. rewrite concat_app.
  rewrite lookup_app_r by lia. replace (_ + j - _)%nat with j by lia. simpl.
  rewrite lookup_app_l by (by eapply lookup_lt_Some). done.
Qed.

Lemma next_power_of_2_ge n : 0 <= n -> n <= next_power_of_2 n.
Proof.
  intros Hn. unfold next_power_of_2. destruct (Z.ltb_spec 0 n); [|lia].
  destruct (Z.eqb_spec (n - 1) 0) as [E|E]; [rewrite Z.shiftl_0_r; lia|].
  rewrite Z.shiftl_1_l. destruct (Z.log2_spec (n - 1)) as [_ H2]; [lia|].
  replace (Z.log2 (n - 1) + 1) with (Z.succ (Z.log2 (n - 1))) by lia. lia.
Qed.

Section batch.
Context (pre_lens seq_lens last_locs free : list Z) (ps : Z).
Context (Hok : batch_ok pre_lens seq_lens last_locs ps).
#[local] Abbreviation bexts := (exts pre_lens seq_lens).
#[local] Abbreviation bnews := (news pre_lens seq_lens ps).
#[local] Abbreviation bslot := (slot_ref pre_lens seq_lens last_locs free ps).
#[local] Abbreviation bref := (extend_ref pre_lens seq_lens last_locs free ps).

Lemma exts_length : length bexts = length pre_lens.
Proof. unfold exts. rewrite length_zip_with, (bo_seq _ _ _ _ Hok). lia. Qed.

Lemma exts_tget k x : bexts !! k = Some x -> tget bexts (Z.of_nat k) = x /\ 0 <= x.
Proof.
  intros H. split; [by apply tget_lookup_Some|].
  eapply (Forall_lookup_1 _ _ _ _ (exts_nonneg _ _ _ _ Hok) H).
Qed.

Definition req_slots (pid : Z) : list Z := map (bslot pid) (seqZ (tget pre_lens pid) (tget bexts pid)).

Lemma req_slots_prefix k :
  (k <= length pre_lens)%nat ->
  zlen (concat (take k (map req_slots (seqZ 0 (zlen pre_lens))))) = zsum (take k bexts).
Proof.
  induction k as [|k IH]; intros Hk; [done|].
  destruct (lookup_lt_is_Some_2 bexts k) as [x Hx]; [rewrite exts_length; lia|].
  rewrite (zsum_take_S _ _ _ Hx), <- IH by lia.
  erewrite take_S_r; [|rewrite list_lookup_fmap, lookup_seqZ_lt by (unfold zlen; lia); done].
  rewrite concat_app, zlen_app. simpl. rewrite app_nil_r. unfold req_slots at 2.
  rewrite Z.add_0_l.
  unfold zlen at 3. rewrite length_map, length_seqZ. destruct (exts_tget k x Hx) as [-> ?]. lia.
Qed.

Lemma extend_ref_length : zlen bref = zsum bexts.
Proof.
  transitivity (zlen (concat (take (length pre_lens) (map req_slots (seqZ 0 (zlen pre_lens)))))).
  - rewrite take_ge; [done|]. rewrite length_map, length_seqZ. unfold zlen. lia.
  - rewrite req_slots_prefix by lia. rewrite <- exts_length. by rewrite take_ge.
Qed.

Lemma extend_ref_lookup k x i :
  bexts !! k = Some x -> zsum (take k bexts) <= Z.of_nat i < zsum (take k bexts) + x ->
  bref !! i = Some (bslot (Z.of_nat k) (tget pre_lens (Z.of_nat k) + (Z.of_nat i - zsum (take k bexts)))).
Proof.
  intros Hx Hi. assert (Hk : (k < length pre_lens)%nat) by (rewrite <- exts_length; by eapply lookup_lt_Some).
  destruct (exts_tget k x Hx) as [Tx _].
  pose proof (req_slots_prefix k) as Hpre. unfold zlen at 1 in Hpre.
  set (ls := map req_slots (seqZ 0 (zlen pre_lens))) in *.
  assert (Hl : ls !! k = Some (req_slots (Z.of_nat k))).
  { unfold ls. rewrite list_lookup_fmap, lookup_seqZ_lt by (unfold zlen; lia). done. }
  change bref with (concat ls).
  replace i with (length (concat (take k ls)) + (i - length (concat (take k ls))))%nat by lia.
  eapply concat_lookup; [done|]. unfold req_slots.
  rewrite list_lookup_fmap, lookup_seqZ_lt by lia. simpl. do 2 f_equal. lia.
Qed.

(** Any program order of the launch produces the reference slots. *)
Lemma launch_extend undef n order out :
  Z.of_nat (length pre_lens) <= n -> order ≡ₚ seqZ 0 (zlen pre_lens) -> zlen out = zsum bexts ->
  launch (alloc_extend_kernel undef pre_lens seq_lens last_locs free n ps) order out = bref.
Proof.
  intros Hn Hord Hlen. apply list_eq. intros i.
  set (prog := alloc_extend_kernel undef pre_lens seq_lens last_locs free n ps).
  assert (Hpl : forall o p, length (prog o p) = length o).
  { intros o p. unfold prog, alloc_extend_kernel. cbv zeta.
    destruct (_ =? _); [apply tl_store_length|].
    destruct (_ =? _); by rewrite ?tl_store_length, tl_blocks_length, tl_store_length. }
  destruct (decide (i < length out)%nat) as [Hi|Hi].
  2:{ rewrite !(proj2 (lookup_ge_None _ _)); [done| |rewrite launch_length; [lia|done]].
      pose proof extend_ref_length as He. unfold zlen in *. lia. }
  destruct (zsum_locate bexts (Z.of_nat i) (exts_nonneg _ _ _ _ Hok)) as (k & x & Hk & Hb); [unfold zlen in Hlen; lia|].
  rewrite (extend_ref_lookup k x i Hk Hb).
  assert (Hin : forall p, p ∈ order -> exists j, p = Z.of_nat j /\ (j < length pre_lens)%nat).
  { intros p Hp. rewrite Hord in Hp. apply elem_of_seqZ in Hp. exists (Z.to_nat p). unfold zlen in Hp. lia. }
  assert (Hkl : (k < length pre_lens)%nat) by (rewrite <- exts_length; by eapply lookup_lt_Some).
  destruct (launch_lookup prog (fun p j => p = Z.of_nat k)
    (fun _ => bslot (Z.of_nat k) (tget pre_lens (Z.of_nat k) + (Z.of_nat i - zsum (take k bexts))))
    order out i) as [H1 _]; try done.
  - intros o p _ Hio ->. unfold prog. rewrite alloc_extend_kernel_lookup by done.
    destruct (exts_tget k x Hk) as [-> _]. destruct (_ && _) eqn:E; [done|]. bool_lia.
  - intros o p Hp Hio Hne. destruct (Hin p Hp) as (j & -> & Hj). unfold prog.
    rewrite alloc_extend_kernel_lookup by done.
    destruct (lookup_lt_is_Some_2 bexts j) as [y Hy]; [rewrite exts_length; done|].
    destruct (exts_tget j y Hy) as [-> _]. destruct (_ && _) eqn:E; [|done].
    exfalso. apply Hne. f_equal. eapply (zsum_locate_unique bexts _ _ y x (Z.of_nat i)); try done; [apply (exts_nonneg _ _ _ _ Hok)|bool_lia].
  - intros p. destruct (Z.eq_dec p (Z.of_nat k)); tauto.
  - apply H1. exists (Z.of_nat k). split; [|done]. rewrite Hord. apply elem_of_seqZ. unfold zlen. lia.
Qed.

Lemma naive_launch undef n out :
  Z.of_nat (length pre_lens) <= n -> zsum bnews <= zlen free ->
  alloc_extend_naive pre_lens seq_lens last_locs free out ps =
  Ok (launch (alloc_extend_kernel undef pre_lens seq_lens last_locs free n ps) (seqZ 0 (zlen pre_lens)) out).
Proof.
  intros Hn Hp. unfold alloc_extend_naive, arange, launch. rewrite Z.sub_0_r.
  assert (Hall : forall p, p ∈ seqZ 0 (zlen pre_lens) -> exists j, p = Z.of_nat j /\ (j < length pre_lens)%nat).
  { intros p Hin%elem_of_seqZ. exists (Z.to_nat p). unfold zlen in Hin. lia. }
  revert out Hall. generalize (seqZ 0 (zlen pre_lens)). intros l.
  induction l as [|p l IH]; intros out Hall; [done|]. cbn [rfold foldl].
  destruct (Hall p) as (j & -> & Hj); [by left|].
  rewrite (naive_step_kernel _ _ _ _ _ Hok Hp undef n) by done. cbn [rbind]. apply IH.
  intros q Hq. apply Hall. by right.
Qed.
End batch.

(** ** Decode is the one-token case of extend *)

Section decode.
Context (seq_lens last_locs free : list Z) (ps : Z).
Context (Hps : 1 < ps) (Hlast : length last_locs = length seq_lens)
  (Hpos : Forall (fun s => 1 <= s) seq_lens).
#[local] Abbreviation dpre := (map Z.pred seq_lens).

Lemma decode_batch_ok : batch_ok dpre seq_lens last_locs ps.
Proof.
  split; rewrite ?length_map; try done; [lia|]. intros i p s Hp Hs.
  rewrite list_lookup_fmap, Hs in Hp. injection Hp as <-.
  pose proof (Forall_lookup_1 _ _ _ _ Hpos Hs) as H1. simpl in H1. lia.
Qed.

Lemma decode_exts k : (k < length seq_lens)%nat -> exts dpre seq_lens !! k = Some 1.
Proof.
  intros Hk. destruct (lookup_lt_is_Some_2 seq_lens k Hk) as [s Hs].
  unfold exts. rewrite lookup_zip_with, list_lookup_fmap, Hs. simpl. f_equal. lia.
Qed.

Lemma decode_exts_sum k : (k <= length seq_lens)%nat -> zsum (take k (exts dpre seq_lens)) = Z.of_nat k.
Proof.
  induction k as [|k IH]; intros Hk; [done|].
  rewrite (zsum_take_S _ _ _ (decode_exts k ltac:(lia))), IH by lia. lia.
Qed.

(** A new page starts exactly when the new last position is the first of a page. *)
Lemma decode_new_page s :
  1 <= s -> pages_of s ps - pages_of (s - 1) ps = b2z (s mod ps =? 1) /\
  (s mod ps = 1 -> pages_of (s - 1) ps * ps = s - 1) /\
  (s mod ps <> 1 -> s - 1 < pages_of (s - 1) ps * ps).
Proof using Hps.
  clear Hlast Hpos.
  intros Hs. unfold pages_of. rewrite (Z.mod_eq s ps) by lia.
  pose proof (div_bounds s ps ltac:(lia)) as HQ. set (q := s / ps) in *.
  assert (E1 : (s + ps - 1) / ps = if s =? q * ps then q else q + 1).
  { destruct (Z.eqb_spec s (q * ps)); symmetry; apply Z.div_unique with (r := s + ps - 1 - ps * (if s =? q * ps then q else q + 1)); bool_lia. }
  assert (E2 : (s - 1 + ps - 1) / ps = if s - 1 <=? q * ps then q else q + 1).
  { destruct (Z.leb_spec (s - 1) (q * ps)); symmetry; apply Z.div_unique with (r := s - 1 + ps - 1 - ps * (if s - 1 <=? q * ps then q else q + 1)); bool_lia. }
  rewrite E1, E2. split; [|split].
  - destruct (Z.eqb_spec s (q * ps)), (Z.leb_spec (s - 1) (q * ps)), (Z.eqb_spec (s - ps * q) 1); simpl; lia.
  - intros H. destruct (Z.leb_spec (s - 1) (q * ps)); lia.
  - intros H. destruct (Z.leb_spec (s - 1) (q * ps)); nia.
Qed.

Lemma alloc_decode_kernel_eq undef n out pid :
  (pid < length seq_lens)%nat -> Z.of_nat (length seq_lens) <= n ->
  length out = length seq_lens ->
  alloc_decode_kernel undef seq_lens last_locs free n ps out (Z.of_nat pid) =
  alloc_extend_kernel undef dpre seq_lens last_locs free n ps out (Z.of_nat pid).
Proof.
  intros Hp Hn Hout. pose proof decode_batch_ok as Hok.
  assert (Hp' : (pid < length dpre)%nat) by (rewrite length_map; done).
  apply list_eq. intros i. destruct (decide (i < length out)%nat) as [Hi|Hi].
  2:{ rewrite !(proj2 (lookup_ge_None _ _)); [done| |].
      - unfold alloc_extend_kernel. cbv zeta. destruct (_ =? _); [rewrite tl_store_length; lia|].
        destruct (_ =? _); rewrite ?tl_store_length, tl_blocks_length, tl_store_length; lia.
      - unfold alloc_decode_kernel. cbv zeta. destruct (_ =? _); rewrite set_at_length; lia. }
  rewrite (alloc_extend_kernel_lookup _ _ _ _ _ Hok) by (rewrite ?length_map; done).
  destruct (lens_lookup _ _ _ _ Hok pid Hp') as (p & s & Hpi & Hsi & Hle & Hex & Hnw & Tp & Ts).
  rewrite decode_exts_sum, (tget_lookup_Some _ _ _ Hex), Tp by lia.
  assert (Hps1 : p = s - 1).
  { rewrite list_lookup_fmap, Hsi in Hpi. injection Hpi as <-. lia. }
  pose proof (Forall_lookup_1 _ _ _ _ Hpos Hsi) as Hs1. simpl in Hs1.
  destruct (decode_new_page s Hs1) as (D1 & D2 & D3).
  assert (Hns : 0 <= zsum (take pid (news dpre seq_lens ps)))
    by (apply (zsum_take_mono _ 0 pid (news_nonneg _ _ _ _ Hok)); lia).
  unfold alloc_decode_kernel. cbv zeta.
  assert (Hsum : tl_sum (map (fun l => pages_of (tl_load_masked undef seq_lens (l <=? Z.of_nat pid) l) ps -
      pages_of (if l <=? Z.of_nat pid then tl_load_masked undef seq_lens (l <=? Z.of_nat pid) l - 1
                else tl_load_masked undef seq_lens (l <=? Z.of_nat pid) l) ps) (tl_arange n)) =
      zsum (take (S pid) (news dpre seq_lens ps))).
  { rewrite <- (masked_sum dpre seq_lens last_locs ps Hok (fun s p => pages_of s ps - pages_of p ps) (news dpre seq_lens ps) undef n pid)
      by (done || lia || (rewrite ?length_map; done) || (intros i' s' p' H1 H2; unfold news; by rewrite lookup_zip_with, H1, H2)
      || (unfold news; rewrite length_zip_with, !length_map; lia)).
    f_equal. apply map_ext_in. intros l Hl%list_elem_of_In. apply elem_of_seqZ in Hl.
    destruct (Z.leb_spec l (Z.of_nat pid)); [|done]. do 2 f_equal.
    destruct (lookup_lt_is_Some_2 seq_lens (Z.to_nat l)) as [y Hy]; [lia|].
    unfold tl_load_masked. rewrite !tl_load_tget by lia. unfold tget.
    rewrite !list_lookup_total_alt, list_lookup_fmap, Hy. simpl. lia. }
  rewrite Hsum, (zsum_take_S _ _ _ Hnw), !(tl_load_tget _ (Z.of_nat pid)), Ts by lia. rewrite <- Hps1.
  replace (zsum (take pid (news dpre seq_lens ps)) + (pages_of s ps - pages_of p ps) - (pages_of s ps - pages_of p ps))
    with (zsum (take pid (news dpre seq_lens ps))) by lia.
  rewrite <- Hps1 in D1, D2, D3.
  assert (Hset : forall v, set_at out (Z.of_nat pid) v !! i =
    if (Z.of_nat pid <=? Z.of_nat i) && (Z.of_nat i <? Z.of_nat pid + (s - p)) then Some v else out !! i).
  { intros v. rewrite set_at_lookup by lia. destruct (lookup_lt_is_Some_2 out i Hi) as [y Hy]. rewrite Hy. simpl.
    destruct (Z.eqb_spec (Z.of_nat i) (Z.of_nat pid)), (Z.leb_spec (Z.of_nat pid) (Z.of_nat i)),
      (Z.ltb_spec (Z.of_nat i) (Z.of_nat pid + (s - p))); simpl; try done; lia. }
  unfold slot_ref. rewrite Tp, Nat2Z.id.
  rewrite D1. destruct (Z.eqb_spec (s mod ps) 1) as [Em|Em]; simpl; rewrite Hset; destruct (_ && _) eqn:E; try done; f_equal;
    replace (p + (Z.of_nat i - Z.of_nat pid)) with p by bool_lia.
  - specialize (D2 Em). destruct (Z.ltb_spec p (pages_of p ps * ps)); [lia|].
    assert (Ediv : p / ps = pages_of p ps) by (symmetry; apply (Z.div_unique p ps _ 0); lia).
    assert (Emod : p mod ps = 0) by (symmetry; apply (Z.mod_unique p ps (pages_of p ps) 0); lia).
    rewrite tl_load_tget by lia. by rewrite Ediv, Emod, Z.sub_diag, !Z.add_0_r.
  - specialize (D3 Em). destruct (Z.ltb_spec p (pages_of p ps * ps)); lia.
Qed.

Lemma launch_decode undef n order out :
  Z.of_nat (length seq_lens) <= n -> order ≡ₚ seqZ 0 (zlen seq_lens) -> zlen out = zlen seq_lens ->
  launch (alloc_decode_kernel undef seq_lens last_locs free n ps) order out =
  extend_ref dpre seq_lens last_locs free ps.
Proof.
  intros Hn Hord Hlen.
  rewrite <- (launch_extend _ _ _ free _ decode_batch_ok undef n order out).
  - assert (Hin : forall p, p ∈ order -> exists j, p = Z.of_nat j /\ (j < length seq_lens)%nat).
    { intros p Hp. rewrite Hord in Hp. apply elem_of_seqZ in Hp. exists (Z.to_nat p). unfold zlen in Hp. lia. }
    assert (Hl : length out = length seq_lens) by (unfold zlen in Hlen; lia).
    clear Hord Hlen. unfold launch. revert out Hl Hin. induction order as [|p order IH]; intros out Hl Hin; [done|].
    simpl. destruct (Hin p) as (j & -> & Hj); [by left|].
    rewrite alloc_decode_kernel_eq by done. apply IH; [|set_solver].
    rewrite <- alloc_decode_kernel_eq by done. unfold alloc_decode_kernel. cbv zeta.
    destruct (_ =? _); by rewrite set_at_length.
  - rewrite length_map. done.
  - unfold zlen in *. rewrite length_map. done.
  - rewrite Hlen. symmetry. rewrite <- (take_ge (exts dpre seq_lens) (length seq_lens)).
    + rewrite decode_exts_sum by lia. done.
    + rewrite (exts_length _ _ _ _ decode_batch_ok), length_map. lia.
Qed.

Lemma decode_news_count : zsum (news dpre seq_lens ps) = count (fun s => s mod ps =? 1) seq_lens.
Proof.
  unfold news. clear Hlast. induction Hpos as [|s l Hs Hl IH]; [done|].
  cbn [map zip_with]. rewrite count_cons. unfold zsum in *. cbn [foldr]. rewrite IH by done.
  replace (Z.pred s) with (s - 1) by lia. destruct (decode_new_page s Hs) as (-> & _). done.
Qed.
End decode.
