(* ===== verification/PagedProps.v ===== *)
(** * Guarantees of the paged allocator

    What [alloc_extend], [alloc_decode] and [free] promise to the scheduler:
    equality of kernel and reference loop, distinct and position-aligned slots,
    and page ownership. *)

From S2P Require Import Prelude Tensors Triton BaseAllocator PagedAllocator PagedTheory.

(** C24: on a batch with enough free pages, the Triton kernel, launched over the
    batch in any program order and with any value in masked-off lanes, and the
    reference loop [alloc_extend_naive] both return the reference slots: request
    after request, first the rest of the page of [last_loc], then whole pages and
    the partial page taken from the free list in order. *)
Theorem extend_kernel_is_naive pre_lens seq_lens last_locs free ps undef order out :
  batch_ok pre_lens seq_lens last_locs ps ->
  zsum (news pre_lens seq_lens ps) <= zlen free ->
  order ≡ₚ seqZ 0 (zlen pre_lens) -> zlen out = zsum (exts pre_lens seq_lens) ->
  alloc_extend_naive pre_lens seq_lens last_locs free out ps =
    Ok (extend_ref pre_lens seq_lens last_locs free ps) /\
  launch (alloc_extend_kernel undef pre_lens seq_lens last_locs free
            (next_power_of_2 (zlen pre_lens)) ps) order out =
    extend_ref pre_lens seq_lens last_locs free ps.
Proof.
  intros Hok Hp Hord Hout.
  assert (Hn : Z.of_nat (length pre_lens) <= next_power_of_2 (zlen pre_lens))
    by (apply next_power_of_2_ge; unfold zlen; lia).
  split; [|by apply launch_extend].
  rewrite (naive_launch _ _ _ _ _ Hok undef _ _ Hn Hp). f_equal. by apply launch_extend.
Qed.

(** the decode kernel returns what the extend path would return for the same
    batch grown by one token per request, and the number of new pages the host
    computes from [seq_lens % page_size == 1] is the number of pages used. *)
Theorem decode_is_extend seq_lens last_locs free ps undef order out :
  1 < ps -> length last_locs = length seq_lens -> Forall (fun s => 1 <= s) seq_lens ->
  order ≡ₚ seqZ 0 (zlen seq_lens) -> zlen out = zlen seq_lens ->
  launch (alloc_decode_kernel undef seq_lens last_locs free
            (next_power_of_2 (zlen seq_lens)) ps) order out =
    extend_ref (map Z.pred seq_lens) seq_lens last_locs free ps /\
  get_num_new_pages seq_lens ps None true =
    get_num_new_pages seq_lens ps (Some (map Z.pred seq_lens)) false.
Proof.
  intros Hps Hl Hpos Hord Hout. split.
  - apply launch_decode; try done. apply next_power_of_2_ge. unfold zlen. lia.
  - unfold get_num_new_pages. f_equal. rewrite <- (decode_news_count seq_lens ps); done.
Qed.

(** ** Distinctness and alignment *)

(** The state of the requests before the step: each request whose last page is
    partial owns that page, [last_loc] sits right before the next position, and
    the owned partial pages are distinct and not free. *)
Record tails_ok (pre_lens last_locs free : list Z) (ps : Z) : Prop := {
  to_align : forall i p l, pre_lens !! i = Some p -> last_locs !! i = Some l -> (l + 1) mod ps = p mod ps;
  to_free : NoDup free;
  to_not_free : forall i p l, pre_lens !! i = Some p -> last_locs !! i = Some l ->
    p mod ps <> 0 -> l / ps ∉ free;
  to_distinct : forall i j p l p' l', pre_lens !! i = Some p -> last_locs !! i = Some l ->
    pre_lens !! j = Some p' -> last_locs !! j = Some l' ->
    p mod ps <> 0 -> p' mod ps <> 0 -> l / ps = l' / ps -> i = j
}.

Section distinct.
Context (pre_lens seq_lens last_locs free : list Z) (ps : Z).
Context (Hok : batch_ok pre_lens seq_lens last_locs ps) (Ht : tails_ok pre_lens last_locs free ps).
Context (Hpages : zsum (news pre_lens seq_lens ps) <= zlen free).

(** Page and in-page index of the slot of position [t]. *)
Lemma slot_ref_page i p s l t :
  pre_lens !! i = Some p -> seq_lens !! i = Some s -> last_locs !! i = Some l -> p <= t < s ->
  let x := slot_ref pre_lens seq_lens last_locs free ps (Z.of_nat i) t in
  x mod ps = t mod ps /\
  (t < pages_of p ps * ps /\ p mod ps <> 0 /\ x / ps = l / ps \/
   pages_of p ps * ps <= t /\
   exists k, free !! k = Some (x / ps) /\
     Z.of_nat k = zsum (take i (news pre_lens seq_lens ps)) + (t / ps - pages_of p ps)).
Proof.
  intros Hp Hs Hl Ht' x. pose proof (bo_ps _ _ _ _ Hok) as Hps.
  unfold x, slot_ref. rewrite (tget_lookup_Some _ _ _ Hp), (tget_lookup_Some _ _ _ Hl), Nat2Z.id.
  pose proof (to_align _ _ _ _ Ht _ _ _ Hp Hl) as Ha.
  pose proof (pages_of_bounds p ps Hps) as HP.
  destruct (Z.ltb_spec t (pages_of p ps * ps)) as [H1|H1].
  - assert (Hm : p mod ps <> 0).
    { intros Hz. destruct (pages_of_div p ps Hps) as [[E1 E2]|[E1 E2]]; [rewrite E2 in H1; lia|].
      rewrite Z.mod_eq in Hz by lia. lia. }
    pose proof (Z.mod_pos_bound p ps Hps) as Hb.
    assert (El : l = ps * ((l + 1) / ps) + (p mod ps - 1)) by (rewrite <- Ha, Z.mod_eq by lia; lia).
    assert (Ep : p = ps * (p / ps) + p mod ps) by (apply Z.div_mod; lia).
    assert (Epg : pages_of p ps = p / ps + 1).
    { destruct (pages_of_div p ps Hps) as [[E1 E2]|[E1 E2]]; [|done]. lia. }
    set (r := p mod ps) in *. set (q := (l + 1) / ps) in *.
    assert (Hd1 : l / ps = q) by (symmetry; apply (Z.div_unique l ps q (r - 1)); lia).
    assert (Hx : l + 1 + (t - p) = ps * q + (r + (t - p))) by lia.
    assert (Hr : 0 <= r + (t - p) < ps) by (rewrite Epg in H1; nia).
    split.
    + transitivity (r + (t - p)); [symmetry; apply (Z.mod_unique _ ps q); lia|].
      apply (Z.mod_unique _ ps (p / ps)); lia.
    + left. split; [done|]. split; [done|]. rewrite Hd1. symmetry. apply (Z.div_unique _ ps q (r + (t - p))); lia.
  - assert (Hb : 0 <= t mod ps < ps) by (apply Z.mod_pos_bound; lia).
    set (idx := zsum (take i (news pre_lens seq_lens ps)) + (t / ps - pages_of p ps)).
    assert (Hidx : 0 <= idx < zlen free).
    { assert (Hnw : news pre_lens seq_lens ps !! i = Some (pages_of s ps - pages_of p ps))
        by (unfold news; by rewrite lookup_zip_with, Hs, Hp).
      pose proof (zsum_take_mono _ 0 i (news_nonneg _ _ _ _ Hok) ltac:(lia)) as H0. simpl in H0.
      assert (H2 : zsum (take (S i) (news pre_lens seq_lens ps)) <= zsum (news pre_lens seq_lens ps)).
      { rewrite <- (take_ge (news pre_lens seq_lens ps) (length (news pre_lens seq_lens ps))) at 2 by lia.
        apply zsum_take_mono; [apply (news_nonneg _ _ _ _ Hok)|]. by apply lookup_lt_Some in Hnw. }
      rewrite (zsum_take_S _ _ _ Hnw) in H2. change (zsum []) with 0 in H0.
      assert (pages_of p ps <= t / ps) by (apply Z.div_le_lower_bound; lia).
      pose proof (pages_of_bounds s ps Hps).
      assert (t / ps < pages_of s ps) by (apply Z.div_lt_upper_bound; lia).
      unfold idx. lia. }
    destruct (lookup_lt_is_Some_2 free (Z.to_nat idx)) as [g Hg]; [unfold zlen in Hidx; lia|].
    assert (Tg : tget free idx = g) by (unfold tget; by rewrite list_lookup_total_alt, Hg).
    rewrite Tg. split.
    + rewrite Z.add_comm, Z.mod_add, Z.mod_small by lia. done.
    + right. split; [done|]. exists (Z.to_nat idx). split; [|lia].
      rewrite Z.div_add_l, (Z.div_small (t mod ps)), Z.add_0_r by lia. done.
Qed.

Lemma same_block t u ps' : 0 < ps' -> t / ps' = u / ps' -> t mod ps' = u mod ps' -> t = u.
Proof. intros H H1 H2. rewrite (Z.div_mod t ps'), (Z.div_mod u ps'), H1, H2 by lia. done. Qed.

(** Distinct positions of the batch get distinct slots. *)
Lemma slot_ref_inj i j p s l p' s' l' t u :
  pre_lens !! i = Some p -> seq_lens !! i = Some s -> last_locs !! i = Some l -> p <= t < s ->
  pre_lens !! j = Some p' -> seq_lens !! j = Some s' -> last_locs !! j = Some l' -> p' <= u < s' ->
  slot_ref pre_lens seq_lens last_locs free ps (Z.of_nat i) t =
  slot_ref pre_lens seq_lens last_locs free ps (Z.of_nat j) u -> i = j /\ t = u.
Proof.
  intros Hp Hs Hl Ht' Hp' Hs' Hl' Hu Heq. pose proof (bo_ps _ _ _ _ Hok) as Hps.
  destruct (slot_ref_page _ _ _ _ _ Hp Hs Hl Ht') as [M1 C1].
  destruct (slot_ref_page _ _ _ _ _ Hp' Hs' Hl' Hu) as [M2 C2]. rewrite Heq in M1, C1.
  set (x := slot_ref _ _ _ _ _ (Z.of_nat j) u) in *.
  assert (Hmod : t mod ps = u mod ps) by congruence.
  destruct C1 as [(A1 & A2 & A3)|(A1 & k & A2 & A3)], C2 as [(B1 & B2 & B3)|(B1 & k' & B2 & B3)].
  - assert (i = j) as <- by (eapply (to_distinct _ _ _ _ Ht); try done; congruence). simplify_eq.
    split; [done|]. apply (same_block _ _ ps); [done| |done].
    pose proof (pages_of_bounds p ps Hps).
    assert (H3 : forall w, p <= w < pages_of p ps * ps -> w / ps = pages_of p ps - 1).
    { intros w Hw. symmetry. apply (Z.div_unique w ps _ (w - ps * (pages_of p ps - 1))); lia. }
    rewrite !H3 by lia. done.
  - exfalso. apply (to_not_free _ _ _ _ Ht _ _ _ Hp Hl A2). rewrite <- A3. by eapply list_elem_of_lookup_2.
  - exfalso. apply (to_not_free _ _ _ _ Ht _ _ _ Hp' Hl' B2). rewrite <- B3. by eapply list_elem_of_lookup_2.
  - assert (k = k') as <- by (eapply NoDup_lookup; [apply (to_free _ _ _ _ Ht)|done|done]).
    assert (Hn1 : news pre_lens seq_lens ps !! i = Some (pages_of s ps - pages_of p ps))
      by (unfold news; by rewrite lookup_zip_with, Hs, Hp).
    assert (Hn2 : news pre_lens seq_lens ps !! j = Some (pages_of s' ps - pages_of p' ps))
      by (unfold news; by rewrite lookup_zip_with, Hs', Hp').
    assert (Hr : forall w a b, pages_of a ps * ps <= w < b -> pages_of a ps <= w / ps < pages_of b ps).
    { intros w a b Hw. pose proof (pages_of_bounds b ps Hps).
      split; [apply Z.div_le_lower_bound; lia|apply Z.div_lt_upper_bound; lia]. }
    pose proof (Hr t p s ltac:(lia)). pose proof (Hr u p' s' ltac:(lia)).
    assert (i = j) as <- by (eapply (zsum_locate_unique _ _ _ _ _ (Z.of_nat k)); [apply (news_nonneg _ _ _ _ Hok)|done|done|lia|lia]).
    simplify_eq. split; [done|]. apply (same_block _ _ ps); [done|lia|done].
Qed.

(** Every entry of the output is the slot of one position. *)
Lemma extend_ref_entry k x :
  extend_ref pre_lens seq_lens last_locs free ps !! k = Some x ->
  exists i p s l t, pre_lens !! i = Some p /\ seq_lens !! i = Some s /\ last_locs !! i = Some l /\
    p <= t < s /\ x = slot_ref pre_lens seq_lens last_locs free ps (Z.of_nat i) t /\
    Z.of_nat k = zsum (take i (exts pre_lens seq_lens)) + (t - p).
Proof.
  intros Hx. pose proof (extend_ref_length _ _ _ free _ Hok) as Hlen.
  pose proof (lookup_lt_Some _ _ _ Hx) as Hk.
  destruct (zsum_locate (exts pre_lens seq_lens) (Z.of_nat k) (exts_nonneg _ _ _ _ Hok)) as (i & e & He & Hb);
    [unfold zlen in Hlen; lia|].
  rewrite (extend_ref_lookup _ _ _ _ _ Hok i e k He Hb) in Hx. injection Hx as <-.
  assert (Hi : (i < length pre_lens)%nat)
    by (rewrite <- (exts_length _ _ _ _ Hok); by eapply lookup_lt_Some).
  destruct (lens_lookup _ _ _ _ Hok i Hi) as (p & s & Hp & Hs & Hle & Hex & _ & Tp & _).
  destruct (lookup_lt_is_Some_2 last_locs i) as [l Hl]; [rewrite (bo_last _ _ _ _ Hok); done|].
  rewrite Hex in He. injection He as <-.
  exists i, p, s, l, (p + (Z.of_nat k - zsum (take i (exts pre_lens seq_lens)))).
  rewrite Tp. split_and!; try done; lia.
Qed.
End distinct.

(** ** Page ownership *)

(** Free, released and held pages are the pages [1..num_pages], each once. *)
Definition paged_inv (a : BaseAllocator) (held : list Z) : Prop :=
  0 < page_size a /\
  free_pages a ++ release_pages a ++ held ≡ₚ seqZ 1 (num_pages (size a) (page_size a)).

#[global] Instance paged_inv_proper : Proper ((=) ==> (≡ₚ) ==> iff) paged_inv.
Proof. intros a ? <- l k Hp. unfold paged_inv. by rewrite Hp. Qed.

(** Pages that an allocation can reach. *)
Definition reachable_pages (a : BaseAllocator) : Z :=
  zlen (free_pages a) + (if need_sort a then zlen (release_pages a) else 0).

Lemma paged_inv_merge a held : paged_inv a held -> paged_inv (merge_and_sort_free a) held.
Proof.
  intros [H1 H2]. destruct (merge_and_sort_free_fields a) as (E1 & E2 & _).
  unfold paged_inv. rewrite E1, E2. split; [done|].
  by rewrite app_assoc, merge_and_sort_free_perm, <- app_assoc.
Qed.

Lemma paged_inv_disjoint a held x :
  paged_inv a held -> x ∈ free_pages a -> x ∉ held.
Proof.
  intros [_ H] Hx Hh. assert (Hnd : NoDup (free_pages a ++ release_pages a ++ held))
    by (rewrite H; apply NoDup_seqZ).
  apply list.NoDup_app in Hnd as (_ & Hd & _). apply (Hd x Hx). set_solver.
Qed.

Lemma paged_inv_nodup a held : paged_inv a held -> NoDup (free_pages a).
Proof.
  intros [_ H]. assert (Hnd : NoDup (free_pages a ++ release_pages a ++ held))
    by (rewrite H; apply NoDup_seqZ).
  by apply list.NoDup_app in Hnd as (? & _).
Qed.

Lemma paged_inv_take a n held :
  paged_inv a held -> 0 <= n <= zlen (free_pages a) ->
  paged_inv (set_free a (slice_from (free_pages a) n) (release_pages a))
    (take (Z.to_nat n) (free_pages a) ++ held).
Proof.
  intros [H1 H2] Hn. split; [done|]. simpl. rewrite slice_from_drop by lia. rewrite <- H2.
  rewrite <- (take_drop (Z.to_nat n) (free_pages a)) at 3.
  rewrite (Permutation_app_swap_app (release_pages a)), (Permutation_app_swap_app (drop _ _)).
  by rewrite <- app_assoc.
Qed.

(** The requests of a batch before a step, in terms of the held pages. *)
Record requests_ok (pre_lens last_locs held : list Z) (ps : Z) : Prop := {
  ro_align : forall i p l, pre_lens !! i = Some p -> last_locs !! i = Some l -> (l + 1) mod ps = p mod ps;
  ro_held : forall i p l, pre_lens !! i = Some p -> last_locs !! i = Some l -> p mod ps <> 0 -> l / ps ∈ held;
  ro_distinct : forall i j p l p' l', pre_lens !! i = Some p -> last_locs !! i = Some l ->
    pre_lens !! j = Some p' -> last_locs !! j = Some l' ->
    p mod ps <> 0 -> p' mod ps <> 0 -> l / ps = l' / ps -> i = j
}.

Lemma requests_tails a pre_lens last_locs held :
  paged_inv a held -> requests_ok pre_lens last_locs held (page_size a) ->
  tails_ok pre_lens last_locs (free_pages a) (page_size a).
Proof.
  intros Hi [R1 R2 R3]. split; [done|by eapply paged_inv_nodup| |done].
  intros i p l Hp Hl Hm Hf. by eapply paged_inv_disjoint, R2.
Qed.

(** What a successful step returns: one slot per new position, at its place in
    the page.  Up to the end of the request's partial page it is a slot of that
    page, right after the slots before it; beyond, it lies on the request's share
    of the pages [taken] from the free list, in order. *)
Definition extend_result (a' : BaseAllocator) (pre_lens seq_lens last_locs held out : list Z) (ps n : Z) : Prop :=
  zlen out = zsum (exts pre_lens seq_lens) /\ NoDup out /\
  exists taken, zlen taken = n /\ paged_inv a' (taken ++ held) /\
    forall i p s l t, pre_lens !! i = Some p -> seq_lens !! i = Some s -> last_locs !! i = Some l -> p <= t < s ->
      exists x, out !! Z.to_nat (zsum (take i (exts pre_lens seq_lens)) + (t - p)) = Some x /\ x mod ps = t mod ps /\
        if t <? pages_of p ps * ps then x = l + 1 + (t - p) /\ x / ps = l / ps
        else taken !! Z.to_nat (zsum (take i (news pre_lens seq_lens ps)) + (t / ps - pages_of p ps)) = Some (x / ps).

Lemma extend_ref_result a pre_lens seq_lens last_locs held :
  let ps := page_size a in let n := zsum (news pre_lens seq_lens ps) in
  paged_inv a held -> batch_ok pre_lens seq_lens last_locs ps ->
  requests_ok pre_lens last_locs held ps -> n <= zlen (free_pages a) ->
  extend_result (set_free a (slice_from (free_pages a) n) (release_pages a))
    pre_lens seq_lens last_locs held (extend_ref pre_lens seq_lens last_locs (free_pages a) ps) ps n.
Proof.
  intros ps n Hi Hok Hr Hn. pose proof (requests_tails _ _ _ _ Hi Hr) as Ht. fold ps in Ht.
  assert (Hn0 : 0 <= n).
  { pose proof (zsum_take_mono _ 0 (length (news pre_lens seq_lens ps)) (news_nonneg _ _ _ _ Hok) ltac:(lia)) as H0.
    by rewrite (take_ge _ (length _)) in H0. }
  split; [by apply extend_ref_length|]. split.
  { apply NoDup_alt. intros k k' x Hk Hk'.
    destruct (extend_ref_entry _ _ _ _ _ Hok _ _ Hk) as (i & p & s & l & t & Hp & Hs & Hl & Hb & Ex & Ek).
    destruct (extend_ref_entry _ _ _ _ _ Hok _ _ Hk') as (j & p' & s' & l' & u & Hp' & Hs' & Hl' & Hb' & Ex' & Ek').
    destruct (slot_ref_inj _ _ _ _ _ Hok Ht Hn i j p s l p' s' l' t u) as [<- <-]; try done; [congruence|].
    simplify_eq. lia. }
  exists (take (Z.to_nat n) (free_pages a)). split; [apply zlen_take; lia|]. split; [by apply paged_inv_take|].
  intros i p s l t Hp Hs Hl Hb.
  assert (He : exts pre_lens seq_lens !! i = Some (s - p)) by (unfold exts; by rewrite lookup_zip_with, Hs, Hp).
  pose proof (zsum_take_mono _ 0 i (exts_nonneg _ _ _ _ Hok) ltac:(lia)) as H0. simpl in H0. change (zsum []) with 0 in H0.
  eexists. rewrite (extend_ref_lookup _ _ _ _ _ Hok i (s - p)) by (done || lia). split; [done|].
  rewrite (tget_lookup_Some _ _ _ Hp), Z2Nat.id by lia. replace (p + _) with t by lia.
  destruct (slot_ref_page _ _ _ _ _ Hok Ht Hn i p s l t Hp Hs Hl Hb) as [Hm [(A1 & A2 & A3)|(A1 & g & A2 & A3)]]; (split; [exact Hm|]).
  - destruct (Z.ltb_spec t (pages_of p ps * ps)); [|lia]. split; [|exact A3].
    unfold slot_ref. rewrite (tget_lookup_Some _ _ _ Hp), (tget_lookup_Some _ _ _ Hl). by destruct (Z.ltb_spec t (pages_of p ps * ps)); [|lia].
  - destruct (Z.ltb_spec t (pages_of p ps * ps)); [lia|]. rewrite <- A3, Nat2Z.id, lookup_take, decide_True; [done|].
    assert (Hnw : news pre_lens seq_lens ps !! i = Some (pages_of s ps - pages_of p ps))
      by (unfold news; by rewrite lookup_zip_with, Hs, Hp).
    pose proof (zsum_take_mono (news pre_lens seq_lens ps) (S i) (length (news pre_lens seq_lens ps)) (news_nonneg _ _ _ _ Hok)
      ltac:(by apply lookup_lt_Some in Hnw)) as H1.
    rewrite (take_ge _ (length _)), (zsum_take_S _ _ _ Hnw) in H1 by done. fold n in H1.
    pose proof (pages_of_bounds s ps (bo_ps _ _ _ _ Hok)).
    assert (t / ps < pages_of s ps) by (apply Z.div_lt_upper_bound; [apply (bo_ps _ _ _ _ Hok)|lia]). lia.
Qed.

Lemma news_bound pre_lens seq_lens last_locs ps :
  batch_ok pre_lens seq_lens last_locs ps ->
  zsum (news pre_lens seq_lens ps) <= zsum (exts pre_lens seq_lens) / ps + zlen pre_lens.
Proof.
  intros [Hps Hlen _ Hle]. unfold news, exts. clear last_locs.
  revert seq_lens Hlen Hle. induction pre_lens as [|p pre IH]; intros [|s seq] Hlen Hle; simpl in Hlen; try lia; [done|].
  cbn [zip_with]. rewrite zlen_cons. unfold zsum. cbn [foldr]. fold (zsum (zip_with Z.sub seq pre)).
  fold (zsum (zip_with (fun s p => pages_of s ps - pages_of p ps) seq pre)).
  specialize (IH seq ltac:(lia) (fun i => Hle (S i))). pose proof (Hle 0%nat p s eq_refl eq_refl).
  assert (H1 : pages_of s ps - pages_of p ps <= (s - p) / ps + 1).
  { pose proof (pages_of_bounds s ps Hps). pose proof (pages_of_bounds p ps Hps). pose proof (div_bounds (s - p) ps Hps).
    assert ((pages_of s ps - pages_of p ps) * ps < ((s - p) / ps + 2) * ps) by lia. nia. }
  assert (H2 : (s - p) / ps + zsum (zip_with Z.sub seq pre) / ps <= (s - p + zsum (zip_with Z.sub seq pre)) / ps).
  { apply Z.div_le_lower_bound; [done|]. pose proof (div_bounds (s - p) ps Hps).
    pose proof (div_bounds (zsum (zip_with Z.sub seq pre)) ps Hps). lia. }
  lia.
Qed.

(** The merge that precedes an allocation makes every reachable page available
    whenever the free list alone might not do. *)
Lemma premerge_spec a (trigger : bool) held n :
  paged_inv a held -> (trigger = false -> n <= zlen (free_pages a)) ->
  let a1 := if need_sort a && trigger then merge_and_sort_free a else a in
  paged_inv a1 held /\ page_size a1 = page_size a /\
  (n <= zlen (free_pages a1) <-> n <= reachable_pages a).
Proof.
  intros Hi Htr a1. unfold reachable_pages. pose proof (zlen_nonneg (release_pages a)).
  unfold a1. destruct (need_sort a) eqn:Es; cbn [andb].
  - destruct trigger.
    + split; [by apply paged_inv_merge|].
      destruct (merge_and_sort_free_fields a) as (_ & E2 & _). split; [done|].
      pose proof (merge_and_sort_free_perm a) as Hp. apply Permutation_length in Hp.
      destruct (merge_and_sort_free_all a) as [E3 _]. rewrite E3, app_nil_r, length_app in Hp.
      unfold zlen. lia.
    + specialize (Htr eq_refl). split_and!; try done. split; lia.
  - split_and!; try done. split; lia.
Qed.

(** C25: [alloc_extend] on a batch whose requests own their partial pages: it
    refuses exactly when the pages it can reach do not suffice, keeping the page
    partition; otherwise it returns one slot per new token, all distinct, each
    at its position modulo the page size.  The tokens that still fit into the
    partial page of their request continue it right after [last_loc]; the others
    fill new pages, the pages of one request after those of the one before it,
    and the new pages become held. *)
Theorem alloc_extend_safe a held pre_lens seq_lens last_locs undef order :
  let ps := page_size a in
  paged_inv a held -> batch_ok pre_lens seq_lens last_locs ps ->
  requests_ok pre_lens last_locs held ps -> order ≡ₚ seqZ 0 (zlen pre_lens) ->
  let n := zsum (news pre_lens seq_lens ps) in
  exists r a', alloc_extend false undef order a pre_lens seq_lens last_locs
                 (zsum (exts pre_lens seq_lens)) = Ok (r, a') /\
  match r with
  | None => reachable_pages a < n /\ paged_inv a' held
  | Some out => n <= reachable_pages a /\ extend_result a' pre_lens seq_lens last_locs held out ps n
  end.
Proof.
  intros ps Hi Hok Hr Hord n. unfold alloc_extend. cbn [andb negb].
  set (tr := zlen (free_pages a) <? zsum (exts pre_lens seq_lens) / page_size a + zlen pre_lens + 1).
  destruct (premerge_spec a tr held n Hi) as (Hi1 & Hps1 & Hav).
  { unfold tr. intros H. pose proof (news_bound _ _ _ _ Hok). fold ps in H. fold n in H0. bool_lia. }
  set (a1 := if need_sort a && tr then _ else a) in *. cbn [get_num_new_pages rbind].
  assert (Hn : zsum (zip_with (fun s p => pages_of s (page_size a) - pages_of p (page_size a)) seq_lens pre_lens) = n) by done.
  rewrite Hn. destruct (Z.ltb_spec (zlen (free_pages a1)) n) as [Hlt|Hge].
  - eexists _, _. split; [done|]. split; [lia|done].
  - eexists _, _. split; [done|]. split; [lia|].
    rewrite (launch_extend _ _ _ _ _ Hok); [|apply next_power_of_2_ge; unfold zlen; lia|done|].
    + unfold ps. rewrite <- Hps1. subst n. unfold ps in *. rewrite <- Hps1 in *.
      apply (extend_ref_result a1); done.
    + unfold zlen. rewrite length_replicate. apply Z2Nat.id.
      pose proof (zsum_take_mono _ 0 (length (exts pre_lens seq_lens)) (exts_nonneg _ _ _ _ Hok) ltac:(lia)) as H0.
      by rewrite (take_ge _ (length _)) in H0.
Qed.

(** the same for [alloc_decode], where every request grows by one token. *)
Theorem alloc_decode_safe a held seq_lens last_locs undef order :
  let ps := page_size a in let pre_lens := map Z.pred seq_lens in
  1 < ps -> length last_locs = length seq_lens -> Forall (fun s => 1 <= s) seq_lens ->
  paged_inv a held -> requests_ok pre_lens last_locs held ps ->
  order ≡ₚ seqZ 0 (zlen seq_lens) ->
  let n := count (fun s => s mod ps =? 1) seq_lens in
  exists r a', alloc_decode false undef order a seq_lens last_locs = Ok (r, a') /\
  match r with
  | None => reachable_pages a < n /\ paged_inv a' held
  | Some out => n <= reachable_pages a /\ extend_result a' pre_lens seq_lens last_locs held out ps n
  end.
Proof.
  intros ps pre_lens Hps Hll Hpos Hi Hr Hord n. unfold alloc_decode. cbn [andb negb].
  pose proof (decode_batch_ok _ _ _ Hps Hll Hpos) as Hok. fold pre_lens in Hok.
  assert (Hnews : zsum (news pre_lens seq_lens ps) = n) by (by apply decode_news_count).
  destruct (premerge_spec a (zlen (free_pages a) <? zlen seq_lens) held n Hi) as (Hi1 & Hps1 & Hav).
  { intros H. pose proof (count_le (fun s => s mod ps =? 1) seq_lens). fold n in H0. bool_lia. }
  set (a1 := if need_sort a && _ then _ else a) in *. cbn [get_num_new_pages rbind].
  change (count (fun s => s mod page_size a =? 1) seq_lens) with n.
  destruct (Z.ltb_spec (zlen (free_pages a1)) n) as [Hlt|Hge].
  - eexists _, _. split; [done|]. split; [lia|done].
  - eexists _, _. split; [done|]. split; [lia|].
    rewrite launch_decode; [|done|done|done|apply next_power_of_2_ge; unfold zlen; lia|done|].
    + rewrite <- Hnews in *. unfold ps in *. rewrite <- Hps1 in *. apply (extend_ref_result a1); done.
    + unfold zlen. rewrite length_replicate. lia.
Qed.

Lemma unique_perm l : NoDup l -> unique l ≡ₚ l.
Proof.
  intros H. apply NoDup_Permutation; [apply unique_NoDup|done|]. intros x. apply unique_elem.
Qed.

(** releasing slots whose pages are exactly some held pages puts each of
    those pages back once, however many of its slots are listed, and the debug
    assertion on the free list cannot fail. *)
Theorem free_returns_pages debug a held rest l :
  paged_inv a held -> is_not_in_free_group a = true ->
  held ≡ₚ unique (map (fun s => s / page_size a) l) ++ rest ->
  exists a', free debug a l = Ok a' /\ paged_inv a' rest.
Proof.
  intros Hi Hg Hh. unfold free. destruct (Z.eqb_spec (zlen l) 0) as [Hz|Hz].
  { exists a. split; [done|]. rewrite (zlen_le_0 l) in Hh by lia. by rewrite <- Hh. }
  rewrite Hg. set (ps := unique _) in *.
  assert (Hi' : paged_inv (if need_sort a then set_free a (free_pages a) (ps ++ release_pages a)
                           else set_free a (ps ++ free_pages a) (release_pages a)) rest).
  { destruct Hi as [H1 H2]. destruct (need_sort a); (split; [done|]); simpl; rewrite <- H2, Hh.
    - rewrite <- !app_assoc. by rewrite (Permutation_app_swap_app ps).
    - rewrite <- !app_assoc. rewrite (Permutation_app_swap_app ps), (Permutation_app_swap_app ps). done. }
  set (a1 := if need_sort a then _ else _) in *. exists a1. split; [|done].
  assert (Hd : all_distinct (free_pages a1) = true).
  { unfold all_distinct. apply Z.eqb_eq. unfold zlen. rewrite unique_perm; [done|]. by eapply paged_inv_nodup. }
  rewrite Hd, andb_false_r. done.
Qed.

(** ** A concrete batch

    Page size 4, two running requests holding pages 3 and 1 and a new one. *)

Definition demo : BaseAllocator := set_free (clear 24 4 true) [4] [6; 2; 5].

Definition demo_pre : list Z := [3; 0; 8].
Definition demo_seq : list Z := [9; 5; 8].
Definition demo_last : list Z := [14; -1; 7].

Lemma demo_inv : paged_inv demo [3; 1].
Proof. split; [done|]. simpl. apply NoDup_Permutation; [repeat constructor; set_solver|apply NoDup_seqZ|].
  intros x. rewrite elem_of_seqZ. unfold num_pages. change (24 / 4) with 6. set_solver by lia. Qed.

Lemma demo_batch : batch_ok demo_pre demo_seq demo_last 4.
Proof. split; [lia|done|done|]. intros [|[|[|i]]] p s Hp Hs; simplify_eq/=; lia. Qed.

Lemma demo_requests : requests_ok demo_pre demo_last [3; 1] 4.
Proof.
  split.
  - intros [|[|[|i]]] p l Hp Hl; by simplify_eq/=.
  - intros [|[|[|i]]] p l Hp Hl Hm; simplify_eq/=; set_solver.
  - intros [|[|[|i]]] [|[|[|j]]] p l p' l' Hp Hl Hp' Hl' Hm Hm' E; by simplify_eq/=.
Qed.

Lemma extend_kernel_is_naive_witness :
  alloc_extend_naive demo_pre demo_seq demo_last [4; 2; 5; 6] (replicate 11 0) 4 =
    Ok [15; 16; 17; 18; 19; 8; 20; 21; 22; 23; 24] /\
  launch (alloc_extend_kernel 77 demo_pre demo_seq demo_last [4; 2; 5; 6] 4 4) [2; 0; 1] (replicate 11 0) =
    [15; 16; 17; 18; 19; 8; 20; 21; 22; 23; 24].
Proof.
  apply (extend_kernel_is_naive demo_pre demo_seq demo_last [4; 2; 5; 6] 4 77 [2; 0; 1] (replicate 11 0)).
  - exact demo_batch.
  - vm_compute. discriminate.
  - apply (Permutation_app_comm [2] [0; 1]).
  - reflexivity.
Defined.

Lemma decode_is_extend_witness :
  launch (alloc_decode_kernel 0 [5; 7] [3; 9] [6; 2] 2 4) [1; 0] [0; 0] = [24; 10].
Proof.
  apply (decode_is_extend [5; 7] [3; 9] [6; 2] 4 0 [1; 0] [0; 0]).
  - lia.
  - reflexivity.
  - repeat constructor; lia.
  - apply (Permutation_app_comm [1] [0]).
  - reflexivity.
Defined.

Lemma alloc_extend_safe_witness :
  exists out a', alloc_extend false 0 [0; 1; 2] demo demo_pre demo_seq demo_last 11 = Ok (Some out, a') /\
    extend_result a' demo_pre demo_seq demo_last [3; 1] out 4 4.
Proof.
  destruct (alloc_extend_safe demo [3; 1] demo_pre demo_seq demo_last 0 [0; 1; 2]
    demo_inv demo_batch demo_requests (Permutation_refl _)) as (r & a' & H & Hr).
  assert (Hs : r <> None) by (clear Hr; vm_compute in H; injection H as <- _; discriminate).
  destruct r as [out|]; [|done]. exists out, a'. split; [exact H|exact (proj2 Hr)].
Defined.

Lemma alloc_decode_safe_witness :
  exists r a', alloc_decode false 0 [0; 1] demo [4; 5] [14; 7] = Ok (r, a').
Proof.
  assert (Hr : requests_ok (map Z.pred [4; 5]) [14; 7] [3; 1] 4).
  { split.
    - intros [|[|i]] p l Hp Hl; by simplify_eq/=.
    - intros [|[|i]] p l Hp Hl Hm; simplify_eq/=; set_solver.
    - intros [|[|i]] [|[|j]] p l p' l' Hp Hl Hp' Hl' Hm Hm' E; by simplify_eq/=. }
  destruct (alloc_decode_safe demo [3; 1] [4; 5] [14; 7] 0 [0; 1]) as (r & a' & H & _).
  - vm_compute. reflexivity.
  - reflexivity.
  - repeat constructor; lia.
  - exact demo_inv.
  - exact Hr.
  - reflexivity.
  - exact (ex_intro _ r (ex_intro _ a' H)).
Defined.

Lemma free_returns_pages_witness :
  exists a', free true demo [12; 13; 14; 15; 4; 5] = Ok a' /\ paged_inv a' [].
Proof.
  apply (free_returns_pages true demo [3; 1] [] [12; 13; 14; 15; 4; 5] demo_inv eq_refl).
  vm_compute. apply (Permutation_app_comm [3] [1]).
Defined.
