(* ===== verification/RadixKeys.v ===== *)
(** * Keys and nodes of the radix tree

    Models the key helpers, the node record and the hash helpers of
    [srt/mem_cache/radix_cache.py], [convert_to_bigram_key] of
    [srt/mem_cache/utils.py], [hash_str_to_int64] of
    [srt/mem_cache/hicache_storage.py] and the eviction strategies of
    [srt/mem_cache/evict_policy.py]. *)

From S2P Require Import Prelude Tensors.
From Stdlib Require Import Ascii.

(** A token id, or a bigram of token ids (EAGLE). *)
Definition tok := (Z * option Z)%type.

Record RadixKey := {
  token_ids : list tok;
  extra_key : option string;
  is_bigram : bool
}.

Definition key_len (k : RadixKey) : Z := zlen (token_ids k).

(** [key[a:b]]: a slice keeps the extra key and forgets the bigram flag. *)
Definition key_slice (k : RadixKey) (a b : Z) : RadixKey :=
  {| token_ids := py_slice (token_ids k) a b; extra_key := extra_key k; is_bigram := false |}.

Definition key_from (k : RadixKey) (a : Z) : RadixKey := key_slice k a (key_len k).
Definition key_to (k : RadixKey) (b : Z) : RadixKey := key_slice k 0 b.

Definition is_tuple (t : tok) : bool := match snd t with Some _ => true | None => false end.

Fixpoint adjacent (l : list tok) : list tok :=
  match l with
  | a :: ((b :: _) as l') => (fst a, Some (fst b)) :: adjacent l'
  | _ => []
  end.

Definition convert_to_bigram_key (tokens : list tok) : list tok :=
  match tokens with
  | t :: _ => if is_tuple t then tokens else if zlen tokens <? 2 then [] else adjacent tokens
  | [] => []
  end.

Definition maybe_bigram_convert (is_eagle : bool) (k : RadixKey) (v : option (list Z))
  : RadixKey * option (list Z) :=
  if is_eagle && negb (is_bigram k) then
    let k' := {| token_ids := convert_to_bigram_key (token_ids k);
                 extra_key := extra_key k; is_bigram := true |} in
    (k', (fun v => slice_to v (key_len k')) <$> v)
  else (k, v).

Definition page_align_keys (k : list tok) (page_size : Z) : list tok :=
  if page_size =? 1 then k else slice_to k (zlen k / page_size * page_size).

(** ** Matching *)

Definition check_extra_key (k0 k1 : RadixKey) : result unit :=
  if bool_decide (extra_key k0 = extra_key k1) then Ok tt else Err ValueError.

Fixpoint match_tokens (l0 l1 : list tok) : Z :=
  match l0, l1 with
  | a :: l0', b :: l1' => if bool_decide (a = b) then 1 + match_tokens l0' l1' else 0
  | _, _ => 0
  end.

Definition key_match_page_size1 (k0 k1 : RadixKey) : result Z :=
  let! _ := check_extra_key k0 k1 in Ok (match_tokens (token_ids k0) (token_ids k1)).

(** The [while i < min_len] loop; [fuel] bounds the number of pages. *)
Fixpoint match_pages (fuel : nat) (l0 l1 : list tok) (page_size min_len i : Z) : Z :=
  match fuel with
  | O => i
  | S f =>
      if i <? min_len then
        if bool_decide (py_slice l0 i (i + page_size) = py_slice l1 i (i + page_size))
        then match_pages f l0 l1 page_size min_len (i + page_size)
        else i
      else i
  end.

Definition key_match_paged (k0 k1 : RadixKey) (page_size : Z) : result Z :=
  let! _ := check_extra_key k0 k1 in
  let min_len := Z.min (key_len k0) (key_len k1) in
  Ok (match_pages (S (length (token_ids k0))) (token_ids k0) (token_ids k1) page_size min_len 0).

(** [self.key_match_fn] *)
Definition key_match (page_size : Z) (k0 k1 : RadixKey) : result Z :=
  if page_size =? 1 then key_match_page_size1 k0 k1 else key_match_paged k0 k1 page_size.

(** Dictionary key of a child: extra key and first token or page. *)
Definition ckey := (option string * list tok)%type.

Definition get_child_key (page_size : Z) (k : RadixKey) : result ckey :=
  if page_size =? 1 then
    match token_ids k with
    | t :: _ => Ok (extra_key k, [t])
    | [] => Err IndexError
    end
  else Ok (extra_key k, slice_to (token_ids k) page_size).

(** ** Nodes *)

Record TreeNode := {
  children : gmap ckey nat;
  parent : option nat;
  key : RadixKey;
  value : option (list Z);
  lock_ref : Z;
  last_access_time : Z;
  creation_time : Z;
  hit_count : Z;
  host_ref_counter : Z;
  host_value : option (list Z);
  hash_value : option (list string);
  priority : Z
}.

Definition evicted (n : TreeNode) : bool := match value n with None => true | Some _ => false end.

Definition backuped (n : TreeNode) : bool := match host_value n with None => false | Some _ => true end.

Definition set_host_ref (n : TreeNode) (c : Z) : TreeNode :=
  {| children := children n; parent := parent n; key := key n; value := value n;
     lock_ref := lock_ref n; last_access_time := last_access_time n;
     creation_time := creation_time n; hit_count := hit_count n; host_ref_counter := c;
     host_value := host_value n; hash_value := hash_value n; priority := priority n |}.

Definition protect_host (n : TreeNode) : TreeNode := set_host_ref n (host_ref_counter n + 1).

Definition release_host (n : TreeNode) : result TreeNode :=
  if 0 <? host_ref_counter n then Ok (set_host_ref n (host_ref_counter n - 1))
  else Err RuntimeError.

Definition get_last_hash_value (n : TreeNode) : option string :=
  match hash_value n with Some l => list.last l | None => None end.

(** ** Hashes *)

Definition hex_digit (c : ascii) : option Z :=
  let z := Z.of_N (N_of_ascii c) in
  if (48 <=? z) && (z <=? 57) then Some (z - 48)
  else if (97 <=? z) && (z <=? 102) then Some (z - 87)
  else if (65 <=? z) && (z <=? 70) then Some (z - 55)
  else None.

Fixpoint hex_value (s : string) (acc : Z) : result Z :=
  match s with
  | EmptyString => Ok acc
  | String c s' => match hex_digit c with
                   | Some d => hex_value s' (acc * 16 + d)
                   | None => Err ValueError
                   end
  end.

Definition hash_str_to_int64 (s : string) : result Z :=
  let s16 := String.substring 0 16 s in
  if (String.length s16 =? 0)%nat then Err ValueError
  else
    let! u := hex_value s16 0 in
    Ok (if 2 ^ 63 <=? u then u - 2 ^ 64 else u).

(** [range(0, n, step)] *)
Definition range_step (n step : Z) : list Z := map (fun i => i * step) (seqZ 0 ((n + step - 1) / step)).

Section hashing.
Context (get_hash_str : list tok -> option string -> string).

(** The pages of a key with the chained hash of each. *)
Fixpoint hash_pages (pages : list (list tok)) (prior : option string) : list string :=
  match pages with
  | [] => []
  | [] :: ps => hash_pages ps prior
  | pg :: ps => let h := get_hash_str pg prior in h :: hash_pages ps (Some h)
  end.

Definition key_pages (k : RadixKey) (page_size : Z) : list (list tok) :=
  map (fun s => py_slice (token_ids k) s (s + page_size)) (range_step (key_len k) page_size).

(** [par] is the parent node, when there is one. *)
Definition compute_node_hash_values (k : RadixKey) (par : option TreeNode) (page_size : Z) : list string :=
  let parent_hash :=
    match par with
    | Some p =>
        match hash_value p with
        | Some hs => if (0 <? key_len (key p)) && (0 <? zlen hs) then list.last hs else None
        | None => None
        end
    | None => None
    end in
  hash_pages (key_pages k page_size) parent_hash.
End hashing.

Definition split_node_hash_value (child_hash_value : option (list string)) (split_len page_size : Z)
  : option (list string) * option (list string) :=
  match child_hash_value with
  | None => (None, None)
  | Some hs =>
      let split_pages := if page_size =? 1 then split_len else split_len / page_size in
      (Some (slice_to hs split_pages), Some (slice_from hs split_pages))
  end.

(** ** Eviction strategies *)

Inductive EvictionStrategy :=
  | LRUStrategy | LFUStrategy | FIFOStrategy | MRUStrategy | FILOStrategy
  | PriorityStrategy | SLRUStrategy (protected_threshold : Z).

(** A float is a one-entry list, a tuple a two-entry list; Python compares both
    lexicographically. *)
Definition get_priority (s : EvictionStrategy) (n : TreeNode) : list Z :=
  match s with
  | LRUStrategy => [last_access_time n]
  | LFUStrategy => [hit_count n; last_access_time n]
  | FIFOStrategy => [creation_time n]
  | MRUStrategy => [- last_access_time n]
  | FILOStrategy => [- creation_time n]
  | PriorityStrategy => [priority n; last_access_time n]
  | SLRUStrategy th => [(if th <=? hit_count n then 1 else 0); last_access_time n]
  end.

(** [str.lower] on ASCII letters. *)
Definition lower_ascii (c : ascii) : ascii :=
  let n := N_of_ascii c in if (65 <=? n)%N && (n <=? 90)%N then ascii_of_N (n + 32) else c.

Fixpoint lower (s : string) : string :=
  match s with EmptyString => EmptyString | String c s' => String (lower_ascii c) (lower s') end.

Definition strategy_of_name (name : string) : result EvictionStrategy :=
  if String.eqb name "lru" then Ok LRUStrategy
  else if String.eqb name "lfu" then Ok LFUStrategy
  else if String.eqb name "fifo" then Ok FIFOStrategy
  else if String.eqb name "mru" then Ok MRUStrategy
  else if String.eqb name "filo" then Ok FILOStrategy
  else if String.eqb name "priority" then Ok PriorityStrategy
  else if String.eqb name "slru" then Ok (SLRUStrategy 2)
  else Err ValueError.

Fixpoint lex_lt (a b : list Z) : bool :=
  match a, b with
  | x :: a', y :: b' => (x <? y) || ((x =? y) && lex_lt a' b')
  | [], _ :: _ => true
  | _, [] => false
  end.
