(* ===== verification/RadixKeysTheory.v ===== *)
(** * Facts about radix keys

    Key matching returns the longest common prefix in whole pages; slices of
    page-aligned keys; injectivity of the child key. *)

From S2P Require Import Prelude Tensors RadixKeys.

Definition aligned {A} (P : Z) (l : list A) : Prop := zlen l mod P = 0.

Lemma key_from_tokens k m : 0 <= m <= key_len k -> token_ids (key_from k m) = drop (Z.to_nat m) (token_ids k).
Proof.
  intros Hm. unfold key_from, key_slice. simpl. rewrite py_slice_take_drop by (unfold key_len in *; lia).
  rewrite take_ge; [done|]. rewrite length_drop. unfold key_len, zlen in *. lia.
Qed.

Lemma key_to_tokens k m : 0 <= m -> token_ids (key_to k m) = take (Z.to_nat m) (token_ids k).
Proof.
  intros Hm. unfold key_to, key_slice. simpl. rewrite py_slice_take_drop by lia. rewrite drop_0. f_equal. lia.
Qed.

Lemma key_from_len k m : 0 <= m <= key_len k -> key_len (key_from k m) = key_len k - m.
Proof. intros Hm. unfold key_len at 1. rewrite key_from_tokens by done. by rewrite zlen_drop. Qed.

Lemma key_to_len k m : 0 <= m <= key_len k -> key_len (key_to k m) = m.
Proof. intros Hm. unfold key_len at 1. rewrite key_to_tokens by lia. by apply zlen_take. Qed.

Lemma aligned_drop {A} P (l : list A) m :
  1 <= P -> 0 <= m <= zlen l -> m mod P = 0 -> aligned P l -> aligned P (drop (Z.to_nat m) l).
Proof.
  unfold aligned. intros HP Hm H1 H2. rewrite zlen_drop by done.
  rewrite Zminus_mod, H1, H2. apply Z.mod_0_l; lia.
Qed.

Lemma aligned_take {A} P (l : list A) m :
  0 <= m <= zlen l -> m mod P = 0 -> aligned P (take (Z.to_nat m) l).
Proof. unfold aligned. intros Hm H. by rewrite zlen_take. Qed.

(** A positive multiple of the page size is at least one page. *)
Lemma multiple_ge P m : 1 <= P -> m mod P = 0 -> 0 < m -> P <= m.
Proof.
  intros HP Hm H0. assert (E : m = P * (m / P)) by (rewrite (Z.div_mod m P) at 1 by lia; lia).
  destruct (Z.le_gt_cases (m / P) 0); nia.
Qed.

Lemma multiple_step P m j : 1 <= P -> m mod P = 0 -> j mod P = 0 -> m < j -> m + P <= j.
Proof.
  intros HP Hm Hj Hlt. assert (H : (j - m) mod P = 0) by (rewrite Zminus_mod, Hm, Hj; apply Z.mod_0_l; lia).
  pose proof (multiple_ge P (j - m) HP H). lia.
Qed.

Lemma match_tokens_spec l0 l1 :
  let m := match_tokens l0 l1 in
  0 <= m <= zlen l0 /\ m <= zlen l1 /\ take (Z.to_nat m) l0 = take (Z.to_nat m) l1 /\
  (m < zlen l0 -> m < zlen l1 -> l0 !! Z.to_nat m <> l1 !! Z.to_nat m).
Proof.
  revert l1. induction l0 as [|a l0 IH]; intros [|b l1]; cbn [match_tokens]; cbv zeta.
  - change (zlen (@nil tok)) with 0. split_and!; done || lia.
  - pose proof (zlen_nonneg (b :: l1)). change (zlen (@nil tok)) with 0. split_and!; done || lia.
  - pose proof (zlen_nonneg (a :: l0)). change (zlen (@nil tok)) with 0. split_and!; done || lia.
  - rewrite !zlen_cons. pose proof (zlen_nonneg l0). pose proof (zlen_nonneg l1).
    case_bool_decide as E.
    + subst b. destruct (IH l1) as (H1 & H2 & H3 & H4).
      replace (Z.to_nat (1 + match_tokens l0 l1)) with (S (Z.to_nat (match_tokens l0 l1))) by lia.
      cbn [take lookup list_lookup]. split_and!; try lia; [by rewrite H3|].
      intros G1 G2. apply H4; lia.
    + split_and!; try done; try lia. intros _ _. simpl. congruence.
Qed.

Lemma match_pages_spec P l0 l1 : 1 <= P -> aligned P l0 -> aligned P l1 ->
  forall fuel i, 0 <= i -> i <= zlen l0 -> i <= zlen l1 -> i mod P = 0 ->
    take (Z.to_nat i) l0 = take (Z.to_nat i) l1 -> Z.of_nat (length l0) - i < Z.of_nat fuel ->
  let m := match_pages fuel l0 l1 P (Z.min (zlen l0) (zlen l1)) i in
  i <= m <= zlen l0 /\ m <= zlen l1 /\ m mod P = 0 /\
  take (Z.to_nat m) l0 = take (Z.to_nat m) l1 /\
  (m < zlen l0 -> m < zlen l1 ->
     take (Z.to_nat P) (drop (Z.to_nat m) l0) <> take (Z.to_nat P) (drop (Z.to_nat m) l1)).
Proof.
  intros HP A0 A1. induction fuel as [|f IH]; intros i Hi H0 H1 Hm Ht Hf; cbn [match_pages]; cbv zeta.
  { unfold zlen in H0. lia. }
  destruct (Z.ltb_spec i (Z.min (zlen l0) (zlen l1))) as [Hlt|Hge]; [|split_and!; done || lia].
  rewrite !py_slice_take_drop by lia. replace (i + P - i) with P by lia.
  case_bool_decide as E; [|split_and!; done || lia].
  pose proof (multiple_step P i (zlen l0) HP Hm A0 ltac:(lia)).
  pose proof (multiple_step P i (zlen l1) HP Hm A1 ltac:(lia)).
  destruct (IH (i + P)) as (G1 & G2 & G3 & G4 & G5); try lia.
  - rewrite Z.add_mod, Hm, Z.mod_same by lia. apply Z.mod_0_l; lia.
  - replace (Z.to_nat (i + P)) with (Z.to_nat i + Z.to_nat P)%nat by lia.
    rewrite <- !take_take_drop, Ht, E. done.
  - split_and!; done || lia.
Qed.

Lemma lookup_take_drop_ne {A} (l0 l1 : list A) i n :
  (0 < n)%nat -> l0 !! i <> l1 !! i -> take n (drop i l0) <> take n (drop i l1).
Proof.
  intros Hn Hne E. apply Hne. assert (H : take n (drop i l0) !! 0%nat = take n (drop i l1) !! 0%nat) by (by rewrite E).
  rewrite !lookup_take, !decide_True, !lookup_drop, !Nat.add_0_r in H by lia. done.
Qed.

(** The longest common prefix in whole pages. *)
Lemma key_match_spec P k0 k1 :
  1 <= P -> extra_key k0 = extra_key k1 ->
  aligned P (token_ids k0) -> aligned P (token_ids k1) ->
  exists m, key_match P k0 k1 = Ok m /\ 0 <= m <= key_len k0 /\ m <= key_len k1 /\ m mod P = 0 /\
    take (Z.to_nat m) (token_ids k0) = take (Z.to_nat m) (token_ids k1) /\
    (m < key_len k0 -> m < key_len k1 ->
     take (Z.to_nat P) (drop (Z.to_nat m) (token_ids k0)) <>
     take (Z.to_nat P) (drop (Z.to_nat m) (token_ids k1))).
Proof.
  intros HP He A0 A1. unfold key_match. destruct (Z.eqb_spec P 1) as [->|HP1].
  - unfold key_match_page_size1, check_extra_key. rewrite bool_decide_true by done. simpl.
    eexists. split; [done|].
    destruct (match_tokens_spec (token_ids k0) (token_ids k1)) as (H1 & H2 & H3 & H4).
    split_and!; try done; try (unfold key_len; lia); [apply Z.mod_1_r|].
    intros G1 G2. apply lookup_take_drop_ne; [lia|]. by apply H4.
  - unfold key_match_paged, check_extra_key. rewrite bool_decide_true by done. simpl.
    eexists. split; [done|].
    destruct (match_pages_spec P (token_ids k0) (token_ids k1) HP A0 A1 (S (length (token_ids k0))) 0)
      as (H1 & H2 & H3 & H4 & H5); try done; try lia; try apply zlen_nonneg.
Qed.

(** ** Child keys *)

Definition ck (P : Z) (k : RadixKey) : ckey := (extra_key k, take (Z.to_nat P) (token_ids k)).

Lemma get_child_key_ok P k : 1 <= P -> 0 < key_len k -> get_child_key P k = Ok (ck P k).
Proof.
  intros HP Hk. unfold get_child_key, ck. destruct (Z.eqb_spec P 1) as [->|].
  - destruct (token_ids k) as [|t ts] eqn:E; [unfold key_len in Hk; rewrite E in Hk; done|]. done.
  - by rewrite slice_to_take by lia.
Qed.

(** Keys with the same child key agree on the first page. *)
Lemma ck_match_pos P k0 k1 m :
  1 <= P -> ck P k0 = ck P k1 -> 0 < key_len k0 -> 0 < key_len k1 ->
  (m < key_len k0 -> m < key_len k1 ->
     take (Z.to_nat P) (drop (Z.to_nat m) (token_ids k0)) <>
     take (Z.to_nat P) (drop (Z.to_nat m) (token_ids k1))) ->
  0 <= m -> m mod P = 0 -> P <= m.
Proof.
  intros HP Hck H0 H1 Hne Hm Hmod. injection Hck as _ Hck.
  apply (multiple_ge P m HP Hmod). destruct (Z.eq_dec m 0) as [->|]; [|lia].
  exfalso. apply Hne; [lia|lia|]. done.
Qed.

Lemma ck_take P k m : 1 <= P -> P <= m -> ck P (key_to k m) = ck P k.
Proof.
  intros HP Hm. unfold ck. rewrite key_to_tokens by lia. simpl. f_equal.
  rewrite take_take. f_equal. lia.
Qed.
