(* ===== verification/RadixCache.v ===== *)
(** * Radix tree prefix cache

    Models class [RadixCache] of [srt/mem_cache/radix_cache.py].  Tree nodes are
    Python objects with parent and child references: the model keeps them in a
    store [nodes] indexed by node id, and a reference is an id.  Objects removed
    from the tree stay in the store, as Python keeps them while referenced.
    [monotonic i] is the value of the [i]-th reading of [time.monotonic].  The
    allocator that receives evicted slots is an argument with its [free]
    method.  [heappop] returns the first smallest entry of the heap's list: with
    equal priorities Python's choice depends on the heap layout. *)

From S2P Require Import Prelude Tensors RadixKeys.

Inductive kv_event :=
  | BlockStored (block_hash : Z) (parent_block_hash : option Z) (ids : list tok) (block_size : Z)
  | BlockRemoved (block_hash : Z)
  | AllBlocksCleared.

Record RadixCache := {
  disable : bool;
  page_size : Z;
  enable_kv_cache_events : bool;
  is_eagle : bool;
  disable_finished_insert : bool;
  eviction_strategy : EvictionStrategy;
  nodes : gmap nat TreeNode;
  root_node : nat;
  counter : nat;
  ticks : nat;
  evictable_size_ : Z;
  protected_size_ : Z;
  evictable_leaves : gset nat;
  kv_event_queue : list kv_event
}.

(** ** Store access *)

Definition with_nodes (st : RadixCache) (ns : gmap nat TreeNode) : RadixCache :=
  {| disable := disable st; page_size := page_size st;
     enable_kv_cache_events := enable_kv_cache_events st; is_eagle := is_eagle st;
     disable_finished_insert := disable_finished_insert st;
     eviction_strategy := eviction_strategy st; nodes := ns; root_node := root_node st;
     counter := counter st; ticks := ticks st; evictable_size_ := evictable_size_ st;
     protected_size_ := protected_size_ st; evictable_leaves := evictable_leaves st;
     kv_event_queue := kv_event_queue st |}.

Definition with_ids (st : RadixCache) (c t : nat) : RadixCache :=
  {| disable := disable st; page_size := page_size st;
     enable_kv_cache_events := enable_kv_cache_events st; is_eagle := is_eagle st;
     disable_finished_insert := disable_finished_insert st;
     eviction_strategy := eviction_strategy st; nodes := nodes st; root_node := root_node st;
     counter := c; ticks := t; evictable_size_ := evictable_size_ st;
     protected_size_ := protected_size_ st; evictable_leaves := evictable_leaves st;
     kv_event_queue := kv_event_queue st |}.

Definition with_sizes (st : RadixCache) (e p : Z) : RadixCache :=
  {| disable := disable st; page_size := page_size st;
     enable_kv_cache_events := enable_kv_cache_events st; is_eagle := is_eagle st;
     disable_finished_insert := disable_finished_insert st;
     eviction_strategy := eviction_strategy st; nodes := nodes st; root_node := root_node st;
     counter := counter st; ticks := ticks st; evictable_size_ := e;
     protected_size_ := p; evictable_leaves := evictable_leaves st;
     kv_event_queue := kv_event_queue st |}.

Definition with_leaves (st : RadixCache) (l : gset nat) : RadixCache :=
  {| disable := disable st; page_size := page_size st;
     enable_kv_cache_events := enable_kv_cache_events st; is_eagle := is_eagle st;
     disable_finished_insert := disable_finished_insert st;
     eviction_strategy := eviction_strategy st; nodes := nodes st; root_node := root_node st;
     counter := counter st; ticks := ticks st; evictable_size_ := evictable_size_ st;
     protected_size_ := protected_size_ st; evictable_leaves := l;
     kv_event_queue := kv_event_queue st |}.

Definition with_events (st : RadixCache) (q : list kv_event) : RadixCache :=
  {| disable := disable st; page_size := page_size st;
     enable_kv_cache_events := enable_kv_cache_events st; is_eagle := is_eagle st;
     disable_finished_insert := disable_finished_insert st;
     eviction_strategy := eviction_strategy st; nodes := nodes st; root_node := root_node st;
     counter := counter st; ticks := ticks st; evictable_size_ := evictable_size_ st;
     protected_size_ := protected_size_ st; evictable_leaves := evictable_leaves st;
     kv_event_queue := q |}.

(** Dereference; attribute access on [None] raises. *)
Definition deref (st : RadixCache) (n : nat) : result TreeNode :=
  match nodes st !! n with Some x => Ok x | None => Err TypeError end.

Definition deref_value (n : TreeNode) : result (list Z) :=
  match value n with Some v => Ok v | None => Err TypeError end.

Definition deref_parent (n : TreeNode) : result nat :=
  match parent n with Some p => Ok p | None => Err TypeError end.

(** Assignment of attributes of one object. *)
Definition update (st : RadixCache) (n : nat) (f : TreeNode -> TreeNode) : RadixCache :=
  with_nodes st (alter f n (nodes st)).

Definition set_children (c : gmap ckey nat) (n : TreeNode) : TreeNode :=
  {| children := c; parent := parent n; key := key n; value := value n;
     lock_ref := lock_ref n; last_access_time := last_access_time n;
     creation_time := creation_time n; hit_count := hit_count n;
     host_ref_counter := host_ref_counter n; host_value := host_value n;
     hash_value := hash_value n; priority := priority n |}.

Definition set_body (p : option nat) (k : RadixKey) (v : option (list Z)) (h : option (list string))
    (n : TreeNode) : TreeNode :=
  {| children := children n; parent := p; key := k; value := v;
     lock_ref := lock_ref n; last_access_time := last_access_time n;
     creation_time := creation_time n; hit_count := hit_count n;
     host_ref_counter := host_ref_counter n; host_value := host_value n;
     hash_value := h; priority := priority n |}.

Definition set_lock (l : Z) (n : TreeNode) : TreeNode :=
  {| children := children n; parent := parent n; key := key n; value := value n;
     lock_ref := l; last_access_time := last_access_time n;
     creation_time := creation_time n; hit_count := hit_count n;
     host_ref_counter := host_ref_counter n; host_value := host_value n;
     hash_value := hash_value n; priority := priority n |}.

(** Access metadata: time, hit count, priority, hashes. *)
Definition set_meta (t h p : Z) (hs : option (list string)) (n : TreeNode) : TreeNode :=
  {| children := children n; parent := parent n; key := key n; value := value n;
     lock_ref := lock_ref n; last_access_time := t;
     creation_time := creation_time n; hit_count := h;
     host_ref_counter := host_ref_counter n; host_value := host_value n;
     hash_value := hs; priority := p |}.

Definition touch (t : Z) (n : TreeNode) : TreeNode := set_meta t (hit_count n) (priority n) (hash_value n) n.

Definition raise_priority (p : Z) (n : TreeNode) : TreeNode :=
  set_meta (last_access_time n) (hit_count n) (Z.max (priority n) p) (hash_value n) n.

Definition inc_hit_count (chunked : bool) (n : TreeNode) : TreeNode :=
  if chunked then n
  else set_meta (last_access_time n) (hit_count n + 1) (priority n) (hash_value n) n.

Definition set_hash (hs : list string) (n : TreeNode) : TreeNode :=
  set_meta (last_access_time n) (hit_count n) (priority n) (Some hs) n.

Section cache.
Context (monotonic : nat -> Z) (get_hash_str : list tok -> option string -> string).
Context {A : Type} (al_free : A -> list Z -> A).

Definition tick (st : RadixCache) : Z * RadixCache :=
  (monotonic (ticks st), with_ids st (counter st) (S (ticks st))).

(** [TreeNode(priority=...)]: two clock readings and the class counter. *)
Definition new_tree_node (st : RadixCache) (prio : Z) : TreeNode * nat * RadixCache :=
  let (t1, st1) := tick st in
  let (t2, st2) := tick st1 in
  ({| children := ∅; parent := None;
      key := {| token_ids := []; extra_key := None; is_bigram := false |};
      value := None; lock_ref := 0; last_access_time := t1; creation_time := t2;
      hit_count := 0; host_ref_counter := 0; host_value := None; hash_value := None;
      priority := prio |},
   counter st2, with_ids st2 (S (counter st2)) (ticks st2)).

(** ** Events *)

Definition record_all_cleared_event (st : RadixCache) : RadixCache :=
  if enable_kv_cache_events st
  then with_events st (kv_event_queue st ++ [AllBlocksCleared]) else st.

(** Hashes of a node, computed on first use. *)
Definition ensure_hash (st : RadixCache) (n : nat) : result (list string * RadixCache) :=
  let! x := deref st n in
  match hash_value x with
  | Some hs => Ok (hs, st)
  | None =>
      let par := match parent x with Some p => nodes st !! p | None => None end in
      let hs := compute_node_hash_values get_hash_str (key x) par (page_size st) in
      Ok (hs, update st n (set_hash hs))
  end.

Fixpoint store_events (pages : list (list tok)) (hs : list string) (page_index : Z) (parent_block_hash : option Z)
  : result (list kv_event) :=
  match pages with
  | [] => Ok []
  | [] :: ps => store_events ps hs page_index parent_block_hash
  | pg :: ps =>
      let! h := py_get hs page_index in
      let! block_hash := hash_str_to_int64 h in
      let! rest := store_events ps hs (page_index + 1) (Some block_hash) in
      Ok (BlockStored block_hash parent_block_hash pg (zlen pg) :: rest)
  end.

Definition record_store_event (st : RadixCache) (n : nat) : result RadixCache :=
  if enable_kv_cache_events st then
    let! (hs, st1) := ensure_hash st n in
    let! x := deref st1 n in
    let! parent_block_hash :=
      match parent x with
      | Some p =>
          if (p =? root_node st1)%nat then Ok None
          else
            let! px := deref st1 p in
            match hash_value px with
            | Some phs => match list.last phs with
                          | Some h => let! b := hash_str_to_int64 h in Ok (Some b)
                          | None => Ok None
                          end
            | None => Ok None
            end
      | None => Ok None
      end in
    let! evs := store_events (key_pages (key x) (page_size st1)) hs 0 parent_block_hash in
    Ok (with_events st1 (kv_event_queue st1 ++ evs))
  else Ok st.

Fixpoint remove_events (pages : list (list tok)) (hs : list string) (page_index : Z) : result (list kv_event) :=
  match pages with
  | [] => Ok []
  | [] :: ps => remove_events ps hs page_index
  | pg :: ps =>
      let! h := py_get hs page_index in
      let! block_hash := hash_str_to_int64 h in
      let! rest := remove_events ps hs (page_index + 1) in
      Ok (BlockRemoved block_hash :: rest)
  end.

Definition record_remove_event (st : RadixCache) (n : nat) : result RadixCache :=
  if enable_kv_cache_events st then
    let! (hs, st1) := ensure_hash st n in
    let! x := deref st1 n in
    let! evs := remove_events (key_pages (key x) (page_size st1)) hs 0 in
    Ok (with_events st1 (kv_event_queue st1 ++ evs))
  else Ok st.

Definition take_events (st : RadixCache) : list kv_event * RadixCache :=
  if negb (enable_kv_cache_events st) then ([], st)
  else (kv_event_queue st, with_events st []).

(** ** Construction *)

Definition maxsize : Z := 2 ^ 63 - 1.

Definition reset (st : RadixCache) : RadixCache :=
  let '(n, id, st1) := new_tree_node st (- maxsize) in
  let root :=
    {| children := children n; parent := parent n; key := key n; value := Some [];
       lock_ref := 1; last_access_time := last_access_time n; creation_time := creation_time n;
       hit_count := hit_count n; host_ref_counter := host_ref_counter n; host_value := Some [];
       hash_value := Some []; priority := priority n |} in
  record_all_cleared_event
    {| disable := disable st1; page_size := page_size st1;
       enable_kv_cache_events := enable_kv_cache_events st1; is_eagle := is_eagle st1;
       disable_finished_insert := disable_finished_insert st1;
       eviction_strategy := eviction_strategy st1; nodes := <[id := root]> (nodes st1);
       root_node := id; counter := counter st1; ticks := ticks st1;
       evictable_size_ := 0; protected_size_ := 0; evictable_leaves := ∅;
       kv_event_queue := kv_event_queue st1 |}.

Definition init (dis : bool) (psize : Z) (events eagle no_finished : bool) (policy : string)
    (next_id : nat) : result RadixCache :=
  let! s := strategy_of_name (lower policy) in
  Ok (reset {| disable := dis; page_size := psize; enable_kv_cache_events := events;
               is_eagle := eagle; disable_finished_insert := no_finished;
               eviction_strategy := s; nodes := ∅; root_node := next_id; counter := next_id;
               ticks := 0; evictable_size_ := 0; protected_size_ := 0;
               evictable_leaves := ∅; kv_event_queue := [] |}).

(** ** Internal helpers *)

(** Some child of [n] still has its value. *)
Definition has_live_child (st : RadixCache) (n : TreeNode) : bool :=
  existsb (fun c => match nodes st !! c with Some x => negb (evicted x) | None => false end)
    (map snd (map_to_list (children n))).

Definition update_leaf_status (st : RadixCache) (n : nat) : result RadixCache :=
  let! x := deref st n in
  if evicted x || (0 <? lock_ref x) then Ok (with_leaves st (evictable_leaves st ∖ {[n]}))
  else if has_live_child st x then Ok (with_leaves st (evictable_leaves st ∖ {[n]}))
  else Ok (with_leaves st ({[n]} ∪ evictable_leaves st)).

Definition split_node (st : RadixCache) (k : RadixKey) (child : nat) (split_len : Z)
  : result (nat * RadixCache) :=
  let! c := deref st child in
  let '(n, id, st1) := new_tree_node st (priority c) in
  let! ck_child := get_child_key (page_size st) (key_from k split_len) in
  let! v := deref_value c in
  let! p := deref_parent c in
  let! ck := get_child_key (page_size st) k in
  let '(h_new, h_child) := split_node_hash_value (hash_value c) split_len (page_size st) in
  let new_node :=
    {| children := {[ck_child := child]}; parent := parent c; key := key_to (key c) split_len;
       value := Some (slice_to v split_len); lock_ref := lock_ref c;
       last_access_time := last_access_time n; creation_time := creation_time n;
       hit_count := hit_count c; host_ref_counter := host_ref_counter n;
       host_value := host_value n; hash_value := h_new; priority := priority n |} in
  let st2 := with_nodes st1 (<[id := new_node]> (nodes st1)) in
  let st3 := update st2 child
    (set_body (Some id) (key_from (key c) split_len) (Some (slice_from v split_len)) h_child) in
  let! px := deref st3 p in
  Ok (id, update st3 p (set_children (<[ck := id]> (children px)))).

(** The [while] loop of [_match_prefix_helper]; every iteration consumes at
    least one token of [k], so [fuel] is the length of the key. *)
Fixpoint match_loop (fuel : nat) (st : RadixCache) (access_time : Z) (node : nat) (k : RadixKey)
    (child_key : ckey) (acc : list (list Z)) : result (list (list Z) * nat * RadixCache) :=
  match fuel with
  | O => Ok (acc, node, st)
  | S f =>
      let! x := deref st node in
      if 0 <? key_len k then
        match children x !! child_key with
        | None => Ok (acc, node, st)
        | Some child =>
            let st1 := update st child (touch access_time) in
            let! c := deref st1 child in
            let! prefix_len := key_match (page_size st1) (key c) k in
            if prefix_len <? key_len (key c) then
              let! (nn, st2) := split_node st1 (key c) child prefix_len in
              let! nx := deref st2 nn in
              let! v := deref_value nx in
              Ok (acc ++ [v], nn, st2)
            else
              let! v := deref_value c in
              let k' := key_from k prefix_len in
              if 0 <? key_len k' then
                let! ck' := get_child_key (page_size st1) k' in
                match_loop f st1 access_time child k' ck' (acc ++ [v])
              else match_loop f st1 access_time child k' child_key (acc ++ [v])
        end
      else Ok (acc, node, st)
  end.

Definition match_prefix_helper (st : RadixCache) (node : nat) (k : RadixKey)
  : result (list (list Z) * nat * RadixCache) :=
  let (t, st1) := tick st in
  let st2 := update st1 node (touch t) in
  let! ck := get_child_key (page_size st2) k in
  match_loop (S (length (token_ids k))) st2 t node k ck [].

(** The [while] loop of [_insert_helper]. *)
Fixpoint insert_loop (fuel : nat) (st : RadixCache) (access_time prio : Z) (chunked : bool)
    (node : nat) (k : RadixKey) (v : list Z) (child_key : ckey) (total : Z)
  : result (nat * RadixKey * list Z * ckey * Z * RadixCache) :=
  match fuel with
  | O => Ok (node, k, v, child_key, total, st)
  | S f =>
      let! x := deref st node in
      if 0 <? key_len k then
        match children x !! child_key with
        | None => Ok (node, k, v, child_key, total, st)
        | Some child =>
            let st1 := update st child (touch access_time) in
            let! c := deref st1 child in
            let! prefix_len := key_match (page_size st1) (key c) k in
            let k' := key_from k prefix_len in
            let v' := slice_from v prefix_len in
            let! (node', st2) :=
              if prefix_len <? key_len (key c)
              then split_node st1 (key c) child prefix_len else Ok (child, st1) in
            let st3 := update st2 node' (fun n => inc_hit_count chunked (raise_priority prio n)) in
            if 0 <? key_len k' then
              let! ck' := get_child_key (page_size st3) k' in
              insert_loop f st3 access_time prio chunked node' k' v' ck' (total + prefix_len)
            else insert_loop f st3 access_time prio chunked node' k' v' child_key (total + prefix_len)
        end
      else Ok (node, k, v, child_key, total, st)
  end.

Definition insert_helper (st : RadixCache) (node : nat) (k : RadixKey) (v : list Z)
    (prio : option Z) (chunked : bool) : result (Z * RadixCache) :=
  let prio := default 0 prio in
  let (t, st1) := tick st in
  let st2 := update st1 node (fun n => raise_priority prio (touch t n)) in
  if key_len k =? 0 then Ok (0, st2)
  else
    let! ck := get_child_key (page_size st2) k in
    let! (node', k', v', ck', total, st3) :=
      insert_loop (S (length (token_ids k))) st2 t prio chunked node k v ck 0 in
    if 0 <? key_len k' then
      let '(n, id, st4) := new_tree_node st3 prio in
      let new_node := inc_hit_count chunked (set_body (Some node') k' (Some v') None n) in
      let st5 := with_nodes st4 (<[id := new_node]> (nodes st4)) in
      let! nx := deref st5 node' in
      let st6 := update st5 node' (set_children (<[ck' := id]> (children nx))) in
      let st7 := with_sizes st6 (evictable_size_ st6 + key_len k') (protected_size_ st6) in
      let! st8 := update_leaf_status st7 node' in
      let! st9 := update_leaf_status st8 id in
      let! st10 := record_store_event st9 id in
      Ok (total, st10)
    else Ok (total, st3).

Definition delete_leaf (st : RadixCache) (n : nat) : result RadixCache :=
  let! x := deref st n in
  let! ck := get_child_key (page_size st) (key x) in
  let! p := deref_parent x in
  let! px := deref st p in
  let v := children px !! ck in
  let st1 := update st p (set_children (delete ck (children px))) in
  if bool_decide (v = Some n) then
    let st2 := with_sizes st1 (evictable_size_ st1 - key_len (key x)) (protected_size_ st1) in
    let st3 := with_leaves st2 (evictable_leaves st2 ∖ {[n]}) in
    update_leaf_status st3 p
  else Err AssertionError.

(** ** Public API *)

Record MatchResult := { device_indices : list Z; last_device_node : nat }.

Definition match_prefix (st : RadixCache) (k : RadixKey) : result (MatchResult * RadixCache) :=
  let (k, _) := maybe_bigram_convert (is_eagle st) k None in
  let empty := Ok ({| device_indices := []; last_device_node := root_node st |}, st) in
  if disable st || (key_len k =? 0) then empty
  else
    let k := if page_size st =? 1 then k
             else key_to k (key_len k / page_size st * page_size st) in
    if key_len k =? 0 then empty
    else
      let! (vs, n, st') := match_prefix_helper st (root_node st) k in
      Ok ({| device_indices := concat vs; last_device_node := n |}, st').

Definition insert (st : RadixCache) (k : RadixKey) (v : option (list Z)) (prio : option Z) (chunked : bool)
  : result (Z * RadixCache) :=
  if disable st then Ok (0, st)
  else
    let v := default (map fst (token_ids k)) v in
    let '(k, v') := maybe_bigram_convert (is_eagle st) k (Some v) in
    insert_helper st (root_node st) k (default [] v') prio chunked.

(** Heap entries: priority and node; ties compare the access times. *)
Definition entry_lt (st : RadixCache) (a b : list Z * nat) : bool :=
  lex_lt (fst a) (fst b) ||
  (negb (lex_lt (fst b) (fst a)) &&
   match nodes st !! snd a, nodes st !! snd b with
   | Some x, Some y => last_access_time x <? last_access_time y
   | _, _ => false
   end).

(** [heapq.heappop]: the first smallest entry and the others. *)
Fixpoint heappop (st : RadixCache) (h : list (list Z * nat)) : option ((list Z * nat) * list (list Z * nat)) :=
  match h with
  | [] => None
  | e :: h' =>
      match heappop st h' with
      | None => Some (e, [])
      | Some (m, rest) => if entry_lt st m e then Some (m, e :: rest) else Some (e, m :: rest)
      end
  end.

(** The [while] loop of [evict]; each iteration deletes one node. *)
Fixpoint evict_loop (fuel : nat) (al : A) (st : RadixCache) (heap : list (list Z * nat))
    (num_tokens num_evicted : Z) : result (Z * A * RadixCache) :=
  match fuel with
  | O => Ok (num_evicted, al, st)
  | S f =>
      if num_evicted <? num_tokens then
        match heappop st heap with
        | None => Ok (num_evicted, al, st)
        | Some ((_, x), heap1) =>
            let! xn := deref st x in
            let! v := deref_value xn in
            let al1 := al_free al v in
            let! st1 := delete_leaf st x in
            let! p := deref_parent xn in
            let! px := deref st1 p in
            let heap2 :=
              if bool_decide (children px = ∅) && (lock_ref px =? 0)
              then heap1 ++ [(get_priority (eviction_strategy st1) px, p)] else heap1 in
            let! st2 := record_remove_event st1 x in
            evict_loop f al1 st2 heap2 num_tokens (num_evicted + zlen v)
        end
      else Ok (num_evicted, al, st)
  end.

Definition evict (al : A) (st : RadixCache) (num_tokens : Z) : result (Z * A * RadixCache) :=
  if disable st then Ok (0, al, st)
  else
    let! heap := rmap (fun n => let! x := deref st n in Ok (get_priority (eviction_strategy st) x, n))
                   (elements (evictable_leaves st)) in
    evict_loop (S (size (nodes st))) al st heap num_tokens 0.

(** Walks to the root; [fuel] bounds the depth by the number of nodes. *)
Fixpoint inc_lock_loop (fuel : nat) (st : RadixCache) (n : nat) (delta : Z) : result (Z * RadixCache) :=
  match fuel with
  | O => Ok (delta, st)
  | S f =>
      if (n =? root_node st)%nat then Ok (delta, st)
      else
        let! x := deref st n in
        let len := key_len (key x) in
        let '(st1, delta1) :=
          if lock_ref x =? 0
          then (with_sizes st (evictable_size_ st - len) (protected_size_ st + len), delta - len)
          else (st, delta) in
        let st2 := update st1 n (set_lock (lock_ref x + 1)) in
        let! st3 := update_leaf_status st2 n in
        let! p := deref_parent x in
        inc_lock_loop f st3 p delta1
  end.

Definition inc_lock_ref (st : RadixCache) (n : nat) : result (Z * RadixCache) :=
  if disable st then Ok (0, st) else inc_lock_loop (S (size (nodes st))) st n 0.

Fixpoint dec_lock_loop (fuel : nat) (st : RadixCache) (n : nat) (delta : Z) : result (Z * RadixCache) :=
  match fuel with
  | O => Ok (delta, st)
  | S f =>
      if (n =? root_node st)%nat then Ok (delta, st)
      else
        let! x := deref st n in
        let len := key_len (key x) in
        let '(st1, delta1) :=
          if lock_ref x =? 1
          then (with_sizes st (evictable_size_ st + len) (protected_size_ st - len), delta + len)
          else (st, delta) in
        let st2 := update st1 n (set_lock (lock_ref x - 1)) in
        let! st3 := update_leaf_status st2 n in
        match parent x with
        | None => Err AssertionError
        | Some p => dec_lock_loop f st3 p delta1
        end
  end.

Definition dec_lock_ref (st : RadixCache) (n : nat) : result (Z * RadixCache) :=
  if disable st then Ok (0, st) else dec_lock_loop (S (size (nodes st))) st n 0.

Definition evictable_size (st : RadixCache) : Z := evictable_size_ st.
Definition protected_size (st : RadixCache) : Z := protected_size_ st.

(** Depth-first sum with an explicit stack. *)
Fixpoint total_loop (fuel : nat) (st : RadixCache) (stack : list nat) (total : Z) : result Z :=
  match fuel with
  | O => Ok total
  | S f =>
      match stack with
      | [] => Ok total
      | n :: stack' =>
          let! x := deref st n in
          let! v := deref_value x in
          let live := List.filter
            (fun c => match nodes st !! c with Some y => negb (evicted y) | None => false end)
            (map snd (map_to_list (children x))) in
          total_loop f st (rev live ++ stack') (total + zlen v)
      end
  end.

Definition total_size (st : RadixCache) : result Z :=
  total_loop (S (size (nodes st))) st [root_node st] 0.
End cache.
