(* ===== verification/RadixTheory.v ===== *)
(** * Invariant of the radix tree

    The structural invariant of the node store, the size accounting, descent
    along child references, and how node splitting, access-metadata updates and
    locking act on them. *)

From S2P Require Import Prelude Tensors RadixKeys RadixKeysTheory RadixCache.

(** ** Descent *)

(** [reach st n a ks vs]: [a] is reached from [n] along child references; [ks]
    and [vs] are the tokens and slots on the way. *)
Inductive reach (st : RadixCache) : nat -> nat -> list tok -> list Z -> Prop :=
  | reach_here n : reach st n n [] []
  | reach_step n x c m y v a ks vs :
      nodes st !! n = Some x -> children x !! c = Some m ->
      nodes st !! m = Some y -> value y = Some v -> reach st m a ks vs ->
      reach st n a (token_ids (key y) ++ ks) (v ++ vs).

Lemma reach_trans st n a b ks vs ks' vs' :
  reach st n a ks vs -> reach st a b ks' vs' -> reach st n b (ks ++ ks') (vs ++ vs').
Proof.
  induction 1 as [|n x c m y v a ks vs Hn Hc Hm Hv _ IH]; intros H; [done|].
  rewrite <- !app_assoc. econstructor; eauto.
Qed.

(** ** Structural invariant *)

Record tree_node (st : RadixCache) (L : gset nat) (n : nat) (x : TreeNode) (p : nat) (px : TreeNode) : Prop := {
  tn_parent : parent x = Some p;
  tn_plive : p ∈ L;
  tn_p : nodes st !! p = Some px;
  tn_entry : children px !! ck (page_size st) (key x) = Some n;
  tn_pos : 0 < key_len (key x);
  tn_aligned : aligned (page_size st) (token_ids (key x));
  tn_value : exists v, value x = Some v /\ zlen v = key_len (key x);
  tn_extra : p <> root_node st -> extra_key (key x) = extra_key (key px);
  tn_lock : 0 <= lock_ref x;
  tn_lock_le : p <> root_node st -> lock_ref x <= lock_ref px
}.

(** [L] is the set of nodes in the tree; [pl] their depth in tokens. *)
Record tree (st : RadixCache) (L : gset nat) (pl : nat -> Z) : Prop := {
  tr_ps : 1 <= page_size st;
  tr_root : root_node st ∈ L;
  tr_rootn : exists r, nodes st !! root_node st = Some r /\ parent r = None /\
               token_ids (key r) = [] /\ value r = Some [] /\ lock_ref r = 1;
  tr_fresh : forall n x, nodes st !! n = Some x -> (n < counter st)%nat;
  tr_node : forall n, n ∈ L -> n <> root_node st ->
              exists x p px, nodes st !! n = Some x /\ tree_node st L n x p px;
  tr_child : forall n x c m, n ∈ L -> nodes st !! n = Some x -> children x !! c = Some m ->
              m ∈ L /\ m <> root_node st /\
              exists y, nodes st !! m = Some y /\ parent y = Some n /\ c = ck (page_size st) (key y);
  tr_rank0 : pl (root_node st) = 0;
  tr_rank : forall n x p, n ∈ L -> n <> root_node st -> nodes st !! n = Some x -> parent x = Some p ->
              pl n = pl p + key_len (key x)
}.

(** ** Accounting *)

Definition node_sum (f : TreeNode -> Z) (st : RadixCache) (L : gset nat) : Z :=
  zsum (map (fun n => match nodes st !! n with Some x => f x | None => 0 end) (elements L)).

Definition unlocked_len (x : TreeNode) : Z := if lock_ref x =? 0 then key_len (key x) else 0.
Definition locked_len (x : TreeNode) : Z := if lock_ref x =? 0 then 0 else key_len (key x).

Definition is_leaf (st : RadixCache) (n : nat) : Prop :=
  exists x, nodes st !! n = Some x /\ lock_ref x = 0 /\ children x = ∅.

Record acct (st : RadixCache) (L : gset nat) : Prop := {
  ac_evictable : evictable_size_ st = node_sum unlocked_len st L;
  ac_protected : protected_size_ st = node_sum locked_len st L;
  ac_leaves : forall n, n ∈ evictable_leaves st <-> n ∈ L /\ is_leaf st n
}.

(** ** Access metadata does not matter *)

Definition same_struct (x y : TreeNode) : Prop :=
  children x = children y /\ parent x = parent y /\ key x = key y /\ value x = value y /\
  lock_ref x = lock_ref y.

(** Two stores with the same tree: times, hit counts, priorities, hashes and
    events may differ. *)
Record sim (st st' : RadixCache) : Prop := {
  sim_ps : page_size st' = page_size st;
  sim_root : root_node st' = root_node st;
  sim_counter : counter st' = counter st;
  sim_ev : evictable_size_ st' = evictable_size_ st;
  sim_pr : protected_size_ st' = protected_size_ st;
  sim_leaves : evictable_leaves st' = evictable_leaves st;
  sim_disable : disable st' = disable st;
  sim_eagle : is_eagle st' = is_eagle st;
  sim_kv : enable_kv_cache_events st' = enable_kv_cache_events st;
  sim_nodes : forall n, option_relation same_struct (fun _ => False) (fun _ => False)
                (nodes st !! n) (nodes st' !! n)
}.

Lemma same_struct_refl x : same_struct x x.
Proof. done. Qed.

Lemma sim_refl st : sim st st.
Proof. split; try done. intros n. destruct (nodes st !! n); [apply same_struct_refl|done]. Qed.

Lemma sim_lookup st st' n x : sim st st' -> nodes st !! n = Some x ->
  exists y, nodes st' !! n = Some y /\ same_struct x y.
Proof.
  intros H Hx. pose proof (sim_nodes _ _ H n) as Hn. rewrite Hx in Hn.
  destruct (nodes st' !! n) as [y|]; [|done]. by exists y.
Qed.

Lemma same_struct_sym x y : same_struct x y -> same_struct y x.
Proof. intros (? & ? & ? & ? & ?). split_and!; congruence. Qed.

Lemma sim_sym st st' : sim st st' -> sim st' st.
Proof.
  intros [? ? ? ? ? ? ? ? ? H]. split; try congruence. intros n. specialize (H n).
  destruct (nodes st !! n), (nodes st' !! n); simpl in *; try done. by apply same_struct_sym.
Qed.

Lemma sim_trans st1 st2 st3 : sim st1 st2 -> sim st2 st3 -> sim st1 st3.
Proof.
  intros [? ? ? ? ? ? ? ? ? H] [? ? ? ? ? ? ? ? ? H']. split; try congruence. intros n. specialize (H n). specialize (H' n).
  destruct (nodes st1 !! n), (nodes st2 !! n), (nodes st3 !! n); simpl in *; try done.
  destruct H as (? & ? & ? & ? & ?), H' as (? & ? & ? & ? & ?). split_and!; congruence.
Qed.

#[global] Instance sim_equiv : Equivalence sim.
Proof. split; [intro; apply sim_refl|intros ? ?; apply sim_sym|intros ? ? ?; apply sim_trans]. Qed.

Lemma sim_update st n f : (forall x, same_struct x (f x)) -> sim st (update st n f).
Proof.
  intros H. split; try done. intros m. simpl. destruct (decide (m = n)) as [->|Hne].
  - rewrite lookup_alter_eq. destruct (nodes st !! n); simpl; [apply H|done].
  - rewrite lookup_alter_ne by done. destruct (nodes st !! m); simpl; [apply same_struct_refl|done].
Qed.

Lemma sim_tick mono st : sim st (snd (tick mono st)).
Proof. split; try done. intros n. simpl. destruct (nodes st !! n); simpl; [apply same_struct_refl|done]. Qed.

Lemma sim_events st q : sim st (with_events st q).
Proof. split; try done. intros n. simpl. destruct (nodes st !! n); simpl; [apply same_struct_refl|done]. Qed.

Lemma touch_struct t x : same_struct x (touch t x).
Proof. done. Qed.

Lemma reach_sim st st' n a ks vs : sim st st' -> reach st n a ks vs -> reach st' n a ks vs.
Proof.
  intros Hs. induction 1 as [|n x c m y v a ks vs Hn Hc Hm Hv _ IH]; [constructor|].
  destruct (sim_lookup _ _ _ _ Hs Hn) as (x' & Hx' & E1 & _).
  destruct (sim_lookup _ _ _ _ Hs Hm) as (y' & Hy' & _ & _ & E3 & E4 & _).
  rewrite E3. econstructor; [done|by rewrite <- E1|done|by rewrite <- E4|done].
Qed.

Lemma tree_sim st st' L pl : sim st st' -> tree st L pl -> tree st' L pl.
Proof.
  intros Hs [H1 H2 H3 H4 H5 H6 H7 H8]. pose proof Hs as [S1 S2 S3 _ _ _ _ _ _ _].
  split; rewrite ?S1, ?S2, ?S3; try done.
  - destruct H3 as (r & Hr & R1 & R2 & R3 & R4).
    destruct (sim_lookup _ _ _ _ Hs Hr) as (r' & Hr' & _ & E2 & E3 & E4 & E5).
    exists r'. rewrite <- E2, <- E3, <- E4, <- E5. done.
  - intros n y Hy. destruct (sim_lookup _ _ _ _ (sim_sym _ _ Hs) Hy) as (x & Hx & _). by eapply H4.
  - intros n Hn Hne. destruct (H5 n Hn Hne) as (x & p & px & Hx & [T1 T2 T3 T4 T5 T6 T7 T8 T9 T10]).
    destruct (sim_lookup _ _ _ _ Hs Hx) as (x' & Hx' & E1 & E2 & E3 & E4 & E5).
    destruct (sim_lookup _ _ _ _ Hs T3) as (p' & Hp' & F1 & F2 & F3 & F4 & F5).
    exists x', p, p'. split; [done|]. split; rewrite ?S1, ?S2; try (by rewrite <- ?E2, <- ?E3, <- ?E4, <- ?E5, <- ?F1, <- ?F3, <- ?F5).
  - intros n y c m Hn Hy Hc. destruct (sim_lookup _ _ _ _ (sim_sym _ _ Hs) Hy) as (x & Hx & E1 & _).
    destruct (H6 n x c m Hn Hx) as (G1 & G2 & z & Hz & G3 & G4); [by rewrite <- E1|].
    destruct (sim_lookup _ _ _ _ Hs Hz) as (z' & Hz' & _ & F2 & F3 & _).
    split; [done|]. split; [done|]. exists z'. by rewrite <- F2, <- F3.
  - intros n y p Hn Hne Hy Hp. destruct (sim_lookup _ _ _ _ (sim_sym _ _ Hs) Hy) as (x & Hx & _ & E2 & E3 & _).
    rewrite E3. eapply H8; try done. by rewrite <- E2.
Qed.

Lemma node_sum_ext f st st' L :
  (forall n, n ∈ L -> match nodes st !! n with Some x => f x | None => 0 end =
                      match nodes st' !! n with Some x => f x | None => 0 end) ->
  node_sum f st L = node_sum f st' L.
Proof.
  intros H. unfold node_sum. f_equal. apply map_ext_in. intros n Hn%list_elem_of_In.
  apply H. by apply elem_of_elements.
Qed.

Lemma acct_sim st st' L : sim st st' -> acct st L -> acct st' L.
Proof.
  intros Hs [A1 A2 A3]. pose proof Hs as [_ _ _ S4 S5 S6 _ _ _ _].
  assert (Hsum : forall f, (forall x y, same_struct x y -> f x = f y) -> node_sum f st L = node_sum f st' L).
  { intros f Hf. apply node_sum_ext. intros n _. pose proof (sim_nodes _ _ Hs n) as Hn.
    destruct (nodes st !! n), (nodes st' !! n); simpl in *; try done. by apply Hf. }
  split.
  - rewrite S4, A1. apply Hsum. intros x y (_ & _ & E3 & _ & E5). unfold unlocked_len. by rewrite E3, E5.
  - rewrite S5, A2. apply Hsum. intros x y (_ & _ & E3 & _ & E5). unfold locked_len. by rewrite E3, E5.
  - intros n. rewrite S6, A3. unfold is_leaf. split; intros (Hn & x & Hx & H1 & H2); (split; [done|]).
    + destruct (sim_lookup _ _ _ _ Hs Hx) as (y & Hy & E1 & _ & _ & _ & E5). exists y. by rewrite <- E1, <- E5.
    + destruct (sim_lookup _ _ _ _ (sim_sym _ _ Hs) Hx) as (y & Hy & E1 & _ & _ & _ & E5). exists y. by rewrite <- E1, <- E5.
Qed.

(** ** Sums over the tree *)

Lemma zsum_perm l k : l ≡ₚ k -> zsum l = zsum k.
Proof. unfold zsum. induction 1; simpl; lia. Qed.

Lemma node_sum_insert f st L n :
  n ∉ L ->
  node_sum f st ({[n]} ∪ L) = match nodes st !! n with Some x => f x | None => 0 end + node_sum f st L.
Proof.
  intros Hn. unfold node_sum.
  rewrite (zsum_perm _ _ (Permutation_map _ (elements_union_singleton L n Hn))). done.
Qed.

Lemma node_sum_remove f st L n :
  n ∈ L ->
  node_sum f st L = match nodes st !! n with Some x => f x | None => 0 end + node_sum f st (L ∖ {[n]}).
Proof.
  intros Hn. rewrite <- node_sum_insert by set_solver. f_equal.
  apply leibniz_equiv. rewrite <- union_difference; set_solver.
Qed.

(** Changing one node of the tree. *)
Lemma node_sum_change f st st' L n x x' :
  n ∈ L -> nodes st !! n = Some x -> nodes st' !! n = Some x' ->
  (forall m, m ∈ L -> m <> n -> match nodes st !! m with Some y => f y | None => 0 end =
                               match nodes st' !! m with Some y => f y | None => 0 end) ->
  node_sum f st' L = node_sum f st L - f x + f x'.
Proof.
  intros Hn Hx Hx' Hs. rewrite (node_sum_remove f st L n Hn), (node_sum_remove f st' L n Hn), Hx, Hx'.
  rewrite (node_sum_ext f st st' (L ∖ {[n]})); [lia|]. intros m Hm. apply Hs; set_solver.
Qed.

(** ** Lock references

    [holds Q H k]: [k] of the nodes listed in [H] satisfy [Q]. *)
Inductive holds (Q : nat -> Prop) : list nat -> Z -> Prop :=
  | holds_nil : holds Q [] 0
  | holds_yes h H k : Q h -> holds Q H k -> holds Q (h :: H) (1 + k)
  | holds_no h H k : ~ Q h -> holds Q H k -> holds Q (h :: H) k.

Lemma holds_ext (Q Q' : nat -> Prop) H k :
  (forall h, h ∈ H -> Q h <-> Q' h) -> holds Q H k -> holds Q' H k.
Proof.
  intros HQ. induction 1 as [|h H k Hh _ IH|h H k Hh _ IH]; [constructor| |].
  - apply holds_yes; [apply HQ; [by left|done]|]. apply IH. intros i Hi. apply HQ. by right.
  - apply holds_no; [rewrite <- HQ by (by left); done|]. apply IH. intros i Hi. apply HQ. by right.
Qed.

Lemma holds_mono (Q Q' : nat -> Prop) H k k' :
  (forall h, h ∈ H -> Q h -> Q' h) -> holds Q H k -> holds Q' H k' -> k <= k'.
Proof.
  intros HQ H1. revert k' HQ. induction H1 as [|h H k Hh _ IH|h H k Hh _ IH]; intros k' HQ H2; inv H2; try lia.
  - enough (k <= k0) by lia. apply IH; [|done]. intros i Hi. apply HQ. by right.
  - exfalso. match goal with H : ~ Q' h |- _ => apply H end. apply HQ; [by left|done].
  - enough (k <= k0) by lia. apply IH; [|done]. intros i Hi. apply HQ. by right.
  - apply IH; [|done]. intros i Hi. apply HQ. by right.
Qed.

Lemma holds_fun Q H k k' : holds Q H k -> holds Q H k' -> k = k'.
Proof. intros H1 H2. apply Z.le_antisymm; eapply holds_mono; eauto. Qed.

Lemma holds_nonneg Q H k : holds Q H k -> 0 <= k.
Proof. induction 1; lia. Qed.

Lemma holds_zero Q H h : holds Q H 0 -> h ∈ H -> ~ Q h.
Proof.
  intros H0. remember 0 as k eqn:E. induction H0 as [|i H k Hi Hh IH|i H k Hi Hh IH]; intros Hin.
  - by apply not_elem_of_nil in Hin.
  - apply holds_nonneg in Hh. lia.
  - apply elem_of_cons in Hin as [->|Hin]; [done|by apply IH].
Qed.

Lemma holds_perm Q H H' k : H ≡ₚ H' -> holds Q H k -> holds Q H' k.
Proof.
  intros HP. revert k. induction HP as [|h H H' _ IH|h i H|H1 H2 H3 _ IH1 _ IH2]; intros k Hk; [done| | |by apply IH2, IH1].
  - inv Hk; [apply holds_yes|apply holds_no]; auto.
  - inv Hk; match goal with Hh : holds Q (_ :: H) _ |- _ => inv Hh end;
      repeat (first [by constructor|apply holds_yes; [done|]|apply holds_no; [done|]]); done.
Qed.

(** [H] lists the nodes that are locked, with repetition: a node's reference
    count is the number of locked nodes at or below it. *)
Record locks (st : RadixCache) (L : gset nat) (H : list nat) : Prop := {
  lk_live : forall h, h ∈ H -> h ∈ L;
  lk_count : forall n x, n ∈ L -> n <> root_node st -> nodes st !! n = Some x ->
    holds (fun h => exists ks vs, reach st n h ks vs) H (lock_ref x)
}.

Lemma locks_sim st st' L H : sim st st' -> locks st L H -> locks st' L H.
Proof.
  intros Hs [K1 K2]. split; [done|]. intros n y Hn Hnr Hy. rewrite (sim_root _ _ Hs) in Hnr.
  destruct (sim_lookup _ _ _ _ (sim_sym _ _ Hs) Hy) as (x & Hx & _ & _ & _ & _ & El). rewrite El.
  eapply holds_ext; [|by apply K2]. intros h _.
  split; intros (ks & vs & Hr); exists ks, vs; (eapply reach_sim; [|done]); [done|by apply sim_sym].
Qed.

(** ** Slots held by the tree *)

Definition node_slots (st : RadixCache) (n : nat) : list Z := default [] (nodes st !! n ≫= value).
Definition tree_slots (st : RadixCache) (L : gset nat) : list Z := concat (map (node_slots st) (elements L)).

Lemma concat_perm {A} (l k : list (list A)) : l ≡ₚ k -> concat l ≡ₚ concat k.
Proof.
  induction 1 as [|x l k _ IH|x y l|l k m _ IH1 _ IH2]; simpl; [done|by rewrite IH| |by rewrite IH1].
  rewrite !app_assoc. apply Permutation_app_tail, Permutation_app_comm.
Qed.

Lemma tree_slots_insert st L n : n ∉ L -> tree_slots st ({[n]} ∪ L) ≡ₚ node_slots st n ++ tree_slots st L.
Proof.
  intros Hn. unfold tree_slots. by rewrite (concat_perm _ _ (Permutation_map _ (elements_union_singleton L n Hn))).
Qed.

Lemma tree_slots_remove st L n : n ∈ L -> tree_slots st L ≡ₚ node_slots st n ++ tree_slots st (L ∖ {[n]}).
Proof.
  intros Hn. rewrite <- tree_slots_insert by set_solver.
  replace ({[n]} ∪ L ∖ {[n]}) with L; [done|]. apply leibniz_equiv, union_difference. set_solver.
Qed.

Lemma tree_slots_ext st st' L : (forall n, n ∈ L -> node_slots st' n = node_slots st n) -> tree_slots st' L = tree_slots st L.
Proof.
  intros H. unfold tree_slots. f_equal. apply map_ext_in. intros n Hn%list_elem_of_In. apply H. by apply elem_of_elements.
Qed.

Lemma node_slots_value st n x v : nodes st !! n = Some x -> value x = Some v -> node_slots st n = v.
Proof. unfold node_slots. intros -> Hv. simpl. by rewrite Hv. Qed.

Lemma slots_sim st st' L : sim st st' -> tree_slots st' L = tree_slots st L.
Proof.
  intros Hs. apply tree_slots_ext. intros n _. unfold node_slots. pose proof (sim_nodes _ _ Hs n) as Hn.
  destruct (nodes st !! n), (nodes st' !! n); simpl in *; try done. destruct Hn as (_ & _ & _ & E & _). by rewrite E.
Qed.
