(* ===== verification/RadixSplit.v ===== *)
(** * Splitting a node

    [_split_node] inserts a node between a child and its parent.  It keeps the
    structural invariant, the accounting and everything that can be reached. *)

From S2P Require Import Prelude Tensors RadixKeys RadixKeysTheory RadixCache RadixTheory.

(** The effect of a split of [child] at [m] tokens, by object. *)
Record split_rel (st st' : RadixCache) (id child : nat) (c : TreeNode) (v : list Z) (p : nat) (px : TreeNode) (m : Z) : Prop := {
  sp_id : id = counter st;
  sp_new : exists nn, nodes st' !! id = Some nn /\
    children nn = {[ck (page_size st) (key_from (key c) m) := child]} /\ parent nn = Some p /\
    key nn = key_to (key c) m /\ value nn = Some (take (Z.to_nat m) v) /\ lock_ref nn = lock_ref c;
  sp_child : exists cc, nodes st' !! child = Some cc /\
    children cc = children c /\ parent cc = Some id /\
    key cc = key_from (key c) m /\ value cc = Some (drop (Z.to_nat m) v) /\ lock_ref cc = lock_ref c;
  sp_parent : exists pp, nodes st' !! p = Some pp /\
    children pp = <[ck (page_size st) (key c) := id]> (children px) /\ parent pp = parent px /\
    key pp = key px /\ value pp = value px /\ lock_ref pp = lock_ref px;
  sp_other : forall n, n <> id -> n <> child -> n <> p -> nodes st' !! n = nodes st !! n;
  sp_counter : counter st' = S (counter st);
  sp_ps : page_size st' = page_size st;
  sp_root : root_node st' = root_node st;
  sp_ev : evictable_size_ st' = evictable_size_ st;
  sp_pr : protected_size_ st' = protected_size_ st;
  sp_leaves : evictable_leaves st' = evictable_leaves st;
  sp_disable : disable st' = disable st;
  sp_eagle : is_eagle st' = is_eagle st;
  sp_kv : enable_kv_cache_events st' = enable_kv_cache_events st
}.

Section split.
Context (mono : nat -> Z) (st : RadixCache) (L : gset nat) (pl : nat -> Z).
Context (child : nat) (c : TreeNode) (v : list Z) (p : nat) (px : TreeNode) (m : Z).
Context (Ht : tree st L pl) (Hin : child ∈ L) (Hnr : child <> root_node st).
Context (Hc : nodes st !! child = Some c) (Hn : tree_node st L child c p px).
Context (Hv : value c = Some v) (Hlen : zlen v = key_len (key c)).
Context (Hm : 0 < m < key_len (key c)) (Hmod : m mod page_size st = 0).

Lemma split_parent_ne : p <> child.
Proof.
  intros ->. pose proof (tr_rank _ _ _ Ht _ _ _ Hin Hnr Hc (tn_parent _ _ _ _ _ _ Hn)) as H.
  pose proof (tn_pos _ _ _ _ _ _ Hn). lia.
Qed.

Lemma split_fresh n x : nodes st !! n = Some x -> n <> counter st.
Proof. intros H ->. apply (tr_fresh _ _ _ Ht) in H. lia. Qed.

Lemma split_node_rel : exists id st',
  split_node mono st (key c) child m = Ok (id, st') /\ split_rel st st' id child c v p px m.
Proof.
  pose proof (tr_ps _ _ _ Ht) as HP. pose proof (tn_parent _ _ _ _ _ _ Hn) as Hpar.
  pose proof (tn_p _ _ _ _ _ _ Hn) as Hpx. pose proof split_parent_ne as Hne.
  pose proof (split_fresh _ _ Hc) as Hf1. pose proof (split_fresh _ _ Hpx) as Hf2.
  unfold split_node. unfold deref at 1. rewrite Hc. cbn [rbind]. cbn [new_tree_node tick].
  unfold new_tree_node, tick. cbv beta iota zeta.
  rewrite (get_child_key_ok _ (key_from (key c) m)) by (done || (rewrite key_from_len; lia)). cbn [rbind].
  unfold deref_value. rewrite Hv. cbn [rbind]. unfold deref_parent. rewrite Hpar. cbn [rbind].
  rewrite (get_child_key_ok _ (key c)) by (done || lia). cbn [rbind].
  destruct (split_node_hash_value _ _ _) as [h1 h2].
  set (id := counter _). unfold deref. cbn [nodes update with_nodes with_ids].
  rewrite (lookup_alter_ne _ _ child p) by done. rewrite lookup_insert_ne by (unfold id; simpl; done).
  rewrite Hpx. cbn [rbind]. eexists _, _. split; [done|].
  rewrite slice_to_take, slice_from_drop by lia.
  split; try done; simpl.
  - eexists. rewrite !lookup_alter_ne by (unfold id; simpl; done). rewrite lookup_insert_eq.
    split; [done|]. done.
  - eexists. rewrite lookup_alter_ne by done. rewrite lookup_alter_eq, lookup_insert_ne by (unfold id; simpl; done).
    rewrite Hc. split; [done|]. done.
  - eexists. rewrite lookup_alter_eq, lookup_alter_ne by done.
    rewrite lookup_insert_ne by (unfold id; simpl; done). rewrite Hpx. split; [done|]. done.
  - intros n H1 H2 H3. rewrite !lookup_alter_ne, lookup_insert_ne by done. done.
Qed.

Context (st' : RadixCache) (id : nat) (Hr : split_rel st st' id child c v p px m).

(** A node of the old store, seen in the new one. *)
Lemma split_old n x :
  nodes st !! n = Some x -> n <> child ->
  exists y, nodes st' !! n = Some y /\ parent y = parent x /\ key y = key x /\ value y = value x /\
    lock_ref y = lock_ref x /\
    (n <> p -> children y = children x) /\
    (n = p -> children y = <[ck (page_size st) (key c) := id]> (children x)).
Proof.
  intros Hx Hne. destruct (decide (n = p)) as [->|Hnp].
  - destruct (sp_parent _ _ _ _ _ _ _ _ _ Hr) as (pp & Hpp & E1 & E2 & E3 & E4 & E5).
    rewrite (tn_p _ _ _ _ _ _ Hn) in Hx. injection Hx as <-. exists pp. done.
  - exists x. rewrite (sp_other _ _ _ _ _ _ _ _ _ Hr) by
      (done || (rewrite (sp_id _ _ _ _ _ _ _ _ _ Hr); by eapply split_fresh)).
    split_and!; done.
Qed.

Lemma split_reach_fwd s a ks vs : s ∈ L -> reach st s a ks vs -> reach st' s a ks vs.
Proof.
  intros Hs H. revert Hs. induction H as [|n x cc mm y w a ks vs Hx Hcc Hy Hw _ IH]; intros Hs; [constructor|].
  destruct (tr_child _ _ _ Ht _ _ _ _ Hs Hx Hcc) as (Hmm & Hmr & y' & Hy' & Hpar & Eck).
  rewrite Hy in Hy'. injection Hy' as <-. specialize (IH Hmm).
  destruct (sp_new _ _ _ _ _ _ _ _ _ Hr) as (nn & Hnn & N1 & N2 & N3 & N4 & N5).
  destruct (sp_child _ _ _ _ _ _ _ _ _ Hr) as (c2 & Hc2 & C1 & C2 & C3 & C4 & C5).
  destruct (decide (mm = child)) as [->|Hmc].
  - rewrite Hc in Hy. injection Hy as <-. rewrite Hv in Hw. injection Hw as <-.
    rewrite (tn_parent _ _ _ _ _ _ Hn) in Hpar. injection Hpar as <-.
    destruct (split_old p x Hx split_parent_ne) as (x' & Hx' & _ & _ & _ & _ & _ & Ep). specialize (Ep eq_refl).
    assert (Hstep : reach st' id a (token_ids (key c2) ++ ks) (drop (Z.to_nat m) v ++ vs)).
    { eapply (reach_step _ id nn _ child c2); [done| |done|done|done]. rewrite N1. apply lookup_singleton_eq. }
    assert (Hall : reach st' p a (token_ids (key nn) ++ token_ids (key c2) ++ ks)
                     (take (Z.to_nat m) v ++ drop (Z.to_nat m) v ++ vs)).
    { eapply (reach_step _ p x' _ id nn); [done| |done|done|done]. rewrite Ep. apply lookup_insert_eq. }
    rewrite N3, C3, key_to_tokens, key_from_tokens in Hall by lia.
    rewrite !app_assoc, !take_drop in Hall. exact Hall.
  - destruct (split_old mm y Hy Hmc) as (y' & Hy' & _ & K2 & V2 & _).
    assert (Hx' : exists x', nodes st' !! n = Some x' /\ children x' !! cc = Some mm).
    { destruct (decide (n = child)) as [->|Hnc].
      - rewrite Hc in Hx. injection Hx as <-. exists c2. by rewrite C1.
      - destruct (split_old n x Hx Hnc) as (x' & Hx' & _ & _ & _ & _ & Ene & Ep). exists x'. split; [done|].
        destruct (decide (n = p)) as [->|Hnp]; [|by rewrite Ene].
        rewrite Ep by done. rewrite lookup_insert_ne; [done|]. intros E.
        rewrite <- E in Hcc. rewrite (tn_p _ _ _ _ _ _ Hn) in Hx. injection Hx as <-.
        rewrite (tn_entry _ _ _ _ _ _ Hn) in Hcc. congruence. }
    destruct Hx' as (x' & Hx' & Hcc'). rewrite <- K2.
    eapply reach_step; [exact Hx'|exact Hcc'|exact Hy'|by rewrite V2|exact IH].
Qed.

(** From the new store back to the old one. *)
Lemma split_reach_bwd s a ks vs :
  reach st' s a ks vs -> (s ∈ L \/ s = id) ->
  (s <> id -> a <> id -> reach st s a ks vs) /\
  (s <> id -> a = id -> reach st s child (ks ++ drop (Z.to_nat m) (token_ids (key c))) (vs ++ drop (Z.to_nat m) v)) /\
  (s = id -> a <> id -> exists ks' vs', ks = drop (Z.to_nat m) (token_ids (key c)) ++ ks' /\
      vs = drop (Z.to_nat m) v ++ vs' /\ reach st child a ks' vs') /\
  (s = id -> a = id -> ks = [] /\ vs = [] \/ exists ks' vs', ks = drop (Z.to_nat m) (token_ids (key c)) ++ ks' /\
      vs = drop (Z.to_nat m) v ++ vs' /\
      reach st child child (ks' ++ drop (Z.to_nat m) (token_ids (key c))) (vs' ++ drop (Z.to_nat m) v)).
Proof.
  destruct (sp_new _ _ _ _ _ _ _ _ _ Hr) as (nn & Hnn & N1 & N2 & N3 & N4 & N5).
  destruct (sp_child _ _ _ _ _ _ _ _ _ Hr) as (c2 & Hc2 & C1 & C2 & C3 & C4 & C5).
  assert (Hcid : child <> id) by (rewrite (sp_id _ _ _ _ _ _ _ _ _ Hr); by eapply split_fresh).
  assert (Hkt : token_ids (key c2) = drop (Z.to_nat m) (token_ids (key c))) by (rewrite C3; apply key_from_tokens; lia).
  assert (Hkn : token_ids (key nn) = take (Z.to_nat m) (token_ids (key c))) by (rewrite N3; apply key_to_tokens; lia).
  induction 1 as [s|s x cc mm y w a ks vs Hx Hcc Hy Hw H IH]; intros Hs.
  - split_and!; [constructor|done|done|by left].
  - destruct (decide (s = id)) as [->|Hsid].
    + (* from the new node: its only child *)
      rewrite Hnn in Hx. injection Hx as <-. rewrite N1 in Hcc. apply lookup_singleton_Some in Hcc as [_ <-].
      rewrite Hc2 in Hy. injection Hy as <-. rewrite C4 in Hw. injection Hw as <-.
      destruct (IH (or_introl Hin)) as (I1 & I2 & _). rewrite Hkt. split_and!; [done|done| |]; intros _ Ha.
      * exists ks, vs. split_and!; [done|done|by apply I1].
      * right. exists ks, vs. split_and!; [done|done|by apply I2].
    + destruct Hs as [Hs|]; [|done].
      (* the old node behind [s] *)
      assert (Hold : exists x0, nodes st !! s = Some x0 /\
         (children x0 !! cc = Some mm \/ s = p /\ cc = ck (page_size st) (key c) /\ mm = id)).
      { destruct (decide (s = child)) as [->|Hsc].
        - exists c. split; [done|]. rewrite Hc2 in Hx. injection Hx as <-. left. by rewrite <- C1.
        - assert (exists x0, nodes st !! s = Some x0) as [x0 Hx0].
          { destruct (decide (s = root_node st)) as [->|]; [destruct (tr_rootn _ _ _ Ht) as (r & ? & _); by exists r|].
            destruct (tr_node _ _ _ Ht s) as (x0 & _ & _ & ? & _); [done|done|by exists x0]. }
          exists x0. split; [done|]. destruct (split_old s x0 Hx0 Hsc) as (x' & Hx' & _ & _ & _ & _ & Ene & Ep).
          rewrite Hx in Hx'. injection Hx' as <-. destruct (decide (s = p)) as [->|Hsp]; [|left; by rewrite <- Ene].
          rewrite Ep in Hcc by done. apply lookup_insert_Some in Hcc as [[<- <-]|[_ Hcc]]; [right; done|by left]. }
      destruct Hold as (x0 & Hx0 & [Hcc0|(-> & -> & ->)]).
      * destruct (tr_child _ _ _ Ht _ _ _ _ Hs Hx0 Hcc0) as (Hmm & Hmr & y0 & Hy0 & Hpar & Eck).
        assert (Hmid : mm <> id) by (rewrite (sp_id _ _ _ _ _ _ _ _ _ Hr); by eapply split_fresh).
        destruct (decide (mm = child)) as [->|Hmc].
        { (* the old entry for [child] was replaced *)
          exfalso. rewrite Hc in Hy0. injection Hy0 as <-.
          rewrite (tn_parent _ _ _ _ _ _ Hn) in Hpar. injection Hpar as <-.
          destruct (split_old p x0 Hx0 split_parent_ne) as (x' & Hx' & _ & _ & _ & _ & _ & Ep).
          rewrite Hx in Hx'. injection Hx' as <-. rewrite Ep, Eck, lookup_insert_eq in Hcc by done. congruence. }
        destruct (split_old mm y0 Hy0 Hmc) as (y' & Hy' & _ & K2 & V2 & _).
        rewrite Hy in Hy'. injection Hy' as <-. destruct (IH (or_introl Hmm)) as (I1 & I2 & _). rewrite K2.
        split_and!; [| |done|done]; intros _ Ha.
        -- eapply reach_step; [done|done|done|by rewrite <- V2|by apply I1].
        -- rewrite <- !app_assoc. eapply reach_step; [done|done|done|by rewrite <- V2|by apply I2].
      * (* through the new node *)
        rewrite Hnn in Hy. injection Hy as <-. rewrite N4 in Hw. injection Hw as <-.
        rewrite (tn_p _ _ _ _ _ _ Hn) in Hx0. injection Hx0 as <-.
        assert (Hstep : forall b ks' vs', reach st child b ks' vs' ->
          reach st p b (token_ids (key c) ++ ks') (v ++ vs')).
        { intros b ks' vs' Hb. eapply reach_step; [apply (tn_p _ _ _ _ _ _ Hn)|apply (tn_entry _ _ _ _ _ _ Hn)|done|done|done]. }
        destruct (IH (or_intror eq_refl)) as (_ & _ & I3 & I4). split_and!; [| |done|done]; intros _ Ha; rewrite Hkn.
        -- destruct (I3 eq_refl Ha) as (ks' & vs' & -> & -> & Hb). rewrite !app_assoc, !take_drop. by apply Hstep.
        -- destruct (I4 eq_refl Ha) as [[-> ->]|(ks' & vs' & -> & -> & Hb)].
           ++ rewrite !app_nil_r, !take_drop. specialize (Hstep child [] [] (reach_here _ _)).
              by rewrite !app_nil_r in Hstep.
           ++ rewrite !app_assoc, !take_drop, <- !app_assoc. by apply Hstep.
Qed.

Lemma split_multiple : page_size st <= m.
Proof. apply multiple_ge; [apply (tr_ps _ _ _ Ht)|done|lia]. Qed.

Lemma split_id_notin : id ∉ L.
Proof.
  intros H. rewrite (sp_id _ _ _ _ _ _ _ _ _ Hr) in H.
  destruct (decide (counter st = root_node st)) as [E|E].
  - destruct (tr_rootn _ _ _ Ht) as (r & Hr0 & _). rewrite <- E in Hr0. by apply split_fresh in Hr0.
  - destruct (tr_node _ _ _ Ht _ H E) as (x & _ & _ & Hx & _). by apply split_fresh in Hx.
Qed.

(** Every old node of the tree other than [child], with its new version. *)
Lemma split_live n : n ∈ L -> n <> child ->
  exists x y, nodes st !! n = Some x /\ nodes st' !! n = Some y /\ parent y = parent x /\ key y = key x /\
    value y = value x /\ lock_ref y = lock_ref x /\ (n <> p -> children y = children x) /\
    (n = p -> children y = <[ck (page_size st) (key c) := id]> (children x)).
Proof.
  intros Hnl Hne. assert (exists x, nodes st !! n = Some x) as [x Hx].
  { destruct (decide (n = root_node st)) as [->|E]; [destruct (tr_rootn _ _ _ Ht) as (r & ? & _); by exists r|].
    destruct (tr_node _ _ _ Ht _ Hnl E) as (x & _ & _ & Hx & _). by exists x. }
  destruct (split_old n x Hx Hne) as (y & Hy & H). exists x, y. done.
Qed.

Definition split_rank (n : nat) : Z := if decide (n = id) then pl p + m else pl n.

Lemma split_tree_node n : n ∈ {[id]} ∪ L -> n <> root_node st ->
  exists x q qx, nodes st' !! n = Some x /\ tree_node st' ({[id]} ∪ L) n x q qx.
Proof.
  destruct (sp_new _ _ _ _ _ _ _ _ _ Hr) as (nn & Hnn & N1 & N2 & N3 & N4 & N5).
  destruct (sp_child _ _ _ _ _ _ _ _ _ Hr) as (c2 & Hc2 & C1 & C2 & C3 & C4 & C5).
  pose proof (sp_ps _ _ _ _ _ _ _ _ _ Hr) as Eps. pose proof (sp_root _ _ _ _ _ _ _ _ _ Hr) as Ero.
  pose proof split_id_notin as Hid. pose proof split_multiple as HPm. pose proof (tr_ps _ _ _ Ht) as HP.
  destruct Hn as [T1 T2 T3 T4 T5 T6 T7 T8 T9 T10].
  intros Hnl Hnr0. destruct (decide (n = id)) as [->|Hnid].
  - destruct (split_live p T2 split_parent_ne) as (px0 & pp & Hp0 & Hpp & P1 & P2 & P3 & P4 & _ & P6).
    rewrite T3 in Hp0. injection Hp0 as <-. exists nn, p, pp. split; [done|].
    split; rewrite ?Eps, ?Ero, ?N3, ?N5, ?P2, ?P4; try done; try (by apply elem_of_union_r); try (by apply elem_of_union_l, elem_of_singleton).
    + rewrite P6, ck_take by done. apply lookup_insert_eq.
    + rewrite key_to_len; lia.
    + rewrite key_to_tokens by lia. apply aligned_take; [unfold key_len in Hm; lia|done].
    + exists (take (Z.to_nat m) v). split; [done|]. rewrite key_to_len by lia. apply zlen_take. lia.
  - assert (Hnl' : n ∈ L) by set_solver. destruct (decide (n = child)) as [->|Hnc].
    + exists c2, id, nn. split; [done|].
      split; rewrite ?Eps, ?Ero, ?C3, ?N3, ?C5, ?N5; try done; try (by apply elem_of_union_r); try (by apply elem_of_union_l, elem_of_singleton).
      * rewrite N1. apply lookup_singleton_eq.
      * rewrite key_from_len; lia.
      * rewrite key_from_tokens by lia. apply aligned_drop; [done|unfold key_len in Hm; lia|done|done].
      * exists (drop (Z.to_nat m) v). split; [done|]. rewrite key_from_len, zlen_drop by lia. lia.
    + destruct (split_live n Hnl' Hnc) as (x & y & Hx & Hy & Y1 & Y2 & Y3 & Y4 & _ & _).
      destruct (tr_node _ _ _ Ht n Hnl' Hnr0) as (x0 & q & qx & Hx0 & [U1 U2 U3 U4 U5 U6 U7 U8 U9 U10]).
      rewrite Hx in Hx0. injection Hx0 as <-.
      assert (Hq : exists qy, nodes st' !! q = Some qy /\ extra_key (key qy) = extra_key (key qx) /\
                lock_ref qy = lock_ref qx /\ children qy !! ck (page_size st) (key x) = Some n).
      { destruct (decide (q = child)) as [->|Hqc].
        - rewrite Hc in U3. injection U3 as <-. exists c2. by rewrite C1, C3, C5.
        - destruct (split_live q U2 Hqc) as (qx0 & qy & Hq0 & Hqy & Q1 & Q2 & Q3 & Q4 & Q5 & Q6).
          rewrite U3 in Hq0. injection Hq0 as <-. exists qy. rewrite Q2, Q4. split_and!; try done.
          destruct (decide (q = p)) as [->|Hqp]; [|by rewrite Q5].
          rewrite Q6 by done. rewrite lookup_insert_ne; [done|]. intros E.
          rewrite T3 in U3. injection U3 as <-. rewrite <- E, T4 in U4. congruence. }
      destruct Hq as (qy & Hqy & Q1 & Q2 & Q3). exists y, q, qy. split; [done|].
      split; rewrite ?Eps, ?Ero, ?Y1, ?Y2, ?Y3, ?Y4, ?Q1, ?Q2; try done. by apply elem_of_union_r.
Qed.

Lemma split_tree_child n x cc mm : n ∈ {[id]} ∪ L -> nodes st' !! n = Some x -> children x !! cc = Some mm ->
  mm ∈ {[id]} ∪ L /\ mm <> root_node st /\
  exists y, nodes st' !! mm = Some y /\ parent y = Some n /\ cc = ck (page_size st) (key y).
Proof.
  destruct (sp_new _ _ _ _ _ _ _ _ _ Hr) as (nn & Hnn & N1 & N2 & N3 & N4 & N5).
  destruct (sp_child _ _ _ _ _ _ _ _ _ Hr) as (c2 & Hc2 & C1 & C2 & C3 & C4 & C5).
  pose proof split_id_notin as Hid. pose proof split_multiple as HPm. pose proof (tr_ps _ _ _ Ht) as HP.
  intros Hnl Hx Hcc. destruct (decide (n = id)) as [->|Hnid].
  { rewrite Hnn in Hx. injection Hx as <-. rewrite N1 in Hcc. apply lookup_singleton_Some in Hcc as [<- <-].
    split; [set_solver|]. split; [done|]. exists c2. by rewrite C3. }
  assert (Hnl' : n ∈ L) by set_solver.
  (* an entry that was there before *)
  assert (Hkeep : forall x0, nodes st !! n = Some x0 -> children x0 !! cc = Some mm -> mm <> child ->
    mm ∈ {[id]} ∪ L /\ mm <> root_node st /\
    exists y, nodes st' !! mm = Some y /\ parent y = Some n /\ cc = ck (page_size st) (key y)).
  { intros x0 Hx0 Hcc0 Hmc. destruct (tr_child _ _ _ Ht _ _ _ _ Hnl' Hx0 Hcc0) as (Hmm & Hmr & y0 & Hy0 & Hpar & Eck).
    split; [set_solver|]. split; [done|].
    destruct (split_live mm Hmm Hmc) as (y1 & y & Hy1 & Hy & Y1 & Y2 & _). rewrite Hy0 in Hy1. injection Hy1 as <-.
    exists y. by rewrite Y1, Y2. }
  destruct (decide (n = child)) as [->|Hnc].
  - rewrite Hc2 in Hx. injection Hx as <-. rewrite C1 in Hcc. apply (Hkeep c Hc Hcc). intros ->.
    destruct (tr_child _ _ _ Ht _ _ _ _ Hin Hc Hcc) as (_ & _ & y & Hy & Hpar & _).
    rewrite Hc in Hy. injection Hy as <-. rewrite (tn_parent _ _ _ _ _ _ Hn) in Hpar. injection Hpar as E.
    by apply split_parent_ne.
  - destruct (split_live n Hnl' Hnc) as (x0 & y & Hx0 & Hy & Y1 & Y2 & Y3 & Y4 & Y5 & Y6).
    rewrite Hx in Hy. injection Hy as <-.
    assert (Hnot : forall k, children x0 !! k = Some child -> n = p /\ k = ck (page_size st) (key c)).
    { intros k Hk. destruct (tr_child _ _ _ Ht _ _ _ _ Hnl' Hx0 Hk) as (_ & _ & y & Hy & Hpar & Eck).
      rewrite Hc in Hy. injection Hy as <-. rewrite (tn_parent _ _ _ _ _ _ Hn) in Hpar. by injection Hpar as ->. }
    destruct (decide (n = p)) as [Hnp|Hnp].
    + rewrite Y6 in Hcc by done. apply lookup_insert_Some in Hcc as [[<- <-]|[Hne Hcc]].
      * split; [set_solver|]. split; [intros E; apply Hid; rewrite E; apply (tr_root _ _ _ Ht)|].
        exists nn. rewrite N3, ck_take by done. subst n. done.
      * apply (Hkeep x0 Hx0 Hcc). intros ->. by apply Hnot in Hcc as [_ ->].
    + rewrite Y5 in Hcc by done. apply (Hkeep x0 Hx0 Hcc). intros ->. by apply Hnot in Hcc as [-> _].
Qed.

Lemma split_tree : tree st' ({[id]} ∪ L) split_rank.
Proof.
  destruct (sp_new _ _ _ _ _ _ _ _ _ Hr) as (nn & Hnn & N1 & N2 & N3 & N4 & N5).
  destruct (sp_child _ _ _ _ _ _ _ _ _ Hr) as (c2 & Hc2 & C1 & C2 & C3 & C4 & C5).
  pose proof (sp_ps _ _ _ _ _ _ _ _ _ Hr) as Eps. pose proof (sp_root _ _ _ _ _ _ _ _ _ Hr) as Ero.
  pose proof split_id_notin as Hid.
  assert (Hidr : root_node st <> id) by (intros E; apply Hid; rewrite <- E; apply (tr_root _ _ _ Ht)).
  split; rewrite ?Eps, ?Ero.
  - apply (tr_ps _ _ _ Ht).
  - pose proof (tr_root _ _ _ Ht). set_solver.
  - destruct (tr_rootn _ _ _ Ht) as (r & Hr0 & R1 & R2 & R3 & R4).
    destruct (split_live (root_node st) (tr_root _ _ _ Ht) ltac:(done)) as (x & y & Hx & Hy & Y1 & Y2 & Y3 & Y4 & _).
    rewrite Hr0 in Hx. injection Hx as <-. exists y. by rewrite Y1, Y2, Y3, Y4.
  - intros n x Hx. rewrite (sp_counter _ _ _ _ _ _ _ _ _ Hr).
    destruct (decide (n = id)) as [->|H1]; [rewrite (sp_id _ _ _ _ _ _ _ _ _ Hr); lia|].
    assert (exists x0, nodes st !! n = Some x0) as [x0 Hx0].
    { destruct (decide (n = child)) as [->|H2]; [by exists c|].
      destruct (decide (n = p)) as [->|H3]; [exists px; apply (tn_p _ _ _ _ _ _ Hn)|].
      exists x. by rewrite <- (sp_other _ _ _ _ _ _ _ _ _ Hr). }
    apply (tr_fresh _ _ _ Ht) in Hx0. lia.
  - apply split_tree_node.
  - apply split_tree_child.
  - unfold split_rank. rewrite decide_False by done. apply (tr_rank0 _ _ _ Ht).
  - intros n x q Hnl Hnr0 Hx Hq. unfold split_rank. destruct (decide (n = id)) as [->|Hnid].
    + rewrite Hnn in Hx. injection Hx as <-. rewrite N2 in Hq. injection Hq as <-.
      rewrite decide_False; [|intros ->; apply Hid, (tn_plive _ _ _ _ _ _ Hn)].
      rewrite N3, key_to_len by lia. done.
    + assert (Hnl' : n ∈ L) by set_solver. destruct (decide (n = child)) as [->|Hnc].
      * rewrite Hc2 in Hx. injection Hx as <-. rewrite C2 in Hq. injection Hq as <-. rewrite decide_True by done.
        rewrite C3, key_from_len by lia.
        rewrite (tr_rank _ _ _ Ht _ _ _ Hin Hnr Hc (tn_parent _ _ _ _ _ _ Hn)). lia.
      * destruct (split_live n Hnl' Hnc) as (x0 & y & Hx0 & Hy & Y1 & Y2 & _). rewrite Hx in Hy. injection Hy as <-.
        rewrite Y1 in Hq. rewrite Y2. rewrite decide_False; [by eapply (tr_rank _ _ _ Ht)|].
        intros ->. destruct (tr_node _ _ _ Ht n Hnl' Hnr0) as (x1 & q & qx & Hx1 & U).
        rewrite Hx0 in Hx1. injection Hx1 as <-. rewrite (tn_parent _ _ _ _ _ _ U) in Hq. injection Hq as ->.
        apply Hid, (tn_plive _ _ _ _ _ _ U).
Qed.

Lemma split_acct : acct st L -> acct st' ({[id]} ∪ L).
Proof.
  intros [A1 A2 A3]. pose proof split_id_notin as Hid.
  destruct (sp_new _ _ _ _ _ _ _ _ _ Hr) as (nn & Hnn & N1 & N2 & N3 & N4 & N5).
  destruct (sp_child _ _ _ _ _ _ _ _ _ Hr) as (c2 & Hc2 & C1 & C2 & C3 & C4 & C5).
  assert (Hsum : forall f, (forall x y, key x = key y -> lock_ref x = lock_ref y -> f x = f y) ->
            f nn + f c2 = f c -> node_sum f st' ({[id]} ∪ L) = node_sum f st L).
  { intros f Hf Hadd. rewrite node_sum_insert, Hnn by done.
    rewrite (node_sum_change f st st' L child c c2) by
      (done || (intros n Hnl Hne; destruct (split_live n Hnl Hne) as (x & y & -> & -> & _ & Y2 & _ & Y4 & _); by apply Hf)).
    lia. }
  split.
  - rewrite (sp_ev _ _ _ _ _ _ _ _ _ Hr), A1. symmetry. apply Hsum.
    + intros x y E1 E2. unfold unlocked_len. by rewrite E1, E2.
    + unfold unlocked_len. rewrite N5, C5, N3, C3, key_to_len, key_from_len by lia. destruct (_ =? 0); lia.
  - rewrite (sp_pr _ _ _ _ _ _ _ _ _ Hr), A2. symmetry. apply Hsum.
    + intros x y E1 E2. unfold locked_len. by rewrite E1, E2.
    + unfold locked_len. rewrite N5, C5, N3, C3, key_to_len, key_from_len by lia. destruct (_ =? 0); lia.
  - intros n. rewrite (sp_leaves _ _ _ _ _ _ _ _ _ Hr), A3. unfold is_leaf.
    assert (Hne : forall (k : ckey) (i : nat) (mp : gmap ckey nat), <[k := i]> mp <> ∅) by (intros k i mp; apply insert_non_empty).
    split.
    + intros (Hnl & x & Hx & H1 & H2). split; [set_solver|]. destruct (decide (n = child)) as [->|Hnc].
      * rewrite Hc in Hx. injection Hx as <-. exists c2. by rewrite C1, C5.
      * destruct (split_live n Hnl Hnc) as (x0 & y & Hx0 & Hy & _ & _ & _ & Y4 & Y5 & Y6).
        rewrite Hx in Hx0. injection Hx0 as <-. exists y. rewrite Y4. split_and!; try done.
        rewrite Y5; [done|]. intros ->. rewrite (tn_p _ _ _ _ _ _ Hn) in Hx. injection Hx as <-.
        pose proof (tn_entry _ _ _ _ _ _ Hn) as He. rewrite H2 in He. by rewrite lookup_empty in He.
    + intros (Hnl & y & Hy & H1 & H2). destruct (decide (n = id)) as [->|Hnid].
      { exfalso. rewrite Hnn in Hy. injection Hy as <-. rewrite N1 in H2. by apply map_non_empty_singleton in H2. }
      assert (Hnl' : n ∈ L) by set_solver. split; [done|]. destruct (decide (n = child)) as [->|Hnc].
      * rewrite Hc2 in Hy. injection Hy as <-. exists c. by rewrite <- C1, <- C5.
      * destruct (split_live n Hnl' Hnc) as (x0 & y0 & Hx0 & Hy0 & _ & _ & _ & Y4 & Y5 & Y6).
        rewrite Hy in Hy0. injection Hy0 as <-. exists x0. rewrite <- Y4. split_and!; try done.
        destruct (decide (n = p)) as [E|E]; [|by rewrite <- Y5]. rewrite Y6 in H2 by done. by apply Hne in H2.
Qed.
Lemma split_locks H : locks st L H -> locks st' ({[id]} ∪ L) H.
Proof.
  intros [K1 K2]. pose proof split_id_notin as Hid.
  split; [intros h Hh; by apply elem_of_union_r, K1|]. rewrite (sp_root _ _ _ _ _ _ _ _ _ Hr).
  assert (Hne : forall h, h ∈ H -> h <> id) by (intros h Hh ->; by apply Hid, K1).
  intros n y Hn' Hnr' Hy. destruct (decide (n = id)) as [->|Hni].
  - destruct (sp_new _ _ _ _ _ _ _ _ _ Hr) as (nn & Hnn & N1 & _ & _ & _ & N5).
    destruct (sp_child _ _ _ _ _ _ _ _ _ Hr) as (c2 & Hc2 & _ & _ & _ & C4 & _).
    rewrite Hy in Hnn. injection Hnn as <-. rewrite N5.
    eapply holds_ext; [|apply (K2 child c Hin Hnr Hc)]. intros h Hh. split; intros (ks & vs & Hre).
    + eexists _, _. eapply (reach_step _ id y _ child c2); [done| |done|done|by apply split_reach_fwd].
      rewrite N1. apply lookup_singleton_eq.
    + destruct (split_reach_bwd _ _ _ _ Hre (or_intror eq_refl)) as (_ & _ & B3 & _).
      destruct (B3 eq_refl (Hne h Hh)) as (ks' & vs' & _ & _ & B). by exists ks', vs'.
  - assert (HnL : n ∈ L) by set_solver.
    assert (exists x, nodes st !! n = Some x /\ lock_ref y = lock_ref x) as (x & Hx & ->).
    { destruct (decide (n = child)) as [->|Hnc].
      - destruct (sp_child _ _ _ _ _ _ _ _ _ Hr) as (c2 & Hc2 & _ & _ & _ & _ & C5). exists c. split; [done|]. congruence.
      - destruct (split_live n HnL Hnc) as (x0 & y' & Hx0 & Hy' & S). exists x0. split; [done|].
        rewrite Hy in Hy'. injection Hy' as <-. tauto. }
    eapply holds_ext; [|by apply K2]. intros h Hh. split; intros (ks & vs & Hre); exists ks, vs.
    + by apply split_reach_fwd.
    + destruct (split_reach_bwd _ _ _ _ Hre (or_introl HnL)) as (B1 & _). by apply B1; [|apply Hne].
Qed.

Lemma split_slots : tree_slots st' ({[id]} ∪ L) ≡ₚ tree_slots st L.
Proof.
  pose proof split_id_notin as Hid. rewrite tree_slots_insert by done.
  rewrite (tree_slots_remove st' L child Hin), (tree_slots_remove st L child Hin).
  destruct (sp_new _ _ _ _ _ _ _ _ _ Hr) as (nn & Hnn & _ & _ & _ & N4 & _).
  destruct (sp_child _ _ _ _ _ _ _ _ _ Hr) as (c2 & Hc2 & _ & _ & _ & C4 & _).
  rewrite (node_slots_value _ _ _ _ Hnn N4), (node_slots_value _ _ _ _ Hc2 C4), (node_slots_value _ _ _ _ Hc Hv).
  rewrite app_assoc, take_drop. apply Permutation_app_head, reflexive_eq, tree_slots_ext. intros n Hn'.
  destruct (split_live n) as (x0 & y & Hx0 & Hy & _ & _ & Y3 & _); [set_solver|set_solver|].
  unfold node_slots. rewrite Hx0, Hy. simpl. by rewrite Y3.
Qed.
End split.
