(* ===== verification/RadixWalk.v ===== *)
(** * Walking down the tree

    What the tree stores, one step of the walk shared by lookup and insertion,
    and the two loops. *)

From S2P Require Import Prelude Tensors RadixKeys RadixKeysTheory RadixCache RadixTheory RadixSplit.

(** [stored st ek ks vs]: under extra key [ek], the slots of token sequence [ks]
    are [vs]. *)
Definition stored (st : RadixCache) (ek : option string) (ks : list tok) (vs : list Z) : Prop :=
  exists a x fks fvs j, reach st (root_node st) a fks fvs /\ nodes st !! a = Some x /\
    extra_key (key x) = ek /\ ks = take j fks /\ vs = take j fvs.

Lemma reach_live st L pl s a ks vs : tree st L pl -> s ∈ L -> reach st s a ks vs -> a ∈ L.
Proof.
  intros Ht Hs H. revert Hs. induction H as [|n x c m y v a ks vs Hx Hc Hy Hv _ IH]; intros Hs; [done|].
  apply IH. by eapply (tr_child _ _ _ Ht).
Qed.

Lemma tree_value st L pl n : tree st L pl -> n ∈ L ->
  exists x v, nodes st !! n = Some x /\ value x = Some v /\ zlen v = key_len (key x).
Proof.
  intros Ht Hn. destruct (decide (n = root_node st)) as [->|E].
  - destruct (tr_rootn _ _ _ Ht) as (r & Hr & _ & R2 & R3 & _). exists r, []. unfold key_len. by rewrite R2.
  - destruct (tr_node _ _ _ Ht n Hn E) as (x & p & px & Hx & T). destruct (tn_value _ _ _ _ _ _ T) as (v & ? & ?).
    by exists x, v.
Qed.

Lemma reach_len st L pl s a ks vs : tree st L pl -> s ∈ L -> reach st s a ks vs -> length ks = length vs.
Proof.
  intros Ht Hs H. revert Hs. induction H as [|n x c m y v a ks vs Hx Hc Hy Hv _ IH]; intros Hs; [done|].
  destruct (tr_child _ _ _ Ht _ _ _ _ Hs Hx Hc) as (Hm & _).
  destruct (tree_value _ _ _ _ Ht Hm) as (y' & v' & Hy' & Hv' & Hl). simplify_eq.
  rewrite !length_app, IH by done. unfold key_len, zlen in Hl. lia.
Qed.

(** Below a child of the root all extra keys agree. *)
Lemma reach_extra st L pl s a ks vs x y :
  tree st L pl -> s ∈ L -> s <> root_node st -> reach st s a ks vs ->
  nodes st !! s = Some x -> nodes st !! a = Some y -> extra_key (key y) = extra_key (key x).
Proof.
  intros Ht Hs Hr H. revert x Hs Hr. induction H as [|n x c m z v a ks vs Hx Hc Hz Hv _ IH]; intros x' Hs Hr Hx' Hy; [congruence|].
  rewrite Hx in Hx'. injection Hx' as <-.
  destruct (tr_child _ _ _ Ht _ _ _ _ Hs Hx Hc) as (Hm & Hmr & z' & Hz' & Hpar & _).
  rewrite Hz in Hz'. injection Hz' as <-.
  destruct (tr_node _ _ _ Ht m Hm Hmr) as (z2 & p & px & Hz2 & T). rewrite Hz in Hz2. injection Hz2 as <-.
  rewrite (IH z) by done. rewrite (tn_parent _ _ _ _ _ _ T) in Hpar. injection Hpar as ->.
  pose proof (tn_p _ _ _ _ _ _ T) as Hp. rewrite Hx in Hp. injection Hp as <-.
  by apply (tn_extra _ _ _ _ _ _ T).
Qed.

(** ** Extension of a store *)

Record ext (st : RadixCache) (L : gset nat) (st' : RadixCache) (L' : gset nat) (pl' : nat -> Z) : Prop := {
  ex_tree : tree st' L' pl';
  ex_acct : acct st L -> acct st' L';
  ex_locks : forall H, locks st L H -> locks st' L' H;
  ex_slots : tree_slots st' L' ≡ₚ tree_slots st L;
  ex_sub : L ⊆ L';
  ex_reach : forall s a ks vs, s ∈ L -> reach st s a ks vs -> reach st' s a ks vs;
  ex_stored : forall ek ks vs, stored st' ek ks vs <-> stored st ek ks vs;
  ex_ps : page_size st' = page_size st;
  ex_root : root_node st' = root_node st;
  ex_disable : disable st' = disable st;
  ex_eagle : is_eagle st' = is_eagle st;
  ex_kv : enable_kv_cache_events st' = enable_kv_cache_events st;
  ex_ev : evictable_size_ st' = evictable_size_ st;
  ex_pr : protected_size_ st' = protected_size_ st;
  ex_extra : forall n x, n ∈ L -> nodes st !! n = Some x ->
    exists y, nodes st' !! n = Some y /\ extra_key (key y) = extra_key (key x)
}.

Lemma stored_sim st st' ek ks vs : sim st st' -> stored st ek ks vs -> stored st' ek ks vs.
Proof.
  intros Hs (a & x & fks & fvs & j & Hr & Hx & He & -> & ->).
  destruct (sim_lookup _ _ _ _ Hs Hx) as (y & Hy & _ & _ & E3 & _).
  exists a, y, fks, fvs, j. rewrite (sim_root _ _ Hs), <- E3. split_and!; try done. by eapply reach_sim.
Qed.

Lemma ext_sim st L pl st' : tree st L pl -> sim st st' -> ext st L st' L pl.
Proof.
  intros Ht Hs. split; try apply Hs; try done.
  - by eapply tree_sim.
  - by apply acct_sim.
  - intros H. by apply locks_sim.
  - by rewrite (slots_sim _ _ _ Hs).
  - intros s a ks vs _. by apply reach_sim.
  - intros ek ks vs. split; apply stored_sim; [by apply sim_sym|done].
  - intros n x _ Hx. destruct (sim_lookup _ _ _ _ Hs Hx) as (y & Hy & _ & _ & E3 & _). exists y. by rewrite E3.
Qed.

Lemma ext_trans st L st1 L1 pl1 st2 L2 pl2 :
  ext st L st1 L1 pl1 -> ext st1 L1 st2 L2 pl2 -> ext st L st2 L2 pl2.
Proof.
  intros [A1 A2 A0 Asl A3 A4 A5 A6 A7 A8 A9 A10 A11 A12 A13] [B1 B2 B0 Bsl B3 B4 B5 B6 B7 B8 B9 B10 B11 B12 B13].
  split; try congruence; eauto.
  - by rewrite Bsl.
  - set_solver.
  - intros ek ks vs. rewrite B5. apply A5.
  - intros n x Hn Hx. destruct (A13 n x Hn Hx) as (y & Hy & E). destruct (B13 n y (A3 n Hn) Hy) as (z & Hz & E').
    exists z. split; [done|]. congruence.
Qed.

Lemma ext_split st L pl child c v p px m st' id :
  tree st L pl -> child ∈ L -> child <> root_node st -> nodes st !! child = Some c ->
  tree_node st L child c p px -> value c = Some v -> zlen v = key_len (key c) ->
  0 < m < key_len (key c) -> m mod page_size st = 0 ->
  split_rel st st' id child c v p px m ->
  ext st L st' ({[id]} ∪ L) (split_rank pl p m id).
Proof.
  intros Ht Hin Hnr Hc Hn Hv Hlen Hm Hmod Hr.
  assert (Hid : id ∉ L) by (by eapply split_id_notin).
  assert (Hroot : root_node st <> id) by (intros E; apply Hid; rewrite <- E; apply (tr_root _ _ _ Ht)).
  split; try apply Hr.
  - by eapply split_tree.
  - by eapply split_acct.
  - intros H. by eapply split_locks.
  - by eapply split_slots.
  - set_solver.
  - intros s a ks vs Hs. by eapply (split_reach_fwd st L pl child c v p px m).
  - intros ek ks vs. unfold stored. rewrite (sp_root _ _ _ _ _ _ _ _ _ Hr). split.
    + intros (a & x & fks & fvs & j & Hre & Hx & He & -> & ->).
      destruct (split_reach_bwd st L pl child c v p px m Ht Hin Hnr Hc Hn Hv Hm st' id Hr _ _ _ _ Hre
        (or_introl (tr_root _ _ _ Ht))) as (B1 & B2 & _).
      destruct (decide (a = id)) as [->|Ha].
      * specialize (B2 Hroot eq_refl). destruct (sp_new _ _ _ _ _ _ _ _ _ Hr) as (nn & Hnn & _ & _ & N3 & _).
        rewrite Hx in Hnn. injection Hnn as <-. rewrite N3 in He.
        pose proof (reach_len _ _ _ _ _ _ _ Ht (tr_root _ _ _ Ht) B2) as Hl.
        rewrite !length_app, !length_drop in Hl. unfold key_len, zlen in Hlen.
        assert (length fks = length fvs) by lia.
        eexists child, c, _, _, (j `min` length fks)%nat. split; [exact B2|]. split; [done|]. split; [done|].
        rewrite !take_app_le by lia. split.
        -- destruct (Nat.min_spec j (length fks)) as [[? ->]|[? ->]]; [done|]. by rewrite !take_ge by lia.
        -- destruct (Nat.min_spec j (length fks)) as [[? ->]|[? ->]]; [done|]. by rewrite !take_ge by lia.
      * specialize (B1 Hroot Ha). assert (Hal : a ∈ L) by (eapply reach_live; [done|apply (tr_root _ _ _ Ht)|done]).
        destruct (decide (a = child)) as [->|Hac].
        -- destruct (sp_child _ _ _ _ _ _ _ _ _ Hr) as (c2 & Hc2 & _ & _ & C3 & _). rewrite Hx in Hc2.
           injection Hc2 as <-. rewrite C3 in He. exists child, c, fks, fvs, j. done.
        -- destruct (split_live st L pl child c v p px m Ht Hnr Hn st' id Hr a Hal Hac) as (x0 & y & Hx0 & Hy & _ & Y2 & _).
           rewrite Hx in Hy. injection Hy as <-. rewrite Y2 in He. exists a, x0, fks, fvs, j. done.
    + intros (a & x & fks & fvs & j & Hre & Hx & He & -> & ->).
      assert (Hal : a ∈ L) by (eapply reach_live; [done|apply (tr_root _ _ _ Ht)|done]).
      assert (Hy : exists y, nodes st' !! a = Some y /\ extra_key (key y) = extra_key (key x)).
      { destruct (decide (a = child)) as [->|Hac].
        - destruct (sp_child _ _ _ _ _ _ _ _ _ Hr) as (c2 & Hc2 & _ & _ & C3 & _). exists c2. rewrite C3. by simplify_eq.
        - destruct (split_live st L pl child c v p px m Ht Hnr Hn st' id Hr a Hal Hac) as (x0 & y & Hx0 & Hy & _ & Y2 & _).
          exists y. rewrite Y2. by simplify_eq. }
      destruct Hy as (y & Hy & E). exists a, y, fks, fvs, j. rewrite E. split_and!; try done.
      eapply (split_reach_fwd st L pl child c v p px m); try done. apply (tr_root _ _ _ Ht).
  - intros n x Hnl Hx. destruct (decide (n = child)) as [->|Hac].
    + destruct (sp_child _ _ _ _ _ _ _ _ _ Hr) as (c2 & Hc2 & _ & _ & C3 & _). exists c2. rewrite C3. by simplify_eq.
    + destruct (split_live st L pl child c v p px m Ht Hnr Hn st' id Hr n Hnl Hac) as (x0 & y & Hx0 & Hy & _ & Y2 & _).
      exists y. rewrite Y2. by simplify_eq.
Qed.

(** ** One step *)

Lemma touch_lookup st n t x : nodes st !! n = Some x -> nodes (update st n (touch t)) !! n = Some (touch t x).
Proof. intros H. simpl. by rewrite lookup_alter_eq, H. Qed.

(** Taking the child that matches the first page of [k]. *)
Lemma walk_step st L pl st1 n x k child :
  tree st L pl -> sim st st1 -> n ∈ L -> nodes st !! n = Some x -> 0 < key_len k ->
  aligned (page_size st) (token_ids k) ->
  children x !! ck (page_size st) k = Some child ->
  exists c v m px, nodes st1 !! child = Some c /\ child ∈ L /\ child <> root_node st1 /\
    tree_node st1 L child c n px /\ value c = Some v /\ zlen v = key_len (key c) /\
    extra_key (key c) = extra_key k /\ key_match (page_size st1) (key c) k = Ok m /\
    0 < m /\ m <= key_len k /\ m <= key_len (key c) /\ m mod page_size st = 0 /\
    take (Z.to_nat m) (token_ids (key c)) = take (Z.to_nat m) (token_ids k) /\
    (m < key_len (key c) -> m < key_len k ->
     take (Z.to_nat (page_size st)) (drop (Z.to_nat m) (token_ids (key c))) <>
     take (Z.to_nat (page_size st)) (drop (Z.to_nat m) (token_ids k))) /\
    reach st1 n child (token_ids (key c)) v.
Proof.
  intros Ht Hs Hn Hx Hk Ha Hc. pose proof (tree_sim _ _ _ _ Hs Ht) as Ht1.
  destruct (sim_lookup _ _ _ _ Hs Hx) as (x1 & Hx1 & E1 & _). rewrite E1, <- (sim_ps _ _ Hs) in Hc.
  destruct (tr_child _ _ _ Ht1 _ _ _ _ Hn Hx1 Hc) as (Hin & Hnr & c & Hcn & Hpar & Eck).
  destruct (tr_node _ _ _ Ht1 child Hin Hnr) as (c' & p & px & Hcn' & T). rewrite Hcn in Hcn'. injection Hcn' as <-.
  rewrite (tn_parent _ _ _ _ _ _ T) in Hpar. injection Hpar as ->.
  destruct (tn_value _ _ _ _ _ _ T) as (v & Hv & Hlen).
  pose proof (tr_ps _ _ _ Ht1) as HP. assert (Hex : extra_key (key c) = extra_key k) by (by injection Eck as -> _).
  rewrite <- (sim_ps _ _ Hs) in *.
  destruct (key_match_spec (page_size st1) (key c) k HP Hex (tn_aligned _ _ _ _ _ _ T) Ha)
    as (m & Hm & M1 & M2 & M3 & M4 & M5).
  exists c, v, m, px. split_and!; try done; try lia.
  - pose proof (ck_match_pos (page_size st1) (key c) k m HP (eq_sym Eck) (tn_pos _ _ _ _ _ _ T) Hk M5 ltac:(lia) M3). lia.
  - rewrite <- (app_nil_r (token_ids (key c))), <- (app_nil_r v).
    eapply reach_step; [exact Hx1|exact Hc|exact Hcn|exact Hv|constructor].
Qed.

(** A stored sequence that shares the first page with [k] goes through that child. *)
Lemma reach_first st L pl n x a y ks vs k j :
  tree st L pl -> n ∈ L -> nodes st !! n = Some x -> reach st n a ks vs -> nodes st !! a = Some y ->
  extra_key (key y) = extra_key k -> 0 < j -> j mod page_size st = 0 -> j <= zlen ks -> j <= key_len k ->
  take (Z.to_nat j) ks = take (Z.to_nat j) (token_ids k) ->
  exists child c ks' vs', children x !! ck (page_size st) k = Some child /\ nodes st !! child = Some c /\
    ks = token_ids (key c) ++ ks' /\ reach st child a ks' vs'.
Proof.
  intros Ht Hn Hx Hr Hy He Hj Hmod Hjk Hjl Htake. pose proof (tr_ps _ _ _ Ht) as HP.
  pose proof (multiple_ge _ j HP Hmod Hj) as HPj.
  destruct Hr as [s|n x0 cc mm c v a ks vs Hx0 Hcc Hc Hv Hr]; [change (zlen (@nil tok)) with 0 in Hjk; lia|].
  rewrite Hx in Hx0. injection Hx0 as <-.
  destruct (tr_child _ _ _ Ht _ _ _ _ Hn Hx Hcc) as (Hin & Hnr & c' & Hc' & Hpar & Eck).
  rewrite Hc in Hc'. injection Hc' as <-.
  exists mm, c, ks, vs. split_and!; try done. rewrite <- Hcc. f_equal. rewrite Eck. unfold ck.
  rewrite (reach_extra _ _ _ _ _ _ _ _ _ Ht Hin Hnr Hr Hc Hy) in He. rewrite He. f_equal.
  destruct (tr_node _ _ _ Ht mm Hin Hnr) as (c' & p & px & Hc' & T). rewrite Hc in Hc'. injection Hc' as <-.
  pose proof (multiple_ge _ _ HP (tn_aligned _ _ _ _ _ _ T) (tn_pos _ _ _ _ _ _ T)) as HPc.
  assert (E : take (Z.to_nat (page_size st)) (take (Z.to_nat j) (token_ids (key c) ++ ks)) =
              take (Z.to_nat (page_size st)) (take (Z.to_nat j) (token_ids k))) by (by rewrite Htake).
  rewrite !take_take, !Nat.min_l in E by lia. rewrite <- E. rewrite take_app_le; [done|].
  unfold key_len, zlen in HPc. lia.
Qed.

(** ** The result of a walk *)

Record walked (st : RadixCache) (L : gset nat) (n : nat) (k : RadixKey)
    (st' : RadixCache) (L' : gset nat) (pl' : nat -> Z) (n' : nat) (m : Z) (w : list Z) : Prop := {
  wk_ext : ext st L st' L' pl';
  wk_m : 0 <= m <= key_len k;
  wk_mod : m mod page_size st = 0;
  wk_live : n' ∈ L';
  wk_reach : reach st' n n' (take (Z.to_nat m) (token_ids k)) w;
  wk_extra : n' = n /\ m = 0 \/
             n' <> root_node st' /\ exists x, nodes st' !! n' = Some x /\ extra_key (key x) = extra_key k;
  wk_max : forall a y ks vs j, reach st n a ks vs -> nodes st !! a = Some y ->
    extra_key (key y) = extra_key k -> 0 <= j -> j mod page_size st = 0 -> j <= zlen ks -> j <= key_len k ->
    take (Z.to_nat j) ks = take (Z.to_nat j) (token_ids k) -> j <= m;
  wk_stuck : m < key_len k -> forall x, nodes st' !! n' = Some x ->
    children x !! ck (page_size st) (key_from k m) = None
}.

(** No matching child, or nothing left to match. *)
Lemma walked_stop st L pl n x k :
  tree st L pl -> n ∈ L -> nodes st !! n = Some x ->
  (0 < key_len k -> children x !! ck (page_size st) k = None) ->
  walked st L n k st L pl n 0 [].
Proof.
  intros Ht Hn Hx Hnone. pose proof (tr_ps _ _ _ Ht).
  split; try done.
  - apply ext_sim; [done|apply sim_refl].
  - unfold key_len. pose proof (zlen_nonneg (token_ids k)). lia.
  - constructor.
  - by left.
  - intros a y ks vs j Hr Hy He Hj Hmod H1 H2 H3. destruct (Z.eq_dec j 0) as [->|Hj0]; [lia|].
    assert (Hj' : 0 < j) by lia.
    destruct (reach_first _ _ _ _ _ _ _ _ _ _ _ Ht Hn Hx Hr Hy He Hj' Hmod H1 H2 H3) as (child & c & ks' & vs' & Hc & _).
    rewrite Hnone in Hc by lia. done.
  - intros Hlt y Hy. simplify_eq. unfold ck. rewrite key_from_tokens by (unfold key_len in *; lia). simpl.
    rewrite drop_0. by apply Hnone.
Qed.

Lemma key_from_from k l m :
  0 <= l -> 0 <= m -> l + m <= key_len k -> key_from (key_from k l) m = key_from k (l + m).
Proof.
  intros Hl Hm Hlm. assert (E : token_ids (key_from (key_from k l) m) = token_ids (key_from k (l + m))).
  { rewrite (key_from_tokens (key_from k l)) by (rewrite key_from_len; lia).
    rewrite !key_from_tokens, drop_drop by lia. f_equal. lia. }
  assert (R : forall a b, extra_key a = extra_key b -> is_bigram a = is_bigram b -> token_ids a = token_ids b -> a = b)
    by (intros [] [] E1 E2 E3; simpl in *; by subst).
  by apply R.
Qed.

Lemma walked_child st L pl st1 n x k child c v st' L' pl' n' m w :
  tree st L pl -> sim st st1 -> n ∈ L -> nodes st !! n = Some x ->
  children x !! ck (page_size st) k = Some child -> nodes st1 !! child = Some c -> child ∈ L ->
  child <> root_node st1 -> extra_key (key c) = extra_key k ->
  0 < key_len (key c) -> key_len (key c) <= key_len k -> key_len (key c) mod page_size st = 0 ->
  token_ids (key c) = take (Z.to_nat (key_len (key c))) (token_ids k) ->
  reach st1 n child (token_ids (key c)) v ->
  walked st1 L child (key_from k (key_len (key c))) st' L' pl' n' m w ->
  walked st L n k st' L' pl' n' (key_len (key c) + m) (v ++ w).
Proof.
  intros Ht Hs Hn Hx Hcc Hc Hin Hnr Hex Hpos Hle Hmod Htok Hr [W1 W2 W3 W4 W5 W6 W7 W8].
  set (l := key_len (key c)) in *. rewrite key_from_tokens in * by lia. rewrite key_from_len in W2, W8 by lia.
  rewrite (sim_ps _ _ Hs) in *.
  assert (Htk : token_ids (key c) ++ take (Z.to_nat m) (drop (Z.to_nat l) (token_ids k)) =
                take (Z.to_nat (l + m)) (token_ids k)).
  { rewrite Htok at 1. replace (Z.to_nat (l + m)) with (Z.to_nat l + Z.to_nat m)%nat by lia. apply take_take_drop. }
  split.
  - eapply ext_trans; [by eapply ext_sim|done].
  - lia.
  - rewrite Z.add_mod, Hmod, W3 by (pose proof (tr_ps _ _ _ Ht); lia). apply Z.mod_0_l. pose proof (tr_ps _ _ _ Ht). lia.
  - done.
  - rewrite <- Htk. eapply reach_trans; [|done]. by eapply (ex_reach _ _ _ _ _ W1).
  - right. destruct W6 as [[-> ->]|W6].
    + split; [by rewrite (ex_root _ _ _ _ _ W1)|].
      destruct (ex_extra _ _ _ _ _ W1 _ _ Hin Hc) as (y & Hy & E). exists y. split; [done|]. congruence.
    + destruct W6 as (R & y & Hy & E). split; [done|]. exists y. done.
  - intros a y ks vs j Hra Hy He Hj Hjm Hj1 Hj2 Hjt. destruct (Z.le_gt_cases j l) as [Hjl|Hjl]; [lia|].
    assert (Hj' : 0 < j) by lia.
    destruct (reach_first _ _ _ _ _ _ _ _ _ _ _ Ht Hn Hx Hra Hy He Hj' Hjm Hj1 Hj2 Hjt)
      as (child' & c' & ks' & vs' & Hc' & Hcn' & -> & Hra').
    rewrite Hcc in Hc'. injection Hc' as <-.
    destruct (sim_lookup _ _ _ _ Hs Hcn') as (c2 & Hc2 & _ & _ & E3 & _). rewrite Hc in Hc2. injection Hc2 as <-.
    rewrite E3 in *. destruct (sim_lookup _ _ _ _ Hs Hy) as (y2 & Hy2 & _ & _ & E3' & _).
    assert (Hlc : zlen (token_ids (key c)) = l) by done.
    specialize (W7 a y2 ks' vs' (j - l) (reach_sim _ _ _ _ _ _ Hs Hra') Hy2).
    rewrite zlen_app in Hj1. rewrite <- E3' in W7. simpl in W7. assert (j - l <= m); [|lia].
    apply W7; try lia; try done.
    + rewrite Zminus_mod, Hjm, Hmod. apply Z.mod_0_l. pose proof (tr_ps _ _ _ Ht). lia.
    + rewrite key_from_len by lia. lia.
    + apply (f_equal (drop (Z.to_nat l))) in Hjt.
      replace (Z.to_nat j) with (Z.to_nat l + Z.to_nat (j - l))%nat in Hjt by lia.
      rewrite <- !take_drop_commute, drop_app_length' in Hjt by (unfold zlen in Hlc; lia). done.
  - intros Hlt y Hy. rewrite <- key_from_from by lia. apply W8; [lia|done].
Qed.

(** The match ends inside a node: the node is split and the walk stops there. *)
Lemma walked_split st L pl st1 n x k child c v m px st2 id st3 :
  tree st L pl -> sim st st1 -> n ∈ L -> nodes st !! n = Some x ->
  children x !! ck (page_size st) k = Some child -> nodes st1 !! child = Some c -> child ∈ L ->
  child <> root_node st1 -> tree_node st1 L child c n px -> value c = Some v ->
  zlen v = key_len (key c) -> extra_key (key c) = extra_key k ->
  0 < m < key_len (key c) -> m <= key_len k -> m mod page_size st = 0 ->
  take (Z.to_nat m) (token_ids (key c)) = take (Z.to_nat m) (token_ids k) ->
  (m < key_len (key c) -> m < key_len k ->
   take (Z.to_nat (page_size st)) (drop (Z.to_nat m) (token_ids (key c))) <>
   take (Z.to_nat (page_size st)) (drop (Z.to_nat m) (token_ids k))) ->
  split_rel st1 st2 id child c v n px m -> sim st2 st3 ->
  walked st L n k st3 ({[id]} ∪ L) (split_rank pl n m id) id m (take (Z.to_nat m) v).
Proof.
  intros Ht Hs Hn Hx Hcc Hc Hin Hnr T Hv Hlen Hex Hm Hmk Hmod Htake Hdiff Hr Hs3.
  pose proof (tree_sim _ _ _ _ Hs Ht) as Ht1. pose proof (tr_ps _ _ _ Ht) as HP.
  assert (Hmod1 : m mod page_size st1 = 0) by (by rewrite (sim_ps _ _ Hs)).
  pose proof (ext_split _ _ _ _ _ _ _ _ _ _ _ Ht1 Hin Hnr Hc T Hv Hlen Hm Hmod1 Hr) as He2.
  destruct (sp_new _ _ _ _ _ _ _ _ _ Hr) as (nn & Hnn & N1 & N2 & N3 & N4 & N5).
  destruct (sp_parent _ _ _ _ _ _ _ _ _ Hr) as (pp & Hpp & P1 & _).
  destruct (sim_lookup _ _ _ _ Hs3 Hnn) as (n3 & Hn3 & F1 & _ & F3 & _).
  split.
  - eapply ext_trans; [by eapply ext_sim|]. eapply ext_trans; [exact He2|]. apply ext_sim; [apply (ex_tree _ _ _ _ _ He2)|done].
  - lia.
  - done.
  - by apply elem_of_union_l, elem_of_singleton.
  - eapply reach_sim; [exact Hs3|]. rewrite <- Htake.
    rewrite <- (app_nil_r (take _ (token_ids (key c)))), <- (app_nil_r (take _ v)).
    rewrite <- (key_to_tokens (key c) m), <- N3 by lia.
    eapply reach_step; [exact Hpp| |exact Hnn|done|constructor]. rewrite P1. apply lookup_insert_eq.
  - right. split.
    + rewrite (sim_root _ _ Hs3), (sp_root _ _ _ _ _ _ _ _ _ Hr). intros E.
      assert (Hid : id ∉ L) by (by eapply (split_id_notin st1 L pl)). apply Hid. rewrite E. apply (tr_root _ _ _ Ht1).
    + exists n3. split; [done|]. rewrite <- F3, N3. done.
  - intros a y ks vs j Hra Hy He Hj Hjm Hj1 Hj2 Hjt. destruct (Z.le_gt_cases j m) as [Hjl|Hjl]; [done|].
    assert (Hj' : 0 < j) by lia.
    destruct (reach_first _ _ _ _ _ _ _ _ _ _ _ Ht Hn Hx Hra Hy He Hj' Hjm Hj1 Hj2 Hjt)
      as (child' & c' & ks' & vs' & Hc' & Hcn' & -> & Hra').
    rewrite Hcc in Hc'. injection Hc' as <-.
    destruct (sim_lookup _ _ _ _ Hs Hcn') as (c2 & Hc2 & _ & _ & E3 & _). rewrite Hc in Hc2. injection Hc2 as <-.
    rewrite E3 in *. exfalso. apply Hdiff; [lia|lia|].
    pose proof (multiple_step _ _ _ HP Hmod Hjm Hjl) as Hjs.
    pose proof (tn_aligned _ _ _ _ _ _ T) as Hal. unfold aligned in Hal. rewrite (sim_ps _ _ Hs) in Hal.
    assert (Hml : m < zlen (token_ids (key c))) by (unfold key_len in Hm; lia).
    pose proof (multiple_step _ _ _ HP Hmod Hal Hml) as Hcs.
    rewrite !take_drop_commute.
    assert (E : forall l : list tok, take (Z.to_nat m + Z.to_nat (page_size st)) l =
              take (Z.to_nat m + Z.to_nat (page_size st)) (take (Z.to_nat j) l))
      by (intros l; rewrite take_take; f_equal; lia).
    rewrite (E (token_ids k)), <- Hjt, take_take, take_app_le by (unfold zlen in Hcs; lia).
    do 2 f_equal. lia.
  - intros Hlt y Hy. rewrite Hn3 in Hy. injection Hy as <-. rewrite <- F1, N1. apply lookup_singleton_ne.
    unfold ck. intros E. apply (f_equal snd) in E. cbn [snd] in E. rewrite !key_from_tokens, (sim_ps _ _ Hs) in E by lia.
    apply Hdiff; [lia|done|done].
Qed.

Lemma deref_ok st n x : nodes st !! n = Some x -> deref st n = Ok x.
Proof. unfold deref. by intros ->. Qed.

Lemma deref_value_ok n v : value n = Some v -> deref_value n = Ok v.
Proof. unfold deref_value. by intros ->. Qed.

(** [_match_prefix_helper]'s loop. *)
Lemma match_loop_spec mono fuel : forall st L pl t n k chk acc,
  tree st L pl -> n ∈ L -> aligned (page_size st) (token_ids k) ->
  (0 < key_len k -> chk = ck (page_size st) k) -> (length (token_ids k) < fuel)%nat ->
  exists acc' n' st' L' pl' m w,
    match_loop mono fuel st t n k chk acc = Ok (acc', n', st') /\
    concat acc' = concat acc ++ w /\ walked st L n k st' L' pl' n' m w.
Proof.
  induction fuel as [|f IH]; intros st L pl t n k chk acc Ht Hn Ha Hchk Hf; [lia|].
  destruct (tree_value _ _ _ _ Ht Hn) as (x & vx & Hx & _). cbn [match_loop]. rewrite (deref_ok _ _ _ Hx). cbn [rbind].
  destruct (Z.ltb_spec 0 (key_len k)) as [Hk|Hk].
  2:{ exists acc, n, st, L, pl, 0, []. rewrite app_nil_r. split_and!; try done.
      eapply walked_stop; [done|done|exact Hx|lia]. }
  rewrite Hchk by done. destruct (children x !! ck (page_size st) k) as [child|] eqn:Hcc.
  2:{ exists acc, n, st, L, pl, 0, []. rewrite app_nil_r. split_and!; try done. by eapply walked_stop. }
  set (st1 := update st child (touch t)).
  assert (Hs : sim st st1) by (apply sim_update; intros; apply touch_struct).
  destruct (walk_step _ _ _ _ _ _ _ _ Ht Hs Hn Hx Hk Ha Hcc)
    as (c & v & m & px & Hc & Hin & Hnr & T & Hv & Hlen & Hex & Hkm & M1 & M2 & M3 & M4 & M5 & M6 & Hr).
  rewrite (deref_ok _ _ _ Hc). cbn [rbind]. rewrite Hkm. cbn [rbind].
  destruct (Z.ltb_spec m (key_len (key c))) as [Hlt|Hge].
  - destruct (split_node_rel mono st1 L pl child c v n px m (tree_sim _ _ _ _ Hs Ht) Hin Hnr Hc T Hv ltac:(lia))
      as (id & st2 & Hsp & Hrel).
    rewrite Hsp. cbn [rbind]. destruct (sp_new _ _ _ _ _ _ _ _ _ Hrel) as (nn & Hnn & _ & _ & _ & N4 & _).
    rewrite (deref_ok _ _ _ Hnn). cbn [rbind]. rewrite (deref_value_ok _ _ N4). cbn [rbind].
    eexists _, _, _, _, _, m, _. split; [done|]. rewrite concat_app. simpl. rewrite app_nil_r. split; [done|].
    eapply (walked_split st L pl st1 n x k child c v m px st2 id st2); try done; try lia; apply sim_refl.
  - assert (m = key_len (key c)) as -> by lia. rewrite (deref_value_ok _ _ Hv). cbn [rbind].
    assert (Htok : token_ids (key c) = take (Z.to_nat (key_len (key c))) (token_ids k)).
    { rewrite <- M5. rewrite take_ge; [done|]. unfold key_len, zlen. lia. }
    set (k' := key_from k (key_len (key c))).
    assert (Hk'l : token_ids k' = drop (Z.to_nat (key_len (key c))) (token_ids k)) by (apply key_from_tokens; lia).
    assert (Ha' : aligned (page_size st1) (token_ids k')).
    { rewrite Hk'l. rewrite (sim_ps _ _ Hs). apply aligned_drop; [apply (tr_ps _ _ _ Ht)|unfold key_len in *; lia|done|done]. }
    assert (Hf' : (length (token_ids k') < f)%nat).
    { rewrite Hk'l, length_drop. unfold key_len, zlen in *. lia. }
    assert (Hrun : forall chk', (0 < key_len k' -> chk' = ck (page_size st1) k') ->
      exists acc' n' st' L' pl' m' w,
        match_loop mono f st1 t child k' chk' (acc ++ [v]) = Ok (acc', n', st') /\
        concat acc' = concat acc ++ w /\ walked st L n k st' L' pl' n' m' w).
    { intros chk' Hchk'.
      destruct (IH st1 L pl t child k' chk' (acc ++ [v]) (tree_sim _ _ _ _ Hs Ht) Hin Ha' Hchk' Hf')
        as (acc' & n' & st' & L' & pl' & m' & w & H1 & H2 & H3).
      exists acc', n', st', L', pl', (key_len (key c) + m'), (v ++ w). split; [done|]. split.
      - rewrite H2, concat_app. simpl. by rewrite app_nil_r, <- app_assoc.
      - eapply (walked_child st L pl st1 n x k child c v); done || lia. }
    destruct (Z.ltb_spec 0 (key_len k')) as [Hk'|Hk'].
    + rewrite get_child_key_ok by (done || (rewrite (sim_ps _ _ Hs); apply (tr_ps _ _ _ Ht))). cbn [rbind].
      apply Hrun. done.
    + apply Hrun. lia.
Qed.

Lemma inc_hit_struct chunked prio x : same_struct x (inc_hit_count chunked (raise_priority prio x)).
Proof. unfold inc_hit_count. by destruct chunked. Qed.

Lemma slice_from_nonneg {A} (v : list A) m : 0 <= m -> slice_from v m = drop (Z.to_nat m) v.
Proof. apply slice_from_drop. Qed.

(** [_insert_helper]'s loop. *)
Lemma insert_loop_spec mono fuel : forall st L pl t prio chunked n k v chk total,
  tree st L pl -> n ∈ L -> aligned (page_size st) (token_ids k) ->
  (0 < key_len k -> chk = ck (page_size st) k) -> (length (token_ids k) < fuel)%nat ->
  exists n' k' chk' st' L' pl' m w,
    insert_loop mono fuel st t prio chunked n k v chk total =
      Ok (n', k', drop (Z.to_nat m) v, chk', total + m, st') /\
    token_ids k' = drop (Z.to_nat m) (token_ids k) /\ extra_key k' = extra_key k /\
    (0 < key_len k' -> chk' = ck (page_size st) k') /\
    walked st L n k st' L' pl' n' m w.
Proof.
  induction fuel as [|f IH]; intros st L pl t prio chunked n k v chk total Ht Hn Ha Hchk Hf; [lia|].
  destruct (tree_value _ _ _ _ Ht Hn) as (x & vx & Hx & _). cbn [insert_loop]. rewrite (deref_ok _ _ _ Hx). cbn [rbind].
  assert (Hstop : (0 < key_len k -> children x !! ck (page_size st) k = None) ->
    exists n' k' chk' st' L' pl' m w,
    Ok (n, k, v, chk, total, st) = Ok (n', k', drop (Z.to_nat m) v, chk', total + m, st') /\
    token_ids k' = drop (Z.to_nat m) (token_ids k) /\ extra_key k' = extra_key k /\
    (0 < key_len k' -> chk' = ck (page_size st) k') /\ walked st L n k st' L' pl' n' m w).
  { intros H. exists n, k, chk, st, L, pl, 0, []. rewrite Z.add_0_r. split_and!; try done. by eapply walked_stop. }
  destruct (Z.ltb_spec 0 (key_len k)) as [Hk|Hk]; [|apply Hstop; lia].
  rewrite (Hchk Hk). destruct (children x !! ck (page_size st) k) as [child|] eqn:Hcc;
    [|rewrite <- (Hchk Hk); by apply Hstop].
  clear Hstop. set (st1 := update st child (touch t)).
  assert (Hs : sim st st1) by (apply sim_update; intros; apply touch_struct).
  pose proof (tree_sim _ _ _ _ Hs Ht) as Ht1. pose proof (tr_ps _ _ _ Ht) as HP.
  destruct (walk_step _ _ _ _ _ _ _ _ Ht Hs Hn Hx Hk Ha Hcc)
    as (c & vc & m & px & Hc & Hin & Hnr & T & Hv & Hlen & Hex & Hkm & M1 & M2 & M3 & M4 & M5 & M6 & Hr).
  rewrite (deref_ok _ _ _ Hc). cbn [rbind]. rewrite Hkm. cbn [rbind].
  set (k' := key_from k m). rewrite slice_from_drop by lia.
  assert (Hk't : token_ids k' = drop (Z.to_nat m) (token_ids k)) by (apply key_from_tokens; lia).
  assert (Hk'l : key_len k' = key_len k - m) by (apply key_from_len; lia).
  destruct (Z.ltb_spec m (key_len (key c))) as [Hlt|Hge].
  - (* split, then the loop stops at the new node *)
    destruct (split_node_rel mono st1 L pl child c vc n px m Ht1 Hin Hnr Hc T Hv ltac:(lia)) as (id & st2 & Hsp & Hrel).
    rewrite Hsp. cbn [rbind].
    set (st3 := update st2 id _). assert (Hs3 : sim st2 st3) by (apply sim_update; intros; apply inc_hit_struct).
    assert (W : walked st L n k st3 ({[id]} ∪ L) (split_rank pl n m id) id m (take (Z.to_nat m) vc)).
    { eapply (walked_split st L pl st1 n x k child c vc m px st2 id st3); try done; lia. }
    pose proof (ex_tree _ _ _ _ _ (wk_ext _ _ _ _ _ _ _ _ _ _ W)) as Ht3.
    pose proof (ex_ps _ _ _ _ _ (wk_ext _ _ _ _ _ _ _ _ _ _ W)) as Eps.
    destruct (tree_value _ _ _ _ Ht3 (wk_live _ _ _ _ _ _ _ _ _ _ W)) as (y & vy & Hy & _).
    assert (Hend : forall chk', insert_loop mono f st3 t prio chunked id k' (drop (Z.to_nat m) v) chk' (total + m) =
       Ok (id, k', drop (Z.to_nat m) v, chk', total + m, st3) \/ chk' <> ck (page_size st) k' /\ 0 < key_len k').
    { intros chk'. destruct (decide (0 < key_len k' /\ chk' <> ck (page_size st) k')) as [[? ?]|Hno]; [by right|left].
      destruct f as [|f']; [simpl; done|]. cbn [insert_loop]. rewrite (deref_ok _ _ _ Hy). cbn [rbind].
      destruct (Z.ltb_spec 0 (key_len k')) as [Hk'|]; [|done].
      assert (chk' = ck (page_size st) k') as -> by (destruct (decide (chk' = ck (page_size st) k')); [done|tauto]).
      rewrite (wk_stuck _ _ _ _ _ _ _ _ _ _ W) by (done || lia). done. }
    assert (Hres : forall chk', (0 < key_len k' -> chk' = ck (page_size st) k') ->
      exists n' k'' chk'' st' L' pl' m' w,
        insert_loop mono f st3 t prio chunked id k' (drop (Z.to_nat m) v) chk' (total + m) =
          Ok (n', k'', drop (Z.to_nat m') v, chk'', total + m', st') /\
        token_ids k'' = drop (Z.to_nat m') (token_ids k) /\ extra_key k'' = extra_key k /\
        (0 < key_len k'' -> chk'' = ck (page_size st) k'') /\ walked st L n k st' L' pl' n' m' w).
    { intros chk' Hchk'. destruct (Hend chk') as [E|[E1 E2]]; [|by apply Hchk' in E2].
      eexists _, _, _, _, _, _, m, _. split; [exact E|]. split_and!; done. }
    destruct (Z.ltb_spec 0 (key_len k')) as [Hk'|Hk'].
    + rewrite get_child_key_ok by (done || (rewrite Eps; done)). cbn [rbind]. apply Hres. intros _. by rewrite Eps.
    + apply Hres. lia.
  - assert (m = key_len (key c)) as -> by lia. cbn [rbind].
    set (st3 := update st1 child _). assert (Hs3 : sim st1 st3) by (apply sim_update; intros; apply inc_hit_struct).
    assert (Hs' : sim st st3) by (by eapply sim_trans).
    destruct (sim_lookup _ _ _ _ Hs3 Hc) as (c3 & Hc3 & _ & _ & F3 & F4 & _).
    assert (Htok : token_ids (key c3) = take (Z.to_nat (key_len (key c3))) (token_ids k)).
    { rewrite <- F3, <- M5. rewrite take_ge; [done|]. unfold key_len, zlen. lia. }
    assert (Ha' : aligned (page_size st3) (token_ids k')).
    { rewrite Hk't, (sim_ps _ _ Hs'). apply aligned_drop; [done|unfold key_len in *; lia|done|done]. }
    assert (Hf' : (length (token_ids k') < f)%nat).
    { rewrite Hk't, length_drop. unfold key_len, zlen in *. lia. }
    assert (Hrun : forall chk', (0 < key_len k' -> chk' = ck (page_size st3) k') ->
      exists n' k'' chk'' st' L' pl' m' w,
        insert_loop mono f st3 t prio chunked child k' (drop (Z.to_nat (key_len (key c))) v) chk' (total + key_len (key c)) =
          Ok (n', k'', drop (Z.to_nat m') v, chk'', total + m', st') /\
        token_ids k'' = drop (Z.to_nat m') (token_ids k) /\ extra_key k'' = extra_key k /\
        (0 < key_len k'' -> chk'' = ck (page_size st) k'') /\ walked st L n k st' L' pl' n' m' w).
    { intros chk' Hchk'.
      destruct (IH st3 L pl t prio chunked child k' (drop (Z.to_nat (key_len (key c))) v) chk' (total + key_len (key c))
        (tree_sim _ _ _ _ Hs' Ht) Hin Ha' Hchk' Hf') as (n' & k'' & chk'' & st' & L' & pl' & m' & w & H1 & H2 & H3 & H4 & H5).
      pose proof (wk_m _ _ _ _ _ _ _ _ _ _ H5) as Hm'.
      exists n', k'', chk'', st', L', pl', (key_len (key c) + m'), (vc ++ w). rewrite H1, H2, H3, Hk't, !drop_drop.
      replace (Z.to_nat (key_len (key c)) + Z.to_nat m')%nat with (Z.to_nat (key_len (key c) + m')) by lia.
      rewrite Z.add_assoc. split_and!; try done.
      rewrite F3. eapply (walked_child st L pl st3 n x k child c3 vc); try done; rewrite <- ?F3; try done; try lia.
      eapply reach_sim; [exact Hs3|exact Hr]. }
    destruct (Z.ltb_spec 0 (key_len k')) as [Hk'|Hk'].
    + rewrite get_child_key_ok by (done || (rewrite (sim_ps _ _ Hs'); done)). cbn [rbind]. by apply Hrun.
    + apply Hrun. lia.
Qed.
