(* ===== verification/RadixInsert.v ===== *)
(** * Adding a node, and leaf bookkeeping

    The end of [_insert_helper]: a new leaf under the node where the walk
    stopped, the size counters and the set of evictable leaves. *)

From S2P Require Import Prelude Tensors RadixKeys RadixKeysTheory RadixCache RadixTheory RadixSplit RadixWalk.

Record add_rel (st st' : RadixCache) (id n : nat) (x : TreeNode) (k : RadixKey) (v : list Z) : Prop := {
  ad_id : id = counter st;
  ad_new : exists nn, nodes st' !! id = Some nn /\ children nn = ∅ /\ parent nn = Some n /\
    key nn = k /\ value nn = Some v /\ lock_ref nn = 0;
  ad_parent : exists xx, nodes st' !! n = Some xx /\
    children xx = <[ck (page_size st) k := id]> (children x) /\ parent xx = parent x /\
    key xx = key x /\ value xx = value x /\ lock_ref xx = lock_ref x;
  ad_other : forall i, i <> id -> i <> n -> nodes st' !! i = nodes st !! i;
  ad_counter : counter st' = S (counter st);
  ad_ps : page_size st' = page_size st;
  ad_root : root_node st' = root_node st
}.

Section add.
Context (st st' : RadixCache) (L : gset nat) (pl : nat -> Z) (id n : nat) (x : TreeNode) (k : RadixKey) (v : list Z).
Context (Ht : tree st L pl) (Hn : n ∈ L) (Hx : nodes st !! n = Some x) (Hr : add_rel st st' id n x k v).
Context (Hk : 0 < key_len k) (Ha : aligned (page_size st) (token_ids k)) (Hlen : zlen v = key_len k).
Context (Hnone : children x !! ck (page_size st) k = None).
Context (Hex : n <> root_node st -> extra_key k = extra_key (key x)).

Lemma add_fresh i y : nodes st !! i = Some y -> i <> id.
Proof. intros H ->. rewrite (ad_id _ _ _ _ _ _ _ Hr) in H. apply (tr_fresh _ _ _ Ht) in H. lia. Qed.

Lemma tree_lookup i : i ∈ L -> exists y, nodes st !! i = Some y.
Proof. intros Hi. destruct (tree_value _ _ _ _ Ht Hi) as (y & _ & Hy & _). by exists y. Qed.

Lemma add_id_notin : id ∉ L.
Proof. intros H. destruct (tree_lookup _ H) as [y Hy]. by apply add_fresh in Hy. Qed.

(** Old nodes keep everything but, for [n], the new child entry. *)
Lemma add_old i y : nodes st !! i = Some y ->
  exists z, nodes st' !! i = Some z /\ parent z = parent y /\ key z = key y /\ value z = value y /\
    lock_ref z = lock_ref y /\ (i <> n -> children z = children y) /\
    (i = n -> children z = <[ck (page_size st) k := id]> (children y)).
Proof.
  intros Hy. destruct (decide (i = n)) as [->|Hne].
  - destruct (ad_parent _ _ _ _ _ _ _ Hr) as (xx & Hxx & E1 & E2 & E3 & E4 & E5).
    rewrite Hx in Hy. injection Hy as <-. exists xx. split_and!; done.
  - exists y. rewrite (ad_other _ _ _ _ _ _ _ Hr) by (done || by eapply add_fresh). split_and!; done.
Qed.

Lemma add_entry i y c m : nodes st !! i = Some y -> children y !! c = Some m ->
  exists z, nodes st' !! i = Some z /\ children z !! c = Some m.
Proof.
  intros Hy Hc. destruct (add_old i y Hy) as (z & Hz & _ & _ & _ & _ & E1 & E2). exists z. split; [done|].
  destruct (decide (i = n)) as [->|Hne]; [|by rewrite E1].
  rewrite E2 by done. rewrite Hx in Hy. injection Hy as <-. rewrite lookup_insert_ne; [done|]. intros E. congruence.
Qed.

Lemma add_reach_fwd s a ks vs : reach st s a ks vs -> reach st' s a ks vs.
Proof.
  induction 1 as [|s y c m z w a ks vs Hy Hc Hz Hw _ IH]; [constructor|].
  destruct (add_entry _ _ _ _ Hy Hc) as (y' & Hy' & Hc').
  destruct (add_old m z Hz) as (z' & Hz' & _ & E2 & E3 & _). rewrite <- E2.
  eapply reach_step; [exact Hy'|exact Hc'|exact Hz'|by rewrite E3|exact IH].
Qed.

Lemma add_reach_bwd s a ks vs : reach st' s a ks vs -> s ∈ L \/ s = id ->
  (s <> id -> a <> id -> reach st s a ks vs) /\
  (s <> id -> a = id -> exists ks0 vs0, reach st s n ks0 vs0 /\ ks = ks0 ++ token_ids k /\ vs = vs0 ++ v) /\
  (s = id -> a = id /\ ks = [] /\ vs = []).
Proof.
  destruct (ad_new _ _ _ _ _ _ _ Hr) as (nn & Hnn & N1 & N2 & N3 & N4 & _).
  induction 1 as [s|s y c m z w a ks vs Hy Hc Hz Hw Hre IH]; intros Hs.
  - split_and!; [constructor|done|done].
  - destruct (decide (s = id)) as [->|Hsid].
    { rewrite Hnn in Hy. injection Hy as <-. rewrite N1, lookup_empty in Hc. done. }
    destruct Hs as [Hs|]; [|done]. destruct (tree_lookup s Hs) as [y0 Hy0].
    destruct (add_old s y0 Hy0) as (y1 & Hy1 & _ & _ & _ & _ & E1 & E2).
    rewrite Hy in Hy1. injection Hy1 as <-.
    assert (Hcase : children y0 !! c = Some m \/ s = n /\ c = ck (page_size st) k /\ m = id).
    { destruct (decide (s = n)) as [->|Hne]; [|left; by rewrite <- E1].
      rewrite E2 in Hc by done. apply lookup_insert_Some in Hc as [[<- <-]|[_ Hc]]; [by right|by left]. }
    destruct Hcase as [Hc0|(-> & -> & ->)].
    + destruct (tr_child _ _ _ Ht _ _ _ _ Hs Hy0 Hc0) as (Hm & _ & z0 & Hz0 & _).
      destruct (add_old m z0 Hz0) as (z1 & Hz1 & _ & F2 & F3 & _). rewrite Hz in Hz1. injection Hz1 as <-.
      assert (Hmid : m <> id) by (by eapply add_fresh).
      destruct (IH (or_introl Hm)) as (I1 & I2 & _). rewrite F2. split_and!; [| |done].
      * intros _ Ha0. eapply reach_step; [done|done|done|by rewrite <- F3|by apply I1].
      * intros _ ->. destruct (I2 Hmid eq_refl) as (ks0 & vs0 & H1 & -> & ->).
        exists (token_ids (key z0) ++ ks0), (w ++ vs0). rewrite <- !app_assoc. split; [|done].
        eapply reach_step; [done|done|done|by rewrite <- F3|done].
    + destruct (IH (or_intror eq_refl)) as (_ & _ & I3). destruct (I3 eq_refl) as (-> & -> & ->).
      rewrite Hnn in Hz. injection Hz as <-. rewrite N4 in Hw. injection Hw as <-. rewrite N3.
      split_and!; [done| |done]. intros _ _. exists [], []. rewrite !app_nil_r. split; [constructor|done].
Qed.

Definition add_rank (i : nat) : Z := if decide (i = id) then pl n + key_len k else pl i.

Lemma add_tree : tree st' ({[id]} ∪ L) add_rank.
Proof.
  destruct (ad_new _ _ _ _ _ _ _ Hr) as (nn & Hnn & N1 & N2 & N3 & N4 & N5).
  destruct (add_old n x Hx) as (xx & Hxx & X1 & X2 & X3 & X4 & _ & X6). specialize (X6 eq_refl).
  pose proof add_id_notin as Hid. pose proof (ad_ps _ _ _ _ _ _ _ Hr) as Eps. pose proof (ad_root _ _ _ _ _ _ _ Hr) as Ero.
  assert (Hidn : n <> id) by (intros ->; done).
  assert (Hidr : root_node st <> id) by (intros E; apply Hid; rewrite <- E; apply (tr_root _ _ _ Ht)).
  split; rewrite ?Eps, ?Ero.
  - apply (tr_ps _ _ _ Ht).
  - apply elem_of_union_r, (tr_root _ _ _ Ht).
  - destruct (tr_rootn _ _ _ Ht) as (r & Hr0 & R1 & R2 & R3 & R4).
    destruct (add_old _ _ Hr0) as (z & Hz & Z1 & Z2 & Z3 & Z4 & _). exists z. by rewrite Z1, Z2, Z3, Z4.
  - intros i y Hy. rewrite (ad_counter _ _ _ _ _ _ _ Hr). destruct (decide (i = id)) as [->|Hi].
    { rewrite (ad_id _ _ _ _ _ _ _ Hr). lia. }
    assert (exists y0, nodes st !! i = Some y0) as [y0 Hy0].
    { destruct (decide (i = n)) as [->|Hin]; [by exists x|]. exists y. by rewrite <- (ad_other _ _ _ _ _ _ _ Hr). }
    apply (tr_fresh _ _ _ Ht) in Hy0. lia.
  - intros i Hi Hir. destruct (decide (i = id)) as [->|Hiid].
    + exists nn, n, xx. split; [done|]. split; rewrite ?Eps, ?Ero, ?N3, ?X2, ?N5, ?X4; try done.
      * by apply elem_of_union_r.
      * rewrite X6. apply lookup_insert_eq.
      * by exists v.
      * intros Hnr. destruct (tr_node _ _ _ Ht n Hn Hnr) as (x0 & p & px & Hx0 & T). rewrite Hx in Hx0.
        injection Hx0 as <-. apply (tn_lock _ _ _ _ _ _ T).
    + assert (HiL : i ∈ L) by set_solver.
      destruct (tr_node _ _ _ Ht i HiL Hir) as (y & p & py & Hy & [T1 T2 T3 T4 T5 T6 T7 T8 T9 T10]).
      destruct (add_old i y Hy) as (z & Hz & Z1 & Z2 & Z3 & Z4 & _).
      destruct (add_old p py T3) as (pz & Hpz & P1 & P2 & P3 & P4 & _).
      exists z, p, pz. split; [done|]. split; rewrite ?Eps, ?Ero, ?Z1, ?Z2, ?Z3, ?Z4, ?P2, ?P4; try done.
      * by apply elem_of_union_r.
      * destruct (add_entry _ _ _ _ T3 T4) as (pz' & Hpz' & He). rewrite Hpz in Hpz'. by injection Hpz' as <-.
  - intros i y c m Hi Hy Hc. destruct (decide (i = id)) as [->|Hiid].
    { rewrite Hnn in Hy. injection Hy as <-. by rewrite N1, lookup_empty in Hc. }
    assert (HiL : i ∈ L) by set_solver. destruct (tree_lookup i HiL) as [y0 Hy0].
    destruct (add_old i y0 Hy0) as (y1 & Hy1 & _ & _ & _ & _ & E1 & E2). rewrite Hy in Hy1. injection Hy1 as <-.
    assert (Hcase : children y0 !! c = Some m \/ i = n /\ c = ck (page_size st) k /\ m = id).
    { destruct (decide (i = n)) as [->|Hne]; [|left; by rewrite <- E1].
      rewrite E2 in Hc by done. apply lookup_insert_Some in Hc as [[<- <-]|[_ Hc]]; [by right|by left]. }
    destruct Hcase as [Hc0|(-> & -> & ->)].
    + destruct (tr_child _ _ _ Ht _ _ _ _ HiL Hy0 Hc0) as (Hm & Hmr & z & Hz & Hpar & ->).
      split; [by apply elem_of_union_r|]. split; [done|].
      destruct (add_old m z Hz) as (z1 & Hz1 & Z1 & Z2 & _). exists z1. by rewrite Z1, Z2.
    + split; [by apply elem_of_union_l, elem_of_singleton|]. split; [done|]. exists nn. by rewrite N3.
  - unfold add_rank. rewrite decide_False by done. apply (tr_rank0 _ _ _ Ht).
  - intros i y p Hi Hir Hy Hp. unfold add_rank. destruct (decide (i = id)) as [->|Hiid].
    + rewrite Hnn in Hy. injection Hy as <-. rewrite N2 in Hp. injection Hp as <-. rewrite N3.
      by rewrite decide_False by done.
    + assert (HiL : i ∈ L) by set_solver. destruct (tree_lookup i HiL) as [y0 Hy0].
      destruct (add_old i y0 Hy0) as (y1 & Hy1 & Z1 & Z2 & _). rewrite Hy in Hy1. injection Hy1 as <-.
      rewrite Z1 in Hp. rewrite Z2.
      destruct (tr_node _ _ _ Ht i HiL Hir) as (y2 & q & qx & Hy2 & T). rewrite Hy0 in Hy2. injection Hy2 as <-.
      rewrite (tn_parent _ _ _ _ _ _ T) in Hp. injection Hp as <-.
      rewrite decide_False by (intros ->; apply Hid, (tn_plive _ _ _ _ _ _ T)).
      eapply (tr_rank _ _ _ Ht); [done|done|done|apply (tn_parent _ _ _ _ _ _ T)].
Qed.

Lemma add_sum f :
  (forall y z, key y = key z -> lock_ref y = lock_ref z -> f y = f z) ->
  exists nn, nodes st' !! id = Some nn /\ key nn = k /\ lock_ref nn = 0 /\
    node_sum f st' ({[id]} ∪ L) = f nn + node_sum f st L.
Proof.
  intros Hf. destruct (ad_new _ _ _ _ _ _ _ Hr) as (nn & Hnn & N1 & N2 & N3 & N4 & N5).
  exists nn. split_and!; try done. rewrite node_sum_insert, Hnn by apply add_id_notin. f_equal.
  apply node_sum_ext. intros i Hi. destruct (tree_lookup i Hi) as [y Hy].
  destruct (add_old i y Hy) as (z & Hz & _ & Z2 & _ & Z4 & _). rewrite Hy, Hz. by apply Hf.
Qed.

Lemma add_stored ek ks vs : stored st' ek ks vs <->
  stored st ek ks vs \/
  ek = extra_key k /\ exists ks0 vs0 j, reach st (root_node st) n ks0 vs0 /\
    ks = take j (ks0 ++ token_ids k) /\ vs = take j (vs0 ++ v).
Proof.
  destruct (ad_new _ _ _ _ _ _ _ Hr) as (nn & Hnn & N1 & N2 & N3 & N4 & _).
  pose proof add_id_notin as Hid. pose proof (tr_root _ _ _ Ht) as HrL.
  assert (Hidr : root_node st <> id) by (intros E; apply Hid; by rewrite <- E).
  unfold stored. rewrite (ad_root _ _ _ _ _ _ _ Hr). split.
  - intros (a & y & fks & fvs & j & Hre & Hy & He & -> & ->).
    destruct (add_reach_bwd _ _ _ _ Hre (or_introl HrL)) as (B1 & B2 & _).
    destruct (decide (a = id)) as [->|Hai].
    + right. destruct (B2 Hidr eq_refl) as (ks0 & vs0 & H1 & -> & ->). rewrite Hnn in Hy. injection Hy as <-.
      rewrite N3 in He. split; [done|]. by exists ks0, vs0, j.
    + left. specialize (B1 Hidr Hai). destruct (tree_lookup a (reach_live _ _ _ _ _ _ _ Ht HrL B1)) as [y0 Hy0].
      destruct (add_old a y0 Hy0) as (z & Hz & _ & Z2 & _). rewrite Hy in Hz. injection Hz as <-.
      rewrite Z2 in He. by exists a, y0, fks, fvs, j.
  - intros [(a & y & fks & fvs & j & Hre & Hy & He & -> & ->)|(-> & ks0 & vs0 & j & Hre & -> & ->)].
    + destruct (add_old a y Hy) as (z & Hz & _ & Z2 & _). exists a, z, fks, fvs, j. rewrite Z2.
      split_and!; try done. by apply add_reach_fwd.
    + exists id, nn, (ks0 ++ token_ids k), (vs0 ++ v), j. rewrite N3. split_and!; try done.
      eapply reach_trans; [by apply add_reach_fwd|].
      destruct (add_old n x Hx) as (xx & Hxx & _ & _ & _ & _ & _ & X6). specialize (X6 eq_refl).
      rewrite <- (app_nil_r (token_ids k)), <- (app_nil_r v), <- N3.
      eapply reach_step; [exact Hxx| |exact Hnn|exact N4|constructor]. rewrite X6. apply lookup_insert_eq.
Qed.

Lemma add_locks H : locks st L H -> locks st' ({[id]} ∪ L) H.
Proof using Ht Hx Hr Hnone Hex.
  clear Hn Hlen Hk Ha. intros [K1 K2]. pose proof add_id_notin as Hid.
  split; [intros h Hh; by apply elem_of_union_r, K1|]. rewrite (ad_root _ _ _ _ _ _ _ Hr).
  assert (Hne : forall h, h ∈ H -> h <> id) by (intros h Hh ->; by apply Hid, K1).
  intros i y Hi Hir Hy. destruct (decide (i = id)) as [->|Hii].
  - destruct (ad_new _ _ _ _ _ _ _ Hr) as (nn & Hnn & _ & _ & _ & _ & N5). rewrite Hy in Hnn. injection Hnn as <-.
    rewrite N5. assert (Hno : forall h, h ∈ H -> ~ exists ks vs, reach st' id h ks vs).
    { intros h Hh (ks & vs & Hre). destruct (add_reach_bwd _ _ _ _ Hre (or_intror eq_refl)) as (_ & _ & B3).
      by apply (Hne h Hh), B3. }
    clear - Hno. induction H as [|h H IH]; [constructor|].
    apply holds_no; [apply Hno; by left|]. apply IH. intros i Hi. apply Hno. by right.
  - assert (HiL : i ∈ L) by set_solver. destruct (tree_lookup i HiL) as [y0 Hy0].
    destruct (add_old i y0 Hy0) as (z & Hz & _ & _ & _ & Z4 & _). rewrite Hy in Hz. injection Hz as <-. rewrite Z4.
    eapply holds_ext; [|by apply K2]. intros h Hh. split; intros (ks & vs & Hre); exists ks, vs.
    + by apply add_reach_fwd.
    + destruct (add_reach_bwd _ _ _ _ Hre (or_introl HiL)) as (B1 & _). by apply B1; [|apply Hne].
Qed.

Lemma add_slots : tree_slots st' ({[id]} ∪ L) ≡ₚ v ++ tree_slots st L.
Proof using Ht Hx Hr Hex.
  clear Hn Hlen Hk Ha. rewrite tree_slots_insert by apply add_id_notin.
  destruct (ad_new _ _ _ _ _ _ _ Hr) as (nn & Hnn & _ & _ & _ & N4 & _). rewrite (node_slots_value _ _ _ _ Hnn N4).
  apply Permutation_app_head, reflexive_eq, tree_slots_ext. intros i Hi. destruct (tree_lookup i Hi) as [y Hy].
  destruct (add_old i y Hy) as (z & Hz & _ & _ & Z3 & _). unfold node_slots. rewrite Hy, Hz. simpl. by rewrite Z3.
Qed.
End add.
