(* ===== verification/RadixOps.v ===== *)
(** * Lookup and insertion

    The complete behaviour of [match_prefix] and [insert] on a well-formed
    tree. *)

From S2P Require Import Prelude Tensors RadixKeys RadixKeysTheory RadixCache RadixTheory RadixSplit RadixWalk RadixInsert.

(** ** Stores with the same nodes *)

Lemma reach_nodes_eq st st' s a ks vs : nodes st' = nodes st -> reach st s a ks vs -> reach st' s a ks vs.
Proof. intros E. induction 1; [constructor|]. econstructor; rewrite ?E; eauto. Qed.

Lemma tree_nodes_eq st st' L pl :
  nodes st' = nodes st -> page_size st' = page_size st -> root_node st' = root_node st ->
  counter st' = counter st -> tree st L pl -> tree st' L pl.
Proof.
  intros E1 E2 E3 E4 [H1 H2 H3 H4 H5 H6 H7 H8]. split; rewrite ?E1, ?E2, ?E3, ?E4; try done.
  intros n Hn Hne. destruct (H5 n Hn Hne) as (x & p & px & Hx & [T1 T2 T3 T4 T5 T6 T7 T8 T9 T10]).
  exists x, p, px. split; [done|]. split; rewrite ?E1, ?E2, ?E3; done.
Qed.

Lemma tree_leaves st l L pl : tree st L pl -> tree (with_leaves st l) L pl.
Proof. by apply tree_nodes_eq. Qed.

Lemma locks_leaves st l L H : locks st L H -> locks (with_leaves st l) L H.
Proof.
  intros [K1 K2]. split; [done|]. intros n x Hn Hnr Hx. eapply holds_ext; [|by apply K2].
  intros h _. split; intros (ks & vs & Hr); exists ks, vs; (eapply reach_nodes_eq; [|exact Hr]); done.
Qed.

Lemma stored_nodes_eq st st' ek ks vs :
  nodes st' = nodes st -> root_node st' = root_node st -> stored st' ek ks vs <-> stored st ek ks vs.
Proof.
  intros E1 E2. unfold stored. rewrite E1, E2.
  split; intros (a & x & fks & fvs & j & H & Hrest); exists a, x, fks, fvs, j; (split; [|done]);
    eapply reach_nodes_eq; [|done| |done]; done.
Qed.

(** ** Paths from the root are unique *)

Lemma reach_last st L pl s n ks vs :
  tree st L pl -> s ∈ L -> reach st s n ks vs ->
  n = s /\ ks = [] /\ vs = [] \/
  exists x p v ks0 vs0, nodes st !! n = Some x /\ n <> root_node st /\ parent x = Some p /\ value x = Some v /\
    reach st s p ks0 vs0 /\ ks = ks0 ++ token_ids (key x) /\ vs = vs0 ++ v.
Proof.
  intros Ht Hs H. revert Hs. induction H as [|s y c m z w a ks vs Hy Hc Hz Hw Hr IH]; intros Hs; [by left|right].
  destruct (tr_child _ _ _ Ht _ _ _ _ Hs Hy Hc) as (Hm & Hmr & z' & Hz' & Hpar & _).
  rewrite Hz in Hz'. injection Hz' as <-.
  destruct (IH Hm) as [(-> & -> & ->)|(x & p & v & ks0 & vs0 & Hx & Hnr & Hp & Hv & Hr0 & -> & ->)].
  - exists z, s, w, [], []. rewrite !app_nil_r. split_and!; try done. constructor.
  - exists x, p, v, (token_ids (key z) ++ ks0), (w ++ vs0). rewrite !app_assoc. split_and!; try done.
    eapply reach_step; eauto.
Qed.

Lemma reach_root_unique st L pl n ks vs ks' vs' :
  tree st L pl -> reach st (root_node st) n ks vs -> reach st (root_node st) n ks' vs' -> ks = ks' /\ vs = vs'.
Proof.
  intros Ht. remember (length ks) as len eqn:E. revert n ks vs ks' vs' E.
  induction len as [len IH] using lt_wf_ind. intros n ks vs ks' vs' -> H H'.
  pose proof (tr_root _ _ _ Ht) as HrL. destruct (tr_rootn _ _ _ Ht) as (r & Hr & Rp & _).
  pose proof (reach_live _ _ _ _ _ _ _ Ht HrL H) as HnL.
  destruct (reach_last _ _ _ _ _ _ _ Ht HrL H) as [(-> & -> & ->)|(x & p & v & ks0 & vs0 & Hx & Hnr & Hp & Hv & H0 & -> & ->)],
    (reach_last _ _ _ _ _ _ _ Ht HrL H') as [(E1 & -> & ->)|(x' & p' & v' & ks1 & vs1 & Hx' & Hnr' & Hp' & Hv' & H1 & -> & ->)];
    try done.
  assert (x' = x) as -> by congruence. assert (p' = p) as -> by congruence. assert (v' = v) as -> by congruence.
  destruct (tr_node _ _ _ Ht n HnL Hnr) as (x2 & q & qx & Hx2 & T). assert (x2 = x) as -> by congruence.
  pose proof (tn_pos _ _ _ _ _ _ T) as Hpos. unfold key_len, zlen in Hpos.
  destruct (IH (length ks0)) with (n := p) (ks := ks0) (vs := vs0) (ks' := ks1) (vs' := vs1) as [-> ->]; try done.
  rewrite length_app. lia.
Qed.

(** ** Leaf bookkeeping *)

Definition leaves_ok (st : RadixCache) (L E : gset nat) : Prop :=
  forall m, m ∉ E -> (m ∈ evictable_leaves st <-> m ∈ L /\ is_leaf st m).

Lemma has_live_child_spec st x :
  (forall c m, children x !! c = Some m -> exists y v, nodes st !! m = Some y /\ value y = Some v) ->
  has_live_child st x = bool_decide (children x <> ∅).
Proof.
  intros Hch. unfold has_live_child. case_bool_decide as E.
  - apply map_choose in E as (c & m & Hc). apply existsb_exists. exists m. split.
    + apply list_elem_of_In, list_elem_of_fmap. exists (c, m). split; [done|]. by apply elem_of_map_to_list.
    + destruct (Hch c m Hc) as (y & v & Hy & Hv). unfold evicted. by rewrite Hy, Hv.
  - rewrite E, map_to_list_empty. done.
Qed.

(** Refreshing a node whose children are all in the tree. *)
Lemma update_leaf_status_gen st L n x v E :
  nodes st !! n = Some x -> value x = Some v -> 0 <= lock_ref x -> n ∈ L ->
  (forall c m, children x !! c = Some m -> exists y v, nodes st !! m = Some y /\ value y = Some v) ->
  leaves_ok st L E ->
  exists ls, update_leaf_status st n = Ok (with_leaves st ls) /\ leaves_ok (with_leaves st ls) L (E ∖ {[n]}).
Proof.
  intros Hx Hv Hlock Hn Hch HE.
  unfold update_leaf_status. rewrite (deref_ok _ _ _ Hx). cbn [rbind]. unfold evicted. rewrite Hv. cbn [orb].
  rewrite (has_live_child_spec _ _ Hch).
  assert (Hnot : (lock_ref x = 0 /\ children x = ∅ -> False) ->
    leaves_ok (with_leaves st (evictable_leaves st ∖ {[n]})) L (E ∖ {[n]})).
  { intros Hno m Hm. simpl. destruct (decide (m = n)) as [->|Hne].
    - split; [set_solver|]. intros (_ & y & Hy & H1 & H2). simpl in Hy. exfalso. apply Hno. by simplify_eq.
    - change (is_leaf (with_leaves st (evictable_leaves st ∖ {[n]})) m) with (is_leaf st m).
      rewrite <- (HE m) by set_solver. set_solver. }
  destruct (Z.ltb_spec 0 (lock_ref x)) as [Hl|Hl].
  - eexists. split; [done|]. apply Hnot. intros [? _]. lia.
  - case_bool_decide as Hc.
    + eexists. split; [done|]. apply Hnot. tauto.
    + eexists. split; [done|]. intros m Hm. simpl.
      change (is_leaf (with_leaves st ({[n]} ∪ evictable_leaves st)) m) with (is_leaf st m).
      destruct (decide (m = n)) as [->|Hne].
      * split; [|set_solver]. intros _. split; [done|]. exists x. split_and!; [done|lia|done].
      * rewrite <- (HE m) by set_solver. set_solver.
Qed.

Lemma tree_children st L pl n x : tree st L pl -> n ∈ L -> nodes st !! n = Some x ->
  forall c m, children x !! c = Some m -> exists y v, nodes st !! m = Some y /\ value y = Some v.
Proof.
  intros Ht Hn Hx c m Hc. destruct (tr_child _ _ _ Ht _ _ _ _ Hn Hx Hc) as (Hm & _).
  destruct (tree_value _ _ _ _ Ht Hm) as (y & v & Hy & Hv & _). by exists y, v.
Qed.

Lemma tree_lock st L pl n x : tree st L pl -> n ∈ L -> nodes st !! n = Some x -> 0 <= lock_ref x.
Proof.
  intros Ht Hn Hx. destruct (decide (n = root_node st)) as [->|Hnr].
  - destruct (tr_rootn _ _ _ Ht) as (r & Hr & _ & _ & _ & Hl). rewrite Hx in Hr. injection Hr as <-. lia.
  - destruct (tr_node _ _ _ Ht n Hn Hnr) as (x' & p & px & Hx' & T). rewrite Hx in Hx'. injection Hx' as <-.
    apply (tn_lock _ _ _ _ _ _ T).
Qed.

Lemma update_leaf_status_spec st L pl n E :
  tree st L pl -> n ∈ L -> leaves_ok st L E ->
  exists ls, update_leaf_status st n = Ok (with_leaves st ls) /\ leaves_ok (with_leaves st ls) L (E ∖ {[n]}).
Proof.
  intros Ht Hn HE. destruct (tree_value _ _ _ _ Ht Hn) as (x & v & Hx & Hv & _).
  eapply update_leaf_status_gen; [exact Hx|exact Hv|by eapply tree_lock|done|by eapply tree_children|done].
Qed.

(** ** Lookup *)

(** The longest prefix of [k], in whole pages, that the tree stores. *)
Definition longest (st : RadixCache) (k : RadixKey) (m : Z) : Prop :=
  forall ks vs j, stored st (extra_key k) ks vs -> 0 <= j -> j mod page_size st = 0 ->
    j <= key_len k -> ks = take (Z.to_nat j) (token_ids k) -> j <= m.

Lemma walked_longest st L pl k st' L' pl' n' m w :
  tree st L pl -> walked st L (root_node st) k st' L' pl' n' m w -> longest st k m.
Proof.
  intros Ht W ks vs j (a & x & fks & fvs & i & Hr & Hx & He & Hks & _) Hj Hmod Hle Hj2.
  eapply (wk_max _ _ _ _ _ _ _ _ _ _ W a x fks fvs j Hr Hx); try done.
  - rewrite Hj2 in Hks. apply (f_equal length) in Hks. rewrite !length_take in Hks.
    unfold key_len, zlen in *. lia.
  - assert (Hlen : length (take (Z.to_nat j) (token_ids k)) = Z.to_nat j)
      by (rewrite length_take; unfold key_len, zlen in *; lia).
    rewrite <- Hj2, Hks in Hlen. rewrite <- Hj2, Hks. rewrite length_take in Hlen.
    destruct (decide (i <= length fks)%nat); [by replace i with (Z.to_nat j) by lia|].
    rewrite !take_ge by lia. done.
Qed.

Lemma walked_stored st L pl k st' L' pl' n' m w :
  tree st L pl -> walked st L (root_node st) k st' L' pl' n' m w -> 0 < m ->
  stored st (extra_key k) (take (Z.to_nat m) (token_ids k)) w.
Proof.
  intros Ht W Hm. apply (ex_stored _ _ _ _ _ (wk_ext _ _ _ _ _ _ _ _ _ _ W)).
  destruct (wk_extra _ _ _ _ _ _ _ _ _ _ W) as [[_ ->]|(_ & x & Hx & He)]; [lia|].
  exists n', x, (take (Z.to_nat m) (token_ids k)), w, (length w `max` length (take (Z.to_nat m) (token_ids k)))%nat.
  rewrite (ex_root _ _ _ _ _ (wk_ext _ _ _ _ _ _ _ _ _ _ W)).
  split; [apply (wk_reach _ _ _ _ _ _ _ _ _ _ W)|]. split; [done|]. split; [done|].
  split; symmetry; apply take_ge; lia.
Qed.

Lemma walked_len st L n k st' L' pl' n' m w :
  walked st L n k st' L' pl' n' m w -> n ∈ L -> zlen w = m.
Proof.
  intros W Hn. pose proof (wk_ext _ _ _ _ _ _ _ _ _ _ W) as He. pose proof (wk_m _ _ _ _ _ _ _ _ _ _ W).
  pose proof (reach_len _ _ _ _ _ _ _ (ex_tree _ _ _ _ _ He) (ex_sub _ _ _ _ _ He _ Hn) (wk_reach _ _ _ _ _ _ _ _ _ _ W)) as Hl.
  unfold zlen. rewrite <- Hl, length_take. unfold key_len, zlen in *. lia.
Qed.

(** The key that is looked up: bigrams for EAGLE, cut to whole pages. *)
Definition lookup_key (st : RadixCache) (k : RadixKey) : RadixKey :=
  let k := fst (maybe_bigram_convert (is_eagle st) k None) in
  if page_size st =? 1 then k else key_to k (key_len k / page_size st * page_size st).

Lemma lookup_key_aligned st k : 1 <= page_size st -> aligned (page_size st) (token_ids (lookup_key st k)).
Proof.
  intros HP. unfold lookup_key. set (k1 := fst _). destruct (Z.eqb_spec (page_size st) 1) as [->|Hne].
  - apply Z.mod_1_r.
  - unfold aligned. pose proof (zlen_nonneg (token_ids k1)) as H0. fold (key_len k1) in H0.
    assert (0 <= key_len k1 / page_size st) by (apply Z.div_pos; lia).
    pose proof (Z.mul_div_le (key_len k1) (page_size st) ltac:(lia)).
    fold (key_len (key_to k1 (key_len k1 / page_size st * page_size st))).
    rewrite key_to_len by nia. apply Z.mod_mul. lia.
Qed.

Lemma match_prefix_spec mono st L pl k :
  tree st L pl -> disable st = false ->
  exists r st' L' pl', match_prefix mono st k = Ok (r, st') /\ ext st L st' L' pl' /\
    let q := lookup_key st k in let m := zlen (device_indices r) in
    m <= key_len q /\ m mod page_size st = 0 /\ longest st q m /\
    (0 < m -> stored st (extra_key q) (take (Z.to_nat m) (token_ids q)) (device_indices r)) /\
    last_device_node r ∈ L' /\
    reach st' (root_node st) (last_device_node r) (take (Z.to_nat m) (token_ids q)) (device_indices r) /\
    (0 < m -> forall x, nodes st' !! last_device_node r = Some x -> extra_key (key x) = extra_key q).
Proof.
  intros Ht Hdis. pose proof (tr_ps _ _ _ Ht) as HP. pose proof (tr_root _ _ _ Ht) as HrL.
  set (q := lookup_key st k). unfold match_prefix.
  destruct (maybe_bigram_convert (is_eagle st) k None) as [k1 v1] eqn:Ek1. rewrite Hdis. cbn [orb].
  assert (Hq : q = if page_size st =? 1 then k1 else key_to k1 (key_len k1 / page_size st * page_size st))
    by (unfold q, lookup_key; rewrite Ek1; done).
  destruct (tr_rootn _ _ _ Ht) as (r0 & Hr0 & _).
  assert (Hempty : key_len q = 0 -> exists r st' L' pl',
    Ok ({| device_indices := []; last_device_node := root_node st |}, st) = Ok (r, st') /\ ext st L st' L' pl' /\
    let m := zlen (device_indices r) in
    m <= key_len q /\ m mod page_size st = 0 /\ longest st q m /\
    (0 < m -> stored st (extra_key q) (take (Z.to_nat m) (token_ids q)) (device_indices r)) /\
    last_device_node r ∈ L' /\
    reach st' (root_node st) (last_device_node r) (take (Z.to_nat m) (token_ids q)) (device_indices r) /\
    (0 < m -> forall x, nodes st' !! last_device_node r = Some x -> extra_key (key x) = extra_key q)).
  { intros Hz. eexists _, _, L, pl. split; [done|]. split; [apply ext_sim; [done|apply sim_refl]|].
    simpl. change (zlen (@nil Z)) with 0. split_and!; try done; try lia.
    - intros ks vs j _ Hj _ Hle _. lia.
    - constructor. }
  destruct (Z.eqb_spec (key_len k1) 0) as [Hz|Hnz].
  { apply Hempty. rewrite Hq. destruct (page_size st =? 1); [done|]. unfold key_len at 1.
    rewrite key_to_tokens, Hz by (rewrite Hz, Z.div_0_l by lia; lia). rewrite Z.div_0_l by lia. done. }
  rewrite <- Hq. destruct (Z.eqb_spec (key_len q) 0) as [Hz|Hnz2]; [by apply Hempty|]. clear Hempty.
  unfold match_prefix_helper. cbn [tick fst snd]. unfold tick. cbv beta iota zeta.
  set (st1 := with_ids st (counter st) (S (ticks st))).
  set (st2 := update st1 (root_node st) (touch (mono (ticks st)))).
  assert (Hs : sim st st2).
  { eapply sim_trans; [apply (sim_tick mono)|]. apply sim_update. intros. apply touch_struct. }
  assert (Hpos : 0 < key_len q) by (unfold key_len in *; pose proof (zlen_nonneg (token_ids q)); lia).
  change (page_size st2) with (page_size st). rewrite get_child_key_ok by (done || lia). cbn [rbind].
  destruct (match_loop_spec mono (S (length (token_ids q))) st2 L pl (mono (ticks st)) (root_node st) q
      (ck (page_size st) q) [] (tree_sim _ _ _ _ Hs Ht) HrL (lookup_key_aligned st k HP) ltac:(done) ltac:(lia))
    as (acc & n' & st' & L' & pl' & m & w & Hrun & Hcat & W).
  rewrite Hrun. cbn [rbind]. simpl in Hcat. eexists _, _, L', pl'. split; [done|].
  split; [eapply ext_trans; [by eapply ext_sim|apply W]|]. simpl. rewrite Hcat.
  rewrite (walked_len _ _ _ _ _ _ _ _ _ _ W HrL).
  pose proof (tree_sim _ _ _ _ Hs Ht) as Ht2. split_and!.
  - apply (wk_m _ _ _ _ _ _ _ _ _ _ W).
  - apply (wk_mod _ _ _ _ _ _ _ _ _ _ W).
  - intros ks vs j Hst. eapply (walked_longest _ _ _ _ _ _ _ _ _ _ Ht2 W). by eapply stored_sim.
  - intros Hm. eapply stored_sim; [by apply sim_sym|]. by eapply (walked_stored _ _ _ _ _ _ _ _ _ _ Ht2 W).
  - apply (wk_live _ _ _ _ _ _ _ _ _ _ W).
  - apply (wk_reach _ _ _ _ _ _ _ _ _ _ W).
  - intros Hm x Hx. destruct (wk_extra _ _ _ _ _ _ _ _ _ _ W) as [[_ E]|(_ & y & Hy & E)]; [lia|]. by simplify_eq.
Qed.

(** ** Insertion *)

Lemma leaves_ok_acct st L : leaves_ok st L ∅ -> evictable_size_ st = node_sum unlocked_len st L ->
  protected_size_ st = node_sum locked_len st L -> acct st L.
Proof. intros H1 H2 H3. split; [done|done|]. intros n. apply H1. set_solver. Qed.

Lemma is_leaf_eq st st' n : nodes st' !! n = nodes st !! n -> is_leaf st' n <-> is_leaf st n.
Proof. unfold is_leaf. by intros ->. Qed.

(** Both nodes touched by adding a leaf get their status refreshed. *)
Lemma add_finish st st7 L pl id n x k v :
  tree st L pl -> acct st L -> n ∈ L -> nodes st !! n = Some x -> add_rel st st7 id n x k v ->
  0 < key_len k -> (n <> root_node st -> extra_key k = extra_key (key x)) ->
  tree st7 ({[id]} ∪ L) (add_rank pl id n k) ->
  evictable_size_ st7 = evictable_size_ st + key_len k -> protected_size_ st7 = protected_size_ st ->
  evictable_leaves st7 = evictable_leaves st ->
  exists ls, rbind (update_leaf_status st7 n) (fun st8 => update_leaf_status st8 id) = Ok (with_leaves st7 ls) /\
    acct (with_leaves st7 ls) ({[id]} ∪ L).
Proof.
  intros Ht Hac Hn Hx Hr Hk Hex Ht7 Eev Epr Elv.
  assert (Hid : id ∉ L) by (by eapply add_id_notin).
  assert (H0 : leaves_ok st7 ({[id]} ∪ L) {[n; id]}).
  { intros m Hm. rewrite Elv, (ac_leaves _ _ Hac m), (is_leaf_eq st st7) by (apply (ad_other _ _ _ _ _ _ _ Hr); set_solver).
    set_solver. }
  assert (Hn7 : n ∈ ({[id]} ∪ L)) by (by apply elem_of_union_r).
  assert (Hid7 : id ∈ ({[id]} ∪ L)) by (by apply elem_of_union_l, elem_of_singleton).
  destruct (update_leaf_status_spec _ _ _ n _ Ht7 Hn7 H0) as (l1 & E1 & H1).
  rewrite E1. cbn [rbind].
  assert (Ht8 : tree (with_leaves st7 l1) ({[id]} ∪ L) (add_rank pl id n k)) by apply (tree_leaves _ _ _ _ Ht7).
  destruct (update_leaf_status_spec _ _ _ id _ Ht8 Hid7 H1) as (l2 & E2 & H2).
  exists l2. split; [exact E2|]. apply leaves_ok_acct.
  - intros m Hm. apply (H2 m). set_solver.
  - change (evictable_size_ st7 = node_sum unlocked_len st7 ({[id]} ∪ L)).
    destruct (add_sum st st7 L pl id n x k v Ht Hx Hr Hex unlocked_len) as (nn & _ & Ek & El & ->).
    { intros y z E3 E4. unfold unlocked_len. by rewrite E3, E4. }
    rewrite Eev, (ac_evictable _ _ Hac). unfold unlocked_len at 2. rewrite Ek, El, Z.eqb_refl. lia.
  - change (protected_size_ st7 = node_sum locked_len st7 ({[id]} ∪ L)).
    destruct (add_sum st st7 L pl id n x k v Ht Hx Hr Hex locked_len) as (nn & _ & Ek & El & ->).
    { intros y z E3 E4. unfold locked_len. by rewrite E3, E4. }
    rewrite Epr, (ac_protected _ _ Hac). unfold locked_len at 2. rewrite El, Z.eqb_refl. lia.
Qed.

(** The outcome of inserting [k] with slots [v]: [m] tokens were stored, with
    slots [w]; the others are added. *)
Record inserted (st : RadixCache) (L : gset nat) (k : RadixKey) (v : list Z)
    (st' : RadixCache) (L' : gset nat) (pl' : nat -> Z) (m : Z) (w : list Z) : Prop := {
  in_tree : tree st' L' pl';
  in_acct : acct st' L';
  in_locks : forall H, locks st L H -> locks st' L' H;
  in_slots : tree_slots st' L' ≡ₚ drop (Z.to_nat m) v ++ tree_slots st L;
  in_sub : L ⊆ L';
  in_ps : page_size st' = page_size st;
  in_root : root_node st' = root_node st;
  in_disable : disable st' = disable st;
  in_eagle : is_eagle st' = is_eagle st;
  in_kv : enable_kv_cache_events st' = enable_kv_cache_events st;
  in_m : 0 <= m <= key_len k;
  in_mod : m mod page_size st = 0;
  in_longest : longest st k m;
  in_len : zlen w = m;
  in_old : 0 < m -> stored st (extra_key k) (take (Z.to_nat m) (token_ids k)) w;
  in_ev : evictable_size_ st' = evictable_size_ st + (key_len k - m);
  in_pr : protected_size_ st' = protected_size_ st;
  in_stored : forall ek ks vs, stored st' ek ks vs <-> stored st ek ks vs \/
    0 < key_len k /\ ek = extra_key k /\ exists j, ks = take j (token_ids k) /\ vs = take j (w ++ drop (Z.to_nat m) v);
  in_reach : forall a ks vs, reach st (root_node st) a ks vs -> reach st' (root_node st') a ks vs;
  in_extra : forall n x, n ∈ L -> nodes st !! n = Some x ->
    exists y, nodes st' !! n = Some y /\ extra_key (key y) = extra_key (key x)
}.

Lemma stored_take st ek ks vs j : stored st ek ks vs -> stored st ek (take j ks) (take j vs).
Proof.
  intros (a & x & fks & fvs & i & H1 & H2 & H3 & -> & ->). exists a, x, fks, fvs, (j `min` i)%nat.
  rewrite !take_take. done.
Qed.

(** Everything was there already. *)
Lemma inserted_all st L pl k v st' L' pl' n' w :
  tree st L pl -> acct st L -> zlen v = key_len k ->
  walked st L (root_node st) k st' L' pl' n' (key_len k) w -> inserted st L k v st' L' pl' (key_len k) w.
Proof.
  intros Ht Hac Hlen W. pose proof (wk_ext _ _ _ _ _ _ _ _ _ _ W) as He.
  split; try apply He; try apply W; try done.
  - rewrite drop_ge by (unfold key_len, zlen in *; lia). apply He.
  - by eapply walked_longest.
  - eapply walked_len; [done|apply (tr_root _ _ _ Ht)].
  - by eapply walked_stored.
  - rewrite (ex_ev _ _ _ _ _ He). lia.
  - intros ek ks vs. rewrite (ex_stored _ _ _ _ _ He). split; [by left|].
    intros [H|(Hk & -> & j & -> & ->)]; [done|].
    pose proof (walked_stored _ _ _ _ _ _ _ _ _ _ Ht W Hk) as Hs.
    rewrite take_ge in Hs by (unfold key_len, zlen; lia).
    rewrite (drop_ge v) by (unfold key_len, zlen in *; lia). rewrite app_nil_r. by apply stored_take.
  - intros a ks vs. rewrite (ex_root _ _ _ _ _ He). apply He, (tr_root _ _ _ Ht).
Qed.

Lemma inserted_add st L pl k v st3 L3 pl3 n x m w k' st7 id ls :
  tree st L pl -> acct st L -> zlen v = key_len k -> aligned (page_size st) (token_ids k) ->
  walked st L (root_node st) k st3 L3 pl3 n m w ->
  token_ids k' = drop (Z.to_nat m) (token_ids k) -> extra_key k' = extra_key k -> 0 < key_len k' ->
  nodes st3 !! n = Some x -> add_rel st3 st7 id n x k' (drop (Z.to_nat m) v) ->
  children x !! ck (page_size st3) k' = None ->
  (n <> root_node st3 -> extra_key k' = extra_key (key x)) ->
  disable st7 = disable st3 -> is_eagle st7 = is_eagle st3 ->
  enable_kv_cache_events st7 = enable_kv_cache_events st3 ->
  tree st7 ({[id]} ∪ L3) (add_rank pl3 id n k') ->
  acct (with_leaves st7 ls) ({[id]} ∪ L3) ->
  evictable_size_ st7 = evictable_size_ st3 + key_len k' -> protected_size_ st7 = protected_size_ st3 ->
  inserted st L k v (with_leaves st7 ls) ({[id]} ∪ L3) (add_rank pl3 id n k') m w.
Proof.
  intros Ht Hac Hlen Hal W Ek' Ee' Hk' Hx Hr Hnone Hex E1 E2 E3 Ht7 Hac7 Eev Epr.
  pose proof (wk_ext _ _ _ _ _ _ _ _ _ _ W) as He. pose proof (wk_m _ _ _ _ _ _ _ _ _ _ W) as Hm.
  assert (Ht3 : tree st3 L3 pl3) by apply He.
  assert (Hkl : key_len k' = key_len k - m) by (unfold key_len, zlen in *; rewrite Ek', length_drop; lia).
  split; try apply W; try done.
  - apply (tree_leaves _ _ _ _ Ht7).
  - intros H HK. apply (locks_leaves st7). apply (add_locks st3 st7 L3 pl3 id n x k' _ Ht3 Hx Hr Hnone Hex).
    by apply (ex_locks _ _ _ _ _ He).
  - change (tree_slots (with_leaves st7 ls) ({[id]} ∪ L3)) with (tree_slots st7 ({[id]} ∪ L3)).
    rewrite (add_slots st3 st7 L3 pl3 id n x k' _ Ht3 Hx Hr Hex). by rewrite (ex_slots _ _ _ _ _ He).
  - pose proof (ex_sub _ _ _ _ _ He). set_solver.
  - simpl. rewrite (ad_ps _ _ _ _ _ _ _ Hr). apply He.
  - simpl. rewrite (ad_root _ _ _ _ _ _ _ Hr). apply He.
  - simpl. rewrite E1. apply He.
  - simpl. rewrite E2. apply He.
  - simpl. rewrite E3. apply He.
  - by eapply walked_longest.
  - eapply walked_len; [done|apply (tr_root _ _ _ Ht)].
  - by eapply walked_stored.
  - simpl. rewrite Eev, (ex_ev _ _ _ _ _ He), Hkl. done.
  - simpl. rewrite Epr. apply He.
  - intros ek ks vs. rewrite (stored_nodes_eq st7) by done.
    rewrite (add_stored st3 st7 L3 pl3 id n x k' _ Ht3 Hx Hr Hnone Hex).
    rewrite (ex_stored _ _ _ _ _ He), Ee', Ek'.
    pose proof (wk_reach _ _ _ _ _ _ _ _ _ _ W) as Hreach.
    rewrite <- (ex_root _ _ _ _ _ He) in Hreach.
    assert (Htd : take (Z.to_nat m) (token_ids k) ++ drop (Z.to_nat m) (token_ids k) = token_ids k)
      by apply take_drop.
    split; (intros [H|H]; [by left|right]).
    * destruct H as (-> & ks0 & vs0 & j & H & -> & ->). split; [lia|]. split; [done|].
      destruct (reach_root_unique _ _ _ _ _ _ _ _ Ht3 H Hreach) as [-> ->].
      rewrite Htd. by exists j.
    * destruct H as (_ & -> & j & -> & ->). split; [done|].
      exists (take (Z.to_nat m) (token_ids k)), w, j. by rewrite Htd.
  - intros a ks vs Ha. simpl. rewrite (ad_root _ _ _ _ _ _ _ Hr), (ex_root _ _ _ _ _ He). apply (reach_nodes_eq st7); [done|].
    eapply add_reach_fwd; [exact Ht3|exact Hx|exact Hr|exact Hnone|exact Hex|]. by apply (ex_reach _ _ _ _ _ He _ _ _ _ (tr_root _ _ _ Ht)).
  - intros i y Hi Hy. destruct (ex_extra _ _ _ _ _ He i y Hi Hy) as (z & Hz & Ez).
    destruct (add_old st3 st7 L3 pl3 id n x k' _ Ht3 Hx Hr Hex i z Hz) as (z' & Hz' & _ & Ek & _). exists z'. by rewrite Ek.
Qed.

Lemma longest_sim st st' k m : sim st st' -> longest st' k m -> longest st k m.
Proof.
  intros Hs H ks vs j Hst. rewrite <- (sim_ps _ _ Hs). apply (H ks vs). by eapply stored_sim.
Qed.

Lemma stored_sim_iff st st' ek ks vs : sim st st' -> stored st ek ks vs <-> stored st' ek ks vs.
Proof. intros Hs. split; apply stored_sim; [done|by apply sim_sym]. Qed.

Lemma inserted_sim st st2 L k v st' L' pl' m w :
  sim st st2 -> inserted st2 L k v st' L' pl' m w -> inserted st L k v st' L' pl' m w.
Proof.
  intros Hs [I1 I2 I0 Isl I3 I4 I5 I6 I7 I8 I9 I10 I11 I12 I13 I14 I15 I16 I17 I18].
  pose proof Hs as [S1 S2 S3 S4 S5 S6 S7 S8 S9 _].
  split; try congruence; try done.
  - intros H HK. by apply I0, (locks_sim st).
  - by rewrite <- (slots_sim _ _ L Hs).
  - by eapply longest_sim.
  - intros Hm. eapply stored_sim; [by apply sim_sym|]. by apply I13.
  - intros ek ks vs. rewrite I16. by rewrite (stored_sim_iff _ _ _ _ _ Hs).
  - intros a ks vs Ha. apply I17. rewrite S2. by apply (reach_sim st).
  - intros n x Hn Hx. destruct (sim_lookup _ _ _ _ Hs Hx) as (y & Hy & _ & _ & E3 & _).
    destruct (I18 n y Hn Hy) as (z & Hz & Ez). exists z. split; [done|]. by rewrite Ez, E3.
Qed.

(** The store after linking the new leaf. *)
Lemma new_leaf_rel mono st n x k v prio chunked :
  nodes st !! n = Some x -> nodes st !! counter st = None ->
  let '(nn, id, st4) := new_tree_node mono st prio in
  let new_node := inc_hit_count chunked (set_body (Some n) k (Some v) None nn) in
  let st5 := with_nodes st4 (<[id := new_node]> (nodes st4)) in
  let st6 := update st5 n (set_children (<[ck (page_size st) k := id]> (children x))) in
  id = counter st /\ nodes st5 !! n = Some x /\ page_size st5 = page_size st /\
  add_rel st (with_sizes st6 (evictable_size_ st6 + key_len k) (protected_size_ st6)) id n x k v.
Proof.
  intros Hx Hf. unfold new_tree_node, tick. simpl.
  assert (Hne : n <> counter st) by congruence.
  split_and!; try done; [by rewrite lookup_insert_ne by done|]. split; try done; simpl.
  - rewrite lookup_alter_ne, lookup_insert_eq by done. eexists. split; [done|]. by destruct chunked.
  - rewrite lookup_alter_eq, lookup_insert_ne, Hx by done. simpl. eexists. split; [done|]. done.
  - intros i H1 H2. by rewrite lookup_alter_ne, lookup_insert_ne by done.
Qed.

Lemma walked_no_child st L pl k st3 L3 pl3 n m w k' x :
  walked st L (root_node st) k st3 L3 pl3 n m w -> tree st L pl ->
  token_ids k' = drop (Z.to_nat m) (token_ids k) -> extra_key k' = extra_key k -> 0 < key_len k' ->
  nodes st3 !! n = Some x ->
  children x !! ck (page_size st3) k' = None /\ (n <> root_node st3 -> extra_key k' = extra_key (key x)).
Proof.
  intros W Ht Ek' Ee' Hk' Hx. pose proof (wk_m _ _ _ _ _ _ _ _ _ _ W) as Hm.
  pose proof (wk_ext _ _ _ _ _ _ _ _ _ _ W) as He.
  assert (Hkl : key_len k' = key_len k - m) by (unfold key_len, zlen in *; rewrite Ek', length_drop; lia).
  split.
  - rewrite (ex_ps _ _ _ _ _ He). rewrite <- (wk_stuck _ _ _ _ _ _ _ _ _ _ W ltac:(lia) x Hx).
    f_equal. unfold ck. rewrite key_from_tokens, Ek', Ee' by lia. done.
  - intros Hnr. destruct (wk_extra _ _ _ _ _ _ _ _ _ _ W) as [[-> _]|(_ & y & Hy & E)].
    + by rewrite (ex_root _ _ _ _ _ He) in Hnr.
    + rewrite Hx in Hy. injection Hy as <-. congruence.
Qed.

Lemma insert_helper_spec mono gh st L pl k v prio chunked :
  tree st L pl -> acct st L -> enable_kv_cache_events st = false ->
  aligned (page_size st) (token_ids k) -> zlen v = key_len k ->
  exists m w st' L' pl', insert_helper mono gh st (root_node st) k v prio chunked = Ok (m, st') /\
    inserted st L k v st' L' pl' m w.
Proof.
  intros Ht0 Hac0 Hkv Hal0 Hlen. unfold insert_helper, tick. cbv beta iota zeta.
  set (p0 := default 0 prio). set (t := mono (ticks st)).
  set (st2 := update _ _ _).
  assert (Hs : sim st st2).
  { eapply sim_trans; [apply (sim_tick mono)|]. apply sim_update. intros. by split_and!. }
  pose proof (tree_sim _ _ _ _ Hs Ht0) as Ht. pose proof (acct_sim _ _ _ Hs Hac0) as Hac.
  change (page_size st) with (page_size st2) in Hal0. change (root_node st) with (root_node st2).
  pose proof (tr_root _ _ _ Ht) as HrL. pose proof (tr_ps _ _ _ Ht) as HP.
  destruct (tr_rootn _ _ _ Ht) as (r & Hr & _).
  destruct (Z.eqb_spec (key_len k) 0) as [Hz|Hnz].
  { exists 0, [], st2, L, pl. split; [done|]. eapply inserted_sim; [done|]. rewrite <- Hz.
    eapply inserted_all; try done. rewrite Hz. eapply walked_stop; try done. lia. }
  assert (Hpos : 0 < key_len k) by (pose proof (zlen_nonneg (token_ids k)); unfold key_len in *; lia).
  rewrite get_child_key_ok by (done || lia). cbn [rbind].
  destruct (insert_loop_spec mono (S (length (token_ids k))) st2 L pl t p0 chunked (root_node st2) k v
     (ck (page_size st2) k) 0 Ht HrL Hal0 ltac:(done) ltac:(lia))
    as (n & k' & chk & st3 & L3 & pl3 & m & w & Hrun & Ek' & Ee' & Hchk & W).
  rewrite Hrun. cbn [rbind]. pose proof (wk_ext _ _ _ _ _ _ _ _ _ _ W) as He.
  pose proof (wk_m _ _ _ _ _ _ _ _ _ _ W) as Hm.
  assert (Hkl : key_len k' = key_len k - m) by (unfold key_len, zlen in *; rewrite Ek', length_drop; lia).
  pose proof (ex_tree _ _ _ _ _ He) as Ht3. pose proof (ex_acct _ _ _ _ _ He Hac) as Hac3.
  destruct (Z.ltb_spec 0 (key_len k')) as [Hk'|Hk'].
  2: { exists m, w, st3, L3, pl3. split; [done|]. eapply inserted_sim; [done|].
       assert (m = key_len k) as -> by lia. by eapply inserted_all. }
  destruct (tree_value _ _ _ _ Ht3 (wk_live _ _ _ _ _ _ _ _ _ _ W)) as (x & vx & Hx & _).
  destruct (walked_no_child _ _ _ _ _ _ _ _ _ _ _ _ W Ht Ek' Ee' Hk' Hx) as [Hnone Hex].
  assert (Hf3 : nodes st3 !! counter st3 = None).
  { destruct (nodes st3 !! counter st3) eqn:E; [|done]. apply (tr_fresh _ _ _ Ht3) in E. lia. }
  pose proof (new_leaf_rel mono st3 n x k' (drop (Z.to_nat m) v) p0 chunked Hx Hf3) as Hrel.
  assert (Hsame : forall nn id st4, new_tree_node mono st3 p0 = (nn, id, st4) ->
    evictable_size_ st4 = evictable_size_ st3 /\ protected_size_ st4 = protected_size_ st3 /\
    evictable_leaves st4 = evictable_leaves st3 /\ disable st4 = disable st3 /\ is_eagle st4 = is_eagle st3 /\
    enable_kv_cache_events st4 = enable_kv_cache_events st3).
  { unfold new_tree_node, tick. intros ? ? ? [= _ _ <-]. done. }
  destruct (new_tree_node mono st3 p0) as [[nn id] st4]. destruct (Hsame _ _ _ eq_refl) as (S1 & S2 & S3 & S4 & S5 & S6).
  cbv zeta in Hrel. destruct Hrel as (Eid & Hx5 & Eps5 & Hrel). rewrite (deref_ok _ _ _ Hx5). cbn [rbind].
  rewrite (Hchk Hk'). rewrite <- (ex_ps _ _ _ _ _ He). set (st7 := with_sizes _ _ _) in *.
  assert (Ha' : aligned (page_size st3) (token_ids k')).
  { rewrite Ek', (ex_ps _ _ _ _ _ He). apply aligned_drop; [done|unfold key_len in *; lia|first [done|apply W]|first [done|apply W]]. }
  assert (Hl' : zlen (drop (Z.to_nat m) v) = key_len k') by (unfold zlen in *; rewrite length_drop; lia).
  pose proof (add_tree st3 st7 L3 pl3 id n x k' _ Ht3 (wk_live _ _ _ _ _ _ _ _ _ _ W) Hx Hrel Hk' Ha' Hl' Hnone Hex) as Ht7.
  destruct (add_finish st3 st7 L3 pl3 id n x k' _ Ht3 Hac3 (wk_live _ _ _ _ _ _ _ _ _ _ W) Hx Hrel Hk' Hex Ht7)
    as (ls & Hup & Hac7); [simpl; by rewrite S1|by simpl|by simpl|].
  destruct (update_leaf_status st7 n) as [st8|]; [|done]. cbn [rbind] in *. rewrite Hup. cbn [rbind].
  unfold record_store_event.
  assert (Ekv : enable_kv_cache_events (with_leaves st7 ls) = false).
  { simpl. rewrite S6, (ex_kv _ _ _ _ _ He). done. }
  rewrite Ekv. cbn [rbind]. eexists m, w, _, _, _. split; [done|]. eapply inserted_sim; [done|].
  eapply inserted_add; try done; simpl; by rewrite ?S1.
Qed.
