(* ===== verification/RadixLocks.v ===== *)
(** * Lock references

    [inc_lock_ref] and [dec_lock_ref] walk from a node to the root.  The nodes
    on the way are the node's path; the effect on the tree is stated with the
    list of locked nodes. *)

From S2P Require Import Prelude Tensors RadixKeys RadixKeysTheory RadixCache RadixTheory RadixSplit RadixWalk RadixInsert RadixOps.

(** The node and its ancestors, without the root. *)
Inductive path (st : RadixCache) : nat -> list nat -> Prop :=
  | path_root : path st (root_node st) []
  | path_up n x p P : n <> root_node st -> nodes st !! n = Some x -> parent x = Some p ->
      path st p P -> path st n (n :: P).

Lemma path_fun st n P P' : path st n P -> path st n P' -> P = P'.
Proof.
  intros H. revert P'. induction H as [|n x p P Hnr Hx Hp _ IH]; intros P' H'.
  - remember (root_node st) as r eqn:Er. destruct H'; [done|]. congruence.
  - inv H'; try done. f_equal. simplify_eq. by apply IH.
Qed.

Section paths.
Context (st : RadixCache) (L : gset nat) (pl : nat -> Z) (Ht : tree st L pl).

Lemma parent_live n x p : n ∈ L -> n <> root_node st -> nodes st !! n = Some x -> parent x = Some p ->
  p ∈ L /\ pl p < pl n /\ exists v, value x = Some v /\ reach st p n (token_ids (key x)) v.
Proof.
  intros Hn Hnr Hx Hp. destruct (tr_node _ _ _ Ht n Hn Hnr) as (x' & p' & px & Hx' & T).
  rewrite Hx in Hx'. injection Hx' as <-. rewrite (tn_parent _ _ _ _ _ _ T) in Hp. injection Hp as ->.
  pose proof (tr_rank _ _ _ Ht n x p Hn Hnr Hx (tn_parent _ _ _ _ _ _ T)).
  pose proof (tn_pos _ _ _ _ _ _ T). destruct (tn_value _ _ _ _ _ _ T) as (v & Hv & _).
  split; [apply T|]. split; [lia|]. exists v. split; [done|].
  rewrite <- (app_nil_r (token_ids (key x))), <- (app_nil_r v).
  eapply reach_step; [apply T|apply T|done|done|constructor].
Qed.

Lemma path_ex n : n ∈ L -> exists P, path st n P.
Proof.
  remember (size (filter (fun i => pl i < pl n) L)) as k eqn:Ek. revert n Ek.
  induction k as [k IH] using lt_wf_ind. intros n -> Hn.
  destruct (decide (n = root_node st)) as [->|Hnr]; [exists []; constructor|].
  destruct (tr_node _ _ _ Ht n Hn Hnr) as (x & p & px & Hx & T).
  destruct (parent_live n x p Hn Hnr Hx (tn_parent _ _ _ _ _ _ T)) as (HpL & Hlt & _).
  destruct (IH (size (filter (fun i => pl i < pl p) L))) with (n := p) as [P HP]; try done.
  - apply subset_size. split.
    + intros i [H1 H2]%elem_of_filter. apply elem_of_filter. split; [lia|done].
    + intros H. assert (Hin : p ∈ filter (fun i => pl i < pl p) L) by (apply H, elem_of_filter; done).
      apply elem_of_filter in Hin as [? _]. lia.
  - exists (n :: P). econstructor; [done|done|apply T|done].
Qed.

Lemma path_props n P : path st n P -> n ∈ L ->
  NoDup P /\ (forall i, i ∈ P -> i ∈ L /\ i <> root_node st /\ pl i <= pl n /\ exists ks vs, reach st i n ks vs).
Proof.
  induction 1 as [|n x p P Hnr Hx Hp _ IH]; intros Hn.
  - split; [constructor|]. intros i Hi. by apply not_elem_of_nil in Hi.
  - destruct (parent_live n x p Hn Hnr Hx Hp) as (HpL & Hlt & v & Hv & Hre). destruct (IH HpL) as [I1 I2]. split.
    + constructor; [|done]. intros Hin. apply I2 in Hin as (_ & _ & ? & _). lia.
    + intros i [->|Hi]%elem_of_cons; [split_and!; try done; exists [], []; constructor|].
      destruct (I2 i Hi) as (H1 & H2 & H3 & ks & vs & H4). split_and!; try done; [lia|].
      eexists _, _. by eapply reach_trans.
Qed.

Lemma path_complete n P i ks vs : path st n P -> n ∈ L -> i ∈ L -> i <> root_node st -> reach st i n ks vs -> i ∈ P.
Proof.
  intros HP. revert ks vs. induction HP as [|n x p P Hnr Hx Hp _ IH]; intros ks vs Hn Hi Hir Hre.
  - destruct (reach_last _ _ _ _ _ _ _ Ht Hi Hre) as [(E & _)|(y & q & v & ? & ? & _ & Hne & _)]; congruence.
  - destruct (reach_last _ _ _ _ _ _ _ Ht Hi Hre) as [(-> & _)|(y & q & v & ks0 & vs0 & Hy & _ & Hq & _ & Hr0 & _)].
    + by left.
    + assert (y = x) as -> by congruence. assert (q = p) as -> by congruence. right.
      destruct (parent_live n x p Hn Hnr Hx Hp) as (HpL & _). by eapply IH.
Qed.

Lemma path_len n P : path st n P -> n ∈ L -> (length P <= size (nodes st))%nat.
Proof.
  intros HP Hn. destruct (path_props n P HP Hn) as [Hnd Hall].
  rewrite <- (size_list_to_set (C := gset nat)) by done. rewrite <- size_dom.
  apply subseteq_size. intros i Hi. apply elem_of_list_to_set in Hi. apply Hall in Hi as (HiL & _).
  destruct (tree_value _ _ _ _ Ht HiL) as (y & _ & Hy & _). by apply elem_of_dom_2 in Hy.
Qed.
End paths.

(** ** Changing the reference counts of a set of nodes *)

Definition add_lock (d : Z) (x : TreeNode) : TreeNode := set_lock (lock_ref x + d) x.

Record relocked (d : Z) (D : gset nat) (st st' : RadixCache) : Prop := {
  rl_nodes : forall i, nodes st' !! i = (if decide (i ∈ D) then add_lock d else id) <$> nodes st !! i;
  rl_ps : page_size st' = page_size st;
  rl_root : root_node st' = root_node st;
  rl_counter : counter st' = counter st;
  rl_disable : disable st' = disable st;
  rl_eagle : is_eagle st' = is_eagle st;
  rl_kv : enable_kv_cache_events st' = enable_kv_cache_events st;
  rl_strategy : eviction_strategy st' = eviction_strategy st
}.

Lemma relocked_refl d st : relocked d ∅ st st.
Proof. split; try done. intros i. rewrite decide_False by set_solver. by destruct (nodes st !! i). Qed.

(** Everything but the reference count is kept. *)
Lemma relocked_lookup d D st st' i x : relocked d D st st' -> nodes st !! i = Some x ->
  exists y, nodes st' !! i = Some y /\ children y = children x /\ parent y = parent x /\ key y = key x /\
    value y = value x /\ lock_ref y = lock_ref x + (if decide (i ∈ D) then d else 0).
Proof.
  intros H Hx. rewrite (rl_nodes _ _ _ _ H), Hx. simpl. eexists. split; [done|].
  destruct (decide (i ∈ D)); simpl; split_and!; try done. lia.
Qed.

Lemma relocked_back d D st st' i y : relocked d D st st' -> nodes st' !! i = Some y ->
  exists x, nodes st !! i = Some x.
Proof. intros H Hy. rewrite (rl_nodes _ _ _ _ H) in Hy. destruct (nodes st !! i) as [x|]; [by exists x|done]. Qed.

(** Taking a lock and releasing it restores every node. *)
Lemma relocked_undo D st1 st2 st3 : relocked 1 D st1 st2 -> relocked (-1) D st2 st3 -> nodes st3 = nodes st1.
Proof.
  intros Hr2 Hr3. apply map_eq. intros i. rewrite (rl_nodes _ _ _ _ Hr3), (rl_nodes _ _ _ _ Hr2). destruct (nodes st1 !! i) as [x|]; [|done].
  destruct (decide (i ∈ _)); simpl; [|done]. f_equal. unfold add_lock, set_lock. destruct x. simpl. f_equal. lia.
Qed.

Lemma relocked_reach d D st st' s a ks vs : relocked d D st st' -> reach st s a ks vs <-> reach st' s a ks vs.
Proof.
  intros H. split.
  - induction 1 as [|n x c m y v a ks vs Hx Hc Hy Hv _ IH]; [constructor|].
    destruct (relocked_lookup _ _ _ _ _ _ H Hx) as (x' & Hx' & E1 & _).
    destruct (relocked_lookup _ _ _ _ _ _ H Hy) as (y' & Hy' & _ & _ & E3 & E4 & _).
    rewrite <- E3. eapply reach_step; [done|by rewrite E1|done|by rewrite E4|done].
  - induction 1 as [|n x' c m y' v a ks vs Hx' Hc Hy' Hv _ IH]; [constructor|].
    destruct (relocked_back _ _ _ _ _ _ H Hx') as (x & Hx), (relocked_back _ _ _ _ _ _ H Hy') as (y & Hy).
    destruct (relocked_lookup _ _ _ _ _ _ H Hx) as (x2 & Hx2 & E1 & _).
    destruct (relocked_lookup _ _ _ _ _ _ H Hy) as (y2 & Hy2 & _ & _ & E3 & E4 & _).
    simplify_eq. rewrite E3. eapply reach_step; [done|by rewrite <- E1|done|by rewrite <- E4|done].
Qed.

(** The counts of the new store, given as a count of locked nodes. *)
Lemma relocked_locks d D st st' L H H' :
  relocked d D st st' -> (forall h, h ∈ H' -> h ∈ L) ->
  (forall n x, n ∈ L -> n <> root_node st -> nodes st !! n = Some x ->
     holds (fun h => exists ks vs, reach st n h ks vs) H (lock_ref x) ->
     holds (fun h => exists ks vs, reach st n h ks vs) H' (lock_ref x + if decide (n ∈ D) then d else 0)) ->
  locks st L H -> locks st' L H'.
Proof.
  intros Hr Hlive Hc [K1 K2]. split; [done|]. rewrite (rl_root _ _ _ _ Hr). intros n y Hn Hnr Hy.
  destruct (relocked_back _ _ _ _ _ _ Hr Hy) as (x & Hx).
  destruct (relocked_lookup _ _ _ _ _ _ Hr Hx) as (y' & Hy' & _ & _ & _ & _ & El). rewrite Hy in Hy'. injection Hy' as <-.
  rewrite El. eapply holds_ext; [|apply (Hc n x Hn Hnr Hx), K2; done].
  intros h _. split; intros (ks & vs & Hre); exists ks, vs; by apply (relocked_reach _ _ _ _ _ _ _ _ Hr).
Qed.

(** The tree stays well formed: a parent is locked at least as often as its children. *)
Lemma relocked_tree d D st st' L pl H' :
  tree st L pl -> relocked d D st st' -> root_node st ∉ D -> locks st' L H' -> tree st' L pl.
Proof.
  intros Ht Hr HrD [K1 K2]. pose proof Ht as [H1 H2 H3 H4 H5 H6 H7 H8].
  split; rewrite ?(rl_ps _ _ _ _ Hr), ?(rl_root _ _ _ _ Hr), ?(rl_counter _ _ _ _ Hr); try done.
  - destruct H3 as (r & Hr0 & R1 & R2 & R3 & R4).
    destruct (relocked_lookup _ _ _ _ _ _ Hr Hr0) as (y & Hy & _ & E2 & E3 & E4 & E5).
    exists y. rewrite decide_False in E5 by done. rewrite E2, E3, E4, E5, R4. done.
  - intros n y Hy. destruct (relocked_back _ _ _ _ _ _ Hr Hy) as (x & Hx). by eapply H4.
  - intros n Hn Hne. destruct (H5 n Hn Hne) as (x & p & px & Hx & T).
    pose proof (parent_live st L pl Ht n x p Hn Hne Hx (tn_parent _ _ _ _ _ _ T)) as (_ & _ & vv & _ & Hstep).
    pose proof T as [T1 T2 T3 T4 T5 T6 T7 T8 T9 T10].
    destruct (relocked_lookup _ _ _ _ _ _ Hr Hx) as (y & Hy & E1 & E2 & E3 & E4 & _).
    destruct (relocked_lookup _ _ _ _ _ _ Hr T3) as (py & Hpy & F1 & F2 & F3 & F4 & _).
    exists y, p, py. split; [done|].
    split; rewrite ?(rl_ps _ _ _ _ Hr), ?(rl_root _ _ _ _ Hr), ?E2, ?E3, ?E4, ?F1, ?F3; try done.
    + rewrite <- (rl_root _ _ _ _ Hr) in Hne. exact (holds_nonneg _ _ _ (K2 n y Hn Hne Hy)).
    + intros Hpr. rewrite <- (rl_root _ _ _ _ Hr) in Hne, Hpr.
      refine (holds_mono _ _ _ _ _ _ (K2 n y Hn Hne Hy) (K2 p py T2 Hpr Hpy)).
      intros h _ (ks & vs & Hre). eexists _, _. eapply reach_trans; [|exact Hre].
      by apply (relocked_reach _ _ _ _ _ _ _ _ Hr).
  - intros n y c m Hn Hy Hc. destruct (relocked_back _ _ _ _ _ _ Hr Hy) as (x & Hx).
    destruct (relocked_lookup _ _ _ _ _ _ Hr Hx) as (y' & Hy' & E1 & _). rewrite Hy in Hy'. injection Hy' as <-.
    rewrite E1 in Hc. destruct (H6 n x c m Hn Hx Hc) as (G1 & G2 & z & Hz & G3 & G4).
    destruct (relocked_lookup _ _ _ _ _ _ Hr Hz) as (z' & Hz' & _ & F2 & F3 & _).
    split; [done|]. split; [done|]. exists z'. by rewrite F2, F3.
  - intros n y p Hn Hne Hy Hp. destruct (relocked_back _ _ _ _ _ _ Hr Hy) as (x & Hx).
    destruct (relocked_lookup _ _ _ _ _ _ Hr Hx) as (y' & Hy' & _ & E2 & E3 & _). rewrite Hy in Hy'. injection Hy' as <-.
    rewrite E3. apply H8; try done. by rewrite <- E2.
Qed.

(** ** Sums along a path *)

Definition on_node (f : TreeNode -> Z) (st : RadixCache) (n : nat) : Z :=
  match nodes st !! n with Some x => f x | None => 0 end.

Definition path_sum (f : TreeNode -> Z) (st : RadixCache) (P : list nat) : Z := zsum (map (on_node f st) P).

Lemma relocked_path_sum d D st st' P f :
  relocked d D st st' -> (forall i, i ∈ P -> i ∈ D) ->
  path_sum f st' P = path_sum f st P + path_sum (fun x => f (add_lock d x) - f x) st P.
Proof.
  intros Hr. unfold path_sum, zsum. induction P as [|i P IH]; intros Hin; [done|]. simpl.
  rewrite IH by (intros j Hj; apply Hin; by right). unfold on_node. rewrite (rl_nodes _ _ _ _ Hr).
  rewrite decide_True by (apply Hin; by left). destruct (nodes st !! i); simpl; lia.
Qed.

Lemma relocked_sum d st st' L P f :
  relocked d (list_to_set P) st st' -> NoDup P -> (forall i, i ∈ P -> i ∈ L) ->
  node_sum f st' L = node_sum f st L + path_sum (fun x => f (add_lock d x) - f x) st P.
Proof.
  intros Hr Hnd Hsub.
  assert (exists R, elements L ≡ₚ P ++ R) as [R HR].
  { apply submseteq_Permutation, NoDup_submseteq; [done|]. intros i Hi. by apply elem_of_elements, Hsub. }
  assert (Hdis : forall i, i ∈ R -> i ∉ P).
  { pose proof (NoDup_elements L) as Hall. rewrite HR in Hall. apply list.NoDup_app in Hall as (_ & Hd & _).
    intros i HiR HiP. by apply (Hd i). }
  assert (Hsum : forall s, node_sum f s L = path_sum f s P + path_sum f s R).
  { intros s. unfold node_sum, path_sum. by rewrite (zsum_perm _ _ (Permutation_map _ HR)), map_app, zsum_app. }
  rewrite !Hsum, (relocked_path_sum _ _ _ _ _ f Hr) by (intros i Hi; by apply elem_of_list_to_set).
  enough (path_sum f st' R = path_sum f st R) by lia.
  unfold path_sum. f_equal. apply map_ext_in. intros i Hi%list_elem_of_In. unfold on_node.
  rewrite (rl_nodes _ _ _ _ Hr), decide_False by (rewrite elem_of_list_to_set; by apply Hdis).
  by destruct (nodes st !! i).
Qed.

Lemma path_sum_ext f g st P :
  (forall i x, i ∈ P -> nodes st !! i = Some x -> f x = g x) -> path_sum f st P = path_sum g st P.
Proof.
  intros H. unfold path_sum. f_equal. apply map_ext_in. intros i Hi%list_elem_of_In. unfold on_node.
  destruct (nodes st !! i) eqn:E; [by eapply H|done].
Qed.

Lemma path_sum_opp f st P : path_sum (fun x => - f x) st P = - path_sum f st P.
Proof.
  unfold path_sum, zsum. induction P as [|i P IH]; [done|]. simpl. rewrite IH. unfold on_node.
  destruct (nodes st !! i); lia.
Qed.

(** ** The loops *)

Lemma with_sizes_id st : with_sizes st (evictable_size_ st) (protected_size_ st) = st.
Proof. by destruct st. Qed.

Section loops.
Context (st0 : RadixCache) (L : gset nat) (pl : nat -> Z) (Ht : tree st0 L pl).

Lemma relock_step d D st n x e pr :
  relocked d D st0 st -> n ∈ L -> n ∉ D -> nodes st0 !! n = Some x -> 0 <= lock_ref x + d ->
  leaves_ok st L ∅ ->
  nodes st !! n = Some x /\
  let st2 := update (with_sizes st e pr) n (set_lock (lock_ref x + d)) in
  exists ls, update_leaf_status st2 n = Ok (with_leaves st2 ls) /\
    relocked d ({[n]} ∪ D) st0 (with_leaves st2 ls) /\ leaves_ok (with_leaves st2 ls) L ∅.
Proof.
  intros Hr Hn HnD Hx Hl HE.
  assert (Hx1 : nodes st !! n = Some x) by (rewrite (rl_nodes _ _ _ _ Hr), Hx, decide_False by done; done).
  split; [done|]. intros st2.
  assert (Hr2 : relocked d ({[n]} ∪ D) st0 st2).
  { split; try apply Hr. intros i. simpl. destruct (decide (i = n)) as [->|Hne].
    - rewrite lookup_alter_eq, Hx1, Hx, decide_True by set_solver. done.
    - rewrite lookup_alter_ne, (rl_nodes _ _ _ _ Hr) by done.
      destruct (decide (i ∈ D)); [rewrite decide_True by set_solver|rewrite decide_False by set_solver]; done. }
  destruct (tree_value _ _ _ _ Ht Hn) as (x' & v & Hx' & Hv & _). rewrite Hx in Hx'. injection Hx' as <-.
  assert (HE2 : leaves_ok st2 L {[n]}).
  { intros m Hm. simpl. rewrite (HE m) by set_solver. rewrite (is_leaf_eq st st2); [done|].
    simpl. apply lookup_alter_ne. set_solver. }
  destruct (update_leaf_status_gen st2 L n (set_lock (lock_ref x + d) x) v {[n]}) as (ls & E & HE3); try done.
  - simpl. by rewrite lookup_alter_eq, Hx1.
  - intros c m Hc. destruct (tree_children _ _ _ _ _ Ht Hn Hx c m Hc) as (y & w & Hy & Hw).
    destruct (relocked_lookup _ _ _ _ _ _ Hr2 Hy) as (y2 & Hy2 & _ & _ & _ & E4 & _). exists y2, w. by rewrite E4.
  - exists ls. split; [done|]. split; [split; apply Hr2|]. intros m Hm. apply HE3. set_solver.
Qed.

Lemma inc_lock_loop_spec n P : path st0 n P -> forall fuel st D delta,
  n ∈ L -> (length P < fuel)%nat -> (forall i, i ∈ P -> i ∉ D) -> relocked 1 D st0 st -> leaves_ok st L ∅ ->
  let s := path_sum unlocked_len st0 P in
  exists st', inc_lock_loop fuel st n delta = Ok (delta - s, st') /\
    relocked 1 (list_to_set P ∪ D) st0 st' /\ leaves_ok st' L ∅ /\
    evictable_size_ st' = evictable_size_ st - s /\ protected_size_ st' = protected_size_ st + s.
Proof.
  induction 1 as [|n x p P Hnr Hx Hp HP IH]; intros fuel st D delta Hn Hf HD Hr HE s.
  - destruct fuel as [|f]; [simpl in Hf; lia|]. exists st. cbn [inc_lock_loop]. rewrite (rl_root _ _ _ _ Hr), Nat.eqb_refl.
    change s with 0. rewrite Z.sub_0_r, !Z.add_0_r. split_and!; try done; [|lia].
    replace (list_to_set [] ∪ D) with D by set_solver. done.
  - destruct fuel as [|f]; [simpl in Hf; lia|]. cbn [inc_lock_loop].
    rewrite (rl_root _ _ _ _ Hr). destruct (Nat.eqb_spec n (root_node st0)) as [|_]; [done|].
    assert (HnD : n ∉ D) by (apply HD; by left).
    assert (Hlock : 0 <= lock_ref x) by (by eapply tree_lock).
    destruct (path_props st0 L pl Ht n (n :: P)) as [Hnd _]; [by econstructor|done|].
    destruct (parent_live st0 L pl Ht n x p Hn Hnr Hx Hp) as (HpL & _).
    assert (Es : s = unlocked_len x + path_sum unlocked_len st0 P) by (unfold s, path_sum, on_node; simpl; by rewrite Hx).
    set (e := evictable_size_ st - unlocked_len x). set (pr := protected_size_ st + unlocked_len x).
    destruct (relock_step 1 D st n x e pr Hr Hn HnD Hx ltac:(lia) HE) as (Hx1 & ls & Hup & Hr3 & HE3).
    rewrite (deref_ok _ _ _ Hx1). cbn [rbind].
    assert (Hcase : (if lock_ref x =? 0
        then (with_sizes st (evictable_size_ st - key_len (key x)) (protected_size_ st + key_len (key x)), delta - key_len (key x))
        else (st, delta)) = (with_sizes st e pr, delta - unlocked_len x)).
    { unfold e, pr, unlocked_len. destruct (lock_ref x =? 0); [done|]. by rewrite !Z.sub_0_r, Z.add_0_r, with_sizes_id. }
    rewrite Hcase. rewrite Hup. cbn [rbind]. unfold deref_parent. rewrite Hp. cbn [rbind].
    apply list.NoDup_cons in Hnd as [HnP _].
    destruct (IH f _ ({[n]} ∪ D) (delta - unlocked_len x) HpL ltac:(simpl in Hf; lia)
      ltac:(intros i Hi; specialize (HD i ltac:(by right)); set_solver) Hr3 HE3) as (st' & H1 & H2 & H3 & H4 & H5).
    exists st'. rewrite H1, H4, H5, Es. simpl. unfold e, pr. split_and!; try done; try lia; [f_equal; f_equal; lia|].
    replace ({[n]} ∪ list_to_set P ∪ D) with (list_to_set P ∪ ({[n]} ∪ D)) by set_solver. done.
Qed.
(** Tokens that become evictable when a node's count drops. *)
Definition last_len (x : TreeNode) : Z := if lock_ref x =? 1 then key_len (key x) else 0.

Lemma dec_lock_loop_spec n P : path st0 n P -> forall fuel st D delta,
  n ∈ L -> (forall i y, i ∈ P -> nodes st0 !! i = Some y -> 1 <= lock_ref y) -> (length P < fuel)%nat -> (forall i, i ∈ P -> i ∉ D) -> relocked (-1) D st0 st -> leaves_ok st L ∅ ->
  let s := path_sum last_len st0 P in
  exists st', dec_lock_loop fuel st n delta = Ok (delta + s, st') /\
    relocked (-1) (list_to_set P ∪ D) st0 st' /\ leaves_ok st' L ∅ /\
    evictable_size_ st' = evictable_size_ st + s /\ protected_size_ st' = protected_size_ st - s.
Proof.
  induction 1 as [|n x p P Hnr Hx Hp HP IH]; intros fuel st D delta Hn Hpos Hf HD Hr HE s.
  - destruct fuel as [|f]; [simpl in Hf; lia|]. exists st. cbn [dec_lock_loop]. rewrite (rl_root _ _ _ _ Hr), Nat.eqb_refl.
    change s with 0. rewrite !Z.add_0_r. split_and!; try done; [|lia].
    replace (list_to_set [] ∪ D) with D by set_solver. done.
  - destruct fuel as [|f]; [simpl in Hf; lia|]. cbn [dec_lock_loop].
    rewrite (rl_root _ _ _ _ Hr). destruct (Nat.eqb_spec n (root_node st0)) as [|_]; [done|].
    assert (HnD : n ∉ D) by (apply HD; by left).
    assert (Hlock : 1 <= lock_ref x) by (apply (Hpos n); [by left|done]).
    destruct (path_props st0 L pl Ht n (n :: P)) as [Hnd _]; [by econstructor|done|].
    destruct (parent_live st0 L pl Ht n x p Hn Hnr Hx Hp) as (HpL & _).
    assert (Es : s = last_len x + path_sum last_len st0 P) by (unfold s, path_sum, on_node; simpl; by rewrite Hx).
    set (e := evictable_size_ st + last_len x). set (pr := protected_size_ st - last_len x).
    destruct (relock_step (-1) D st n x e pr Hr Hn HnD Hx ltac:(lia) HE) as (Hx1 & ls & Hup & Hr3 & HE3).
    rewrite (deref_ok _ _ _ Hx1). cbn [rbind].
    assert (Hcase : (if lock_ref x =? 1
        then (with_sizes st (evictable_size_ st + key_len (key x)) (protected_size_ st - key_len (key x)), delta + key_len (key x))
        else (st, delta)) = (with_sizes st e pr, delta + last_len x)).
    { unfold e, pr, last_len. destruct (lock_ref x =? 1); [done|]. by rewrite !Z.sub_0_r, !Z.add_0_r, with_sizes_id. }
    rewrite Hcase. change (lock_ref x - 1) with (lock_ref x + -1). rewrite Hup. cbn [rbind]. rewrite Hp.
    apply list.NoDup_cons in Hnd as [HnP _].
    destruct (IH f _ ({[n]} ∪ D) (delta + last_len x) HpL ltac:(intros i y Hi; apply Hpos; by right) ltac:(simpl in Hf; lia)
      ltac:(intros i Hi; specialize (HD i ltac:(by right)); set_solver) Hr3 HE3) as (st' & H1 & H2 & H3 & H4 & H5).
    exists st'. rewrite H1, H4, H5, Es. simpl. unfold e, pr. split_and!; try done; try lia; [f_equal; f_equal; lia|].
    replace ({[n]} ∪ list_to_set P ∪ D) with (list_to_set P ∪ ({[n]} ∪ D)) by set_solver. done.
Qed.
End loops.

(** ** The invariant of the cache *)

(** [L] the nodes in the tree, [pl] their depths, [H] the locked nodes. *)
Record rinv (st : RadixCache) (L : gset nat) (pl : nat -> Z) (H : list nat) : Prop := {
  ri_tree : tree st L pl;
  ri_acct : acct st L;
  ri_locks : locks st L H
}.

Lemma relocked_stored d D st st' ek ks vs : relocked d D st st' -> stored st ek ks vs <-> stored st' ek ks vs.
Proof.
  intros Hr. unfold stored. rewrite (rl_root _ _ _ _ Hr). split; intros (a & x & fks & fvs & j & H1 & H2 & H3 & H4).
  - destruct (relocked_lookup _ _ _ _ _ _ Hr H2) as (y & Hy & _ & _ & E3 & _).
    exists a, y, fks, fvs, j. rewrite E3. split; [|done]. by apply (relocked_reach _ _ _ _ _ _ _ _ Hr).
  - destruct (relocked_back _ _ _ _ _ _ Hr H2) as (y & Hy).
    destruct (relocked_lookup _ _ _ _ _ _ Hr Hy) as (y' & Hy' & _ & _ & E3 & _). rewrite H2 in Hy'. injection Hy' as <-.
    exists a, y, fks, fvs, j. rewrite E3 in H3. split; [|done]. by apply (relocked_reach _ _ _ _ _ _ _ _ Hr).
Qed.

Lemma inc_locks st st' L pl H n P :
  tree st L pl -> n ∈ L -> path st n P -> relocked 1 (list_to_set P) st st' -> locks st L H -> locks st' L (n :: H).
Proof.
  intros Ht Hn HP Hr HK. eapply (relocked_locks 1 _ st st' L H); [exact Hr| | |exact HK].
  - intros h [->|Hh]%elem_of_cons; [done|by apply (lk_live _ _ _ HK)].
  - intros i x Hi Hir Hx Hh. destruct (decide (i ∈ (list_to_set P : gset nat))) as [Hin|Hin]; rewrite elem_of_list_to_set in Hin.
    + rewrite Z.add_comm. apply holds_yes; [|done]. apply (path_props st L pl Ht n P HP Hn) in Hin. tauto.
    + rewrite Z.add_0_r. apply holds_no; [|done]. intros (ks & vs & Hre). by eapply Hin, path_complete.
Qed.

Lemma dec_locks st st' L pl H n P :
  tree st L pl -> n ∈ L -> path st n P -> relocked (-1) (list_to_set P) st st' -> locks st L (n :: H) -> locks st' L H.
Proof.
  intros Ht Hn HP Hr HK. eapply (relocked_locks (-1) _ st st' L (n :: H)); [exact Hr| | |exact HK].
  - intros h Hh. apply (lk_live _ _ _ HK). by right.
  - intros i x Hi Hir Hx Hh. destruct (decide (i ∈ (list_to_set P : gset nat))) as [Hin|Hin]; rewrite elem_of_list_to_set in Hin.
    + apply (path_props st L pl Ht n P HP Hn) in Hin as (_ & _ & _ & Hre). inv Hh; try done.
      match goal with |- holds _ _ ?k => match goal with X : holds _ H ?k' |- _ => replace k with k' by lia end end. done.
    + rewrite Z.add_0_r. inv Hh; try done. exfalso.
      match goal with X : exists ks vs, reach _ _ _ _ _ |- _ => destruct X as (ks & vs & Hre) end.
      by eapply Hin, path_complete.
Qed.

Lemma inc_lock_ref_spec st L pl H n :
  rinv st L pl H -> n ∈ L -> disable st = false ->
  exists P st', let s := path_sum unlocked_len st P in
    path st n P /\ inc_lock_ref st n = Ok (- s, st') /\ rinv st' L pl (n :: H) /\
    relocked 1 (list_to_set P) st st' /\
    evictable_size_ st' = evictable_size_ st - s /\ protected_size_ st' = protected_size_ st + s.
Proof.
  intros [Ht Hac HK] Hn Hdis. destruct (path_ex st L pl Ht n Hn) as [P HP]. exists P.
  destruct (path_props st L pl Ht n P HP Hn) as [Hnd Hall].
  pose proof (path_len st L pl Ht n P HP Hn) as Hlen.
  destruct (inc_lock_loop_spec st L pl Ht n P HP (S (size (nodes st))) st ∅ 0 Hn ltac:(lia) ltac:(set_solver)
    (relocked_refl 1 st)) as (st' & H1 & H2 & H3 & H4 & H5); [intros m _; apply (ac_leaves _ _ Hac)|].
  rewrite union_empty_r_L in H2. exists st'. simpl. unfold inc_lock_ref. rewrite Hdis, H1.
  split; [done|]. split; [done|]. split; [|done].
  assert (HK' : locks st' L (n :: H)) by (by eapply inc_locks).
  assert (Ht' : tree st' L pl).
  { eapply relocked_tree; try done. rewrite elem_of_list_to_set. intros Hin. by apply Hall in Hin as (_ & ? & _). }
  split; [done| |done]. apply leaves_ok_acct; [done| |].
  - rewrite (relocked_sum 1 st st' L P) by (try done; intros i Hi; by apply Hall in Hi as [? _]).
    rewrite H4, (ac_evictable _ _ Hac). rewrite (path_sum_ext (fun x => unlocked_len (add_lock 1 x) - unlocked_len x) (fun x => - unlocked_len x)), path_sum_opp; [lia|].
    intros i x Hi Hx. apply Hall in Hi as (HiL & _). pose proof (tree_lock _ _ _ _ _ Ht HiL Hx).
    unfold unlocked_len. simpl. rewrite (proj2 (Z.eqb_neq (lock_ref x + 1) 0)) by lia. lia.
  - rewrite (relocked_sum 1 st st' L P) by (try done; intros i Hi; by apply Hall in Hi as [? _]).
    rewrite H5, (ac_protected _ _ Hac). f_equal. apply path_sum_ext.
    intros i x Hi Hx. apply Hall in Hi as (HiL & _). pose proof (tree_lock _ _ _ _ _ Ht HiL Hx).
    unfold unlocked_len, locked_len. simpl. rewrite (proj2 (Z.eqb_neq (lock_ref x + 1) 0)) by lia.
    destruct (lock_ref x =? 0); lia.
Qed.

Lemma dec_lock_ref_spec st L pl H n :
  rinv st L pl (n :: H) -> disable st = false ->
  exists P st', let s := path_sum last_len st P in
    path st n P /\ dec_lock_ref st n = Ok (s, st') /\ rinv st' L pl H /\
    relocked (-1) (list_to_set P) st st' /\
    evictable_size_ st' = evictable_size_ st + s /\ protected_size_ st' = protected_size_ st - s.
Proof.
  intros [Ht Hac HK] Hdis. assert (Hn : n ∈ L) by (apply (lk_live _ _ _ HK); by left).
  destruct (path_ex st L pl Ht n Hn) as [P HP]. exists P.
  destruct (path_props st L pl Ht n P HP Hn) as [Hnd Hall].
  pose proof (path_len st L pl Ht n P HP Hn) as Hlen.
  assert (Hpos : forall i y, i ∈ P -> nodes st !! i = Some y -> 1 <= lock_ref y).
  { intros i y Hi Hy. apply Hall in Hi as (HiL & Hir & _ & Hre). pose proof (lk_count _ _ _ HK i y HiL Hir Hy) as Hh.
    inv Hh; try done. match goal with X : holds _ H _ |- _ => apply holds_nonneg in X; lia end. }
  destruct (dec_lock_loop_spec st L pl Ht n P HP (S (size (nodes st))) st ∅ 0 Hn Hpos ltac:(lia) ltac:(set_solver)
    (relocked_refl (-1) st)) as (st' & H1 & H2 & H3 & H4 & H5); [intros m _; apply (ac_leaves _ _ Hac)|].
  rewrite union_empty_r_L in H2. exists st'. simpl. unfold dec_lock_ref. rewrite Hdis, H1.
  split; [done|]. split; [done|]. split; [|done].
  assert (HK' : locks st' L H) by (by eapply dec_locks).
  assert (Ht' : tree st' L pl).
  { eapply relocked_tree; try done. rewrite elem_of_list_to_set. intros Hin. by apply Hall in Hin as (_ & ? & _). }
  split; [done| |done]. apply leaves_ok_acct; [done| |].
  - rewrite (relocked_sum (-1) st st' L P) by (try done; intros i Hi; by apply Hall in Hi as [? _]).
    rewrite H4, (ac_evictable _ _ Hac). f_equal. apply path_sum_ext. intros i x Hi Hx. pose proof (Hpos i x Hi Hx).
    unfold last_len, unlocked_len. simpl. bool_lia.
  - rewrite (relocked_sum (-1) st st' L P) by (try done; intros i Hi; by apply Hall in Hi as [? _]).
    rewrite H5, (ac_protected _ _ Hac). rewrite (path_sum_ext (fun x => locked_len (add_lock (-1) x) - locked_len x) (fun x => - last_len x)), path_sum_opp; [lia|].
    intros i x Hi Hx. pose proof (Hpos i x Hi Hx). unfold last_len, locked_len. simpl. bool_lia.
Qed.
