(* ===== verification/RadixEvict.v ===== *)
(** * Eviction

    Removing a leaf, and the eviction loop: which nodes go, which slots are
    returned to the allocator, and what stays. *)

From S2P Require Import Prelude Tensors RadixKeys RadixKeysTheory RadixCache RadixTheory RadixSplit RadixWalk RadixInsert RadixOps RadixLocks.

(** ** Removing a leaf *)

Record del_rel (st st' : RadixCache) (n p : nat) (x px : TreeNode) : Prop := {
  dl_parent : exists pp, nodes st' !! p = Some pp /\
    children pp = delete (ck (page_size st) (key x)) (children px) /\ parent pp = parent px /\
    key pp = key px /\ value pp = value px /\ lock_ref pp = lock_ref px;
  dl_other : forall i, i <> p -> nodes st' !! i = nodes st !! i;
  dl_counter : counter st' = counter st;
  dl_ps : page_size st' = page_size st;
  dl_root : root_node st' = root_node st
}.

Section delete.
Context (st st' : RadixCache) (L : gset nat) (pl : nat -> Z) (n p : nat) (x px : TreeNode).
Context (Ht : tree st L pl) (Hn : n ∈ L) (Hnr : n <> root_node st) (Hx : nodes st !! n = Some x).
Context (T : tree_node st L n x p px) (Hleaf : children x = ∅) (Hr : del_rel st st' n p x px).

Lemma del_old i y : nodes st !! i = Some y ->
  exists z, nodes st' !! i = Some z /\ parent z = parent y /\ key z = key y /\ value z = value y /\
    lock_ref z = lock_ref y /\ (i <> p -> children z = children y) /\
    (i = p -> children z = delete (ck (page_size st) (key x)) (children y)).
Proof using All.
  intros Hy. destruct (decide (i = p)) as [->|Hne].
  - destruct (dl_parent _ _ _ _ _ _ Hr) as (pp & Hpp & E1 & E2 & E3 & E4 & E5).
    rewrite (tn_p _ _ _ _ _ _ T) in Hy. injection Hy as <-. exists pp. split_and!; done.
  - exists y. rewrite (dl_other _ _ _ _ _ _ Hr) by done. split_and!; done.
Qed.

Lemma del_back i z : nodes st' !! i = Some z -> exists y, nodes st !! i = Some y.
Proof using All.
  intros Hz. destruct (decide (i = p)) as [->|Hne]; [exists px; apply T|].
  exists z. by rewrite <- (dl_other _ _ _ _ _ _ Hr).
Qed.

(** No other node shares the removed entry. *)
Lemma del_entry i y c m : i ∈ L -> nodes st !! i = Some y -> children y !! c = Some m -> m <> n ->
  exists z, nodes st' !! i = Some z /\ children z !! c = Some m.
Proof using All.
  intros Hi Hy Hc Hm. destruct (del_old i y Hy) as (z & Hz & _ & _ & _ & _ & E1 & E2). exists z. split; [done|].
  destruct (decide (i = p)) as [->|Hne]; [|by rewrite E1].
  rewrite E2 by done. rewrite lookup_delete_ne; [done|]. intros E. subst c.
  rewrite (tn_p _ _ _ _ _ _ T) in Hy. injection Hy as <-. rewrite (tn_entry _ _ _ _ _ _ T) in Hc. congruence.
Qed.

Lemma del_entry_back i z c m : nodes st' !! i = Some z -> children z !! c = Some m ->
  exists y, nodes st !! i = Some y /\ children y !! c = Some m.
Proof using All.
  intros Hz Hc. destruct (del_back i z Hz) as [y Hy]. destruct (del_old i y Hy) as (z' & Hz' & _ & _ & _ & _ & E1 & E2).
  rewrite Hz in Hz'. injection Hz' as <-. exists y. split; [done|].
  destruct (decide (i = p)) as [->|Hne]; [|by rewrite <- E1].
  rewrite E2 in Hc by done. by apply lookup_delete_Some in Hc as [_ Hc].
Qed.

Lemma leaf_reach a ks vs : reach st n a ks vs -> a = n.
Proof using All.
  enough (forall s, reach st s a ks vs -> s = n -> a = n) by eauto.
  intros s H E. destruct H as [|s y c m z w a ks vs Hy Hc _ _ _]; [done|].
  rewrite E, Hx in Hy. injection Hy as <-. by rewrite Hleaf, lookup_empty in Hc.
Qed.

Lemma del_reach_fwd s a ks vs : s ∈ L -> a <> n -> reach st s a ks vs -> reach st' s a ks vs.
Proof using All.
  intros Hs Ha H. revert Hs Ha. induction H as [|s y c m z w a ks vs Hy Hc Hz Hw Hre IH]; intros Hs Ha; [constructor|].
  assert (Hm : m <> n) by (intros ->; by apply leaf_reach in Hre).
  destruct (tr_child _ _ _ Ht _ _ _ _ Hs Hy Hc) as (HmL & _).
  destruct (del_entry s y c m Hs Hy Hc Hm) as (y' & Hy' & Hc').
  destruct (del_old m z Hz) as (z' & Hz' & _ & E2 & E3 & _). rewrite <- E2.
  eapply reach_step; [exact Hy'|exact Hc'|exact Hz'|by rewrite E3|by apply IH].
Qed.

Lemma del_reach_bwd s a ks vs : reach st' s a ks vs -> reach st s a ks vs.
Proof using All.
  induction 1 as [|s y c m z w a ks vs Hy Hc Hz Hw _ IH]; [constructor|].
  destruct (del_entry_back s y c m Hy Hc) as (y0 & Hy0 & Hc0). destruct (del_back m z Hz) as [z0 Hz0].
  destruct (del_old m z0 Hz0) as (z' & Hz' & _ & E2 & E3 & _). rewrite Hz in Hz'. injection Hz' as <-.
  rewrite E2. eapply reach_step; [exact Hy0|exact Hc0|exact Hz0|by rewrite <- E3|done].
Qed.

Lemma del_child_ne i y c m : i ∈ L -> nodes st' !! i = Some y -> children y !! c = Some m -> m <> n.
Proof using All.
  intros Hi Hy Hc ->. destruct (del_entry_back i y c n Hy Hc) as (y0 & Hy0 & Hc0).
  destruct (tr_child _ _ _ Ht _ _ _ _ Hi Hy0 Hc0) as (_ & _ & x' & Hx' & Hp & Ec). rewrite Hx in Hx'. injection Hx' as <-.
  rewrite (tn_parent _ _ _ _ _ _ T) in Hp. injection Hp as <-.
  destruct (del_old p y0 Hy0) as (y' & Hy' & _ & _ & _ & _ & _ & E2). rewrite Hy in Hy'. injection Hy' as <-.
  rewrite E2, Ec, lookup_delete_eq in Hc by done. done.
Qed.

Lemma del_tree : tree st' (L ∖ {[n]}) pl.
Proof using All.
  pose proof (dl_ps _ _ _ _ _ _ Hr) as Eps. pose proof (dl_root _ _ _ _ _ _ Hr) as Ero.
  split; rewrite ?Eps, ?Ero, ?(dl_counter _ _ _ _ _ _ Hr); try apply Ht.
  - pose proof (tr_root _ _ _ Ht). set_solver.
  - destruct (tr_rootn _ _ _ Ht) as (r & Hr0 & R1 & R2 & R3 & R4).
    destruct (del_old _ _ Hr0) as (z & Hz & Z1 & Z2 & Z3 & Z4 & _). exists z. by rewrite Z1, Z2, Z3, Z4.
  - intros i y Hy. destruct (del_back i y Hy) as [y0 Hy0]. by apply (tr_fresh _ _ _ Ht) in Hy0.
  - intros i Hi Hir. assert (HiL : i ∈ L) by set_solver. assert (Hin : i <> n) by set_solver.
    destruct (tr_node _ _ _ Ht i HiL Hir) as (y & q & qy & Hy & [T1 T2 T3 T4 T5 T6 T7 T8 T9 T10]).
    destruct (del_old i y Hy) as (z & Hz & Z1 & Z2 & Z3 & Z4 & _).
    destruct (del_old q qy T3) as (qz & Hqz & Q1 & Q2 & Q3 & Q4 & _).
    assert (q <> n). { intros ->. rewrite Hx in T3. injection T3 as <-. by rewrite Hleaf in T4. }
    exists z, q, qz. split; [done|]. split; rewrite ?Eps, ?Ero, ?Z1, ?Z2, ?Z3, ?Z4, ?Q2, ?Q4; try done; [set_solver|].
    destruct (del_entry q qy _ i T2 T3 T4 Hin) as (qz' & Hqz' & He). rewrite Hqz in Hqz'. by injection Hqz' as <-.
  - intros i y c m Hi Hy Hc. assert (HiL : i ∈ L) by set_solver.
    pose proof (del_child_ne i y c m HiL Hy Hc) as Hm.
    destruct (del_entry_back i y c m Hy Hc) as (y0 & Hy0 & Hc0).
    destruct (tr_child _ _ _ Ht _ _ _ _ HiL Hy0 Hc0) as (HmL & Hmr & z & Hz & Hpar & ->).
    split; [set_solver|]. split; [done|]. destruct (del_old m z Hz) as (z1 & Hz1 & Z1 & Z2 & _). exists z1. by rewrite Z1, Z2.
  - intros i y q Hi Hir Hy Hq. assert (HiL : i ∈ L) by set_solver. destruct (del_back i y Hy) as [y0 Hy0].
    destruct (del_old i y0 Hy0) as (y1 & Hy1 & Z1 & Z2 & _). rewrite Hy in Hy1. injection Hy1 as <-.
    rewrite Z2. apply (tr_rank _ _ _ Ht); try done. by rewrite <- Z1.
Qed.

Lemma del_sum f :
  (forall y z, key y = key z -> lock_ref y = lock_ref z -> f y = f z) ->
  node_sum f st L = f x + node_sum f st' (L ∖ {[n]}).
Proof using All.
  intros Hf. rewrite (node_sum_remove f st L n Hn), Hx. f_equal. apply node_sum_ext. intros i Hi.
  destruct (tree_value _ _ _ i Ht) as (y & _ & Hy & _); [set_solver|].
  destruct (del_old i y Hy) as (z & Hz & _ & Z2 & _ & Z4 & _). rewrite Hy, Hz. by apply Hf.
Qed.

Lemma del_locks H : locks st L H -> lock_ref x = 0 -> n ∉ H /\ locks st' (L ∖ {[n]}) H.
Proof using All.
  intros HK Hl. assert (HnH : n ∉ H).
  { intros Hin. pose proof (lk_count _ _ _ HK n x Hn Hnr Hx) as Hh. rewrite Hl in Hh.
    apply (holds_zero _ _ _ Hh Hin). exists [], []. constructor. }
  split; [done|]. split.
  - intros h Hh. pose proof (lk_live _ _ _ HK h Hh). set_solver.
  - rewrite (dl_root _ _ _ _ _ _ Hr). intros i y Hi Hir Hy. assert (HiL : i ∈ L) by set_solver.
    destruct (del_back i y Hy) as [y0 Hy0]. destruct (del_old i y0 Hy0) as (y1 & Hy1 & _ & _ & _ & Z4 & _).
    rewrite Hy in Hy1. injection Hy1 as <-. rewrite Z4. eapply holds_ext; [|by apply (lk_count _ _ _ HK i)].
    intros h Hh. split; intros (ks & vs & Hre); exists ks, vs; [|by apply del_reach_bwd].
    apply del_reach_fwd; try done. by intros ->.
Qed.

Lemma del_stored ek ks vs : stored st' ek ks vs -> stored st ek ks vs.
Proof using All.
  intros (a & y & fks & fvs & j & Hre & Hy & He & Hk). rewrite (dl_root _ _ _ _ _ _ Hr) in Hre.
  destruct (del_back a y Hy) as [y0 Hy0]. destruct (del_old a y0 Hy0) as (y1 & Hy1 & _ & Z2 & _).
  rewrite Hy in Hy1. injection Hy1 as <-. exists a, y0, fks, fvs, j. rewrite <- Z2.
  split; [by apply del_reach_bwd|done].
Qed.

Lemma del_slots v : value x = Some v -> tree_slots st L ≡ₚ v ++ tree_slots st' (L ∖ {[n]}).
Proof using All.
  intros Hv. rewrite (tree_slots_remove st L n Hn), (node_slots_value _ _ _ _ Hx Hv).
  apply Permutation_app_head, reflexive_eq. symmetry. apply tree_slots_ext. intros i Hi.
  destruct (tree_value _ _ _ i Ht) as (y & w & Hy & Hw & _); [set_solver|].
  destruct (del_old i y Hy) as (z & Hz & _ & _ & Z3 & _). unfold node_slots. rewrite Hy, Hz. simpl. by rewrite Z3.
Qed.
End delete.


(** Fields that deletion leaves alone. *)
Definition same_config (st st' : RadixCache) : Prop :=
  page_size st' = page_size st /\ root_node st' = root_node st /\ disable st' = disable st /\
  is_eagle st' = is_eagle st /\ enable_kv_cache_events st' = enable_kv_cache_events st /\
  eviction_strategy st' = eviction_strategy st.

#[global] Instance same_config_preorder : PreOrder same_config.
Proof.
  split; [done|]. intros a b c (?&?&?&?&?&?) (?&?&?&?&?&?). split_and!; congruence.
Qed.

(** What a deletion of a set of nodes, with slots [vs], guarantees. *)
Record shrunk (st : RadixCache) (L : gset nat) (H : list nat) (vs : list Z) (st' : RadixCache) (L' : gset nat) : Prop := {
  sh_config : same_config st st';
  sh_sub : L' ⊆ L;
  sh_nodes : dom (nodes st') = dom (nodes st);
  sh_slots : tree_slots st L ≡ₚ vs ++ tree_slots st' L';
  sh_ev : evictable_size_ st' = evictable_size_ st - zlen vs;
  sh_pr : protected_size_ st' = protected_size_ st;
  sh_stored : forall ek ks v, stored st' ek ks v -> stored st ek ks v;
  sh_held : forall h ks v, h ∈ H -> reach st (root_node st) h ks v -> reach st' (root_node st) h ks v;
  sh_keys : forall i y, nodes st' !! i = Some y -> exists x, nodes st !! i = Some x /\ key x = key y
}.

Lemma shrunk_refl st L H : shrunk st L H [] st L.
Proof. split; try done; [change (zlen (@nil Z)) with 0; lia|eauto]. Qed.

Lemma shrunk_trans st L H vs st1 L1 vs1 st2 L2 :
  shrunk st L H vs st1 L1 -> shrunk st1 L1 H vs1 st2 L2 -> shrunk st L H (vs ++ vs1) st2 L2.
Proof.
  intros [A1 A2 A3 A4 A5 A6 A7 A8 A9] [B1 B2 B3 B4 B5 B6 B7 B8 B9]. split; try congruence; eauto.
  - by etrans.
  - set_solver.
  - rewrite A4, B4. by rewrite app_assoc.
  - rewrite B5, A5, zlen_app. lia.
  - intros h ks v Hh Hre. destruct A1 as (_ & E & _). rewrite E in B8. by apply B8, A8.
  - intros i z Hz. destruct (B9 i z Hz) as (y & Hy & <-). exact (A9 i y Hy).
Qed.

Lemma leaf_not_root st L pl n : tree st L pl -> is_leaf st n -> n <> root_node st.
Proof.
  intros Ht (x & Hx & Hl & _) ->. destruct (tr_rootn _ _ _ Ht) as (r & Hr & _ & _ & _ & R4). simplify_eq. lia.
Qed.

Lemma delete_leaf_spec st L pl H n :
  rinv st L pl H -> n ∈ evictable_leaves st ->
  exists x v p st', nodes st !! n = Some x /\ value x = Some v /\ 0 < zlen v /\ parent x = Some p /\ p ∈ L ∖ {[n]} /\
    delete_leaf st n = Ok st' /\ rinv st' (L ∖ {[n]}) pl H /\ shrunk st L H v st' (L ∖ {[n]}) /\
    (forall i, i <> p -> i <> n -> i ∈ evictable_leaves st' <-> i ∈ evictable_leaves st) /\ p ∉ evictable_leaves st /\
    (forall i, i <> p -> nodes st' !! i = nodes st !! i).
Proof.
  intros [Ht Hac HK] Hleaf. apply (ac_leaves _ _ Hac) in Hleaf as [Hn Hl].
  pose proof (leaf_not_root _ _ _ _ Ht Hl) as Hnr. destruct Hl as (x & Hx & Hlock & Hch).
  destruct (tr_node _ _ _ Ht n Hn Hnr) as (x' & p & px & Hx' & T). rewrite Hx in Hx'. injection Hx' as <-.
  destruct (tn_value _ _ _ _ _ _ T) as (v & Hv & Hlen). pose proof (tn_pos _ _ _ _ _ _ T) as Hpos.
  pose proof (tr_ps _ _ _ Ht) as HP. pose proof (tn_p _ _ _ _ _ _ T) as Hp.
  assert (Hpn : p <> n). { intros ->. rewrite Hx in Hp. injection Hp as <-. pose proof (tn_entry _ _ _ _ _ _ T) as E. by rewrite Hch in E. }
  unfold delete_leaf. rewrite (deref_ok _ _ _ Hx). cbn [rbind]. rewrite get_child_key_ok by done. cbn [rbind].
  unfold deref_parent. rewrite (tn_parent _ _ _ _ _ _ T). cbn [rbind]. rewrite (deref_ok _ _ _ Hp). cbn [rbind].
  rewrite (tn_entry _ _ _ _ _ _ T). rewrite bool_decide_eq_true_2 by done.
  set (st3 := with_leaves _ _).
  assert (Hr : del_rel st st3 n p x px).
  { split; try done; simpl.
    - rewrite lookup_alter_eq, Hp. simpl. eexists. split; [done|]. done.
    - intros i Hi. by rewrite lookup_alter_ne by done. }
  pose proof (del_tree st st3 L pl n p x px Ht Hn Hnr Hx T Hch Hr) as Ht3.
  assert (HpL : p ∈ L ∖ {[n]}) by (pose proof (tn_plive _ _ _ _ _ _ T); set_solver).
  assert (HE : leaves_ok st3 (L ∖ {[n]}) {[p]}).
  { intros m Hm. simpl. rewrite elem_of_difference, (ac_leaves _ _ Hac m), (is_leaf_eq st st3); [set_solver|].
    apply (dl_other _ _ _ _ _ _ Hr). set_solver. }
  destruct (update_leaf_status_spec st3 _ _ p _ Ht3 HpL HE) as (ls & Hup & HE3).
  assert (Hac' : acct (with_leaves st3 ls) (L ∖ {[n]})).
  { apply leaves_ok_acct; [intros m Hm; apply HE3; set_solver| |].
    - change (evictable_size_ st - key_len (key x) = node_sum unlocked_len st3 (L ∖ {[n]})).
      rewrite (ac_evictable _ _ Hac), (del_sum st st3 L pl n p x px Ht Hn Hnr Hx T Hch Hr unlocked_len).
      + unfold unlocked_len at 1. rewrite Hlock. simpl. lia.
      + intros y z E1 E2. unfold unlocked_len. by rewrite E1, E2.
    - change (protected_size_ st = node_sum locked_len st3 (L ∖ {[n]})).
      rewrite (ac_protected _ _ Hac), (del_sum st st3 L pl n p x px Ht Hn Hnr Hx T Hch Hr locked_len).
      + unfold locked_len at 1. rewrite Hlock. simpl. lia.
      + intros y z E1 E2. unfold locked_len. by rewrite E1, E2. }
  destruct (del_locks st st3 L pl n p x px Ht Hn Hnr Hx T Hch Hr H HK Hlock) as [HnH HK3].
  exists x, v, p, (with_leaves st3 ls). split; [done|]. split; [done|]. split; [lia|]. split; [apply T|].
  split; [done|]. split; [done|]. split; [split; [by apply tree_leaves|done|by apply locks_leaves]|]. split; [split|split; [|split]].
  - done.
  - set_solver.
  - simpl. apply dom_alter_L.
  - change (tree_slots (with_leaves st3 ls) (L ∖ {[n]})) with (tree_slots st3 (L ∖ {[n]})). by eapply (del_slots st st3).
  - simpl. by rewrite Hlen.
  - done.
  - intros ek ks w Hs. rewrite (stored_nodes_eq st3) in Hs by done. by eapply (del_stored st st3).
  - intros h ks w Hh Hre. eapply (reach_nodes_eq st3); [done|].
    eapply (del_reach_fwd st st3 L pl n p x px); try done; [apply Ht|by intros ->].
  - intros i y Hy. destruct (del_back st st3 L pl n p x px Ht Hn Hnr Hx T Hch Hr i y Hy) as [y0 Hy0].
    destruct (del_old st st3 L pl n p x px Ht Hn Hnr Hx T Hch Hr i y0 Hy0) as (y1 & Hy1 & _ & Ek & _).
    change (nodes (with_leaves st3 ls)) with (nodes st3) in Hy. rewrite Hy in Hy1. injection Hy1 as <-. by exists y0.
  - intros i Hip Hin. rewrite (ac_leaves _ _ Hac'), (ac_leaves _ _ Hac).
    rewrite (is_leaf_eq st); [set_solver|]. simpl. by rewrite lookup_alter_ne.
  - intros Hin. apply (ac_leaves _ _ Hac) in Hin as (_ & y & Hy & _ & Hc). rewrite Hp in Hy. injection Hy as <-.
    pose proof (tn_entry _ _ _ _ _ _ T) as E. by rewrite Hc in E.
  - intros i Hi. simpl. by rewrite lookup_alter_ne.
Qed.

(** ** The heap *)

Lemma heappop_none st h : heappop st h = None -> h = [].
Proof. destruct h as [|e h]; [done|]. simpl. destruct (heappop st h) as [[m r]|]; [destruct (entry_lt st m e)|]; done. Qed.

Lemma heappop_perm st h e r : heappop st h = Some (e, r) -> h ≡ₚ e :: r.
Proof.
  revert e r. induction h as [|e0 h IH]; intros e r; [done|]. simpl.
  destruct (heappop st h) as [[m r']|] eqn:E; [|intros [= <- <-]; by rewrite (heappop_none _ _ E)].
  specialize (IH _ _ eq_refl). destruct (entry_lt st m e0); intros [= <- <-]; rewrite IH; [by constructor|done].
Qed.

(** Lexicographic order on priorities is total. *)
Lemma lex_lt_irrefl a : lex_lt a a = false.
Proof. induction a as [|x a IH]; [done|]. simpl. by rewrite Z.ltb_irrefl, Z.eqb_refl, IH. Qed.

Lemma lex_lt_trans a b c : lex_lt a b = true -> lex_lt b c = true -> lex_lt a c = true.
Proof.
  revert b c. induction a as [|x a IH]; intros [|y b] [|z c]; try done. simpl.
  rewrite !orb_true_iff, !andb_true_iff, !Z.ltb_lt, !Z.eqb_eq. intros [?|[-> ?]] [?|[-> ?]]; try (left; lia).
  right. split; [done|]. by eapply IH.
Qed.

Lemma lex_lt_neg_trans a b c : lex_lt a b = false -> lex_lt b c = false -> lex_lt a c = false.
Proof.
  revert b c. induction a as [|x a IH]; intros [|y b] [|z c]; try done. simpl.
  rewrite !orb_false_iff, !andb_false_iff, !Z.ltb_ge, !Z.eqb_neq. intros [? [?|?]] [? [?|?]]; (split; [lia|]); try (left; lia).
  destruct (decide (x = z)); [|by left]. right. by eapply IH.
Qed.

(** The popped entry has the smallest priority. *)
Lemma heappop_min st h e r e' : heappop st h = Some (e, r) -> e' ∈ h -> lex_lt (fst e') (fst e) = false.
Proof.
  revert e r. induction h as [|e0 h IH]; intros e r; [done|]. simpl.
  destruct (heappop st h) as [[m r']|] eqn:E.
  - specialize (IH m r' eq_refl). destruct (entry_lt st m e0) eqn:El; intros [= <- <-] Hin; apply elem_of_cons in Hin as [->|Hin]; auto.
    + unfold entry_lt in El. apply orb_true_iff in El as [El|El].
      * destruct (lex_lt e0.1 m.1) eqn:E2; [|done]. pose proof (lex_lt_trans _ _ _ El E2) as C. by rewrite lex_lt_irrefl in C.
      * by apply andb_true_iff in El as [El%negb_true_iff _].
    + apply lex_lt_irrefl.
    + apply orb_false_iff in El as [El _]. eapply lex_lt_neg_trans; [by apply IH|exact El].
  - intros [= <- <-] Hin. rewrite (heappop_none _ _ E) in Hin. apply elem_of_cons in Hin as [->|Hin]; [apply lex_lt_irrefl|].
    by apply not_elem_of_nil in Hin.
Qed.

(** ** The loop *)

Section evict.
Context (gh : list tok -> option string -> string) {A : Type} (al_free : A -> list Z -> A).

Lemma delete_leaf_tree_size st L pl H : rinv st L pl H -> (size L <= size (nodes st))%nat.
Proof.
  intros [Ht _ _]. rewrite <- size_dom. apply subseteq_size. intros i Hi.
  destruct (tree_value _ _ _ _ Ht Hi) as (y & _ & Hy & _). by apply elem_of_dom_2 in Hy.
Qed.

(** Nothing evictable is left when there is no evictable leaf. *)
Lemma no_leaves_empty st L pl H : rinv st L pl H -> evictable_leaves st = ∅ -> evictable_size_ st = 0.
Proof.
  intros [Ht Hac HK] He. rewrite (ac_evictable _ _ Hac).
  assert (Hall : forall n x, n ∈ L -> nodes st !! n = Some x -> lock_ref x <> 0).
  { intros n. remember (size (filter (fun i => pl n < pl i) L)) as k eqn:Ek. revert n Ek.
    induction k as [k IH] using lt_wf_ind. intros n -> x Hn Hx Hl.
    destruct (decide (children x = ∅)) as [Hc|Hc].
    - assert (n ∈ evictable_leaves st) as Hin by (apply (ac_leaves _ _ Hac); split; [done|by exists x]).
      rewrite He in Hin. by apply not_elem_of_empty in Hin.
    - apply map_choose in Hc as (c & m & Hcm).
      destruct (tr_child _ _ _ Ht _ _ _ _ Hn Hx Hcm) as (Hm & Hmr & y & Hy & Hp & _).
      destruct (tr_node _ _ _ Ht m Hm Hmr) as (y' & p & px & Hy' & T). rewrite Hy in Hy'. injection Hy' as <-.
      rewrite (tn_parent _ _ _ _ _ _ T) in Hp. injection Hp as ->.
      pose proof (tn_p _ _ _ _ _ _ T) as Hpx. rewrite Hx in Hpx. injection Hpx as <-.
      destruct (parent_live st L pl Ht m y n Hm Hmr Hy (tn_parent _ _ _ _ _ _ T)) as (_ & Hlt & _).
      assert (Hnr : n <> root_node st).
      { intros ->. destruct (tr_rootn _ _ _ Ht) as (r & Hr & _ & _ & _ & R). rewrite Hx in Hr. injection Hr as <-. lia. }
      pose proof (tn_lock_le _ _ _ _ _ _ T Hnr). pose proof (tn_lock _ _ _ _ _ _ T).
      eapply (IH (size (filter (fun i => pl m < pl i) L))); [|done|exact Hm|exact Hy|lia].
      apply subset_size. split.
      + intros i [G1 G2]%elem_of_filter. apply elem_of_filter. split; [lia|done].
      + intros Hs. assert (Hin : m ∈ filter (fun i => pl m < pl i) L) by (apply Hs, elem_of_filter; done).
        apply elem_of_filter in Hin as [? _]. lia. }
  unfold node_sum. assert (Hz : forall l, (forall i, i ∈ l -> i ∈ L) ->
    zsum (map (fun n => match nodes st !! n with Some x => unlocked_len x | None => 0 end) l) = 0).
  { unfold zsum. induction l as [|i l IH]; intros Hin; [done|]. simpl. rewrite IH by (intros j Hj; apply Hin; by right).
    destruct (nodes st !! i) as [x|] eqn:Ex; [|done]. unfold unlocked_len.
    destruct (Z.eqb_spec (lock_ref x) 0) as [E|]; [|done]. exfalso. eapply Hall; [|exact Ex|exact E]. apply Hin. by left. }
  apply Hz. intros i. by rewrite elem_of_elements.
Qed.

(** The result of evicting at least [want] tokens: [vs] are the slots of each
    removed node, in order. *)
Record evicted_to (st : RadixCache) (L : gset nat) (pl : nat -> Z) (H : list nat) (want : Z)
    (st' : RadixCache) (vs : list (list Z)) : Prop := {
  et_inv : exists L', rinv st' L' pl H /\ shrunk st L H (concat vs) st' L';
  et_enough : want <= zlen (concat vs) \/ evictable_size_ st' = 0;
  et_minimal : forall us u, vs = us ++ [u] -> zlen (concat us) < want;
  et_first : forall u us, vs = u :: us -> exists n x, n ∈ evictable_leaves st /\ nodes st !! n = Some x /\ value x = Some u /\
    forall i y, i ∈ evictable_leaves st -> nodes st !! i = Some y ->
      lex_lt (get_priority (eviction_strategy st) y) (get_priority (eviction_strategy st) x) = false
}.

(** Heap entries carry the current priority of their node. *)
Definition heap_ok (st : RadixCache) (heap : list (list Z * nat)) : Prop :=
  forall e, e ∈ heap -> exists x, nodes st !! snd e = Some x /\ fst e = get_priority (eviction_strategy st) x.

Lemma heap_elems (heap : list (list Z * nat)) e r :
  heap ≡ₚ e :: r -> NoDup (map snd heap) -> NoDup (map snd r) /\ snd e ∉ map snd r /\
  forall i, i ∈ map snd heap <-> i = snd e \/ i ∈ map snd r.
Proof.
  intros HP Hnd. pose proof (Permutation_map snd HP) as HP'. simpl in HP'. rewrite HP' in Hnd.
  apply list.NoDup_cons in Hnd as [H1 H2]. split_and!; try done. intros i. rewrite HP'. apply elem_of_cons.
Qed.

Lemma evict_loop_spec fuel : forall al st L pl H heap want got,
  rinv st L pl H -> enable_kv_cache_events st = false -> NoDup (map snd heap) ->
  (forall i, i ∈ map snd heap <-> i ∈ evictable_leaves st) -> heap_ok st heap -> (size L < fuel)%nat ->
  exists st' vs, evict_loop gh al_free fuel al st heap want got =
      Ok (got + zlen (concat vs), foldl al_free al vs, st') /\
    evicted_to st L pl H (want - got) st' vs.
Proof.
  induction fuel as [|f IH]; intros al st L pl H heap want got Hinv Hkv Hnd Hheap Hok Hf; [lia|].
  assert (Hstop : (want <= got \/ evictable_size_ st = 0) -> exists st' vs,
    Ok (got, al, st) = Ok (got + zlen (concat vs), foldl al_free al vs, st') /\ evicted_to st L pl H (want - got) st' vs).
  { intros Hc. exists st, []. simpl. change (zlen (@nil Z)) with 0. rewrite Z.add_0_r. split; [done|]. split.
    - exists L. split; [done|apply shrunk_refl].
    - simpl. change (zlen (@nil Z)) with 0. destruct Hc; [left; lia|by right].
    - intros us u E. by destruct us.
    - done. }
  cbn [evict_loop]. destruct (Z.ltb_spec got want) as [Hlt|Hge]; [|apply Hstop; by left].
  destruct (heappop st heap) as [[[pr n] heap1]|] eqn:Epop.
  2: { apply heappop_none in Epop. subst heap. apply Hstop. right. eapply no_leaves_empty; [done|].
       apply set_eq. intros i. rewrite <- Hheap. simpl. set_solver. }
  clear Hstop. pose proof (fun e' => heappop_min _ _ _ _ e' Epop) as Hmin0. apply heappop_perm in Epop. destruct (heap_elems _ _ _ Epop Hnd) as (Hnd1 & Hn1 & Hel). simpl in Hn1, Hel.
  assert (Hnl : n ∈ evictable_leaves st) by (apply Hheap, Hel; by left).
  destruct (delete_leaf_spec _ _ _ _ _ Hinv Hnl) as (x & v & p & st1 & Hx & Hv & Hvl & Hp & HpL & Hdel & Hinv1 & Hsh & Hleaf & Hpn & Hsame).
  rewrite (deref_ok _ _ _ Hx). cbn [rbind]. rewrite (deref_value_ok _ _ Hv). cbn [rbind]. rewrite Hdel. cbn [rbind].
  unfold deref_parent. rewrite Hp. cbn [rbind].
  destruct (tree_value _ _ _ _ (ri_tree _ _ _ _ Hinv1) HpL) as (px & vp & Hpx & _). rewrite (deref_ok _ _ _ Hpx). cbn [rbind].
  assert (Hkv1 : enable_kv_cache_events st1 = false).
  { pose proof (sh_config _ _ _ _ _ _ Hsh) as (_&_&_&_&E&_). by rewrite E. }
  unfold record_remove_event. rewrite Hkv1. cbn [rbind].
  set (heap2 := if bool_decide (children px = ∅) && (lock_ref px =? 0) then _ else _).
  assert (Hpl : p ∈ evictable_leaves st1 <-> bool_decide (children px = ∅) && (lock_ref px =? 0) = true).
  { rewrite (ac_leaves _ _ (ri_acct _ _ _ _ Hinv1)), andb_true_iff, bool_decide_eq_true, Z.eqb_eq. split.
    - intros (_ & y & Hy & ? & ?). rewrite Hpx in Hy. injection Hy as <-. done.
    - intros [? ?]. split; [done|]. by exists px. }
  assert (Hn_gone : n ∉ evictable_leaves st1).
  { intros Hin. apply (ac_leaves _ _ (ri_acct _ _ _ _ Hinv1)) in Hin as [Hin _]. set_solver. }
  assert (Hp1 : p ∉ map snd heap1).
  { intros Hin. apply Hpn, Hheap, Hel. by right. }
  assert (Hrest : forall i, i ∈ map snd heap1 <-> i ∈ evictable_leaves st1 /\ i <> p).
  { intros i. destruct (decide (i = p)) as [->|Hip]; [split; [done|by intros [_ ?]]|].
    destruct (decide (i = n)) as [->|Hin]; [split; [done|by intros [? _]]|].
    rewrite Hleaf, <- Hheap, Hel by done. split; [by split; [right|]|]. intros [[?|?] _]; done. }
  assert (Hheap2 : NoDup (map snd heap2) /\ forall i, i ∈ map snd heap2 <-> i ∈ evictable_leaves st1).
  { unfold heap2. destruct (bool_decide (children px = ∅) && (lock_ref px =? 0)).
    - rewrite map_app. simpl. split.
      + apply list.NoDup_app. split; [done|]. split; [|apply NoDup_singleton]. intros i Hi ->%list_elem_of_singleton. done.
      + intros i. rewrite elem_of_app, list_elem_of_singleton, Hrest. destruct (decide (i = p)) as [->|]; tauto.
    - split; [done|]. intros i. rewrite Hrest. split; [tauto|]. intros Hi. split; [done|].
      intros ->. apply Hpl in Hi. done. }
  destruct Hheap2 as [Hnd2 Hheap2].
  assert (Estr : eviction_strategy st1 = eviction_strategy st) by apply (sh_config _ _ _ _ _ _ Hsh).
  assert (Hok1 : heap_ok st1 heap1).
  { intros e He. destruct (Hok e) as (y & Hy & Ey); [rewrite Epop; by right|]. exists y. rewrite Estr, Hsame; [done|].
    intros <-. apply Hp1. apply list_elem_of_fmap. by exists e. }
  assert (Hok2 : heap_ok st1 heap2).
  { unfold heap2. destruct (bool_decide _ && _); [|done]. intros e [He| ->%list_elem_of_singleton]%elem_of_app; [by apply Hok1|].
    by exists px. }
  assert (Hsz : (size (L ∖ {[n]}) < f)%nat).
  { assert (Hn : n ∈ L) by (by apply (ac_leaves _ _ (ri_acct _ _ _ _ Hinv)) in Hnl as [? _]).
    assert (size (L ∖ {[n]}) < size L)%nat; [|lia]. apply subset_size. set_solver. }
  destruct (IH (al_free al v) st1 (L ∖ {[n]}) pl H heap2 want (got + zlen v) Hinv1 Hkv1 Hnd2 Hheap2 Hok2 Hsz)
    as (st' & vs & Hrun & [(L' & Hinv' & Hsh') Henough Hmin _]).
  exists st', (v :: vs). rewrite Hrun. simpl. rewrite zlen_app, Z.add_assoc. split; [done|]. split.
  - exists L'. split; [done|]. simpl. by eapply shrunk_trans.
  - simpl. rewrite zlen_app. destruct Henough; [left; lia|by right].
  - intros [|u0 us] u E; simpl in E.
    + simpl. change (zlen (@nil Z)) with 0. lia.
    + injection E as <- E. simpl. rewrite zlen_app. specialize (Hmin us u E). lia.
  - intros u us [= <- _]. exists n, x. split_and!; try done. intros i y Hi Hy.
    apply Hheap in Hi. apply list_elem_of_fmap in Hi as (e & -> & He). destruct (Hok e He) as (y' & Hy' & Ey).
    assert (y' = y) as -> by congruence. destruct (Hok (pr, n)) as (x' & Hx' & Ex); [rewrite Epop; by left|].
    simpl in Hx', Ex. assert (x' = x) as -> by congruence. rewrite <- Ey, <- Ex. exact (Hmin0 e He).
Qed.

Lemma evict_spec al st L pl H want :
  rinv st L pl H -> enable_kv_cache_events st = false -> disable st = false ->
  exists st' vs, evict gh al_free al st want = Ok (zlen (concat vs), foldl al_free al vs, st') /\
    evicted_to st L pl H want st' vs.
Proof.
  intros Hinv Hkv Hdis. unfold evict. rewrite Hdis.
  set (prio := fun n => match nodes st !! n with Some x => get_priority (eviction_strategy st) x | None => [] end).
  rewrite (rmap_ok _ (fun n => (prio n, n))).
  - cbn [rbind]. pose proof (delete_leaf_tree_size _ _ _ _ Hinv).
    destruct (evict_loop_spec (S (size (nodes st))) al st L pl H
      (map (fun n => (prio n, n)) (elements (evictable_leaves st))) want 0) as (st' & vs & Hrun & He); try done; try lia.
    + rewrite map_map, map_id. apply NoDup_elements.
    + intros i. rewrite map_map, map_id. apply elem_of_elements.
    + intros e He. apply list_elem_of_fmap in He as (n & -> & Hn%elem_of_elements).
      apply (ac_leaves _ _ (ri_acct _ _ _ _ Hinv)) in Hn as (_ & x & Hx & _). exists x. simpl. unfold prio. by rewrite Hx.
    + exists st', vs. rewrite Z.sub_0_r in He. done.
  - intros n Hn%elem_of_elements%(ac_leaves _ _ (ri_acct _ _ _ _ Hinv)). destruct Hn as (_ & x & Hx & _).
    rewrite (deref_ok _ _ _ Hx). cbn [rbind]. unfold prio. by rewrite Hx.
Qed.
End evict.
