(* ===== verification/RadixFacts.v ===== *)
(** * Whole-cache facts

    Construction, uniqueness of the stored slots, the depth-first size of the
    tree, and the operations' effect on the invariant. *)

From S2P Require Import Prelude Tensors RadixKeys RadixKeysTheory RadixCache RadixTheory RadixSplit RadixWalk RadixInsert RadixOps RadixLocks RadixEvict.

(** ** Construction *)

(** [reset] starts a new tree whatever nodes are left of the old one. *)
Lemma reset_spec mono st0 :
  (forall n x, nodes st0 !! n = Some x -> (n < counter st0)%nat) -> 1 <= page_size st0 ->
  let st := reset mono st0 in
  rinv st {[root_node st]} (fun _ => 0) [] /\ page_size st = page_size st0 /\ disable st = disable st0 /\
  is_eagle st = is_eagle st0 /\ enable_kv_cache_events st = enable_kv_cache_events st0.
Proof.
  intros Hfr Hps. cbv zeta. unfold reset, new_tree_node, tick, record_all_cleared_event. simpl.
  match goal with |- context [if ?ev then with_events ?s _ else ?s] => set (st1 := s); set (b := ev) end.
  enough (H : rinv st1 {[root_node st1]} (fun _ => 0) []).
  { destruct b eqn:Eb; (split; [|done]); [|done].
    pose proof (sim_events st1 (kv_event_queue st1 ++ [AllBlocksCleared])) as Hs.
    destruct H as [H1 H2 H3]. split; [by eapply tree_sim|by eapply acct_sim|by eapply locks_sim]. }
  assert (Hn : forall x, nodes st1 !! counter st0 = Some x -> children x = ∅ /\ lock_ref x = 1).
  { intros x. simpl. rewrite lookup_insert_eq. by intros [= <-]. }
  split; [split|split|split]; simpl.
  - done.
  - set_solver.
  - rewrite lookup_insert_eq. eexists. split; [done|]. done.
  - intros i x Hx. apply lookup_insert_Some in Hx as [[<- _]|[_ Hx]]; [lia|]. apply Hfr in Hx. lia.
  - set_solver.
  - intros i x k m Hi Hx Hm. apply elem_of_singleton in Hi as ->. apply Hn in Hx as (Hc & _). by rewrite Hc, lookup_empty in Hm.
  - done.
  - set_solver.
  - unfold node_sum. rewrite elements_singleton. simpl. by rewrite lookup_insert_eq.
  - unfold node_sum. rewrite elements_singleton. simpl. by rewrite lookup_insert_eq.
  - intros i. split; [set_solver|]. intros (Hi & x & Hx & Hl & _). apply elem_of_singleton in Hi as ->. apply Hn in Hx as (_ & E). lia.
  - intros h Hh. by apply not_elem_of_nil in Hh.
  - intros i x Hi Hr. set_solver.
Qed.

Lemma init_spec mono dis psize ev eagle nofin policy c st :
  init mono dis psize ev eagle nofin policy c = Ok st -> 1 <= psize ->
  rinv st {[root_node st]} (fun _ => 0) [] /\ page_size st = psize /\ disable st = dis /\
  is_eagle st = eagle /\ enable_kv_cache_events st = ev.
Proof.
  unfold init. destruct (strategy_of_name (lower policy)) as [s|]; [|done]. cbn [rbind]. intros [= <-] Hps.
  by apply reset_spec.
Qed.

(** ** Slots are a function of the key *)

Lemma reach_unique st L pl n x a y ks vs b z ks' vs' j :
  tree st L pl -> n ∈ L -> nodes st !! n = Some x ->
  reach st n a ks vs -> nodes st !! a = Some y -> reach st n b ks' vs' -> nodes st !! b = Some z ->
  extra_key (key y) = extra_key (key z) -> 0 <= j -> j mod page_size st = 0 -> j <= zlen ks -> j <= zlen ks' ->
  take (Z.to_nat j) ks = take (Z.to_nat j) ks' -> take (Z.to_nat j) vs = take (Z.to_nat j) vs'.
Proof.
  intros Ht Hn Hx H. revert x b z ks' vs' j Hn Hx.
  induction H as [n|n x0 c m w v a ks vs Hx0 Hc Hw Hv Hr IH]; intros x b z ks' vs' j Hn Hx Hy H' Hz He Hj Hmod Hl Hl' Htake.
  { change (zlen (@nil tok)) with 0 in Hl. by replace j with 0 by lia. }
  destruct (decide (j = 0)) as [->|Hj0]; [done|].
  rewrite Hx in Hx0. injection Hx0 as <-.
  set (k := {| token_ids := token_ids (key w) ++ ks; extra_key := extra_key (key y); is_bigram := false |}).
  destruct (reach_first st L pl n x b z ks' vs' k j) as (m' & w' & ks2 & vs2 & Hc' & Hw' & Eks & Hr2); try done; try lia.
  destruct (tr_child _ _ _ Ht _ _ _ _ Hn Hx Hc) as (Hm & Hmr & w2 & Hw2 & Hpar & Eck).
  assert (w2 = w) as -> by congruence.
  assert (c = ck (page_size st) k) as Eck2.
  { rewrite Eck. unfold ck, k. simpl. rewrite (reach_extra _ _ _ _ _ _ _ _ _ Ht Hm Hmr Hr Hw Hy). f_equal.
    destruct (tr_node _ _ _ Ht m Hm Hmr) as (w3 & p & px & Hw3 & T). assert (w3 = w) as -> by congruence.
    pose proof (multiple_ge _ _ (tr_ps _ _ _ Ht) (tn_aligned _ _ _ _ _ _ T) (tn_pos _ _ _ _ _ _ T)).
    rewrite take_app_le; [done|]. unfold key_len, zlen in *. lia. }
  rewrite Eck2 in Hc. rewrite Hc in Hc'. injection Hc' as <-. assert (w' = w) as -> by congruence.
  destruct (tree_value _ _ _ _ Ht Hm) as (w4 & v4 & Hw4 & Hv4 & Hlen4). assert (w4 = w) as -> by congruence.
  assert (v4 = v) as -> by congruence.
  (* the second path starts with the same child and the same slots *)
  assert (exists vs3, vs' = v ++ vs3 /\ reach st m b ks2 vs3) as (vs3 & -> & Hr3).
  { destruct H' as [|n x1 c1 m1 w1 v1 b ks1 vs1 Hx1 Hc1 Hw1 Hv1 Hr1].
    - change (zlen (@nil tok)) with 0 in Hl'. lia.
    - rewrite Hx in Hx1. injection Hx1 as <-.
      destruct (tr_child _ _ _ Ht _ _ _ _ Hn Hx Hc1) as (Hm1 & Hm1r & w5 & Hw5 & _ & Eck1).
      assert (w5 = w1) as -> by congruence.
      assert (c1 = ck (page_size st) k) as Ec1.
      { rewrite Eck1. unfold ck, k. simpl. rewrite He, (reach_extra _ _ _ _ _ _ _ _ _ Ht Hm1 Hm1r Hr1 Hw1 Hz). f_equal.
        destruct (tr_node _ _ _ Ht m1 Hm1 Hm1r) as (w6 & p & px & Hw6 & T). assert (w6 = w1) as -> by congruence.
        pose proof (multiple_ge _ _ (tr_ps _ _ _ Ht) (tn_aligned _ _ _ _ _ _ T) (tn_pos _ _ _ _ _ _ T)) as HPw.
        pose proof (multiple_ge _ j (tr_ps _ _ _ Ht) Hmod ltac:(lia)) as HPj.
        assert (E : take (Z.to_nat (page_size st)) (take (Z.to_nat j) (token_ids (key w) ++ ks)) =
                    take (Z.to_nat (page_size st)) (take (Z.to_nat j) (token_ids (key w1) ++ ks1))) by (by rewrite Htake).
        rewrite !take_take, !Nat.min_l in E by lia. rewrite E, take_app_le; [done|]. unfold key_len, zlen in HPw. lia. }
      rewrite Ec1, Hc in Hc1. injection Hc1 as <-. assert (w1 = w) as -> by congruence.
      assert (v1 = v) as -> by congruence. exists vs1. split; [done|]. apply app_inv_head in Eks. by subst ks2. }
  subst ks'. set (l := key_len (key w)). rewrite zlen_app in Hl, Hl'.
  assert (Hlv : length v = length (token_ids (key w))) by (unfold key_len, zlen in Hlen4; lia).
  destruct (decide (j <= l)) as [Hjl|Hjl].
  { rewrite !take_app_le; [done|unfold l, key_len, zlen in *; lia..]. }
  rewrite !take_app_ge in Htake by (unfold l, key_len, zlen in *; lia).
  rewrite !take_app_ge by (unfold l, key_len, zlen in *; lia). f_equal. rewrite Hlv. apply app_inv_head in Htake.
  replace (Z.to_nat j - length (token_ids (key w)))%nat with (Z.to_nat (j - l)) in * by (unfold l, key_len, zlen; lia).
  destruct (tr_node _ _ _ Ht m Hm Hmr) as (w6 & p & px & Hw6 & T). assert (w6 = w) as -> by congruence.
  pose proof (tn_aligned _ _ _ _ _ _ T) as Hal. unfold aligned in Hal.
  eapply (IH w b z); try done; unfold l, key_len, zlen in *; try lia.
  rewrite Zminus_mod, Hmod, Hal, Z.sub_0_r. apply Z.mod_0_l. pose proof (tr_ps _ _ _ Ht). lia.
Qed.

Lemma stored_unique st L pl ek ks vs vs' :
  tree st L pl -> aligned (page_size st) ks -> stored st ek ks vs -> stored st ek ks vs' -> vs = vs'.
Proof.
  intros Ht Hal (a & x & fks & fvs & i & H1 & H2 & H3 & H4 & H5) (b & y & gks & gvs & i' & G1 & G2 & G3 & G4 & G5).
  pose proof (reach_len _ _ _ _ _ _ _ Ht (tr_root _ _ _ Ht) H1) as Ef.
  pose proof (reach_len _ _ _ _ _ _ _ Ht (tr_root _ _ _ Ht) G1) as Eg.
  destruct (tr_rootn _ _ _ Ht) as (r & Hr & _).
  assert (Hf : forall A (l : list A) i, take i l = take (i `min` length l) l).
  { intros A l n. destruct (Nat.min_spec n (length l)) as [[? ->]|[? ->]]; [done|]. by rewrite !take_ge by lia. }
  assert (El : (i `min` length fks = i' `min` length gks)%nat).
  { apply (f_equal length) in H4, G4. rewrite !length_take in H4, G4. lia. }
  rewrite H5, G5, (Hf _ fvs), (Hf _ gvs), <- Ef, <- Eg. rewrite <- El.
  rewrite (Hf _ fks) in H4. rewrite (Hf _ gks), <- El in G4. set (j := (i `min` length fks)%nat) in *.
  rewrite <- (Nat2Z.id j). eapply (reach_unique st L pl (root_node st) r a x fks fvs b y gks gvs (Z.of_nat j)); try done.
  - apply Ht.
  - congruence.
  - lia.
  - unfold aligned, zlen in Hal. rewrite H4, length_take in Hal. by replace (j `min` length fks)%nat with j in Hal by lia.
  - unfold zlen. lia.
  - unfold zlen. lia.
  - rewrite Nat2Z.id. congruence.
Qed.

(** ** The depth-first size *)

Definition child_list (x : TreeNode) : list nat := map snd (map_to_list (children x)).

Lemma elem_of_child_list x m : m ∈ child_list x <-> exists c, children x !! c = Some m.
Proof.
  unfold child_list. rewrite list_elem_of_fmap. split.
  - intros ([c m'] & -> & Hin). exists c. by apply elem_of_map_to_list.
  - intros [c Hc]. exists (c, m). split; [done|]. by apply elem_of_map_to_list.
Qed.

Section total.
Context (st : RadixCache) (L : gset nat) (pl : nat -> Z) (Ht : tree st L pl).

Lemma child_list_nodup n x : n ∈ L -> nodes st !! n = Some x -> NoDup (child_list x).
Proof.
  intros Hn Hx. unfold child_list. apply NoDup_fmap_2_strong; [|apply NoDup_map_to_list].
  intros [c1 m1] [c2 m2] H1%elem_of_map_to_list H2%elem_of_map_to_list. simpl. intros ->.
  destruct (tr_child _ _ _ Ht _ _ _ _ Hn Hx H1) as (_ & _ & y & Hy & _ & ->).
  destruct (tr_child _ _ _ Ht _ _ _ _ Hn Hx H2) as (_ & _ & z & Hz & _ & ->). congruence.
Qed.

Lemma child_list_spec n x m : n ∈ L -> nodes st !! n = Some x ->
  m ∈ child_list x <-> m ∈ L /\ m <> root_node st /\ exists y, nodes st !! m = Some y /\ parent y = Some n.
Proof.
  intros Hn Hx. rewrite elem_of_child_list. split.
  - intros [c Hc]. destruct (tr_child _ _ _ Ht _ _ _ _ Hn Hx Hc) as (H1 & H2 & y & Hy & Hp & _). eauto 10.
  - intros (Hm & Hr & y & Hy & Hp). destruct (tr_node _ _ _ Ht m Hm Hr) as (y' & p & px & Hy' & T).
    assert (y' = y) as -> by congruence. rewrite (tn_parent _ _ _ _ _ _ T) in Hp. injection Hp as ->.
    pose proof (tn_p _ _ _ _ _ _ T) as E. rewrite Hx in E. injection E as <-. eexists. apply T.
Qed.

(** [R] is what is still to be visited, below the nodes of the stack. *)
Record frontier (R : gset nat) (stack : list nat) : Prop := {
  fr_live : R ⊆ L;
  fr_nodup : NoDup stack;
  fr_stack : forall i, i ∈ stack -> i ∈ R /\
    (i <> root_node st -> forall y p, nodes st !! i = Some y -> parent y = Some p -> p ∉ R);
  fr_below : forall i, i ∈ R -> i ∉ stack -> i <> root_node st /\
    forall y p, nodes st !! i = Some y -> parent y = Some p -> p ∈ R;
  fr_done : forall i y p, i ∈ L -> i ∉ R -> i <> root_node st -> nodes st !! i = Some y -> parent y = Some p -> p ∉ R
}.

Lemma frontier_empty R : frontier R [] -> R = ∅.
Proof.
  intros [F1 _ _ F4 _]. apply set_eq. intros i. split; [|set_solver]. intros Hi. exfalso.
  destruct (path_ex st L pl Ht i (F1 i Hi)) as [P HP]. revert Hi. induction HP as [|n x p P Hnr Hx Hp _ IH]; intros Hi.
  - destruct (F4 _ Hi ltac:(apply not_elem_of_nil)) as [? _]. done.
  - destruct (F4 _ Hi ltac:(apply not_elem_of_nil)) as [_ H]. by apply IH, (H x).
Qed.

Lemma frontier_step R n x stack : frontier R (n :: stack) -> nodes st !! n = Some x ->
  frontier (R ∖ {[n]}) (rev (child_list x) ++ stack).
Proof.
  intros [F1 F2 F3 F4 F5] Hx. destruct (F3 n) as [HnR Hnp]; [by left|]. pose proof (F1 _ HnR) as HnL.
  apply list.NoDup_cons in F2 as [Hns F2].
  assert (Hc : forall m, m ∈ rev (child_list x) <-> m ∈ child_list x).
  { intros m. by rewrite <- (Permutation_rev (child_list x)). }
  assert (Hchild : forall m, m ∈ child_list x -> m ∈ R /\ m <> n /\ m ∉ stack).
  { intros m (HmL & Hmr & y & Hy & Hp)%(child_list_spec n x m HnL Hx).
    assert (m ∈ R) by (destruct (decide (m ∈ R)) as [|HmR]; [done|exfalso; exact (F5 m y n HmL HmR Hmr Hy Hp HnR)]).
    split_and!; [done| |].
    - intros ->. destruct (parent_live st L pl Ht n y n HnL Hmr Hy Hp) as (_ & ? & _). lia.
    - intros Hin. destruct (F3 m) as [_ H3]; [by right|]. by apply (H3 Hmr y n). }
  split.
  - set_solver.
  - apply list.NoDup_app. split; [|split; [|done]].
    + rewrite <- (Permutation_rev (child_list x)). by eapply child_list_nodup.
    + intros m Hm. by apply Hc, Hchild in Hm as (_ & _ & ?).
  - intros i [Hi|Hi]%elem_of_app.
    + apply Hc in Hi. destruct (Hchild i Hi) as (HR & Hne & _). split; [set_solver|]. intros _ y p Hy Hp.
      apply (child_list_spec n x i HnL Hx) in Hi as (_ & _ & y' & Hy' & Hp'). simplify_eq. set_solver.
    + destruct (F3 i) as [HR H3]; [by right|]. assert (i <> n) by (by intros ->). split; [set_solver|].
      intros Hr y p Hy Hp. specialize (H3 Hr y p Hy Hp). set_solver.
  - intros i Hi Hns'. assert (HiR : i ∈ R) by set_solver. assert (Hin : i <> n) by set_solver.
    rewrite elem_of_app, Hc in Hns'. destruct (F4 i HiR) as [Hr H4]; [rewrite elem_of_cons; tauto|].
    split; [done|]. intros y p Hy Hp. pose proof (H4 y p Hy Hp). enough (p <> n) by set_solver. intros ->.
    apply Hns'. left. apply (child_list_spec n x i HnL Hx). eauto 10.
  - intros i y p Hi HnR' Hr Hy Hp. destruct (decide (i = n)) as [->|Hin].
    + specialize (Hnp Hr y p Hy Hp). set_solver.
    + assert (i ∉ R) by set_solver. pose proof (F5 i y p Hi ltac:(done) Hr Hy Hp). set_solver.
Qed.

Definition value_len (x : TreeNode) : Z := zlen (default [] (value x)).

Lemma total_loop_spec fuel : forall R stack total,
  frontier R stack -> (size R < fuel)%nat -> total_loop fuel st stack total = Ok (total + node_sum value_len st R).
Proof.
  induction fuel as [|f IH]; intros R stack total HF Hf; [lia|]. cbn [total_loop]. destruct stack as [|n stack].
  { rewrite (frontier_empty R HF). unfold node_sum. rewrite elements_empty. simpl. by rewrite Z.add_0_r. }
  destruct (fr_stack _ _ HF n) as [HnR _]; [by left|]. pose proof (fr_live _ _ HF _ HnR) as HnL.
  destruct (tree_value _ _ _ _ Ht HnL) as (x & v & Hx & Hv & _).
  rewrite (deref_ok _ _ _ Hx). cbn [rbind]. rewrite (deref_value_ok _ _ Hv). cbn [rbind].
  assert (Efil : List.filter (fun c => match nodes st !! c with Some y => negb (evicted y) | None => false end)
     (map snd (map_to_list (children x))) = child_list x).
  { fold (child_list x). apply forallb_filter_id, forallb_forall. intros m Hm%list_elem_of_In.
    apply elem_of_child_list in Hm as [c Hc].
    destruct (tree_children _ _ _ _ _ Ht HnL Hx c m Hc) as (y & w & Hy & Hw). unfold evicted. by rewrite Hy, Hw. }
  rewrite Efil, (IH (R ∖ {[n]})).
  - f_equal. rewrite (node_sum_remove value_len st R n HnR), Hx. unfold value_len at 2. rewrite Hv. simpl. lia.
  - by apply frontier_step.
  - assert (size (R ∖ {[n]}) < size R)%nat; [|lia]. apply subset_size. set_solver.
Qed.

Lemma frontier_root : frontier L [root_node st].
Proof.
  destruct (tr_rootn _ _ _ Ht) as (r & Hr & Hp & _). split.
  - done.
  - apply NoDup_singleton.
  - intros i ->%list_elem_of_singleton. split; [apply Ht|done].
  - intros i Hi Hne. rewrite list_elem_of_singleton in Hne. split; [done|]. intros y p Hy Hp'.
    by destruct (parent_live st L pl Ht i y p Hi Hne Hy Hp') as (? & _).
  - intros i y p Hi Hni. done.
Qed.

Lemma total_size_spec : total_size st = Ok (node_sum value_len st L).
Proof.
  unfold total_size. rewrite (total_loop_spec _ L); [done|apply frontier_root|].
  assert (size L <= size (nodes st))%nat; [|lia]. rewrite <- size_dom. apply subseteq_size. intros i Hi.
  destruct (tree_value _ _ _ _ Ht Hi) as (y & _ & Hy & _). by apply elem_of_dom_2 in Hy.
Qed.

Lemma node_sum_add f g h : (forall n x, n ∈ L -> nodes st !! n = Some x -> f x = g x + h x) ->
  node_sum f st L = node_sum g st L + node_sum h st L.
Proof.
  intros H. unfold node_sum, zsum. assert (Hin : forall i, i ∈ elements L -> i ∈ L) by (intros i; by rewrite elem_of_elements).
  induction (elements L) as [|i l IH]; [done|]. simpl. rewrite IH by (intros j Hj; apply Hin; by right).
  destruct (nodes st !! i) as [x|] eqn:Ex; [|lia]. rewrite (H i x) by (done || apply Hin; by left). lia.
Qed.
End total.

Lemma total_size_acct st L pl H : rinv st L pl H -> total_size st = Ok (evictable_size_ st + protected_size_ st).
Proof.
  intros [Ht Hac _]. rewrite (total_size_spec st L pl Ht), (ac_evictable _ _ Hac), (ac_protected _ _ Hac). f_equal.
  apply node_sum_add. intros n x Hn Hx. destruct (tree_value _ _ _ _ Ht Hn) as (x' & v & Hx' & Hv & Hl).
  assert (x' = x) as -> by congruence. unfold value_len, unlocked_len, locked_len. rewrite Hv. simpl.
  destruct (lock_ref x =? 0); lia.
Qed.

(** ** The slots of the tree, depth first *)

Fixpoint slots_loop (fuel : nat) (st : RadixCache) (stack : list nat) (acc : list Z) : list Z :=
  match fuel, stack with
  | S f, n :: stack' =>
      match nodes st !! n with
      | Some x => slots_loop f st (rev (child_list x) ++ stack') (acc ++ default [] (value x))
      | None => acc
      end
  | _, _ => acc
  end.

Definition held_slots (st : RadixCache) : list Z := slots_loop (S (size (nodes st))) st [root_node st] [].

Lemma slots_loop_spec st L pl (Ht : tree st L pl) fuel : forall R stack acc,
  frontier st L R stack -> (size R < fuel)%nat -> slots_loop fuel st stack acc ≡ₚ acc ++ tree_slots st R.
Proof.
  induction fuel as [|f IH]; intros R stack acc HF Hf; [lia|]. cbn [slots_loop]. destruct stack as [|n stack].
  { rewrite (frontier_empty st L pl Ht R HF). unfold tree_slots. rewrite elements_empty. simpl. by rewrite app_nil_r. }
  destruct (fr_stack _ _ _ _ HF n) as [HnR _]; [by left|]. pose proof (fr_live _ _ _ _ HF _ HnR) as HnL.
  destruct (tree_value _ _ _ _ Ht HnL) as (x & v & Hx & Hv & _). rewrite Hx, Hv. simpl.
  rewrite (IH (R ∖ {[n]})).
  - rewrite (tree_slots_remove st R n HnR), (node_slots_value _ _ _ _ Hx Hv). by rewrite app_assoc.
  - by eapply frontier_step.
  - assert (size (R ∖ {[n]}) < size R)%nat; [|lia]. apply subset_size. set_solver.
Qed.

Lemma held_slots_perm st L pl : tree st L pl -> held_slots st ≡ₚ tree_slots st L.
Proof.
  intros Ht. unfold held_slots. rewrite (slots_loop_spec st L pl Ht _ L); [done|by eapply frontier_root|].
  assert (size L <= size (nodes st))%nat; [|lia]. rewrite <- size_dom. apply subseteq_size. intros i Hi.
  destruct (tree_value _ _ _ _ Ht Hi) as (y & _ & Hy & _). by apply elem_of_dom_2 in Hy.
Qed.
