(* ===== verification/RadixProps.v ===== *)
(** * Properties of the prefix cache

    The states the cache reaches through its public operations, and what those
    operations guarantee there. *)

From S2P Require Import Prelude Tensors RadixKeys RadixKeysTheory RadixCache RadixTheory RadixSplit RadixWalk RadixInsert RadixOps RadixLocks RadixEvict RadixFacts.

(** The key and the slots that [insert] stores: bigrams for EAGLE. *)
Definition ins_key (st : RadixCache) (k : RadixKey) : RadixKey := fst (maybe_bigram_convert (is_eagle st) k None).
Definition ins_val (st : RadixCache) (k : RadixKey) (v : list Z) : list Z :=
  default [] (snd (maybe_bigram_convert (is_eagle st) k (Some v))).

(** What callers of [insert] ensure: whole pages, one slot per token. *)
Definition insertable (st : RadixCache) (k : RadixKey) (v : list Z) : Prop :=
  aligned (page_size st) (token_ids (ins_key st k)) /\ zlen (ins_val st k v) = key_len (ins_key st k).

Section props.
Context (mono : nat -> Z) (gh : list tok -> option string -> string).

(** [rreach st H]: the cache state [st] is reached with the nodes in [H] locked. *)
Inductive rreach : RadixCache -> list nat -> Prop :=
  | rreach_init psize eagle nofin policy c st :
      1 <= psize -> init mono false psize false eagle nofin policy c = Ok st -> rreach st []
  | rreach_match st H k r st' :
      rreach st H -> match_prefix mono st k = Ok (r, st') -> rreach st' H
  | rreach_insert st H k v prio chunked m st' :
      rreach st H -> insertable st k v -> insert mono gh st k (Some v) prio chunked = Ok (m, st') -> rreach st' H
  | rreach_inc st H n ks vs d st' :
      rreach st H -> reach st (root_node st) n ks vs -> inc_lock_ref st n = Ok (d, st') -> rreach st' (n :: H)
  | rreach_dec st H n d st' :
      rreach st (n :: H) -> dec_lock_ref st n = Ok (d, st') -> rreach st' H
  | rreach_reset st H : rreach st H -> rreach (reset mono st) []
  | rreach_perm st H H' : rreach st H -> H ≡ₚ H' -> rreach st H'
  | rreach_evict {A} (fr : A -> list Z -> A) al st H want n al' st' :
      rreach st H -> evict gh fr al st want = Ok (n, al', st') -> rreach st' H.

Definition on_config (st : RadixCache) : Prop := disable st = false /\ enable_kv_cache_events st = false.

Lemma insert_spec st L pl k v prio chunked :
  tree st L pl -> acct st L -> on_config st -> insertable st k v ->
  exists m w st' L' pl', insert mono gh st k (Some v) prio chunked = Ok (m, st') /\
    inserted st L (ins_key st k) (ins_val st k v) st' L' pl' m w.
Proof.
  intros Ht Hac [Hd Hkv] [Ha Hl]. unfold insert. rewrite Hd. simpl.
  assert (Econv : maybe_bigram_convert (is_eagle st) k (Some v) = (ins_key st k, Some (ins_val st k v))).
  { unfold ins_key, ins_val, maybe_bigram_convert. by destruct (is_eagle st && negb (is_bigram k)). }
  rewrite Econv. simpl. by apply (insert_helper_spec mono gh st L pl).
Qed.

Lemma locks_perm st L H H' : H ≡ₚ H' -> locks st L H -> locks st L H'.
Proof.
  intros HP [K1 K2]. split; [intros h Hh; apply K1; by rewrite HP|].
  intros n x Hn Hr Hx. eapply holds_perm; [done|by apply K2].
Qed.

Lemma ext_rinv st L st' L' pl pl' H : ext st L st' L' pl' -> rinv st L pl H -> rinv st' L' pl' H.
Proof. intros He [H1 H2 H3]. split; [apply He|by apply He|by apply (ex_locks _ _ _ _ _ He)]. Qed.

Lemma ext_config st L st' L' pl' : ext st L st' L' pl' -> on_config st -> on_config st'.
Proof. intros He [H1 H2]. split; [by rewrite (ex_disable _ _ _ _ _ He)|by rewrite (ex_kv _ _ _ _ _ He)]. Qed.

Lemma relocked_config d D st st' : relocked d D st st' -> on_config st -> on_config st'.
Proof. intros Hr [H1 H2]. split; [by rewrite (rl_disable _ _ _ _ Hr)|by rewrite (rl_kv _ _ _ _ Hr)]. Qed.

Lemma rreach_inv st H : rreach st H -> on_config st /\ exists L pl, rinv st L pl H.
Proof.
  induction 1 as [psize eagle nofin policy c st Hp Hi|st H k r st' _ [Hc (L & pl & Hi)] Hm
    |st H k v prio chunked m st' _ [Hc (L & pl & Hi)] Hok Hins|st H n ks vs d st' _ [Hc (L & pl & Hi)] Hre Hinc
    |st H n d st' _ [Hc (L & pl & Hi)] Hdec|st H _ [Hc (L & pl & Hi)]|st H H' _ [Hc (L & pl & Hi)] HP|A fr al st H want n al' st' _ [Hc (L & pl & Hi)] Hev].
  - destruct (init_spec _ _ _ _ _ _ _ _ _ Hi Hp) as (H1 & _ & H2 & _ & H3). split; [done|]. eauto.
  - destruct (match_prefix_spec mono st L pl k (ri_tree _ _ _ _ Hi) (proj1 Hc)) as (r' & st2 & L' & pl' & E & He & _).
    rewrite Hm in E. injection E as <- <-. split; [by eapply ext_config|]. exists L', pl'. by eapply ext_rinv.
  - destruct (insert_spec st L pl k v prio chunked (ri_tree _ _ _ _ Hi) (ri_acct _ _ _ _ Hi) Hc Hok)
      as (m' & w & st2 & L' & pl' & E & Hin). rewrite Hins in E. injection E as <- <-.
    split; [split; [rewrite (in_disable _ _ _ _ _ _ _ _ _ Hin)|rewrite (in_kv _ _ _ _ _ _ _ _ _ Hin)]; apply Hc|].
    exists L', pl'. split; [apply Hin|apply Hin|]. apply (in_locks _ _ _ _ _ _ _ _ _ Hin), Hi.
  - assert (Hn : n ∈ L) by (eapply reach_live; [apply Hi|apply Hi|exact Hre]).
    destruct (inc_lock_ref_spec st L pl H n Hi Hn (proj1 Hc)) as (P & st2 & _ & E & Hi2 & Hr & _).
    rewrite Hinc in E. injection E as _ <-. split; [by eapply relocked_config|]. eauto.
  - destruct (dec_lock_ref_spec st L pl H n Hi (proj1 Hc)) as (P & st2 & _ & E & Hi2 & Hr & _).
    rewrite Hdec in E. injection E as _ <-. split; [by eapply relocked_config|]. eauto.
  - destruct (reset_spec mono st (tr_fresh _ _ _ (ri_tree _ _ _ _ Hi)) (tr_ps _ _ _ (ri_tree _ _ _ _ Hi))) as (H1 & _ & H2 & _ & H3).
    split; [split; [rewrite H2|rewrite H3]; apply Hc|]. eauto.
  - split; [done|]. exists L, pl. destruct Hi as [H1 H2 H3]. split; [done|done|by eapply locks_perm].
  - destruct (evict_spec gh fr al st L pl H want Hi (proj2 Hc) (proj1 Hc)) as (st2 & vs & E & He).
    rewrite Hev in E. injection E as _ _ <-. destruct (et_inv _ _ _ _ _ _ _ He) as (L' & Hi' & Hs).
    destruct (sh_config _ _ _ _ _ _ Hs) as (_ & _ & E1 & _ & E2 & _).
    split; [split; [rewrite E1|rewrite E2]; apply Hc|]. eauto.
Qed.

(** A lookup ends at a node of the tree. *)
Lemma match_reach st H k r st' : rreach st H -> match_prefix mono st k = Ok (r, st') ->
  rreach st' H /\ exists ks, reach st' (root_node st') (last_device_node r) ks (device_indices r).
Proof.
  intros Hr Hm. split; [by eapply rreach_match|]. destruct (rreach_inv st H Hr) as (Hc & L & pl & Hi).
  destruct (match_prefix_spec mono st L pl k (ri_tree _ _ _ _ Hi) (proj1 Hc)) as (r' & s & L' & pl' & E & He & _ & _ & _ & _ & _ & Hre & _).
  rewrite Hm in E. injection E as <- <-. rewrite (ex_root _ _ _ _ _ He). eexists. exact Hre.
Qed.

Lemma lookup_ins_key st k v : 1 <= page_size st -> insertable st k v ->
  token_ids (lookup_key st k) = token_ids (ins_key st k) /\ extra_key (lookup_key st k) = extra_key (ins_key st k) /\
  key_len (lookup_key st k) = key_len (ins_key st k).
Proof.
  intros HP [Ha _]. unfold lookup_key. fold (ins_key st k). set (q := ins_key st k) in *.
  destruct (page_size st =? 1); [done|]. unfold aligned in Ha. fold (key_len q) in Ha.
  replace (key_len q / page_size st * page_size st) with (key_len q) by dlia.
  pose proof (zlen_nonneg (token_ids q)) as H0. fold (key_len q) in H0.
  assert (E : token_ids (key_to q (key_len q)) = token_ids q).
  { rewrite key_to_tokens by done. apply take_ge. unfold key_len, zlen. lia. }
  split; [done|]. split; [done|]. unfold key_len at 1. by rewrite E.
Qed.

Lemma longest_key st k k' m :
  token_ids k = token_ids k' -> extra_key k = extra_key k' -> longest st k m -> longest st k' m.
Proof. unfold longest, key_len. by intros -> ->. Qed.

Lemma longest_max st k m m' w :
  longest st k m -> 0 <= m -> (0 < m' -> stored st (extra_key k) (take (Z.to_nat m') (token_ids k)) w) ->
  m' mod page_size st = 0 -> m' <= key_len k -> m' <= m.
Proof.
  intros Hl Hm Hs Hmod Hle. destruct (decide (0 < m')) as [Hp|]; [|lia].
  apply (Hl (take (Z.to_nat m') (token_ids k)) w); try done; [by apply Hs|lia].
Qed.

(** in every reachable state the two size counters account for the whole
    tree: the depth-first total equals evictable plus protected tokens. *)
Theorem counters_cover_tree st H : rreach st H ->
  total_size st = Ok (evictable_size st + protected_size st).
Proof. intros Hr. destruct (rreach_inv st H Hr) as (_ & L & pl & Hi). by eapply total_size_acct. Qed.

(** C16: [match_prefix] returns the slots of the longest prefix of the key, in
    whole pages, that the tree stores; the node it returns is the end of that
    prefix, and neither the stored content nor the counters change. *)
Theorem match_prefix_longest st H k : rreach st H ->
  exists r st', match_prefix mono st k = Ok (r, st') /\
    let q := lookup_key st k in let m := zlen (device_indices r) in
    m <= key_len q /\ m mod page_size st = 0 /\ longest st q m /\
    (0 < m -> stored st (extra_key q) (take (Z.to_nat m) (token_ids q)) (device_indices r)) /\
    reach st' (root_node st') (last_device_node r) (take (Z.to_nat m) (token_ids q)) (device_indices r) /\
    (forall ek ks vs, stored st' ek ks vs <-> stored st ek ks vs) /\
    evictable_size st' = evictable_size st /\ protected_size st' = protected_size st.
Proof.
  intros Hr. destruct (rreach_inv st H Hr) as (Hc & L & pl & Hi).
  destruct (match_prefix_spec mono st L pl k (ri_tree _ _ _ _ Hi) (proj1 Hc))
    as (r & st' & L' & pl' & E & He & H1 & H2 & H3 & H4 & H5 & H6 & _).
  exists r, st'. split; [done|]. rewrite (ex_root _ _ _ _ _ He). split_and!; try done; apply He.
Qed.

(** C17: [insert] returns the length of the longest prefix already stored,
    makes the rest evictable, and afterwards stores exactly what it stored
    before and the prefixes of the key: the old slots for the part that was
    there, the given slots for the rest. *)
Theorem insert_functional st H k v prio chunked : rreach st H -> insertable st k v ->
  exists m w st', insert mono gh st k (Some v) prio chunked = Ok (m, st') /\
    let q := ins_key st k in
    0 <= m <= key_len q /\ longest st q m /\ zlen w = m /\
    (0 < m -> stored st (extra_key q) (take (Z.to_nat m) (token_ids q)) w) /\
    evictable_size st' = evictable_size st + (key_len q - m) /\ protected_size st' = protected_size st /\
    (forall ek ks vs, stored st' ek ks vs <-> stored st ek ks vs \/
      0 < key_len q /\ ek = extra_key q /\
      exists j, ks = take j (token_ids q) /\ vs = take j (w ++ drop (Z.to_nat m) (ins_val st k v))).
Proof.
  intros Hr Hok. destruct (rreach_inv st H Hr) as (Hc & L & pl & Hi).
  destruct (insert_spec st L pl k v prio chunked (ri_tree _ _ _ _ Hi) (ri_acct _ _ _ _ Hi) Hc Hok)
    as (m & w & st' & L' & pl' & E & Hin).
  exists m, w, st'. split; [done|]. split_and!; apply Hin.
Qed.

Lemma zlen_0 (l : list Z) : zlen l = 0 -> l = [].
Proof. destruct l; [done|unfold zlen; simpl; lia]. Qed.

Lemma take_all {B} (l : list B) n : zlen l <= n -> take (Z.to_nat n) l = l.
Proof. intros Hn. apply take_ge. unfold zlen in Hn. lia. Qed.

(** Looking up a key right after its insertion. *)
Lemma insert_match st H k v prio chunked m st1 :
  rreach st H -> insertable st k v -> insert mono gh st k (Some v) prio chunked = Ok (m, st1) ->
  exists w r st2, match_prefix mono st1 k = Ok (r, st2) /\
    let q := ins_key st k in
    0 <= m <= key_len q /\ m mod page_size st = 0 /\ longest st q m /\ zlen w = m /\
    (0 < m -> stored st (extra_key q) (take (Z.to_nat m) (token_ids q)) w) /\
    device_indices r = w ++ drop (Z.to_nat m) (ins_val st k v) /\ zlen (device_indices r) = key_len q /\
    reach st2 (root_node st2) (last_device_node r) (token_ids q) (device_indices r) /\
    (0 < key_len q -> forall x, nodes st2 !! last_device_node r = Some x -> extra_key (key x) = extra_key q) /\
    (0 < key_len q -> stored st1 (extra_key q) (token_ids q) (device_indices r)) /\
    (forall ek ks vs, stored st ek ks vs -> stored st1 ek ks vs) /\ page_size st1 = page_size st.
Proof.
  intros Hr Hok E. destruct (rreach_inv st H Hr) as (Hc & L & pl & Hi).
  destruct (insert_spec st L pl k v prio chunked (ri_tree _ _ _ _ Hi) (ri_acct _ _ _ _ Hi) Hc Hok)
    as (m' & w & s & L1 & pl1 & E' & Hin). rewrite E in E'. injection E' as <- <-.
  pose proof Hin as [B1 B2 _ _ _ Bps _ Bd Be _ Bm Bmod Bl Bw Bs _ _ Bst].
  assert (Hd1 : disable st1 = false) by (rewrite Bd; apply Hc).
  destruct (match_prefix_spec mono st1 L1 pl1 k B1 Hd1) as (r & st2 & L2 & pl2 & E2 & He2 & D1 & D2 & D3 & D4 & _ & D5 & D6).
  assert (Ek1 : ins_key st1 k = ins_key st k) by (unfold ins_key; by rewrite Be).
  assert (Ev1 : ins_val st1 k v = ins_val st k v) by (unfold ins_val; by rewrite Be).
  assert (Hok1 : insertable st1 k v) by (unfold insertable; rewrite Ek1, Ev1, Bps; done).
  destruct (lookup_ins_key st1 k v (tr_ps _ _ _ B1) Hok1) as (U1 & U2 & U3).
  pose proof (longest_key _ _ _ _ U1 U2 D3) as D3'. rewrite U1, U2, U3, Ek1 in *. clear U1 U2 U3 Ek1 Ev1 Hok1 D3.
  destruct Hok as [Hal Hlv]. set (q := ins_key st k) in *. set (u := w ++ drop (Z.to_nat m) (ins_val st k v)) in *.
  assert (Eu : zlen u = key_len q) by (unfold u; rewrite zlen_app, Bw; unfold zlen in *; rewrite length_drop; lia).
  assert (Hall : 0 < key_len q -> stored st1 (extra_key q) (token_ids q) u).
  { intros Hp. apply Bst. right. split; [done|]. split; [done|]. exists (length (token_ids q)).
    rewrite !take_ge; [done| |done]. unfold key_len, zlen in Eu. lia. }
  assert (Elen : zlen (device_indices r) = key_len q).
  { apply Z.le_antisymm; [done|]. eapply (longest_max st1 q _ _ u); try done; [apply zlen_nonneg| |rewrite Bps; exact Hal].
    intros Hp. rewrite take_all by done. by apply Hall. }
  assert (Er : device_indices r = u).
  { destruct (decide (0 < key_len q)) as [Hp|Hz].
    - eapply (stored_unique st1 L1 pl1 (extra_key q) (token_ids q)); [done|by rewrite Bps| |by apply Hall].
      rewrite Elen, take_all in D4 by done. by apply D4.
    - pose proof (zlen_nonneg (device_indices r)). rewrite (zlen_0 (device_indices r)), (zlen_0 u) by lia. done. }
  rewrite Elen, take_all in * by done. exists w, r, st2. split; [done|]. rewrite (ex_root _ _ _ _ _ He2).
  split_and!; try done; try lia. intros ek ks vs Hs. apply Bst. by left.
Qed.

(** what is inserted is found again: looking a key up after inserting it
    yields a slot for every token, those found before the insertion followed by
    the inserted ones. *)
Theorem insert_then_match st H k v prio chunked : rreach st H -> insertable st k v ->
  exists r0 st0 m st1 r st2,
    match_prefix mono st k = Ok (r0, st0) /\ insert mono gh st0 k (Some v) prio chunked = Ok (m, st1) /\
    match_prefix mono st1 k = Ok (r, st2) /\
    m = zlen (device_indices r0) /\ zlen (device_indices r) = key_len (ins_key st k) /\
    device_indices r = device_indices r0 ++ drop (Z.to_nat m) (ins_val st k v).
Proof.
  intros Hr Hok. destruct (rreach_inv st H Hr) as (Hc & L & pl & Hi). pose proof (ri_tree _ _ _ _ Hi) as Ht.
  destruct (match_prefix_spec mono st L pl k Ht (proj1 Hc)) as (r0 & st0 & L0 & pl0 & E0 & He & A1 & A2 & A3 & A4 & _).
  pose proof (ext_config _ _ _ _ _ He Hc) as Hc0. pose proof (ext_rinv _ _ _ _ _ _ _ He Hi) as Hi0.
  pose proof (rreach_match _ _ _ _ _ Hr E0) as Hr0.
  assert (Ek0 : ins_key st0 k = ins_key st k) by (unfold ins_key; by rewrite (ex_eagle _ _ _ _ _ He)).
  assert (Ev0 : ins_val st0 k v = ins_val st k v) by (unfold ins_val; by rewrite (ex_eagle _ _ _ _ _ He)).
  assert (Hok0 : insertable st0 k v) by (unfold insertable; rewrite Ek0, Ev0, (ex_ps _ _ _ _ _ He); done).
  destruct (insert_spec st0 L0 pl0 k v prio chunked (ri_tree _ _ _ _ Hi0) (ri_acct _ _ _ _ Hi0) Hc0 Hok0)
    as (m & w' & st1 & L1 & pl1 & E1 & _).
  destruct (insert_match _ _ _ _ _ _ _ _ Hr0 Hok0 E1) as (w & r & st2 & E2 & Bm & Bmod & Bl & Bw & Bs & Er & Elen & _).
  rewrite Ek0, Ev0, (ex_ps _ _ _ _ _ He) in *.
  destruct (lookup_ins_key st k v (tr_ps _ _ _ Ht) Hok) as (T1 & T2 & T3).
  pose proof (longest_key _ _ _ _ T1 T2 A3) as A3'. rewrite T1, T2, T3 in *. set (q := ins_key st k) in *.
  pose proof (zlen_nonneg (device_indices r0)) as H0.
  assert (Em : m = zlen (device_indices r0)).
  { apply Z.le_antisymm.
    - eapply (longest_max st q _ m w); try done; [|lia]. intros Hp. apply (ex_stored _ _ _ _ _ He). by apply Bs.
    - eapply (longest_max st0 q _ _ (device_indices r0)); try done; [lia| |by rewrite (ex_ps _ _ _ _ _ He)].
      intros Hp. apply (ex_stored _ _ _ _ _ He). by apply A4. }
  exists r0, st0, m, st1, r, st2. split_and!; try done. rewrite Er. f_equal.
  destruct (decide (0 < m)) as [Hm|Hm]; [|by rewrite (zlen_0 w), (zlen_0 (device_indices r0)) by lia].
  eapply (stored_unique st L pl (extra_key q) (take (Z.to_nat m) (token_ids q))); [done| | |rewrite Em at 1; apply A4; lia].
  - unfold aligned. rewrite zlen_take by (unfold key_len in *; lia). done.
  - apply (ex_stored _ _ _ _ _ He). by apply Bs.
Qed.

(** C26: [evict] frees the slots of whole nodes until the request is met or
    nothing evictable is left; before the last node the request was not met.
    The evictable counter drops by what was freed, the protected one stays. *)
Theorem evict_enough {A} (fr : A -> list Z -> A) al st H want : rreach st H ->
  exists st' vs, evict gh fr al st want = Ok (zlen (concat vs), foldl fr al vs, st') /\
    (want <= zlen (concat vs) \/ evictable_size st' = 0) /\
    (forall us u, vs = us ++ [u] -> zlen (concat us) < want) /\
    evictable_size st' = evictable_size st - zlen (concat vs) /\ protected_size st' = protected_size st.
Proof.
  intros Hr. destruct (rreach_inv st H Hr) as (Hc & L & pl & Hi).
  destruct (evict_spec gh fr al st L pl H want Hi (proj2 Hc) (proj1 Hc)) as (st' & vs & E & [(L' & Hi' & Hs) H1 H2 _]).
  exists st', vs. split_and!; try done; apply Hs.
Qed.

(** C27: eviction never touches a locked node: every slot freed was held by an
    unlocked node of the tree, all other slots stay in the tree, and the path
    of every locked node keeps its tokens and slots. *)
Theorem evict_keeps_locked {A} (fr : A -> list Z -> A) al st H want : rreach st H ->
  exists st' vs L L', evict gh fr al st want = Ok (zlen (concat vs), foldl fr al vs, st') /\
    (forall i, i ∈ L <-> exists ks w, reach st (root_node st) i ks w) /\
    (forall i, i ∈ L' <-> exists ks w, reach st' (root_node st') i ks w) /\
    tree_slots st L ≡ₚ concat vs ++ tree_slots st' L' /\
    (forall h ks w, h ∈ H -> reach st (root_node st) h ks w -> reach st' (root_node st') h ks w) /\
    (forall ek ks w, stored st' ek ks w -> stored st ek ks w).
Proof.
  intros Hr. destruct (rreach_inv st H Hr) as (Hc & L & pl & Hi).
  destruct (evict_spec gh fr al st L pl H want Hi (proj2 Hc) (proj1 Hc)) as (st' & vs & E & [(L' & Hi' & Hs) _ _ _]).
  assert (Hlive : forall s M, tree s M pl -> forall i, i ∈ M <-> exists ks w, reach s (root_node s) i ks w).
  { intros s M Ht i. split.
    - intros HiM. destruct (path_ex s M pl Ht i HiM) as [P HP].
      induction HP as [|n x p P Hnr Hx Hp _ IH]; [exists [], []; constructor|].
      destruct (parent_live s M pl Ht n x p HiM Hnr Hx Hp) as (HpM & _ & v & _ & Hre).
      destruct (IH HpM) as (ks & w & Hre0). eexists _, _. by eapply reach_trans.
    - intros (ks & w & Hre). eapply reach_live; [done|apply Ht|done]. }
  exists st', vs, L, L'. destruct (sh_config _ _ _ _ _ _ Hs) as (_ & Ero & _). split_and!.
  - done.
  - apply (Hlive st L), Hi.
  - apply (Hlive st' L'), Hi'.
  - apply Hs.
  - intros h ks w Hh. rewrite Ero. by apply (sh_held _ _ _ _ _ _ Hs).
  - apply Hs.
Qed.

(** the first node evicted has the smallest priority, for the configured
    policy, of all evictable leaves. *)
Theorem evict_first_is_minimal {A} (fr : A -> list Z -> A) al st H want :
  rreach st H -> 0 < want -> 0 < evictable_size st ->
  exists st' v vs n x, evict gh fr al st want = Ok (zlen (concat (v :: vs)), foldl fr al (v :: vs), st') /\
    n ∈ evictable_leaves st /\ nodes st !! n = Some x /\ value x = Some v /\
    forall i y, i ∈ evictable_leaves st -> nodes st !! i = Some y ->
      lex_lt (get_priority (eviction_strategy st) y) (get_priority (eviction_strategy st) x) = false.
Proof.
  intros Hr Hw Hev. destruct (rreach_inv st H Hr) as (Hc & L & pl & Hi). unfold evictable_size in Hev.
  destruct (evict_spec gh fr al st L pl H want Hi (proj2 Hc) (proj1 Hc)) as (st' & vs & E & [(L' & Hi' & Hs) H1 _ H2]).
  destruct vs as [|v vs].
  - exfalso. pose proof (sh_ev _ _ _ _ _ _ Hs) as Ee. simpl in *. change (zlen (@nil Z)) with 0 in *. lia.
  - destruct (H2 v vs eq_refl) as (n & x & Hn & Hx & Hv & Hmin). exists st', v, vs, n, x. done.
Qed.

Lemma relocked_path d D st st' n P : relocked d D st st' -> path st' n P -> path st n P.
Proof.
  intros Hr. induction 1 as [|n x p P Hnr Hx Hp _ IH]; [rewrite (rl_root _ _ _ _ Hr); constructor|].
  destruct (relocked_back _ _ _ _ _ _ Hr Hx) as (y & Hy).
  destruct (relocked_lookup _ _ _ _ _ _ Hr Hy) as (x' & Hx' & _ & E2 & _). rewrite Hx in Hx'. injection Hx' as <-.
  rewrite (rl_root _ _ _ _ Hr) in Hnr. eapply path_up; [done|exact Hy|by rewrite <- E2|done].
Qed.

(** C28: locking the node of a lookup and releasing it is the identity on the
    tree, its counters and the set of evictable leaves; the size changes
    reported by the two calls are opposite. *)
Theorem lock_unlock_identity st H k : rreach st H ->
  exists r st1 d st2 st3, match_prefix mono st k = Ok (r, st1) /\
    inc_lock_ref st1 (last_device_node r) = Ok (- d, st2) /\
    dec_lock_ref st2 (last_device_node r) = Ok (d, st3) /\ 0 <= d /\
    evictable_size st2 = evictable_size st1 - d /\ protected_size st2 = protected_size st1 + d /\
    nodes st3 = nodes st1 /\ evictable_leaves st3 = evictable_leaves st1 /\
    evictable_size st3 = evictable_size st1 /\ protected_size st3 = protected_size st1.
Proof.
  intros Hr. destruct (rreach_inv st H Hr) as (Hc & L0 & pl0 & Hi0).
  destruct (match_prefix_spec mono st L0 pl0 k (ri_tree _ _ _ _ Hi0) (proj1 Hc)) as (r & st1 & L & pl & Em & He & _ & _ & _ & _ & Hn & _).
  pose proof (ext_config _ _ _ _ _ He Hc) as Hc1. pose proof (ext_rinv _ _ _ _ _ _ _ He Hi0) as Hi.
  set (n := last_device_node r) in *.
  destruct (inc_lock_ref_spec st1 L pl H n Hi Hn (proj1 Hc1)) as (P & st2 & HP & E1 & Hi2 & Hr2 & Ev2 & Pr2).
  pose proof (relocked_config _ _ _ _ Hr2 Hc1) as Hc2.
  destruct (dec_lock_ref_spec st2 L pl H n Hi2 (proj1 Hc2)) as (P' & st3 & HP' & E2 & Hi3 & Hr3 & Ev3 & Pr3).
  assert (P' = P) as -> by exact (path_fun _ _ _ _ (relocked_path _ _ _ _ _ _ Hr2 HP') HP).
  destruct (path_props st1 L pl (ri_tree _ _ _ _ Hi) n P HP Hn) as [_ Hall].
  assert (Es : path_sum last_len st2 P = path_sum unlocked_len st1 P).
  { unfold path_sum. f_equal. apply map_ext_in. intros i HiP%list_elem_of_In. unfold on_node. rewrite (rl_nodes _ _ _ _ Hr2).
    rewrite decide_True by (by apply elem_of_list_to_set). destruct (nodes st1 !! i) as [x|]; [|done]. simpl.
    unfold last_len, unlocked_len. simpl. bool_lia. }
  pose proof (relocked_undo _ _ _ _ Hr2 Hr3) as En.
  exists r, st1, (path_sum unlocked_len st1 P), st2, st3. unfold evictable_size, protected_size. rewrite Es in *.
  split_and!; try done; try lia.
  - assert (Hp : forall i x, i ∈ P -> nodes st1 !! i = Some x -> 0 <= unlocked_len x).
    { intros i x _ _. unfold unlocked_len, key_len. pose proof (zlen_nonneg (token_ids (key x))). destruct (lock_ref x =? 0); lia. }
    unfold path_sum, zsum. clear - Hp. induction P as [|i P IH]; [done|]. simpl.
    assert (0 <= on_node unlocked_len st1 i) by (unfold on_node; destruct (nodes st1 !! i) eqn:E; [eapply Hp; [by left|done]|done]).
    assert (0 <= foldr Z.add 0 (map (on_node unlocked_len st1) P)) by (apply IH; intros j x Hj; apply Hp; by right). lia.
  - apply set_eq. intros i. rewrite (ac_leaves _ _ (ri_acct _ _ _ _ Hi3)), (ac_leaves _ _ (ri_acct _ _ _ _ Hi)).
    by rewrite (is_leaf_eq st1) by (by rewrite En).
Qed.
End props.

(** ** A concrete run *)

Definition ok_or {A} (d : A) (r : result A) : A := match r with Ok a => a | Err _ => d end.
Definition plain_key (l : list Z) : RadixKey :=
  {| token_ids := map (fun t => (t, None)) l; extra_key := None; is_bigram := false |}.
Definition clock (i : nat) : Z := Z.of_nat i.
Definition no_hash (_ : list tok) (_ : option string) : string := EmptyString.

Definition demo0 : result RadixCache := init clock false 1 false false false "lru" 0.
Definition demo1 : result RadixCache :=
  let! st := demo0 in
  let! (_, st) := insert clock no_hash st (plain_key [1; 2; 3]) (Some [11; 12; 13]) None false in Ok st.
Definition demo2 : result RadixCache :=
  let! st := demo1 in
  let! (_, st) := insert clock no_hash st (plain_key [1; 2; 4; 5]) (Some [21; 22; 24; 25]) None false in Ok st.
Definition demo3 : result RadixCache :=
  let! st := demo2 in
  let! (r, st) := match_prefix clock st (plain_key [1; 2; 3; 9]) in
  let! (_, st) := inc_lock_ref st (last_device_node r) in Ok st.

Definition blank : RadixCache :=
  {| disable := false; page_size := 1; enable_kv_cache_events := false; is_eagle := false;
     disable_finished_insert := false; eviction_strategy := LRUStrategy; nodes := ∅; root_node := 0;
     counter := 0; ticks := 0; evictable_size_ := 0; protected_size_ := 0; evictable_leaves := ∅; kv_event_queue := [] |}.

Lemma demo_insertable st k v :
  page_size st = 1 -> is_eagle st = false -> zlen v = zlen (token_ids k) -> insertable st k v.
Proof.
  intros Hp He Hl. unfold insertable, ins_key, ins_val, maybe_bigram_convert. rewrite He, Hp. simpl.
  split; [apply Z.mod_1_r|done].
Qed.

(** Two branches below a common prefix, one of them locked. *)
Definition demo : RadixCache := ok_or blank demo3.

Lemma demo_reach : rreach clock no_hash demo [1%nat].
Proof.
  assert (R0 : rreach clock no_hash (ok_or blank demo0) []).
  { eapply (rreach_init _ _ 1 false false "lru" 0); [lia|]. vm_compute. reflexivity. }
  assert (R1 : rreach clock no_hash (ok_or blank demo1) []).
  { eapply (rreach_insert _ _ _ _ (plain_key [1; 2; 3]) [11; 12; 13] None false); [exact R0| |].
    - apply demo_insertable; vm_compute; reflexivity.
    - vm_compute. reflexivity. }
  assert (R2 : rreach clock no_hash (ok_or blank demo2) []).
  { eapply (rreach_insert _ _ _ _ (plain_key [1; 2; 4; 5]) [21; 22; 24; 25] None false); [exact R1| |].
    - apply demo_insertable; vm_compute; reflexivity.
    - vm_compute. reflexivity. }
  assert (R3 : rreach clock no_hash demo [last_device_node {| device_indices := [11; 12; 13]; last_device_node := 1 |}]);
    [|exact R3].
  destruct (match_prefix clock (ok_or blank demo2) (plain_key [1; 2; 3; 9])) as [[r st1]|] eqn:Em; [|vm_compute in Em; done].
  destruct (match_reach _ _ _ _ _ _ _ R2 Em) as [Rm (ks & Hre)].
  vm_compute in Em. injection Em as <- <-. eapply rreach_inc; [exact Rm|exact Hre|]. vm_compute. reflexivity.
Qed.

Lemma counters_cover_tree_witness :
  rreach clock no_hash demo [1%nat] /\ total_size demo = Ok (evictable_size demo + protected_size demo).
Proof. split; [exact demo_reach|exact (counters_cover_tree clock no_hash demo [1%nat] demo_reach)]. Defined.

Lemma match_prefix_longest_witness :
  exists r st', match_prefix clock demo (plain_key [1; 2; 4; 7]) = Ok (r, st') /\ evictable_size st' = evictable_size demo.
Proof.
  destruct (match_prefix_longest clock no_hash demo [1%nat] (plain_key [1; 2; 4; 7]) demo_reach)
    as (r & st' & E & _ & _ & _ & _ & _ & _ & E2 & _). exists r, st'. split; [exact E|exact E2].
Defined.

Lemma insert_functional_witness :
  exists m st', insert clock no_hash demo (plain_key [1; 2; 4; 7]) (Some [31; 32; 34; 37]) None false = Ok (m, st') /\
    evictable_size st' = evictable_size demo + (4 - m).
Proof.
  destruct (insert_functional clock no_hash demo [1%nat] (plain_key [1; 2; 4; 7]) [31; 32; 34; 37] None false demo_reach
    ltac:(apply demo_insertable; vm_compute; reflexivity)) as (m & w & st' & E & _ & _ & _ & _ & E2 & _).
  exists m, st'. split; [exact E|exact E2].
Defined.

Lemma insert_then_match_witness :
  exists r0 st0 m st1 r st2,
    match_prefix clock demo (plain_key [1; 2; 4; 7]) = Ok (r0, st0) /\
    insert clock no_hash st0 (plain_key [1; 2; 4; 7]) (Some [31; 32; 34; 37]) None false = Ok (m, st1) /\
    match_prefix clock st1 (plain_key [1; 2; 4; 7]) = Ok (r, st2) /\
    device_indices r = device_indices r0 ++ drop (Z.to_nat m) [31; 32; 34; 37].
Proof.
  destruct (insert_then_match clock no_hash demo [1%nat] (plain_key [1; 2; 4; 7]) [31; 32; 34; 37] None false demo_reach
    ltac:(apply demo_insertable; vm_compute; reflexivity)) as (r0 & st0 & m & st1 & r & st2 & E1 & E2 & E3 & _ & _ & E4).
  exists r0, st0, m, st1, r, st2. split; [exact E1|]. split; [exact E2|]. split; [exact E3|exact E4].
Defined.

Lemma evict_enough_witness :
  exists st' vs, evict no_hash (fun (a : list (list Z)) v => a ++ [v]) [] demo 100 =
      Ok (zlen (concat vs), foldl (fun (a : list (list Z)) v => a ++ [v]) [] vs, st') /\
    evictable_size st' = evictable_size demo - zlen (concat vs).
Proof.
  destruct (evict_enough clock no_hash (fun (a : list (list Z)) v => a ++ [v]) [] demo [1%nat] 100 demo_reach)
    as (st' & vs & E & _ & _ & E2 & _). exists st', vs. split; [exact E|exact E2].
Defined.

Lemma evict_keeps_locked_witness :
  exists st' vs, evict no_hash (fun (a : list (list Z)) v => a ++ [v]) [] demo 100 =
      Ok (zlen (concat vs), foldl (fun (a : list (list Z)) v => a ++ [v]) [] vs, st') /\
    forall ks w, reach demo (root_node demo) 1 ks w -> reach st' (root_node st') 1 ks w.
Proof.
  destruct (evict_keeps_locked clock no_hash (fun (a : list (list Z)) v => a ++ [v]) [] demo [1%nat] 100 demo_reach)
    as (st' & vs & L & L' & E & _ & _ & _ & Hk & _). exists st', vs. split; [exact E|].
  intros ks w. apply Hk. by left.
Defined.

Lemma evict_first_is_minimal_witness :
  exists st' v vs, evict no_hash (fun (a : list (list Z)) v => a ++ [v]) [] demo 1 =
      Ok (zlen (concat (v :: vs)), foldl (fun (a : list (list Z)) v => a ++ [v]) [] (v :: vs), st').
Proof.
  destruct (evict_first_is_minimal clock no_hash (fun (a : list (list Z)) v => a ++ [v]) [] demo [1%nat] 1 demo_reach
    ltac:(lia) ltac:(vm_compute; reflexivity)) as (st' & v & vs & n & x & E & _). exists st', v, vs. exact E.
Defined.

Lemma lock_unlock_identity_witness :
  exists r st1 d st2 st3, match_prefix clock demo (plain_key [1; 2; 4]) = Ok (r, st1) /\
    inc_lock_ref st1 (last_device_node r) = Ok (- d, st2) /\ dec_lock_ref st2 (last_device_node r) = Ok (d, st3) /\
    nodes st3 = nodes st1.
Proof.
  destruct (lock_unlock_identity clock no_hash demo [1%nat] (plain_key [1; 2; 4]) demo_reach)
    as (r & st1 & d & st2 & st3 & E1 & E2 & E3 & _ & _ & _ & E4 & _).
  exists r, st1, d, st2, st3. split; [exact E1|]. split; [exact E2|]. split; [exact E3|exact E4].
Defined.
