(* ===== verification/Request.v ===== *)
(** * Requests

    Models the part of class [Req] of [srt/managers/schedule_batch.py] that the
    memory management, the scheduler and the stop conditions use.  The fields
    are those of the class, grouped by what changes together.  Time statistics
    are reduced to the time of entry into the waiting queue; the tokenizer and
    the regular-expression matcher are parameters. *)

From S2P Require Import Prelude Tensors RadixKeys RadixCache.

Inductive FinishReason :=
  | FINISH_MATCHED_TOKEN (matched : Z)
  | FINISH_MATCHED_STR (matched : string)
  | FINISHED_MATCHED_REGEX (matched : string)
  | FINISH_LENGTH (len : Z)
  | FINISH_ABORT (message : string).

Definition is_error (f : FinishReason) : bool := match f with FINISH_ABORT _ => true | _ => false end.

(** [stop_token_ids] is a set: a list without order or repetition. *)
Record SamplingParams := {
  max_new_tokens : Z;
  ignore_eos : bool;
  stop_token_ids : list Z;
  stop_strs : list string;
  stop_regex_strs : list string;
  stop_str_max_len : Z;
  stop_regex_max_len : Z
}.

(** KV memory held by the request. *)
Record ReqKV := {
  req_pool_idx : option Z;
  kv_committed_len : Z;
  kv_allocated_len : Z;
  kv_committed_freed : bool;
  kv_overallocated_freed : bool
}.

(** The cached prefix and the tokens of the next prefill. *)
Record ReqPrefix := {
  fill_ids : list Z;
  prefix_indices : list Z;
  last_node : option nat;
  host_hit_length : Z;
  cache_protected_len : Z;
  extend_input_len : Z;
  extend_logprob_start_len : Z;
  is_chunked : Z
}.

Record ReqFinish := {
  finished_reason : option FinishReason;
  finished_len : option Z;
  to_finish : option FinishReason
}.

Record ReqRetract := { is_retracted : bool; retracted_stain : bool; retraction_count : Z }.

Record ReqStatic := {
  rid : string;
  sampling_params : SamplingParams;
  extra_key : option string;
  routing_key : option string;
  priority : option Z;
  eos_token_ids : list Z;
  vocab_size : Z;
  wait_queue_entry_time : Z;
  has_input_embeds : bool;
  return_logprob : bool
}.

Record Req := {
  info : ReqStatic;
  origin_input_ids : list Z;
  output_ids : list Z;
  logprob_start_len : Z;
  decoded_text : string;
  triaxial_bits : option (list Z);
  kv : ReqKV;
  pre : ReqPrefix;
  fin : ReqFinish;
  retract : ReqRetract
}.

Definition set_kv (r : Req) (k : ReqKV) : Req :=
  {| info := info r; origin_input_ids := origin_input_ids r; output_ids := output_ids r;
     logprob_start_len := logprob_start_len r; decoded_text := decoded_text r; triaxial_bits := triaxial_bits r;
     kv := k; pre := pre r; fin := fin r; retract := retract r |}.

Definition set_pre (r : Req) (p : ReqPrefix) : Req :=
  {| info := info r; origin_input_ids := origin_input_ids r; output_ids := output_ids r;
     logprob_start_len := logprob_start_len r; decoded_text := decoded_text r; triaxial_bits := triaxial_bits r;
     kv := kv r; pre := p; fin := fin r; retract := retract r |}.

Definition set_fin (r : Req) (f : ReqFinish) : Req :=
  {| info := info r; origin_input_ids := origin_input_ids r; output_ids := output_ids r;
     logprob_start_len := logprob_start_len r; decoded_text := decoded_text r; triaxial_bits := triaxial_bits r;
     kv := kv r; pre := pre r; fin := f; retract := retract r |}.

Definition set_output (r : Req) (o : list Z) : Req :=
  {| info := info r; origin_input_ids := origin_input_ids r; output_ids := o;
     logprob_start_len := logprob_start_len r; decoded_text := decoded_text r; triaxial_bits := triaxial_bits r;
     kv := kv r; pre := pre r; fin := fin r; retract := retract r |}.

Definition set_req_pool_idx (r : Req) (i : option Z) : Req :=
  set_kv r {| req_pool_idx := i; kv_committed_len := kv_committed_len (kv r);
              kv_allocated_len := kv_allocated_len (kv r); kv_committed_freed := kv_committed_freed (kv r);
              kv_overallocated_freed := kv_overallocated_freed (kv r) |}.

Definition set_prefix (p : ReqPrefix) (ids : list Z) (node : option nat) (host prot : Z) : ReqPrefix :=
  {| fill_ids := fill_ids p; prefix_indices := ids; last_node := node; host_hit_length := host;
     cache_protected_len := prot; extend_input_len := extend_input_len p;
     extend_logprob_start_len := extend_logprob_start_len p; is_chunked := is_chunked p |}.

Definition set_fill_ids (p : ReqPrefix) (f : list Z) : ReqPrefix :=
  {| fill_ids := f; prefix_indices := prefix_indices p; last_node := last_node p;
     host_hit_length := host_hit_length p; cache_protected_len := cache_protected_len p;
     extend_input_len := extend_input_len p; extend_logprob_start_len := extend_logprob_start_len p;
     is_chunked := is_chunked p |}.

(** ** Memory bookkeeping *)

Definition seqlen (r : Req) : Z := zlen (origin_input_ids r) + zlen (output_ids r).

Definition pop_committed_kv_cache (r : Req) : result (Z * Req) :=
  let k := kv r in
  let! _ := rassert (negb (kv_committed_freed k)) in
  Ok (kv_committed_len k,
      set_kv r {| req_pool_idx := req_pool_idx k; kv_committed_len := kv_committed_len k;
                  kv_allocated_len := kv_allocated_len k; kv_committed_freed := true;
                  kv_overallocated_freed := kv_overallocated_freed k |}).

Definition pop_overallocated_kv_cache (r : Req) : result (Z * Z * Req) :=
  let k := kv r in
  let! _ := rassert (negb (kv_overallocated_freed k)) in
  Ok (kv_committed_len k, kv_allocated_len k,
      set_kv r {| req_pool_idx := req_pool_idx k; kv_committed_len := kv_committed_len k;
                  kv_allocated_len := kv_allocated_len k; kv_committed_freed := kv_committed_freed k;
                  kv_overallocated_freed := true |}).

(** ** The next prefill *)

Definition set_extend_input_len (r : Req) (n : Z) : Req :=
  let p := pre r in
  let start := if logprob_start_len r =? -1 then zlen (fill_ids p)
               else Z.max (logprob_start_len r) (zlen (prefix_indices p)) in
  set_pre r {| fill_ids := fill_ids p; prefix_indices := prefix_indices p; last_node := last_node p;
               host_hit_length := host_hit_length p; cache_protected_len := cache_protected_len p;
               extend_input_len := n;
               extend_logprob_start_len := Z.min (start - zlen (prefix_indices p)) n;
               is_chunked := is_chunked p |}.

Definition req_key (ids : list Z) (ek : option string) : RadixKey :=
  {| token_ids := map (fun t => (t, None)) ids; RadixKeys.extra_key := ek; is_bigram := false |}.

(** The tokens that may be matched: all but the last, and none past the start
    of the requested log probabilities. *)
Definition match_ids (r : Req) : list Z :=
  let fill := origin_input_ids r ++ output_ids r in
  let max_prefix_len := zlen fill - 1 in
  let max_prefix_len := if return_logprob (info r) && (0 <=? logprob_start_len r)
                        then Z.min max_prefix_len (logprob_start_len r) else max_prefix_len in
  slice_to fill (Z.max max_prefix_len 0).

(** [init_next_round_input] with the radix cache as the tree cache. *)
Definition init_next_round_input (monotonic : nat -> Z) (r : Req) (tree : option RadixCache)
  : result (Req * option RadixCache) :=
  let fill := origin_input_ids r ++ output_ids r in
  let r1 := set_pre r (set_fill_ids (pre r) fill) in
  let! (r2, tree') :=
    match tree with
    | None => Ok (r1, None)
    | Some st =>
        let! (m, st') := match_prefix monotonic st (req_key (match_ids r) (extra_key (info r))) in
        Ok (set_pre r1 (set_prefix (pre r1) (device_indices m) (Some (last_device_node m)) 0
                          (zlen (device_indices m))), Some st')
    end in
  Ok (set_extend_input_len r2 (zlen fill - zlen (prefix_indices (pre r2))), tree').

Definition reset_for_retract (r : Req) : Req :=
  {| info := info r; origin_input_ids := origin_input_ids r;
     output_ids := if has_input_embeds (info r) then [] else output_ids r;
     logprob_start_len := logprob_start_len r; decoded_text := decoded_text r; triaxial_bits := triaxial_bits r;
     kv := {| req_pool_idx := req_pool_idx (kv r); kv_committed_len := 0; kv_allocated_len := 0;
              kv_committed_freed := false; kv_overallocated_freed := false |};
     pre := {| fill_ids := fill_ids (pre r); prefix_indices := []; last_node := None;
               host_hit_length := host_hit_length (pre r); cache_protected_len := cache_protected_len (pre r);
               extend_input_len := 0; extend_logprob_start_len := 0; is_chunked := 0 |};
     fin := fin r;
     retract := {| is_retracted := true; retracted_stain := true;
                   retraction_count := retraction_count (retract r) + 1 |} |}.

Definition set_finish_with_abort (r : Req) (msg : string) : Req :=
  let s := info r in
  {| info := {| rid := rid s; sampling_params := sampling_params s; extra_key := extra_key s; routing_key := routing_key s;
                priority := priority s; eos_token_ids := eos_token_ids s; vocab_size := vocab_size s;
                wait_queue_entry_time := wait_queue_entry_time s; has_input_embeds := has_input_embeds s;
                return_logprob := false |};
     origin_input_ids := [0]; output_ids := output_ids r; logprob_start_len := -1; decoded_text := decoded_text r;
     triaxial_bits := triaxial_bits r; kv := kv r; pre := pre r;
     fin := {| finished_reason := finished_reason (fin r); finished_len := finished_len (fin r);
               to_finish := Some (FINISH_ABORT msg) |};
     retract := retract r |}.

(** ** Stop conditions *)

Definition finished (r : Req) : bool := match finished_reason (fin r) with Some _ => true | None => false end.

Definition set_finished (r : Req) (f : FinishReason) (len : option Z) : Req :=
  set_fin r {| finished_reason := Some f;
               finished_len := match len with Some l => Some l | None => finished_len (fin r) end;
               to_finish := to_finish (fin r) |}.

Definition output_ids_through_stop (r : Req) : list Z :=
  match finished_len (fin r) with Some n => slice_to (output_ids r) n | None => output_ids r end.

(** [sub in s] *)
Fixpoint contains (sub s : string) : bool :=
  String.prefix sub s || match s with EmptyString => false | String _ s' => contains sub s' end.

(** The tokenizer: its end-of-sequence id and additional stop ids. *)
Record Tokenizer := { eos_token_id : option Z; additional_stop_token_ids : list Z }.

Section stop.
Context (tokenizer : option Tokenizer) (decode : list Z -> string) (re_search : string -> string -> bool).

Definition tail_str (r : Req) : string :=
  let s := sampling_params (info r) in
  if (zlen (stop_strs s) =? 0) && (zlen (stop_regex_strs s) =? 0) then EmptyString
  else
    let max_len := Z.max (stop_str_max_len s + 1) (stop_regex_max_len s + 1) in
    let tail_len := Z.min max_len (zlen (output_ids r)) in
    decode (slice_from (output_ids r) (- tail_len)).

Definition mem (t : Z) (l : list Z) : bool := existsb (Z.eqb t) l.

Definition token_stops (r : Req) (t : Z) : bool :=
  mem t (stop_token_ids (sampling_params (info r))) || mem t (eos_token_ids (info r)) ||
  match tokenizer with
  | Some tk => match eos_token_id tk with Some e => t =? e | None => false end || mem t (additional_stop_token_ids tk)
  | None => false
  end.

(** First new token that stops the request; [i] is its position. *)
Fixpoint find_stop (r : Req) (i : Z) (ts : list Z) : option (Z * Z) :=
  match ts with
  | [] => None
  | t :: ts' => if token_stops r t then Some (t, i) else find_stop r (i + 1) ts'
  end.

Definition check_token_based_finish (r : Req) (new : list Z) : bool * Req :=
  if ignore_eos (sampling_params (info r)) then (false, r)
  else match find_stop r (zlen (output_ids r) - zlen new) new with
       | Some (t, pos) => (true, set_finished r (FINISH_MATCHED_TOKEN t) (Some (pos + 1)))
       | None => (false, r)
       end.

Definition invalid_token (r : Req) (t : Z) : bool := (vocab_size (info r) <? t) || (t <? 0).

Fixpoint find_invalid (r : Req) (i : Z) (ts : list Z) : option Z :=
  match ts with
  | [] => None
  | t :: ts' => if invalid_token r t then Some i else find_invalid r (i + 1) ts'
  end.

Definition check_vocab_boundary_finish (r : Req) (new : list Z) : bool * Req :=
  match find_invalid r (zlen (output_ids r) - zlen new) new with
  | Some off =>
      let o := output_ids r in
      let stops := stop_token_ids (sampling_params (info r)) in
      let o1 := match stops with [] => o | t :: _ => set_at o off t end in
      let o2 := match eos_token_ids (info r) with [] => o1 | t :: _ => set_at o1 off t end in
      (true, set_finished (set_output r o2) (FINISH_MATCHED_STR "NaN happened") (Some (off + 1)))
  | None => (false, r)
  end.

Definition check_str_based_finish (r : Req) : bool * Req :=
  let s := sampling_params (info r) in
  if (0 <? zlen (stop_strs s)) || (0 <? zlen (stop_regex_strs s)) then
    let tail := tail_str r in
    match List.find (fun x => contains x tail || contains x (decoded_text r)) (stop_strs s) with
    | Some x => (true, set_finished r (FINISH_MATCHED_STR x) None)
    | None =>
        match List.find (fun x => re_search x tail) (stop_regex_strs s) with
        | Some x => (true, set_finished r (FINISHED_MATCHED_REGEX x) None)
        | None => (false, r)
        end
    end
  else (false, r).

(** [grammar]: [None] without a grammar, else whether it is terminated. *)
Definition check_finished (grammar : option bool) (r : Req) (new_accepted_len : Z) : result Req :=
  if finished r then Ok r
  else
    match to_finish (fin r) with
    | Some f => Ok (set_fin r {| finished_reason := Some f; finished_len := finished_len (fin r); to_finish := None |})
    | None =>
        let m := max_new_tokens (sampling_params (info r)) in
        if m <=? zlen (output_ids r) then Ok (set_finished r (FINISH_LENGTH m) (Some m))
        else if default false grammar then
          let! t := py_get (output_ids r) (-1) in
          Ok (set_finished r (FINISH_MATCHED_TOKEN t) None)
        else
          let new := slice_from (output_ids r) (- new_accepted_len) in
          let (b1, r1) := check_token_based_finish r new in
          if b1 then Ok r1
          else
            let (b2, r2) := check_vocab_boundary_finish r1 new in
            if b2 then Ok r2 else Ok (snd (check_str_based_finish r2))
    end.

(** The end of the decoded tail is the beginning of a stop string. *)
Definition str_from (s : string) (n : nat) : string := String.substring n (String.length s - n) s.

Definition overlaps (tail stop : string) : bool :=
  existsb (fun i => String.eqb (str_from tail (String.length tail - i)) (String.substring 0 i stop))
    (seq 1 (Nat.min (String.length tail) (String.length stop))).

Definition check_match_stop_str_prefix (r : Req) : bool :=
  match stop_strs (sampling_params (info r)) with
  | [] => false
  | stops =>
      let tail := tail_str r in
      if String.eqb tail EmptyString then false
      else existsb (fun x => negb (String.eqb x EmptyString) && (contains x tail || overlaps tail x)) stops
  end.

(** ** The stop conditions, specified *)

Lemma find_stop_spec r ts i :
  match find_stop r i ts with
  | Some (t, pos) => List.find (token_stops r) ts = Some t /\
      exists a b, ts = a ++ t :: b /\ Forall (fun x => token_stops r x = false) a /\ pos = i + zlen a
  | None => List.find (token_stops r) ts = None
  end.
Proof.
  revert i. induction ts as [|t ts IH]; intros i; simpl; [done|].
  destruct (token_stops r t) eqn:E.
  - split; [done|]. exists [], ts. split_and!; try done. change (zlen []) with 0. lia.
  - specialize (IH (i + 1)). destruct (find_stop r (i + 1) ts) as [[u pos]|]; [|done].
    destruct IH as (Hf & a & b & -> & Ha & ->). split; [done|]. exists (t :: a), b.
    split_and!; [done|by constructor|rewrite zlen_cons; lia].
Qed.

Lemma find_invalid_spec r ts i :
  match find_invalid r i ts with
  | Some pos => exists a t b, List.find (invalid_token r) ts = Some t /\ ts = a ++ t :: b /\
      Forall (fun x => invalid_token r x = false) a /\ pos = i + zlen a
  | None => List.find (invalid_token r) ts = None
  end.
Proof.
  revert i. induction ts as [|t ts IH]; intros i; simpl; [done|].
  destruct (invalid_token r t) eqn:E.
  - exists [], t, ts. split_and!; try done. change (zlen []) with 0. lia.
  - specialize (IH (i + 1)). destruct (find_invalid r (i + 1) ts) as [pos|]; [|done].
    destruct IH as (a & u & b & Hf & -> & Ha & ->). exists (t :: a), u, b.
    split_and!; [done|done|by constructor|rewrite zlen_cons; lia].
Qed.

(** The token that replaces an invalid one. *)
Definition replacement (r : Req) (t : Z) : Z :=
  match eos_token_ids (info r), stop_token_ids (sampling_params (info r)) with
  | e :: _, _ => e
  | [], s :: _ => s
  | [], [] => t
  end.

Lemma set_at_middle (a b : list Z) t u : set_at (a ++ t :: b) (zlen a) u = a ++ u :: b.
Proof. unfold set_at. rewrite to_nat_zlen, insert_app_r_alt, Nat.sub_diag by done. done. Qed.

(** A request that is running: not finished, not being aborted, below its token limit. *)
Definition running (r : Req) : Prop :=
  finished_reason (fin r) = None /\ finished_len (fin r) = None /\ to_finish (fin r) = None /\
  zlen (output_ids r) < max_new_tokens (sampling_params (info r)).

Lemma check_finished_running r old new : running r -> output_ids r = old ++ new -> new <> [] ->
  check_finished None r (zlen new) =
    let (b1, r1) := check_token_based_finish r new in
    if b1 then Ok r1
    else let (b2, r2) := check_vocab_boundary_finish r1 new in
         if b2 then Ok r2 else Ok (snd (check_str_based_finish r2)).
Proof.
  intros (H1 & H2 & H3 & H4) Ho Hn. unfold check_finished, finished. rewrite H1, H3.
  destruct (Z.leb_spec (max_new_tokens (sampling_params (info r))) (zlen (output_ids r))); [lia|]. simpl.
  by rewrite Ho, !slice_from_suffix.
Qed.

(** C29: of the tokens accepted in a step, a running request without a grammar
    stops at the first stop token: the output it returns ends there, stop token
    included, and everything before it is kept.  If no accepted token is a stop
    token, the output is not cut by one. *)
Theorem stops_at_first_stop_token r old new :
  running r -> ignore_eos (sampling_params (info r)) = false -> output_ids r = old ++ new -> new <> [] ->
  exists r', check_finished None r (zlen new) = Ok r' /\
    match List.find (token_stops r) new with
    | Some t => finished_reason (fin r') = Some (FINISH_MATCHED_TOKEN t) /\
                exists a b, new = a ++ t :: b /\ Forall (fun x => token_stops r x = false) a /\
                  output_ids_through_stop r' = old ++ a ++ [t] /\ output_ids r' = output_ids r
    | None => forall t, finished_reason (fin r') <> Some (FINISH_MATCHED_TOKEN t)
    end.
Proof.
  intros Hr Hig Ho Hn. rewrite (check_finished_running r old new Hr Ho Hn). destruct Hr as (H1 & _).
  unfold check_token_based_finish. rewrite Hig.
  pose proof (find_stop_spec r new (zlen (output_ids r) - zlen new)) as Hs.
  destruct (find_stop r _ new) as [[t pos]|] eqn:Ef.
  - destruct Hs as (Hf & a & b & En' & Ha & ->). rewrite Hf. eexists. split; [done|]. split; [done|].
    exists a, b. split_and!; try done. unfold output_ids_through_stop. simpl. rewrite Ho, En'.
    replace (zlen _ - _ + zlen a + 1) with (zlen (old ++ a ++ [t])) by (unfold zlen; rewrite !length_app; simpl; rewrite ?length_app; simpl; lia).
    rewrite slice_to_take, to_nat_zlen by apply zlen_nonneg.
    replace (old ++ a ++ t :: b) with ((old ++ a ++ [t]) ++ b) by (by rewrite <- !app_assoc). by rewrite take_app_length.
  - rewrite Hs. unfold check_vocab_boundary_finish, check_str_based_finish.
    repeat (case_match; simplify_eq/=); (eexists; split; [done|simpl; congruence]).
Qed.

(** if no accepted token is a stop token, a running request stops at the
    first accepted token outside the vocabulary check; the output it returns
    ends with an end-of-sequence or stop token of the request put in its place,
    if it has one.  Without such a token the output is not changed. *)
Theorem stops_at_invalid_token r old new :
  running r -> ignore_eos (sampling_params (info r)) = true \/ List.find (token_stops r) new = None ->
  output_ids r = old ++ new -> new <> [] ->
  exists r', check_finished None r (zlen new) = Ok r' /\
    match List.find (invalid_token r) new with
    | Some t => finished_reason (fin r') = Some (FINISH_MATCHED_STR "NaN happened") /\
                exists a b, new = a ++ t :: b /\ Forall (fun x => invalid_token r x = false) a /\
                  output_ids_through_stop r' = old ++ a ++ [replacement r t]
    | None => output_ids r' = output_ids r
    end.
Proof.
  intros Hr Hst Ho Hn. rewrite (check_finished_running r old new Hr Ho Hn).
  assert (E1 : check_token_based_finish r new = (false, r)).
  { unfold check_token_based_finish. pose proof (find_stop_spec r new (zlen (output_ids r) - zlen new)) as Hs.
    destruct (ignore_eos _); [done|]. destruct Hst as [|Hst]; [done|]. destruct (find_stop r _ new) as [[t pos]|]; [|done].
    destruct Hs as [Hs _]. congruence. }
  rewrite E1. unfold check_vocab_boundary_finish.
  pose proof (find_invalid_spec r new (zlen (output_ids r) - zlen new)) as Hs.
  destruct (find_invalid r _ new) as [pos|].
  - destruct Hs as (a & t & b & Hf & En & Ha & ->). rewrite Hf. eexists. split; [done|]. split; [done|].
    exists a, b. split; [done|]. split; [done|]. unfold output_ids_through_stop. simpl. rewrite Ho, En.
    set (pos := zlen _ - zlen (a ++ t :: b) + zlen a). rewrite app_assoc.
    assert (Epos : pos = zlen (old ++ a)) by (unfold pos; rewrite !zlen_app; lia). rewrite Epos.
    trans (slice_to ((old ++ a) ++ replacement r t :: b) (zlen (old ++ a) + 1));
      [f_equal; unfold replacement; destruct (eos_token_ids _), (stop_token_ids _); by rewrite ?set_at_middle|].
    replace (zlen (old ++ a) + 1) with (zlen ((old ++ a) ++ [replacement r t])) by (rewrite (zlen_app _ [_]); done).
    rewrite slice_to_take, to_nat_zlen by apply zlen_nonneg.
    replace ((old ++ a) ++ _ :: b) with (((old ++ a) ++ [replacement r t]) ++ b) by (by rewrite <- app_assoc).
    rewrite take_app_length. by rewrite <- app_assoc.
  - rewrite Hs. eexists. split; [done|]. unfold check_str_based_finish. by repeat case_match.
Qed.
End stop.

(** The bound of the check is inclusive: [vocab_size] itself, which is not a
    token id, passes. *)
Lemma vocab_size_is_accepted r : 0 <= vocab_size (info r) -> invalid_token r (vocab_size (info r)) = false.
Proof. unfold invalid_token. intros. bool_lia. Qed.

(** ** A concrete request *)

Definition sample_params : SamplingParams :=
  {| max_new_tokens := 6; ignore_eos := false; stop_token_ids := [7]; stop_strs := []; stop_regex_strs := [];
     stop_str_max_len := 0; stop_regex_max_len := 0 |}.

Definition sample_static : ReqStatic :=
  {| rid := "r"; sampling_params := sample_params; extra_key := None; routing_key := None; priority := None;
     eos_token_ids := [2]; vocab_size := 100; wait_queue_entry_time := 0; has_input_embeds := false;
     return_logprob := false |}.

(** A request at row [slot] with input [ids], whose first [prot] tokens are cached under [node]. *)
Definition sample_req (slot : option Z) (ids : list Z) (node : option nat) (prot : Z) : Req :=
  {| info := sample_static; origin_input_ids := ids; output_ids := []; logprob_start_len := -1; decoded_text := "";
     triaxial_bits := None;
     kv := {| req_pool_idx := slot; kv_committed_len := zlen ids; kv_allocated_len := zlen ids;
              kv_committed_freed := false; kv_overallocated_freed := false |};
     pre := {| fill_ids := ids; prefix_indices := []; last_node := node; host_hit_length := 0;
               cache_protected_len := prot; extend_input_len := 0; extend_logprob_start_len := 0; is_chunked := 0 |};
     fin := {| finished_reason := None; finished_len := None; to_finish := None |};
     retract := {| is_retracted := false; retracted_stain := false; retraction_count := 0 |} |}.


Definition no_text (l : list Z) : string := EmptyString.
Definition no_match (re s : string) : bool := false.
Definition sample_tokenizer : Tokenizer := {| eos_token_id := Some 2; additional_stop_token_ids := [] |}.

Lemma stops_at_first_stop_token_witness : exists r',
  check_finished (Some sample_tokenizer) no_text no_match None (set_output (sample_req None [1] None 0) [5; 6; 7; 2]) 3 = Ok r' /\
  finished_reason (fin r') = Some (FINISH_MATCHED_TOKEN 7).
Proof.
  destruct (stops_at_first_stop_token (Some sample_tokenizer) no_text no_match
    (set_output (sample_req None [1] None 0) [5; 6; 7; 2]) [5] [6; 7; 2]) as (r' & E & H & _); try done.
  exists r'. split; [exact E|exact H].
Defined.

Lemma stops_at_invalid_token_witness : exists r',
  check_finished None no_text no_match None (set_output (sample_req None [1] None 0) [5; 6; 101]) 1 = Ok r' /\
  finished_reason (fin r') = Some (FINISH_MATCHED_STR "NaN happened").
Proof.
  destruct (stops_at_invalid_token None no_text no_match
    (set_output (sample_req None [1] None 0) [5; 6; 101]) [5; 6] [101]) as (r' & E & H & _); try done; [by right|].
  exists r'. split; [exact E|exact H].
Defined.
