(* ===== verification/ReqPool.v ===== *)
(** * Request slots

    Models class [ReqToTokenPool] of [srt/mem_cache/memory_pool.py]: the table
    from request slots to the KV slots of their tokens, and the free request
    slots.  Table entries are 32-bit in the source; KV slot numbers stay far
    below that and the model keeps them as integers. *)

From S2P Require Import Prelude Tensors Request.

Record ReqToTokenPool := {
  pool_size : Z;
  max_context_len : Z;
  req_to_token : list (list Z);
  free_slots : list Z
}.

Definition pool_init (size max_len : Z) : ReqToTokenPool :=
  {| pool_size := size; max_context_len := max_len;
     req_to_token := replicate (Z.to_nat size) (replicate (Z.to_nat max_len) 0);
     free_slots := seqZ 0 size |}.

Definition set_table (p : ReqToTokenPool) (t : list (list Z)) : ReqToTokenPool :=
  {| pool_size := pool_size p; max_context_len := max_context_len p; req_to_token := t; free_slots := free_slots p |}.

Definition set_free_slots (p : ReqToTokenPool) (f : list Z) : ReqToTokenPool :=
  {| pool_size := pool_size p; max_context_len := max_context_len p; req_to_token := req_to_token p; free_slots := f |}.

Definition available_size (p : ReqToTokenPool) : Z := zlen (free_slots p).

(** [req_to_token[i]]; [None] as an index is not a row. *)
Definition get_row (p : ReqToTokenPool) (i : option Z) : result (list Z) :=
  match i with Some i => py_get (req_to_token p) i | None => Err TypeError end.

(** [row[a:b] = vals]: lengths agree, or one value is repeated. *)
Definition row_assign (row : list Z) (a b : Z) (vals : list Z) : result (list Z) :=
  let a' := py_bound (zlen row) a in
  let b' := Z.max a' (py_bound (zlen row) b) in
  let n := b' - a' in
  if zlen vals =? n then Ok (take (Z.to_nat a') row ++ vals ++ drop (Z.to_nat b') row)
  else match vals with
       | [x] => Ok (take (Z.to_nat a') row ++ replicate (Z.to_nat n) x ++ drop (Z.to_nat b') row)
       | _ => Err RuntimeError
       end.

(** [write((i, slice(a, b)), vals)] *)
Definition write_slice (p : ReqToTokenPool) (i : option Z) (a b : Z) (vals : list Z) : result ReqToTokenPool :=
  let! row := get_row p i in
  let! row' := row_assign row a b vals in
  match i with
  | Some i => let j := if i <? 0 then i + zlen (req_to_token p) else i in
              Ok (set_table p (<[Z.to_nat j := row']> (req_to_token p)))
  | None => Err TypeError
  end.

(** [write((rows, cols), vals)]: one cell per position, for tensors of one length. *)
Definition write_cell (p : ReqToTokenPool) (c : Z * Z * Z) : result ReqToTokenPool :=
  let '(i, col, v) := c in
  let! row := get_row p (Some i) in
  let! _ := py_get row col in
  let col := if col <? 0 then col + zlen row else col in
  write_slice p (Some i) col (col + 1) [v].

Definition write_cells (p : ReqToTokenPool) (rows cols vals : list Z) : result ReqToTokenPool :=
  if (zlen rows =? zlen cols) && (zlen vals =? zlen rows)
  then rfold write_cell p (zip (zip rows cols) vals)
  else Err RuntimeError.

Definition is_none {A} (o : option A) : bool := match o with None => true | Some _ => false end.

(** Hand the selected slots to the requests that have none. *)
Fixpoint assign_slots (reqs : list Req) (sel : list Z) : list Req :=
  match reqs with
  | [] => []
  | r :: rs =>
      match req_pool_idx (kv r), sel with
      | None, s :: sel' => set_req_pool_idx r (Some s) :: assign_slots rs sel'
      | _, _ => r :: assign_slots rs sel
      end
  end.

Definition reusable (r : Req) : bool := (0 <? is_chunked (pre r)) || (0 <? kv_committed_len (kv r)).

Definition alloc (p : ReqToTokenPool) (reqs : list Req)
  : result (option (list Z) * list Req * ReqToTokenPool) :=
  let reusing := List.filter (fun r => negb (is_none (req_pool_idx (kv r)))) reqs in
  let! _ := rassert (forallb reusable reusing) in
  let need_size := zlen reqs - zlen reusing in
  if zlen (free_slots p) <? need_size then Ok (None, reqs, p)
  else
    let sel := slice_to (free_slots p) need_size in
    let reqs' := assign_slots reqs sel in
    let! idx := rmap (fun r => match req_pool_idx (kv r) with Some i => Ok i | None => Err TypeError end) reqs' in
    Ok (Some idx, reqs', set_free_slots p (slice_from (free_slots p) need_size)).

Definition free (p : ReqToTokenPool) (r : Req) : result (ReqToTokenPool * Req) :=
  match req_pool_idx (kv r) with
  | None => Err AssertionError
  | Some i => Ok (set_free_slots p (free_slots p ++ [i]), set_req_pool_idx r None)
  end.

Definition clear (p : ReqToTokenPool) : ReqToTokenPool := set_free_slots p (seqZ 0 (pool_size p)).

(** ** The table *)

Lemma row_assign_ok row a b vals :
  0 <= a <= b -> b <= zlen row -> zlen vals = b - a ->
  row_assign row a b vals = Ok (take (Z.to_nat a) row ++ vals ++ drop (Z.to_nat b) row).
Proof.
  intros Ha Hb Hv. unfold row_assign, py_bound.
  destruct (Z.ltb_spec a 0); [lia|]. destruct (Z.ltb_spec b 0); [lia|].
  rewrite !Z.min_l, Z.max_r by lia. by rewrite Hv, Z.eqb_refl.
Qed.

Lemma get_row_Some p i row : get_row p (Some i) = Ok row ->
  let j := if i <? 0 then i + zlen (req_to_token p) else i in
  0 <= j /\ req_to_token p !! Z.to_nat j = Some row.
Proof.
  unfold get_row, py_get. cbv zeta. set (j := if i <? 0 then i + zlen (req_to_token p) else i).
  destruct (Z.ltb_spec j 0); [done|]. destruct (req_to_token p !! Z.to_nat j) eqn:E; [|done]. intros [= ->]. done.
Qed.

(** A write to a slice of a row, read back. *)
Lemma write_slice_ok p i row a b vals :
  get_row p i = Ok row -> 0 <= a <= b -> b <= zlen row -> zlen vals = b - a ->
  exists p', write_slice p i a b vals = Ok p' /\ free_slots p' = free_slots p /\
    get_row p' i = Ok (take (Z.to_nat a) row ++ vals ++ drop (Z.to_nat b) row) /\ pool_size p' = pool_size p /\
    (forall k j, i = Some k -> 0 <= k -> 0 <= j -> j <> k -> get_row p' (Some j) = get_row p (Some j)).
Proof.
  intros Hr Ha Hb Hv. destruct i as [i|]; [|done]. unfold write_slice. rewrite Hr. cbn [rbind].
  rewrite row_assign_ok by done. cbn [rbind]. eexists. split; [done|]. split; [done|]. split; [|split; [done|]].
  2: { intros k j [= <-] Hk Hj Hne. unfold get_row, py_get. simpl. cbv zeta. unfold zlen. rewrite length_insert.
       rewrite (proj2 (Z.ltb_ge j 0)), (proj2 (Z.ltb_ge i 0)) by done. rewrite list_lookup_insert_ne by lia. done. }
  destruct (get_row_Some _ _ _ Hr) as [Hj Hl]. unfold get_row, py_get. simpl. unfold zlen. rewrite length_insert.
  fold (zlen (req_to_token p)). set (j := if i <? 0 then _ else _) in *. destruct (Z.ltb_spec j 0); [lia|].
  rewrite list_lookup_insert_eq; [done|]. by eapply lookup_lt_Some.
Qed.

(** ** Ownership of request slots *)

Definition held (reqs : list Req) : list Z := omap (fun r => req_pool_idx (kv r)) reqs.

Lemma held_cons r rs :
  held (r :: rs) = match req_pool_idx (kv r) with Some i => i :: held rs | None => held rs end.
Proof. done. Qed.

(** Free and held slots are the slots of the table, each once. *)
Definition pool_inv (p : ReqToTokenPool) (owned : list Z) : Prop := free_slots p ++ owned ≡ₚ seqZ 0 (pool_size p).

Lemma count_reusing reqs :
  zlen reqs - zlen (List.filter (fun r => negb (is_none (req_pool_idx (kv r)))) reqs) =
  zlen (List.filter (fun r => is_none (req_pool_idx (kv r))) reqs).
Proof.
  induction reqs as [|r rs IH]; [done|]. simpl. rewrite zlen_cons.
  destruct (req_pool_idx (kv r)); simpl; rewrite zlen_cons; lia.
Qed.

Lemma assign_slots_spec reqs sel :
  zlen sel = zlen (List.filter (fun r => is_none (req_pool_idx (kv r))) reqs) ->
  held (assign_slots reqs sel) ≡ₚ sel ++ held reqs /\
  Forall (fun r => req_pool_idx (kv r) <> None) (assign_slots reqs sel) /\
  length (assign_slots reqs sel) = length reqs.
Proof.
  revert sel. induction reqs as [|r rs IH]; intros sel Hs.
  { simpl in *. change (zlen (@nil Req)) with 0 in Hs. destruct sel; [done|unfold zlen in Hs; simpl in Hs; lia]. }
  simpl in *. unfold held in *. destruct (req_pool_idx (kv r)) as [i|] eqn:Ei; simpl in *.
  - destruct (IH sel Hs) as (H1 & H2 & H3). simpl. rewrite Ei. simpl. rewrite H1. split_and!; [|constructor; [by rewrite Ei|done]|lia].
    by rewrite Permutation_middle.
  - rewrite zlen_cons in Hs. destruct sel as [|s sel]; [unfold zlen in Hs; simpl in Hs; lia|]. rewrite zlen_cons in Hs.
    destruct (IH sel ltac:(lia)) as (H1 & H2 & H3). simpl. rewrite H1. split_and!; [done|by constructor|lia].
Qed.

Lemma held_full reqs : Forall (fun r => req_pool_idx (kv r) <> None) reqs ->
  rmap (fun r => match req_pool_idx (kv r) with Some i => Ok i | None => Err TypeError end) reqs = Ok (held reqs).
Proof.
  induction 1 as [|r rs Hr _ IH]; [done|]. simpl. unfold held. simpl. destruct (req_pool_idx (kv r)) as [i|]; [|done].
  simpl. by rewrite IH.
Qed.

Lemma held_length reqs : Forall (fun r => req_pool_idx (kv r) <> None) reqs -> length (held reqs) = length reqs.
Proof.
  induction 1 as [|r rs Hr _ IH]; [done|]. rewrite held_cons.
  destruct (req_pool_idx (kv r)) as [i|]; [|done]. simpl. by rewrite IH.
Qed.

Lemma req_alloc_spec p reqs others :
  pool_inv p (held reqs ++ others) -> Forall (fun r => req_pool_idx (kv r) <> None -> reusable r = true) reqs ->
  let need := zlen (List.filter (fun r => is_none (req_pool_idx (kv r))) reqs) in
  exists out reqs' p', alloc p reqs = Ok (out, reqs', p') /\
    (out = None <-> available_size p < need) /\
    match out with
    | None => reqs' = reqs /\ p' = p
    | Some idx => idx = held reqs' /\ zlen idx = zlen reqs /\ NoDup idx /\
        pool_inv p' (held reqs' ++ others) /\ available_size p' = available_size p - need
    end.
Proof.
  intros Hi Hre need. unfold alloc, available_size. rewrite count_reusing. fold need.
  assert (Hall : forallb reusable (List.filter (fun r => negb (is_none (req_pool_idx (kv r)))) reqs) = true).
  { apply forallb_forall. intros r [Hr Hn]%filter_In. rewrite list.Forall_forall in Hre. apply Hre; [by apply list_elem_of_In|].
    destruct (req_pool_idx (kv r)); done. }
  rewrite Hall. cbn [rassert rbind]. pose proof (zlen_nonneg (List.filter (fun r => is_none (req_pool_idx (kv r))) reqs)) as H0.
  fold need in H0. destruct (Z.ltb_spec (zlen (free_slots p)) need) as [Hlt|Hge].
  { exists None, reqs, p. split_and!; try done. }
  rewrite slice_to_take, slice_from_drop by done.
  assert (Hl : zlen (take (Z.to_nat need) (free_slots p)) = need) by (apply zlen_take; lia).
  destruct (assign_slots_spec reqs _ Hl) as (H1 & H2 & H3). rewrite (held_full _ H2). cbn [rbind].
  assert (Hp' : free_slots (set_free_slots p (drop (Z.to_nat need) (free_slots p))) ++
     held (assign_slots reqs (take (Z.to_nat need) (free_slots p))) ++ others ≡ₚ seqZ 0 (pool_size p)).
  { simpl. rewrite H1, <- app_assoc, Permutation_app_swap_app, app_assoc. rewrite take_drop. exact Hi. }
  eexists _, _, _. split; [done|]. split; [split; [done|lia]|]. split; [done|]. split_and!; try done.
  - unfold zlen. by rewrite held_length, H3.
  - assert (Hnd : NoDup (seqZ 0 (pool_size p))) by apply NoDup_seqZ. rewrite <- Hp' in Hnd.
    apply list.NoDup_app in Hnd as (_ & _ & Hnd). by apply list.NoDup_app in Hnd as (? & _).
  - simpl. unfold zlen in *. rewrite length_drop. rewrite length_take in Hl. lia.
Qed.

(** a batch gets request slots, one per request and none shared, exactly
    when enough are free: slots already held are kept, the others leave the
    free list, and the table stays partitioned.  Too few free slots leave the
    pool and the requests unchanged. *)
Theorem req_alloc_partitions p reqs others :
  pool_inv p (held reqs ++ others) -> Forall (fun r => req_pool_idx (kv r) <> None -> reusable r = true) reqs ->
  let need := zlen (List.filter (fun r => is_none (req_pool_idx (kv r))) reqs) in
  exists out reqs' p', alloc p reqs = Ok (out, reqs', p') /\
    (out = None <-> available_size p < need) /\
    match out with
    | None => reqs' = reqs /\ p' = p
    | Some idx => idx = held reqs' /\ zlen idx = zlen reqs /\ NoDup idx /\
        pool_inv p' (held reqs' ++ others) /\ available_size p' = available_size p - need
    end.
Proof. apply req_alloc_spec. Qed.

Lemma held_le rs : (length (held rs) <= length rs)%nat.
Proof. induction rs as [|r rs IH]; [done|]. rewrite held_cons. destruct (req_pool_idx (kv r)); simpl; lia. Qed.

(** When every request has a slot, slots and requests correspond by position. *)
Lemma held_lookup rs i r : length (held rs) = length rs -> rs !! i = Some r ->
  exists k, req_pool_idx (kv r) = Some k /\ held rs !! i = Some k.
Proof.
  revert i. induction rs as [|q rs IH]; intros i Hl Hi; [done|]. rewrite held_cons in *. pose proof (held_le rs) as Hle.
  destruct (req_pool_idx (kv q)) as [k|] eqn:E; simpl in Hl; [|lia]. destruct i as [|i]; simpl in *.
  - injection Hi as ->. by exists k.
  - apply IH; [lia|done].
Qed.

(** Allocation of request slots touches neither the table nor the prefixes. *)
Lemma assign_slots_pre rs sel : map pre (assign_slots rs sel) = map pre rs.
Proof.
  revert sel. induction rs as [|r rs IH]; intros sel; [done|]. simpl.
  destruct (req_pool_idx (kv r)), sel; simpl; by rewrite IH.
Qed.

Lemma alloc_frame p rs idx rs' p' : alloc p rs = Ok (idx, rs', p') ->
  map pre rs' = map pre rs /\ req_to_token p' = req_to_token p /\
  max_context_len p' = max_context_len p /\ pool_size p' = pool_size p.
Proof.
  unfold alloc. destruct (rassert _); [|done]. cbn [rbind]. destruct (_ <? _); [by intros [= <- <- <-]|].
  destruct (rmap _ _); [|done]. cbn [rbind]. intros [= <- <- <-]. split; [apply assign_slots_pre|done].
Qed.

(** ** A concrete batch *)

Lemma req_alloc_partitions_witness : exists reqs' p',
  alloc (set_free_slots (pool_init 4 8) [1; 3]) [sample_req None [1; 2] None 0; sample_req (Some 0) [5] None 0]
  = Ok (Some [1; 0], reqs', p').
Proof.
  destruct (req_alloc_partitions (set_free_slots (pool_init 4 8) [1; 3])
    [sample_req None [1; 2] None 0; sample_req (Some 0) [5] None 0] [2]) as (out & reqs' & p' & E & _ & _).
  - apply (bool_decide_unpack (_ ≡ₚ _)). vm_compute. done.
  - repeat constructor; intros; done.
  - exists reqs', p'. rewrite E. vm_compute in E. by injection E as <- <- <-.
Defined.
