(* ===== verification/TableKernels.v ===== *)
(** * Kernels on the request table

    [write_cache_indices], [get_last_loc] and their Triton kernels
    ([srt/mem_cache/common.py]).  The kernels address the table as one flat
    memory of [stride] entries per row. *)

From S2P Require Import Prelude Tensors Triton ReqPool.

(** ** Writing a batch into the table *)

(** One program: the prefix of its request, then the newly allocated slots. *)
Definition write_req_to_token_pool_triton (req_pool_indices : list Z) (prefix_tensors : list (list Z))
    (pre_lens seq_lens extend_lens out_cache_loc : list Z) (stride : Z) (mem : list Z) (pid : Z) : list Z :=
  let BLOCK_SIZE := 512 in
  let req_pool_index := tl_load req_pool_indices pid in
  let pre_len := tl_load pre_lens pid in
  let seq_len := tl_load seq_lens pid in
  let prefix_tensor := prefix_tensors !!! Z.to_nat pid in
  let mem1 := tl_blocks mem BLOCK_SIZE pre_len (req_pool_index * stride) (tl_load prefix_tensor) in
  let cumsum_start := zsum (map (tl_load extend_lens) (tl_arange pid)) in
  tl_blocks mem1 BLOCK_SIZE (seq_len - pre_len) (req_pool_index * stride + pre_len)
    (fun offset => tl_load out_cache_loc (cumsum_start + offset)).

(** A flat memory as rows of [w] entries. *)
Fixpoint rows_of (w : nat) (n : nat) (mem : list Z) : list (list Z) :=
  match n with O => [] | S n' => take w mem :: rows_of w n' (drop w mem) end.

(** The loop of the other backends; [pt] is the position in [out_cache_loc]. *)
Fixpoint write_loop (p : ReqToTokenPool) (pt : Z) (out_cache_loc : list Z)
    (idx pre_lens seq_lens extend_lens : list Z) (prefix_tensors : list (list Z)) : result ReqToTokenPool :=
  match idx, pre_lens, seq_lens, extend_lens, prefix_tensors with
  | req_idx :: idx', prefix_len :: ps, seq_len :: ss, extend_len :: es, t :: ts =>
      let! p1 := write_slice p (Some req_idx) 0 prefix_len t in
      let! p2 := write_slice p1 (Some req_idx) prefix_len seq_len (py_slice out_cache_loc pt (pt + extend_len)) in
      write_loop p2 (pt + extend_len) out_cache_loc idx' ps ss es ts
  | [], _, _, _, _ => Ok p
  | _, _, _, _, _ => Err IndexError
  end.

(** [order] is the order in which the programs of the launch run. *)
Definition write_cache_indices (support_triton : bool) (order : list Z) (out_cache_loc idx pre_lens seq_lens extend_lens : list Z)
    (prefix_tensors : list (list Z)) (p : ReqToTokenPool) : result ReqToTokenPool :=
  if support_triton then
    let mem := launch (write_req_to_token_pool_triton idx prefix_tensors pre_lens seq_lens extend_lens out_cache_loc
                         (max_context_len p)) order (concat (req_to_token p)) in
    Ok (set_table p (rows_of (Z.to_nat (max_context_len p)) (length (req_to_token p)) mem))
  else write_loop p 0 out_cache_loc idx pre_lens seq_lens extend_lens prefix_tensors.

(** ** The last slot of a prefix *)

(** [torch.where] evaluates both sides: a prefix of length 0 reads the last
    column, which is then not used. *)
Definition get_last_loc_torch (table : list (list Z)) (idx prefix_lens : list Z) : result (list Z) :=
  let! cells := rmap (fun '(i, n) => let! row := py_get table i in py_get row (n - 1)) (zip idx prefix_lens) in
  Ok (zip_with (fun (n c : Z) => if 0 <? n then c else -1) prefix_lens cells).

Definition get_last_loc_kernel (mem idx prefix_lens : list Z) (num_tokens stride BLOCK_SIZE : Z)
    (result : list Z) (pid : Z) : list Z :=
  let offset l := l + pid * BLOCK_SIZE in
  let mask l := offset l <? num_tokens in
  let prefix_len l := tl_load_masked 0 prefix_lens (mask l) (offset l) in
  let req_pool_index l := tl_load_masked 0 idx (mask l) (offset l) in
  let token l := tl_load_masked (-1) mem (0 <? prefix_len l) (req_pool_index l * stride + (prefix_len l - 1)) in
  tl_store result (tl_arange BLOCK_SIZE) offset token mask.

(** [empty] is the contents of the uninitialised result tensor. *)
Definition get_last_loc_triton (order empty : list Z) (table : list (list Z)) (stride : Z) (idx prefix_lens : list Z) : list Z :=
  let BLOCK_SIZE := 256 in
  launch (get_last_loc_kernel (concat table) idx prefix_lens (zlen prefix_lens) stride BLOCK_SIZE) order empty.
