(* ===== verification/TableKernelsTheory.v ===== *)
(** * The table kernels compute what the reference loops compute

    A batch is a list of entries (row, prefix, new slots); both the loop and the
    kernel apply [set_row] to each entry, and the order does not matter because
    the rows are distinct. *)

From S2P Require Import Prelude Tensors Triton ReqPool TableKernels.

(** ** Segments *)

Lemma map_lookup {A B} (f : A -> B) l i : map f l !! i = f <$> l !! i.
Proof. apply list_lookup_fmap. Qed.

Lemma seqZ_map_load (l : list Z) s n : 0 <= s -> 0 <= n -> s + n <= zlen l ->
  map (fun off => tl_load l (s + off)) (seqZ 0 n) = take (Z.to_nat n) (drop (Z.to_nat s) l).
Proof.
  intros Hs Hn Hl. apply list_eq. intros i. rewrite map_lookup.
  destruct (decide (i < Z.to_nat n)%nat) as [Hi|Hi].
  - rewrite lookup_seqZ_lt by lia. simpl. rewrite lookup_take_lt, lookup_drop by lia.
    unfold tl_load, tget. destruct (Z.ltb_spec (s + (0 + Z.of_nat i)) 0); [lia|].
    destruct (lookup_lt_is_Some_2 l (Z.to_nat s + i)) as [x Hx]; [unfold zlen in *; lia|]. rewrite Hx.
    f_equal. apply list_lookup_total_correct. rewrite <- Hx. f_equal. lia.
  - rewrite lookup_seqZ_ge by lia. symmetry. apply lookup_ge_None_2. rewrite length_take. lia.
Qed.

(** A blocked store that covers a segment replaces it. *)
Lemma tl_blocks_segment (a m b : list Z) B val : 0 < B ->
  tl_blocks (a ++ m ++ b) B (zlen m) (zlen a) val = a ++ map val (seqZ 0 (zlen m)) ++ b.
Proof.
  intros HB. apply list_eq. intros i.
  assert (Hlm : length (map val (seqZ 0 (zlen m))) = length m) by (rewrite length_map, length_seqZ; apply to_nat_zlen).
  destruct (decide (i < length (a ++ m ++ b))%nat) as [Hi|Hi].
  2: { rewrite !lookup_ge_None_2; [done|rewrite !length_app, Hlm, <- !length_app; lia|rewrite tl_blocks_length; lia]. }
  rewrite tl_blocks_lookup by (done || apply zlen_nonneg). rewrite !length_app in Hi.
  destruct (decide (i < length a)%nat) as [H1|H1].
  { rewrite !lookup_app_l by done. destruct (_ && _) eqn:E; [|done]. unfold zlen in *. bool_lia. }
  rewrite !(lookup_app_r a) by lia. destruct (decide (i - length a < length m)%nat) as [H2|H2].
  - rewrite !lookup_app_l by lia. rewrite map_lookup, lookup_seqZ_lt by (unfold zlen; lia). simpl.
    rewrite (proj2 (andb_true_iff _ _)) by (unfold zlen; rewrite Z.leb_le, Z.ltb_lt; lia). unfold zlen. do 2 f_equal. lia.
  - rewrite !lookup_app_r by lia. rewrite Hlm. destruct (_ && _) eqn:E; [|done]. unfold zlen in *. bool_lia.
Qed.

Lemma tl_blocks_replace (out a m b new : list Z) B n base val :
  0 < B -> out = a ++ m ++ b -> n = zlen m -> base = zlen a -> map val (seqZ 0 n) = new ->
  tl_blocks out B n base val = a ++ new ++ b.
Proof. intros HB -> -> -> <-. by apply tl_blocks_segment. Qed.

Fixpoint segs_of (lens l : list Z) : list (list Z) :=
  match lens with
  | [] => []
  | n :: ns => take (Z.to_nat n) l :: segs_of ns (drop (Z.to_nat n) l)
  end.

Lemma segs_of_lookup lens l i n : lens !! i = Some n -> Forall (fun n => 0 <= n) lens ->
  segs_of lens l !! i = Some (take (Z.to_nat n) (drop (Z.to_nat (zsum (take i lens))) l)).
Proof.
  revert l i. induction lens as [|m lens IH]; intros l [|i] Hn Hp; try done.
  - injection Hn as ->. done.
  - inversion_clear Hp as [|? ? H1 H2]. simpl in *. rewrite (IH _ _ Hn H2), drop_drop. do 3 f_equal.
    enough (0 <= zsum (take i lens)) by lia. clear -H2. revert i. induction H2; intros [|i]; simpl; try lia. specialize (IHForall i). lia.
Qed.

(** ** Entries *)

Record entry := { en_row : Z; en_pre : list Z; en_new : list Z }.

Definition set_row (t : list (list Z)) (e : entry) : list (list Z) :=
  alter (fun row => en_pre e ++ en_new e ++ drop (length (en_pre e) + length (en_new e)) row) (Z.to_nat (en_row e)) t.

Definition entries (idx : list Z) (pres : list (list Z)) (segs : list (list Z)) : list entry :=
  zip_with (fun r '(p, s) => {| en_row := r; en_pre := p; en_new := s |}) idx (zip pres segs).

Definition entry_ok (w : nat) (t : list (list Z)) (e : entry) : Prop :=
  0 <= en_row e < zlen t /\ (length (en_pre e) + length (en_new e) <= w)%nat.

Definition shape (w : nat) (t : list (list Z)) : Prop := Forall (fun row => length row = w) t.

Lemma set_row_length t e : length (set_row t e) = length t.
Proof. apply length_alter. Qed.

Lemma set_row_shape w t e : entry_ok w t e -> shape w t -> shape w (set_row t e).
Proof.
  intros [_ Hl] Hs. apply Forall_alter; [done|]. intros row _ Hr. rewrite !length_app, length_drop. lia.
Qed.

Lemma set_row_comm t e f : en_row e <> en_row f -> 0 <= en_row e -> 0 <= en_row f ->
  set_row (set_row t e) f = set_row (set_row t f) e.
Proof. intros Hne H1 H2. apply list_alter_alter_ne. lia. Qed.

Lemma foldl_perm_comm {S E} (f : S -> E -> S) l k s : l ≡ₚ k ->
  (forall a b s, a ∈ l -> b ∈ l -> f (f s a) b = f (f s b) a) -> foldl f s l = foldl f s k.
Proof.
  intros HP. revert s. induction HP as [|x l k _ IH|x y l|l1 l2 l3 HP1 IH1 HP2 IH2]; intros s Hc; simpl; [done| | |].
  - apply IH. intros. apply Hc; by right.
  - rewrite Hc; [done|left|right; left].
  - rewrite IH1 by done. apply IH2. intros a b s' Ha Hb. apply Hc; by rewrite HP1.
Qed.

(** ** One program of the kernel *)

Lemma shape_concat w t : shape w t -> length (concat t) = (length t * w)%nat.
Proof. induction 1 as [|row t Hr _ IH]; [done|]. simpl. rewrite length_app. lia. Qed.

Lemma rows_of_concat w t : shape w t -> rows_of w (length t) (concat t) = t.
Proof.
  induction 1 as [|row t Hr _ IH]; [done|]. simpl. rewrite <- Hr.
  by rewrite take_app_length, drop_app_length, Hr, IH.
Qed.

(** Two contiguous stores at the start of row [r]. *)
Lemma store_row w t r row (P N : list Z) v1 v2 :
  shape w t -> t !! r = Some row -> (length P + length N <= w)%nat ->
  map v1 (seqZ 0 (zlen P)) = P -> map v2 (seqZ 0 (zlen N)) = N ->
  tl_blocks (tl_blocks (concat t) 512 (zlen P) (Z.of_nat r * Z.of_nat w) v1) 512 (zlen N)
    (Z.of_nat r * Z.of_nat w + zlen P) v2 =
  concat (alter (fun row => P ++ N ++ drop (length P + length N) row) r t).
Proof.
  intros Hs Hr Hl EP EN. assert (Hw : length row = w) by exact (proj1 (list.Forall_lookup _ _) Hs _ _ Hr).
  pose proof (lookup_lt_Some _ _ _ Hr) as Hlt. pose proof (take_drop_middle _ _ _ Hr) as Et.
  set (a := take r t) in *. set (b := drop (S r) t) in *.
  assert (Ha : zlen (concat a) = Z.of_nat r * Z.of_nat w).
  { unfold zlen. rewrite (shape_concat w) by (by apply Forall_take). unfold a. rewrite length_take. lia. }
  assert (Hla : r = (length a + 0)%nat) by (unfold a; rewrite length_take; lia).
  assert (Eal : alter (fun row => P ++ N ++ drop (length P + length N) row) r t =
                a ++ (P ++ N ++ drop (length P + length N) row) :: b).
  { rewrite <- Et at 1. rewrite Hla at 1. by rewrite alter_app_r. }
  rewrite Eal, concat_app. cbn [concat]. rewrite <- !app_assoc, (app_assoc (concat a) P).
  eapply (tl_blocks_replace _ (concat a ++ P) (take (length N) (drop (length P) row))); [lia| | | |done].
  - rewrite <- app_assoc.
    eapply (tl_blocks_replace _ (concat a) (take (length P) row)); [lia| | |done|done].
    + rewrite <- Et at 1. rewrite concat_app. cbn [concat]. f_equal.
      rewrite (app_assoc (take (length N) _)), <- drop_drop, take_drop, app_assoc, take_drop. done.
    + unfold zlen. rewrite length_take. lia.
  - unfold zlen. rewrite length_take, length_drop. lia.
  - rewrite zlen_app. lia.
Qed.

(** ** Batches *)

(** What the caller guarantees: distinct rows of the table, prefixes of the
    announced lengths, as many slots as the requests need, rows long enough. *)
Record batch_wf (w : nat) (t : list (list Z)) (idx pre_lens seq_lens extend_lens out : list Z) (pres : list (list Z)) : Prop := {
  bw_shape : shape w t;
  bw_pres : length pres = length idx;
  bw_exts : length extend_lens = length idx;
  bw_pre : pre_lens = map zlen pres;
  bw_seq : seq_lens = zip_with Z.add pre_lens extend_lens;
  bw_ext : Forall (fun n => 0 <= n) extend_lens;
  bw_out : zsum extend_lens <= zlen out;
  bw_fit : Forall (fun n => n <= Z.of_nat w) seq_lens;
  bw_idx : Forall (fun r => 0 <= r < zlen t) idx;
  bw_nodup : NoDup idx
}.

Lemma zsum_take_le l i : Forall (fun n => 0 <= n) l -> 0 <= zsum (take i l) <= zsum l.
Proof.
  intros H. revert i. induction H as [|x l Hx _ IH]; intros [|i]; simpl; try lia.
  - specialize (IH 0%nat). simpl in IH. lia.
  - specialize (IH i). lia.
Qed.

(** Facts on the entry at position [i] of a batch. *)
Lemma batch_entry w t idx pre_lens seq_lens ext out pres i :
  batch_wf w t idx pre_lens seq_lens ext out pres -> (i < length idx)%nat ->
  exists r P n, idx !! i = Some r /\ pres !! i = Some P /\ ext !! i = Some n /\ pre_lens !! i = Some (zlen P) /\
    seq_lens !! i = Some (zlen P + n) /\ 0 <= n /\ 0 <= r < zlen t /\ zlen P + n <= Z.of_nat w /\
    0 <= zsum (take i ext) /\ zsum (take i ext) + n <= zlen out.
Proof.
  intros [Hs Hp He Epre Eseq Hext Hout Hfit Hidx _] Hi.
  destruct (lookup_lt_is_Some_2 idx i Hi) as [r Hr]. destruct (lookup_lt_is_Some_2 pres i) as [P HP]; [lia|].
  destruct (lookup_lt_is_Some_2 ext i) as [n Hn]; [lia|].
  assert (Hpl : pre_lens !! i = Some (zlen P)) by (by rewrite Epre, map_lookup, HP).
  assert (Hsl : seq_lens !! i = Some (zlen P + n)) by (by rewrite Eseq, lookup_zip_with, Hpl, Hn).
  rewrite !list.Forall_lookup in *. exists r, P, n. pose proof (Hext _ _ Hn). simpl in *. split_and!; try done.
  - by apply (Hidx i).
  - by apply (Hidx i).
  - by apply (Hfit i).
  - apply zsum_take_le. by apply list.Forall_lookup.
  - rewrite <- (zsum_take_S _ _ _ Hn). etrans; [apply zsum_take_le; by apply list.Forall_lookup|done].
Qed.

Lemma tl_load_lookup l i x : l !! i = Some x -> tl_load l (Z.of_nat i) = x.
Proof.
  intros H. unfold tl_load, tget. destruct (Z.ltb_spec (Z.of_nat i) 0); [lia|]. rewrite Nat2Z.id. by apply list_lookup_total_correct.
Qed.

Lemma map_load_take l i : (i <= length l)%nat -> map (tl_load l) (tl_arange (Z.of_nat i)) = take i l.
Proof.
  intros Hi. pose proof (seqZ_map_load l 0 (Z.of_nat i)) as H. rewrite Nat2Z.id in H. simpl in H. rewrite drop_0 in H.
  unfold tl_arange. rewrite <- H by (unfold zlen; lia). apply map_ext. intros. f_equal.
Qed.

Lemma map_load_all l : map (tl_load l) (seqZ 0 (zlen l)) = l.
Proof. unfold zlen. rewrite map_load_take by done. apply firstn_all. Qed.

(** The program of request [i] on a table of the right shape sets its row. *)
Lemma program_sets_row w t t' idx pre_lens seq_lens ext out pres i :
  batch_wf w t idx pre_lens seq_lens ext out pres -> (i < length idx)%nat -> shape w t' -> length t' = length t ->
  exists e, entries idx pres (segs_of ext out) !! i = Some e /\ entry_ok w t e /\
    write_req_to_token_pool_triton idx pres pre_lens seq_lens ext out (Z.of_nat w) (concat t') (Z.of_nat i) = concat (set_row t' e).
Proof.
  intros Hb Hi Hs Hlt. destruct (batch_entry _ _ _ _ _ _ _ _ i Hb Hi) as (r & P & n & Hr & HP & Hn & Hpl & Hsl & Hn0 & Hrr & Hfit & Hc0 & Hc1).
  set (N := take (Z.to_nat n) (drop (Z.to_nat (zsum (take i ext))) out)).
  assert (HN : zlen N = n) by (unfold N, zlen in *; rewrite length_take, length_drop; lia).
  exists {| en_row := r; en_pre := P; en_new := N |}. split; [|split].
  - unfold entries. rewrite lookup_zip_with, Hr. simpl. rewrite lookup_zip_with, HP. simpl.
    by rewrite (segs_of_lookup _ _ _ _ Hn (bw_ext _ _ _ _ _ _ _ _ Hb)).
  - split; [done|]. simpl. unfold zlen in *. lia.
  - unfold write_req_to_token_pool_triton, set_row. simpl en_row. simpl en_pre. simpl en_new.
    rewrite (tl_load_lookup _ _ _ Hr), (tl_load_lookup _ _ _ Hpl), (tl_load_lookup _ _ _ Hsl), Nat2Z.id.
    rewrite (list_lookup_total_correct _ _ _ HP), map_load_take by (rewrite <- (bw_exts _ _ _ _ _ _ _ _ Hb) in Hi; lia).
    destruct (lookup_lt_is_Some_2 t' (Z.to_nat r)) as [row Hrow]; [unfold zlen in *; lia|].
    rewrite <- (store_row w t' (Z.to_nat r) row P N (tl_load P) (fun off => tl_load out (zsum (take i ext) + off))); try done.
    + rewrite HN, Z2Nat.id by lia. f_equal. lia.
    + unfold zlen in *. lia.
    + apply map_load_all.
    + rewrite HN. apply seqZ_map_load; lia.
Qed.

Definition nth_entry (es : list entry) (pid : Z) : entry :=
  default {| en_row := 0; en_pre := []; en_new := [] |} (es !! Z.to_nat pid).

Lemma launch_sets_rows w t idx pre_lens seq_lens ext out pres order t' :
  batch_wf w t idx pre_lens seq_lens ext out pres -> Forall (fun p => 0 <= p < zlen idx) order ->
  shape w t' -> length t' = length t ->
  let es := entries idx pres (segs_of ext out) in
  launch (write_req_to_token_pool_triton idx pres pre_lens seq_lens ext out (Z.of_nat w)) order (concat t') =
    concat (foldl set_row t' (map (nth_entry es) order)) /\
  shape w (foldl set_row t' (map (nth_entry es) order)) /\
  length (foldl set_row t' (map (nth_entry es) order)) = length t.
Proof.
  intros Hb Ho Hs Hl es. revert t' Hs Hl. induction Ho as [|p order Hp _ IH]; intros t' Hs Hl; [done|]. simpl.
  destruct (program_sets_row w t t' idx pre_lens seq_lens ext out pres (Z.to_nat p) Hb) as (e & He & Hok & E);
    [unfold zlen in *; lia|done|done|].
  rewrite Z2Nat.id in E by lia. rewrite E. unfold nth_entry at 1 3 5. fold es in He. rewrite He. simpl.
  apply IH; [|by rewrite set_row_length]. apply set_row_shape; [|done]. destruct Hok. split; [|done]. unfold zlen in *. by rewrite Hl.
Qed.

Lemma nth_entry_seqZ (es : list entry) : map (nth_entry es) (seqZ 0 (zlen es)) = es.
Proof.
  apply list_eq. intros i. rewrite map_lookup. destruct (decide (i < length es)%nat) as [Hi|Hi].
  - rewrite lookup_seqZ_lt by (unfold zlen; lia). simpl. destruct (lookup_lt_is_Some_2 es i Hi) as [e He].
    unfold nth_entry. by rewrite Z.add_0_l, Nat2Z.id, He.
  - rewrite lookup_seqZ_ge by (unfold zlen; lia). symmetry. apply lookup_ge_None_2. lia.
Qed.

Lemma entries_rows idx pres segs : length pres = length idx -> length segs = length idx ->
  map en_row (entries idx pres segs) = idx.
Proof.
  revert pres segs. induction idx as [|r idx IH]; intros [|P pres] [|S segs] H1 H2; try done.
  simpl in *. f_equal. apply IH; lia.
Qed.

Lemma segs_of_length lens l : length (segs_of lens l) = length lens.
Proof. revert l. induction lens; intros; simpl; [done|]. by rewrite IHlens. Qed.

(** Rows are set independently of the order. *)
Lemma set_rows_perm t es fs : es ≡ₚ fs -> NoDup (map en_row es) -> Forall (fun e => 0 <= en_row e) es ->
  foldl set_row t es = foldl set_row t fs.
Proof.
  intros HP Hnd Hpos. apply foldl_perm_comm; [done|]. intros a b s Ha Hb.
  rewrite list.Forall_forall in Hpos. destruct (decide (en_row a = en_row b)) as [E|E]; [|by apply set_row_comm; auto].
  enough (a = b) as -> by done. clear -Hnd Ha Hb E. induction es as [|x es IH]; [by apply elem_of_nil in Ha|].
  simpl in Hnd. apply list.NoDup_cons in Hnd as [Hx Hnd].
  assert (Hin : forall y, y ∈ es -> en_row y ∈ map en_row es) by (intros y Hy; apply list_elem_of_fmap; by exists y).
  apply elem_of_cons in Ha as [Ha|Ha], Hb as [Hb|Hb]; [by rewrite Ha, Hb| | |by apply IH].
  - exfalso. apply Hx. rewrite <- Ha, E. auto.
  - exfalso. apply Hx. rewrite <- Hb, <- E. auto.
Qed.

(** ** The loop *)

Lemma write_slice_eq p r row a b vals : get_row p (Some r) = Ok row -> 0 <= r -> 0 <= a <= b -> b <= zlen row ->
  zlen vals = b - a ->
  write_slice p (Some r) a b vals =
    Ok (set_table p (<[Z.to_nat r := take (Z.to_nat a) row ++ vals ++ drop (Z.to_nat b) row]> (req_to_token p))).
Proof.
  intros Hr H0 Ha Hb Hv. unfold write_slice. rewrite Hr. cbn [rbind]. rewrite row_assign_ok by done. cbn [rbind].
  by destruct (Z.ltb_spec r 0); [lia|].
Qed.

Lemma get_row_lookup p r row : 0 <= r -> req_to_token p !! Z.to_nat r = Some row -> get_row p (Some r) = Ok row.
Proof.
  intros H0 H. unfold get_row, py_get. destruct (Z.ltb_spec r 0); [lia|]. destruct (Z.ltb_spec r 0); [lia|]. by rewrite H.
Qed.

(** Both writes of one iteration. *)
Lemma write_twice p r row P N : 0 <= r -> req_to_token p !! Z.to_nat r = Some row ->
  (length P + length N <= length row)%nat ->
  exists p1, write_slice p (Some r) 0 (zlen P) P = Ok p1 /\
    write_slice p1 (Some r) (zlen P) (zlen P + zlen N) N =
      Ok (set_table p (set_row (req_to_token p) {| en_row := r; en_pre := P; en_new := N |})).
Proof.
  intros H0 Hr Hl. pose proof (lookup_lt_Some _ _ _ Hr) as Hlt. pose proof (zlen_nonneg P). pose proof (zlen_nonneg N).
  rewrite (write_slice_eq p r row) by (by apply get_row_lookup || (unfold zlen in *; lia)).
  eexists. split; [done|]. rewrite (write_slice_eq _ r (P ++ drop (length P) row)).
  - simpl. unfold set_table. simpl. do 2 f_equal. rewrite list_insert_insert_eq, to_nat_zlen, take_app_length.
    replace (Z.to_nat (zlen P + zlen N)) with (length P + length N)%nat by (unfold zlen; lia).
    rewrite drop_app_add', drop_drop by done. unfold set_row. simpl.
    apply list_eq. intros i. destruct (decide (i = Z.to_nat r)) as [->|Hne].
    + by rewrite list_lookup_insert_eq, list_lookup_alter_eq, Hr.
    + by rewrite list_lookup_insert_ne, list_lookup_alter_ne.
  - apply get_row_lookup; [done|]. simpl. rewrite list_lookup_insert_eq by done. by rewrite to_nat_zlen.
  - done.
  - lia.
  - rewrite zlen_app. unfold zlen. rewrite length_drop. lia.
  - lia.
Qed.

Lemma write_loop_sets_rows w out : forall idx pre_lens seq_lens ext pres p pt,
  shape w (req_to_token p) -> length pres = length idx -> length ext = length idx ->
  pre_lens = map zlen pres -> seq_lens = zip_with Z.add pre_lens ext ->
  Forall (fun n => 0 <= n) ext -> Forall (fun n => n <= Z.of_nat w) seq_lens ->
  Forall (fun r => 0 <= r < zlen (req_to_token p)) idx -> 0 <= pt -> pt + zsum ext <= zlen out ->
  write_loop p pt out idx pre_lens seq_lens ext pres =
    Ok (set_table p (foldl set_row (req_to_token p) (entries idx pres (segs_of ext (drop (Z.to_nat pt) out))))).
Proof.
  induction idx as [|r idx IH]; intros pre_lens seq_lens [|n ext] [|P pres] p pt Hs H1 H2 -> -> Hext Hfit Hidx Hpt Hout; try done.
  - simpl. by destruct p.
  - simpl in Hfit, Hout |- *. inversion_clear Hext as [|? ? Hn Hext']. inversion_clear Hfit as [|? ? Hf Hfit'].
    inversion_clear Hidx as [|? ? Hr Hidx'].
    assert (Hz : 0 <= zsum ext) by (pose proof (zsum_take_le ext 0 Hext') as Hz; simpl in Hz; lia).
    destruct (lookup_lt_is_Some_2 (req_to_token p) (Z.to_nat r)) as [row Hrow]; [unfold zlen in *; lia|].
    assert (Hw : length row = w) by exact (proj1 (list.Forall_lookup _ _) Hs _ _ Hrow).
    set (N := take (Z.to_nat n) (drop (Z.to_nat pt) out)).
    assert (HN : zlen N = n) by (unfold N, zlen in *; rewrite length_take, length_drop; lia).
    destruct (write_twice p r row P N) as (p1 & E1 & E2); [lia|done|unfold zlen in *; lia|].
    rewrite E1. cbn [rbind]. rewrite py_slice_take_drop by lia. replace (pt + n - pt) with n by lia. fold N.
    rewrite <- HN, E2. cbn [rbind]. rewrite HN.
    set (e := {| en_row := r; en_pre := P; en_new := N |}).
    rewrite IH; try done; [|apply set_row_shape; [|done]|simpl in *; lia|simpl in *; lia|simpl; unfold zlen; by rewrite set_row_length|lia|lia].
    + simpl. fold e. replace (drop (Z.to_nat (pt + n)) out) with (drop (Z.to_nat n) (drop (Z.to_nat pt) out)); [done|].
      rewrite drop_drop. f_equal. lia.
    + split; [done|]. simpl. unfold zlen in *. lia.
Qed.

(** ** Equivalence *)

(** The entries of a well-formed batch have distinct, nonnegative rows. *)
Lemma batch_entries w t idx pre_lens seq_lens ext out pres :
  batch_wf w t idx pre_lens seq_lens ext out pres ->
  let es := entries idx pres (segs_of ext out) in
  map en_row es = idx /\ NoDup (map en_row es) /\ Forall (fun e => 0 <= en_row e) es /\ zlen es = zlen idx.
Proof.
  intros Hb es.
  assert (Hrows : map en_row es = idx) by (apply entries_rows; [apply Hb|rewrite segs_of_length; apply Hb]).
  split_and!; [done|rewrite Hrows; apply Hb| |].
  - apply list.Forall_forall. intros e He.
    assert (He' : en_row e ∈ idx) by (rewrite <- Hrows; apply list_elem_of_fmap; by exists e).
    pose proof (proj1 (list.Forall_forall _ _) (bw_idx _ _ _ _ _ _ _ _ Hb) _ He') as Hr. simpl in Hr. lia.
  - unfold zlen. rewrite <- (length_map en_row es). by rewrite Hrows.
Qed.

(** Rows after a batch of updates. *)
Lemma set_rows_skip es : forall t k, Forall (fun e => Z.to_nat (en_row e) <> k) es -> foldl set_row t es !! k = t !! k.
Proof.
  induction es as [|e es IH]; intros t k Hf; [done|]. inversion_clear Hf as [|? ? H1 H2]. simpl. rewrite IH by done.
  by apply list_lookup_alter_ne.
Qed.

Lemma set_rows_hit es t i e : es !! i = Some e -> NoDup (map en_row es) -> Forall (fun e => 0 <= en_row e) es ->
  foldl set_row t es !! Z.to_nat (en_row e) =
    (fun row => en_pre e ++ en_new e ++ drop (length (en_pre e) + length (en_new e)) row) <$> t !! Z.to_nat (en_row e).
Proof.
  intros He Hnd Hpos. rewrite <- (take_drop_middle _ _ _ He) in Hnd, Hpos |- *.
  rewrite (set_rows_perm _ _ (e :: take i es ++ drop (S i) es)); try done; [|by rewrite Permutation_middle].
  rewrite <- Permutation_middle in Hnd, Hpos. simpl in Hnd |- *. apply list.NoDup_cons in Hnd as [Hx _].
  inversion_clear Hpos as [|? ? H1 H2]. rewrite set_rows_skip; [apply list_lookup_alter_eq|].
  apply list.Forall_forall. intros f Hf Heq. rewrite list.Forall_forall in H2. specialize (H2 f Hf). simpl in H2.
  apply Hx. apply list_elem_of_fmap. exists f. split; [lia|done].
Qed.

Lemma write_cache_indices_ok triton p idx pre_lens seq_lens ext out pres order :
  batch_wf (Z.to_nat (max_context_len p)) (req_to_token p) idx pre_lens seq_lens ext out pres ->
  0 <= max_context_len p -> order ≡ₚ seqZ 0 (zlen idx) ->
  write_cache_indices triton order out idx pre_lens seq_lens ext pres p =
    Ok (set_table p (foldl set_row (req_to_token p) (entries idx pres (segs_of ext out)))).
Proof.
  intros Hb Hw Ho. destruct triton; unfold write_cache_indices.
  2: { rewrite (write_loop_sets_rows (Z.to_nat (max_context_len p))); try apply Hb; try done; lia. }
  destruct (batch_entries _ _ _ _ _ _ _ _ Hb) as (_ & Hnd & Hpos & Hes). set (es := entries idx pres (segs_of ext out)) in *.
  destruct (launch_sets_rows _ _ _ _ _ _ _ _ order (req_to_token p) Hb) as (E & Hs & Hl); [|apply Hb|done|].
  { rewrite Ho. apply list.Forall_forall. intros q Hq%elem_of_seqZ. lia. }
  rewrite Z2Nat.id in E by done. rewrite E, <- Hl, rows_of_concat by done. fold es. do 2 f_equal.
  assert (HP : map (nth_entry es) order ≡ₚ es) by (by rewrite Ho, <- Hes, nth_entry_seqZ).
  apply set_rows_perm; [done| |]; by rewrite HP.
Qed.

(** What the batch wrote, row by row. *)
Lemma batch_rows w p idx pre_lens seq_lens ext out pres :
  batch_wf w (req_to_token p) idx pre_lens seq_lens ext out pres ->
  let p' := set_table p (foldl set_row (req_to_token p) (entries idx pres (segs_of ext out))) in
  (forall i r P S row, idx !! i = Some r -> pres !! i = Some P -> segs_of ext out !! i = Some S ->
     get_row p (Some r) = Ok row -> get_row p' (Some r) = Ok (P ++ S ++ drop (length P + length S) row)) /\
  (forall r, r ∉ idx -> 0 <= r -> get_row p' (Some r) = get_row p (Some r)).
Proof.
  intros Hb p'. destruct (batch_entries _ _ _ _ _ _ _ _ Hb) as (Hrows & Hnd & Hpos & _). split.
  - intros i r P S row H1 H2 H3 H4. set (e := {| en_row := r; en_pre := P; en_new := S |}).
    assert (He : entries idx pres (segs_of ext out) !! i = Some e)
      by (unfold entries; rewrite lookup_zip_with, H1; simpl; by rewrite lookup_zip_with, H2, H3).
    assert (Hr : 0 <= r) by (pose proof (proj1 (list.Forall_lookup _ _) (bw_idx _ _ _ _ _ _ _ _ Hb) _ _ H1) as Hr; simpl in Hr; lia).
    apply get_row_Some in H4 as [_ H4]. destruct (Z.ltb_spec r 0); [lia|].
    apply get_row_lookup; [done|]. pose proof (set_rows_hit _ (req_to_token p) i e He Hnd Hpos) as E. simpl in *. by rewrite E, H4.
  - intros r Hr H0. unfold get_row, py_get. simpl. destruct (Z.ltb_spec r 0); [lia|].
    destruct (Z.ltb_spec r 0); [lia|]. rewrite set_rows_skip; [done|]. apply list.Forall_forall. intros e He Heq.
    apply Hr. rewrite <- Hrows. apply list_elem_of_fmap. exists e. split; [|done].
    rewrite list.Forall_forall in Hpos. specialize (Hpos e He). simpl in Hpos. lia.
Qed.

(** the Triton kernel that writes the slots of an extend batch into the
    request table, in any order of its programs, and the loop of the other
    backends produce the same table, in which the row of each request starts
    with its prefix and its new slots; both succeed on every batch with distinct
    rows, matching lengths and rows long enough. *)
Theorem write_kernel_is_loop p idx pre_lens seq_lens ext out pres order :
  batch_wf (Z.to_nat (max_context_len p)) (req_to_token p) idx pre_lens seq_lens ext out pres ->
  0 <= max_context_len p -> order ≡ₚ seqZ 0 (zlen idx) ->
  exists p', write_cache_indices true order out idx pre_lens seq_lens ext pres p = Ok p' /\
    write_cache_indices false order out idx pre_lens seq_lens ext pres p = Ok p' /\
    (forall i r P S row, idx !! i = Some r -> pres !! i = Some P -> segs_of ext out !! i = Some S ->
       get_row p (Some r) = Ok row -> get_row p' (Some r) = Ok (P ++ S ++ drop (length P + length S) row)) /\
    (forall r, r ∉ idx -> 0 <= r -> get_row p' (Some r) = get_row p (Some r)).
Proof.
  intros Hb Hw Ho. exists (set_table p (foldl set_row (req_to_token p) (entries idx pres (segs_of ext out)))).
  split; [by apply write_cache_indices_ok|]. split; [by apply write_cache_indices_ok|]. by eapply batch_rows.
Qed.

(** ** The last slot of each prefix *)

Definition last_locs (table : list (list Z)) (idx prefix_lens : list Z) : list Z :=
  zip_with (fun i n => if 0 <? n then (table !!! Z.to_nat i) !!! Z.to_nat (n - 1) else -1) idx prefix_lens.

Record locs_wf (w : nat) (table : list (list Z)) (idx prefix_lens : list Z) : Prop := {
  lw_shape : shape w table;
  lw_pos : (0 < w)%nat;
  lw_len : length prefix_lens = length idx;
  lw_idx : Forall (fun i => 0 <= i < zlen table) idx;
  lw_pre : Forall (fun n => 0 <= n <= Z.of_nat w) prefix_lens
}.

Lemma locs_row w table i : shape w table -> 0 <= i < zlen table ->
  exists row, table !! Z.to_nat i = Some row /\ py_get table i = Ok row /\ length row = w.
Proof.
  intros Hs Hi. destruct (lookup_lt_is_Some_2 table (Z.to_nat i)) as [row Hr]; [unfold zlen in *; lia|].
  exists row. split; [done|]. split; [|exact (proj1 (list.Forall_lookup _ _) Hs _ _ Hr)].
  unfold py_get. destruct (Z.ltb_spec i 0); [lia|]. destruct (Z.ltb_spec i 0); [lia|]. by rewrite Hr.
Qed.

Lemma get_last_loc_torch_spec w table : forall idx prefix_lens, locs_wf w table idx prefix_lens ->
  get_last_loc_torch table idx prefix_lens = Ok (last_locs table idx prefix_lens).
Proof.
  intros idx prefix_lens [Hs Hw Hl Hi Hp]. unfold get_last_loc_torch.
  rewrite (rmap_ok _ (fun '(i, n) => (table !!! Z.to_nat i) !!! Z.to_nat (if n - 1 <? 0 then n - 1 + Z.of_nat w else n - 1))).
  - cbn [rbind]. f_equal. clear Hi Hp. revert prefix_lens Hl. induction idx as [|i idx IH]; intros [|n ns] Hl; try done.
    simpl in *. rewrite IH by lia. f_equal. unfold last_locs. simpl. destruct (Z.ltb_spec 0 n); [|done].
    by destruct (Z.ltb_spec (n - 1) 0); [lia|].
  - intros [i n] Hz. pose proof (elem_of_zip_l _ _ _ _ Hz) as Hii. pose proof (elem_of_zip_r _ _ _ _ Hz) as Hnn. rewrite list.Forall_forall in *. specialize (Hi i Hii). specialize (Hp n Hnn). simpl in *.
    destruct (locs_row w table i Hs Hi) as (row & Hr & E & Hlr). rewrite E. cbn [rbind]. rewrite (list_lookup_total_correct _ _ _ Hr).
    unfold py_get, zlen. rewrite Hlr. set (j := if n - 1 <? 0 then _ else _).
    assert (Hj : 0 <= j < Z.of_nat w) by (unfold j; destruct (Z.ltb_spec (n - 1) 0); lia). destruct (Z.ltb_spec j 0); [lia|].
    destruct (lookup_lt_is_Some_2 row (Z.to_nat j)) as [x Hx]; [lia|]. rewrite Hx. f_equal. symmetry. by apply list_lookup_total_correct.
Qed.

Lemma table_lookup w table i j row : shape w table -> table !! i = Some row -> (j < w)%nat ->
  concat table !! (i * w + j)%nat = row !! j.
Proof.
  intros Hs. revert i. induction Hs as [|r table Hr _ IH]; intros [|i] Hi Hj; try done; simpl in *.
  - injection Hi as ->. by rewrite lookup_app_l by lia.
  - rewrite lookup_app_r by lia. rewrite <- (IH i Hi Hj). f_equal. lia.
Qed.

(** One program writes the entries of its block. *)
Lemma last_loc_program w table idx prefix_lens B pid o i :
  locs_wf w table idx prefix_lens -> 0 < B -> 0 <= pid -> (i < length prefix_lens)%nat -> (i < length o)%nat ->
  get_last_loc_kernel (concat table) idx prefix_lens (zlen prefix_lens) (Z.of_nat w) B o pid !! i =
    if (pid * B <=? Z.of_nat i) && (Z.of_nat i <? pid * B + B) then last_locs table idx prefix_lens !! i else o !! i.
Proof.
  intros [Hs Hw Hl Hidx Hp] HB Hpid Hlo Hi. unfold get_last_loc_kernel.
  match goal with |- tl_store ?o ?ls ?a ?v ?m !! i = _ => destruct (tl_store_lookup o ls a v m i) as [H1 H2] end.
  - intros. lia.
  - intros l Hl0%elem_of_seqZ _. nia.
  - apply NoDup_seqZ.
  - done.
  - destruct (_ && _) eqn:E.
    + rewrite (H1 (Z.of_nat i - pid * B)); [|apply elem_of_seqZ; bool_lia|unfold zlen; bool_lia|lia]. cbv beta.
      replace (Z.of_nat i - pid * B + pid * B) with (Z.of_nat i) by lia.
      destruct (Z.ltb_spec (Z.of_nat i) (zlen prefix_lens)); [|unfold zlen in *; lia].
      destruct (lookup_lt_is_Some_2 idx i) as [r Hr]; [lia|]. destruct (lookup_lt_is_Some_2 prefix_lens i) as [n Hn]; [lia|].
      cbn [tl_load_masked]. rewrite (tl_load_lookup _ _ _ Hr), (tl_load_lookup _ _ _ Hn).
      unfold last_locs. rewrite lookup_zip_with, Hr. simpl. rewrite Hn. simpl. f_equal. unfold tl_load_masked.
      destruct (Z.ltb_spec 0 n) as [Hn0|]; [|done].
      pose proof (proj1 (list.Forall_lookup _ _) Hidx _ _ Hr) as Hr'. pose proof (proj1 (list.Forall_lookup _ _) Hp _ _ Hn) as Hn'. simpl in *.
      destruct (locs_row w table r Hs Hr') as (row & Hrow & _ & Hlr). rewrite (list_lookup_total_correct _ _ _ Hrow).
      destruct (lookup_lt_is_Some_2 row (Z.to_nat (n - 1))) as [x Hx]; [lia|].
      rewrite (list_lookup_total_correct _ _ _ Hx).
      replace (r * Z.of_nat w + (n - 1)) with (Z.of_nat (Z.to_nat r * w + Z.to_nat (n - 1))) by nia.
      apply tl_load_lookup. rewrite (table_lookup w table _ _ row) by (done || lia). done.
    + apply H2. intros l Hl0%elem_of_seqZ Hm. bool_lia.
Qed.

(** the slot of the last token of each cached prefix, -1 for an empty
    prefix: the Triton kernel in any order of its programs and the torch
    implementation agree, whatever the result tensor held before. *)
Theorem last_loc_kernel_is_torch w table idx prefix_lens order empty :
  locs_wf w table idx prefix_lens -> order ≡ₚ seqZ 0 (tl_cdiv (zlen prefix_lens) 256) -> length empty = length prefix_lens ->
  get_last_loc_torch table idx prefix_lens = Ok (get_last_loc_triton order empty table (Z.of_nat w) idx prefix_lens).
Proof.
  intros Hwf Ho Hlen. rewrite (get_last_loc_torch_spec w) by done. f_equal. unfold get_last_loc_triton.
  set (prog := get_last_loc_kernel _ _ _ _ _ _).
  assert (Hpl : forall o p, length (prog o p) = length o) by (intros; apply tl_store_length).
  assert (Hll : length (last_locs table idx prefix_lens) = length prefix_lens)
    by (unfold last_locs; rewrite length_zip_with, (lw_len _ _ _ _ Hwf); lia).
  apply list_eq. intros i. destruct (decide (i < length prefix_lens)%nat) as [Hi|Hi].
  2: { rewrite !lookup_ge_None_2; [done|rewrite launch_length by done; lia|lia]. }
  destruct (lookup_lt_is_Some_2 (last_locs table idx prefix_lens) i) as [x Hx]; [lia|]. rewrite Hx. symmetry.
  assert (Hpos : forall p, p ∈ order -> 0 <= p) by (intros p; rewrite Ho; intros Hp%elem_of_seqZ; lia).
  destruct (launch_lookup prog (fun p i => p * 256 <= Z.of_nat i < p * 256 + 256) (fun _ => x) order empty i) as [H1 _].
  - done.
  - intros o p Hp Hl Hr. unfold prog. rewrite last_loc_program by auto with lia.
    by rewrite (proj2 (andb_true_iff _ _)) by (rewrite Z.leb_le, Z.ltb_lt; lia).
  - intros o p Hp Hl Hr. unfold prog. rewrite last_loc_program by auto with lia.
    destruct (_ && _) eqn:E; [|done]. apply andb_prop in E as [E1%Z.leb_le E2%Z.ltb_lt]. lia.
  - intros p. destruct (decide (p * 256 <= Z.of_nat i < p * 256 + 256)); [by left|by right].
  - lia.
  - apply H1. exists (Z.of_nat i / 256). split; [|dlia]. rewrite Ho. apply elem_of_seqZ. unfold tl_cdiv, zlen. dlia.
Qed.

(** ** A concrete table *)

Definition sample_table : list (list Z) := [[1; 2; 3; 0]; [5; 0; 0; 0]; [7; 8; 0; 0]].

Lemma write_kernel_is_loop_witness : exists p',
  write_cache_indices true [1; 0] [9; 10; 11] [2; 0] [1; 3] [3; 4] [2; 1] [[7]; [1; 2; 3]]
    {| pool_size := 3; max_context_len := 4; req_to_token := sample_table; free_slots := [1] |} = Ok p'.
Proof.
  destruct (write_kernel_is_loop {| pool_size := 3; max_context_len := 4; req_to_token := sample_table; free_slots := [1] |}
    [2; 0] [1; 3] [3; 4] [2; 1] [9; 10; 11] [[7]; [1; 2; 3]] [1; 0]) as (p' & E & _).
  - split; try done; try (vm_compute; discriminate); repeat constructor; try (vm_compute; congruence); set_solver.
  - vm_compute. discriminate.
  - apply Permutation_swap.
  - by exists p'.
Defined.

Lemma last_loc_kernel_is_torch_witness :
  get_last_loc_torch sample_table [2; 0; 1] [2; 0; 4] =
    Ok (get_last_loc_triton [0] [0; 0; 0] sample_table 4 [2; 0; 1] [2; 0; 4]) /\
  get_last_loc_torch sample_table [2; 0; 1] [2; 0; 4] = Ok [8; -1; 0].
Proof.
  split; [|reflexivity]. apply (last_loc_kernel_is_torch 4); [|reflexivity|reflexivity].
  split; try done; try lia; repeat constructor; vm_compute; congruence.
Defined.
