(* ===== verification/KVIndices.v ===== *)
(** * The slot list of a batch

    [create_flashinfer_kv_indices_triton] of [layers/attention/utils.py]: one
    program per request copies the request's row of the table, from its start
    position, to its segment of [kv_indices]. *)

From S2P Require Import Prelude Tensors Triton ReqPool TableKernels TableKernelsTheory.

(** [mem] is the table as one flat memory; programs without [kv_start_idx] start at 0. *)
Definition create_flashinfer_kv_indices (mem req_pool_indices page_kernel_lens kv_indptr : list Z) (kv_start_idx : option (list Z))
    (stride : Z) (kv_indices : list Z) (pid : Z) : list Z :=
  let BLOCK_SIZE := 512 in
  let req_pool_index := tl_load req_pool_indices pid in
  let kv_indices_offset := tl_load kv_indptr pid in
  let kv_start := match kv_start_idx with Some starts => tl_load starts pid | None => 0 end in
  let kv_end := kv_start + tl_load page_kernel_lens pid in
  tl_blocks kv_indices BLOCK_SIZE (kv_end - kv_start) kv_indices_offset
    (fun offset => tl_load mem (req_pool_index * stride + kv_start + offset)).

(** ** Segments of a flat list *)

(** The first position of segment [r]. *)
Definition seg_start (lens : list Z) (r : Z) : Z := zsum (take (Z.to_nat r) lens).

Section segments.
Context (lens : list Z) (Hpos : Forall (fun n => 0 <= n) lens).

Lemma tget_nonneg r : 0 <= tget lens r.
Proof using Hpos.
  unfold tget. destruct (lens !! Z.to_nat r) as [x|] eqn:E.
  - rewrite (list_lookup_total_correct _ _ _ E). rewrite list.Forall_forall in Hpos. apply Hpos. by eapply list_elem_of_lookup_2.
  - by rewrite list_lookup_total_alt, E.
Qed.

Lemma seg_start_succ r : 0 <= r < zlen lens -> seg_start lens (r + 1) = seg_start lens r + tget lens r.
Proof.
  intros Hr. unfold seg_start, tget. destruct (lookup_lt_is_Some_2 lens (Z.to_nat r)) as [x E]; [unfold zlen in Hr; lia|].
  replace (Z.to_nat (r + 1)) with (S (Z.to_nat r)) by lia. rewrite (zsum_take_S _ _ _ E). by rewrite (list_lookup_total_correct _ _ _ E).
Qed.

Lemma seg_start_mono r r' : 0 <= r -> r < r' <= zlen lens -> seg_start lens r + tget lens r <= seg_start lens r'.
Proof using Hpos.
  intros H0 Hr. rewrite <- seg_start_succ by lia. unfold seg_start.
  replace (Z.to_nat r') with (Z.to_nat (r + 1) + (Z.to_nat r' - Z.to_nat (r + 1)))%nat by lia.
  rewrite <- take_take_drop, zsum_app.
  pose proof (zsum_take_le (drop (Z.to_nat (r + 1)) lens) (Z.to_nat r' - Z.to_nat (r + 1)) (Forall_drop _ _ _ Hpos)). lia.
Qed.

Lemma seg_start_range r : 0 <= r < zlen lens -> 0 <= seg_start lens r /\ seg_start lens r + tget lens r <= zsum lens.
Proof using Hpos.
  intros Hr. split; [by apply zsum_take_le|]. rewrite <- seg_start_succ by done. by apply zsum_take_le.
Qed.

(** A position belongs to one segment. *)
Lemma seg_unique r r' t t' : 0 <= r < zlen lens -> 0 <= r' < zlen lens -> 0 <= t < tget lens r -> 0 <= t' < tget lens r' ->
  seg_start lens r + t = seg_start lens r' + t' -> r = r' /\ t = t'.
Proof using Hpos.
  intros Hr Hr' Ht Ht' E. destruct (Z.lt_trichotomy r r') as [Hlt|[->|Hlt]]; [|lia|].
  - pose proof (seg_start_mono r r' ltac:(lia) ltac:(lia)). lia.
  - pose proof (seg_start_mono r' r ltac:(lia) ltac:(lia)). lia.
Qed.

(** Programs that fill the segments, in any order. *)
Lemma launch_segments (val : Z -> Z -> Z) prog order out :
  (forall o r, 0 <= r < zlen lens -> prog o r = tl_blocks o 512 (tget lens r) (seg_start lens r) (val r)) ->
  order ≡ₚ seqZ 0 (zlen lens) -> zsum lens <= zlen out ->
  length (launch prog order out) = length out /\
  (forall r t, 0 <= r < zlen lens -> 0 <= t < tget lens r -> launch prog order out !! Z.to_nat (seg_start lens r + t) = Some (val r t)) /\
  (forall i, zsum lens <= Z.of_nat i -> launch prog order out !! i = out !! i).
Proof using Hpos.
  intros Hprog Hord Hout. assert (Hin : forall p, p ∈ order -> 0 <= p < zlen lens) by (intros p Hp; rewrite Hord in Hp; apply elem_of_seqZ in Hp; lia).
  set (prog' := fun o r => if (0 <=? r) && (r <? zlen lens) then prog o r else o).
  assert (Ep : launch prog order out = launch prog' order out).
  { unfold launch. clear Hord. revert out Hout. induction order as [|p l IH]; intros out Hout; [done|]. simpl.
    assert (E : prog out p = prog' out p) by (unfold prog'; specialize (Hin p ltac:(set_solver)); destruct (Z.leb_spec 0 p), (Z.ltb_spec p (zlen lens)); lia || done).
    rewrite E. apply IH; [intros q Hq; apply Hin; set_solver|]. rewrite <- E, Hprog by (apply Hin; set_solver).
    unfold zlen in *. by rewrite tl_blocks_length. }
  assert (Hlen : forall o p, length (prog' o p) = length o).
  { intros o p. unfold prog'. destruct (Z.leb_spec 0 p), (Z.ltb_spec p (zlen lens)); try done. simpl. rewrite Hprog by lia. apply tl_blocks_length. }
  assert (Hl : forall o p i, p ∈ order -> (i < length o)%nat -> prog' o p !! i =
    if (seg_start lens p <=? Z.of_nat i) && (Z.of_nat i <? seg_start lens p + tget lens p) then Some (val p (Z.of_nat i - seg_start lens p)) else o !! i).
  { intros o p i Hp Hi. specialize (Hin p Hp). unfold prog'. destruct (Z.leb_spec 0 p), (Z.ltb_spec p (zlen lens)); try lia. simpl.
    rewrite Hprog by lia. apply tl_blocks_lookup; [lia|by apply seg_start_range|done]. }
  rewrite Ep. split; [by apply launch_length|].
  assert (Hgen : forall i v, (i < length out)%nat ->
    (forall p, p ∈ order -> seg_start lens p <= Z.of_nat i < seg_start lens p + tget lens p -> val p (Z.of_nat i - seg_start lens p) = v) ->
    ((exists p, p ∈ order /\ seg_start lens p <= Z.of_nat i < seg_start lens p + tget lens p) -> launch prog' order out !! i = Some v) /\
    ((forall p, p ∈ order -> ~ seg_start lens p <= Z.of_nat i < seg_start lens p + tget lens p) -> launch prog' order out !! i = out !! i)).
  { intros i v Hi Hv. apply (launch_lookup prog' (fun p i => seg_start lens p <= Z.of_nat i < seg_start lens p + tget lens p) (fun _ => v)); try done.
    - intros o p Hp Ho Hr. rewrite Hl by done. destruct (_ && _) eqn:E; [by rewrite Hv|bool_lia].
    - intros o p Hp Ho Hr. rewrite Hl by done. destruct (_ && _) eqn:E; [bool_lia|done].
    - intros p. lia. }
  split.
  - intros r t Hr Ht. destruct (seg_start_range r Hr) as [S1 S2]. apply Hgen.
    + unfold zlen in *. lia.
    + intros p Hp Hi. rewrite Z2Nat.id in * by lia.
      destruct (seg_unique p r (seg_start lens r + t - seg_start lens p) t (Hin p Hp) Hr ltac:(lia) Ht ltac:(lia)) as [-> Et]. by rewrite Et.
    + exists r. rewrite Z2Nat.id by lia. split; [rewrite Hord; apply elem_of_seqZ; lia|lia].
  - intros i Hi. destruct (decide (i < length out)%nat) as [Hlt|Hge].
    + apply (Hgen i 0 Hlt); intros p Hp; pose proof (seg_start_range p (Hin p Hp)); lia.
    + rewrite !lookup_ge_None_2; [done|lia|rewrite launch_length; [lia|done]].
Qed.
End segments.

(** ** The kernel *)

(** Row starts of the segments, as [kv_indptr] holds them. *)
Definition indptr (lens : list Z) : list Z := 0 :: cumsum lens.

Lemma indptr_start lens r : 0 <= r <= zlen lens -> tget (indptr lens) r = seg_start lens r.
Proof. apply tget_cons_cumsum. Qed.

(** The cell of a table in its flat memory. *)
Lemma flat_cell w t i j : shape w t -> 0 <= i < zlen t -> 0 <= j < Z.of_nat w ->
  tl_load (concat t) (i * Z.of_nat w + j) = tget (t !!! Z.to_nat i) j.
Proof.
  intros Hs. revert i. induction Hs as [|row t Hrow Hs IH]; intros i Hi Hj; [unfold zlen in Hi; simpl in Hi; lia|].
  rewrite tl_load_tget by nia. unfold tget. destruct (Z.eq_dec i 0) as [->|Hne].
  - simpl. by rewrite lookup_total_app_l by lia.
  - specialize (IH (i - 1)). unfold zlen in Hi, IH. simpl length in Hi. simpl concat.
    assert (Hge : Z.of_nat w <= i * Z.of_nat w) by nia. rewrite lookup_total_app_r by lia.
    rewrite tl_load_tget in IH by nia. unfold tget in IH.
    replace (Z.to_nat (i * Z.of_nat w + j) - length row)%nat with (Z.to_nat ((i - 1) * Z.of_nat w + j)) by lia.
    rewrite IH by lia. replace (Z.to_nat i) with (S (Z.to_nat (i - 1))) by lia. done.
Qed.

(** Launched in any order, the kernel lists the slots of every request: entry
    [t] of segment [r] is entry [start + t] of the request's row. *)
Lemma kv_indices_cells w t idx lens starts order out : shape w t -> length idx = length lens ->
  Forall (fun n => 0 <= n) lens -> order ≡ₚ seqZ 0 (zlen lens) -> zsum lens <= zlen out ->
  (forall r, 0 <= r < zlen lens -> 0 <= tget idx r < zlen t /\
     0 <= match starts with Some l => tget l r | None => 0 end /\ match starts with Some l => tget l r | None => 0 end + tget lens r <= Z.of_nat w) ->
  let res := launch (create_flashinfer_kv_indices (concat t) idx lens (indptr lens) starts (Z.of_nat w)) order out in
  length res = length out /\
  (forall r j, 0 <= r < zlen lens -> 0 <= j < tget lens r ->
     res !! Z.to_nat (seg_start lens r + j) = Some (tget (t !!! Z.to_nat (tget idx r)) (match starts with Some l => tget l r | None => 0 end + j))) /\
  (forall i, zsum lens <= Z.of_nat i -> res !! i = out !! i).
Proof.
  intros Hs Hidx Hpos Hord Hout Hrow. set (start := fun r => match starts with Some l => tget l r | None => 0 end) in *.
  destruct (launch_segments lens Hpos (fun r j => tl_load (concat t) (tget idx r * Z.of_nat w + start r + j))
    (create_flashinfer_kv_indices (concat t) idx lens (indptr lens) starts (Z.of_nat w)) order out) as (L & C & F); [|done|done|].
  - intros o r Hr. unfold create_flashinfer_kv_indices. cbv zeta. rewrite !tl_load_tget by lia. rewrite indptr_start by lia.
    assert (Es : match starts with Some l => tl_load l r | None => 0 end = start r) by (unfold start; destruct starts; [by rewrite tl_load_tget by lia|done]).
    rewrite Es. by replace (start r + tget lens r - start r) with (tget lens r) by lia.
  - cbv zeta. split; [done|]. split; [|done]. intros r j Hr Hj. rewrite C by done. f_equal. rewrite <- Z.add_assoc.
    destruct (Hrow r Hr) as (H1 & H2 & H3). apply flat_cell; [done|done|lia].
Qed.
