(* ===== verification/Tagger.v ===== *)
(** * Chat-template tagger and tag-to-bitwidth policy

    Models [srt/managers/triaxial_tagger.py]: the tag codes, the policy table,
    the three passes of [TriaxialTagger.tag], [_mark_span], [bits] and
    [summary].  numpy arrays are lists of integers; in-place updates are state
    passing.  The tokenizer and the JSON reader are arguments. *)

From S2P Require Import Prelude.

Definition TEMPORAL : list string := ["older"; "m2"; "m1"; "current"]%string.
Definition MODAL : list string := ["text"; "image"]%string.
Definition SEMANTIC : list string :=
  ["inst"; "user"; "assistant"; "reasoning"; "tool_call"; "obs"; "delim"]%string.
Definition T_OLDER : Z := 0.
Definition T_M2 : Z := 1.
Definition T_M1 : Z := 2.
Definition T_CUR : Z := 3.
Definition M_TEXT : Z := 0.
Definition M_IMAGE : Z := 1.
Definition S_INST : Z := 0.
Definition S_USER : Z := 1.
Definition S_ASSISTANT : Z := 2.
Definition S_REASONING : Z := 3.
Definition S_TOOL_CALL : Z := 4.
Definition S_OBS : Z := 5.
Definition S_DELIM : Z := 6.

Definition MM_PAD_SHIFT_VALUE : Z := 1000000.

Definition tag_id (t m s : Z) : Z := (t * 2 + m) * 7 + s.

Definition tag_name (code : Z) : result string :=
  let s := code mod 7 in
  let m := (code / 7) mod 2 in
  let t := code / 14 in
  let! tn := py_get TEMPORAL t in
  let! mn := py_get MODAL m in
  let! sn := py_get SEMANTIC s in
  Ok (tn +:+ "|" +:+ mn +:+ "|" +:+ sn)%string.

Record TriaxialSpecialTokens := {
  im_start : Z; im_end : Z; vision_start : Z; vision_end : Z;
  image_pad : Z; video_pad : Z; think_start : Z; think_end : Z;
  tool_call_start : Z; tool_call_end : Z; tool_resp_start : Z; tool_resp_end : Z;
  newline : Z; role_system : Z; role_user : Z; role_assistant : Z; role_tool : Z
}.

Section Tokenizer.
  (** The two methods of the Hugging Face tokenizer that the code calls. *)
Variable convert_tokens_to_ids : string -> option Z.
Variable encode : string -> list Z.

Definition tid (s : string) : Z :=
    match convert_tokens_to_ids s with None => -1 | Some i => i end.

Definition word (s : string) : Z :=
    match encode s with [i] => i | _ => -1 end.

Definition from_tokenizer : TriaxialSpecialTokens := {|
    im_start := tid "<|im_start|>";
    im_end := tid "<|im_end|>";
    vision_start := tid "<|vision_start|>";
    vision_end := tid "<|vision_end|>";
    image_pad := tid "<|image_pad|>";
    video_pad := tid "<|video_pad|>";
    think_start := tid "<think>";
    think_end := tid "</think>";
    tool_call_start := tid "<tool_call>";
    tool_call_end := tid "</tool_call>";
    tool_resp_start := tid "<tool_response>";
    tool_resp_end := tid "</tool_response>";
    newline := word (String (Ascii.ascii_of_nat 10) EmptyString);
    role_system := word "system";
    role_user := word "user";
    role_assistant := word "assistant";
    role_tool := word "tool"
  |}.
End Tokenizer.

(** ** The policy table *)

Module Policy.

(** A rule of the JSON file; a missing axis is [None]. *)
Record rule := {
  r_temporal : option (list string);
  r_modal : option (list string);
  r_semantic : option (list string);
  r_bits : option Z
}.

(** [xs.index(x)] *)
Fixpoint index_of (xs : list string) (x : string) : result Z :=
  match xs with
  | [] => Err ValueError
  | y :: ys => if String.eqb y x then Ok 0 else let! i := index_of ys x in Ok (i + 1)
  end.

Definition axis (names : list string) (sel : option (list string)) : result (list Z) :=
  rmap (index_of names) (default names sel).

(** The triple loop over the selected axes: each selected code gets [b]. *)
Definition apply_axes (lut : list Z) (ts ms ss : list Z) (b : Z) : list Z :=
  foldl (fun lut t =>
    foldl (fun lut m =>
      foldl (fun lut s => set_at lut (tag_id t m s) b) lut ss) lut ms) lut ts.

Definition apply_rule (lut : list Z) (r : rule) : result (list Z) :=
  let! ts := axis TEMPORAL (r_temporal r) in
  let! ms := axis MODAL (r_modal r) in
  let! ss := axis SEMANTIC (r_semantic r) in
  match r_bits r with
  | None => Err KeyError
  | Some b =>
      let! _ := rassert ((b =? 2) || (b =? 4)) in
      Ok (apply_axes lut ts ms ss b)
  end.

(** [TriaxialPolicy.__init__]: the [uint8] table filled with the default, then
    the rules applied last to first. *)
Definition policy_init (default_bits : Z) (rules : list rule) : result (list Z) :=
  if (default_bits <? 0) || (255 <? default_bits) then Err OverflowError
  else rfold apply_rule (replicate 56 default_bits) (reverse rules).

Definition default_rules : list rule :=
  [ {| r_temporal := None; r_modal := None;
       r_semantic := Some ["inst"; "delim"; "tool_call"]%string; r_bits := Some 4 |};
    {| r_temporal := Some ["current"%string]; r_modal := Some ["text"%string];
       r_semantic := None; r_bits := Some 4 |} ].

Definition policy_default : result (list Z) := policy_init 2 default_rules.

Definition current_int4 : result (list Z) :=
  policy_init 2
    [ {| r_temporal := None; r_modal := None;
         r_semantic := Some ["inst"; "delim"; "tool_call"]%string; r_bits := Some 4 |};
      {| r_temporal := Some ["current"%string]; r_modal := None;
         r_semantic := None; r_bits := Some 4 |} ].

(** The parsed policy file: the ["default"] and ["rules"] entries. *)
Record policy_cfg := { cfg_default : option Z; cfg_rules : option (list rule) }.

(** [TriaxialPolicy.from_arg]; [load] stands for opening and parsing the JSON file. *)
Definition from_arg (load : string -> result policy_cfg) (arg : option string)
  : result (list Z) :=
  match arg with
  | None => policy_default
  | Some a =>
      if String.eqb a "default" then policy_default
      else if String.eqb a "current_int4" then current_int4
      else if String.eqb a "all4" then policy_init 4 []
      else if String.eqb a "all2" then policy_init 2 []
      else
        let! cfg := load a in
        policy_init (default 4 (cfg_default cfg)) (default [] (cfg_rules cfg))
  end.

(** The count reported by [describe]. *)
Definition describe (lut : list Z) : Z * Z := (count (fun b => b =? 2) lut, zlen lut).

End Policy.

(** ** The tagger *)

Module Tag.

Section WithTokens.
Context (sp : TriaxialSpecialTokens).

(** Image positions: pad values or the raw image/video pad ids. *)
Definition is_img (x : Z) : bool :=
  (MM_PAD_SHIFT_VALUE <=? x) || (x =? image_pad sp) || (x =? video_pad sp).

Definition special_ids : list Z :=
  [im_start sp; im_end sp; vision_start sp; vision_end sp; think_start sp;
   think_end sp; tool_call_start sp; tool_call_end sp; tool_resp_start sp;
   tool_resp_end sp].

(** [pos = np.nonzero(np.isin(ids, specials))[0]] *)
Definition special_positions (ids : list Z) : list Z :=
  nonzero (map (fun x => existsb (Z.eqb x) special_ids) ids).

Record msg := { m_start : Z; m_end : Z; m_role : Z }.

Definition role_of (tok : Z) : Z :=
  if tok =? role_system sp then S_INST
  else if tok =? role_assistant sp then S_ASSISTANT
  else if tok =? role_tool sp then S_OBS
  else S_USER.

(** Body of the pass 1 loop for one [<|im_start|>] at [st]. *)
Definition segment_at (ids pos : list Z) (st : Z) : msg :=
  let n := zlen ids in
  let role_tok := if st + 1 <? n then tget ids (st + 1) else -1 in
  let ends := List.filter (fun p => (st <? p) && (tget ids p =? im_end sp)) pos in
  let en := match ends with e :: _ => e + 1 | [] => n end in
  {| m_start := st; m_end := en; m_role := role_of role_tok |}.

(** Pass 1: message segmentation. *)
Definition segment (ids : list Z) : list msg :=
  let pos := special_positions ids in
  let starts := List.filter (fun p => tget ids p =? im_start sp) pos in
  map (segment_at ids pos) starts.

(** One iteration of the [_mark_span] loop, for an opening bracket at offset
    [o] of the segment [ids[st:en]]. *)
Definition mark_one (closes : list Z) (st en label : Z) (semantic : list Z) (o : Z)
  : list Z :=
  let c := List.filter (fun x => o <? x) closes in
  let c_end := match c with x :: _ => x | [] => en - st end in
  let semantic := fill_slice semantic (st + o) (st + c_end + 1) label in
  let semantic := set_at semantic (st + o) S_DELIM in
  match c with _ :: _ => set_at semantic (st + c_end) S_DELIM | [] => semantic end.

Definition mark_span (ids semantic : list Z) (st en open_id close_id label : Z)
  : list Z :=
  let seg := py_slice ids st en in
  let opens := nonzero (map (fun x => x =? open_id) seg) in
  match opens with
  | [] => semantic
  | _ =>
      let closes := nonzero (map (fun x => x =? close_id) seg) in
      foldl (mark_one closes st en label) semantic opens
  end.

(** [semantic[st:en][img[st:en]] = S_OBS]: masked assignment through a view. *)
Definition img_obs (ids semantic : list Z) (st en : Z) : list Z :=
  imap (fun i x =>
    if (st <=? Z.of_nat i) && (Z.of_nat i <? en) && is_img (tget ids (Z.of_nat i))
    then S_OBS else x) semantic.

(** Template scaffolding of one message. *)
Definition scaffold (ids semantic : list Z) (st en : Z) : list Z :=
  let n := zlen ids in
  let s := set_at semantic st S_DELIM in
  let s := if st + 1 <? n then set_at s (st + 1) S_DELIM else s in
  let s := if (st + 2 <? n) && (tget ids (st + 2) =? newline sp)
           then set_at s (st + 2) S_DELIM else s in
  if (en - 1 <? n) && (tget ids (en - 1) =? im_end sp) then
    let s := set_at s (en - 1) S_DELIM in
    if (en <? n) && (tget ids en =? newline sp) then set_at s en S_DELIM else s
  else s.

(** Pass 2 for one message. *)
Definition pass2_msg (ids semantic : list Z) (m : msg) : list Z :=
  let st := m_start m in
  let en := m_end m in
  let role := m_role m in
  let s := fill_slice semantic st en role in
  let s := scaffold ids s st en in
  if role =? S_USER then
    let s := img_obs ids s st en in
    mark_span ids s st en (tool_resp_start sp) (tool_resp_end sp) S_OBS
  else if role =? S_ASSISTANT then
    let s := mark_span ids s st en (think_start sp) (think_end sp) S_REASONING in
    mark_span ids s st en (tool_call_start sp) (tool_call_end sp) S_TOOL_CALL
  else s.

(** Pass 2: semantic axis, vision markers last. *)
Definition pass2 (ids : list Z) (msgs : list msg) : list Z :=
  let semantic := replicate (length ids) S_USER in
  let semantic := foldl (pass2_msg ids) semantic msgs in
  mask_fill semantic
    (map (fun x => (x =? vision_start sp) || (x =? vision_end sp)) ids) S_DELIM.

Definition turn_tag (dist : Z) : Z :=
  if dist =? 0 then T_CUR else if dist =? 1 then T_M1 else if dist =? 2 then T_M2 else T_OLDER.

(** Pass 3: temporal axis by user turns. *)
Definition pass3 (ids : list Z) (msgs : list msg) : list Z :=
  let n := zlen ids in
  let temporal := replicate (length ids) T_OLDER in
  let user_starts := map m_start (List.filter (fun m => m_role m =? S_USER) msgs) in
  let n_turns := zlen user_starts in
  if n_turns =? 0 then fill_slice temporal 0 n T_CUR
  else
    let bounds := user_starts ++ [n] in
    let temporal :=
      foldl (fun temporal k =>
        fill_slice temporal (tget bounds k) (tget bounds (k + 1))
          (turn_tag (n_turns - 1 - k))) temporal (seqZ 0 n_turns) in
    fill_slice temporal 0 (tget bounds 0) T_OLDER.

Definition modal_of (ids : list Z) : list Z :=
  mask_fill (replicate (length ids) M_TEXT) (map is_img ids) M_IMAGE.

(** [codes = ((temporal * 2 + modal) * 7 + semantic).astype(uint8)] *)
Definition combine_codes (temporal modal semantic : list Z) : list Z :=
  zip_with (fun tm s => (tm * 7 + s) mod 256)
    (zip_with (fun t m => t * 2 + m) temporal modal) semantic.

Definition tag (ids : list Z) : list Z :=
  let msgs := segment ids in
  combine_codes (pass3 ids msgs) (modal_of ids) (pass2 ids msgs).

End WithTokens.

Record TriaxialTagger := {
  tg_sp : TriaxialSpecialTokens;
  tg_lut : list Z;
  stats_tokens : list Z
}.

Definition tagger_init (sp : TriaxialSpecialTokens) (lut : list Z) : TriaxialTagger :=
  {| tg_sp := sp; tg_lut := lut; stats_tokens := replicate 56 0 |}.

(** [bits]: the per-token bitwidths, and the tagger with its statistics. *)
Definition bits (tg : TriaxialTagger) (ids : list Z) (collect_stats : bool)
  : list Z * TriaxialTagger :=
  let codes := tag (tg_sp tg) ids in
  let tg' :=
    if collect_stats
    then {| tg_sp := tg_sp tg; tg_lut := tg_lut tg;
            stats_tokens := add_at (stats_tokens tg) codes |}
    else tg in
  (map (tget (tg_lut tg)) codes, tg').

(** [summary]: the tags that occur, in ascending code order, with their counts. *)
Definition summary (tg : TriaxialTagger) (ids : list Z) : result (list (string * Z)) :=
  let codes := tag (tg_sp tg) ids in
  let present := List.filter (fun c => 0 <? count (Z.eqb c) codes) (seqZ 0 256) in
  rmap (fun c => let! nm := tag_name c in Ok (nm, count (Z.eqb c) codes)) present.

End Tag.
