(* ===== verification/TaggerTheory.v ===== *)
(** * Properties of the tagger and of the policy table

    Temporal axis against a counting reference, footprint of each message on
    the semantic axis, bounds of the codes, first-match semantics of the policy
    table, and the precision guarantees that follow for system prompts,
    delimiters and images. *)

From S2P Require Import Prelude Tagger.
Import Tag.

Definition user_starts (msgs : list msg) : list Z :=
  map m_start (List.filter (fun m => m_role m =? S_USER) msgs).

(** Reference for the temporal axis: the number of user turns that start
    after position [i] decides the tag. *)
Definition temporal_spec (us : list Z) (i : Z) : Z :=
  match us with
  | [] => T_CUR
  | u :: _ => if i <? u then T_OLDER else turn_tag (count (fun s => i <? s) us)
  end.

(** Facts about the special-token ids that the guarantees rely on: the message
    opener is not an image id nor a span opener, brackets and vision markers
    are not image ids. *)
Record tokens_ok (sp : TriaxialSpecialTokens) : Prop := {
  ok_im_img : is_img sp (im_start sp) = false;
  ok_im_resp : im_start sp <> tool_resp_start sp;
  ok_im_think : im_start sp <> think_start sp;
  ok_im_call : im_start sp <> tool_call_start sp;
  ok_resp_start_img : is_img sp (tool_resp_start sp) = false;
  ok_resp_end_img : is_img sp (tool_resp_end sp) = false;
  ok_vision_start_img : is_img sp (vision_start sp) = false;
  ok_vision_end_img : is_img sp (vision_end sp) = false
}.

Section Facts.
Context (sp : TriaxialSpecialTokens).

(** State of the turn loop after [k] iterations, at one position. *)
Lemma turn_loop_lookup (us : list Z) n (l : list Z) i x (k : nat) :
  StronglySorted Z.lt us -> Forall (fun s => 0 <= s < n) us -> Z.of_nat i < n ->
  l !! i = Some x -> (k <= length us)%nat ->
  foldl (fun temporal k =>
      fill_slice temporal (tget (us ++ [n]) k) (tget (us ++ [n]) (k + 1))
        (turn_tag (zlen us - 1 - k))) l (seqZ 0 (Z.of_nat k)) !! i =
  Some (let c := count (fun s => s <=? Z.of_nat i) us in
        if (1 <=? c) && (c <=? Z.of_nat k) then turn_tag (zlen us - c) else x).
Proof.
  intros Hs Hb Hi Hl. induction k as [|k IH]; intros Hk.
  { simpl. rewrite Hl. f_equal. cbv zeta. bool_lia. }
  replace (Z.of_nat (S k)) with (Z.of_nat k + 1) by lia.
  rewrite seqZ_app, foldl_app by lia. cbn [foldl seqZ seq fmap list_fmap Z.to_nat Pos.to_nat Pos.iter_op].
  change (seqZ (0 + Z.of_nat k) 1) with [Z.of_nat 0 + (0 + Z.of_nat k)]. cbn [foldl].
  replace (Z.of_nat 0 + (0 + Z.of_nat k)) with (Z.of_nat k) by lia.
  set (f := foldl _ _ _) in *.
  assert (Hpos : forall j : nat, (j <= length us)%nat -> 0 <= tget (us ++ [n]) (Z.of_nat j)).
  { intros j Hj. unfold tget. rewrite Nat2Z.id, bounds_lookup by done.
    destruct (us !! j) eqn:E; simpl; [|lia]. rewrite Forall_lookup in Hb.
    specialize (Hb _ _ E). simpl in Hb. lia. }
  rewrite fill_slice_lookup; [|apply Hpos; lia|].
  2:{ replace (Z.of_nat k + 1) with (Z.of_nat (S k)) by lia. apply Hpos; lia. }
  rewrite IH by lia. simpl. f_equal. cbv zeta.
  unfold tget. rewrite !Z2Nat.inj_add, Nat2Z.id by lia.
  replace (k + Z.to_nat 1)%nat with (S k) by lia.
  rewrite !bounds_lookup by lia.
  destruct (lookup_lt_is_Some_2 us k) as [a Ha]; [lia|]. rewrite Ha. simpl default.
  pose proof (sorted_count_le us k a (Z.of_nat i) Hs Ha) as H1.
  set (c := count _ us) in *.
  assert (H2 : default n (us !! S k) <= Z.of_nat i <-> Z.of_nat (S k) + 1 <= c).
  { destruct (us !! S k) as [b|] eqn:E; simpl.
    - by apply sorted_count_le.
    - apply lookup_ge_None in E. pose proof (count_le (fun s => s <=? Z.of_nat i) us).
      unfold zlen in *. subst c. lia. }
  destruct (Z.leb_spec a (Z.of_nat i)), (Z.ltb_spec (Z.of_nat i) (default n (us !! S k))); simpl.
  - replace c with (Z.of_nat k + 1) by lia. bool_lia. f_equal; lia.
  - bool_lia.
  - bool_lia.
  - lia.
Qed.

(** *** Segmentation *)

(** What a recorded message satisfies. *)
Definition msg_ok (ids : list Z) (m : msg) : Prop :=
  0 <= m_start m < zlen ids /\ tget ids (m_start m) = im_start sp /\
  m_start m < m_end m <= zlen ids.

Lemma segment_ok ids m : m ∈ segment sp ids -> msg_ok ids m.
Proof.
  unfold segment. rewrite list_elem_of_fmap. intros (st & -> & Hst).
  apply list_elem_of_In, filter_In in Hst as [Hst Heq].
  apply list_elem_of_In, nonzero_map_elem in Hst as [Hr _].
  unfold msg_ok, segment_at; simpl. split; [done|]. split; [lia|].
  destruct (List.filter _ _) as [|e es] eqn:E; [lia|].
  assert (He : In e (e :: es)) by by left.
  rewrite <- E in He. apply filter_In in He as [He Hc].
  apply list_elem_of_In, nonzero_map_elem in He as [He _].
  apply andb_prop in Hc as [Hc _]. bool_lia.
Qed.

Lemma segment_starts_sorted ids : StronglySorted Z.lt (map m_start (segment sp ids)).
Proof.
  unfold segment. rewrite List.map_map.
  replace (map _ _) with
    (List.filter (fun p => tget ids p =? im_start sp) (special_positions sp ids)).
  - apply StronglySorted_filter, nonzero_sorted.
  - symmetry. apply List.map_id.
Qed.

Lemma segment_complete ids p :
  0 <= p < zlen ids -> tget ids p = im_start sp ->
  exists m, m ∈ segment sp ids /\ m_start m = p.
Proof.
  intros Hp He. exists (segment_at sp ids (special_positions sp ids) p). split; [|done].
  apply list_elem_of_fmap. exists p. split; [done|].
  apply list_elem_of_In, filter_In. split; [|lia].
  apply list_elem_of_In, nonzero_map_elem. split; [done|].
  unfold special_ids; simpl. rewrite He, Z.eqb_refl. done.
Qed.

(** *** Footprint of one message on the semantic axis *)

Lemma mark_one_length closes st en label s o :
  length (mark_one closes st en label s o) = length s.
Proof.
  unfold mark_one. destruct (List.filter _ _); by rewrite ?set_at_length, fill_slice_length.
Qed.

Lemma mark_span_length ids s st en o c l : length (mark_span ids s st en o c l) = length s.
Proof.
  unfold mark_span. destruct (nonzero _) as [|o1 os]; [done|].
  apply foldl_length. intros. apply mark_one_length.
Qed.

Lemma scaffold_length ids s st en : length (scaffold sp ids s st en) = length s.
Proof. unfold scaffold. repeat case_match; by rewrite ?set_at_length. Qed.

Lemma pass2_msg_length ids s m : length (pass2_msg sp ids s m) = length s.
Proof.
  unfold pass2_msg, img_obs.
  repeat case_match; rewrite ?mark_span_length, ?length_imap, ?scaffold_length, ?fill_slice_length; done.
Qed.

(** The value [_mark_span] leaves at position [i]. *)
Lemma mark_one_lookup closes st en label s o i x :
  0 <= st -> 0 <= o -> st <= en -> Forall (fun c => 0 <= c) closes -> s !! i = Some x ->
  exists y, mark_one closes st en label s o !! i = Some y /\
    (Z.of_nat i < st + o -> y = x) /\
    (y = x \/ y = label \/
     (y = S_DELIM /\ (Z.of_nat i = st + o \/ exists c, c ∈ closes /\ Z.of_nat i = st + c))).
Proof.
  intros Hst Ho Hen Hc Hx. unfold mark_one.
  rewrite list.Forall_forall in Hc.
  destruct (List.filter (fun x => o <? x) closes) as [|c cs] eqn:E.
  - rewrite set_at_lookup, fill_slice_lookup, Hx by lia. simpl.
    eexists; split; [done|]. split; intros; bool_lia; naive_solver.
  - assert (Hin : In c (c :: cs)) by by left.
    rewrite <- E in Hin. apply filter_In in Hin as [Hin Hlt].
    apply list_elem_of_In in Hin. specialize (Hc _ Hin).
    rewrite !set_at_lookup, fill_slice_lookup, Hx by lia. simpl.
    eexists; split; [done|]. split; intros; bool_lia; naive_solver.
Qed.


Lemma mark_span_lookup ids s st en open_id close_id label i x :
  0 <= st -> st <= en <= zlen ids -> s !! i = Some x ->
  exists y, mark_span ids s st en open_id close_id label !! i = Some y /\
    (Z.of_nat i < st -> y = x) /\
    (Z.of_nat i = st -> tget ids st <> open_id -> y = x) /\
    (y = x \/ y = label \/
     (y = S_DELIM /\ (tget ids (Z.of_nat i) = open_id \/ tget ids (Z.of_nat i) = close_id))).
Proof.
  intros Hst Hen Hx. unfold mark_span.
  set (seg := py_slice ids st en).
  assert (Hop : Forall (fun o => 0 <= o /\ tget ids (st + o) = open_id)
                  (nonzero (map (fun x => x =? open_id) seg))).
  { rewrite list.Forall_forall. intros o [Ho Ht]%nonzero_map_elem.
    apply py_slice_seg in Ho as Ho'; [|done..]. fold seg in Ho'. bool_lia. }
  assert (Hcl : Forall (fun o => 0 <= o /\ tget ids (st + o) = close_id)
                  (nonzero (map (fun x => x =? close_id) seg))).
  { rewrite list.Forall_forall. intros o [Ho Ht]%nonzero_map_elem.
    apply py_slice_seg in Ho as Ho'; [|done..]. fold seg in Ho'. bool_lia. }
  set (opens := nonzero (map (fun x => x =? open_id) seg)) in *.
  set (closes := nonzero (map (fun x => x =? close_id) seg)) in *.
  clearbody opens closes seg.
  enough (Hfold : exists y, foldl (mark_one closes st en label) s opens !! i = Some y /\
    (Z.of_nat i < st -> y = x) /\
    (Z.of_nat i = st -> tget ids st <> open_id -> y = x) /\
    (y = x \/ y = label \/
     (y = S_DELIM /\ (tget ids (Z.of_nat i) = open_id \/ tget ids (Z.of_nat i) = close_id)))).
  { by destruct opens. }
  revert s x Hx. induction Hop as [|o os [Ho Hoid] _ IH]; intros s x Hx; simpl.
  { exists x. naive_solver. }
  destruct (mark_one_lookup closes st en label s o i x) as (y & Hy & Hlt & Hcase); try done; [lia| |].
  { eapply List.Forall_impl; [|exact Hcl]. simpl. tauto. }
  destruct (IH _ _ Hy) as (z & Hz & H1 & H2 & H3). exists z. split; [done|].
  assert (Hy' : y = x \/ y = label \/
     (y = S_DELIM /\ (tget ids (Z.of_nat i) = open_id \/ tget ids (Z.of_nat i) = close_id))).
  { destruct Hcase as [?|[?|[? [He|(c & Hc & He)]]]]; [tauto..| |].
    - right; right. rewrite He. tauto.
    - right; right. rewrite He. rewrite list.Forall_forall in Hcl. apply Hcl in Hc. tauto. }
  repeat split.
  - intros. rewrite H1, Hlt by lia. done.
  - intros Hi Hne. rewrite H2 by done. apply Hlt.
    assert (o <> 0) by (intros ->; rewrite Z.add_0_r in Hoid; done). lia.
  - destruct H3 as [->|H3]; [done|tauto].
Qed.

(** Template scaffolding touches only positions of the message, or the one
    after it. *)
Lemma scaffold_lookup ids s st en i x :
  0 <= st < zlen ids -> st < en -> s !! i = Some x ->
  exists y, scaffold sp ids s st en !! i = Some y /\
    (y = x \/ y = S_DELIM) /\ (Z.of_nat i < st -> y = x) /\ (Z.of_nat i = st -> y = S_DELIM).
Proof.
  intros Hst Hen Hx. unfold scaffold.
  repeat case_match; rewrite ?set_at_lookup by lia; rewrite Hx; simpl;
    (eexists; split; [done|]); repeat split; intros; bool_lia; tauto.
Qed.

(** Footprint of a message: nothing before its start changes, its start
    becomes a delimiter. *)
Lemma pass2_msg_lookup ids s m i x :
  msg_ok ids m -> tokens_ok sp -> length s = length ids -> s !! i = Some x ->
  exists y, pass2_msg sp ids s m !! i = Some y /\
    (Z.of_nat i < m_start m -> y = x) /\ (Z.of_nat i = m_start m -> y = S_DELIM).
Proof.
  intros (Hst & Him & Hen) [Hni Hn1 Hn2 Hn3 _ _ _ _] Hlen Hx. unfold pass2_msg.
  destruct m as [st en role]; simpl in *.
  assert (Hf : fill_slice s st en role !! i =
     Some (if (st <=? Z.of_nat i) && (Z.of_nat i <? en) then role else x)).
  { rewrite fill_slice_lookup, Hx by lia. done. }
  destruct (scaffold_lookup ids _ st en i _ Hst ltac:(lia) Hf) as (y & Hy & _ & H1 & H2).
  assert (H1' : Z.of_nat i < st -> y = x) by (intros; rewrite H1 by done; bool_lia).
  destruct (role =? S_USER).
  - destruct (mark_span_lookup ids (img_obs sp ids (scaffold sp ids (fill_slice s st en role) st en) st en)
      st en (tool_resp_start sp) (tool_resp_end sp) S_OBS i
      (if (st <=? Z.of_nat i) && (Z.of_nat i <? en) && is_img sp (tget ids (Z.of_nat i)) then S_OBS else y))
      as (z & Hz & G1 & G2 & _); [lia..| |].
    { unfold img_obs. rewrite list_lookup_imap, Hy. done. }
    exists z. split; [done|]. split; intros Hi.
    + rewrite G1 by done. rewrite <- H1' by done. bool_lia.
    + rewrite G2 by (rewrite ?Him; congruence). rewrite Hi, Him, Hni, andb_false_r. auto.
  - destruct (role =? S_ASSISTANT); [|eauto].
    destruct (mark_span_lookup ids (scaffold sp ids (fill_slice s st en role) st en)
      st en (think_start sp) (think_end sp) S_REASONING i y) as (z & Hz & G1 & G2 & _); [lia..|done|].
    destruct (mark_span_lookup ids _ st en (tool_call_start sp) (tool_call_end sp) S_TOOL_CALL i z
      ltac:(lia) ltac:(lia) Hz) as (w & Hw & K1 & K2 & _).
    exists w. split; [done|]. split; intros Hi.
    + rewrite K1, G1; auto.
    + rewrite K2, G2; auto; by rewrite Him.
Qed.

(** *** Whole passes *)

Lemma fold_pass2_length ids msgs s : length (foldl (pass2_msg sp ids) s msgs) = length s.
Proof. apply foldl_length. intros. apply pass2_msg_length. Qed.

(** Messages that start after position [i] do not change it. *)
Lemma fold_pass2_after ids msgs s i x :
  tokens_ok sp -> Forall (msg_ok ids) msgs ->
  Forall (fun m => Z.of_nat i < m_start m) msgs ->
  length s = length ids -> s !! i = Some x ->
  foldl (pass2_msg sp ids) s msgs !! i = Some x.
Proof.
  intros Hok Hm Hi. revert s. induction msgs as [|m msgs IH]; intros s Hlen Hx; [done|].
  apply Forall_cons_1 in Hm as [Hm1 Hm]. apply Forall_cons_1 in Hi as [Hi1 Hi]. simpl.
  destruct (pass2_msg_lookup ids s m i x) as (y & Hy & H1 & _); [done..|].
  apply IH; [done..| |by rewrite Hy, H1]. by rewrite pass2_msg_length.
Qed.

(** The semantic value at [i] is decided by the last message that starts at or
    before [i]: the messages after it all start beyond [i]. *)
Lemma pass2_last_message ids m i :
  tokens_ok sp -> m ∈ segment sp ids -> m_start m <= Z.of_nat i < zlen ids ->
  (forall p, m_start m < p <= Z.of_nat i -> tget ids p <> im_start sp) ->
  exists s, length s = length ids /\
    foldl (pass2_msg sp ids) (replicate (length ids) S_USER) (segment sp ids) !! i
    = pass2_msg sp ids s m !! i.
Proof.
  intros Hok Hin Hi Hno.
  assert (Hall : Forall (msg_ok ids) (segment sp ids))
    by (rewrite list.Forall_forall; apply segment_ok).
  pose proof (segment_starts_sorted ids) as Hs.
  apply list_elem_of_split in Hin as (pre & post & Hsplit). rewrite Hsplit in *.
  rewrite foldl_app. simpl.
  exists (foldl (pass2_msg sp ids) (replicate (length ids) S_USER) pre).
  split; [by rewrite fold_pass2_length, length_replicate|].
  destruct (lookup_lt_is_Some_2 (pass2_msg sp ids
    (foldl (pass2_msg sp ids) (replicate (length ids) S_USER) pre) m) i) as [x Hx].
  { rewrite pass2_msg_length, fold_pass2_length, length_replicate. unfold zlen in Hi; lia. }
  rewrite Hx. apply Forall_app in Hall as [_ Hall]. apply Forall_cons_1 in Hall as [_ Hall].
  apply fold_pass2_after with (x := x); [done|done| | |done].
  - rewrite List.map_app in Hs. simpl in Hs.
    apply StronglySorted_app_1_r, StronglySorted_inv in Hs as [_ Hs].
    rewrite list.Forall_forall in Hs. rewrite list.Forall_forall in Hall.
    rewrite list.Forall_forall. intros m' Hm'.
    assert (m_start m < m_start m') by (apply Hs, list_elem_of_fmap; eauto).
    destruct (Z.le_gt_cases (m_start m') (Z.of_nat i)) as [Hle|]; [|lia].
    destruct (Hall m' Hm') as (_ & Heq & _). exfalso. by apply (Hno (m_start m')).
  - by rewrite pass2_msg_length, fold_pass2_length, length_replicate.
Qed.

Lemma Forall_fill_slice (P : Z -> Prop) l a b v :
  P v -> Forall P l -> Forall P (fill_slice l a b v).
Proof.
  intros Hv Hl. rewrite Forall_lookup in *. intros i x. unfold fill_slice.
  rewrite list_lookup_imap. destruct (l !! i) eqn:E; [|done]. intros [= <-].
  case_match; eauto.
Qed.

Lemma Forall_set_at (P : Z -> Prop) l i v : P v -> Forall P l -> Forall P (set_at l i v).
Proof. intros. by apply Forall_insert. Qed.

Lemma Forall_mask_fill (P : Z -> Prop) l mask v :
  P v -> Forall P l -> Forall P (mask_fill l mask v).
Proof.
  intros Hv Hl. revert mask. induction Hl as [|x l Hx Hl IH]; intros [|b mask]; simpl; auto.
  constructor; [by destruct b|apply IH].
Qed.

Lemma Forall_foldl {A} (P : Z -> Prop) (f : list Z -> A -> list Z) l s :
  (forall s x, Forall P s -> Forall P (f s x)) -> Forall P s -> Forall P (foldl f s l).
Proof. intros H. revert s; induction l; simpl; auto. Qed.

Definition sem_ok (s : Z) : Prop := 0 <= s < 7.

Lemma mark_span_sem ids s st en o c l :
  sem_ok l -> Forall sem_ok s -> Forall sem_ok (mark_span ids s st en o c l).
Proof.
  intros Hl Hs. unfold mark_span. destruct (nonzero _); [done|].
  apply Forall_foldl; [|done]. intros s' x Hs'. unfold mark_one.
  assert (sem_ok S_DELIM) by done.
  repeat case_match; auto using Forall_set_at, Forall_fill_slice.
Qed.

Lemma img_obs_sem ids s st en : Forall sem_ok s -> Forall sem_ok (img_obs sp ids s st en).
Proof.
  intros Hs. rewrite Forall_lookup in *. intros i x. unfold img_obs.
  rewrite list_lookup_imap. destruct (s !! i) eqn:E; [|done]. intros [= <-].
  case_match; [done|eauto].
Qed.

Lemma scaffold_sem ids s st en : Forall sem_ok s -> Forall sem_ok (scaffold sp ids s st en).
Proof.
  intros Hs. assert (sem_ok S_DELIM) by done.
  unfold scaffold. repeat case_match; auto 7 using Forall_set_at.
Qed.

Lemma pass2_sem ids msgs :
  Forall (fun m => sem_ok (m_role m)) msgs -> Forall sem_ok (pass2 sp ids msgs).
Proof.
  intros Hr. assert (HD : sem_ok S_DELIM) by done.
  assert (HO : sem_ok S_OBS) by done. assert (HR : sem_ok S_REASONING) by done.
  assert (HT : sem_ok S_TOOL_CALL) by done. unfold pass2.
  apply Forall_mask_fill; [done|].
  assert (H0 : Forall sem_ok (replicate (length ids) S_USER)) by (by apply Forall_replicate).
  revert H0. generalize (replicate (length ids) S_USER).
  induction Hr as [|m msgs Hm Hr IH]; simpl; intros s Hs; [done|]. apply IH.
  unfold pass2_msg.
  repeat case_match; auto 7 using mark_span_sem, img_obs_sem, scaffold_sem, Forall_fill_slice.
Qed.

Lemma user_starts_facts ids :
  StronglySorted Z.lt (user_starts (segment sp ids)) /\
  Forall (fun s => 0 <= s < zlen ids) (user_starts (segment sp ids)).
Proof.
  split; [apply StronglySorted_map_filter, segment_starts_sorted|].
  rewrite list.Forall_forall. intros s (m & -> & Hm)%list_elem_of_fmap.
  apply list_elem_of_In, filter_In in Hm as [Hm _].
  apply list_elem_of_In, segment_ok in Hm as [Hm _]. done.
Qed.

(** Pass 3 computes the counting reference. *)
Lemma pass3_lookup ids i :
  Z.of_nat i < zlen ids ->
  pass3 ids (segment sp ids) !! i =
    Some (temporal_spec (user_starts (segment sp ids)) (Z.of_nat i)).
Proof.
  intros Hi. destruct (user_starts_facts ids) as [Hs Hb].
  unfold pass3. fold (user_starts (segment sp ids)).
  set (us := user_starts (segment sp ids)) in *.
  assert (Hrep : replicate (length ids) T_OLDER !! i = Some T_OLDER)
    by (apply lookup_replicate; unfold zlen in Hi; split; [done|lia]).
  pose proof (zlen_nonneg ids) as Hn.
  destruct us as [|u us'] eqn:Hus.
  { simpl. rewrite fill_slice_lookup, Hrep by lia. simpl. f_equal. bool_lia. }
  rewrite <- Hus in *. clearbody us.
  assert (Hne : (zlen us =? 0) = false) by (rewrite Hus, zlen_cons; pose proof (zlen_nonneg us'); lia).
  rewrite Hne.
  assert (Hu : tget (us ++ [zlen ids]) 0 = u) by (by rewrite Hus).
  rewrite Hu. rewrite fill_slice_lookup; [|lia|].
  2:{ rewrite Hus in Hb. apply Forall_cons_1 in Hb as [? _]. lia. }
  unfold zlen at 4. rewrite (turn_loop_lookup us (zlen ids) _ i T_OLDER) by done. simpl. f_equal.
  replace (temporal_spec us (Z.of_nat i)) with
    (if Z.of_nat i <? u then T_OLDER else turn_tag (count (fun s => Z.of_nat i <? s) us))
    by (by rewrite Hus).
  rewrite (count_negb (fun s => Z.of_nat i <? s) (fun s => s <=? Z.of_nat i)) by (intros; bool_lia).
  assert (Hc : u <= Z.of_nat i <-> 1 <= count (fun s => s <=? Z.of_nat i) us)
    by (apply (sorted_count_le us 0 u (Z.of_nat i) Hs); by rewrite Hus).
  pose proof (count_le (fun s => s <=? Z.of_nat i) us). unfold zlen in *. bool_lia.
Qed.

Lemma modal_lookup ids i x :
  ids !! i = Some x -> modal_of sp ids !! i = Some (b2z (is_img sp x)).
Proof.
  intros Hx. unfold modal_of. rewrite mask_fill_lookup by (by rewrite length_map, length_replicate).
  assert (Hl : (i < length ids)%nat) by (by eapply lookup_lt_Some).
  rewrite lookup_replicate_2, list_lookup_fmap, Hx by done. simpl.
  by destruct (is_img sp x).
Qed.

Lemma role_sem tok : sem_ok (role_of sp tok).
Proof. unfold role_of. repeat case_match; done. Qed.

Lemma segment_roles ids : Forall (fun m => sem_ok (m_role m)) (segment sp ids).
Proof.
  unfold segment. rewrite list.Forall_forall. intros m (st & -> & _)%list_elem_of_fmap.
  apply role_sem.
Qed.

Lemma temporal_spec_range us i : 0 <= temporal_spec us i < 4.
Proof. unfold temporal_spec, turn_tag. repeat case_match; done. Qed.

(** Every code is the combination of its three axes. *)
Lemma tag_lookup ids i x :
  ids !! i = Some x ->
  exists s, pass2 sp ids (segment sp ids) !! i = Some s /\ sem_ok s /\
    tag sp ids !! i =
      Some (tag_id (temporal_spec (user_starts (segment sp ids)) (Z.of_nat i))
                   (b2z (is_img sp x)) s).
Proof.
  intros Hx. assert (Hl : (i < length ids)%nat) by (by eapply lookup_lt_Some).
  destruct (lookup_lt_is_Some_2 (pass2 sp ids (segment sp ids)) i) as [s Hs].
  { unfold pass2. rewrite mask_fill_length; rewrite fold_pass2_length, length_replicate; [done|].
    by rewrite length_map. }
  exists s. split; [done|].
  assert (Hr : sem_ok s).
  { eapply Forall_lookup_1; [apply pass2_sem, segment_roles|done]. }
  split; [done|]. unfold tag, combine_codes.
  rewrite lookup_zip_with, lookup_zip_with, pass3_lookup, (modal_lookup _ _ x), Hs
    by (done || unfold zlen; lia). simpl. f_equal.
  pose proof (temporal_spec_range (user_starts (segment sp ids)) (Z.of_nat i)).
  unfold sem_ok, tag_id in *. apply Z.mod_small. destruct (is_img sp x); simpl; lia.
Qed.

Lemma tag_length ids : length (tag sp ids) = length ids.
Proof.
  apply Nat.le_antisymm; apply Nat.nlt_ge; intros H.
  - assert (Hm : length (modal_of sp ids) = length ids)
      by (unfold modal_of; rewrite mask_fill_length; rewrite ?length_map, ?length_replicate; done).
    unfold tag, combine_codes in H. rewrite !length_zip_with, Hm in H. lia.
  - destruct (lookup_lt_is_Some_2 _ _ H) as [x Hx].
    destruct (tag_lookup _ _ _ Hx) as (s & _ & _ & Ht).
    apply lookup_lt_Some in Ht. lia.
Qed.

End Facts.

(** ** First-match semantics of the policy table *)

Module PolicyFacts.
Import Policy.

Definition axis_valid (names : list string) (sel : option (list string)) : bool :=
  forallb (fun x => existsb (String.eqb x) names) (default names sel).

(** The rules [policy_init] accepts: known axis values and 2 or 4 bits. *)
Definition rule_valid (r : rule) : bool :=
  axis_valid TEMPORAL (r_temporal r) && axis_valid MODAL (r_modal r) &&
  axis_valid SEMANTIC (r_semantic r) &&
  match r_bits r with Some b => (b =? 2) || (b =? 4) | None => false end.

Definition axis_matches (names : list string) (sel : option (list string)) (i : Z) : bool :=
  match names !! Z.to_nat i with
  | Some x => existsb (String.eqb x) (default names sel)
  | None => false
  end.

Definition rule_matches (t m s : Z) (r : rule) : bool :=
  axis_matches TEMPORAL (r_temporal r) t && axis_matches MODAL (r_modal r) m &&
  axis_matches SEMANTIC (r_semantic r) s.

(** Reference: the first matching rule wins. *)
Definition first_match (default_bits : Z) (rules : list rule) (t m s : Z) : Z :=
  match List.find (rule_matches t m s) rules with
  | Some r => default 0 (r_bits r)
  | None => default_bits
  end.

Lemma index_of_spec names x :
  match index_of names x with
  | Ok i => 0 <= i /\ names !! Z.to_nat i = Some x
  | Err _ => x ∉ names
  end.
Proof.
  induction names as [|y ys IH]; simpl; [apply not_elem_of_nil|].
  destruct (String.eqb_spec y x) as [->|Hne]; [done|].
  destruct (index_of ys x) as [i|e]; simpl.
  - destruct IH as [Hi Hl]. split; [lia|].
    by replace (Z.to_nat (i + 1)) with (S (Z.to_nat i)) by lia.
  - rewrite elem_of_cons. intros [->|]; done.
Qed.

Lemma existsb_elem x l : existsb (String.eqb x) l = true <-> x ∈ l.
Proof.
  rewrite existsb_exists. split.
  - intros (y & Hy & ->%String.eqb_eq). by apply list_elem_of_In.
  - intros Hx. exists x. split; [by apply list_elem_of_In|apply String.eqb_refl].
Qed.

(** Selecting an axis succeeds exactly on known values and selects the indices
    whose names are listed. *)
Lemma axis_spec names sel :
  NoDup names ->
  match axis names sel with
  | Ok js => axis_valid names sel = true /\
             forall i, 0 <= i -> (i ∈ js <-> axis_matches names sel i = true)
  | Err _ => axis_valid names sel = false
  end.
Proof.
  intros Hnd. unfold axis, axis_valid, axis_matches. generalize (default names sel). intros l.
  induction l as [|x l IH]; simpl.
  { split; [done|]. intros i _. split; [by intros ?%elem_of_nil|]. by case_match. }
  pose proof (index_of_spec names x) as Hx.
  destruct (index_of names x) as [j|e]; simpl.
  2:{ destruct (existsb _ names) eqn:E; [|done]. by apply existsb_elem in E. }
  destruct Hx as [Hj Hx].
  assert (Hex : existsb (String.eqb x) names = true).
  { apply existsb_elem, list_elem_of_lookup. eauto. }
  rewrite Hex. destruct (rmap (index_of names) l) as [js|]; simpl; [|done].
  destruct IH as [-> IH]. split; [done|]. intros i Hi. rewrite elem_of_cons, IH by done.
  destruct (names !! Z.to_nat i) as [y|] eqn:Hy.
  - rewrite orb_true_iff, String.eqb_eq. split; [|intros [->|?]; [left|by right]].
    + intros [->|?]; [left; congruence|by right].
    + assert (Z.to_nat i = Z.to_nat j) by (by eapply NoDup_lookup). lia.
  - split; [|done]. intros [->|?]; [congruence|done].
Qed.

(** Writing the same value at a list of positions. *)
Lemma writes_lookup (cs : list Z) (b : Z) l i x :
  Forall (fun c => 0 <= c) cs -> l !! i = Some x ->
  foldl (fun l c => set_at l c b) l cs !! i =
    Some (if bool_decide (Z.of_nat i ∈ cs) then b else x).
Proof.
  intros Hc. revert l x. induction Hc as [|c cs Hc _ IH]; intros l x Hx; simpl; [done|].
  rewrite (IH _ (if Z.of_nat i =? c then b else x)) by (by rewrite set_at_lookup, Hx).
  f_equal. destruct (Z.eqb_spec (Z.of_nat i) c).
  - rewrite (bool_decide_eq_true_2 (_ ∈ c :: cs)) by (subst c; apply elem_of_cons; auto). by case_match.
  - rewrite (bool_decide_ext (_ ∈ c :: cs) (Z.of_nat i ∈ cs)); [done|].
    rewrite elem_of_cons. tauto.
Qed.

Lemma apply_axes_writes lut ts ms ss b :
  apply_axes lut ts ms ss b =
  foldl (fun l c => set_at l c b) lut
    (t ← ts; m ← ms; (fun s => tag_id t m s) <$> ss).
Proof.
  unfold apply_axes. revert lut. induction ts as [|t ts IH]; intros lut; simpl; [done|].
  rewrite foldl_app, IH. f_equal. clear IH. revert lut.
  induction ms as [|m ms IH]; intros lut; simpl; [done|].
  rewrite foldl_app, IH. f_equal. clear IH. revert lut.
  induction ss as [|s ss IH]; intros lut; simpl; [done|]. apply IH.
Qed.

Lemma axis_range names sel js i :
  NoDup names -> axis names sel = Ok js -> i ∈ js -> 0 <= i < zlen names.
Proof.
  intros Hnd Hax. unfold axis in Hax. revert js Hax. generalize (default names sel). intros l.
  induction l as [|x l IH]; simpl; intros js.
  { intros [= <-]. by intros ?%elem_of_nil. }
  pose proof (index_of_spec names x) as Hx. destruct (index_of names x) as [j|]; [|done]. simpl.
  destruct (rmap _ l) as [js'|]; [|done]. intros [= <-]. rewrite elem_of_cons.
  intros [->|Hin]; [|by eapply IH].
  destruct Hx as [? Hx%lookup_lt_Some]. unfold zlen. lia.
Qed.

Lemma tag_id_inj t m s t' m' s' :
  0 <= m < 2 -> 0 <= s < 7 -> 0 <= m' < 2 -> 0 <= s' < 7 ->
  tag_id t m s = tag_id t' m' s' -> t = t' /\ m = m' /\ s = s'.
Proof. unfold tag_id. lia. Qed.

Lemma axes_nodup : NoDup TEMPORAL /\ NoDup MODAL /\ NoDup SEMANTIC.
Proof. repeat split; apply (bool_decide_unpack _); vm_compute; exact I. Qed.

Lemma apply_rule_spec lut r t m s x :
  0 <= t < 4 -> 0 <= m < 2 -> 0 <= s < 7 -> lut !! Z.to_nat (tag_id t m s) = Some x ->
  if rule_valid r then
    exists lut', apply_rule lut r = Ok lut' /\
      lut' !! Z.to_nat (tag_id t m s) =
        Some (if rule_matches t m s r then default 0 (r_bits r) else x)
  else exists e, apply_rule lut r = Err e.
Proof.
  intros Ht Hm Hs Hx. destruct axes_nodup as (N1 & N2 & N3).
  unfold rule_valid, rule_matches, apply_rule.
  pose proof (axis_spec TEMPORAL (r_temporal r) N1) as HT.
  destruct (axis TEMPORAL _) as [ts|] eqn:ET; simpl; [destruct HT as [-> HT]|rewrite HT; simpl; eauto].
  pose proof (axis_spec MODAL (r_modal r) N2) as HM.
  destruct (axis MODAL _) as [ms|] eqn:EM; simpl; [destruct HM as [-> HM]|rewrite HM; simpl; eauto].
  pose proof (axis_spec SEMANTIC (r_semantic r) N3) as HS.
  destruct (axis SEMANTIC _) as [ss|] eqn:ES; simpl; [destruct HS as [-> HS]|rewrite HS; simpl; eauto].
  destruct (r_bits r) as [b|]; simpl; [|eauto].
  destruct ((b =? 2) || (b =? 4)); simpl; [|eauto].
  eexists. split; [done|]. rewrite apply_axes_writes.
  rewrite (writes_lookup _ _ _ _ x); [|rewrite list.Forall_forall|done].
  - f_equal. destruct (axis_matches TEMPORAL _ t && _ && _) eqn:E.
    + rewrite bool_decide_eq_true_2; [done|]. apply andb_prop in E as [[E1 E2]%andb_prop E3].
      apply list_elem_of_bind. exists t. split; [|by apply HT; [lia|]].
      apply list_elem_of_bind. exists m. split; [|by apply HM; [lia|]].
      apply list_elem_of_fmap. exists s. split; [unfold tag_id; lia|by apply HS; [lia|]].
    + rewrite bool_decide_eq_false_2; [done|]. intros Hin. revert E.
      apply list_elem_of_bind in Hin as (t' & (m' & (s' & E' & Hs')%list_elem_of_fmap & Hm')%list_elem_of_bind & Ht').
      pose proof (axis_range _ _ _ _ N2 EM Hm'). pose proof (axis_range _ _ _ _ N3 ES Hs').
      destruct (tag_id_inj t m s t' m' s') as (-> & -> & ->); [done..|unfold tag_id in *; lia|].
      apply HT in Ht' as ->; [|lia]. apply HM in Hm' as ->; [|lia]. by apply HS in Hs' as ->; [|lia].
  - intros c (t' & (m' & (s' & -> & Hs')%list_elem_of_fmap & Hm')%list_elem_of_bind & Ht')%list_elem_of_bind.
    pose proof (axis_range _ _ _ _ N1 ET Ht'). pose proof (axis_range _ _ _ _ N2 EM Hm').
    pose proof (axis_range _ _ _ _ N3 ES Hs'). unfold tag_id. lia.
Qed.

Lemma rfold_app {A S} (f : S -> A -> result S) s l k :
  rfold f s (l ++ k) = (let! s' := rfold f s l in rfold f s' k).
Proof.
  revert s. induction l as [|x l IH]; intros s; simpl; [done|].
  destruct (f s x); simpl; [apply IH|done].
Qed.

Lemma policy_fold lut rules t m s x :
  0 <= t < 4 -> 0 <= m < 2 -> 0 <= s < 7 -> lut !! Z.to_nat (tag_id t m s) = Some x ->
  if forallb rule_valid rules then
    exists lut', rfold apply_rule lut (reverse rules) = Ok lut' /\
      lut' !! Z.to_nat (tag_id t m s) = Some (first_match x rules t m s)
  else exists e, rfold apply_rule lut (reverse rules) = Err e.
Proof.
  intros Ht Hm Hs Hx. induction rules as [|r rules IH]; simpl; [eauto|].
  rewrite reverse_cons, rfold_app. unfold first_match in *. simpl.
  destruct (forallb rule_valid rules).
  - destruct IH as (lut' & -> & Hl). simpl. rewrite andb_true_r.
    pose proof (apply_rule_spec lut' r t m s _ Ht Hm Hs Hl) as Hr.
    destruct (rule_valid r).
    + destruct Hr as (lut'' & -> & Hl'). simpl. eexists; split; [done|].
      rewrite Hl'. by destruct (rule_matches t m s r).
    + destruct Hr as [e ->]. simpl. eauto.
  - rewrite andb_false_r. destruct IH as [e ->]. simpl. eauto.
Qed.

Lemma apply_rule_length lut r lut' : apply_rule lut r = Ok lut' -> length lut' = length lut.
Proof.
  unfold apply_rule. destruct (axis TEMPORAL _); [|done]. destruct (axis MODAL _); [|done].
  destruct (axis SEMANTIC _); [|done]. destruct (r_bits r) as [b|]; [|done]. simpl.
  destruct (_ || _); [|done]. intros [= <-]. rewrite apply_axes_writes.
  apply foldl_length. intros. apply set_at_length.
Qed.

Lemma policy_length d rules lut : policy_init d rules = Ok lut -> length lut = 56%nat.
Proof.
  unfold policy_init. destruct (_ || _); [done|].
  assert (H0 : length (replicate 56 d) = 56%nat) by apply length_replicate.
  revert H0. generalize (replicate 56 d). generalize (reverse rules). intros rs.
  induction rs as [|r rs IH]; intros l Hl; simpl; [by intros [= <-]|].
  destruct (apply_rule l r) as [l'|] eqn:E; [|done]. simpl. apply IH.
  by rewrite (apply_rule_length _ _ _ E).
Qed.

(** C18: building a policy table succeeds exactly when the default fits a byte
    and every rule names known axis values and 2 or 4 bits; the table then gives each
    tag the bits of the first rule that matches it, or the default. *)
Theorem policy_first_match d rules :
  if (0 <=? d) && (d <=? 255) && forallb rule_valid rules then
    exists lut, policy_init d rules = Ok lut /\ length lut = 56%nat /\
      forall t m s, 0 <= t < 4 -> 0 <= m < 2 -> 0 <= s < 7 ->
        lut !! Z.to_nat (tag_id t m s) = Some (first_match d rules t m s)
  else exists e, policy_init d rules = Err e.
Proof.
  unfold policy_init.
  assert (Hl : forall t m s, 0 <= t < 4 -> 0 <= m < 2 -> 0 <= s < 7 ->
    replicate 56 d !! Z.to_nat (tag_id t m s) = Some d).
  { intros. apply lookup_replicate_2. unfold tag_id. lia. }
  replace ((d <? 0) || (255 <? d)) with (negb ((0 <=? d) && (d <=? 255))) by bool_lia.
  destruct ((0 <=? d) && (d <=? 255)) eqn:Ed; simpl; [|eauto].
  pose proof (fun t m s Ht Hm Hs => policy_fold _ rules t m s d Ht Hm Hs (Hl t m s Ht Hm Hs)) as Hf.
  destruct (forallb rule_valid rules).
  - destruct (Hf 0 0 0) as (lut & Hlut & _); [lia..|]. exists lut. split; [done|]. split.
    + apply (policy_length d rules). unfold policy_init.
      by replace ((d <? 0) || (255 <? d)) with false by bool_lia.
    + intros t m s Ht Hm Hs. destruct (Hf t m s Ht Hm Hs) as (lut' & Hlut' & Hx). congruence.
  - apply (Hf 0 0 0); lia.
Qed.
End PolicyFacts.


(** ** Properties of the tagger *)

Section Properties.
Context (sp : TriaxialSpecialTokens).

(** Bits assigned by the default policy, as a closed formula. *)
Definition default_bits_of (t m s : Z) : Z :=
  if (s =? S_INST) || (s =? S_DELIM) || (s =? S_TOOL_CALL) || ((t =? T_CUR) && (m =? M_TEXT))
  then 4 else 2.

Definition default_lut : list Z :=
  Eval vm_compute in match Policy.policy_default with Ok l => l | Err _ => [] end.

Lemma default_lut_ok : Policy.policy_default = Ok default_lut.
Proof. vm_compute. reflexivity. Qed.

Lemma range_case n i : 0 <= i < Z.of_nat n -> i ∈ map Z.of_nat (seq 0 n).
Proof.
  intros Hi. apply list_elem_of_fmap. exists (Z.to_nat i). split; [lia|].
  apply elem_of_seq. lia.
Qed.

Lemma default_lut_lookup t m s :
  0 <= t < 4 -> 0 <= m < 2 -> 0 <= s < 7 ->
  tget default_lut (tag_id t m s) = default_bits_of t m s.
Proof.
  intros Ht Hm Hs. apply (range_case 4) in Ht. apply (range_case 2) in Hm. apply (range_case 7) in Hs.
  assert (H : Forall (fun t => Forall (fun m => Forall (fun s =>
     tget default_lut (tag_id t m s) = default_bits_of t m s)
     (map Z.of_nat (seq 0 7))) (map Z.of_nat (seq 0 2))) (map Z.of_nat (seq 0 4))).
  { repeat constructor. }
  rewrite list.Forall_forall in H. specialize (H t Ht).
  rewrite list.Forall_forall in H. specialize (H m Hm).
  rewrite list.Forall_forall in H. by apply H.
Qed.
Lemma pass2_delim_mask ids i x y :
  ids !! i = Some x ->
  foldl (pass2_msg sp ids) (replicate (length ids) S_USER) (segment sp ids) !! i = Some y ->
  pass2 sp ids (segment sp ids) !! i =
    Some (if (x =? vision_start sp) || (x =? vision_end sp) then S_DELIM else y).
Proof.
  intros Hx Hy. unfold pass2. rewrite mask_fill_lookup.
  - rewrite Hy, list_lookup_fmap, Hx. done.
  - by rewrite length_map, fold_pass2_length, length_replicate.
Qed.

Lemma tget_lookup (l : list Z) i x : l !! i = Some x -> tget l (Z.of_nat i) = x.
Proof. intros H. unfold tget. by rewrite Nat2Z.id, list_lookup_total_alt, H. Qed.

(** Semantic value of a token governed by message [m]. *)
Lemma pass2_governed ids m i x y :
  tokens_ok sp -> m ∈ segment sp ids -> m_start m <= Z.of_nat i ->
  (forall p, m_start m < p <= Z.of_nat i -> tget ids p <> im_start sp) ->
  ids !! i = Some x -> (x =? vision_start sp) || (x =? vision_end sp) = false ->
  (forall s, length s = length ids -> pass2_msg sp ids s m !! i = Some y) ->
  pass2 sp ids (segment sp ids) !! i = Some y.
Proof.
  intros Hok Hin Hi Hno Hx Hv Hy.
  assert (Z.of_nat i < zlen ids) by (apply lookup_lt_Some in Hx; unfold zlen; lia).
  destruct (pass2_last_message sp ids m i) as (s & Hs & Heq); [done..|].
  rewrite (pass2_delim_mask ids i x y), Hv; [done..|]. by rewrite Heq, Hy.
Qed.

Lemma tag_bits ids i x tg cs :
  tg_sp tg = sp -> ids !! i = Some x ->
  exists s, pass2 sp ids (segment sp ids) !! i = Some s /\ sem_ok s /\
    (bits tg ids cs).1 !! i =
      Some (tget (tg_lut tg)
        (tag_id (temporal_spec (user_starts (segment sp ids)) (Z.of_nat i)) (b2z (is_img sp x)) s)).
Proof.
  intros <- Hx. destruct (tag_lookup (tg_sp tg) ids i x Hx) as (s & H1 & H2 & H3).
  exists s. split; [done|]. split; [done|]. unfold bits. simpl.
  by rewrite list_lookup_fmap, H3.
Qed.

Lemma tag_well_formed_aux ids :
  length (tag sp ids) = length ids /\ Forall (fun c => 0 <= c < 56) (tag sp ids).
Proof.
  split; [apply tag_length|]. rewrite Forall_lookup. intros i c Hc.
  assert (Hi : (i < length ids)%nat) by (rewrite <- (tag_length sp); by eapply lookup_lt_Some).
  destruct (lookup_lt_is_Some_2 _ _ Hi) as [x Hx].
  destruct (tag_lookup sp ids i x Hx) as (s & _ & Hs & Ht). rewrite Ht in Hc.
  injection Hc as <-. unfold sem_ok, tag_id in *.
  pose proof (temporal_spec_range (user_starts (segment sp ids)) (Z.of_nat i)).
  destruct (is_img sp x); simpl; lia.
Qed.

(** C20: for every prompt the tagger returns one code per token and every code
    is one of the 56 tag combinations, so the policy lookup never leaves the table. *)
Theorem tag_well_formed ids :
  length (tag sp ids) = length ids /\ Forall (fun c => 0 <= c < 56) (tag sp ids).
Proof. apply tag_well_formed_aux. Qed.

(** the temporal digit of a code depends only on how many user turns start
    after the token ([current] for none, [m1] for one, [m2] for two, [older]
    otherwise and before the first user turn), and the modal digit only on the
    token id. *)
Theorem tag_axes ids i x c :
  ids !! i = Some x -> tag sp ids !! i = Some c ->
  c / 14 = temporal_spec (user_starts (segment sp ids)) (Z.of_nat i) /\
  (c / 7) mod 2 = b2z (is_img sp x).
Proof.
  intros Hx Hc. destruct (tag_lookup sp ids i x Hx) as (s & _ & Hs & Ht).
  rewrite Ht in Hc. injection Hc as <-. unfold sem_ok, tag_id in *.
  generalize (temporal_spec (user_starts (segment sp ids)) (Z.of_nat i)). intros t.
  assert (0 <= b2z (is_img sp x) < 2) by (destruct (is_img sp x); simpl; lia).
  generalize dependent (b2z (is_img sp x)). intros m Hm. split.
  - symmetry. apply (Z.div_unique _ _ _ (m * 7 + s)); lia.
  - replace (((t * 2 + m) * 7 + s) / 7) with (t * 2 + m)
      by (apply (Z.div_unique _ _ _ s); lia).
    rewrite Z.add_comm, Z.mod_add by lia. apply Z.mod_small; lia.
Qed.

(** under the default policy every message opener [<|im_start|>] is stored
    at 4 bits, whatever surrounds it. *)
Theorem im_start_int4 ids i tg cs :
  tokens_ok sp -> tg_sp tg = sp -> tg_lut tg = default_lut ->
  ids !! i = Some (im_start sp) -> (bits tg ids cs).1 !! i = Some 4.
Proof.
  intros Hok Hsp Hlut Hx.
  assert (Hi : Z.of_nat i < zlen ids) by (apply lookup_lt_Some in Hx; unfold zlen; lia).
  destruct (segment_complete sp ids (Z.of_nat i)) as (m & Hm & Hst); [lia|by apply tget_lookup|].
  assert (Hp : pass2 sp ids (segment sp ids) !! i = Some S_DELIM).
  { destruct (pass2_last_message sp ids m i) as (s & Hs & Heq); [done|done|lia|intros; lia|].
    destruct (lookup_lt_is_Some_2 s i) as [y0 Hy0]; [unfold zlen in Hi; lia|].
    destruct (pass2_msg_lookup sp ids s m i y0) as (y & Hy & _ & Hd); [by apply segment_ok|done..|].
    rewrite (pass2_delim_mask ids i _ y Hx) by congruence. rewrite Hd by lia. by case_match. }
  destruct (tag_bits ids i _ tg cs Hsp Hx) as (s & Hs & Hok' & ->). rewrite Hs in Hp.
  injection Hp as ->. rewrite Hlut, default_lut_lookup; [done|apply temporal_spec_range| |done].
  destruct (is_img sp _); simpl; lia.
Qed.

(** under the default policy every token of a system message, from its
    [<|im_start|>] to its [<|im_end|>], is stored at 4 bits, as long as no other
    message opens in between. *)
Theorem system_prompt_int4 ids m i x tg cs :
  tokens_ok sp -> tg_sp tg = sp -> tg_lut tg = default_lut ->
  m ∈ segment sp ids -> m_role m = S_INST -> m_start m <= Z.of_nat i < m_end m ->
  (forall p, m_start m < p <= Z.of_nat i -> tget ids p <> im_start sp) ->
  ids !! i = Some x -> (bits tg ids cs).1 !! i = Some 4.
Proof.
  intros Hok Hsp Hlut Hin Hrole Hi Hno Hx.
  assert (Hn : Z.of_nat i < zlen ids) by (apply lookup_lt_Some in Hx; unfold zlen; lia).
  destruct (pass2_last_message sp ids m i) as (s & Hs & Heq); [done|done|lia|done|].
  destruct (segment_ok sp ids m Hin) as (H1 & H2 & H3).
  destruct (lookup_lt_is_Some_2 s i) as [y0 Hy0]; [unfold zlen in *; lia|].
  destruct (scaffold_lookup sp ids (fill_slice s (m_start m) (m_end m) (m_role m))
    (m_start m) (m_end m) i S_INST) as (y & Hy & Hcase & _); [lia..| |].
  { rewrite fill_slice_lookup, Hy0, Hrole by lia. simpl. f_equal. bool_lia. }
  assert (Hm : pass2_msg sp ids s m !! i = Some y) by (unfold pass2_msg; by rewrite Hrole in *).
  rewrite <- Heq in Hm. pose proof (pass2_delim_mask ids i x y Hx Hm) as Hp.
  destruct (tag_bits ids i x tg cs Hsp Hx) as (s' & Hs' & Hok' & ->). rewrite Hs' in Hp.
  assert (Hcase' : s' = S_INST \/ s' = S_DELIM).
  { destruct (_ || _) in Hp; injection Hp as ->; tauto. }
  rewrite Hlut, default_lut_lookup; [|apply temporal_spec_range|destruct (is_img sp x); simpl; lia|done].
  by destruct Hcase' as [-> | ->].
Qed.

(** C21: under the default policy every image token of a user message is stored
    at 2 bits, in the current turn too. *)
Theorem user_image_int2 ids m i x tg cs :
  tokens_ok sp -> tg_sp tg = sp -> tg_lut tg = default_lut ->
  m ∈ segment sp ids -> m_role m = S_USER -> m_start m <= Z.of_nat i < m_end m ->
  (forall p, m_start m < p <= Z.of_nat i -> tget ids p <> im_start sp) ->
  ids !! i = Some x -> is_img sp x = true -> (bits tg ids cs).1 !! i = Some 2.
Proof.
  intros Hok Hsp Hlut Hin Hrole Hi Hno Hx Himg.
  assert (Hne : forall y, is_img sp y = false -> x <> y) by (intros y ? ->; congruence).
  destruct (segment_ok sp ids m Hin) as (H1 & H2 & H3).
  assert (Hp : pass2 sp ids (segment sp ids) !! i = Some S_OBS).
  { apply (pass2_governed ids m i x); [done|done|lia|done|done| |].
    - apply orb_false_iff; split; apply Z.eqb_neq, Hne; apply Hok.
    - intros s Hs. unfold pass2_msg. rewrite Hrole. change (S_USER =? S_USER) with true. cbv iota.
      destruct (lookup_lt_is_Some_2 (scaffold sp ids
        (fill_slice s (m_start m) (m_end m) S_USER) (m_start m) (m_end m)) i) as [y0 Hy0].
      { rewrite scaffold_length, fill_slice_length. apply lookup_lt_Some in Hx. lia. }
      destruct (mark_span_lookup ids (img_obs sp ids (scaffold sp ids
        (fill_slice s (m_start m) (m_end m) S_USER) (m_start m) (m_end m)) (m_start m) (m_end m))
        (m_start m) (m_end m) (tool_resp_start sp) (tool_resp_end sp) S_OBS i S_OBS)
        as (y & Hy & _ & _ & Hc); [lia|lia| |].
      { unfold img_obs. rewrite list_lookup_imap, Hy0. simpl.
        rewrite (tget_lookup ids i x Hx), Himg. f_equal. bool_lia. }
      rewrite Hy. f_equal. destruct Hc as [?|[?|[_ [E|E]]]]; [done..| |];
        rewrite (tget_lookup ids i x Hx) in E; exfalso; eapply Hne; [|exact E| |exact E]; apply Hok. }
  destruct (tag_bits ids i x tg cs Hsp Hx) as (s' & Hs' & Hok' & ->). rewrite Hs' in Hp.
  injection Hp as ->. rewrite Hlut, default_lut_lookup, Himg; [|apply temporal_spec_range|..]; [|by rewrite Himg|done].
  unfold default_bits_of. simpl. by rewrite andb_false_r.
Qed.

(** C22: a span whose closing bracket is missing is labelled up to and including
    the position just after the message ([en]), one token too far. *)
Theorem unclosed_span_spills ids semantic st en open_id close_id label o i :
  0 <= st -> st <= en <= zlen ids -> length semantic = length ids ->
  nonzero (map (fun x => x =? open_id) (py_slice ids st en)) = [o] ->
  (forall p, st <= p < en -> tget ids p <> close_id) ->
  st + o < Z.of_nat i <= en -> Z.of_nat i < zlen ids ->
  mark_span ids semantic st en open_id close_id label !! i = Some label.
Proof.
  intros Hst Hen Hlen Ho Hno Hi Hn.
  assert (Hcl : nonzero (map (fun x => x =? close_id) (py_slice ids st en)) = []).
  { destruct (nonzero (map (fun x => x =? close_id) (py_slice ids st en))) as [|c cs] eqn:E; [done|].
    assert (Hc : c ∈ nonzero (map (fun x => x =? close_id) (py_slice ids st en)))
      by (rewrite E; by left).
    apply nonzero_map_elem in Hc as [Hr Hc]. destruct (py_slice_seg ids st en c) as [He Hl]; [done..|].
    exfalso. apply (Hno (st + c)); [lia|]. rewrite <- He. bool_lia. }
  assert (Ho0 : 0 <= o).
  { assert (Hin : o ∈ [o]) by by left. rewrite <- Ho in Hin.
    apply nonzero_map_elem in Hin as [Hr _]. lia. }
  destruct (lookup_lt_is_Some_2 semantic i) as [x Hx]; [unfold zlen in *; lia|].
  unfold mark_span. cbv zeta. rewrite Ho, Hcl. simpl. unfold mark_one. simpl.
  rewrite set_at_lookup, fill_slice_lookup, Hx by lia. simpl. f_equal. bool_lia.
Qed.

End Properties.

(** collecting statistics adds exactly one count per token: the total of
    the 56 counters grows by the length of the prompt, and the returned bitwidths do
    not depend on whether statistics are collected. *)
Theorem stats_conserved tg ids :
  length (stats_tokens tg) = 56%nat ->
  zsum (stats_tokens (bits tg ids true).2) = zsum (stats_tokens tg) + zlen ids /\
  length (stats_tokens (bits tg ids true).2) = 56%nat /\
  (bits tg ids true).1 = (bits tg ids false).1.
Proof.
  intros Hlen. unfold bits; simpl. split; [|split; [|done]].
  - destruct (tag_well_formed_aux (tg_sp tg) ids) as [Hl Hr].
    replace (zlen ids) with (zlen (tag (tg_sp tg) ids)) by (unfold zlen; by rewrite Hl).
    generalize dependent (tag (tg_sp tg) ids). intros codes _ Hr. unfold add_at.
    generalize dependent (stats_tokens tg). intros st Hlen.
    revert st Hlen. induction Hr as [|c codes Hc _ IH]; intros st Hlen; simpl.
    { rewrite zlen_nil; lia. }
    rewrite IH by (by rewrite set_at_length). rewrite zsum_set_at, zlen_cons by (unfold zlen; lia). lia.
  - unfold add_at. rewrite foldl_length; [done|]. intros. apply set_at_length.
Qed.

(** ** Concrete instances *)

(** Special-token ids of the Qwen3-VL tokenizer. *)
Definition qwen_tokens : TriaxialSpecialTokens := {|
  im_start := 151644; im_end := 151645; vision_start := 151652; vision_end := 151653;
  image_pad := 151655; video_pad := 151656; think_start := 151667; think_end := 151668;
  tool_call_start := 151657; tool_call_end := 151658;
  tool_resp_start := 151665; tool_resp_end := 151666;
  newline := 198; role_system := 8948; role_user := 872; role_assistant := 77091;
  role_tool := 14172 |}.

Lemma qwen_tokens_ok : tokens_ok qwen_tokens.
Proof. by split. Qed.

(** A system message, a user message with a screenshot, an open assistant turn. *)
Definition demo_prompt : list Z :=
  [151644; 8948; 198; 100; 151645; 198;
   151644; 872; 198; 151652; 1000007; 1000007; 151653; 200; 151645; 198;
   151644; 77091; 198].

Definition demo_tagger : TriaxialTagger := tagger_init qwen_tokens default_lut.

Lemma tag_axes_witness :
  54 / 14 = temporal_spec (user_starts (segment qwen_tokens demo_prompt)) (Z.of_nat 10) /\
  (54 / 7) mod 2 = b2z (is_img qwen_tokens 1000007).
Proof. apply (tag_axes qwen_tokens demo_prompt 10 1000007 54); vm_compute; reflexivity. Defined.

Lemma im_start_int4_witness : (bits demo_tagger demo_prompt false).1 !! 6%nat = Some 4.
Proof.
  apply (im_start_int4 qwen_tokens demo_prompt 6 demo_tagger false); try reflexivity.
  exact qwen_tokens_ok.
Defined.

Lemma system_prompt_int4_witness : (bits demo_tagger demo_prompt false).1 !! 3%nat = Some 4.
Proof.
  apply (system_prompt_int4 qwen_tokens demo_prompt
    {| m_start := 0; m_end := 5; m_role := S_INST |} 3 100 demo_tagger false);
    try reflexivity; try exact qwen_tokens_ok; try (simpl; lia).
  - vm_compute. by left.
  - simpl. intros p Hp. assert (p = 1 \/ p = 2 \/ p = 3) as [-> | [-> | ->]] by lia; by vm_compute.
Defined.

Lemma user_image_int2_witness : (bits demo_tagger demo_prompt false).1 !! 10%nat = Some 2.
Proof.
  apply (user_image_int2 qwen_tokens demo_prompt
    {| m_start := 6; m_end := 15; m_role := S_USER |} 10 1000007 demo_tagger false);
    try reflexivity; try exact qwen_tokens_ok; try (simpl; lia).
  - vm_compute. right; by left.
  - simpl. intros p Hp. assert (p = 7 \/ p = 8 \/ p = 9 \/ p = 10) as [-> | [-> | [-> | ->]]] by lia;
      by vm_compute.
Defined.

(** An assistant message with an unclosed tool call, then a newline: the
    newline at position 5 is labelled as a tool call. *)
Lemma unclosed_span_spills_witness :
  mark_span [151644; 77091; 151657; 7; 151645; 198] [6; 6; 2; 2; 6; 6] 0 5 151657 151658 S_TOOL_CALL
    !! 5%nat = Some S_TOOL_CALL.
Proof.
  apply (unclosed_span_spills [151644; 77091; 151657; 7; 151645; 198] [6; 6; 2; 2; 6; 6]
    0 5 151657 151658 S_TOOL_CALL 2 5); try reflexivity; try (unfold zlen; simpl; lia).
  intros p Hp. assert (p = 0 \/ p = 1 \/ p = 2 \/ p = 3 \/ p = 4)
    as [-> | [-> | [-> | [-> | ->]]]] by lia; by vm_compute.
Defined.

Lemma stats_conserved_witness :
  zsum (stats_tokens (bits demo_tagger demo_prompt true).2) =
    zsum (stats_tokens demo_tagger) + zlen demo_prompt /\
  length (stats_tokens (bits demo_tagger demo_prompt true).2) = 56%nat /\
  (bits demo_tagger demo_prompt true).1 = (bits demo_tagger demo_prompt false).1.
Proof. apply (stats_conserved demo_tagger demo_prompt). reflexivity. Defined.
