(* ===== verification/TriaxialPool.v ===== *)
(** * The mixed INT2/INT4 KV pool

    Models [srt/mem_cache/triaxial_pool.py], class [TriaxialKVPool] and the
    size helpers. *)

From S2P Require Import Prelude Floats.

Definition PAGE : Z := 32.

(** Bytes for K and V of one token in one layer. *)
Definition triaxial_bytes_per_token_layer (head_num head_dim bits : Z) : result Z :=
  let! _ := rassert ((bits =? 2) || (bits =? 4)) in
  let groups := head_dim / 32 in
  let per_head :=
    if bits =? 4 then head_dim / 2 + groups * 4
    else (head_dim * 12) / 32 + head_dim / 4 + groups * 4 in
  Ok (if bits =? 4 then 2 * head_num * per_head else head_num * per_head).

(** Average bytes per token over all layers for an INT2 slot fraction. *)
Definition triaxial_cell_size (head_num head_dim num_layers : Z) (int2_fraction : f64)
  : result Z :=
  let! b2 := triaxial_bytes_per_token_layer head_num head_dim 2 in
  let! b4 := triaxial_bytes_per_token_layer head_num head_dim 4 in
  f64_round
    (f64_mul
      (f64_add (f64_mul int2_fraction (f64_of_Z b2))
               (f64_mul (f64_sub f64_one int2_fraction) (f64_of_Z b4)))
      (f64_of_Z num_layers)).

(** The slot layout computed by the constructor. *)
Record PoolSizes := {
  ps_size : Z;
  int2_fraction : f64;
  usable_int2 : Z;
  usable_int4 : Z;
  num_pages2 : Z;
  offset : Z;
  size2 : Z;
  size4 : Z;
  num_slots : Z
}.

Definition pool_sizes (size page_size head_dim : Z) (fraction : f64) : result PoolSizes :=
  let! _ := rassert (page_size =? 1) in
  let! _ := rassert (head_dim mod 32 =? 0) in
  let! share := f64_int (f64_mul (f64_of_Z size) fraction) in
  let usable_pages2 := share / PAGE in
  let u2 := usable_pages2 * PAGE in
  let u4 := size - u2 in
  let np := usable_pages2 + 1 in
  let off := np * PAGE in
  Ok {| ps_size := size; int2_fraction := fraction;
        usable_int2 := u2; usable_int4 := u4;
        num_pages2 := np; offset := off; size2 := off;
        size4 := u4 + 1; num_slots := off + (u4 + 1) |}.
