(* ===== verification/TriaxialBuffers.v ===== *)
(** * The buffers of the mixed INT2 / INT4 pool

    Class [TriaxialKVPool] of [srt/mem_cache/triaxial_pool.py]: the tensors of
    every layer, the grouping of a batch of slots, and the two write paths.
    The eight buffers of the pool are kept as the per-layer views the code
    works on.  A slot tensor carries an identity, since the grouping is cached
    by object. *)

From S2P Require Import Prelude Floats DeviceFloats DeviceMemory QuantKernels DequantKernels TriaxialPool.

Record slot_tensor := { loc_id : nat; loc_slots : list Z }.

Record Grouping := {
  idx4 : list Z; rows4 : list Z; idx2 : list Z; slots2 : list Z; tok_rows : list (list Z); g_pages : list Z
}.

Record TriaxialKVPool := {
  pool_shape : PoolSizes;
  head_num : Z;
  pool_head_dim : Z;
  start_layer : Z;
  layer_views : list TriaxialLayerKV;
  grp_loc : option nat;
  grp : option Grouping
}.

(** ** Buffers *)

Definition zeros {A} (sh : list Z) (z : A) : tensor A := {| shape := sh; elems := fun _ => z |}.

(** The view of one layer of the freshly created buffers. *)
Definition new_layer (s : PoolSizes) (H D : Z) : TriaxialLayerKV :=
  let G := D / 32 in
  {| kv_offset := offset s;
     k2_data := zeros [num_pages2 s; H; D; 8] 0; k2_meta := zeros [num_pages2 s; H; D; 2] f_zero;
     v2_data := zeros [size2 s; H; D / 4] 0; v2_meta := zeros [size2 s; H; G; 2] f_zero;
     k4_data := zeros [size4 s; H; D / 2] 0; k4_meta := zeros [size4 s; H; G; 2] f_zero;
     v4_data := zeros [size4 s; H; D / 2] 0; v4_meta := zeros [size4 s; H; G; 2] f_zero |}.

Definition create_buffers (s : PoolSizes) (layer_num H D : Z) : list TriaxialLayerKV :=
  map (fun _ => new_layer s H D) (seqZ 0 layer_num).

Definition pool_init (size page_size head_num head_dim layer_num first_layer : Z) (fraction : f64) : result TriaxialKVPool :=
  let! s := pool_sizes size page_size head_dim fraction in
  Ok {| pool_shape := s; head_num := head_num; pool_head_dim := head_dim; start_layer := first_layer;
        layer_views := create_buffers s layer_num head_num head_dim; grp_loc := None; grp := None |}.

(** Elements of one layer, by element size: bytes have size 1, fp16 has size 2. *)
Definition layer_bytes (kv : TriaxialLayerKV) : Z :=
  numel (k2_data kv) + numel (k2_meta kv) * 2 + numel (v2_data kv) + numel (v2_meta kv) * 2 +
  numel (k4_data kv) + numel (k4_meta kv) * 2 + numel (v4_data kv) + numel (v4_meta kv) * 2.

Definition get_kv_size_bytes (p : TriaxialKVPool) : Z := zsum (map layer_bytes (layer_views p)).

Definition layer_kv (p : TriaxialKVPool) (layer_id : Z) : result TriaxialLayerKV :=
  py_get (layer_views p) (layer_id - start_layer p).

Definition set_layer (p : TriaxialKVPool) (layer_id : Z) (kv : TriaxialLayerKV) : TriaxialKVPool :=
  let i := layer_id - start_layer p in
  let i := if i <? 0 then zlen (layer_views p) + i else i in
  {| pool_shape := pool_shape p; head_num := head_num p; pool_head_dim := pool_head_dim p; start_layer := start_layer p;
     layer_views := <[Z.to_nat i := kv]> (layer_views p); grp_loc := grp_loc p; grp := grp p |}.

Definition get_v_head_dim (p : TriaxialKVPool) : Z := pool_head_dim p.

Definition get_key_buffer (p : TriaxialKVPool) (layer_id : Z) : result unit := Err RuntimeError.
Definition get_value_buffer (p : TriaxialKVPool) (layer_id : Z) : result unit := Err RuntimeError.
Definition get_kv_buffer (p : TriaxialKVPool) (layer_id : Z) : result unit := Err RuntimeError.

(** ** Grouping *)

Definition by_slot (a b : Z * Z) : Prop := a.1 <= b.1.
#[global] Instance by_slot_dec a b : Decision (by_slot a b).
Proof. unfold by_slot. apply _. Defined.

(** Split [loc] into INT4 rows, INT2 value rows and INT2 key pages. *)
Definition compute_grouping (off : Z) (loc : list Z) : result Grouping :=
  let is4 := map (fun s => off <=? s) loc in
  let i4 := nonzero is4 in
  let r4 := map (fun i => tget loc i - off) i4 in
  let is2 := map (fun s => negb (off <=? s) && (PAGE <=? s)) loc in
  let i2 := nonzero is2 in
  let s2 := map (tget loc) i2 in
  if 0 <? zlen s2 then
    let sorted := merge_sort by_slot (zip s2 i2) in
    let! _ := rassert (zlen sorted mod PAGE =? 0) in
    Ok {| idx4 := i4; rows4 := r4; idx2 := i2; slots2 := s2;
          tok_rows := reshape 32 (map snd sorted);
          g_pages := map (fun r => tget r 0 / PAGE) (reshape 32 (map fst sorted)) |}
  else Ok {| idx4 := i4; rows4 := r4; idx2 := i2; slots2 := s2; tok_rows := []; g_pages := [] |}.

(** The grouping of the last slot tensor seen is reused for the same object. *)
Definition grouping (p : TriaxialKVPool) (loc : slot_tensor) : result (Grouping * TriaxialKVPool) :=
  let fresh :=
    let! g := compute_grouping (offset (pool_shape p)) (loc_slots loc) in
    Ok (g, {| pool_shape := pool_shape p; head_num := head_num p; pool_head_dim := pool_head_dim p; start_layer := start_layer p;
              layer_views := layer_views p; grp_loc := Some (loc_id loc); grp := Some g |}) in
  match grp_loc p, grp p with
  | Some i, Some g => if (i =? loc_id loc)%nat then Ok (g, p) else fresh
  | _, _ => fresh
  end.

(** ** Writes *)

Section writes.
(** The order of the programs of the [k]-th launch of a call. *)
Context (sched : nat -> Z -> Z -> list (Z * Z)).

(** [x[idx].contiguous()] for a tensor of shape [n, H, D]. *)
Definition take_rows (x : tensor spec_float) (idx : list Z) : tensor spec_float :=
  let w := dim x 1 * dim x 2 in
  {| shape := [zlen idx; dim x 1; dim x 2]; elems := fun a => elems x (tget idx (a / w) * w + a mod w) |}.

(** Inputs that are neither bf16 nor fp16 are converted to bf16. *)
Definition to_half (half : bool) (x : tensor spec_float) : tensor spec_float :=
  if half then x else with_elems x (fun a => bf16_of (elems x a)).

Definition set4 (kv : TriaxialLayerKV) (k v : tensor Z * tensor spec_float) : TriaxialLayerKV :=
  {| kv_offset := kv_offset kv; k2_data := k2_data kv; k2_meta := k2_meta kv; v2_data := v2_data kv; v2_meta := v2_meta kv;
     k4_data := k.1; k4_meta := k.2; v4_data := v.1; v4_meta := v.2 |}.

Definition set2 (kv : TriaxialLayerKV) (k v : tensor Z * tensor spec_float) : TriaxialLayerKV :=
  {| kv_offset := kv_offset kv; k2_data := k.1; k2_meta := k.2; v2_data := v.1; v2_meta := v.2;
     k4_data := k4_data kv; k4_meta := k4_meta kv; v4_data := v4_data kv; v4_meta := v4_meta kv |}.

(** The INT4 and the INT2 half of a write, on one layer. *)
Definition write4 (kv : TriaxialLayerKV) (g : Grouping) (cache_k cache_v : tensor spec_float) : result TriaxialLayerKV :=
  if 0 <? zlen (rows4 g) then
    let n := zlen (idx4 g) in
    let! k := quant_int4_tokens (sched 0 n (dim cache_k 1)) (take_rows cache_k (idx4 g)) (rows4 g) (k4_data kv) (k4_meta kv) in
    let! v := quant_int4_tokens (sched 1 n (dim cache_v 1)) (take_rows cache_v (idx4 g)) (rows4 g) (v4_data kv) (v4_meta kv) in
    Ok (set4 kv k v)
  else Ok kv.

Definition write2 (kv : TriaxialLayerKV) (g : Grouping) (cache_k cache_v : tensor spec_float) : result TriaxialLayerKV :=
  if 0 <? zlen (slots2 g) then
    let! v := quant_int2_v_tokens (sched 2 (zlen (idx2 g)) (dim cache_v 1)) (take_rows cache_v (idx2 g)) (slots2 g) (v2_data kv) (v2_meta kv) in
    let! k := quant_int2_k_pages (sched 3 (zlen (g_pages g)) (dim cache_k 1)) cache_k (tok_rows g) (g_pages g) (k2_data kv) (k2_meta kv) in
    Ok (set2 kv k v)
  else Ok kv.

(** [cache_k] and [cache_v] are viewed as [n, head_num, head_dim]. *)
Definition set_kv_buffer (p : TriaxialKVPool) (layer_id : Z) (loc : slot_tensor) (half : bool) (cache_k cache_v : tensor spec_float)
  : result TriaxialKVPool :=
  let! kv := layer_kv p layer_id in
  let cache_k := to_half half cache_k in
  let cache_v := to_half half cache_v in
  let! (g, p1) := grouping p loc in
  let! kv1 := write4 kv g cache_k cache_v in
  let! kv2 := write2 kv1 g cache_k cache_v in
  Ok (set_layer p1 layer_id kv2).

(** Decode batches: every slot is INT4; padded tokens, with slot 0, go to the dummy row 0. *)
Definition set_kv_buffer_int4 (p : TriaxialKVPool) (layer_id : Z) (loc : list Z) (half : bool) (cache_k cache_v : tensor spec_float)
  : result TriaxialKVPool :=
  let! kv := layer_kv p layer_id in
  let rows := map (fun s => Z.max (s - offset (pool_shape p)) 0) loc in
  let cache_k := to_half half cache_k in
  let cache_v := to_half half cache_v in
  let n := dim cache_k 0 in
  let! k := quant_int4_tokens (sched 0 n (dim cache_k 1)) cache_k rows (k4_data kv) (k4_meta kv) in
  let! v := quant_int4_tokens (sched 1 n (dim cache_v 1)) cache_v rows (v4_data kv) (v4_meta kv) in
  Ok (set_layer p layer_id (set4 kv k v)).
End writes.
