(* ===== verification/ExtendPlan.v ===== *)
(** * Prefill attention over the mixed pool

    Classes [_TriaxialIndicesUpdaterPrefill] and [TriaxialFlashInferBackend] of
    [layers/attention/triaxial_backend.py].  The FlashInfer wrapper runs over a
    scratch buffer that holds the dequantised prefixes of the batch followed by
    its new tokens; the plan maps every position of every request to its row of
    the scratch.  FlashInfer itself is a library: the attention it computes is a
    parameter of [forward_extend]. *)

From S2P Require Import Prelude Tensors Triton Floats DeviceFloats DeviceMemory QuantKernels DequantKernels TriaxialPool TriaxialBuffers ReqPool KVIndices.

Record TriaxialExtendMeta := { prefix_slots : list Z; num_prefix : Z; num_new : Z }.

(** The arguments of [wrapper_paged.begin_forward] that depend on the batch. *)
Record WrapperPlan := { plan_qo_indptr : list Z; plan_kv_indptr : list Z; plan_kv_indices : list Z }.

Definition zip_where (mask : list bool) (a b : list Z) : list Z :=
  zip_with (fun (m : bool) '(x, y) => if m then x else y) mask (zip a b).

(** Scratch rows: prefix rows first, then new rows; and the positions of the prefix tokens. *)
Definition scratch_plan (seq_lens_np prefix_np : list Z) (P : Z) : list Z * list Z :=
  let pos_in_req := concat (map (arange 0) seq_lens_np) in
  let is_prefix := zip_with Z.ltb pos_in_req (repeat_interleave prefix_np seq_lens_np) in
  let pidx := map (fun c => c - 1) (cumsum (map b2z is_prefix)) in
  let nidx := map (fun c => c - 1) (cumsum (map b2z (map negb is_prefix))) in
  (zip_where is_prefix pidx (map (fun n => P + n) nidx), nonzero is_prefix).

Section plan.
(** Program order of the launch, and the contents of the two uninitialised tensors. *)
Context (order : list Z) (empty_slots empty_indices : list Z).

Definition call_begin_forward (rt : ReqToTokenPool) (seq_lens_cpu extend_prefix_lens_cpu : list Z)
    (req_pool_indices paged_kernel_lens seq_lens prefix_lens : list Z) (kv_start_idx : option (list Z)) (kv_indptr qo_indptr : list Z)
    (use_ragged has_spec_info use_sliding_window_kv_pool multi_item_enabled : bool) : result (TriaxialExtendMeta * WrapperPlan) :=
  let! _ := rassert (negb has_spec_info) in
  let! _ := rassert (negb use_ragged && negb use_sliding_window_kv_pool) in
  let! _ := rassert (negb multi_item_enabled) in
  let bs := zlen seq_lens in
  let! _ := rassert (zlen extend_prefix_lens_cpu =? bs) in
  let total := zsum seq_lens_cpu in
  let P := zsum extend_prefix_lens_cpu in
  let N := total - P in
  let! kv_buf := row_assign kv_indptr 1 (bs + 1) (cumsum paged_kernel_lens) in
  let kv_indptr := slice_to kv_buf (bs + 1) in
  let kv_slots := launch (create_flashinfer_kv_indices (concat (req_to_token rt)) req_pool_indices paged_kernel_lens kv_indptr kv_start_idx
                            (max_context_len rt)) order empty_slots in
  let '(scratch_rows, prefix_pos) := scratch_plan seq_lens_cpu extend_prefix_lens_cpu P in
  let prefix_slots := if 0 <? P then map (tget kv_slots) prefix_pos else [] in
  let! kv_indices := row_assign empty_indices 0 total scratch_rows in
  let! qo_buf := row_assign qo_indptr 1 (bs + 1) (cumsum (zip_with Z.sub seq_lens prefix_lens)) in
  Ok ({| prefix_slots := prefix_slots; num_prefix := P; num_new := N |},
      {| plan_qo_indptr := slice_to qo_buf (bs + 1); plan_kv_indptr := kv_indptr; plan_kv_indices := kv_indices |}).

(** The batch fields that the planning reads. *)
Record ForwardBatch := {
  fb_is_extend : bool;
  fb_req_pool_indices : list Z;
  fb_seq_lens : list Z;
  fb_seq_lens_cpu : list Z;
  fb_extend_prefix_lens : list Z;
  fb_extend_prefix_lens_cpu : list Z;
  fb_out_cache_loc : slot_tensor
}.

(** [FlashInferIndicesUpdaterPrefill.update_single_wrapper], without ragged wrapper. *)
Definition update_single_wrapper (rt : ReqToTokenPool) (kv_indptr qo_indptr : list Z) (fb : ForwardBatch) : result (TriaxialExtendMeta * WrapperPlan) :=
  call_begin_forward rt (fb_seq_lens_cpu fb) (fb_extend_prefix_lens_cpu fb) (fb_req_pool_indices fb) (fb_seq_lens fb) (fb_seq_lens fb)
    (fb_extend_prefix_lens fb) None kv_indptr qo_indptr false false false false.

(** The state of the backend between planning and the layers of one batch. *)
Record ExtendState := {
  es_meta : TriaxialExtendMeta;
  es_plan : WrapperPlan;
  scratch_k : tensor spec_float;
  scratch_v : tensor spec_float
}.

(** [empty_k] and [empty_v] are the contents of the fresh scratch tensors. *)
Definition init_forward_metadata (rt : ReqToTokenPool) (kv_indptr qo_indptr : list Z) (H D : Z) (empty_k empty_v : mem spec_float) (fb : ForwardBatch)
  : result ExtendState :=
  let! _ := rassert (fb_is_extend fb) in
  let! (meta, plan) := update_single_wrapper rt kv_indptr qo_indptr fb in
  let total := num_prefix meta + num_new meta in
  Ok {| es_meta := meta; es_plan := plan;
        scratch_k := {| shape := [total; H; D]; elems := empty_k |}; scratch_v := {| shape := [total; H; D]; elems := empty_v |} |}.
End plan.

(** [x[a : a + n].copy_(src)] for rows of [w] elements; one row is broadcast. *)
Definition copy_rows (t : dtype) (x : tensor spec_float) (a n w : Z) (src : tensor spec_float) : result (tensor spec_float) :=
  let put (addr : Z -> Z) :=
    with_elems x (fun c => if (a * w <=? c) && (c <? (a + n) * w) then cast_to t (elems src (addr (c - a * w))) else elems x c) in
  if dim src 0 =? n then Ok (put (fun c => c))
  else if dim src 0 =? 1 then Ok (put (fun c => c mod w))
  else Err RuntimeError.

Section forward.
Context (sched : nat -> Z -> Z -> list (Z * Z)) (gather_order : list (Z * Z)).
(** What the wrapper computes from its plan, the queries and the scratch. *)
Context {Out : Type} (flashinfer : WrapperPlan -> tensor spec_float -> tensor spec_float -> tensor spec_float -> Out).

(** The scratch buffers of one layer: dequantised prefixes, then the new tokens. *)
Definition fill_scratch (t : dtype) (st : ExtendState) (H D : Z) (p : TriaxialKVPool) (layer_id : Z) (k v : tensor spec_float)
  : result (tensor spec_float * tensor spec_float) :=
  let P := num_prefix (es_meta st) in
  let N := num_new (es_meta st) in
  let view x := {| shape := [P; H; D]; elems := elems x |} in
  let! (gk, gv) :=
    if 0 <? P then
      let! kv := layer_kv p layer_id in
      dequant_gather gather_order t (prefix_slots (es_meta st)) kv (view (scratch_k st)) (view (scratch_v st))
    else Ok (view (scratch_k st), view (scratch_v st)) in
  let! sk := copy_rows t (with_elems (scratch_k st) (elems gk)) P N (H * D) k in
  let! sv := copy_rows t (with_elems (scratch_v st) (elems gv)) P N (H * D) v in
  Ok (sk, sv).

(** [k] and [v] are viewed as [n, num_kv_heads, head_dim]. *)
Definition forward_extend (t : dtype) (st : ExtendState) (H D : Z) (p : TriaxialKVPool) (layer_id : Z) (fb : ForwardBatch) (save_kv_cache half : bool)
    (q k v : tensor spec_float) : result (Out * TriaxialKVPool) :=
  let! p1 := if save_kv_cache then set_kv_buffer sched p layer_id (fb_out_cache_loc fb) half k v else Ok p in
  let! (sk, sv) := fill_scratch t st H D p1 layer_id k v in
  Ok (flashinfer (es_plan st) q sk sv, p1).

Definition forward_decode_unsupported : result Out := Err RuntimeError.
End forward.
