(* ===== verification/TriaxialAllocator.v ===== *)
(** * Token allocator over the two regions of the pool

    Models class [TriaxialAllocator] of [srt/mem_cache/triaxial_pool.py],
    including the vectorised bookkeeping of [alloc_mixed], together with the
    free-group methods it inherits from [BaseTokenToKVPoolAllocator].  Slots are
    int64 and page counters int32 tensors; the invariant of
    [TriaxialAllocatorTheory] keeps every entry far below those widths. *)

From S2P Require Import Prelude Floats TriaxialPool.

Record TriaxialAllocator := {
  pool : PoolSizes;
  free_pages2 : list Z;
  free_slots4 : list Z;
  page_free_cnt : list Z;
  is_not_in_free_group : bool;
  free_group : list (list Z);
  free_pages : list Z;
  release_pages : list Z;
  fallback_int2_to_int4 : Z;
  partial_slots : Z
}.

(** [clear], which the constructor also runs. *)
Definition clear (p : PoolSizes) : TriaxialAllocator :=
  let s4 := arange (offset p + 1) (offset p + size4 p) in
  {| pool := p;
     free_pages2 := arange 1 (num_pages2 p);
     free_slots4 := s4;
     page_free_cnt := replicate (Z.to_nat (num_pages2 p)) 0;
     is_not_in_free_group := true;
     free_group := [];
     free_pages := s4;
     release_pages := [];
     fallback_int2_to_int4 := 0;
     partial_slots := 0 |}.

(** Field updates. *)
Definition set_free4 (a : TriaxialAllocator) (s4 : list Z) : TriaxialAllocator :=
  {| pool := pool a; free_pages2 := free_pages2 a; free_slots4 := s4;
     page_free_cnt := page_free_cnt a; is_not_in_free_group := is_not_in_free_group a;
     free_group := free_group a; free_pages := s4; release_pages := release_pages a;
     fallback_int2_to_int4 := fallback_int2_to_int4 a; partial_slots := partial_slots a |}.

Definition set_pages2 (a : TriaxialAllocator) (ps cnt : list Z) (part : Z)
  : TriaxialAllocator :=
  {| pool := pool a; free_pages2 := ps; free_slots4 := free_slots4 a;
     page_free_cnt := cnt; is_not_in_free_group := is_not_in_free_group a;
     free_group := free_group a; free_pages := free_pages a; release_pages := release_pages a;
     fallback_int2_to_int4 := fallback_int2_to_int4 a; partial_slots := part |}.

Definition add_fallback (a : TriaxialAllocator) (d : Z) : TriaxialAllocator :=
  {| pool := pool a; free_pages2 := free_pages2 a; free_slots4 := free_slots4 a;
     page_free_cnt := page_free_cnt a; is_not_in_free_group := is_not_in_free_group a;
     free_group := free_group a; free_pages := free_pages a; release_pages := release_pages a;
     fallback_int2_to_int4 := fallback_int2_to_int4 a + d; partial_slots := partial_slots a |}.

Definition set_group (a : TriaxialAllocator) (b : bool) (g : list (list Z)) : TriaxialAllocator :=
  {| pool := pool a; free_pages2 := free_pages2 a; free_slots4 := free_slots4 a;
     page_free_cnt := page_free_cnt a; is_not_in_free_group := b;
     free_group := g; free_pages := free_pages a; release_pages := release_pages a;
     fallback_int2_to_int4 := fallback_int2_to_int4 a; partial_slots := partial_slots a |}.

(** ** Accounting *)

Definition available_size (a : TriaxialAllocator) : Z :=
  zlen (free_pages2 a) * PAGE + zlen (free_slots4 a) + partial_slots a.

Definition available_size_int4 (a : TriaxialAllocator) : Z := zlen (free_slots4 a).

Definition available_size_int2 (a : TriaxialAllocator) : Z := zlen (free_pages2 a) * PAGE.

Definition admission_size (a : TriaxialAllocator) : result Z :=
  let int4_share :=
    f64_max (f64_sub f64_one (int2_fraction (pool a))) (f64_ratio 5 100) in
  let! q := f64_int (f64_div (f64_of_Z (zlen (free_slots4 a))) int4_share) in
  Ok (Z.min (available_size a) q).

Definition backup := (list Z * list Z * list Z * Z)%type.

Definition backup_state (a : TriaxialAllocator) : backup :=
  (free_pages2 a, free_slots4 a, page_free_cnt a, partial_slots a).

Definition restore_state (a : TriaxialAllocator) (st : backup) : TriaxialAllocator :=
  let '(ps, s4, cnt, part) := st in set_free4 (set_pages2 a ps cnt part) s4.

(** ** Allocation *)

Definition alloc (a : TriaxialAllocator) (need_size : Z) : option (list Z) * TriaxialAllocator :=
  if zlen (free_slots4 a) <? need_size then (None, a)
  else
    let out := slice_to (free_slots4 a) need_size in
    (Some out, set_free4 a (slice_from (free_slots4 a) need_size)).

Definition alloc_decode (a : TriaxialAllocator) (bs : Z) : option (list Z) * TriaxialAllocator :=
  alloc a bs.

(** Tokens that keep 2 bits: the first [32 * (n2 / 32)] INT2 tokens of each
    request, where [n2] is the number of INT2 tokens of the request. *)
Definition keep_mask (bits req_lens : list Z) : list bool :=
  let seg := repeat_interleave (arange 0 (zlen req_lens)) req_lens in
  let is2 := map (fun b => b =? 2) bits in
  let c := cumsum (map b2z is2) in
  let seg_start := zip_with Z.sub (cumsum req_lens) req_lens in
  let c_before_seg := map (tget (0 :: c)) seg_start in
  let rank := zip_with (fun ci si => ci - tget c_before_seg si - 1) c seg in
  let n2_per_seg := bincount (mask_select seg is2) (length req_lens) in
  let full_per_seg := map (fun x => x / PAGE * PAGE) n2_per_seg in
  zip_with andb is2 (zip_with (fun r si => r <? tget full_per_seg si) rank seg).

(** [torch.cumsum(keep2) - 1], the index of a kept token among the kept ones. *)
Definition kept_index (keep2 : list bool) : list Z :=
  map (fun x => x - 1) (cumsum (map b2z keep2)).

(** The index tensors written at the end of [alloc_mixed]. *)
Definition place (n : Z) (keep2 : list bool) (page_idx j pages slots4 : list Z) : list Z :=
  let out := replicate (Z.to_nat n) 0 in
  let idx2 := nonzero keep2 in
  let out := scatter out idx2
    (map (fun i => tget pages (tget page_idx i) * PAGE + tget j i) idx2) in
  scatter out (nonzero (map negb keep2)) slots4.

Definition alloc_mixed (a : TriaxialAllocator) (bits req_lens : list Z)
  : result (option (list Z) * TriaxialAllocator) :=
  let n := zlen bits in
  if n =? 0 then Ok (Some [], a)
  else if negb (forallb (fun l => 0 <=? l) req_lens && (zsum req_lens =? n))
  then Err RuntimeError  (* tensors of different shapes *)
  else
    let keep2 := keep_mask bits req_lens in
    let k := kept_index keep2 in
    let page_idx := map (fun x => x / PAGE) k in
    let j := map (fun x => x mod PAGE) k in
    let num_pages := zsum (map b2z keep2) / PAGE in
    let avail_pages := zlen (free_pages2 a) in
    let over := avail_pages <? num_pages in
    let fits := map (fun p => p <? avail_pages) page_idx in
    let a1 :=
      if over
      then add_fallback a
             (zsum (map b2z (zip_with (fun b f => b && negb f) keep2 fits)))
      else a in
    let keep2' := if over then zip_with andb keep2 fits else keep2 in
    let num_pages' := if over then avail_pages else num_pages in
    let n4 := n - num_pages' * PAGE in
    if zlen (free_slots4 a) <? n4 then Ok (None, a1)
    else
      let out := place n keep2' page_idx j (slice_to (free_pages2 a) num_pages')
                   (slice_to (free_slots4 a) n4) in
      let a2 := set_pages2 a1 (slice_from (free_pages2 a) num_pages')
                  (page_free_cnt a) (partial_slots a) in
      Ok (Some out, set_free4 a2 (slice_from (free_slots4 a) n4)).

(** ** Release *)

(** Return INT2 slots [s2]: bump the per-page counters, recycle full pages. *)
Definition free_int2 (a : TriaxialAllocator) (s2 : list Z) : TriaxialAllocator :=
  if 0 <? zlen s2 then
    let pages := map (fun s => s / PAGE) s2 in
    let cnt := add_at (page_free_cnt a) pages in
    let cand := unique pages in
    let full := List.filter (fun p => PAGE <=? tget cnt p) cand in
    let n_full := zlen full in
    let cnt' := if 0 <? n_full then foldl (fun c p => set_at c p 0) cnt full else cnt in
    let ps := if 0 <? n_full then free_pages2 a ++ full else free_pages2 a in
    set_pages2 a ps cnt' (partial_slots a + (zlen s2 - n_full * PAGE))
  else a.

(** The part of [free] that runs outside a free group. *)
Definition free_now (a : TriaxialAllocator) (free_index : list Z) : TriaxialAllocator :=
  let s4 := List.filter (fun s => offset (pool a) <=? s) free_index in
  let a1 := if 0 <? zlen s4 then set_free4 a (free_slots4 a ++ s4) else a in
  let s2 := List.filter (fun s => PAGE <=? s)
              (List.filter (fun s => negb (offset (pool a) <=? s)) free_index) in
  free_int2 a1 s2.

Definition free (a : TriaxialAllocator) (free_index : list Z) : TriaxialAllocator :=
  if zlen free_index =? 0 then a
  else if negb (is_not_in_free_group a)
  then set_group a false (free_group a ++ [free_index])
  else free_now a free_index.

Definition free_group_begin (a : TriaxialAllocator) : TriaxialAllocator := set_group a false [].

Definition free_group_end (a : TriaxialAllocator) : TriaxialAllocator :=
  let a1 := set_group a true (free_group a) in
  match free_group a1 with
  | [] => a1
  | g => free a1 (concat g)
  end.
