(* ===== verification/TriaxialAllocatorTheory.v ===== *)
(** * Properties of the INT2/INT4 allocator

    [alloc_mixed] against a sequential reference, the ownership invariant and
    its preservation by every operation, the leak-check equation, and the
    page-wholeness that the pool relies on. *)

From S2P Require Import Prelude Floats Tensors TriaxialPool TriaxialAllocator.

(** ** Sequential reference of [alloc_mixed] *)

Definition is2b (b : Z) : bool := b =? 2.

(** First [q] INT2 tokens of a request. *)
Fixpoint keep_seg (q : Z) (bs : list Z) : list bool :=
  match bs with
  | [] => []
  | b :: bs' =>
      if is2b b && (0 <? q) then true :: keep_seg (q - 1) bs' else false :: keep_seg q bs'
  end.

(** Number of tokens of a request that keep 2 bits: whole pages only. *)
Definition quota (seg : list Z) : Z := count is2b seg / PAGE * PAGE.

Definition keep_ref (segs : list (list Z)) : list bool :=
  concat (map (fun s => keep_seg (quota s) s) segs).

(** The first [q] marked positions of a mask. *)
Fixpoint keep_first (q : Z) (m : list bool) : list bool :=
  match m with
  | [] => []
  | b :: m' =>
      if b && (0 <? q) then true :: keep_first (q - 1) m' else false :: keep_first q m'
  end.

(** The slots of a list of pages, in order. *)
Definition page_slots (pages : list Z) : list Z := concat (map (fun p => seqZ (p * PAGE) PAGE) pages).

(** Reference allocation: [np] whole pages are taken from the head of the page
    list for the first kept tokens, everything else takes INT4 slots in order. *)
Definition mixed_pages (a : TriaxialAllocator) (segs : list (list Z)) : Z :=
  Z.min (count id (keep_ref segs) / PAGE) (zlen (free_pages2 a)).

Definition mixed_mask (a : TriaxialAllocator) (segs : list (list Z)) : list bool :=
  keep_first (mixed_pages a segs * PAGE) (keep_ref segs).

Definition alloc_mixed_ref (a : TriaxialAllocator) (segs : list (list Z))
  : option (list Z) * TriaxialAllocator :=
  let np := Z.to_nat (mixed_pages a segs) in
  let n4 := Z.to_nat (zlen (concat segs) - mixed_pages a segs * PAGE) in
  let a1 := add_fallback a (count id (keep_ref segs) - mixed_pages a segs * PAGE) in
  if (length (free_slots4 a) <? n4)%nat then (None, a1)
  else
    (Some (merge_mask (mixed_mask a segs) (page_slots (take np (free_pages2 a)))
             (take n4 (free_slots4 a))),
     set_free4 (set_pages2 a1 (drop np (free_pages2 a)) (page_free_cnt a) (partial_slots a))
               (drop n4 (free_slots4 a))).

(** *** The keep mask *)

Lemma keep_seg_lookup q bs i b :
  bs !! i = Some b -> keep_seg q bs !! i = Some (is2b b && (count is2b (take i bs) <? q)).
Proof.
  revert q i. induction bs as [|x bs IH]; intros q i; [done|].
  destruct i as [|i]; simpl.
  - intros [= ->]. change (count is2b []) with 0. by destruct (is2b b), (0 <? q).
  - intros Hi. rewrite count_cons. pose proof (count_nonneg is2b (take i bs)).
    destruct (is2b x) eqn:E; simpl.
    + destruct (Z.ltb_spec 0 q); simpl; rewrite (IH _ _ Hi); f_equal; f_equal; bool_lia.
    + by rewrite (IH _ _ Hi).
Qed.

Lemma keep_seg_length q bs : length (keep_seg q bs) = length bs.
Proof.
  revert q; induction bs as [|x bs IH]; intros q; simpl; [done|].
  destruct (is2b x && (0 <? q)); simpl; by rewrite IH.
Qed.

Lemma keep_seg_count q bs : 0 <= q <= count is2b bs -> count id (keep_seg q bs) = q.
Proof.
  revert q; induction bs as [|x bs IH]; intros q; simpl.
  - change (count is2b []) with 0. change (count id []) with 0. lia.
  - rewrite count_cons. intros Hq. destruct (is2b x); simpl in *.
    + destruct (Z.ltb_spec 0 q); rewrite count_cons; simpl.
      * rewrite IH by lia. lia.
      * pose proof (count_nonneg is2b bs). rewrite IH by lia. lia.
    + rewrite count_cons. simpl. rewrite IH by lia. lia.
Qed.

Lemma quota_bounds s : 0 <= quota s <= count is2b s /\ quota s mod PAGE = 0.
Proof.
  unfold quota, PAGE. pose proof (count_nonneg is2b s). split; [dlia|]. by apply Z.mod_mul.
Qed.

Lemma keep_ref_length segs : length (keep_ref segs) = length (concat segs).
Proof.
  unfold keep_ref. induction segs as [|s segs IH]; simpl; [done|].
  by rewrite !length_app, keep_seg_length, IH.
Qed.

Lemma keep_ref_count segs : count id (keep_ref segs) mod PAGE = 0.
Proof.
  unfold keep_ref. induction segs as [|s segs IH]; simpl; [done|].
  destruct (quota_bounds s) as [H1 H2]. rewrite count_app, keep_seg_count by done.
  rewrite Z.add_mod, H2, IH by done. done.
Qed.

(** The vectorised mask over a suffix of the segments. *)
Lemma keep_mask_from (full cb : list Z) segs s0 c0 :
  (forall (k : nat) s, segs !! k = Some s ->
     tget full (s0 + Z.of_nat k) = quota s /\
     tget cb (s0 + Z.of_nat k) = c0 + count is2b (concat (take k segs))) ->
  let bits := concat segs in
  let seg := repeat_interleave (seqZ s0 (zlen segs)) (map zlen segs) in
  let c := cumsum_from c0 (map b2z (map is2b bits)) in
  zip_with andb (map is2b bits)
    (zip_with (fun r si => r <? tget full si)
       (zip_with (fun ci si => ci - tget cb si - 1) c seg) seg) = keep_ref segs.
Proof.
  revert s0 c0. induction segs as [|s segs IH]; intros s0 c0 H; [done|].
  cbv zeta. cbn [concat map]. unfold keep_ref. cbn [concat map].
  rewrite zlen_cons, seqZ_cons by (pose proof (zlen_nonneg segs); lia).
  cbn [repeat_interleave].
  rewrite !List.map_app, cumsum_from_app, !zip_with_app;
    rewrite ?length_map, ?cumsum_from_length, ?length_zip_with, ?length_replicate, ?cumsum_from_length, ?length_map;
    try (unfold zlen; lia).
  replace (Z.pred (1 + zlen segs)) with (zlen segs) by lia.
  f_equal.
  - destruct (H 0%nat s eq_refl) as [Hf Hc]. rewrite Z.add_0_r in Hf, Hc. simpl in Hc.
    change (count is2b []) with 0 in Hc. apply list_eq. intros i.
    destruct (s !! i) as [b|] eqn:Hb.
    + rewrite (keep_seg_lookup _ _ _ _ Hb), lookup_zip_with, !list_lookup_fmap, Hb. simpl.
      assert (Hi : (i < length s)%nat) by (by eapply lookup_lt_Some).
      rewrite !lookup_zip_with, cumsum_from_lookup by (by rewrite !length_map).
      rewrite lookup_replicate_2 by (unfold zlen; lia). simpl. f_equal.
      rewrite Hf, Hc, <- !fmap_take, List.map_map, zsum_b2z.
      rewrite (take_S_r _ _ _ Hb), count_app, count_cons, count_nil.
      destruct (is2b b); cbn [andb b2z]; [|done]. f_equal. lia.
    + rewrite (proj2 (lookup_ge_None (keep_seg (quota s) s) i));
        [|rewrite keep_seg_length; by apply lookup_ge_None].
      apply lookup_ge_None. rewrite length_zip_with, !length_map. apply lookup_ge_None in Hb. lia.
  - fold (keep_ref segs). rewrite <- (IH (Z.succ s0) (c0 + count is2b s)).
    + cbv zeta. rewrite !List.map_map. do 4 f_equal. f_equal. rewrite zsum_b2z. done.
    + intros k s' Hs'. destruct (H (S k) s' Hs') as [H1 H2].
      replace (Z.succ s0 + Z.of_nat k) with (s0 + Z.of_nat (S k)) by lia.
      split; [done|]. rewrite H2. simpl. rewrite count_app. lia.
Qed.

(** Splitting a flat tensor by request lengths. *)
Fixpoint split_lens (bits lens : list Z) : list (list Z) :=
  match lens with
  | [] => []
  | l :: ls => take (Z.to_nat l) bits :: split_lens (drop (Z.to_nat l) bits) ls
  end.

Lemma split_lens_spec bits lens :
  Forall (fun l => 0 <= l) lens -> zsum lens = zlen bits ->
  concat (split_lens bits lens) = bits /\ map zlen (split_lens bits lens) = lens.
Proof.
  intros Hl. revert bits. induction Hl as [|l lens Hl Hls IH]; intros bits Hs; simpl.
  - unfold zsum in Hs; simpl in Hs. destruct bits; [done|].
    rewrite zlen_cons in Hs. pose proof (zlen_nonneg bits). lia.
  - unfold zsum in Hs; simpl in Hs. fold (zsum lens) in Hs.
    pose proof (zsum_nonneg lens Hls).
    destruct (IH (drop (Z.to_nat l) bits)) as [H1 H2]; [rewrite zlen_drop; lia|].
    rewrite H1, H2, take_drop, zlen_take by lia. done.
Qed.

Lemma zsum_map_zlen {A} (ls : list (list A)) : zsum (map zlen ls) = zlen (concat ls).
Proof. unfold zsum. induction ls as [|l ls IH]; simpl; [done|]. by rewrite IH, zlen_app. Qed.

(** [seg_start] and the prefix counts before each segment. *)
Lemma c_before_seg_spec segs k s :
  segs !! k = Some s ->
  tget (map (tget (0 :: cumsum (map b2z (map is2b (concat segs)))))
          (zip_with Z.sub (cumsum (map zlen segs)) (map zlen segs))) (Z.of_nat k)
  = count is2b (concat (take k segs)).
Proof.
  intros Hk. assert (Hl : (k < length segs)%nat) by (by eapply lookup_lt_Some).
  assert (Hst : zip_with Z.sub (cumsum (map zlen segs)) (map zlen segs) !! k =
                Some (zlen (concat (take k segs)))).
  { rewrite lookup_zip_with. unfold cumsum. rewrite cumsum_from_lookup by (by rewrite length_map).
    rewrite list_lookup_fmap, Hk. simpl. f_equal.
    rewrite <- fmap_take. unfold fmap. rewrite zsum_map_zlen, (take_S_r _ _ _ Hk), concat_app, zlen_app.
    simpl. rewrite app_nil_r. lia. }
  erewrite tget_lookup_Some; [|rewrite list_lookup_fmap, Hst; done].
  assert (Hle : (length (concat (take k segs)) <= length (concat segs))%nat).
  { rewrite <- (take_drop k segs) at 2. rewrite concat_app, length_app. lia. }
  rewrite tget_cons_cumsum.
  - rewrite <- !fmap_take. unfold fmap, zlen. rewrite Nat2Z.id, List.map_map, zsum_b2z. f_equal.
    rewrite <- (take_drop k segs) at 2. by rewrite concat_app, take_app_length.
  - unfold zlen. rewrite !length_map. lia.
Qed.

Lemma bincount_segs_from segs s0 k s :
  0 <= s0 -> segs !! k = Some s ->
  zlen (List.filter (Z.eqb (s0 + Z.of_nat k))
    (mask_select (repeat_interleave (seqZ s0 (zlen segs)) (map zlen segs)) (map is2b (concat segs))))
  = count is2b s.
Proof.
  revert s0 k. induction segs as [|x segs IH]; intros s0 k Hs0 Hk; [done|].
  rewrite zlen_cons, seqZ_cons by (pose proof (zlen_nonneg segs); lia).
  replace (Z.pred (1 + zlen segs)) with (zlen segs) by lia. simpl.
  rewrite List.map_app, mask_select_app by (rewrite length_replicate, length_map; unfold zlen; lia).
  rewrite List.filter_app, zlen_app.
  assert (Hfirst : forall v, zlen (List.filter (Z.eqb v)
      (mask_select (replicate (Z.to_nat (zlen x)) s0) (map is2b x))) =
      if v =? s0 then count is2b x else 0).
  { intros v. replace (Z.to_nat (zlen x)) with (length x) by (unfold zlen; lia).
    clear. induction x as [|b x IH]; simpl.
    - by destruct (v =? s0).
    - rewrite count_cons. destruct (is2b b); simpl; [|done].
      destruct (Z.eqb_spec v s0); [rewrite zlen_cons|]; rewrite IH; done. }
  rewrite Hfirst. destruct k as [|k]; simpl in Hk.
  - injection Hk as ->. rewrite Z.add_0_r, Z.eqb_refl.
    replace (zlen (List.filter _ _)) with 0; [lia|]. symmetry.
    fold (count (Z.eqb s0) (mask_select
      (repeat_interleave (seqZ (Z.succ s0) (zlen segs)) (map zlen segs)) (map is2b (concat segs)))).
    apply count_zero. intros y Hy. apply Z.eqb_neq.
    assert (Hge : forall (l : list Z) m, y ∈ mask_select l m -> y ∈ l).
    { clear. induction l as [|z l IH]; intros [|b m]; simpl; try (by intros ?%elem_of_nil).
      destruct b; rewrite ?elem_of_cons; naive_solver. }
    apply Hge in Hy. clear -Hy.
    assert (Hr : forall t n (reps : list Z), y ∈ repeat_interleave (seqZ t n) reps -> t <= y).
    { clear. intros t n reps. assert (Hs : Forall (fun v => t <= v) (seqZ t n)).
      { rewrite list.Forall_forall. intros v. rewrite elem_of_seqZ. lia. }
      revert reps. induction Hs as [|v vs Hv _ IH]; intros [|r reps]; simpl;
        try (by intros ?%elem_of_nil).
      rewrite elem_of_app. intros [[-> _]%elem_of_replicate|Hin]; [done|by eapply IH]. }
    apply Hr in Hy. lia.
  - replace (s0 + Z.of_nat (S k)) with (Z.succ s0 + Z.of_nat k) by lia.
    rewrite IH by (done || lia). destruct (Z.eqb_spec (Z.succ s0 + Z.of_nat k) s0); lia.
Qed.

(** The vectorised mask is the sequential one. *)
Lemma keep_mask_spec segs : keep_mask (concat segs) (map zlen segs) = keep_ref segs.
Proof.
  unfold keep_mask. cbv zeta. change (fun b => b =? 2) with is2b. unfold cumsum at 1.
  replace (arange 0 (zlen (map zlen segs))) with (seqZ 0 (zlen segs))
    by (unfold arange, zlen; rewrite length_map; f_equal; lia).
  apply keep_mask_from. intros k s Hk. rewrite Z.add_0_l. split.
  - assert (Hl : (k < length segs)%nat) by (by eapply lookup_lt_Some).
    erewrite tget_lookup_Some; [|rewrite list_lookup_fmap; unfold bincount;
      rewrite list_lookup_fmap, lookup_seqZ_lt by (rewrite length_map; lia); done].
    unfold quota. rewrite bincount_segs_from with (s := s) by done. done.
  - rewrite c_before_seg_spec with (s := s) by done. done.
Qed.

(** *** Placement of the slots *)

Lemma keep_first_lookup q m i b :
  m !! i = Some b -> keep_first q m !! i = Some (b && (count id (take i m) <? q)).
Proof.
  revert q i. induction m as [|x m IH]; intros q i; [done|].
  destruct i as [|i]; simpl.
  - intros [= ->]. change (count id []) with 0. by destruct b, (0 <? q).
  - intros Hi. rewrite count_cons. pose proof (count_nonneg id (take i m)).
    destruct x; cbn [id andb b2z].
    + destruct (Z.ltb_spec 0 q); cbn [lookup list_lookup];
        (etransitivity; [apply (IH _ _ Hi)|]); f_equal; f_equal; bool_lia.
    + etransitivity; [apply (IH _ _ Hi)|]. done.
Qed.

Lemma keep_first_length q m : length (keep_first q m) = length m.
Proof.
  revert q; induction m as [|x m IH]; intros q; simpl; [done|].
  destruct (x && (0 <? q)); simpl; by rewrite IH.
Qed.

Lemma keep_first_take q m i : take i (keep_first q m) = keep_first q (take i m).
Proof.
  revert q i; induction m as [|x m IH]; intros q i; simpl; [by rewrite take_nil|].
  destruct i; simpl; [done|]. destruct (x && (0 <? q)); simpl; by rewrite IH.
Qed.

Lemma keep_first_count q m : 0 <= q -> count id (keep_first q m) = Z.min q (count id m).
Proof.
  revert q; induction m as [|x m IH]; intros q Hq; simpl.
  - change (count id []) with 0. lia.
  - pose proof (count_nonneg id m). destruct x; cbn [andb].
    + destruct (Z.ltb_spec 0 q); rewrite !count_cons, IH by lia; simpl; lia.
    + rewrite !count_cons, IH by lia; simpl; lia.
Qed.

Lemma page_slots_length pages : zlen (page_slots pages) = zlen pages * PAGE.
Proof.
  unfold page_slots. induction pages as [|p ps IH]; [done|]. cbn [map concat].
  rewrite zlen_app, zlen_cons, IH. unfold zlen at 1. rewrite length_seqZ. unfold PAGE. lia.
Qed.

Lemma page_slots_lookup pages r :
  0 <= r < zlen pages * PAGE ->
  page_slots pages !! Z.to_nat r = Some (tget pages (r / PAGE) * PAGE + r mod PAGE).
Proof.
  unfold PAGE. revert r. induction pages as [|p ps IH]; intros r Hr.
  { change (zlen (@nil Z)) with 0 in Hr. lia. }
  rewrite zlen_cons in Hr. unfold page_slots. cbn [map concat]. fold (page_slots ps).
  destruct (Z.lt_ge_cases r 32) as [Hlt|Hge].
  - rewrite lookup_app_l by (rewrite length_seqZ; unfold PAGE; lia).
    rewrite lookup_seqZ_lt by (unfold PAGE; lia).
    replace (r / 32) with 0 by dlia. replace (r mod 32) with r by dlia.
    f_equal. change (tget (p :: ps) 0) with p. unfold PAGE. lia.
  - rewrite lookup_app_r by (rewrite length_seqZ; unfold PAGE; lia).
    rewrite length_seqZ. replace (Z.to_nat r - Z.to_nat PAGE)%nat with (Z.to_nat (r - 32)) by (unfold PAGE; lia).
    rewrite IH by lia. f_equal. unfold tget.
    replace (Z.to_nat (r / 32)) with (S (Z.to_nat ((r - 32) / 32))) by dlia.
    replace ((r - 32) mod 32) with (r mod 32) by dlia. done.
Qed.

Lemma kept_index_lookup keep i b :
  keep !! i = Some b -> kept_index keep !! i = Some (count id (take i keep) + b2z b - 1).
Proof.
  intros Hi. unfold kept_index. rewrite list_lookup_fmap. unfold cumsum.
  rewrite cumsum_from_lookup by (rewrite length_map; by eapply lookup_lt_Some). simpl. f_equal.
  rewrite <- fmap_take. unfold fmap. rewrite zsum_mask, (count_take_S _ _ _ Hi). lia.
Qed.

(** The two scatters of [alloc_mixed] merge the page slots and the INT4 slots
    along the mask. *)
Lemma place_spec keep np pages slots4 :
  0 <= np -> np * PAGE <= count id keep -> zlen pages = np ->
  zlen slots4 = zlen keep - np * PAGE ->
  let k := kept_index keep in
  place (zlen keep) (keep_first (np * PAGE) keep)
    (map (fun x => x / PAGE) k) (map (fun x => x mod PAGE) k) pages slots4
  = merge_mask (keep_first (np * PAGE) keep) (page_slots pages) slots4.
Proof.
  intros Hnp Hc Hp H4 k. set (m := keep_first (np * PAGE) keep).
  assert (Hpos : 0 <= np * PAGE) by (unfold PAGE; lia).
  assert (Hcm : count id m = np * PAGE) by (unfold m; rewrite keep_first_count by lia; lia).
  assert (Hlm : length m = length keep) by apply keep_first_length.
  assert (Hzm : zlen m = zlen keep) by (unfold zlen; lia).
  assert (H1 : zlen (page_slots pages) = count id m) by (rewrite page_slots_length; lia).
  assert (H2 : zlen slots4 = zlen m - count id m) by lia.
  assert (H3 : zlen slots4 = count id (map negb m)) by (rewrite count_negb_mask; lia).
  apply list_eq. intros i. unfold place.
  destruct (m !! i) as [b|] eqn:Hb.
  2:{ apply lookup_ge_None in Hb.
      rewrite (proj2 (lookup_ge_None (merge_mask m _ _) i)) by (rewrite merge_mask_length by done; lia).
      apply lookup_ge_None. rewrite !scatter_length, length_replicate. unfold zlen. lia. }
  assert (Hlen : length (replicate (Z.to_nat (zlen keep)) 0) = length m)
    by (rewrite length_replicate; unfold zlen; lia).
  rewrite scatter_nonzero; [|done|by rewrite scatter_length, length_map].
  rewrite list_lookup_fmap, Hb. cbn [fmap option_fmap option_map default].
  assert (Hneg : count id (take i (map negb m)) = Z.of_nat i - count id (take i m)).
  { rewrite <- fmap_take. unfold fmap. rewrite count_negb_mask. unfold zlen. rewrite length_take.
    apply lookup_lt_Some in Hb. lia. }
  rewrite (merge_mask_lookup _ _ _ _ b) by done.
  destruct b; cbn [negb]; [|by rewrite Hneg].
  rewrite scatter_nonzero; [|unfold zlen; rewrite length_map; apply nonzero_length|done].
  rewrite Hb. cbn [default]. rewrite list_lookup_fmap, (nonzero_lookup _ _ Hb).
  cbn [fmap option_fmap option_map].
  destruct (lookup_lt_is_Some_2 keep i) as [kb Hkb]; [rewrite <- Hlm; by eapply lookup_lt_Some|].
  pose proof (keep_first_lookup (np * PAGE) keep i kb Hkb) as Hm. fold m in Hm. rewrite Hb in Hm.
  injection Hm as Hm. symmetry in Hm. apply andb_prop in Hm as [-> Hlt].
  pose proof (count_nonneg id (take i keep)).
  assert (Hti : count id (take i m) = count id (take i keep)).
  { unfold m. rewrite keep_first_take, keep_first_count by lia. bool_lia. }
  rewrite Hti, page_slots_lookup by bool_lia. f_equal.
  pose proof (kept_index_lookup keep i true Hkb) as Hk. fold k in Hk.
  erewrite (tget_lookup_Some (map (fun x => x / PAGE) k)); [|rewrite list_lookup_fmap, Hk; done].
  erewrite (tget_lookup_Some (map (fun x => x mod PAGE) k)); [|rewrite list_lookup_fmap, Hk; done].
  simpl b2z. by replace (count id (take i keep) + 1 - 1) with (count id (take i keep)) by lia.
Qed.

Lemma mask_fits keep avail :
  0 <= avail ->
  zip_with andb keep
    (map (fun p => p <? avail) (map (fun x => x / PAGE) (kept_index keep)))
  = keep_first (avail * PAGE) keep.
Proof.
  intros Ha. apply list_eq. intros i. rewrite lookup_zip_with.
  destruct (keep !! i) as [b|] eqn:Hb; simpl.
  - rewrite (keep_first_lookup _ _ _ _ Hb), !list_lookup_fmap, (kept_index_lookup _ _ _ Hb). simpl.
    f_equal. destruct b; simpl; [|done]. unfold PAGE. bool_lia; dlia.
  - symmetry. apply lookup_ge_None. rewrite keep_first_length. by apply lookup_ge_None.
Qed.

Lemma keep_first_all q m : count id m <= q -> keep_first q m = m.
Proof.
  intros Hq. apply list_eq. intros i. destruct (m !! i) as [b|] eqn:Hb.
  - rewrite (keep_first_lookup _ _ _ _ Hb). f_equal. destruct b; simpl; [|done].
    pose proof (count_take_S m i true Hb). pose proof (count_take_le id m (S i)).
    unfold b2z in *. bool_lia.
  - apply lookup_ge_None. rewrite keep_first_length. by apply lookup_ge_None.
Qed.

Lemma count_and_not (m f : list bool) :
  (length m <= length f)%nat ->
  count id (zip_with (fun b f => b && negb f) m f) = count id m - count id (zip_with andb m f).
Proof.
  revert f. induction m as [|b m IH]; intros [|c f] H; simpl in *; try done; [lia|].
  rewrite !count_cons, IH by lia. destruct b, c; simpl; lia.
Qed.

Lemma add_fallback_0 a : add_fallback a 0 = a.
Proof. destruct a. unfold add_fallback; simpl. by rewrite Z.add_0_r. Qed.

Lemma zlen_ltb_nat {A} (l : list A) n :
  (zlen l <? n) = (length l <? Z.to_nat n)%nat.
Proof. unfold zlen. destruct (Nat.ltb_spec (length l) (Z.to_nat n)); bool_lia. Qed.

(** The shape checks that torch performs on the arguments. *)
Definition mixed_args (bits lens : list Z) : Prop :=
  Forall (fun l => 0 <= l) lens /\ zsum lens = zlen bits.

(** One case of [alloc_mixed]: [np] pages granted to the kept tokens. *)
Lemma alloc_mixed_place a keep np :
  0 <= np -> np * PAGE <= count id keep -> np <= zlen (free_pages2 a) ->
  let n4 := zlen keep - np * PAGE in
  (length (free_slots4 a) <? Z.to_nat n4)%nat = false ->
  place (zlen keep) (keep_first (np * PAGE) keep)
    (map (fun x => x / PAGE) (kept_index keep)) (map (fun x => x mod PAGE) (kept_index keep))
    (slice_to (free_pages2 a) np) (slice_to (free_slots4 a) n4)
  = merge_mask (keep_first (np * PAGE) keep) (page_slots (take (Z.to_nat np) (free_pages2 a)))
      (take (Z.to_nat n4) (free_slots4 a)).
Proof.
  intros Hnp Hc Hav n4 Hf. apply Nat.ltb_ge in Hf. pose proof (count_le id keep).
  assert (0 <= n4) by (unfold n4; lia).
  rewrite !slice_to_take by lia. apply place_spec; [done|done| |].
  - rewrite zlen_take; lia.
  - rewrite zlen_take; [done|unfold zlen at 1; lia].
Qed.

Lemma alloc_mixed_eq a bits lens :
  mixed_args bits lens -> bits <> [] ->
  alloc_mixed a bits lens = Ok (alloc_mixed_ref a (split_lens bits lens)).
Proof.
  intros [Hl Hs] Hne. destruct (split_lens_spec bits lens Hl Hs) as [H1 H2].
  set (segs := split_lens bits lens) in *. clearbody segs. subst bits lens.
  unfold alloc_mixed. cbv zeta. rewrite keep_mask_spec.
  replace (zlen (concat segs) =? 0) with false.
  2:{ destruct (concat segs); [done|]. rewrite zlen_cons. pose proof (zlen_nonneg l). lia. }
  rewrite Hs, Z.eqb_refl, andb_true_r.
  replace (forallb (fun l => 0 <=? l) (map zlen segs)) with true.
  2:{ symmetry. apply forallb_forall. intros x Hx. apply list_elem_of_In in Hx.
      rewrite list.Forall_forall in Hl. specialize (Hl x Hx). simpl in Hl. lia. }
  cbn [negb]. unfold alloc_mixed_ref, mixed_mask, mixed_pages.
  set (keep := keep_ref segs). rewrite zsum_mask.
  assert (Hk : zlen keep = zlen (concat segs)) by (unfold zlen, keep; by rewrite keep_ref_length).
  pose proof (keep_ref_count segs) as Hm. fold keep in Hm. rewrite <- Hk.
  pose proof (count_nonneg id keep) as Hc0. pose proof (count_le id keep) as Hc1.
  pose proof (zlen_nonneg (free_pages2 a)) as Hav. set (avail := zlen (free_pages2 a)) in *.
  destruct (Z.ltb_spec avail (count id keep / PAGE)) as [Hov|Hnov].
  - assert (Hpos : 0 <= avail * PAGE <= count id keep) by (unfold PAGE in *; dlia).
    rewrite (Z.min_r (count id keep / PAGE)) by lia.
    rewrite zsum_mask, count_and_not, mask_fits, keep_first_count, (Z.min_l (avail * PAGE))
      by (lia || (unfold kept_index, cumsum; rewrite !length_map, cumsum_from_length, length_map; lia)).
    rewrite ?zlen_ltb_nat. destruct (Nat.ltb _ _) eqn:Hf; [done|].
    rewrite alloc_mixed_place, !slice_from_drop by (done || lia). done.
  - assert (Hmul : count id keep / PAGE * PAGE = count id keep) by (unfold PAGE in *; dlia).
    assert (Hq : 0 <= count id keep / PAGE) by (unfold PAGE; dlia).
    rewrite (Z.min_l (count id keep / PAGE)) by lia.
    rewrite Hmul, Z.sub_diag, add_fallback_0, (keep_first_all (count id keep)) by lia.
    rewrite ?zlen_ltb_nat. destruct (Nat.ltb _ _) eqn:Hf; [done|].
    pose proof (alloc_mixed_place a keep (count id keep / PAGE)) as Hp. cbv zeta in Hp.
    rewrite Hmul, (keep_first_all (count id keep)) in Hp by lia.
    rewrite Hp, !slice_from_drop by (done || lia). done.
Qed.

(** C3: on every batch whose lengths match its bits, the vectorised
    [alloc_mixed] (cumulative sums, [bincount], index scatters) returns exactly
    what the sequential reference returns: the same slots in position order, the
    same remaining free lists and the same fallback counter; an empty batch
    returns an empty tensor and changes nothing. *)
Theorem alloc_mixed_refines a bits lens :
  mixed_args bits lens ->
  alloc_mixed a bits lens =
    if decide (bits = []) then Ok (Some [], a)
    else Ok (alloc_mixed_ref a (split_lens bits lens)).
Proof.
  intros H. case_decide as Hb; [by subst|]. by apply alloc_mixed_eq.
Qed.
