(* ===== verification/TriaxialInvariant.v ===== *)
(** * Ownership invariant of the INT2/INT4 allocator

    The slots that callers hold ([owned]) and the slots on the free lists
    partition the usable slots of the pool; every operation of
    [TriaxialAllocator] preserves this, and the leak-check equation of the
    scheduler follows. *)

From S2P Require Import Prelude Floats Tensors TriaxialPool TriaxialAllocator TriaxialAllocatorTheory.

(** ** Counting slots per page *)

(** Number of slots of [l] that lie in INT2 page [p]. *)
Definition in_page (p : Z) (l : list Z) : Z := count (fun s => s / PAGE =? p) l.

Definition in4 (p : PoolSizes) (s : Z) : bool := offset p <=? s.

(** The layout that the constructor establishes. *)
Record pool_wf (p : PoolSizes) : Prop := {
  wf_pages : 1 <= num_pages2 p;
  wf_offset : offset p = num_pages2 p * PAGE;
  wf_size4 : 1 <= size4 p;
  wf_size : ps_size p = (num_pages2 p - 1) * PAGE + (size4 p - 1)
}.

(** [owned] lists the slots held by callers. *)
Record inv (a : TriaxialAllocator) (owned : list Z) : Prop := {
  inv_pool : pool_wf (pool a);
  inv_view : free_pages a = free_slots4 a;
  inv_release : release_pages a = [];
  (* INT4 region: free and owned slots partition rows 1 .. size4-1 *)
  inv_int4 : free_slots4 a ++ List.filter (in4 (pool a)) owned ≡ₚ
             seqZ (offset (pool a) + 1) (size4 (pool a) - 1);
  (* INT2 region *)
  inv_pages : NoDup (free_pages2 a);
  inv_pages_range : forall p, p ∈ free_pages2 a -> 1 <= p < num_pages2 (pool a);
  inv_cnt_len : zlen (page_free_cnt a) = num_pages2 (pool a);
  inv_cnt_range : forall p, 0 <= p < num_pages2 (pool a) -> 0 <= tget (page_free_cnt a) p < PAGE;
  inv_cnt0 : tget (page_free_cnt a) 0 = 0;
  inv_cnt : forall p, 1 <= p < num_pages2 (pool a) ->
    tget (page_free_cnt a) p + in_page p owned +
    (if decide (p ∈ free_pages2 a) then PAGE else 0) = PAGE;
  inv_owned : NoDup owned;
  inv_owned_range : forall s, s ∈ owned -> PAGE <= s;
  inv_partial : partial_slots a = zsum (page_free_cnt a)
}.

Lemma in_page_app p l k : in_page p (l ++ k) = in_page p l + in_page p k.
Proof. apply count_app. Qed.

Lemma in_page_nonneg p l : 0 <= in_page p l.
Proof. apply count_nonneg. Qed.

Lemma in_page_perm p l k : l ≡ₚ k -> in_page p l = in_page p k.
Proof. apply count_perm. Qed.

Lemma in_page_int4 a p l :
  pool_wf (pool a) -> p < num_pages2 (pool a) ->
  (forall s, s ∈ l -> offset (pool a) <= s) -> in_page p l = 0.
Proof.
  intros Hwf Hp Hl. apply count_zero. intros s Hs. apply Hl in Hs.
  rewrite (wf_offset _ Hwf) in Hs. unfold PAGE in *. apply Z.eqb_neq. dlia.
Qed.

Lemma page_slots_elem s ps : s ∈ page_slots ps <-> s / PAGE ∈ ps.
Proof.
  induction ps as [|p ps IH].
  - by rewrite !elem_of_nil.
  - unfold page_slots. cbn [map concat]. fold (page_slots ps). rewrite elem_of_app, elem_of_cons, IH, elem_of_seqZ. unfold PAGE.
    assert (p * 32 <= s < p * 32 + 32 <-> s / 32 = p) by dlia. tauto.
Qed.

Lemma page_slots_NoDup ps : NoDup ps -> NoDup (page_slots ps).
Proof.
  induction 1 as [|p ps Hp _ IH]; [constructor|].
  unfold page_slots. cbn [map concat]. fold (page_slots ps). apply list.NoDup_app.
  split; [apply NoDup_seqZ|]. split; [|done]. intros s Hs Hin.
  apply page_slots_elem in Hin. apply elem_of_seqZ in Hs. unfold PAGE in *.
  replace (s / 32) with p in Hin by dlia. done.
Qed.

Lemma in_page_slots p ps : NoDup ps ->
  in_page p (page_slots ps) = if decide (p ∈ ps) then PAGE else 0.
Proof.
  induction 1 as [|q ps Hq _ IH].
  - case_decide as H; [by apply elem_of_nil in H|done].
  - unfold page_slots. cbn [map concat]. fold (page_slots ps). rewrite in_page_app, IH.
    assert (Hh : in_page p (seqZ (q * PAGE) PAGE) = if decide (p = q) then PAGE else 0).
    { clear IH. destruct (decide (p = q)) as [->|Hpq].
      - unfold in_page, count. rewrite filter_all.
        + unfold zlen. rewrite length_seqZ. reflexivity.
        + intros s Hs%elem_of_seqZ. unfold PAGE in *. apply Z.eqb_eq. dlia.
      - apply count_zero. intros s Hs%elem_of_seqZ. unfold PAGE in *. apply Z.eqb_neq. dlia. }
    rewrite Hh. clear IH Hh. repeat case_decide; subst; try done; set_solver.
Qed.

(** ** Consequences of the invariant *)

Lemma inv_slots4_range a owned s :
  inv a owned -> s ∈ free_slots4 a ->
  offset (pool a) < s < offset (pool a) + size4 (pool a).
Proof.
  intros Hi Hs. assert (s ∈ seqZ (offset (pool a) + 1) (size4 (pool a) - 1)) as H.
  { rewrite <- (inv_int4 _ _ Hi). set_solver. }
  apply elem_of_seqZ in H. lia.
Qed.

Lemma inv_owned_in4 a owned s :
  inv a owned -> s ∈ owned -> offset (pool a) <= s ->
  offset (pool a) < s < offset (pool a) + size4 (pool a) /\ s ∉ free_slots4 a.
Proof.
  intros Hi Hs Ho. assert (Hf : s ∈ List.filter (in4 (pool a)) owned).
  { apply elem_of_filter_b. split; [done|]. unfold in4. bool_lia. }
  split.
  - assert (s ∈ seqZ (offset (pool a) + 1) (size4 (pool a) - 1)) as H.
    { rewrite <- (inv_int4 _ _ Hi). set_solver. }
    apply elem_of_seqZ in H. lia.
  - intros Hin. assert (Hnd : NoDup (free_slots4 a ++ List.filter (in4 (pool a)) owned)).
    { rewrite (inv_int4 _ _ Hi). apply NoDup_seqZ. }
    apply list.NoDup_app in Hnd as (_ & Hd & _). by eapply Hd.
Qed.

Lemma inv_nodup4 a owned : inv a owned -> NoDup (free_slots4 a).
Proof.
  intros Hi. assert (Hnd : NoDup (free_slots4 a ++ List.filter (in4 (pool a)) owned)).
  { rewrite (inv_int4 _ _ Hi). apply NoDup_seqZ. }
  by apply list.NoDup_app in Hnd as (? & _ & _).
Qed.

(** A slot of a free page is not owned. *)
Lemma inv_free_page a owned s :
  inv a owned -> s / PAGE ∈ free_pages2 a -> s ∉ owned.
Proof.
  intros Hi Hp Hs. pose proof (inv_pages_range _ _ Hi _ Hp) as Hr.
  pose proof (inv_cnt _ _ Hi _ Hr) as Hc. rewrite decide_True in Hc by done.
  pose proof (inv_cnt_range _ _ Hi (s / PAGE)).
  assert (0 < in_page (s / PAGE) owned); [|lia].
  apply list_elem_of_split in Hs as (l1 & l2 & ->). rewrite in_page_app.
  unfold in_page at 2. rewrite count_cons, Z.eqb_refl.
  pose proof (in_page_nonneg (s / PAGE) l1). pose proof (count_nonneg (fun t => t / PAGE =? s / PAGE) l2).
  unfold b2z. lia.
Qed.

(** The invariant depends on the set of owned slots only. *)
#[global] Instance inv_proper : Proper ((=) ==> (≡ₚ) ==> iff) inv.
Proof.
  assert (Himp : forall a l k, l ≡ₚ k -> inv a l -> inv a k).
  { intros a l k Hp [H1 H2 H3 H4 H5 H6 H7 H8 H9 H10 H11 H12 H13]. split; try done.
    - by rewrite <- (filter_perm _ _ _ Hp).
    - intros p Hr. rewrite <- (in_page_perm _ _ _ Hp). by apply H10.
    - by rewrite <- Hp.
    - intros s. rewrite <- Hp. apply H12. }
  intros a ? <- l k Hp. split; apply Himp; [done|by symmetry].
Qed.

(** Handing out whole pages [ps] and INT4 slots [s4] from the heads of the lists. *)
Lemma inv_take a a' ps s4 out owned :
  inv a owned ->
  pool a' = pool a -> free_pages a' = free_slots4 a' -> release_pages a' = release_pages a ->
  page_free_cnt a' = page_free_cnt a -> partial_slots a' = partial_slots a ->
  free_pages2 a = ps ++ free_pages2 a' -> free_slots4 a = s4 ++ free_slots4 a' ->
  out ≡ₚ page_slots ps ++ s4 -> inv a' (out ++ owned).
Proof.
  intros Hi Hp Hv Hr Hc Hpa E2 E4 Ho. rewrite Ho. pose proof (inv_pool _ _ Hi) as Hwf.
  pose proof (inv_pages _ _ Hi) as Hnp. rewrite E2 in Hnp.
  apply list.NoDup_app in Hnp as (Hn1 & Hd & Hn2).
  pose proof (inv_nodup4 _ _ Hi) as Hn4. rewrite E4 in Hn4.
  apply list.NoDup_app in Hn4 as (Hn41 & _ & _).
  assert (Hs4 : forall s, s ∈ s4 -> offset (pool a) < s).
  { intros s Hs. apply (inv_slots4_range _ _ s Hi). rewrite E4. set_solver. }
  assert (Hps : forall s, s ∈ page_slots ps -> PAGE <= s < offset (pool a)).
  { intros s Hs%page_slots_elem. rewrite (wf_offset _ Hwf).
    assert (1 <= s / PAGE < num_pages2 (pool a)) by (apply (inv_pages_range _ _ Hi); rewrite E2; set_solver).
    unfold PAGE in *. dlia. }
  destruct Hi as [H1 H2 H3 H4 H5 H6 H7 H8 H9 H10 H11 H12 H13].
  split; rewrite ?Hp, ?Hc, ?Hpa, ?Hr; try done.
  - rewrite !List.filter_app. rewrite (filter_none _ (page_slots ps)), (filter_all _ s4).
    + rewrite app_nil_l, Permutation_app_swap_app, app_assoc, <- E4. exact H4.
    + intros s Hs. apply Hs4 in Hs. unfold in4. bool_lia.
    + intros s Hs. apply Hps in Hs. unfold in4. bool_lia.
  - intros p Hin. apply H6. rewrite E2. set_solver.
  - intros p Hpr. specialize (H10 p Hpr). rewrite E2, decide_elem_app in H10 by done.
    rewrite !in_page_app, in_page_slots by done.
    rewrite (in_page_int4 a p s4) by (done || lia || (intros s Hs; apply Hs4 in Hs; lia)).
    lia.
  - apply list.NoDup_app. split; [apply list.NoDup_app; split|].
    + by apply page_slots_NoDup.
    + split; [|done]. intros s Hs%Hps Hs'%Hs4. lia.
    + split; [|done]. intros s Hs Hso. apply elem_of_app in Hs as [Hs|Hs].
      * revert Hso. eapply inv_free_page; [by split|]. rewrite E2. apply page_slots_elem in Hs. set_solver.
      * assert (Hin : s ∈ free_slots4 a) by (rewrite E4; set_solver).
        revert Hin. apply (inv_owned_in4 a owned); [by split|done|]. apply Hs4 in Hs. lia.
  - intros s [[Hs%Hps|Hs%Hs4]%elem_of_app|Hs]%elem_of_app; [lia| |by apply H12].
    rewrite (wf_offset _ Hwf) in Hs. pose proof (wf_pages _ Hwf). unfold PAGE in *. lia.
Qed.

Lemma inv_add_fallback a d owned : inv a owned -> inv (add_fallback a d) owned.
Proof. intros []. by split. Qed.

Lemma inv_clear p : pool_wf p -> inv (clear p) [].
Proof.
  intros Hwf. destruct Hwf as [H1 H2 H3 H4] eqn:E. assert (Hnn : 0 <= num_pages2 p) by lia.
  assert (Hg : forall q, 0 <= q < num_pages2 p ->
            tget (replicate (Z.to_nat (num_pages2 p)) 0) q = 0).
  { intros q Hq. unfold tget. apply lookup_total_replicate_2. lia. }
  split; simpl; try done.
  - rewrite app_nil_r. unfold arange. by replace (offset p + size4 p - (offset p + 1)) with (size4 p - 1) by lia.
  - apply NoDup_seqZ.
  - intros q Hq%elem_of_seqZ. lia.
  - unfold zlen. rewrite length_replicate. lia.
  - intros q Hq. rewrite Hg by done. unfold PAGE. lia.
  - apply Hg. lia.
  - intros q Hq. rewrite Hg by lia. rewrite decide_True; [done|]. apply elem_of_seqZ. lia.
  - constructor.
  - intros s Hs. by apply elem_of_nil in Hs.
  - unfold zsum. generalize (Z.to_nat (num_pages2 p)). intros n. induction n as [|n IH]; simpl; lia.
Qed.

Lemma inv_alloc a n out a' owned :
  inv a owned -> 0 <= n -> alloc a n = (Some out, a') -> inv a' (out ++ owned).
Proof.
  intros Hi Hn. unfold alloc. destruct (Z.ltb_spec (zlen (free_slots4 a)) n); [done|].
  intros [= <- <-]. rewrite slice_to_take, slice_from_drop by done.
  eapply (inv_take a _ [] (take (Z.to_nat n) (free_slots4 a))); try done.
  simpl. by rewrite take_drop.
Qed.

Lemma mixed_pages_bounds a segs :
  0 <= mixed_pages a segs <= zlen (free_pages2 a) /\
  mixed_pages a segs * PAGE <= count id (keep_ref segs) <= zlen (concat segs).
Proof.
  unfold mixed_pages. pose proof (count_nonneg id (keep_ref segs)).
  pose proof (count_le id (keep_ref segs)). pose proof (zlen_nonneg (free_pages2 a)).
  assert (zlen (keep_ref segs) = zlen (concat segs)) by (unfold zlen; by rewrite keep_ref_length).
  unfold PAGE. split; [dlia|]. split; [dlia|lia].
Qed.

Lemma mixed_mask_count a segs :
  count id (mixed_mask a segs) = mixed_pages a segs * PAGE /\
  zlen (mixed_mask a segs) = zlen (concat segs).
Proof.
  destruct (mixed_pages_bounds a segs) as [H1 H2]. split.
  - unfold mixed_mask. rewrite keep_first_count; unfold PAGE in *; lia.
  - unfold zlen, mixed_mask. by rewrite keep_first_length, keep_ref_length.
Qed.

(** What a successful mixed allocation hands out. *)
Lemma alloc_mixed_ref_out a segs out a' :
  alloc_mixed_ref a segs = (Some out, a') ->
  exists ps s4,
    free_pages2 a = ps ++ free_pages2 a' /\ free_slots4 a = s4 ++ free_slots4 a' /\
    zlen ps = mixed_pages a segs /\
    zlen (page_slots ps) = count id (mixed_mask a segs) /\
    zlen s4 = zlen (mixed_mask a segs) - count id (mixed_mask a segs) /\
    out = merge_mask (mixed_mask a segs) (page_slots ps) s4 /\
    out ≡ₚ page_slots ps ++ s4.
Proof.
  unfold alloc_mixed_ref. destruct (Nat.ltb _ _) eqn:Hf; [done|]. apply Nat.ltb_ge in Hf.
  intros [= <- <-]. destruct (mixed_pages_bounds a segs) as [H1 H2].
  destruct (mixed_mask_count a segs) as [H3 H4]. simpl.
  set (np := mixed_pages a segs) in *. set (n4 := zlen (concat segs) - np * PAGE) in *.
  exists (take (Z.to_nat np) (free_pages2 a)), (take (Z.to_nat n4) (free_slots4 a)).
  rewrite !take_drop. assert (Hz : zlen (take (Z.to_nat np) (free_pages2 a)) = np) by (apply zlen_take; lia).
  assert (Hz4 : zlen (take (Z.to_nat n4) (free_slots4 a)) = n4)
    by (assert (0 <= n4) by lia; clearbody n4; apply zlen_take; unfold zlen; lia).
  rewrite page_slots_length, Hz, Hz4, H3, H4. repeat split; try done.
  apply merge_mask_perm; [by rewrite page_slots_length, Hz, H3|by rewrite H3, H4, Hz4].
Qed.

Lemma inv_alloc_mixed_ref a segs out a' owned :
  inv a owned -> alloc_mixed_ref a segs = (Some out, a') -> inv a' (out ++ owned).
Proof.
  intros Hi H. destruct (alloc_mixed_ref_out _ _ _ _ H) as (ps & s4 & E2 & E4 & _ & _ & _ & _ & Ho).
  unfold alloc_mixed_ref in H. destruct (Nat.ltb _ _); [done|]. injection H as _ <-.
  by eapply (inv_take a _ ps s4).
Qed.

Lemma inv_alloc_mixed_none a segs a' owned :
  inv a owned -> alloc_mixed_ref a segs = (None, a') -> inv a' owned.
Proof.
  intros Hi. unfold alloc_mixed_ref. destruct (Nat.ltb _ _); [|done].
  intros [= <-]. by apply inv_add_fallback.
Qed.

(** ** Release *)

Lemma clear_pages_spec c full :
  NoDup full -> (forall p, p ∈ full -> 0 <= p < zlen c) ->
  let c' := foldl (fun c p => set_at c p 0) c full in
  zlen c' = zlen c /\ zsum c' = zsum c - zsum (map (tget c) full) /\
  forall p, 0 <= p -> tget c' p = if decide (p ∈ full) then 0 else tget c p.
Proof.
  intros Hnd. revert c. induction Hnd as [|q full Hq _ IH]; intros c H; cbv zeta.
  - change (zsum (map (tget c) [])) with 0. simpl. repeat split; lia.
  - cbn [foldl map]. assert (Hi : 0 <= q < zlen c) by (apply H; by left).
    destruct (IH (set_at c q 0)) as (H1 & H2 & H3).
    { intros j Hj. rewrite zlen_set_at. apply H. by right. }
    assert (Hm : map (tget (set_at c q 0)) full = map (tget c) full).
    { apply map_ext_in. intros p Hp%list_elem_of_In. rewrite tget_set_at.
      - destruct (Z.eqb_spec p q); [by subst|done].
      - done.
      - assert (0 <= p < zlen c) by (apply H; by right). lia. }
    rewrite H1, H2, zlen_set_at, zsum_set_at, Hm by done. split; [done|]. split.
    { unfold zsum. simpl. lia. }
    intros p Hp. rewrite H3, tget_set_at by done.
    destruct (decide (p ∈ full)), (Z.eqb_spec p q); case_decide; set_solver.
Qed.

(** The INT2 slots of an index tensor, the dummy page dropped. *)
Definition slots2_of (a : TriaxialAllocator) (l : list Z) : list Z :=
  List.filter (fun s => PAGE <=? s) (List.filter (fun s => negb (offset (pool a) <=? s)) l).

Lemma slots2_of_elem a l s : s ∈ slots2_of a l <-> s ∈ l /\ PAGE <= s < offset (pool a).
Proof. unfold slots2_of. rewrite !elem_of_filter_b. split; intros H; bool_lia; tauto || lia. Qed.

Lemma slots2_of_page a l p :
  pool_wf (pool a) -> 1 <= p < num_pages2 (pool a) -> in_page p (slots2_of a l) = in_page p l.
Proof.
  intros Hwf Hp. unfold in_page, slots2_of. induction l as [|s l IH]; [done|]. simpl.
  assert (E : offset (pool a) = num_pages2 (pool a) * PAGE) by apply (wf_offset _ Hwf).
  rewrite count_cons, <- IH. destruct (Z.leb_spec (offset (pool a)) s); simpl.
  - replace (s / PAGE =? p) with false; [done|]. symmetry. apply Z.eqb_neq. unfold PAGE in *. dlia.
  - destruct (Z.leb_spec PAGE s); rewrite ?count_cons; [done|].
    replace (s / PAGE =? p) with false; [done|]. symmetry. apply Z.eqb_neq. unfold PAGE in *. dlia.
Qed.

Lemma free_int2_fields a s2 :
  pool (free_int2 a s2) = pool a /\ release_pages (free_int2 a s2) = release_pages a /\
  is_not_in_free_group (free_int2 a s2) = is_not_in_free_group a /\
  free_group (free_int2 a s2) = free_group a /\
  free_slots4 (free_int2 a s2) = free_slots4 a /\ free_pages (free_int2 a s2) = free_pages a.
Proof. unfold free_int2. by destruct (0 <? zlen s2). Qed.

(** [free] is the INT4 append followed by the INT2 bookkeeping. *)
Lemma free_now_eq a l :
  free_pages a = free_slots4 a ->
  free_now a l = free_int2 (set_free4 a (free_slots4 a ++ List.filter (in4 (pool a)) l)) (slots2_of a l).
Proof.
  intros Hv. unfold free_now. fold (slots2_of a l). change (fun s => offset (pool a) <=? s) with (in4 (pool a)).
  destruct (Z.ltb_spec 0 (zlen (List.filter (in4 (pool a)) l))) as [H|H]; [done|].
  rewrite (zlen_le_0 _ H), app_nil_r. f_equal. destruct a; simpl in *; by subst.
Qed.

(** The pages that a release completes. *)
Definition full_pages (a : TriaxialAllocator) (s2 : list Z) : list Z :=
  List.filter (fun p => PAGE <=? tget (page_free_cnt a) p + in_page p s2)
    (unique (map (fun s => s / PAGE) s2)).

Lemma full_pages_NoDup a s2 : NoDup (full_pages a s2).
Proof. apply NoDup_filter_b, unique_NoDup. Qed.

Lemma full_pages_elem a s2 p :
  p ∈ full_pages a s2 <->
  (exists s, s ∈ s2 /\ s / PAGE = p) /\ PAGE <= tget (page_free_cnt a) p + in_page p s2.
Proof.
  unfold full_pages. rewrite elem_of_filter_b, unique_elem.
  change (map (fun s => s / PAGE) s2) with ((fun s => s / PAGE) <$> s2). rewrite list_elem_of_fmap.
  rewrite Z.leb_le. naive_solver.
Qed.

(** The counters, the recycled pages and the partial count after a release. *)
Lemma free_int2_spec a s2 :
  (forall s, s ∈ s2 -> 0 <= s / PAGE < zlen (page_free_cnt a)) ->
  let raw p := tget (page_free_cnt a) p + in_page p s2 in
  let full := full_pages a s2 in
  (forall p, p ∈ full -> raw p = PAGE) ->
  let a' := free_int2 a s2 in
  free_pages2 a' = free_pages2 a ++ full /\
  zlen (page_free_cnt a') = zlen (page_free_cnt a) /\
  (forall p, 0 <= p -> tget (page_free_cnt a') p = if decide (p ∈ full) then 0 else raw p) /\
  partial_slots a' = partial_slots a + (zlen s2 - zlen full * PAGE) /\
  zsum (page_free_cnt a') = zsum (page_free_cnt a) + (zlen s2 - zlen full * PAGE).
Proof.
  intros Hr raw full Hfull a'. unfold a', free_int2. clear a'.
  assert (Hr' : forall i, i ∈ map (fun s => s / PAGE) s2 -> 0 <= i < zlen (page_free_cnt a)).
  { intros i (s & -> & Hs)%list_elem_of_fmap. by apply Hr. }
  destruct (add_at_spec (page_free_cnt a) _ Hr') as (Hl & Hsum & Hg).
  set (cnt := add_at _ _) in *.
  assert (Hg' : forall p, 0 <= p -> tget cnt p = raw p).
  { intros p Hp. rewrite Hg, count_map by done. unfold raw, in_page. f_equal.
    apply count_ext. intros s _. apply Z.eqb_sym. }
  rewrite (filter_ext_in _ (fun p => PAGE <=? raw p)).
  2:{ intros p Hp%list_elem_of_In. rewrite unique_elem in Hp. rewrite Hg'; [done|]. apply Hr' in Hp. lia. }
  change (List.filter (fun p => PAGE <=? raw p) (unique (map (fun s => s / PAGE) s2))) with full.
  assert (Hfr : forall p, p ∈ full -> 0 <= p < zlen cnt).
  { intros p [(s & Hs & <-) _]%full_pages_elem. rewrite Hl. by apply Hr. }
  destruct (clear_pages_spec cnt full (full_pages_NoDup _ _) Hfr) as (C1 & C2 & C3).
  rewrite (zsum_const (tget cnt) PAGE), Hsum in C2.
  2:{ intros p Hp. rewrite Hg' by (apply Hfr in Hp; lia). by apply Hfull. }
  unfold zlen in C2 at 1. rewrite length_map in C2. fold (zlen s2) in C2.
  assert (C3' : forall p, 0 <= p -> tget (foldl (fun c p => set_at c p 0) cnt full) p =
                  if decide (p ∈ full) then 0 else raw p).
  { intros p Hp. rewrite C3 by done. case_decide; [done|by apply Hg']. }
  destruct (Z.ltb_spec 0 (zlen s2)) as [Hs2|Hs2%zlen_le_0].
  - destruct (Z.ltb_spec 0 (zlen full)) as [Hfu|Hfu%zlen_le_0]; simpl.
    + split_and!; [done|lia|done|done|lia].
    + rewrite Hfu in *. rewrite app_nil_r. split_and!; [done|lia|done|done|simpl in *; lia].
  - assert (full = []) as -> by (unfold full; by rewrite Hs2).
    unfold raw. rewrite Hs2, app_nil_r. change (zlen (@nil Z)) with 0.
    split_and!; [done|done| |lia|lia]. intros p Hp. change (in_page p []) with 0. simpl. lia.
Qed.

(** The slots of an index tensor that are not in the dummy page 0. *)
Definition real (l : list Z) : list Z := List.filter (fun s => PAGE <=? s) l.

Lemma slots2_of_real a l : slots2_of a l = List.filter (fun s => negb (in4 (pool a) s)) (real l).
Proof. apply filter_comm. Qed.

Lemma filter_in4_real a l :
  pool_wf (pool a) -> List.filter (in4 (pool a)) (real l) = List.filter (in4 (pool a)) l.
Proof.
  intros Hwf. unfold real. rewrite filter_comm. apply filter_all. intros s [_ Hs]%elem_of_filter_b.
  unfold in4 in Hs. pose proof (wf_offset _ Hwf). pose proof (wf_pages _ Hwf). unfold PAGE in *. bool_lia.
Qed.

Lemma in_page_pos p l s : s ∈ l -> s / PAGE = p -> 0 < in_page p l.
Proof.
  intros Hs <-. apply list_elem_of_split in Hs as (l1 & l2 & ->).
  rewrite in_page_app. unfold in_page at 2. rewrite count_cons, Z.eqb_refl.
  pose proof (in_page_nonneg (s / PAGE) l1).
  pose proof (count_nonneg (fun t => t / PAGE =? s / PAGE) l2). unfold b2z. lia.
Qed.

Lemma in_page_zero p l : in_page p l = 0 -> forall s, s ∈ l -> s / PAGE <> p.
Proof. intros H s Hs E. pose proof (in_page_pos p l s Hs E). lia. Qed.

(** Per page: what a release of owned slots does to the page counter. *)
Lemma free_page_balance a l rest p :
  inv a (real l ++ rest) -> 1 <= p < num_pages2 (pool a) ->
  let s2 := slots2_of a l in
  let raw := tget (page_free_cnt a) p + in_page p s2 in
  0 <= raw <= PAGE /\
  raw + in_page p rest + (if decide (p ∈ free_pages2 a) then PAGE else 0) = PAGE /\
  (p ∈ full_pages a s2 <-> raw = PAGE).
Proof.
  intros Hi Hp s2 raw. pose proof (inv_pool _ _ Hi) as Hwf.
  pose proof (inv_cnt _ _ Hi p Hp) as Hc. rewrite in_page_app in Hc.
  pose proof (inv_cnt_range _ _ Hi p) as Hr.
  assert (Hs2 : in_page p s2 = in_page p (real l)).
  { unfold s2. rewrite slots2_of_page by done. rewrite <- (slots2_of_page a (real l)), <- (slots2_of_page a l) by done.
    rewrite !slots2_of_real. unfold real. f_equal. f_equal. symmetry.
    apply filter_all. by intros s [_ Hs]%elem_of_filter_b. }
  pose proof (in_page_nonneg p s2). pose proof (in_page_nonneg p rest).
  assert (Hb : raw + in_page p rest + (if decide (p ∈ free_pages2 a) then PAGE else 0) = PAGE)
    by (unfold raw; lia).
  assert (Hd : 0 <= (if decide (p ∈ free_pages2 a) then PAGE else 0)) by (case_decide; unfold PAGE; lia).
  split; [unfold raw in *; lia|]. split; [done|]. rewrite full_pages_elem. fold raw. split.
  - intros [_ ?]. unfold raw in *. lia.
  - intros Hraw. split; [|lia].
    assert (Hpos : 0 < in_page p s2) by (unfold raw in *; lia).
    destruct (List.filter (fun s => s / PAGE =? p) s2) as [|s ss] eqn:E.
    + unfold in_page, count in Hpos. rewrite E in Hpos. done.
    + exists s. assert (Hin : s ∈ List.filter (fun s => s / PAGE =? p) s2) by (rewrite E; by left).
      apply elem_of_filter_b in Hin as [Hin H2]. split; [done|bool_lia].
Qed.

Lemma full_pages_range a l rest p :
  inv a (real l ++ rest) -> p ∈ full_pages a (slots2_of a l) -> 1 <= p < num_pages2 (pool a).
Proof.
  intros Hi [(s & Hs & <-) _]%full_pages_elem. apply slots2_of_elem in Hs as [_ Hs].
  rewrite (wf_offset _ (inv_pool _ _ Hi)) in Hs. unfold PAGE in *. dlia.
Qed.

(** Releasing owned slots (dummy-page entries are ignored). *)
Lemma inv_free_now a l rest : inv a (real l ++ rest) -> inv (free_now a l) rest.
Proof.
  intros Hi. pose proof (inv_pool _ _ Hi) as Hwf.
  rewrite free_now_eq by apply (inv_view _ _ Hi).
  set (a1 := set_free4 a _). set (s2 := slots2_of a l).
  assert (Hp1 : pool a1 = pool a) by done. assert (Hc1 : page_free_cnt a1 = page_free_cnt a) by done.
  destruct (free_int2_fields a1 s2) as (F1 & F2 & F3 & F4 & F5 & F6).
  assert (Hbal : forall p, 1 <= p < num_pages2 (pool a) -> _) by exact (fun p => free_page_balance a l rest p Hi).
  fold s2 in Hbal. cbv zeta in Hbal.
  assert (Hfr : forall p, p ∈ full_pages a s2 -> 1 <= p < num_pages2 (pool a))
    by exact (fun p => full_pages_range a l rest p Hi).
  assert (Hs2r : forall s, s ∈ s2 -> 1 <= s / PAGE < num_pages2 (pool a)).
  { intros s [_ Hs]%slots2_of_elem. rewrite (wf_offset _ Hwf) in Hs. unfold PAGE in *. dlia. }
  destruct (free_int2_spec a1 s2) as (G1 & G2 & G3 & G4 & G5).
  { intros s Hs. rewrite Hc1, (inv_cnt_len _ _ Hi). apply Hs2r in Hs. lia. }
  { intros p Hp. pose proof (Hfr p Hp). by apply Hbal. }
  change (full_pages a1 s2) with (full_pages a s2) in *. rewrite Hc1 in *.
  assert (H0 : in_page 0 s2 = 0).
  { apply count_zero. intros s Hs. apply Hs2r in Hs. apply Z.eqb_neq. lia. }
  assert (Hf0 : 0 ∉ full_pages a s2) by (intros H; apply Hfr in H; lia).
  pose proof (inv_owned _ _ Hi) as Hno. apply list.NoDup_app in Hno as (_ & Hdis & Hno).
  destruct Hi as [I1 I2 I3 I4 I5 I6 I7 I8 I9 I10 I11 I12 I13].
  split; rewrite ?F1, ?F2, ?F5, ?F6, ?Hp1; try done.
  - simpl. rewrite <- app_assoc. rewrite <- I4, List.filter_app, filter_in4_real by done. done.
  - rewrite G1. apply list.NoDup_app. split; [done|]. split; [|apply full_pages_NoDup].
    intros p Hp Hf. pose proof (Hfr p Hf) as Hr. destruct (Hbal p Hr) as (B1 & B2 & B3).
    apply B3 in Hf. rewrite decide_True in B2 by done. pose proof (in_page_nonneg p rest). unfold PAGE in *. lia.
  - intros p. rewrite G1. intros [Hp|Hp]%elem_of_app; [by apply I6|by apply Hfr].
  - rewrite G2. done.
  - intros p Hp. rewrite G3 by lia. case_decide as Hd; [unfold PAGE; lia|].
    destruct (Z.eq_dec p 0) as [->|]; [rewrite I9, H0; unfold PAGE; lia|].
    destruct (Hbal p) as (B1 & B2 & B3); [lia|]. assert (tget (page_free_cnt a) p + in_page p s2 <> PAGE) by tauto. lia.
  - rewrite G3, decide_False, I9, H0 by (done || lia). done.
  - intros p Hp. destruct (Hbal p Hp) as (B1 & B2 & B3).
    rewrite G3, G1 by lia. rewrite decide_elem_app.
    2:{ intros q Hq Hqf. pose proof (Hfr q Hqf) as Hr. destruct (Hbal q Hr) as (D1 & D2 & D3).
        apply D3 in Hqf. rewrite decide_True in D2 by done. pose proof (in_page_nonneg q rest). unfold PAGE in *. lia. }
    change (free_pages2 a1) with (free_pages2 a).
    destruct (decide (p ∈ full_pages a s2)) as [Hd|Hd]; [apply B3 in Hd|]; lia.
  - intros s Hs. apply I12. set_solver.
  - rewrite G4, G5. change (partial_slots a1) with (partial_slots a). lia.
Qed.

(** ** Free groups *)

(** Slots parked by [free] between [free_group_begin] and [free_group_end]. *)
Definition pending (a : TriaxialAllocator) : list Z :=
  if is_not_in_free_group a then [] else real (concat (free_group a)).

Lemma inv_set_group a b g owned : inv a owned -> inv (set_group a b g) owned.
Proof. intros []. by split. Qed.

Lemma real_app l k : real (l ++ k) = real l ++ real k.
Proof. apply List.filter_app. Qed.

Lemma free_now_group a l : is_not_in_free_group (free_now a l) = is_not_in_free_group a.
Proof.
  unfold free_now. fold (slots2_of a l). set (s2 := slots2_of a l).
  destruct (0 <? zlen (List.filter (fun s => offset (pool a) <=? s) l)); unfold free_int2;
    by destruct (0 <? zlen s2).
Qed.

Lemma free_now_pool a l : pool (free_now a l) = pool a.
Proof.
  unfold free_now. fold (slots2_of a l). set (s2 := slots2_of a l).
  destruct (0 <? zlen (List.filter (fun s => offset (pool a) <=? s) l)); unfold free_int2;
    by destruct (0 <? zlen s2).
Qed.

Lemma pending_free_now a l : is_not_in_free_group a = true -> pending (free_now a l) = [].
Proof. intros H. unfold pending. by rewrite free_now_group, H. Qed.

Lemma inv_free a l owned :
  inv a (pending a ++ real l ++ owned) -> inv (free a l) (pending (free a l) ++ owned).
Proof.
  intros Hi. unfold free. destruct (Z.eqb_spec (zlen l) 0) as [Hz|Hz].
  - rewrite (zlen_le_0 l) in Hi by lia. done.
  - destruct (is_not_in_free_group a) eqn:Eg; simpl.
    + rewrite pending_free_now by done. unfold pending in Hi. rewrite Eg in Hi. by apply inv_free_now.
    + unfold pending in *. simpl. rewrite Eg in Hi. rewrite concat_app. simpl.
      rewrite app_nil_r, real_app, <- app_assoc. by apply inv_set_group.
Qed.

Lemma inv_group_end a owned :
  inv a (pending a ++ owned) -> is_not_in_free_group a = false ->
  inv (free_group_end a) owned /\ is_not_in_free_group (free_group_end a) = true.
Proof.
  intros Hi Eg. unfold free_group_end. cbv zeta. simpl. unfold pending in Hi. rewrite Eg in Hi.
  destruct (free_group a) as [|g gs] eqn:E.
  - simpl. split; [by apply inv_set_group|done].
  - set (a1 := set_group a true (g :: gs)). split.
    + assert (Hi1 : inv a1 (real (concat (g :: gs)) ++ owned)) by (by apply inv_set_group).
      pose proof (inv_free a1 (concat (g :: gs)) owned) as Hf. unfold pending at 1 in Hf. simpl in Hf.
      specialize (Hf Hi1). unfold free in *. destruct (_ =? 0); [done|].
      simpl in *. by rewrite pending_free_now in Hf.
    + unfold free. destruct (_ =? 0); [done|]. simpl. by rewrite free_now_group.
Qed.

(** ** Accounting *)

Lemma zsum_seqZ_count (l : list Z) (m n : Z) :
  (forall s, s ∈ l -> m <= s / PAGE < m + n) ->
  zsum (map (fun p => in_page p l) (seqZ m n)) = zlen l.
Proof.
  induction l as [|s l IH]; intros H.
  - rewrite (zsum_const _ 0) by done. change (zlen (@nil Z)) with 0. lia.
  - rewrite zlen_cons, <- IH by (intros; apply H; by right).
    assert (Hs : s / PAGE ∈ seqZ m n) by (apply elem_of_seqZ, H; by left).
    apply list_elem_of_split in Hs as (l1 & l2 & E). pose proof (NoDup_seqZ m n) as Hnd.
    rewrite E in *. apply list.NoDup_app in Hnd as (_ & Hd & Hnd2%list.NoDup_cons).
    assert (Hne : forall k, (forall p, p ∈ k -> p <> s / PAGE) ->
      map (fun p => in_page p (s :: l)) k = map (fun p => in_page p l) k).
    { intros k Hk. apply map_ext_in. intros p Hp%list_elem_of_In. unfold in_page. rewrite count_cons.
      destruct (Z.eqb_spec (s / PAGE) p); [|done]. exfalso. by eapply Hk. }
    rewrite !map_app. cbn [map]. rewrite !Hne.
    + unfold in_page at 2. rewrite count_cons, Z.eqb_refl. fold (in_page (s / PAGE) l).
      rewrite !zsum_app. unfold zsum. cbn [foldr]. unfold b2z. lia.
    + intros p Hp ->. by apply Hnd2.
    + intros p Hp ->. eapply Hd; [done|]. by left.
Qed.

Lemma inv_available a owned : inv a owned -> available_size a + zlen owned = ps_size (pool a).
Proof.
  intros Hi. pose proof (inv_pool _ _ Hi) as Hwf. unfold available_size.
  set (N := num_pages2 (pool a)). pose proof (wf_pages _ Hwf) as HN. fold N in HN.
  set (o2 := List.filter (fun s => negb (in4 (pool a) s)) owned).
  assert (H4 : zlen (free_slots4 a) + zlen (List.filter (in4 (pool a)) owned) = size4 (pool a) - 1).
  { rewrite <- zlen_app. unfold zlen. rewrite (inv_int4 _ _ Hi), length_seqZ. pose proof (wf_size4 _ Hwf). lia. }
  assert (Ho : zlen owned = zlen (List.filter (in4 (pool a)) owned) + zlen o2).
  { rewrite <- zlen_app. unfold zlen, o2. by rewrite (filter_split_perm (in4 (pool a)) owned). }
  assert (Ho2 : forall s, s ∈ o2 -> 1 <= s / PAGE < 1 + (N - 1)).
  { intros s [Hs Hn]%elem_of_filter_b. apply (inv_owned_range _ _ Hi) in Hs. unfold in4 in Hn.
    rewrite (wf_offset _ Hwf) in Hn. unfold N, PAGE in *. bool_lia. dlia. }
  assert (H2 : zsum (map (fun _ => PAGE) (seqZ 1 (N - 1))) =
               zsum (page_free_cnt a) + zlen o2 + zlen (free_pages2 a) * PAGE).
  { rewrite <- (zsum_seqZ_count o2 1 (N - 1) Ho2), <- (zsum_indicator (free_pages2 a) 1 (N - 1) PAGE).
    - rewrite <- (zsum_tget (page_free_cnt a)), (inv_cnt_len _ _ Hi). fold N. rewrite (seqZ_cons 0 N) by lia.
      replace (Z.succ 0) with 1 by lia. replace (Z.pred N) with (N - 1) by lia.
      cbn [map]. rewrite (inv_cnt0 _ _ Hi). unfold zsum at 2. cbn [foldr]. fold (zsum (map (tget (page_free_cnt a)) (seqZ 1 (N - 1)))).
      rewrite Z.add_0_l, <- !zsum_map_add. f_equal. apply map_ext_in. intros p Hp%list_elem_of_In.
      apply elem_of_seqZ in Hp. assert (Hpr : 1 <= p < num_pages2 (pool a)) by (unfold N in *; lia).
      rewrite <- (inv_cnt _ _ Hi p Hpr) at 1. f_equal. f_equal.
      transitivity (in_page p (slots2_of a owned)); [symmetry; by apply slots2_of_page|].
      rewrite slots2_of_real. unfold o2. f_equal. f_equal. apply filter_all.
      intros s Hs. apply (inv_owned_range _ _ Hi) in Hs. bool_lia.
    - apply (inv_pages _ _ Hi).
    - intros p Hp. apply (inv_pages_range _ _ Hi) in Hp. unfold N. lia. }
  rewrite (zsum_const _ PAGE) in H2 by done. unfold zlen in H2 at 1. rewrite length_seqZ in H2.
  rewrite (wf_size _ Hwf), (inv_partial _ _ Hi). fold N. unfold PAGE in *. lia.
Qed.
