(* ===== verification/TriaxialBuffersTheory.v ===== *)
(** * Grouping the slots of a batch

    For a batch of distinct slots that contains every INT2 page it touches as a
    whole, [_grouping] succeeds, and the token rows of each page are the tokens
    of its 32 slots in order. *)

From S2P Require Import Prelude Tensors Floats DeviceFloats DeviceMemory QuantKernels QuantProps TriaxialPool TriaxialBuffers TriaxialAllocator TriaxialAllocatorTheory TriaxialInvariant.

(** Distinct slots; the INT2 slots form whole pages. *)
Definition whole_pages (off : Z) (loc : list Z) : Prop :=
  NoDup loc /\ forall s j, s ∈ loc -> PAGE <= s < off -> 0 <= j < 32 -> s / 32 * 32 + j ∈ loc.

Lemma in_page_whole q l : NoDup l -> in_page q l = PAGE -> forall j, 0 <= j < 32 -> q * 32 + j ∈ l.
Proof.
  intros Hnd Hc j Hj. set (F := List.filter (fun s => s / PAGE =? q) l).
  assert (HF : F ≡ₚ seqZ (q * 32) 32).
  { apply submseteq_length_Permutation.
    - apply NoDup_submseteq; [by apply NoDup_filter_b|]. intros s [_ Hs%Z.eqb_eq]%elem_of_filter_b.
      apply elem_of_seqZ. unfold PAGE in Hs. dlia.
    - unfold in_page, count, zlen in Hc. fold F in Hc. rewrite length_seqZ. unfold PAGE in Hc. lia. }
  assert (Hin : q * 32 + j ∈ F) by (rewrite HF; apply elem_of_seqZ; lia). by apply elem_of_filter_b in Hin as [? _].
Qed.

(** ** Sorted slots of whole pages *)

Lemma page_slots_by_page pages s : s ∈ page_slots pages <-> s / 32 ∈ pages.
Proof.
  apply page_slots_elem.
Qed.

Lemma StronglySorted_app_lt l k : StronglySorted Z.lt l -> StronglySorted Z.lt k ->
  (forall x y, x ∈ l -> y ∈ k -> x < y) -> StronglySorted Z.lt (l ++ k).
Proof.
  induction l as [|x l IH]; [done|]. intros [Hl Hx]%StronglySorted_inv Hk Hlt. simpl. constructor.
  - apply IH; [done..|]. intros a b Ha. apply Hlt. set_solver.
  - rewrite list.Forall_forall in *. intros y [Hy|Hy]%elem_of_app; [by apply Hx|apply Hlt; set_solver].
Qed.

Lemma seqZ_sorted a n : StronglySorted Z.lt (seqZ a n).
Proof.
  unfold seqZ. generalize (Z.to_nat n). intros k. generalize 0%nat. induction k as [|k IH]; intros i; [constructor|].
  simpl. constructor; [apply IH|]. rewrite list.Forall_forall. intros x (y & -> & Hy%elem_of_seq)%list_elem_of_fmap. lia.
Qed.

Lemma page_slots_sorted pages : StronglySorted Z.lt pages -> StronglySorted Z.lt (page_slots pages).
Proof.
  unfold page_slots. induction pages as [|p ps IH]; intros Hs; [constructor|]. apply StronglySorted_inv in Hs as [Hs Hp].
  cbn [map concat]. apply StronglySorted_app_lt; [apply seqZ_sorted|by apply IH|].
  intros x y Hx%elem_of_seqZ Hy. fold (page_slots ps) in Hy. apply page_slots_by_page in Hy. rewrite list.Forall_forall in Hp.
  specialize (Hp _ Hy). unfold PAGE in *. dlia.
Qed.

Lemma unique_sorted l : StronglySorted Z.lt (unique l).
Proof.
  pose proof (unique_NoDup l) as Hnd. pose proof (Sorted_merge_sort Z.le (remove_dups l)) as Hs. fold (unique l) in Hs.
  apply Sorted_StronglySorted in Hs; [|intros ?????; lia]. induction Hs as [|x l' Hs IH Hx]; [constructor|].
  apply list.NoDup_cons in Hnd as [Hx' Hnd]. constructor; [by apply IH|]. rewrite list.Forall_forall in *. intros y Hy.
  specialize (Hx y Hy). assert (x <> y) by (intros ->; done). lia.
Qed.

#[global] Instance Zlt_antisymm : AntiSymm (=) Z.lt.
Proof. intros x y ??. lia. Qed.

(** The slots of whole pages in increasing order are the slots of their pages. *)
Lemma sorted_pages S : StronglySorted Z.lt S -> (forall s j, s ∈ S -> 0 <= j < 32 -> s / 32 * 32 + j ∈ S) ->
  S = page_slots (unique (map (fun s => s / 32) S)).
Proof.
  intros Hs Hw. set (Q := unique _).
  assert (Hel : forall s, s ∈ S <-> s ∈ page_slots Q).
  { intros s. rewrite page_slots_by_page. unfold Q. rewrite unique_elem, elem_of_lmap. split.
    - intros H. by exists s.
    - intros (s' & Hs' & E). specialize (Hw s' (s mod 32) Hs' ltac:(apply Z.mod_pos_bound; lia)).
      by replace (s' / 32 * 32 + s mod 32) with s in Hw by dlia. }
  assert (Hss : StronglySorted Z.lt (page_slots Q)) by (apply page_slots_sorted, unique_sorted).
  apply (StronglySorted_unique Z.lt); [done..|]. apply NoDup_Permutation; [| |done].
  - clear -Hs. induction Hs as [|x l Hl IH Hx]; constructor; [|done]. intros Hin. rewrite list.Forall_forall in Hx. specialize (Hx x Hin). lia.
  - clear -Hss. induction Hss as [|x l Hl IH Hx]; constructor; [|done]. intros Hin. rewrite list.Forall_forall in Hx. specialize (Hx x Hin). lia.
Qed.

Lemma reshape_page_slots pages : reshape 32 (page_slots pages) = map (fun p => seqZ (p * PAGE) PAGE) pages.
Proof.
  assert (Hc : forall fuel, (length (page_slots pages) <= fuel)%nat -> chunks fuel 32 (page_slots pages) = map (fun p => seqZ (p * PAGE) PAGE) pages).
  { induction pages as [|p ps IH]; intros fuel Hf; [by destruct fuel|].
    unfold page_slots in *. cbn [map concat] in *. fold (page_slots ps) in *. rewrite length_app, length_seqZ in Hf.
    destruct fuel as [|fuel]; [unfold PAGE in Hf; lia|]. cbn [chunks].
    destruct (seqZ (p * PAGE) PAGE ++ page_slots ps) as [|y ys] eqn:E.
    { apply (f_equal length) in E. rewrite length_app, length_seqZ in E. unfold PAGE in E. simpl in E. lia. }
    rewrite <- E. clear E y ys.
    rewrite take_app_length', drop_app_length' by (rewrite length_seqZ; done). f_equal. apply IH. unfold PAGE in Hf. lia. }
  apply Hc. done.
Qed.

Lemma concat_chunks {A} fuel n (l : list A) : (0 < n)%nat -> (length l <= fuel)%nat -> concat (chunks fuel n l) = l.
Proof.
  intros Hn. revert l. induction fuel as [|fuel IH]; intros l Hl; [destruct l; simpl in *; [done|lia]|].
  cbn [chunks]. destruct l as [|x l]; [done|]. cbn [concat]. rewrite IH; [apply take_drop|]. rewrite length_drop. simpl in *. lia.
Qed.

Lemma concat_reshape {A} n (l : list A) : (0 < n)%nat -> concat (reshape n l) = l.
Proof. intros Hn. by apply concat_chunks. Qed.

Lemma chunks_lengths {A} fuel n k (l : list A) : (0 < n)%nat -> length l = (k * n)%nat -> (length l <= fuel)%nat ->
  length (chunks fuel n l) = k /\ Forall (fun r => length r = n) (chunks fuel n l).
Proof.
  intros Hn. revert k l. induction fuel as [|fuel IH]; intros k l Hk Hl.
  - destruct k; [by split|lia].
  - cbn [chunks]. destruct k as [|k].
    + destruct l; [by split|done].
    + destruct l as [|x l0] eqn:E; [simpl in Hk; lia|]. rewrite <- E in *.
      destruct (IH k (drop n l)) as [H1 H2]; [rewrite length_drop; lia|rewrite length_drop; lia|].
      split; [simpl; by rewrite H1|]. constructor; [|done]. rewrite length_take. lia.
Qed.

(** ** The grouping *)

(** What [_grouping] returns for the slots [loc]. *)
Record grouped (off : Z) (loc : list Z) (g : Grouping) : Prop := {
  gr_idx4 : forall i, i ∈ idx4 g <-> 0 <= i < zlen loc /\ off <= tget loc i;
  gr_nd4 : NoDup (idx4 g);
  gr_rows4 : rows4 g = map (fun i => tget loc i - off) (idx4 g);
  gr_idx2 : forall i, i ∈ idx2 g <-> 0 <= i < zlen loc /\ PAGE <= tget loc i < off;
  gr_nd2 : NoDup (idx2 g);
  gr_slots2 : slots2 g = map (tget loc) (idx2 g);
  gr_tok_len : zlen (tok_rows g) = zlen (g_pages g);
  gr_tok32 : Forall (fun r => zlen r = 32) (tok_rows g);
  gr_pages_nd : NoDup (g_pages g);
  gr_pages : forall q, q ∈ g_pages g <-> exists s, s ∈ loc /\ PAGE <= s < off /\ s / 32 = q;
  gr_tok : forall p j, 0 <= p < zlen (g_pages g) -> 0 <= j < 32 ->
    0 <= tget (concat (tok_rows g)) (p * 32 + j) < zlen loc /\
    tget loc (tget (concat (tok_rows g)) (p * 32 + j)) = tget (g_pages g) p * 32 + j
}.

Lemma nonzero_map (f : Z -> bool) loc i : i ∈ nonzero (map f loc) <-> 0 <= i < zlen loc /\ f (tget loc i) = true.
Proof.
  rewrite nonzero_elem. split.
  - intros [H0 H]. rewrite list_lookup_fmap in H. destruct (loc !! Z.to_nat i) as [s|] eqn:E; [|done]. simpl in H.
    pose proof (lookup_lt_Some _ _ _ E). split; [unfold zlen; lia|]. unfold tget. rewrite (list_lookup_total_correct _ _ _ E). by injection H.
  - intros [Hi Hf]. split; [lia|]. destruct (lookup_lt_is_Some_2 loc (Z.to_nat i)) as [s E]; [unfold zlen in Hi; lia|].
    rewrite list_lookup_fmap, E. simpl. unfold tget in Hf. rewrite (list_lookup_total_correct _ _ _ E) in Hf. by rewrite Hf.
Qed.

Lemma nonzero_NoDup mask : NoDup (nonzero mask).
Proof.
  pose proof (nonzero_sorted mask) as Hs. induction Hs as [|x l Hl IH Hx]; constructor; [|done].
  intros Hin. rewrite list.Forall_forall in Hx. specialize (Hx x Hin). lia.
Qed.

Lemma tget_elem loc s : s ∈ loc -> exists i, 0 <= i < zlen loc /\ tget loc i = s.
Proof.
  intros (i & Hi)%list_elem_of_lookup. exists (Z.of_nat i). split; [apply lookup_lt_Some in Hi; unfold zlen; lia|].
  by apply tget_lookup_Some.
Qed.

Lemma tget_in loc i : 0 <= i < zlen loc -> tget loc i ∈ loc.
Proof.
  intros Hi. destruct (lookup_lt_is_Some_2 loc (Z.to_nat i)) as [s E]; [unfold zlen in Hi; lia|].
  unfold tget. rewrite (list_lookup_total_correct _ _ _ E). by eapply list_elem_of_lookup_2.
Qed.

Lemma tget_inj loc i j : NoDup loc -> 0 <= i < zlen loc -> 0 <= j < zlen loc -> tget loc i = tget loc j -> i = j.
Proof.
  intros Hnd Hi Hj E. destruct (lookup_lt_is_Some_2 loc (Z.to_nat i)) as [s Ei]; [unfold zlen in Hi; lia|].
  destruct (lookup_lt_is_Some_2 loc (Z.to_nat j)) as [s' Ej]; [unfold zlen in Hj; lia|].
  unfold tget in E. rewrite (list_lookup_total_correct _ _ _ Ei), (list_lookup_total_correct _ _ _ Ej) in E. subst s'.
  pose proof (NoDup_lookup _ _ _ _ Hnd Ei Ej). lia.
Qed.

Lemma zip_map_self (f : Z -> Z) l : zip (map f l) l = map (fun i => (f i, i)) l.
Proof. induction l as [|x l IH]; [done|]. simpl. by rewrite IH. Qed.

#[global] Instance by_slot_total : Total by_slot.
Proof. intros a b. unfold by_slot. lia. Qed.

(** The sorted INT2 slots with their tokens. *)
Lemma sorted_tokens off loc : whole_pages off loc -> off mod 32 = 0 ->
  let i2 := nonzero (map (fun s => negb (off <=? s) && (PAGE <=? s)) loc) in
  let sorted := merge_sort by_slot (zip (map (tget loc) i2) i2) in
  let Q := unique (map (fun s => s / 32) (map fst sorted)) in
  map fst sorted = page_slots Q /\
  (forall q, q ∈ Q <-> exists s, s ∈ loc /\ PAGE <= s < off /\ s / 32 = q) /\
  (forall k x, sorted !! k = Some x -> x.1 = tget loc x.2 /\ 0 <= x.2 < zlen loc).
Proof.
  intros [Hnd Hw] Hoff i2 sorted Q.
  assert (Hi2 : forall i, i ∈ i2 <-> 0 <= i < zlen loc /\ PAGE <= tget loc i < off).
  { intros i. unfold i2. rewrite nonzero_map. split; intros [H1 H2]; (split; [done|]); bool_lia. }
  assert (Hp : sorted ≡ₚ map (fun i => (tget loc i, i)) i2).
  { unfold sorted. rewrite merge_sort_Permutation. by rewrite zip_map_self. }
  assert (Hel : forall s, s ∈ map fst sorted <-> s ∈ loc /\ PAGE <= s < off).
  { intros s. rewrite Hp, map_map. simpl. rewrite elem_of_lmap. split.
    - intros (i & [Hi Hr]%Hi2 & ->). split; [by apply tget_in|done].
    - intros [Hs Hr]. destruct (tget_elem loc s Hs) as (i & Hi & <-). exists i. split; [by apply Hi2|done]. }
  assert (Hns : NoDup (map fst sorted)).
  { rewrite Hp, map_map. simpl. assert (Hn2 : NoDup i2) by apply nonzero_NoDup.
    clear -Hn2 Hi2 Hnd. assert (Hr : forall i, i ∈ i2 -> 0 <= i < zlen loc) by (intros i Hi; by apply Hi2 in Hi as [? _]). clear Hi2.
    induction i2 as [|i l IH]; [constructor|]. apply list.NoDup_cons in Hn2 as [Hi Hl]. simpl. constructor.
    - intros (j & Hj & E)%elem_of_lmap. apply Hi. rewrite (tget_inj loc i j); [done|done|apply Hr; set_solver|apply Hr; set_solver|done].
    - apply IH; [done|]. intros j Hj. apply Hr. set_solver. }
  assert (Hss : StronglySorted Z.lt (map fst sorted)).
  { pose proof (Sorted_merge_sort by_slot (zip (map (tget loc) i2) i2)) as Hs. fold sorted in Hs.
    apply Sorted_StronglySorted in Hs; [|intros ???; unfold by_slot; lia]. clear -Hs Hns.
    induction Hs as [|x l Hs IH Hx]; [constructor|]. apply list.NoDup_cons in Hns as [Hx' Hns]. simpl. constructor; [by apply IH|].
    rewrite list.Forall_forall in Hx. rewrite list.Forall_forall. intros y (z & Hz & ->)%elem_of_lmap. specialize (Hx z Hz). unfold by_slot in Hx.
    assert (x.1 <> z.1); [|lia]. intros E. apply Hx'. apply elem_of_lmap. by exists z. }
  split; [|split].
  - apply sorted_pages; [done|]. intros s j [Hs Hr]%Hel Hj. apply Hel. split; [by apply Hw|]. unfold PAGE in *. dlia.
  - intros q. unfold Q. rewrite unique_elem, elem_of_lmap. setoid_rewrite Hel. naive_solver.
  - intros k x Hk. apply list_elem_of_lookup_2 in Hk. rewrite Hp in Hk. apply elem_of_lmap in Hk as (i & [Hi _]%Hi2 & ->). done.
Qed.

Lemma compute_grouping_whole off loc : whole_pages off loc -> off mod 32 = 0 ->
  exists g, compute_grouping off loc = Ok g /\ grouped off loc g.
Proof.
  intros Hw Hoff. pose proof (sorted_tokens off loc Hw Hoff) as Hst. cbv zeta in Hst.
  unfold compute_grouping. cbv zeta. set (i2 := nonzero (map (fun s => negb (off <=? s) && (PAGE <=? s)) loc)) in *.
  set (sorted := merge_sort by_slot _) in *. set (Q := unique _) in *. destruct Hst as (HS & HQ & Hx).
  assert (H4 : forall i, i ∈ nonzero (map (fun s => off <=? s) loc) <-> 0 <= i < zlen loc /\ off <= tget loc i).
  { intros i. rewrite nonzero_map, Z.leb_le. done. }
  assert (H2 : forall i, i ∈ i2 <-> 0 <= i < zlen loc /\ PAGE <= tget loc i < off).
  { intros i. unfold i2. rewrite nonzero_map. split; intros [H H']; (split; [done|]); bool_lia. }
  assert (Hlen : zlen sorted = zlen Q * PAGE).
  { rewrite <- page_slots_length, <- HS. unfold zlen. by rewrite length_map. }
  destruct (Z.ltb_spec 0 (zlen (map (tget loc) i2))) as [Hpos|Hzero].
  - rewrite Hlen, Z.mod_mul by done. cbn [Z.eqb rassert rbind]. eexists. split; [done|].
    rewrite HS, reshape_page_slots, map_map.
    assert (EQ : map (fun p => tget (seqZ (p * PAGE) PAGE) 0 / PAGE) Q = Q).
    { rewrite <- (map_id Q) at 2. apply map_ext. intros q. replace (tget (seqZ (q * PAGE) PAGE) 0) with (q * PAGE + 0) by (symmetry; apply tget_lookup_Some with (i := 0%nat); by rewrite lookup_seqZ_lt).
      rewrite Z.add_0_r. by apply Z.div_mul. }
    rewrite EQ. destruct (chunks_lengths (length (map snd sorted)) 32 (length Q) (map snd sorted)) as [L1 L2]; [lia| |lia|].
    { rewrite length_map. unfold zlen, PAGE in Hlen. lia. }
    split; cbn [idx4 rows4 idx2 slots2 tok_rows g_pages]; try done.
    + apply nonzero_NoDup.
    + apply nonzero_NoDup.
    + unfold zlen, reshape. by rewrite L1.
    + unfold reshape. eapply list.Forall_impl; [exact L2|]. intros r Hr. unfold zlen. by rewrite Hr.
    + apply unique_NoDup.
    + intros p j Hp Hj. rewrite concat_reshape by lia.
      destruct (lookup_lt_is_Some_2 sorted (Z.to_nat (p * 32 + j))) as [x Ex]; [unfold zlen, PAGE in *; lia|].
      destruct (Hx _ _ Ex) as [E1 Hr].
      assert (Et : tget (map snd sorted) (p * 32 + j) = x.2).
      { unfold tget. apply list_lookup_total_correct. by rewrite list_lookup_fmap, Ex. }
      rewrite Et. split; [done|]. rewrite <- E1.
      pose proof (page_slots_lookup Q (p * 32 + j) ltac:(unfold PAGE; lia)) as Hl. rewrite <- HS, list_lookup_fmap, Ex in Hl.
      injection Hl as Hl. rewrite Hl. unfold PAGE. replace ((p * 32 + j) / 32) with p by dlia.
      by replace ((p * 32 + j) mod 32) with j by dlia.
  - assert (E2 : i2 = []). { apply zlen_le_0 in Hzero. by destruct i2. }
    eexists. split; [done|]. rewrite E2 in *. split; cbn [idx4 rows4 idx2 slots2 tok_rows g_pages map];
      try done; try apply nonzero_NoDup; try apply base.NoDup_nil_2; try apply list.Forall_nil_2.
    + intros q. split; [set_solver|]. intros (s & Hs & Hr & _). destruct (tget_elem loc s Hs) as (i & Hi & <-).
      exfalso. assert (Hin : i ∈ []) by (by apply H2). set_solver.
    + intros p j Hp. change (zlen (@nil Z)) with 0 in Hp. lia.
Qed.
