(* ===== verification/TriaxialBuffersProps.v ===== *)
(** * What the pool stores and reads back

    Writing a batch of slots into a layer and reading any slot of it: the slots
    of the batch hold the reference quantisation of their vectors, every other
    slot keeps its value. *)

From S2P Require Import Prelude Tensors Floats DeviceFloats DeviceFloatsTheory DeviceMemory QuantKernels QuantTheory QuantProps Triton DequantKernels DequantProps QuantRoundTrip TriaxialPool TriaxialBuffers TriaxialAllocator TriaxialAllocatorTheory TriaxialInvariant TriaxialBuffersTheory.

(** ** Vectors that agree on the channels of a head *)

Lemma group_ext v v' g : (forall j, 0 <= j < 32 -> v (g * 32 + j) = v' (g * 32 + j)) -> group v g = group v' g.
Proof. intros E. apply tabulate_ext. intros j Hj. by rewrite E. Qed.

Lemma ref_level_ext u Q v v' d D : D mod 32 = 0 -> (forall d, 0 <= d < D -> v d = v' d) -> 0 <= d < D -> ref_level u Q v d = ref_level u Q v' d.
Proof.
  intros HD E Hd. unfold ref_level. rewrite (group_ext v v') by (intros j Hj; apply E; dlia). by rewrite E.
Qed.

Lemma ref_value_ext u Q v v' d D : D mod 32 = 0 -> (forall d, 0 <= d < D -> v d = v' d) -> 0 <= d < D -> ref_value u Q v d = ref_value u Q v' d.
Proof.
  intros HD E Hd. unfold ref_value. rewrite (group_ext v v') by (intros j Hj; apply E; dlia).
  by rewrite (ref_level_ext u Q v v' d D).
Qed.

(** The 32 positions from [p * 32] of one vector as the first 32 of another. *)
Lemma ref_value_shift u Q v v' p j : (forall j, 0 <= j < 32 -> v (p * 32 + j) = v' j) -> 0 <= j < 32 ->
  ref_value u Q v (p * 32 + j) = ref_value u Q v' j.
Proof.
  intros E Hj.
  assert (Eg : group v ((p * 32 + j) / 32) = group v' (j / 32)).
  { replace ((p * 32 + j) / 32) with p by dlia. replace (j / 32) with 0 by dlia. apply tabulate_ext. intros i Hi. by rewrite E. }
  unfold ref_value, ref_level. by rewrite Eg, E.
Qed.

Lemma take_rows_vec x idx n H D a h d : shape x = [n; H; D] -> 0 <= a -> 0 <= h < H -> 0 <= d < D ->
  vec (take_rows x idx) a h d = vec x (tget idx a) h d.
Proof.
  intros Hx Ha Hh Hd. unfold vec, take_rows, dim. cbn [shape elems]. rewrite Hx. simpl.
  assert (Hw : 0 <= h * D + d < H * D) by nia.
  replace ((a * (H * D) + h * D + d) / (H * D)) with a by (apply Z.div_unique with (h * D + d); lia).
  replace ((a * (H * D) + h * D + d) mod (H * D)) with (h * D + d) by (apply Z.mod_unique with a; lia).
  f_equal. lia.
Qed.

Lemma elem_zlen_pos {A} (x : A) l : x ∈ l -> 0 < zlen l.
Proof. destruct l; [set_solver|]. unfold zlen. simpl. lia. Qed.

Section layer.
Context (sched : nat -> Z -> Z -> list (Z * Z)) (Hsched : forall k n m, sched k n m ≡ₚ grid2 n m).
Context (u H D off : Z) (HD : check_head_dim D 32 = Ok tt) (Hoff : off mod 32 = 0).
Context (loc : list Z) (Hloc : whole_pages off loc) (g : Grouping) (Hg : grouped off loc g).
Context (k v : tensor spec_float) (Hk : shape k = [zlen loc; H; D]) (Hv : shape v = [zlen loc; H; D]).

Lemma D_props : 0 <= D /\ D mod 32 = 0 /\ 32 <= D.
Proof using HD. destruct (check_head_dim_ok D 32 HD) as [H1 H2]. repeat split; [lia|done|lia]. Qed.

(** Vector [i] of [x] is finite in fp16, for every head. *)
Definition fits_all (x : tensor spec_float) : Prop := forall i h, 0 <= i < zlen loc -> 0 <= h < H -> fits_row x i h.

Lemma fits_take x idx a h : shape x = [zlen loc; H; D] -> fits_all x -> 0 <= a -> 0 <= tget idx a < zlen loc -> 0 <= h < H ->
  fits_row (take_rows x idx) a h.
Proof.
  intros Hx Hf Ha Hi Hh d Hd.
  assert (Ed : dim (take_rows x idx) 2 = D) by (unfold take_rows, dim; cbn [shape]; rewrite Hx; done). rewrite Ed in Hd.
  rewrite (take_rows_vec x idx (zlen loc) H D) by done. apply Hf; [done..|]. unfold dim. by rewrite Hx.
Qed.

Lemma fits_groups x i h gr : shape x = [zlen loc; H; D] -> fits_all x -> 0 <= i < zlen loc -> 0 <= h < H -> 0 <= gr < D / 32 -> fits (vec x i h) gr.
Proof using HD.
  intros Hx Hf Hi Hh Hgr. pose proof D_props as (_ & Hmod & _).
  assert (Ed : dim x 2 = D) by (unfold dim; by rewrite Hx). apply fits_row_groups; rewrite ?Ed; auto.
Qed.

(** Rows written through [take_rows], read back by channel. *)
Section taken.
Context (x : tensor spec_float) (Hx : shape x = [zlen loc; H; D]) (Hf : fits_all x) (idx rows : list Z).
Context (Hidx : forall i, i ∈ idx -> 0 <= i < zlen loc) (Hnd : NoDup rows) (Hlen : zlen rows = zlen idx).

Lemma taken_sole a : 0 <= a < zlen idx -> sole_writer (zlen idx) (tget rows) a.
Proof using Hnd Hlen. intros Ha a' Ha' E. apply (tget_inj rows); try lia; done. Qed.

Lemma taken_dims : shape (take_rows x idx) = [zlen idx; H; D].
Proof using Hx. unfold take_rows, dim. cbn [shape]. by rewrite Hx. Qed.

Lemma taken_read4 data meta data' meta' a h d :
  tokens_written u (take_rows x idx) rows data meta (zlen idx) H D 15 (D / 2) byte4 data' meta' ->
  0 <= a < zlen idx -> 0 <= h < H -> 0 <= d < D ->
  zeq (stored4 H D (D / 32) (elems data') (elems meta') (tget rows a) h d) (ref_value u 15 (vec x (tget idx a) h) d).
Proof using HD Hx Hf Hidx Hnd Hlen.
  intros (_ & _ & Hw & _) Ha Hh Hd. pose proof D_props as (H0 & Hmod & _).
  assert (Hi : 0 <= tget idx a < zlen loc) by (apply Hidx, tget_in; done).
  rewrite <- (ref_value_ext u 15 (vec (take_rows x idx) a h) _ d D Hmod) by (intros; (apply (take_rows_vec x idx (zlen loc) H D); done || lia) || done).
  apply read_int4; [done| |done|].
  - pose proof (fits_row_groups (take_rows x idx) a h) as Hgs.
    assert (Ed : dim (take_rows x idx) 2 = D) by (unfold dim; by rewrite taken_dims). rewrite Ed in Hgs.
    apply Hgs; [done|]. apply fits_take; done || lia.
  - apply Hw; [done..| |]; [by apply taken_sole|]. apply fits_take; done || lia.
Qed.

Lemma taken_read2 data meta data' meta' a h d :
  tokens_written u (take_rows x idx) rows data meta (zlen idx) H D 3 (D / 4) byte2 data' meta' ->
  0 <= a < zlen idx -> 0 <= h < H -> 0 <= d < D ->
  zeq (stored2v H D (D / 32) (elems data') (elems meta') (tget rows a) h d) (ref_value u 3 (vec x (tget idx a) h) d).
Proof using HD Hx Hf Hidx Hnd Hlen.
  intros (_ & _ & Hw & _) Ha Hh Hd. pose proof D_props as (H0 & Hmod & _).
  assert (Hi : 0 <= tget idx a < zlen loc) by (apply Hidx, tget_in; done).
  rewrite <- (ref_value_ext u 3 (vec (take_rows x idx) a h) _ d D Hmod) by (intros; (apply (take_rows_vec x idx (zlen loc) H D); done || lia) || done).
  apply read_int2_v; [done| |done|].
  - pose proof (fits_row_groups (take_rows x idx) a h) as Hgs.
    assert (Ed : dim (take_rows x idx) 2 = D) by (unfold dim; by rewrite taken_dims). rewrite Ed in Hgs.
    apply Hgs; [done|]. apply fits_take; done || lia.
  - apply Hw; [done..| |]; [by apply taken_sole|]. apply fits_take; done || lia.
Qed.
End taken.

(** ** Slots outside the written rows *)

Lemma stored4_same data data' meta meta' r h d : row_same (D / 2) (D / 32) H data data' meta meta' r h -> 0 <= d < D ->
  stored4 H D (D / 32) (elems data') (elems meta') r h d = stored4 H D (D / 32) (elems data) (elems meta) r h d.
Proof using HD Hoff.
  intros [Hb Hm] Hd. pose proof D_props as (_ & Hmod & _). unfold stored4. rewrite Hb by dlia.
  replace (((r * H + h) * (D / 32) + d / 32) * 2) with ((r * H + h) * (D / 32 * 2) + d / 32 * 2) by lia.
  rewrite <- Z.add_assoc, !Hm by dlia. done.
Qed.

Lemma stored2v_same data data' meta meta' r h d : row_same (D / 4) (D / 32) H data data' meta meta' r h -> 0 <= d < D ->
  stored2v H D (D / 32) (elems data') (elems meta') r h d = stored2v H D (D / 32) (elems data) (elems meta) r h d.
Proof using HD Hoff.
  intros [Hb Hm] Hd. pose proof D_props as (_ & Hmod & _). unfold stored2v. rewrite Hb by dlia.
  replace (((r * H + h) * (D / 32) + d / 32) * 2) with ((r * H + h) * (D / 32 * 2) + d / 32 * 2) by lia.
  rewrite <- Z.add_assoc, !Hm by dlia. done.
Qed.

Lemma stored2k_same data data' meta meta' s h d : row_same (D * 8) D H data data' meta meta' (s / 32) h -> 0 <= d < D ->
  stored2k H D (elems data') (elems meta') s h d = stored2k H D (elems data) (elems meta) s h d.
Proof using HD Hoff.
  intros [Hb Hm] Hd. unfold stored2k. pose proof (Z.mod_pos_bound s 32 ltac:(lia)).
  replace (((s / 32 * H + h) * D + d) * 8 + s mod 32 / 4) with ((s / 32 * H + h) * (D * 8) + (d * 8 + s mod 32 / 4)) by lia.
  replace (((s / 32 * H + h) * D + d) * 2) with ((s / 32 * H + h) * (D * 2) + d * 2) by lia.
  rewrite Hb by dlia. rewrite <- Z.add_assoc, !Hm by lia. done.
Qed.

(** ** The INT4 half *)

Lemma rows4_facts : zlen (rows4 g) = zlen (idx4 g) /\ NoDup (rows4 g) /\
  (forall a, 0 <= a < zlen (idx4 g) -> tget (rows4 g) a = tget loc (tget (idx4 g) a) - off) /\
  (forall i, 0 <= i < zlen loc -> off <= tget loc i -> exists a, 0 <= a < zlen (idx4 g) /\ tget (idx4 g) a = i).
Proof using Hloc Hg.
  assert (E : forall a, 0 <= a < zlen (idx4 g) -> tget (rows4 g) a = tget loc (tget (idx4 g) a) - off).
  { intros a Ha. rewrite (gr_rows4 _ _ _ Hg). unfold tget at 1.
    destruct (lookup_lt_is_Some_2 (idx4 g) (Z.to_nat a)) as [i Ei]; [unfold zlen in Ha; lia|].
    rewrite (list_lookup_total_correct _ _ (tget loc i - off)) by (by rewrite list_lookup_fmap, Ei).
    do 2 f_equal. unfold tget. by rewrite (list_lookup_total_correct _ _ _ Ei). }
  split; [|split; [|split; [exact E|]]].
  - rewrite (gr_rows4 _ _ _ Hg). unfold zlen. by rewrite length_map.
  - rewrite (gr_rows4 _ _ _ Hg). apply NoDup_fmap_2_strong; [|apply (gr_nd4 _ _ _ Hg)].
    intros i j Hi Hj Eij. apply (gr_idx4 _ _ _ Hg) in Hi as [Hi _], Hj as [Hj _]. apply (tget_inj loc); [apply Hloc|done|done|lia].
  - intros i Hi Ho. apply tget_elem, (gr_idx4 _ _ _ Hg). done.
Qed.

Lemma write4_spec kv : kv_shaped kv H D -> kv_offset kv = off -> fits_all k -> fits_all v ->
  exists kv1, write4 sched kv g k v = Ok kv1 /\ kv_shaped kv1 H D /\ kv_offset kv1 = off /\
    (k2_data kv1, k2_meta kv1, v2_data kv1, v2_meta kv1) = (k2_data kv, k2_meta kv, v2_data kv, v2_meta kv) /\
    (forall i h d, 0 <= i < zlen loc -> off <= tget loc i -> 0 <= h < H -> 0 <= d < D ->
       zeq (slot_k kv1 (tget loc i) h d) (ref_value u 15 (vec k i h) d) /\ zeq (slot_v kv1 (tget loc i) h d) (ref_value u 15 (vec v i h) d)) /\
    (forall s h d, off <= s -> s ∉ loc -> 0 <= h < H -> 0 <= d < D -> slot_k kv1 s h d = slot_k kv s h d /\ slot_v kv1 s h d = slot_v kv s h d).
Proof using Hsched HD Hoff Hloc Hg Hk Hv.
  intros Hs Ho Fk Fv. destruct rows4_facts as (Hlen & Hnd & Hrow & Hpos). unfold write4.
  destruct (Z.ltb_spec 0 (zlen (rows4 g))) as [Hne|He].
  - assert (Hk1 : dim k 1 = H) by (unfold dim; by rewrite Hk). assert (Hv1 : dim v 1 = H) by (unfold dim; by rewrite Hv).
    assert (Hidx : forall i, i ∈ idx4 g -> 0 <= i < zlen loc) by (intros i Hi; by apply (gr_idx4 _ _ _ Hg) in Hi as [? _]).
    destruct (int4_tokens_written u (sched 0 (zlen (idx4 g)) (dim k 1)) (take_rows k (idx4 g)) (rows4 g) (k4_data kv) (k4_meta kv) (zlen (idx4 g)) H D)
      as (kd & km & Ek & Wk); [by apply taken_dims|lia|done|rewrite Hk1; apply Hsched|apply Hs|apply Hs|].
    destruct (int4_tokens_written u (sched 1 (zlen (idx4 g)) (dim v 1)) (take_rows v (idx4 g)) (rows4 g) (v4_data kv) (v4_meta kv) (zlen (idx4 g)) H D)
      as (vd & vm & Ev & Wv); [by apply taken_dims|lia|done|rewrite Hv1; apply Hsched|apply Hs|apply Hs|].
    rewrite Ek, Ev. cbn [rbind]. eexists. split; [done|].
    assert (Hs1 : kv_shaped (set4 kv (kd, km) (vd, vm)) H D).
    { destruct Wk as (Wk1 & Wk2 & _), Wv as (Wv1 & Wv2 & _). split; cbn [set4 k2_data k2_meta v2_data v2_meta k4_data k4_meta v4_data v4_meta fst snd];
        rewrite ?Wk1, ?Wk2, ?Wv1, ?Wv2; apply Hs. }
    split; [exact Hs1|]. split; [done|]. split; [done|]. destruct (shaped_heads _ _ _ Hs1) as [EH ED]. destruct (shaped_heads _ _ _ Hs) as [EH0 ED0].
    split.
    + intros i h d Hi Hoi Hh Hd. destruct (Hpos i Hi Hoi) as (a & Ha & Ea). unfold slot_k, slot_v. rewrite EH, ED.
      cbn [set4 kv_offset k4_data k4_meta v4_data v4_meta fst snd]. rewrite Ho. destruct (Z.ltb_spec (tget loc i) off); [lia|].
      subst i. rewrite <- !(Hrow a Ha).
      split; [by eapply (taken_read4 k Hk Fk (idx4 g) (rows4 g)); eauto|by eapply (taken_read4 v Hv Fv (idx4 g) (rows4 g)); eauto].
    + intros s h d Hos Hn Hh Hd. unfold slot_k, slot_v. rewrite EH, ED, EH0, ED0.
      cbn [set4 kv_offset k4_data k4_meta v4_data v4_meta fst snd]. rewrite Ho. destruct (Z.ltb_spec s off); [lia|].
      assert (Hr : forall a, 0 <= a < zlen (idx4 g) -> tget (rows4 g) a <> s - off).
      { intros a Ha E. rewrite Hrow in E by done. apply Hn. replace s with (tget loc (tget (idx4 g) a)) by lia. apply tget_in, Hidx, tget_in, Ha. }
      split; apply stored4_same; try done; [by apply Wk|by apply Wv].
  - assert (E : idx4 g = []) by (destruct (idx4 g); [done|rewrite Hlen in He; unfold zlen in He; simpl in He; lia]).
    exists kv. do 4 (split; [done|]). split; [|done]. intros i h d Hi Hoi. exfalso.
    destruct (Hpos i Hi Hoi) as (a & Ha & _). rewrite E in Ha. unfold zlen in Ha. simpl in Ha. lia.
Qed.

(** ** The INT2 half *)

Lemma slots2_facts : zlen (slots2 g) = zlen (idx2 g) /\ NoDup (slots2 g) /\
  (forall a, 0 <= a < zlen (idx2 g) -> tget (slots2 g) a = tget loc (tget (idx2 g) a)) /\
  (forall i, 0 <= i < zlen loc -> PAGE <= tget loc i < off -> exists a, 0 <= a < zlen (idx2 g) /\ tget (idx2 g) a = i).
Proof using Hloc Hg.
  assert (E : forall a, 0 <= a < zlen (idx2 g) -> tget (slots2 g) a = tget loc (tget (idx2 g) a)).
  { intros a Ha. rewrite (gr_slots2 _ _ _ Hg). unfold tget at 1.
    destruct (lookup_lt_is_Some_2 (idx2 g) (Z.to_nat a)) as [i Ei]; [unfold zlen in Ha; lia|].
    rewrite (list_lookup_total_correct _ _ (tget loc i)) by (by rewrite list_lookup_fmap, Ei).
    f_equal. unfold tget. by rewrite (list_lookup_total_correct _ _ _ Ei). }
  split; [|split; [|split; [exact E|]]].
  - rewrite (gr_slots2 _ _ _ Hg). unfold zlen. by rewrite length_map.
  - rewrite (gr_slots2 _ _ _ Hg). apply NoDup_fmap_2_strong; [|apply (gr_nd2 _ _ _ Hg)].
    intros i j Hi Hj Eij. apply (gr_idx2 _ _ _ Hg) in Hi as [Hi _], Hj as [Hj _]. by apply (tget_inj loc); [apply Hloc|..].
  - intros i Hi Ho. apply tget_elem, (gr_idx2 _ _ _ Hg). done.
Qed.

(** The token of the batch that holds slot [s / 32 * 32 + j]. *)
Definition page_token (tok : Z -> Z) (s : Z) : Prop :=
  forall j, 0 <= j < 32 -> 0 <= tok j < zlen loc /\ tget loc (tok j) = s / 32 * 32 + j.

Lemma chan_vec x toks h d j : dim x 1 = H -> dim x 2 = D -> chan x toks h d j = vec x (tget toks j) h d.
Proof. intros E1 E2. unfold chan, vec. f_equal. rewrite E1, E2. lia. Qed.

Lemma page_reads data meta data' meta' s tok h d : fits_all k ->
  pages_written u k (tok_rows g) (g_pages g) data meta H D data' meta' ->
  s ∈ loc -> PAGE <= s < off -> page_token tok s -> 0 <= h < H -> 0 <= d < D ->
  zeq (stored2k H D (elems data') (elems meta') s h d) (ref_value u 3 (fun j => vec k (tok j) h d) (s mod 32)).
Proof using HD Hoff Hloc Hg Hk.
  intros Fk (_ & _ & Hw & _) Hs Hr Htok Hh Hd. pose proof D_props as (H0 & Hmod & _).
  assert (E1 : dim k 1 = H) by (unfold dim; by rewrite Hk). assert (E2 : dim k 2 = D) by (unfold dim; by rewrite Hk).
  assert (Hq : s / 32 ∈ g_pages g) by (apply (gr_pages _ _ _ Hg); by exists s).
  destruct (tget_elem _ _ Hq) as (p & Hp & Ep).
  assert (Ht : forall j, 0 <= j < 32 -> tget (concat (tok_rows g)) (p * 32 + j) = tok j).
  { intros j Hj. destruct (gr_tok _ _ _ Hg p j Hp Hj) as [T1 T2]. destruct (Htok j Hj) as [T3 T4].
    apply (tget_inj loc); [apply Hloc|done|done|]. by rewrite T2, T4, Ep. }
  assert (Hfit : forall d', 0 <= d' < D -> fits (chan k (concat (tok_rows g)) h d') p).
  { intros d' Hd' j Hj. rewrite chan_vec by done. rewrite Ht by done. destruct (Htok j Hj) as [T3 _].
    apply (Fk (tok j) h T3 Hh d'). by rewrite E2. }
  rewrite <- (ref_value_shift u 3 (chan k (concat (tok_rows g)) h d) _ p).
  - apply (read_int2_k u H D (conj H0 Hmod) data' meta' (fun d' => chan k (concat (tok_rows g)) h d')); [done|done|].
    rewrite <- Ep at 1. apply (Hw p h Hp Hh); [|done].
    intros p' Hp' E. by apply (tget_inj (g_pages g)); [apply Hg|..].
  - intros j Hj. rewrite chan_vec by done. by rewrite Ht.
  - apply Z.mod_pos_bound. lia.
Qed.

Lemma write2_spec kv : kv_shaped kv H D -> kv_offset kv = off -> fits_all k -> fits_all v ->
  exists kv2, write2 sched kv g k v = Ok kv2 /\ kv_shaped kv2 H D /\ kv_offset kv2 = off /\
    (k4_data kv2, k4_meta kv2, v4_data kv2, v4_meta kv2) = (k4_data kv, k4_meta kv, v4_data kv, v4_meta kv) /\
    (forall i h d, 0 <= i < zlen loc -> PAGE <= tget loc i < off -> 0 <= h < H -> 0 <= d < D ->
       zeq (slot_v kv2 (tget loc i) h d) (ref_value u 3 (vec v i h) d) /\
       forall tok, page_token tok (tget loc i) ->
         zeq (slot_k kv2 (tget loc i) h d) (ref_value u 3 (fun j => vec k (tok j) h d) (tget loc i mod 32))) /\
    (forall s h d, 0 <= s < off -> s ∉ loc -> 0 <= h < H -> 0 <= d < D -> slot_k kv2 s h d = slot_k kv s h d /\ slot_v kv2 s h d = slot_v kv s h d).
Proof using Hsched HD Hoff Hloc Hg Hk Hv.
  intros Hs Ho Fk Fv. destruct slots2_facts as (Hlen & Hnd & Hrow & Hpos). unfold write2.
  destruct (Z.ltb_spec 0 (zlen (slots2 g))) as [Hne|He].
  - assert (Hk1 : dim k 1 = H) by (unfold dim; by rewrite Hk). assert (Hv1 : dim v 1 = H) by (unfold dim; by rewrite Hv).
    assert (Hidx : forall i, i ∈ idx2 g -> 0 <= i < zlen loc) by (intros i Hi; by apply (gr_idx2 _ _ _ Hg) in Hi as [? _]).
    assert (Hpg : 0 < zlen (g_pages g)).
    { assert (Hi0 : tget (idx2 g) 0 ∈ idx2 g) by (apply tget_in; lia). apply (gr_idx2 _ _ _ Hg) in Hi0 as [Hi0 Hr0].
      apply (elem_zlen_pos (tget loc (tget (idx2 g) 0) / 32)), (gr_pages _ _ _ Hg).
      exists (tget loc (tget (idx2 g) 0)). split; [by apply tget_in|done]. }
    destruct (int2_v_tokens_written u (sched 2 (zlen (idx2 g)) (dim v 1)) (take_rows v (idx2 g)) (slots2 g) (v2_data kv) (v2_meta kv) (zlen (idx2 g)) H D)
      as (vd & vm & Ev & Wv); [by apply taken_dims|lia|done|rewrite Hv1; apply Hsched|apply Hs|apply Hs|].
    destruct (int2_k_pages_written u (sched 3 (zlen (g_pages g)) (dim k 1)) k (tok_rows g) (g_pages g) (k2_data kv) (k2_meta kv) (zlen loc) H D)
      as (kd & km & Ek & Wk); [done|done|done|rewrite Hk1; apply Hsched|apply Hg|apply Hg|apply Hs|apply Hs|].
    rewrite Ev, Ek. cbn [rbind]. eexists. split; [done|].
    assert (Hs1 : kv_shaped (set2 kv (kd, km) (vd, vm)) H D).
    { destruct Wk as (Wk1 & Wk2 & _), Wv as (Wv1 & Wv2 & _). split; cbn [set2 k2_data k2_meta v2_data v2_meta k4_data k4_meta v4_data v4_meta fst snd];
        rewrite ?Wk1, ?Wk2, ?Wv1, ?Wv2; apply Hs. }
    split; [exact Hs1|]. split; [done|]. split; [done|]. destruct (shaped_heads _ _ _ Hs1) as [EH ED]. destruct (shaped_heads _ _ _ Hs) as [EH0 ED0].
    split.
    + intros i h d Hi Hr Hh Hd. unfold slot_k, slot_v. rewrite EH, ED.
      cbn [set2 kv_offset k2_data k2_meta v2_data v2_meta fst snd]. rewrite Ho. destruct (Z.ltb_spec (tget loc i) off); [|lia]. split.
      * destruct (Hpos i Hi Hr) as (a & Ha & Ea). subst i. rewrite <- (Hrow a Ha).
        by eapply (taken_read2 v Hv Fv (idx2 g) (slots2 g)); eauto.
      * intros tok Htok. by eapply (page_reads _ _ kd km); eauto using tget_in.
    + intros s h d Hr Hn Hh Hd. unfold slot_k, slot_v. rewrite EH, ED, EH0, ED0.
      cbn [set2 kv_offset k2_data k2_meta v2_data v2_meta fst snd]. rewrite Ho. destruct (Z.ltb_spec s off); [|lia]. split.
      * apply (stored2k_same _ _ _ _ _ _ _); [|done]. apply Wk; [done|]. intros p Hp E.
        assert (Hq : s / 32 ∈ g_pages g) by (rewrite <- E; by apply tget_in).
        apply (gr_pages _ _ _ Hg) in Hq as (s' & Hs' & Hr' & E'). apply Hn.
        pose proof (proj2 Hloc s' (s mod 32) Hs' Hr' ltac:(apply Z.mod_pos_bound; lia)) as Hin.
        by replace (s' / 32 * 32 + s mod 32) with s in Hin by dlia.
      * apply (stored2v_same _ _ _ _ _ _ _); [|done]. apply Wv; [done|]. intros a Ha E. apply Hn. rewrite <- E, Hrow by done.
        apply tget_in, Hidx, tget_in, Ha.
  - assert (E : idx2 g = []) by (destruct (idx2 g); [done|rewrite Hlen in He; unfold zlen in He; simpl in He; lia]).
    exists kv. do 4 (split; [done|]). split; [|done]. intros i h d Hi Hoi. exfalso.
    destruct (Hpos i Hi Hoi) as (a & Ha & _). rewrite E in Ha. unfold zlen in Ha. simpl in Ha. lia.
Qed.
End layer.
