(* ===== verification/TriaxialAllocatorProps.v ===== *)
(** * Guarantees of the INT2/INT4 allocator

    The allocator as a transition system over its public methods, with the
    slots held by callers as ghost state, and what callers can rely on in every
    reachable state. *)

From S2P Require Import Prelude Floats Tensors TriaxialPool TriaxialAllocator TriaxialAllocatorTheory TriaxialInvariant.

(** One call of a public method.  [owned] are the slots handed out and not yet
    passed to [free]; a caller frees slots it owns, plus any number of dummy
    slots of page 0 (padded tokens). *)
Inductive step : TriaxialAllocator * list Z -> TriaxialAllocator * list Z -> Prop :=
  | step_alloc a owned n out a' :
      0 <= n -> alloc a n = (Some out, a') -> step (a, owned) (a', out ++ owned)
  | step_alloc_none a owned n a' :
      alloc a n = (None, a') -> step (a, owned) (a', owned)
  | step_decode a owned bs out a' :
      0 <= bs -> alloc_decode a bs = (Some out, a') -> step (a, owned) (a', out ++ owned)
  | step_mixed a owned bits lens out a' :
      alloc_mixed a bits lens = Ok (Some out, a') -> step (a, owned) (a', out ++ owned)
  | step_mixed_none a owned bits lens a' :
      alloc_mixed a bits lens = Ok (None, a') -> step (a, owned) (a', owned)
  | step_free a owned l rest :
      owned ≡ₚ real l ++ rest -> step (a, owned) (free a l, rest)
  | step_begin a owned :
      is_not_in_free_group a = true -> step (a, owned) (free_group_begin a, owned)
  | step_end a owned :
      is_not_in_free_group a = false -> step (a, owned) (free_group_end a, owned)
  | step_clear a owned : step (a, owned) (clear (pool a), []).

(** States reachable from a freshly constructed allocator: by calls, and by
    [restore_state] with what [backup_state] returned earlier, which takes the
    callers back to the slots they held then.  No group is open at either call,
    and a backup is restored once (the restored counters are its own tensor,
    which later calls change in place). *)
Inductive reachable (p : PoolSizes) : TriaxialAllocator * list Z -> Prop :=
  | reach_start : reachable p (clear p, [])
  | reach_step s s' : reachable p s -> step s s' -> reachable p s'
  | reach_restore a owned b owned' :
      reachable p (a, owned) -> is_not_in_free_group a = true ->
      reachable p (b, owned') -> is_not_in_free_group b = true ->
      reachable p (restore_state b (backup_state a), owned).

Lemma reach_steps p s s' : reachable p s -> rtc step s s' -> reachable p s'.
Proof. intros Hr Hs. induction Hs as [|s1 s2 s3 Hs _ IH]; [done|]. by eapply IH, reach_step. Qed.

Lemma pool_sizes_wf size page_size head_dim f p :
  pool_sizes size page_size head_dim f = Ok p -> 0 <= usable_int2 p <= size -> pool_wf p.
Proof.
  unfold pool_sizes, rassert. destruct (page_size =? 1); [|done]. destruct (head_dim mod 32 =? 0); [|done].
  simpl. destruct (f64_int _) as [share|]; [|done]. intros [= <-]. simpl. intros H.
  split; simpl; unfold PAGE in *; lia.
Qed.

Lemma pool_sizes_fields size page_size head_dim f p :
  pool_sizes size page_size head_dim f = Ok p ->
  ps_size p = size /\ num_slots p = offset p + size4 p.
Proof.
  unfold pool_sizes, rassert. destruct (page_size =? 1); [|done]. destruct (head_dim mod 32 =? 0); [|done].
  simpl. destruct (f64_int _); [|done]. by intros [= <-].
Qed.

Lemma alloc_mixed_args a bits lens r :
  alloc_mixed a bits lens = Ok r -> bits <> [] -> mixed_args bits lens.
Proof.
  intros H Hne. unfold alloc_mixed in H. cbv zeta in H.
  destruct (Z.eqb_spec (zlen bits) 0) as [Hz|_].
  { by rewrite (zlen_le_0 bits) in Hne by lia. }
  destruct (forallb _ lens) eqn:Ef; [|done]. destruct (Z.eqb_spec (zsum lens) (zlen bits)); [|done].
  split; [|done]. rewrite list.Forall_forall. intros l Hl%list_elem_of_In.
  eapply forallb_forall in Ef; [|done]. bool_lia.
Qed.

Lemma alloc_mixed_cases a bits lens out a' :
  alloc_mixed a bits lens = Ok (out, a') ->
  bits = [] /\ out = Some [] /\ a' = a \/
  bits <> [] /\ mixed_args bits lens /\ alloc_mixed_ref a (split_lens bits lens) = (out, a').
Proof.
  intros H. destruct (decide (bits = [])) as [->|Hne].
  - left. unfold alloc_mixed in H. simpl in H. by simplify_eq.
  - right. pose proof (alloc_mixed_args _ _ _ _ H Hne) as Ha.
    rewrite alloc_mixed_eq in H by done. by simplify_eq.
Qed.

Lemma alloc_group a n r a' : alloc a n = (r, a') ->
  is_not_in_free_group a' = is_not_in_free_group a /\ free_group a' = free_group a.
Proof. unfold alloc. destruct (_ <? _); intros [= <- <-]; done. Qed.

Lemma alloc_mixed_ref_group a segs r a' : alloc_mixed_ref a segs = (r, a') ->
  is_not_in_free_group a' = is_not_in_free_group a /\ free_group a' = free_group a.
Proof. unfold alloc_mixed_ref. destruct (Nat.ltb _ _); intros [= <- <-]; done. Qed.

Lemma pending_eq a a' :
  is_not_in_free_group a' = is_not_in_free_group a /\ free_group a' = free_group a ->
  pending a' = pending a.
Proof. unfold pending. by intros [-> ->]. Qed.

Definition state_inv (s : TriaxialAllocator * list Z) : Prop := inv (fst s) (pending (fst s) ++ snd s).

Lemma state_inv_alloc a n out a' owned :
  state_inv (a, owned) -> 0 <= n -> alloc a n = (Some out, a') -> state_inv (a', out ++ owned).
Proof.
  unfold state_inv. simpl. intros Hi Hn H. rewrite (pending_eq a a') by (by eapply alloc_group).
  rewrite Permutation_app_swap_app. by eapply inv_alloc.
Qed.

Lemma step_inv s s' : step s s' -> state_inv s -> state_inv s'.
Proof.
  destruct 1 as [a owned n out a' Hn H|a owned n a' H|a owned n out a' Hn H|a owned bits lens out a' H
    |a owned bits lens a' H|a owned l rest H|a owned H|a owned H|a owned]; intros Hi.
  - by eapply state_inv_alloc.
  - unfold alloc in H. destruct (_ <? _); by simplify_eq.
  - by eapply state_inv_alloc.
  - apply alloc_mixed_cases in H as [(-> & [= ->] & ->)|(Hne & Ha & H)]; [done|].
    unfold state_inv in *. simpl in *. rewrite (pending_eq a a') by (by eapply alloc_mixed_ref_group).
    rewrite Permutation_app_swap_app. by eapply inv_alloc_mixed_ref.
  - apply alloc_mixed_cases in H as [(-> & [=] & _)|(Hne & Ha & H)].
    unfold state_inv in *. simpl in *. rewrite (pending_eq a a') by (by eapply alloc_mixed_ref_group).
    by eapply inv_alloc_mixed_none.
  - unfold state_inv in *. simpl in *. apply inv_free. by rewrite <- H.
  - unfold state_inv, pending in *. simpl in *. rewrite H in Hi. by apply inv_set_group.
  - unfold state_inv in *. simpl in *. destruct (inv_group_end a owned Hi H) as [H1 H2].
    unfold pending. by rewrite H2.
  - apply inv_clear, (inv_pool _ _ Hi).
Qed.

Lemma step_pool s s' : step s s' -> pool (fst s') = pool (fst s).
Proof.
  destruct 1 as [a owned n out a' Hn H|a owned n a' H|a owned n out a' Hn H|a owned bits lens out a' H
    |a owned bits lens a' H|a owned l rest H|a owned H|a owned H|a owned]; simpl; try done;
    try (unfold alloc_decode, alloc in H; destruct (_ <? _); by simplify_eq);
    try (apply alloc_mixed_cases in H as [(-> & _ & ->)|(_ & _ & H)]; [done|];
         unfold alloc_mixed_ref in H; destruct (Nat.ltb _ _); by simplify_eq).
  - unfold free. destruct (_ =? 0); [done|]. destruct (negb _); [done|]. apply free_now_pool.
  - unfold free_group_end. simpl. destruct (free_group a); [done|]. unfold free.
    destruct (_ =? 0); [done|]. simpl. by rewrite free_now_pool.
Qed.

Lemma reachable_pool p s : reachable p s -> pool (fst s) = p.
Proof. induction 1 as [|s s' _ IH Hs|a owned b owned' _ _ _ _ IH _]; [done|by rewrite (step_pool _ _ Hs)|exact IH]. Qed.

Lemma inv_restore a b owned : inv a owned -> pool b = pool a -> release_pages b = [] -> inv (restore_state b (backup_state a)) owned.
Proof. intros [] Hp Hb. split; simpl; rewrite ?Hp; done. Qed.

Lemma reachable_state_inv p s : pool_wf p -> reachable p s -> state_inv s.
Proof.
  intros Hwf. induction 1 as [|s s' _ IH Hs|a owned b owned' Ha IHa Ga Hb IHb Gb].
  - by apply inv_clear.
  - by eapply step_inv.
  - unfold state_inv, pending in *. simpl in *. rewrite Gb. rewrite Ga in IHa. rewrite Gb in IHb.
    apply inv_restore; [exact IHa| |apply (inv_release _ _ IHb)].
    transitivity p; [exact (reachable_pool _ _ Hb)|symmetry; exact (reachable_pool _ _ Ha)].
Qed.

(** ** What callers rely on *)

Lemma keep_seg_true q bs i : keep_seg q bs !! i = Some true -> bs !! i = Some 2.
Proof.
  intros H. destruct (bs !! i) as [b|] eqn:E.
  - rewrite (keep_seg_lookup _ _ _ _ E) in H. unfold is2b in H. injection H as H. bool_lia.
  - apply lookup_ge_None in E. apply lookup_lt_Some in H. rewrite keep_seg_length in H. lia.
Qed.

Lemma keep_ref_true segs i : keep_ref segs !! i = Some true -> concat segs !! i = Some 2.
Proof.
  unfold keep_ref. revert i. induction segs as [|s segs IH]; intros i; simpl; [done|].
  destruct (decide (i < length s)%nat) as [Hl|Hl].
  - rewrite !lookup_app_l by (rewrite ?keep_seg_length; done). apply keep_seg_true.
  - rewrite !lookup_app_r, keep_seg_length by (rewrite ?keep_seg_length; lia). apply IH.
Qed.

Lemma mixed_mask_true a segs i : mixed_mask a segs !! i = Some true -> concat segs !! i = Some 2.
Proof.
  intros H. apply keep_ref_true. unfold mixed_mask in H.
  destruct (keep_ref segs !! i) as [b|] eqn:E.
  - rewrite (keep_first_lookup _ _ _ _ E) in H. injection H as H. by destruct b.
  - apply lookup_ge_None in E. apply lookup_lt_Some in H. rewrite keep_first_length in H. lia.
Qed.

(** The position-order guarantee: only INT2 tokens are placed in INT2 pages. *)
Lemma alloc_mixed_ref_bits a owned segs out a' i s :
  inv a owned -> alloc_mixed_ref a segs = (Some out, a') -> out !! i = Some s ->
  (s < offset (pool a) <-> mixed_mask a segs !! i = Some true).
Proof.
  intros Hi H Hs. destruct (alloc_mixed_ref_out _ _ _ _ H) as (ps & s4 & E2 & E4 & _ & L1 & L2 & -> & _).
  assert (Hlt : (i < length (mixed_mask a segs))%nat).
  { apply lookup_lt_Some in Hs. rewrite merge_mask_length in Hs by done. done. }
  destruct (lookup_lt_is_Some_2 _ _ Hlt) as [b Hb]. rewrite (merge_mask_lookup _ _ _ _ b) in Hs by done.
  pose proof (inv_pool _ _ Hi) as Hwf. rewrite Hb. destruct b; apply list_elem_of_lookup_2 in Hs.
  - split; [done|]. intros _. apply page_slots_elem in Hs.
    assert (s / PAGE < num_pages2 (pool a)) by (apply (inv_pages_range _ _ Hi); rewrite E2; set_solver).
    rewrite (wf_offset _ Hwf). unfold PAGE in *. dlia.
  - assert (offset (pool a) < s) by (apply (inv_slots4_range _ _ s Hi); rewrite E4; set_solver).
    split; [lia|done].
Qed.

(** With nothing held, every page is free and every counter is zero. *)
Lemma inv_nil_pages a :
  inv a [] ->
  (forall q, 1 <= q < num_pages2 (pool a) -> q ∈ free_pages2 a) /\
  page_free_cnt a = replicate (Z.to_nat (num_pages2 (pool a))) 0.
Proof.
  intros Hi.
  assert (Hcase : forall q, 1 <= q < num_pages2 (pool a) ->
            q ∈ free_pages2 a /\ tget (page_free_cnt a) q = 0).
  { intros q Hq. pose proof (inv_cnt _ _ Hi q Hq) as Hc. pose proof (inv_cnt_range _ _ Hi q) as Hc2.
    change (in_page q []) with 0 in Hc. destruct (decide (q ∈ free_pages2 a)); [split; [done|]|]; lia. }
  split; [apply Hcase|].
  pose proof (inv_cnt_len _ _ Hi) as Hl. unfold zlen in Hl.
  apply list_eq. intros i. destruct (page_free_cnt a !! i) as [x|] eqn:E.
  - pose proof (lookup_lt_Some _ _ _ E). rewrite lookup_replicate_2 by lia. f_equal.
    rewrite <- (tget_lookup_Some _ _ _ E). destruct (Nat.eq_dec i 0%nat) as [->|].
    + apply (inv_cnt0 _ _ Hi).
    + apply Hcase. lia.
  - symmetry. apply lookup_ge_None. rewrite length_replicate. apply lookup_ge_None in E. lia.
Qed.

Section reachable_guarantees.
Context (size head_dim : Z) (fraction : f64) (p : PoolSizes).
Context (Hp : pool_sizes size 1 head_dim fraction = Ok p) (Hfit : 0 <= usable_int2 p <= size).

Lemma reach_inv a owned : reachable p (a, owned) -> inv a (pending a ++ owned) /\ pool a = p.
Proof.
  intros Hr. split; [|exact (reachable_pool _ _ Hr)].
  eapply (reachable_state_inv p (a, owned)); [|done]. by eapply pool_sizes_wf.
Qed.

(** C4: in every state reachable through the public methods, with backups
    restored at any later point outside a free group, the free lists, the
    slots parked by a free group and the slots held by callers are pairwise
    disjoint and duplicate-free, the dummy page and dummy row are never
    handed out, and every INT2 page is either on the free list or accounts for
    its 32 slots as freed-counter plus held slots. *)
Theorem reachable_invariant a owned : reachable p (a, owned) -> inv a (pending a ++ owned).
Proof. intros Hr. by apply reach_inv. Qed.

(** the scheduler's leak check balances at all times: available slots plus
    parked slots plus held slots equal the configured pool size. *)
Theorem leak_check_balances a owned :
  reachable p (a, owned) -> available_size a + zlen (pending a) + zlen owned = size.
Proof.
  intros Hr. destruct (reach_inv _ _ Hr) as [Hi Hpa]. apply inv_available in Hi.
  rewrite zlen_app, Hpa in Hi. rewrite <- Z.add_assoc, Hi. by apply (pool_sizes_fields _ _ _ _ _ Hp).
Qed.

(** The slots [alloc_mixed] hands out in a reachable state. *)
Lemma alloc_mixed_slots a owned bits lens out a' :
  reachable p (a, owned) -> alloc_mixed a bits lens = Ok (Some out, a') ->
  length out = length bits /\ NoDup out /\
  (forall s, s ∈ out -> s ∉ owned /\ s ∉ pending a /\ PAGE <= s /\ s <> offset p /\ s < num_slots p) /\
  (forall i b s, bits !! i = Some b -> out !! i = Some s -> b <> 2 -> offset p < s) /\
  (forall q, 0 <= q < num_pages2 p -> in_page q out = 0 \/ in_page q out = PAGE).
Proof.
  intros Hr H. destruct (reach_inv _ _ Hr) as [Hi Hpa].
  destruct (pool_sizes_fields _ _ _ _ _ Hp) as [_ Hns].
  apply alloc_mixed_cases in H as [(-> & [= ->] & ->)|(Hne & Ha & H)].
  { split_and!; [done|constructor|set_solver|done|by left]. }
  pose proof (inv_alloc_mixed_ref _ _ _ _ _ Hi H) as Hi'.
  pose proof (alloc_mixed_ref_out _ _ _ _ H) as (ps & s4 & E2 & E4 & _ & L1 & L2 & Eo & Ho).
  destruct (split_lens_spec bits lens) as [Hcat _]; [apply Ha|apply Ha|].
  pose proof (inv_pool _ _ Hi) as Hwf. rewrite Hpa in Hwf.
  pose proof (inv_owned _ _ Hi') as Hnd. apply list.NoDup_app in Hnd as (Hn1 & Hd & _).
  assert (Hs4 : forall s, s ∈ s4 -> offset p < s < offset p + size4 p).
  { intros s Hs. rewrite <- Hpa. eapply inv_slots4_range; [done|]. rewrite E4. set_solver. }
  assert (Hps : forall q, q ∈ ps -> 1 <= q < num_pages2 p).
  { intros q Hq. rewrite <- Hpa. eapply inv_pages_range; [done|]. rewrite E2. set_solver. }
  split_and!.
  - rewrite Eo, merge_mask_length by done. unfold mixed_mask. by rewrite keep_first_length, keep_ref_length, Hcat.
  - done.
  - intros s Hs. specialize (Hd s Hs). rewrite elem_of_app in Hd. rewrite Ho in Hs.
    rewrite (wf_offset _ Hwf) in *. split_and!; [tauto|tauto| | |];
      apply elem_of_app in Hs as [Hs%page_slots_elem%Hps|Hs%Hs4]; pose proof (wf_size4 _ Hwf);
      pose proof (wf_pages _ Hwf); unfold PAGE in *; dlia.
  - intros i b s Hb Hs Hne2. rewrite <- Hpa in *.
    pose proof (alloc_mixed_ref_bits _ _ _ _ _ _ _ Hi H Hs) as Hiff.
    assert (Hge : ~ s < offset (pool a)).
    { intros Hlt. apply Hiff, mixed_mask_true in Hlt. rewrite Hcat, Hb in Hlt. by injection Hlt. }
    apply list_elem_of_lookup_2 in Hs. rewrite Ho in Hs.
    apply elem_of_app in Hs as [Hs%page_slots_elem%Hps|Hs%Hs4]; [|lia].
    rewrite (wf_offset _ Hwf) in Hge. unfold PAGE in *. dlia.
  - intros q Hq. rewrite (in_page_perm _ _ _ Ho), in_page_app, in_page_slots.
    + rewrite (in_page_int4 a q s4); [case_decide; lia|by rewrite Hpa|rewrite Hpa; lia|].
      intros s Hs. apply Hs4 in Hs. rewrite Hpa. lia.
    + pose proof (inv_pages _ _ Hi) as Hn. rewrite E2 in Hn. by apply list.NoDup_app in Hn as (? & _).
Qed.

(** C9: a successful [alloc_mixed] returns one slot per token, all distinct and
    none of them held or parked; a token whose bitwidth is not 2 is always in
    the INT4 region, and the INT2 slots returned form whole pages (each page
    occurs with all of its 32 slots or not at all). *)
Theorem alloc_mixed_safe a owned bits lens out a' :
  reachable p (a, owned) -> alloc_mixed a bits lens = Ok (Some out, a') ->
  length out = length bits /\ NoDup out /\
  (forall s, s ∈ out -> s ∉ owned /\ s ∉ pending a /\ PAGE <= s /\ s <> offset p /\ s < num_slots p) /\
  (forall i b s, bits !! i = Some b -> out !! i = Some s -> b <> 2 -> offset p < s) /\
  (forall q, 0 <= q < num_pages2 p -> in_page q out = 0 \/ in_page q out = PAGE).
Proof. apply alloc_mixed_slots. Qed.

(** C23: [alloc_mixed] refuses a batch exactly when the INT4 region cannot take
    the tokens that are left after all grantable whole pages are used, and a
    refusal leaves every free list, counter and parked slot as it was (only the
    fallback statistic moves). *)
Theorem alloc_mixed_refusal a bits lens :
  mixed_args bits lens -> bits <> [] ->
  let pages := mixed_pages a (split_lens bits lens) in
  ((exists a', alloc_mixed a bits lens = Ok (None, a')) <->
   zlen (free_slots4 a) < zlen bits - pages * PAGE) /\
  forall a', alloc_mixed a bits lens = Ok (None, a') ->
    a' = add_fallback a (fallback_int2_to_int4 a' - fallback_int2_to_int4 a).
Proof.
  intros Ha Hne pages. rewrite alloc_mixed_eq by done. unfold alloc_mixed_ref. fold pages.
  destruct (split_lens_spec bits lens) as [Hcat _]; [apply Ha|apply Ha|]. rewrite Hcat.
  destruct (Nat.ltb_spec (length (free_slots4 a)) (Z.to_nat (zlen bits - pages * PAGE))) as [Hlt|Hge]; split.
  - split; [|by eexists]. intros _. unfold zlen at 1. lia.
  - intros a' [= <-]. simpl. f_equal. lia.
  - split; [by intros [? [=]]|]. unfold zlen at 1. lia.
  - by intros a' [=].
Qed.

(** once callers have returned every slot (and no group is open), the free
    lists are again those of a fresh allocator up to order, no page is
    partially freed, and the whole pool is available: nothing leaks, in
    whatever order and grouping the slots came back. *)
Theorem all_freed_is_fresh a :
  reachable p (a, []) -> is_not_in_free_group a = true ->
  free_pages2 a ≡ₚ free_pages2 (clear p) /\ free_slots4 a ≡ₚ free_slots4 (clear p) /\
  partial_slots a = 0 /\ page_free_cnt a = page_free_cnt (clear p) /\ available_size a = size.
Proof.
  intros Hr Hg. destruct (reach_inv _ _ Hr) as [Hi Hpa].
  unfold pending in Hi. rewrite Hg in Hi. simpl in Hi. pose proof (inv_pool _ _ Hi) as Hwf. rewrite Hpa in *.
  destruct (inv_nil_pages a Hi) as [Hcase Hcnt]. rewrite Hpa in Hcase, Hcnt.
  assert (Hz : partial_slots a = 0).
  { rewrite (inv_partial _ _ Hi), Hcnt. unfold zsum. generalize (Z.to_nat (num_pages2 p)).
    intros n. induction n; simpl; lia. }
  split_and!; [| |done|done|].
  - simpl. apply NoDup_Permutation; [apply (inv_pages _ _ Hi)|apply NoDup_seqZ|].
    intros q. unfold arange. rewrite elem_of_seqZ. split.
    + intros Hq. apply (inv_pages_range _ _ Hi) in Hq. rewrite Hpa in Hq. lia.
    + intros Hq. apply Hcase. lia.
  - pose proof (inv_int4 _ _ Hi) as H4. simpl in H4. rewrite app_nil_r, Hpa in H4. rewrite H4. simpl.
    unfold arange. by replace (offset p + size4 p - (offset p + 1)) with (size4 p - 1) by lia.
  - pose proof (inv_available _ _ Hi) as Hav. change (zlen (@nil Z)) with 0 in Hav. rewrite Hpa in Hav.
    rewrite Z.add_0_r in Hav. rewrite Hav. by apply (pool_sizes_fields _ _ _ _ _ Hp).
Qed.
End reachable_guarantees.

(** ** Concrete runs *)

Definition demo_pool : PoolSizes :=
  match pool_sizes 200 1 128 (f64_ratio 75 100) with
  | Ok p => p
  | Err _ => {| ps_size := 0; int2_fraction := f64_one; usable_int2 := 0; usable_int4 := 0;
                num_pages2 := 0; offset := 0; size2 := 0; size4 := 0; num_slots := 0 |}
  end.

Definition demo_bits : list Z := 4 :: replicate 40 2 ++ [4; 4].

Definition demo_mixed : list Z * TriaxialAllocator :=
  match alloc_mixed (clear demo_pool) demo_bits [43] with
  | Ok (Some out, a) => (out, a)
  | _ => ([], clear demo_pool)
  end.

Lemma demo_pool_ok : pool_sizes 200 1 128 (f64_ratio 75 100) = Ok demo_pool /\ 0 <= usable_int2 demo_pool <= 200.
Proof. split; [reflexivity|]. vm_compute. split; discriminate. Qed.

Lemma demo_mixed_ok :
  alloc_mixed (clear demo_pool) demo_bits [43] = Ok (Some (fst demo_mixed), snd demo_mixed).
Proof. vm_compute. reflexivity. Qed.

(** 40 INT2 tokens of one request fill one page; the other 8 and the INT4 tokens
    take INT4 slots. *)
Example demo_mixed_slots :
  fst demo_mixed =
  [161] ++ seqZ 32 32 ++ seqZ 162 10.
Proof. vm_compute. reflexivity. Qed.

Lemma demo_reachable : reachable demo_pool (snd demo_mixed, fst demo_mixed ++ []).
Proof. eapply reach_step; [apply reach_start|]. eapply step_mixed, demo_mixed_ok. Qed.

(** Half of the page and everything INT4 returned through a free group, then the rest. *)
Definition demo_freed : TriaxialAllocator :=
  let a := free_group_begin (snd demo_mixed) in
  let a := free a (take 17 (fst demo_mixed)) in
  let a := free a (0 :: 7 :: drop 20 (fst demo_mixed)) in
  let a := free_group_end a in
  free a (take 3 (drop 17 (fst demo_mixed))).

Lemma demo_freed_reachable : reachable demo_pool (demo_freed, []).
Proof.
  assert (E : fst demo_mixed = take 17 (fst demo_mixed) ++ take 3 (drop 17 (fst demo_mixed)) ++ drop 20 (fst demo_mixed))
    by (vm_compute; reflexivity).
  eapply reach_steps; [apply demo_reachable|]. rewrite app_nil_r.
  eapply rtc_l; [apply step_begin; vm_compute; reflexivity|].
  eapply rtc_l; [apply (step_free _ _ (take 17 (fst demo_mixed))
    (take 3 (drop 17 (fst demo_mixed)) ++ drop 20 (fst demo_mixed))); vm_compute; reflexivity|].
  eapply rtc_l; [apply (step_free _ _ (0 :: 7 :: drop 20 (fst demo_mixed)) (take 3 (drop 17 (fst demo_mixed))))|].
  { replace (real _) with (drop 20 (fst demo_mixed)) by (vm_compute; reflexivity). apply Permutation_app_comm. }
  eapply rtc_l; [apply step_end; vm_compute; reflexivity|].
  apply rtc_once, (step_free _ _ (take 3 (drop 17 (fst demo_mixed))) []). vm_compute. reflexivity.
Qed.

Lemma alloc_mixed_refines_witness :
  mixed_args demo_bits [21; 22] /\
  alloc_mixed (clear demo_pool) demo_bits [21; 22] =
    Ok (alloc_mixed_ref (clear demo_pool) (split_lens demo_bits [21; 22])).
Proof.
  assert (H : mixed_args demo_bits [21; 22]) by (split; [repeat constructor; lia|reflexivity]).
  split; [exact H|]. exact (alloc_mixed_refines (clear demo_pool) demo_bits [21; 22] H).
Defined.

Lemma reachable_invariant_witness :
  inv (snd demo_mixed) (pending (snd demo_mixed) ++ fst demo_mixed ++ []).
Proof.
  exact (reachable_invariant 200 128 (f64_ratio 75 100) demo_pool (proj1 demo_pool_ok)
           (proj2 demo_pool_ok) _ _ demo_reachable).
Defined.

Lemma leak_check_balances_witness :
  available_size (snd demo_mixed) + zlen (pending (snd demo_mixed)) + zlen (fst demo_mixed ++ []) = 200.
Proof.
  exact (leak_check_balances 200 128 (f64_ratio 75 100) demo_pool (proj1 demo_pool_ok)
           (proj2 demo_pool_ok) _ _ demo_reachable).
Defined.

Lemma alloc_mixed_safe_witness :
  length (fst demo_mixed) = length demo_bits /\ NoDup (fst demo_mixed).
Proof.
  destruct (alloc_mixed_safe 200 128 (f64_ratio 75 100) demo_pool (proj1 demo_pool_ok)
    (proj2 demo_pool_ok) (clear demo_pool) [] demo_bits [43] (fst demo_mixed) (snd demo_mixed)
    (reach_start _) demo_mixed_ok) as (H1 & H2 & _).
  exact (conj H1 H2).
Defined.

Lemma alloc_mixed_refusal_witness :
  exists a', alloc_mixed (clear demo_pool) (replicate 100 4) [60; 40] = Ok (None, a').
Proof.
  assert (H : mixed_args (replicate 100 4) [60; 40]) by (split; [repeat constructor; lia|reflexivity]).
  apply (alloc_mixed_refusal (clear demo_pool) (replicate 100 4) [60; 40] H); [discriminate|].
  vm_compute. reflexivity.
Defined.

Lemma all_freed_is_fresh_witness :
  free_pages2 demo_freed ≡ₚ free_pages2 (clear demo_pool) /\ partial_slots demo_freed = 0.
Proof.
  destruct (all_freed_is_fresh 200 128 (f64_ratio 75 100) demo_pool (proj1 demo_pool_ok)
    (proj2 demo_pool_ok) demo_freed demo_freed_reachable eq_refl) as (H1 & _ & H2 & _).
  exact (conj H1 H2).
Defined.
