(* ===== verification/TriaxialPoolProps.v ===== *)
(** * Writing a prefill batch and reading it back

    The buffers of [TriaxialKVPool] and the slots of [TriaxialAllocator]
    together: the slots of a prefill batch hold the reference quantisation of
    its keys and values, gathers return them, and nothing else changes. *)

From S2P Require Import Prelude Tensors Floats DeviceFloats DeviceFloatsTheory DeviceMemory QuantKernels QuantTheory QuantProps Triton DequantKernels DequantProps QuantRoundTrip TriaxialPool TriaxialBuffers TriaxialAllocator TriaxialAllocatorTheory TriaxialInvariant TriaxialBuffersTheory TriaxialBuffersProps TriaxialAllocatorProps.

(** ** The invariant of the pool *)

Record pool_ok (P : TriaxialKVPool) : Prop := {
  po_layers : Forall (fun kv => kv_shaped kv (head_num P) (pool_head_dim P) /\ kv_offset kv = offset (pool_shape P)) (layer_views P);
  po_dim : check_head_dim (pool_head_dim P) 32 = Ok tt;
  po_off : offset (pool_shape P) mod 32 = 0
}.

(** The cached grouping, if it is that of [loc], is right for [loc]. *)
Definition cache_ok (P : TriaxialKVPool) (loc : slot_tensor) : Prop :=
  forall i g, grp_loc P = Some i -> grp P = Some g -> i = loc_id loc ->
    compute_grouping (offset (pool_shape P)) (loc_slots loc) = Ok g.

Lemma new_layer_shaped s H D : check_head_dim D 32 = Ok tt -> kv_shaped (new_layer s H D) H D.
Proof. intros HD. destruct (check_head_dim_ok D 32 HD) as [H1 H2]. split; try done. lia. Qed.

Lemma pool_init_ok size page_size H D L first f P : check_head_dim D 32 = Ok tt ->
  pool_init size page_size H D L first f = Ok P -> pool_ok P /\ forall loc, cache_ok P loc.
Proof.
  intros HD HP. unfold pool_init in HP. destruct (pool_sizes size page_size D f) as [s|] eqn:Es; [|done]. injection HP as <-.
  split; [|intros loc i g; done]. split; [|done|]; cbn [layer_views head_num pool_head_dim pool_shape].
  - apply list.Forall_forall. intros kv (i & _ & ->)%elem_of_lmap. split; [by apply new_layer_shaped|done].
  - unfold pool_sizes, rassert in Es. destruct (page_size =? 1); [|done]. destruct (D mod 32 =? 0); [|done].
    simpl in Es. destruct (f64_int _) as [share|]; [|done]. injection Es as <-. cbn [offset]. unfold PAGE. apply Z.mod_mul. lia.
Qed.

Lemma py_get_inv {A} (l : list A) i x : 0 <= i -> py_get l i = Ok x -> l !! Z.to_nat i = Some x.
Proof.
  intros Hi. unfold py_get. destruct (Z.ltb_spec i 0); [lia|]. destruct (Z.ltb_spec i 0); [lia|].
  destruct (l !! Z.to_nat i); [|done]. by intros [= ->].
Qed.

Lemma layer_ok P l kv : pool_ok P -> layer_kv P l = Ok kv ->
  kv_shaped kv (head_num P) (pool_head_dim P) /\ kv_offset kv = offset (pool_shape P).
Proof.
  intros [Hl _ _] Hkv. unfold layer_kv, py_get in Hkv. destruct (_ <? 0); [done|].
  destruct (layer_views P !! _) as [x|] eqn:E; [|done]. injection Hkv as ->. rewrite list.Forall_forall in Hl.
  apply Hl. by eapply list_elem_of_lookup_2.
Qed.

(** ** Replacing a layer *)

Section set_layer.
Context (P : TriaxialKVPool) (l : Z) (kv kv' : TriaxialLayerKV) (Hl : start_layer P <= l) (Hkv : layer_kv P l = Ok kv).

Lemma set_layer_same : layer_kv (set_layer P l kv') l = Ok kv'.
Proof using Hl Hkv.
  pose proof (py_get_inv _ (l - start_layer P) _ ltac:(lia) Hkv) as E. apply lookup_lt_Some in E.
  unfold layer_kv, set_layer, py_get. cbn [layer_views start_layer]. destruct (Z.ltb_spec (l - start_layer P) 0); [lia|].
  destruct (Z.ltb_spec (l - start_layer P) 0); [lia|]. by rewrite list_lookup_insert_eq.
Qed.

Lemma set_layer_other l' : start_layer P <= l' -> l' <> l -> layer_kv (set_layer P l kv') l' = layer_kv P l'.
Proof using Hl.
  intros Hl' Hne. unfold layer_kv, set_layer, py_get. cbn [layer_views start_layer].
  destruct (Z.ltb_spec (l - start_layer P) 0); [lia|]. destruct (Z.ltb_spec (l' - start_layer P) 0); [lia|].
  destruct (Z.ltb_spec (l' - start_layer P) 0); [lia|]. rewrite list_lookup_insert_ne by lia. done.
Qed.

Lemma set_layer_ok : pool_ok P -> kv_shaped kv' (head_num P) (pool_head_dim P) -> kv_offset kv' = offset (pool_shape P) ->
  pool_ok (set_layer P l kv').
Proof. intros [H1 H2 H3] Hs Ho. split; [|done|done]. by apply Forall_insert. Qed.
End set_layer.

(** ** What a slot of the batch holds *)

(** [cache_k[tok]] for the 32 tokens of one page. *)
Definition page_keys (k : tensor spec_float) (tok : Z -> Z) : tensor spec_float :=
  let w := dim k 1 * dim k 2 in
  {| shape := [1; 32; dim k 1; dim k 2]; elems := fun a => elems k (tok (a / w) * w + a mod w) |}.

(** Token [i] of a batch with slots [loc], keys [k] and values [v] has key and
    value [wk], [wv] at head [h] and channel [d] under the references: 4 bits
    in the INT4 region; in the INT2 region 2 bits for the value and, for the
    key, 2 bits over the tokens of its page. *)
Definition reference_kv (u off : Z) (loc : list Z) (k v : tensor spec_float) (i h d : Z) (wk wv : spec_float) : Prop :=
  let s := tget loc i in
  if off <=? s then
    get3 (ref_quant_dequant_int4 u (tolist3 k)) i h d = Some wk /\ get3 (ref_quant_dequant_int4 u (tolist3 v)) i h d = Some wv
  else
    get3 (ref_quant_dequant_int2_v u (tolist3 v)) i h d = Some wv /\
    exists tok r, page_token loc tok s /\ ref_quant_dequant_int2_k_page u (page_keys k tok) = Ok r /\ get4 r 0 (s mod 32) h d = Some wk.

Section batch.
Context (u H D off : Z) (HD : check_head_dim D 32 = Ok tt) (loc : list Z) (Hloc : whole_pages off loc).
Context (k v : tensor spec_float) (Hk : shape k = [zlen loc; H; D]) (Hv : shape v = [zlen loc; H; D]).
Context (Fk : fits_all H loc k) (Fv : fits_all H loc v).

Lemma page_keys_chan tok h d j : 0 <= h < H -> 0 <= d < D -> 0 <= j < 32 -> page_chan (page_keys k tok) 0 h d j = vec k (tok j) h d.
Proof using Hk.
  intros Hh Hd Hj. unfold page_chan, page_keys, at_, vec, dim. cbn [shape elems]. rewrite Hk. simpl.
  assert (Hw : 0 <= h * D + d < H * D) by nia.
  replace (((((0 * 1 + 0) * 32 + j) * H + h) * D + d) / (H * D)) with j by (apply Z.div_unique with (h * D + d); lia).
  replace (((((0 * 1 + 0) * 32 + j) * H + h) * D + d) mod (H * D)) with (h * D + d) by (apply Z.mod_unique with j; lia).
  f_equal. lia.
Qed.

(** The tokens of the page of a slot of the batch. *)
Lemma page_tokens s : s ∈ loc -> PAGE <= s < off -> exists tok, page_token loc tok s.
Proof using Hloc.
  intros Hs Hr. exists (fun j => match list_find (fun x => x = s / 32 * 32 + j) loc with Some (i, _) => Z.of_nat i | None => 0 end).
  intros j Hj. pose proof (proj2 Hloc s j Hs Hr Hj) as Hin.
  destruct (list_find_elem_of (fun x => x = s / 32 * 32 + j) loc _ Hin eq_refl) as [[i y] E]. rewrite E.
  apply list_find_Some in E as (Ei & -> & _). split; [apply lookup_lt_Some in Ei; unfold zlen; lia|by apply tget_lookup_Some].
Qed.

Lemma reference_kv_int4 i h d : 0 <= i < zlen loc -> off <= tget loc i -> 0 <= h < H -> 0 <= d < D ->
  reference_kv u off loc k v i h d (ref_value u 15 (vec k i h) d) (ref_value u 15 (vec v i h) d).
Proof using HD Hk Hv Fk Fv.
  intros Hi Ho Hh Hd. destruct (D_props D HD) as (H0 & Hmod & _). unfold reference_kv. destruct (Z.leb_spec off (tget loc i)); [|lia].
  split; apply (quant_dequant_int4_at u (zlen loc) H D H0 Hmod); try done; [by apply Fk|by apply Fv].
Qed.

Lemma reference_kv_int2 i h d tok : 0 <= i < zlen loc -> tget loc i < off -> page_token loc tok (tget loc i) -> 0 <= h < H -> 0 <= d < D ->
  reference_kv u off loc k v i h d (ref_value u 3 (fun j => vec k (tok j) h d) (tget loc i mod 32)) (ref_value u 3 (vec v i h) d).
Proof using HD Hk Hv Fk Fv.
  intros Hi Ho Htok Hh Hd. destruct (D_props D HD) as (H0 & Hmod & _). unfold reference_kv. destruct (Z.leb_spec off (tget loc i)); [lia|].
  pose proof (Z.mod_pos_bound (tget loc i) 32 ltac:(lia)) as Hj. assert (E2 : dim k 2 = D) by (unfold dim; by rewrite Hk).
  split; [apply (quant_dequant_int2_v_at u (zlen loc) H D H0 Hmod); try done; by apply Fv|].
  destruct (quant_dequant_int2_k_at u (page_keys k tok) 1 H D 0 (tget loc i mod 32) h d) as (r & Er & Eg); try done.
  - unfold page_keys, dim. cbn [shape]. by rewrite Hk.
  - intros j Hj'. cbn [Z.mul Z.add]. rewrite page_keys_chan by done. destruct (Htok j Hj') as [Ht _].
    apply (Fk (tok j) h Ht Hh d). by rewrite E2.
  - exists tok, r. split; [done|]. split; [done|]. rewrite Eg.
    apply (f_equal Some), (ref_value_ext u 3 _ _ _ 32); [done| |done]. intros j Hj'. by apply page_keys_chan.
Qed.
End batch.

(** ** Writing one layer *)

Lemma slots_same_2 kv kv' s h d : kv_offset kv' = kv_offset kv -> num_kv_heads kv' = num_kv_heads kv -> head_dim kv' = head_dim kv ->
  (k2_data kv', k2_meta kv', v2_data kv', v2_meta kv') = (k2_data kv, k2_meta kv, v2_data kv, v2_meta kv) ->
  s < kv_offset kv -> slot_k kv' s h d = slot_k kv s h d /\ slot_v kv' s h d = slot_v kv s h d.
Proof.
  intros E1 E2 E3 [= E4 E5 E6 E7] Hs. unfold slot_k, slot_v. rewrite E1, E2, E3, E4, E5, E6, E7.
  destruct (Z.ltb_spec s (kv_offset kv)); [done|lia].
Qed.

Lemma slots_same_4 kv kv' s h d : kv_offset kv' = kv_offset kv -> num_kv_heads kv' = num_kv_heads kv -> head_dim kv' = head_dim kv ->
  (k4_data kv', k4_meta kv', v4_data kv', v4_meta kv') = (k4_data kv, k4_meta kv, v4_data kv, v4_meta kv) ->
  kv_offset kv <= s -> slot_k kv' s h d = slot_k kv s h d /\ slot_v kv' s h d = slot_v kv s h d.
Proof.
  intros E1 E2 E3 [= E4 E5 E6 E7] Hs. unfold slot_k, slot_v. rewrite E1, E2, E3, E4, E5, E6, E7.
  destruct (Z.ltb_spec s (kv_offset kv)); [lia|done].
Qed.

(** The slots [loc] of layer [kv'] hold the references of [k] and [v], up to the
    sign of zeros; the other slots are those of [kv]. *)
Definition batch_written (u : Z) (loc : list Z) (k v : tensor spec_float) (H D : Z) (kv kv' : TriaxialLayerKV) : Prop :=
  (forall i h d, 0 <= i < zlen loc -> 0 <= h < H -> 0 <= d < D -> exists wk wv,
     reference_kv u (kv_offset kv) loc k v i h d wk wv /\
     zeq (slot_k kv' (tget loc i) h d) wk /\ zeq (slot_v kv' (tget loc i) h d) wv) /\
  (forall s h d, 0 <= s -> s ∉ loc -> 0 <= h < H -> 0 <= d < D ->
     slot_k kv' s h d = slot_k kv s h d /\ slot_v kv' s h d = slot_v kv s h d).

Section write.
Context (sched : nat -> Z -> Z -> list (Z * Z)) (Hsched : forall k n m, sched k n m ≡ₚ grid2 n m).
Context (u H D off : Z) (HD : check_head_dim D 32 = Ok tt) (Hoff : off mod 32 = 0).
Context (loc : list Z) (Hloc : whole_pages off loc) (Hpage0 : forall s, s ∈ loc -> PAGE <= s) (g : Grouping) (Hg : grouped off loc g).
Context (k v : tensor spec_float) (Hk : shape k = [zlen loc; H; D]) (Hv : shape v = [zlen loc; H; D]).
Context (Fk : fits_all H loc k) (Fv : fits_all H loc v).

Lemma write_layer kv : kv_shaped kv H D -> kv_offset kv = off ->
  exists kv1 kv2, write4 sched kv g k v = Ok kv1 /\ write2 sched kv1 g k v = Ok kv2 /\
    kv_shaped kv2 H D /\ kv_offset kv2 = off /\ batch_written u loc k v H D kv kv2.
Proof using Hsched HD Hoff Hloc Hpage0 Hg Hk Hv Fk Fv.
  intros Hs Ho.
  destruct (write4_spec sched Hsched u H D off HD Hoff loc Hloc g Hg k v Hk Hv kv Hs Ho Fk Fv) as (kv1 & E1 & Hs1 & Ho1 & Eq2 & R4 & F4).
  destruct (write2_spec sched Hsched u H D off HD Hoff loc Hloc g Hg k v Hk Hv kv1 Hs1 Ho1 Fk Fv) as (kv2 & E2 & Hs2 & Ho2 & Eq4 & R2 & F2).
  destruct (shaped_heads _ _ _ Hs) as [N0 D0], (shaped_heads _ _ _ Hs1) as [N1 D1], (shaped_heads _ _ _ Hs2) as [N2 D2].
  exists kv1, kv2. split; [done|]. split; [done|]. split; [done|]. split; [done|]. split.
  - intros i h d Hi Hh Hd. rewrite Ho. destruct (Z_lt_le_dec (tget loc i) off) as [Hlt|Hge].
    + assert (Hr : PAGE <= tget loc i < off) by (split; [by apply Hpage0, tget_in|done]).
      destruct (page_tokens off loc Hloc (tget loc i) (tget_in _ _ Hi) Hr) as [tok Htok].
      destruct (R2 i h d Hi Hr Hh Hd) as [Rv Rk]. eexists _, _.
      split; [by apply (reference_kv_int2 u H D off HD loc k v Hk Hv Fk Fv i h d tok)|]. split; [by apply Rk|exact Rv].
    + destruct (R4 i h d Hi Hge Hh Hd) as [Rk Rv]. eexists _, _.
      split; [by apply (reference_kv_int4 u H D off HD loc k v Hk Hv Fk Fv)|].
      destruct (slots_same_4 kv1 kv2 (tget loc i) h d) as [-> ->]; try congruence. done.
  - intros s h d H0 Hn Hh Hd. destruct (Z_lt_le_dec s off) as [Hlt|Hge].
    + destruct (F2 s h d) as [-> ->]; try done. apply slots_same_2; congruence.
    + destruct (slots_same_4 kv1 kv2 s h d) as [-> ->]; try congruence. by apply F4.
Qed.
End write.

Lemma to_half_shape half x : shape (to_half half x) = shape x.
Proof. by destruct half. Qed.

Lemma grouping_spec P loc : pool_ok P -> cache_ok P loc -> whole_pages (offset (pool_shape P)) (loc_slots loc) ->
  exists g P1, grouping P loc = Ok (g, P1) /\ grouped (offset (pool_shape P)) (loc_slots loc) g /\ cache_ok P1 loc /\
    pool_shape P1 = pool_shape P /\ head_num P1 = head_num P /\ pool_head_dim P1 = pool_head_dim P /\
    start_layer P1 = start_layer P /\ layer_views P1 = layer_views P.
Proof.
  intros HP Hc Hw. destruct (compute_grouping_whole _ _ Hw (po_off P HP)) as (g & Eg & Hg). unfold grouping. rewrite Eg. cbn [rbind].
  assert (Hfresh : exists g0 P1, Ok (g, {| pool_shape := pool_shape P; head_num := head_num P; pool_head_dim := pool_head_dim P;
      start_layer := start_layer P; layer_views := layer_views P; grp_loc := Some (loc_id loc); grp := Some g |}) = Ok (g0, P1) /\
      grouped (offset (pool_shape P)) (loc_slots loc) g0 /\ cache_ok P1 loc /\ pool_shape P1 = pool_shape P /\ head_num P1 = head_num P /\
      pool_head_dim P1 = pool_head_dim P /\ start_layer P1 = start_layer P /\ layer_views P1 = layer_views P).
  { eexists _, _. split; [reflexivity|]. split; [done|]. split; [|done]. intros i g0 _ [= <-] _. exact Eg. }
  destruct (grp_loc P) as [i|] eqn:Ei; [|done]. destruct (grp P) as [g0|] eqn:E0; [|done].
  destruct (Nat.eqb_spec i (loc_id loc)) as [->|]; [|done].
  assert (g0 = g) as -> by (pose proof (Hc _ _ Ei E0 eq_refl) as Eg0; rewrite Eg in Eg0; by injection Eg0).
  exists g, P. by split_and!.
Qed.

(** One call of [set_kv_buffer] on slots that contain their INT2 pages whole. *)
Lemma set_kv_buffer_spec sched u P l loc half k v kv : (forall k n m, sched k n m ≡ₚ grid2 n m) ->
  pool_ok P -> cache_ok P loc -> whole_pages (offset (pool_shape P)) (loc_slots loc) -> (forall s, s ∈ loc_slots loc -> PAGE <= s) ->
  start_layer P <= l -> layer_kv P l = Ok kv ->
  shape k = [zlen (loc_slots loc); head_num P; pool_head_dim P] -> shape v = [zlen (loc_slots loc); head_num P; pool_head_dim P] ->
  fits_all (head_num P) (loc_slots loc) (to_half half k) -> fits_all (head_num P) (loc_slots loc) (to_half half v) ->
  exists P' kv', set_kv_buffer sched P l loc half k v = Ok P' /\ pool_ok P' /\ cache_ok P' loc /\ layer_kv P' l = Ok kv' /\
    kv_shaped kv' (head_num P) (pool_head_dim P) /\ batch_written u (loc_slots loc) (to_half half k) (to_half half v) (head_num P) (pool_head_dim P) kv kv' /\
    (forall l', start_layer P <= l' -> l' <> l -> layer_kv P' l' = layer_kv P l').
Proof.
  intros Hsched HP Hc Hw Hp0 Hl Hkv Hk Hv Fk Fv. destruct (layer_ok P l kv HP Hkv) as [Hs Ho].
  destruct (grouping_spec P loc HP Hc Hw) as (g & P1 & Eg & Hg & Hc1 & S1 & S2 & S3 & S4 & S5).
  destruct (write_layer sched Hsched u _ _ _ (po_dim P HP) (po_off P HP) _ Hw Hp0 g Hg (to_half half k) (to_half half v)
    ltac:(by rewrite to_half_shape) ltac:(by rewrite to_half_shape) Fk Fv kv Hs Ho) as (kv1 & kv2 & E1 & E2 & Hs2 & Ho2 & Hb).
  unfold set_kv_buffer. rewrite Hkv. cbn [rbind]. rewrite Eg. cbn [rbind]. rewrite E1. cbn [rbind]. rewrite E2. cbn [rbind].
  assert (Hkv1 : layer_kv P1 l = Ok kv) by (unfold layer_kv in *; by rewrite S4, S5).
  eexists _, kv2. split; [done|]. split; [|split; [|split; [|split; [done|split]]]].
  - apply set_layer_ok; [|by rewrite S2, S3|by rewrite S1]. destruct HP as [A1 A2 A3]. split; rewrite ?S1, ?S2, ?S3, ?S5; done.
  - exact Hc1.
  - eapply set_layer_same; [lia|exact Hkv1].
  - done.
  - intros l' Hl' Hne. rewrite set_layer_other; [|lia|lia|done]. unfold layer_kv. by rewrite S4, S5.
Qed.

(** ** Prefill *)

#[global] Instance cast_to_zeq t : Proper (zeq ==> zeq) (cast_to t).
Proof. intros a b E. destruct t; unfold cast_to, bf16_of, f16_of; by rewrite E. Qed.

Section prefill.
Context (size head_dim : Z) (fraction : f64) (p : PoolSizes).
Context (Hp : pool_sizes size 1 head_dim fraction = Ok p) (Hfit : 0 <= usable_int2 p <= size).
Context (a : TriaxialAllocator) (owned : list Z) (bits lens out : list Z) (a' : TriaxialAllocator).
Context (Hreach : reachable p (a, owned)) (Hmixed : alloc_mixed a bits lens = Ok (Some out, a')).

Lemma alloc_mixed_whole : whole_pages (offset p) out /\ forall s, s ∈ out -> PAGE <= s.
Proof using Hp Hfit Hreach Hmixed.
  destruct (alloc_mixed_slots _ _ _ _ Hp Hfit _ _ _ _ _ _ Hreach Hmixed) as (_ & Hnd & Hs & _ & Hq).
  pose proof (pool_sizes_wf _ _ _ _ _ Hp Hfit) as Hwf. pose proof (wf_offset _ Hwf) as Eo. split; [split; [done|]|intros s Hin; by apply Hs].
  intros s j Hin Hr Hj. apply in_page_whole; [done| |done].
  destruct (Hq (s / 32)) as [E|E]; [unfold PAGE in *; dlia| |done]. exfalso.
  assert (Hc : s ∈ List.filter (fun x => x / PAGE =? s / 32) out) by (apply elem_of_filter_b; split; [done|by apply Z.eqb_eq]).
  apply elem_zlen_pos in Hc. unfold in_page, count in E. lia.
Qed.

Context (sched : nat -> Z -> Z -> list (Z * Z)) (Hsched : forall k n m, sched k n m ≡ₚ grid2 n m).
Context (P : TriaxialKVPool) (HP : pool_ok P) (Hshape : pool_shape P = p).
Context (l : Z) (Hl : start_layer P <= l) (kv : TriaxialLayerKV) (Hkv : layer_kv P l = Ok kv).
Context (id : nat) (Hcache : cache_ok P {| loc_id := id; loc_slots := out |}).
Context (half : bool) (k v : tensor spec_float).
Context (Hk : shape k = [zlen out; head_num P; pool_head_dim P]) (Hv : shape v = [zlen out; head_num P; pool_head_dim P]).
Context (Fk : fits_all (head_num P) out (to_half half k)) (Fv : fits_all (head_num P) out (to_half half v)).
Notation loc := {| loc_id := id; loc_slots := out |}.

Lemma prefill_written u : exists P' kv', set_kv_buffer sched P l loc half k v = Ok P' /\ pool_ok P' /\ cache_ok P' loc /\ layer_kv P' l = Ok kv' /\
    kv_shaped kv' (head_num P) (pool_head_dim P) /\ batch_written u out (to_half half k) (to_half half v) (head_num P) (pool_head_dim P) kv kv' /\
    (forall l', start_layer P <= l' -> l' <> l -> layer_kv P' l' = layer_kv P l').
Proof using All.
  destruct alloc_mixed_whole as [Hw H0]. rewrite <- Hshape in Hw. by apply (set_kv_buffer_spec sched u P l loc half k v kv).
Qed.

(** C2: The keys and values of a prefill batch survive the pool: writing them to
    the slots that [alloc_mixed] handed out succeeds (no page assertion fires),
    and gathering these slots returns, cast to the output type, the torch
    reference quantise-then-dequantise of each vector (4 bits in INT4 slots, 2
    bits per token for values and 2 bits per channel over the page for keys in
    INT2 slots), up to the sign of a zero, whatever the order in which the
    programs of the kernels run. *)
Theorem prefill_roundtrip u t order out_k out_v :
  bits <> [] -> check_head_dim (pool_head_dim P) 64 = Ok tt -> order ≡ₚ grid2 (tl_cdiv (zlen out) 32) (head_num P) ->
  shape out_k = shape k -> shape out_v = shape v ->
  exists P' kv' gk gv, set_kv_buffer sched P l loc half k v = Ok P' /\ layer_kv P' l = Ok kv' /\
    dequant_gather order t out kv' out_k out_v = Ok (gk, gv) /\
    forall i h d, 0 <= i < zlen out -> 0 <= h < head_num P -> 0 <= d < pool_head_dim P -> exists wk wv,
      reference_kv u (offset p) out (to_half half k) (to_half half v) i h d wk wv /\
      zeq (at_ gk [i; h; d]) (cast_to t wk) /\ zeq (at_ gv [i; h; d]) (cast_to t wv).
Proof using All.
  intros Hb H64 Ho Sk Sv. destruct (prefill_written u) as (P' & kv' & E & HP' & _ & Hkv' & Hs' & [Hw _] & _).
  destruct (alloc_mixed_slots _ _ _ _ Hp Hfit _ _ _ _ _ _ Hreach Hmixed) as (Hlen & _).
  assert (Hne : out <> []) by (intros ->; by destruct bits).
  assert (HD0 : 0 < pool_head_dim P) by (destruct (check_head_dim_ok _ _ H64); lia).
  destruct (gather_slots t kv' _ _ Hs' HD0 out order out_k out_v Hne H64 Ho ltac:(congruence) ltac:(congruence)) as (gk & gv & Eg & Sgk & Sgv & Hcell).
  exists P', kv', gk, gv. split; [done|]. split; [done|]. split; [done|]. intros i h d Hi Hh Hd.
  destruct (Hw i h d Hi Hh Hd) as (wk & wv & Hr & Zk & Zv). destruct (layer_ok P l kv HP Hkv) as [_ Eo]. rewrite Eo, Hshape in Hr.
  exists wk, wv. split; [done|]. destruct (Hcell i h d Hi Hh Hd) as [Ck Cv].
  rewrite (at_row3 gk (head_num P) (pool_head_dim P)), (at_row3 gv (head_num P) (pool_head_dim P)) by (by rewrite ?Sgk, ?Sgv, ?Sk, ?Sv, ?Hk, ?Hv).
  rewrite Ck, Cv. by rewrite Zk, Zv.
Qed.

(** Writing a prefill batch into one layer leaves the slots already held by
    other requests, every other slot outside the batch and every other layer as
    they were, and keeps the invariant of the pool. *)
Theorem prefill_keeps_others : exists P' kv',
  set_kv_buffer sched P l loc half k v = Ok P' /\ pool_ok P' /\ cache_ok P' loc /\ layer_kv P' l = Ok kv' /\
  (forall s h d, s ∈ owned \/ (0 <= s /\ s ∉ out) -> 0 <= h < head_num P -> 0 <= d < pool_head_dim P ->
     slot_k kv' s h d = slot_k kv s h d /\ slot_v kv' s h d = slot_v kv s h d) /\
  (forall l', start_layer P <= l' -> l' <> l -> layer_kv P' l' = layer_kv P l').
Proof using All.
  destruct (prefill_written 0) as (P' & kv' & E & HP' & Hc & Hkv' & _ & [_ Hf] & Ho). exists P', kv'. do 4 (split; [done|]). split; [|done].
  destruct (alloc_mixed_slots _ _ _ _ Hp Hfit _ _ _ _ _ _ Hreach Hmixed) as (_ & _ & Hs & _).
  destruct (reach_inv _ _ _ _ Hp Hfit _ _ Hreach) as [Hi _].
  intros s h d [Hin|[H0 Hn]] Hh Hd; [|by apply Hf]. apply Hf; try done.
  - assert (PAGE <= s) by (apply (inv_owned_range _ _ Hi); set_solver). unfold PAGE in *. lia.
  - intros Hout. by apply Hs in Hout as [? _].
Qed.
End prefill.
