(* ===== verification/TriaxialDecodeProps.v ===== *)
(** * Decode writes and size of the pool

    [set_kv_buffer_int4] on the slots of [alloc_decode] with padding, and the
    total size of the buffers. *)

From S2P Require Import Prelude Tensors Floats DeviceFloats DeviceFloatsTheory DeviceMemory QuantKernels QuantTheory QuantProps Triton DequantKernels DequantProps QuantRoundTrip TriaxialPool TriaxialBuffers TriaxialAllocator TriaxialAllocatorTheory TriaxialInvariant TriaxialBuffersTheory TriaxialBuffersProps TriaxialAllocatorProps TriaxialPoolProps.

(** ** One tensor of the INT4 region *)

Section int4.
Context (u H D off : Z) (HD : check_head_dim D 32 = Ok tt) (loc : list Z) (Hne : loc <> []).
Context (x : tensor spec_float) (Hx : shape x = [zlen loc; H; D]).
Notation rows := (map (fun s => Z.max (s - off) 0) loc).

Lemma clamp_row i : 0 <= i < zlen loc -> tget rows i = Z.max (tget loc i - off) 0.
Proof.
  intros Hi. destruct (lookup_lt_is_Some_2 loc (Z.to_nat i)) as [s E]; [unfold zlen in Hi; lia|].
  unfold tget. rewrite (list_lookup_total_correct _ _ _ E). apply list_lookup_total_correct. by rewrite list_lookup_fmap, E.
Qed.

(** Token [i] has an INT4 slot that no other token of the batch has. *)
Definition own_slot (i : Z) : Prop := 0 <= i < zlen loc /\ off < tget loc i /\ forall i', 0 <= i' < zlen loc -> tget loc i' = tget loc i -> i' = i.

Lemma clamp_sole i : own_slot i -> sole_writer (zlen loc) (tget rows) i.
Proof. intros (Hi & Ho & Hu) i' Hi' E. rewrite !clamp_row in E by done. apply Hu; lia. Qed.

Lemma decode_read data meta data' meta' i h d :
  tokens_written u x rows data meta (zlen loc) H D 15 (D / 2) byte4 data' meta' ->
  own_slot i -> fits_row x i h -> 0 <= h < H -> 0 <= d < D ->
  exists w, get3 (ref_quant_dequant_int4 u (tolist3 x)) i h d = Some w /\
    zeq (stored4 H D (D / 32) (elems data') (elems meta') (tget loc i - off) h d) w.
Proof using HD Hx.
  intros (_ & _ & Hw & _) Hown Hf Hh Hd. destruct (D_props D HD) as (H0 & Hmod & _). pose proof Hown as (Hi & Ho & _).
  eexists. split; [by apply (quant_dequant_int4_at u (zlen loc) H D H0 Hmod)|].
  replace (tget loc i - off) with (tget rows i) by (rewrite clamp_row by done; lia).
  apply read_int4; [done|by apply (fits_row_vec (zlen loc) H D H0 Hmod)|done|]. apply Hw; try done. by apply clamp_sole.
Qed.

Lemma decode_frame data meta data' meta' s h d : off mod 32 = 0 ->
  tokens_written u x rows data meta (zlen loc) H D 15 (D / 2) byte4 data' meta' ->
  off < s -> s ∉ loc -> 0 <= h < H -> 0 <= d < D ->
  stored4 H D (D / 32) (elems data') (elems meta') (s - off) h d = stored4 H D (D / 32) (elems data) (elems meta) (s - off) h d.
Proof using HD.
  intros Hoff (_ & _ & _ & Hf) Hs Hn Hh Hd. apply (stored4_same H D off HD Hoff); [|done]. apply Hf; [done|].
  intros i Hi E. rewrite clamp_row in E by done. apply Hn. replace s with (tget loc i) by lia. by apply tget_in.
Qed.
End int4.

(** ** set_kv_buffer_int4 *)

Section decode.
Context (sched : nat -> Z -> Z -> list (Z * Z)) (Hsched : forall k n m, sched k n m ≡ₚ grid2 n m).
Context (P : TriaxialKVPool) (HP : pool_ok P) (l : Z) (Hl : start_layer P <= l) (kv : TriaxialLayerKV) (Hkv : layer_kv P l = Ok kv).
Context (loc : list Z) (Hne : loc <> []) (half : bool) (k v : tensor spec_float).
Context (Hk : shape k = [zlen loc; head_num P; pool_head_dim P]) (Hv : shape v = [zlen loc; head_num P; pool_head_dim P]).
Notation off := (offset (pool_shape P)).

Lemma set_kv_buffer_int4_spec u : exists P' kv', set_kv_buffer_int4 sched P l loc half k v = Ok P' /\ pool_ok P' /\ layer_kv P' l = Ok kv' /\
  (forall i h d, own_slot off loc i -> fits_row (to_half half k) i h -> fits_row (to_half half v) i h ->
     0 <= h < head_num P -> 0 <= d < pool_head_dim P -> exists wk wv,
     get3 (ref_quant_dequant_int4 u (tolist3 (to_half half k))) i h d = Some wk /\
     get3 (ref_quant_dequant_int4 u (tolist3 (to_half half v))) i h d = Some wv /\
     zeq (slot_k kv' (tget loc i) h d) wk /\ zeq (slot_v kv' (tget loc i) h d) wv) /\
  (forall s h d, s <> off -> s ∉ loc \/ s < off -> 0 <= h < head_num P -> 0 <= d < pool_head_dim P ->
     slot_k kv' s h d = slot_k kv s h d /\ slot_v kv' s h d = slot_v kv s h d) /\
  (forall l', start_layer P <= l' -> l' <> l -> layer_kv P' l' = layer_kv P l').
Proof using All.
  destruct (layer_ok P l kv HP Hkv) as [Hs Ho]. destruct HP as [HPl HD Hoff]. unfold set_kv_buffer_int4. rewrite Hkv. cbn [rbind].
  set (k' := to_half half k). set (v' := to_half half v).
  assert (Hk' : shape k' = [zlen loc; head_num P; pool_head_dim P]) by (unfold k'; by rewrite to_half_shape).
  assert (Hv' : shape v' = [zlen loc; head_num P; pool_head_dim P]) by (unfold v'; by rewrite to_half_shape).
  assert (Hpos : 0 < zlen loc) by (destruct loc; [done|unfold zlen; simpl; lia]).
  assert (Ek0 : dim k' 0 = zlen loc) by (unfold dim; by rewrite Hk'). assert (Ek1 : dim k' 1 = head_num P) by (unfold dim; by rewrite Hk').
  assert (Ev1 : dim v' 1 = head_num P) by (unfold dim; by rewrite Hv'). rewrite Ek0, Ek1, Ev1.
  set (rows := map (fun s => Z.max (s - off) 0) loc).
  destruct (int4_tokens_written u (sched 0 (zlen loc) (head_num P)) k' rows (k4_data kv) (k4_meta kv) (zlen loc) (head_num P) (pool_head_dim P))
    as (kd & km & Ek & Wk); [done|done|done|apply Hsched|apply Hs|apply Hs|].
  destruct (int4_tokens_written u (sched 1 (zlen loc) (head_num P)) v' rows (v4_data kv) (v4_meta kv) (zlen loc) (head_num P) (pool_head_dim P))
    as (vd & vm & Ev & Wv); [done|done|done|apply Hsched|apply Hs|apply Hs|].
  rewrite Ek, Ev. cbn [rbind].
  assert (Hs1 : kv_shaped (set4 kv (kd, km) (vd, vm)) (head_num P) (pool_head_dim P)).
  { destruct Wk as (Wk1 & Wk2 & _), Wv as (Wv1 & Wv2 & _). split; cbn [set4 k2_data k2_meta v2_data v2_meta k4_data k4_meta v4_data v4_meta fst snd];
      rewrite ?Wk1, ?Wk2, ?Wv1, ?Wv2; apply Hs. }
  destruct (shaped_heads _ _ _ Hs1) as [EH ED], (shaped_heads _ _ _ Hs) as [EH0 ED0].
  eexists _, _. split; [reflexivity|]. split; [by apply set_layer_ok|]. split; [by eapply set_layer_same|]. split; [|split].
  - intros i h d Hown Fk Fv Hh Hd. pose proof Hown as (Hi & Hgt & _). unfold slot_k, slot_v. rewrite EH, ED.
    cbn [set4 kv_offset k4_data k4_meta v4_data v4_meta fst snd]. rewrite Ho. destruct (Z.ltb_spec (tget loc i) off); [lia|].
    destruct (decode_read u _ _ off HD loc k' Hk' _ _ _ _ i h d Wk Hown Fk Hh Hd) as (wk & E1 & Z1).
    destruct (decode_read u _ _ off HD loc v' Hv' _ _ _ _ i h d Wv Hown Fv Hh Hd) as (wv & E2 & Z2). by exists wk, wv.
  - intros s h d Hso Hn Hh Hd. destruct (Z_lt_le_dec s off) as [Hlt|Hge].
    + apply slots_same_2; cbn [set4 kv_offset k2_data k2_meta v2_data v2_meta]; congruence.
    + destruct Hn as [Hn|?]; [|lia]. unfold slot_k, slot_v. rewrite EH, ED, EH0, ED0.
      cbn [set4 kv_offset k4_data k4_meta v4_data v4_meta fst snd]. rewrite Ho. destruct (Z.ltb_spec s off); [lia|].
      split; [eapply (decode_frame u _ _ off HD loc k')|eapply (decode_frame u _ _ off HD loc v')]; eauto; lia.
  - intros l' Hl' Hne'. by apply set_layer_other.
Qed.
End decode.

Section decode_step.
Context (size head_dim : Z) (fraction : f64) (p : PoolSizes).
Context (Hp : pool_sizes size 1 head_dim fraction = Ok p) (Hfit : 0 <= usable_int2 p <= size).
Context (a : TriaxialAllocator) (owned out : list Z) (bs : Z) (a' : TriaxialAllocator).
Context (Hreach : reachable p (a, owned)) (Hbs : 0 < bs) (Hdecode : alloc_decode a bs = (Some out, a')).

Lemma alloc_decode_slots : zlen out = bs /\ NoDup out /\ forall s, s ∈ out -> offset p < s /\ s ∉ owned.
Proof using Hp Hfit Hreach Hbs Hdecode.
  destruct (reach_inv _ _ _ _ Hp Hfit _ _ Hreach) as [Hi Hpa]. unfold alloc_decode in Hdecode.
  pose proof (inv_owned _ _ (inv_alloc a bs out a' _ Hi ltac:(lia) Hdecode)) as Hnd. apply list.NoDup_app in Hnd as (Hn1 & Hd & _).
  unfold alloc in Hdecode. destruct (Z.ltb_spec (zlen (free_slots4 a)) bs); [done|]. injection Hdecode as Eo _.
  rewrite slice_to_take in Eo by lia. split; [|split; [done|]].
  - subst out. unfold zlen in *. rewrite length_take. lia.
  - intros s Hs. split; [|specialize (Hd s Hs); set_solver]. rewrite <- Hpa. apply (inv_slots4_range _ _ s Hi). subst out.
    by apply elem_of_take in Hs as (i & ?%list_elem_of_lookup_2 & _).
Qed.

Lemma padded_own pad i : 0 <= i < bs -> own_slot (offset p) (out ++ replicate pad 0) i.
Proof using Hp Hfit Hreach Hbs Hdecode.
  intros Hi. destruct alloc_decode_slots as (Hlen & Hnd & Hs). pose proof (pool_sizes_wf _ _ _ _ _ Hp Hfit) as Hwf.
  assert (Hoff : 0 < offset p) by (rewrite (wf_offset _ Hwf); pose proof (wf_pages _ Hwf); unfold PAGE; lia).
  assert (Hlow : forall j, 0 <= j < bs -> tget (out ++ replicate pad 0) j = tget out j).
  { intros j Hj. unfold tget. apply lookup_total_app_l. unfold zlen in Hlen. lia. }
  split; [rewrite zlen_app; unfold zlen in *; lia|]. rewrite Hlow by done.
  assert (Hin : tget out i ∈ out) by (apply tget_in; lia). split; [by apply Hs|]. intros j Hj E.
  destruct (Z_lt_le_dec j bs) as [Hlt|Hge].
  - rewrite Hlow in E by lia. by apply (tget_inj out); [|lia|lia|].
  - exfalso. apply Hs in Hin as [Hgt _]. rewrite <- E in Hgt. unfold tget in Hgt. rewrite lookup_total_app_r in Hgt by (unfold zlen in Hlen; lia).
    rewrite zlen_app in Hj. unfold zlen in Hj, Hlen. rewrite length_replicate in Hj.
    rewrite lookup_total_replicate_2 in Hgt by lia. lia.
Qed.

Context (sched : nat -> Z -> Z -> list (Z * Z)) (Hsched : forall k n m, sched k n m ≡ₚ grid2 n m).
Context (P : TriaxialKVPool) (HP : pool_ok P) (Hshape : pool_shape P = p).
Context (l : Z) (Hl : start_layer P <= l) (kv : TriaxialLayerKV) (Hkv : layer_kv P l = Ok kv).
Context (pad : nat) (half : bool) (k v : tensor spec_float).
Notation loc := (out ++ replicate pad 0).
Context (Hk : shape k = [zlen loc; head_num P; pool_head_dim P]) (Hv : shape v = [zlen loc; head_num P; pool_head_dim P]).

(** C19: A decode step stores, for every running request, the 4-bit reference
    quantisation of its new key and value in the slot that [alloc_decode] gave
    it, also when the batch is padded with slot 0; the padded tokens change
    nothing but the dummy INT4 row, so the slots held by all requests and every
    other layer keep their contents. *)
Theorem decode_stored u : exists P' kv', set_kv_buffer_int4 sched P l loc half k v = Ok P' /\ pool_ok P' /\ layer_kv P' l = Ok kv' /\
  (forall i h d, 0 <= i < bs -> fits_row (to_half half k) i h -> fits_row (to_half half v) i h ->
     0 <= h < head_num P -> 0 <= d < pool_head_dim P -> exists wk wv,
     get3 (ref_quant_dequant_int4 u (tolist3 (to_half half k))) i h d = Some wk /\
     get3 (ref_quant_dequant_int4 u (tolist3 (to_half half v))) i h d = Some wv /\
     zeq (slot_k kv' (tget out i) h d) wk /\ zeq (slot_v kv' (tget out i) h d) wv) /\
  (forall s h d, s ∈ owned \/ (s ∉ out /\ s <> offset p) -> 0 <= h < head_num P -> 0 <= d < pool_head_dim P ->
     slot_k kv' s h d = slot_k kv s h d /\ slot_v kv' s h d = slot_v kv s h d) /\
  (forall l', start_layer P <= l' -> l' <> l -> layer_kv P' l' = layer_kv P l').
Proof using All.
  destruct alloc_decode_slots as (Hlen & Hnd & Hs). assert (Hne : loc <> []) by (destruct out; [unfold zlen in Hlen; simpl in Hlen; lia|done]).
  destruct (set_kv_buffer_int4_spec sched Hsched P HP l Hl kv Hkv loc Hne half k v Hk Hv u) as (P' & kv' & E & HP' & Hkv' & Hw & Hf & Hlay).
  exists P', kv'. do 3 (split; [done|]). rewrite Hshape in Hw, Hf. split; [|split; [|done]].
  - intros i h d Hi Fk Fv Hh Hd. pose proof (padded_own pad i Hi) as Hown. destruct (Hw i h d Hown Fk Fv Hh Hd) as (wk & wv & R).
    assert (Et : tget loc i = tget out i) by (unfold tget; apply lookup_total_app_l; unfold zlen in Hlen; lia). rewrite Et in R. by exists wk, wv.
  - pose proof (pool_sizes_wf _ _ _ _ _ Hp Hfit) as Hwf.
    assert (Hpos : 0 < offset p) by (rewrite (wf_offset _ Hwf); pose proof (wf_pages _ Hwf); unfold PAGE; lia).
    destruct (reach_inv _ _ _ _ Hp Hfit _ _ Hreach) as [Hi Hpa].
    assert (Hstep : forall s, s ∉ out -> s ∉ loc \/ s < offset p).
    { intros s Hn. destruct (decide (s = 0)) as [->|]; [by right|left]. rewrite elem_of_app, elem_of_replicate. naive_solver. }
    intros s h d Hcase Hh Hd. apply Hf; [| |done|done].
    + destruct Hcase as [Hown|[_ Hso]]; [|done]. intros ->.
      assert (Hin : offset p ∈ pending a ++ owned) by (apply elem_of_app; by right).
      destruct (inv_owned_in4 a _ _ Hi Hin ltac:(rewrite Hpa; lia)) as [Hr _]. rewrite Hpa in Hr. lia.
    + apply Hstep. destruct Hcase as [Hown|[Hn _]]; [|done]. intros Hin. by apply Hs in Hin as [_ ?].
Qed.
End decode_step.

(** ** Size *)

Lemma layer_bytes_new s H D b2 b4 : offset s = num_pages2 s * PAGE -> size2 s = offset s -> 0 <= D -> D mod 32 = 0 ->
  triaxial_bytes_per_token_layer H D 2 = Ok b2 -> triaxial_bytes_per_token_layer H D 4 = Ok b4 ->
  layer_bytes (new_layer s H D) = size2 s * b2 + size4 s * b4.
Proof.
  intros Eo E2 H0 HD [= <-] [= <-]. cbn [layer_bytes new_layer k2_data k2_meta v2_data v2_meta k4_data k4_meta v4_data v4_meta].
  unfold layer_bytes, numel, new_layer, zeros. cbn [k2_data k2_meta v2_data v2_meta k4_data k4_meta v4_data v4_meta shape foldr].
  rewrite E2, Eo. unfold PAGE.
  assert (exists q, D = q * 32) as [q ->] by (exists (D / 32); dlia).
  replace (q * 32 / 4) with (q * 8) by dlia. replace (q * 32 / 2) with (q * 16) by dlia. replace (q * 32 / 32) with q by dlia.
  replace (q * 32 * 12 / 32) with (q * 12) by dlia. ring.
Qed.

(** The memory that the pool reports is what the budget per token promises:
    over all layers, the INT2 slots (the dummy page included) times the bytes of
    an INT2 token plus the INT4 rows times the bytes of an INT4 token. *)
Theorem kv_size_is_budget size page_size H D L first f P b2 b4 : 0 <= L -> 0 <= D ->
  pool_init size page_size H D L first f = Ok P ->
  triaxial_bytes_per_token_layer H D 2 = Ok b2 -> triaxial_bytes_per_token_layer H D 4 = Ok b4 ->
  get_kv_size_bytes P = L * (size2 (pool_shape P) * b2 + size4 (pool_shape P) * b4).
Proof.
  intros HL HD HP E2 E4. unfold pool_init in HP. destruct (pool_sizes size page_size D f) as [s|] eqn:Es; [|done]. injection HP as <-.
  assert (Hs : offset s = num_pages2 s * PAGE /\ size2 s = offset s /\ D mod 32 = 0).
  { unfold pool_sizes, rassert in Es. destruct (page_size =? 1); [|done]. destruct (Z.eqb_spec (D mod 32) 0); [|done].
    cbn [rbind] in Es. destruct (f64_int _); [|done]. by injection Es as <-. }
  destruct Hs as (Eo & Es2 & Hm). unfold get_kv_size_bytes, create_buffers. cbn [layer_views pool_shape].
  rewrite map_map. rewrite (map_ext _ (fun _ => size2 s * b2 + size4 s * b4)) by (intros; by apply layer_bytes_new).
  assert (Hc : forall (l : list Z) c, zsum (map (fun _ => c) l) = zlen l * c).
  { intros l c. induction l as [|x l IH]; [done|]. unfold zsum, zlen in *. cbn [map foldr length]. rewrite IH. lia. }
  rewrite Hc. unfold zlen. rewrite length_seqZ. rewrite Z2Nat.id by lia. done.
Qed.

(** ** Witnesses *)

(** A pool of 100 slots, half of them INT2, with two layers of one head of 64 channels. *)
Definition toy_pool : TriaxialKVPool :=
  match pool_init 100 1 1 64 2 0 (f64_ratio 50 100) with
  | Ok P => P
  | Err _ => {| pool_shape := demo_pool; head_num := 0; pool_head_dim := 0; start_layer := 0; layer_views := []; grp_loc := None; grp := None |}
  end.

Lemma toy_pool_init : pool_init 100 1 1 64 2 0 (f64_ratio 50 100) = Ok toy_pool.
Proof. vm_compute. reflexivity. Qed.

Lemma toy_sizes : pool_sizes 100 1 64 (f64_ratio 50 100) = Ok (pool_shape toy_pool) /\ 0 <= usable_int2 (pool_shape toy_pool) <= 100.
Proof. vm_compute. split; [reflexivity|]. split; discriminate. Qed.

Lemma toy_ok : pool_ok toy_pool /\ forall loc, cache_ok toy_pool loc.
Proof. apply (pool_init_ok 100 1 1 64 2 0 (f64_ratio 50 100)); [reflexivity|exact toy_pool_init]. Qed.

Definition toy_layer : TriaxialLayerKV := new_layer (pool_shape toy_pool) 1 64.

(** One INT4 token, then a page of INT2 tokens. *)
Definition toy_bits : list Z := 4 :: replicate 32 2.
Definition toy_out : list Z := 65 :: seqZ 32 32.

Lemma toy_mixed : alloc_mixed (clear (pool_shape toy_pool)) toy_bits [33] =
  Ok (Some toy_out, match alloc_mixed (clear (pool_shape toy_pool)) toy_bits [33] with Ok (_, a) => a | Err _ => clear (pool_shape toy_pool) end).
Proof. vm_compute. reflexivity. Qed.

(** Keys and values with distinct small entries. *)
Definition toy_x (n c : Z) : tensor spec_float :=
  {| shape := [n; 1; 64]; elems := fun a => cast_to BF16 (f32_div (f32_of_Z ((a * c) mod 97 - 40)) (f32_of_Z 8)) |}.

Lemma toy_fits n c : (n = 33 /\ (c = 29 \/ c = 31)) \/ (n = 3 /\ (c = 29 \/ c = 31)) -> forall i h, 0 <= i < n -> 0 <= h < 1 -> fits_row (toy_x n c) i h.
Proof.
  intros Hc i h Hi Hh d Hd. assert (h = 0) as -> by lia.
  assert (Hall : forallb (fun i => forallb (fun d => is_finite (f16_of (f32_of (vec (toy_x n c) i 0 d)))) (seqZ 0 64)) (seqZ 0 n) = true).
  { destruct Hc as [[-> [-> | ->]]|[-> [-> | ->]]]; vm_compute; reflexivity. }
  apply (forallb_seqZ _ n i) in Hall; [|done]. by apply (forallb_seqZ _ 64 d) in Hall.
Qed.

Definition toy_sched (k : nat) (n m : Z) : list (Z * Z) := rev (grid2 n m).

Lemma toy_sched_ok k n m : toy_sched k n m ≡ₚ grid2 n m.
Proof. symmetry. apply Permutation_rev. Qed.

Lemma toy_fits_all c : c = 29 \/ c = 31 -> fits_all 1 toy_out (to_half true (toy_x 33 c)).
Proof. intros Hc i h Hi Hh. apply toy_fits; [by left|done|done]. Qed.

Lemma prefill_roundtrip_witness : exists P' kv' gk gv,
  set_kv_buffer toy_sched toy_pool 1 {| loc_id := 7; loc_slots := toy_out |} true (toy_x 33 29) (toy_x 33 31) = Ok P' /\ layer_kv P' 1 = Ok kv' /\
  dequant_gather (toy_sched 0 2 1) BF16 toy_out kv' (toy_x 33 0) (toy_x 33 0) = Ok (gk, gv) /\
  exists wk wv, reference_kv 0 64 toy_out (toy_x 33 29) (toy_x 33 31) 5 0 9 wk wv /\ zeq (at_ gk [5; 0; 9]) (cast_to BF16 wk) /\ zeq (at_ gv [5; 0; 9]) (cast_to BF16 wv).
Proof.
  destruct (prefill_roundtrip 100 64 (f64_ratio 50 100) (pool_shape toy_pool) (proj1 toy_sizes) (proj2 toy_sizes)
    (clear (pool_shape toy_pool)) [] toy_bits [33] toy_out _ (reach_start _) toy_mixed toy_sched toy_sched_ok toy_pool (proj1 toy_ok) eq_refl
    1 ltac:(discriminate) toy_layer eq_refl 7 (proj2 toy_ok _) true (toy_x 33 29) (toy_x 33 31) eq_refl eq_refl
    (toy_fits_all 29 (or_introl eq_refl)) (toy_fits_all 31 (or_intror eq_refl)) 0 BF16 (toy_sched 0 2 1) (toy_x 33 0) (toy_x 33 0))
    as (P' & kv' & gk & gv & E1 & E2 & E3 & Hc); [discriminate|reflexivity|apply toy_sched_ok|reflexivity|reflexivity|].
  exists P', kv', gk, gv. split; [exact E1|]. split; [exact E2|]. split; [exact E3|]. apply (Hc 5 0 9); vm_compute; split; reflexivity || discriminate.
Defined.

Lemma prefill_keeps_others_witness : exists P' kv',
  set_kv_buffer toy_sched toy_pool 1 {| loc_id := 7; loc_slots := toy_out |} true (toy_x 33 29) (toy_x 33 31) = Ok P' /\ layer_kv P' 1 = Ok kv' /\
  slot_k kv' 66 0 3 = slot_k toy_layer 66 0 3 /\ layer_kv P' 0 = Ok toy_layer.
Proof.
  destruct (prefill_keeps_others 100 64 (f64_ratio 50 100) (pool_shape toy_pool) (proj1 toy_sizes) (proj2 toy_sizes)
    (clear (pool_shape toy_pool)) [] toy_bits [33] toy_out _ (reach_start _) toy_mixed toy_sched toy_sched_ok toy_pool (proj1 toy_ok) eq_refl
    1 ltac:(discriminate) toy_layer eq_refl 7 (proj2 toy_ok _) true (toy_x 33 29) (toy_x 33 31) eq_refl eq_refl
    (toy_fits_all 29 (or_introl eq_refl)) (toy_fits_all 31 (or_intror eq_refl)))
    as (P' & kv' & E1 & _ & _ & E2 & Hs & Hl).
  exists P', kv'. split; [exact E1|]. split; [exact E2|]. split.
  - apply (Hs 66 0 3); [right; split; [lia|]|vm_compute; split; reflexivity || discriminate..].
    unfold toy_out. intros [?|Hin%elem_of_seqZ]%elem_of_cons; [discriminate|lia].
  - apply (Hl 0); [discriminate|discriminate].
Defined.

Lemma decode_stored_witness : exists P' kv' wk wv,
  set_kv_buffer_int4 toy_sched toy_pool 0 ([65; 66] ++ replicate 1 0) true (toy_x 3 29) (toy_x 3 31) = Ok P' /\ layer_kv P' 0 = Ok kv' /\
  get3 (ref_quant_dequant_int4 0 (tolist3 (toy_x 3 29))) 1 0 9 = Some wk /\ get3 (ref_quant_dequant_int4 0 (tolist3 (toy_x 3 31))) 1 0 9 = Some wv /\
  zeq (slot_k kv' 66 0 9) wk /\ zeq (slot_v kv' 66 0 9) wv.
Proof.
  destruct (decode_stored 100 64 (f64_ratio 50 100) (pool_shape toy_pool) (proj1 toy_sizes) (proj2 toy_sizes)
    (clear (pool_shape toy_pool)) [] [65; 66] 2 (snd (alloc_decode (clear (pool_shape toy_pool)) 2)) (reach_start _) ltac:(lia) ltac:(vm_compute; reflexivity)
    toy_sched toy_sched_ok toy_pool (proj1 toy_ok) eq_refl 0 ltac:(discriminate) toy_layer eq_refl 1 true (toy_x 3 29) (toy_x 3 31) eq_refl eq_refl 0)
    as (P' & kv' & E1 & _ & E2 & Hw & _).
  destruct (Hw 1 0 9) as (wk & wv & H); [lia|apply toy_fits; [right; split; [done|by left]|lia|lia]|apply toy_fits; [right; split; [done|by right]|lia|lia]
    |vm_compute; split; reflexivity || discriminate..|].
  exists P', kv', wk, wv. split; [exact E1|]. split; [exact E2|]. exact H.
Defined.

Lemma gather_is_reference_witness : exists gk gv,
  dequant_gather (toy_sched 0 1 1) FP16 [65; 0; 33] toy_layer (toy_x 3 29) (toy_x 3 31) = Ok (gk, gv) /\
  exists wk, get3 (ref_dequant_gather [65; 0; 33] toy_layer).1 2 0 5 = Some wk /\ at_ gk [2; 0; 5] = cast_to FP16 wk.
Proof.
  destruct (gather_is_reference FP16 toy_layer 1 64 [65; 0; 33] (toy_sched 0 1 1) (toy_x 3 29) (toy_x 3 31)) as (gk & gv & E & Hc);
    [by apply new_layer_shaped|discriminate|reflexivity|apply toy_sched_ok|reflexivity|reflexivity|].
  exists gk, gv. split; [exact E|]. destruct (Hc 2 0 5) as (wk & wv & H1 & H2 & _); [vm_compute; split; reflexivity || discriminate..|].
  exists wk. exact (conj H1 H2).
Defined.

Lemma kv_size_is_budget_witness : get_kv_size_bytes toy_pool = 2 * (64 * 48 + 69 * 80).
Proof.
  apply (kv_size_is_budget 100 1 1 64 2 0 (f64_ratio 50 100) toy_pool 48 80); [lia|lia|exact toy_pool_init|reflexivity|reflexivity].
Defined.
