(* ===== verification/ExtendPlanProps.v ===== *)
(** * The scratch buffer holds every request in position order *)

From S2P Require Import Prelude Tensors Triton Floats DeviceFloats DeviceFloatsTheory DeviceMemory QuantKernels QuantTheory QuantProps DequantKernels DequantProps TriaxialPool TriaxialBuffers ReqPool TableKernels TableKernelsTheory KVIndices ExtendPlan TriaxialBuffersTheory TriaxialBuffersProps TriaxialPoolProps TriaxialDecodeProps.

(** ** The prefix mask of a batch *)

Definition prefix_mask (s p : Z) : list bool := map (fun t => t <? p) (seqZ 0 s).

Lemma zip_replicate (s p : Z) : zip_with Z.ltb (arange 0 s) (replicate (Z.to_nat s) p) = prefix_mask s p.
Proof.
  unfold arange, prefix_mask. rewrite Z.sub_0_r. rewrite <- (length_seqZ 0 s). induction (seqZ 0 s) as [|x l IH]; [done|]. simpl. by rewrite IH.
Qed.

Lemma mask_concat seq pre : length seq = length pre ->
  zip_with Z.ltb (concat (map (arange 0) seq)) (repeat_interleave pre seq) = concat (zip_with prefix_mask seq pre).
Proof.
  revert pre. induction seq as [|s seq IH]; intros [|p pre] Hl; try done. cbn [map concat repeat_interleave zip_with].
  rewrite zip_with_app by (unfold arange; rewrite length_seqZ, length_replicate; f_equal; lia). rewrite zip_replicate, IH by (simpl in Hl; lia). done.
Qed.

Lemma prefix_mask_length s p : zlen (prefix_mask s p) = Z.max 0 s.
Proof. unfold zlen, prefix_mask. rewrite length_map, length_seqZ. lia. Qed.

Lemma prefix_mask_count s p t : 0 <= t <= s -> 0 <= p -> count id (take (Z.to_nat t) (prefix_mask s p)) = Z.min t p.
Proof.
  intros Ht Hp. unfold prefix_mask. rewrite firstn_map. replace (take (Z.to_nat t) (seqZ 0 s)) with (seqZ 0 t).
  2: { replace s with (t + (s - t)) by lia. rewrite seqZ_app by lia. by rewrite take_app_length' by (rewrite length_seqZ; done). }
  assert (H0 : 0 <= t) by lia. clear Ht. pattern t. apply natlike_ind; [by rewrite Z.min_l by lia| |done].
  intros k Hk IH. unfold Z.succ. rewrite seqZ_app, map_app, count_app, IH by lia.
  replace (seqZ (0 + k) 1) with [k] by (unfold seqZ; simpl; f_equal; lia). cbn [map]. rewrite count_cons, count_nil.
  destruct (Z.ltb_spec k p); cbn [id b2z]; lia.
Qed.

Section masks.
Context (seq pre : list Z) (Hle : Forall2 (fun s p => 0 <= p <= s) seq pre).
Notation M := (concat (zip_with prefix_mask seq pre)).

Lemma seqs_nonneg : Forall (fun n => 0 <= n) seq.
Proof using Hle. apply list.Forall_lookup. intros i x Hx. destruct (Forall2_lookup_l _ _ _ _ _ Hle Hx) as (y & _ & ?). lia. Qed.

Lemma pres_nonneg : Forall (fun n => 0 <= n) pre.
Proof using Hle. apply list.Forall_lookup. intros i x Hx. destruct (Forall2_lookup_r _ _ _ _ _ Hle Hx) as (y & _ & ?). lia. Qed.

(** Entry and running count at position [t] of request [r]. *)
Lemma mask_at r t s p : seq !! r = Some s -> pre !! r = Some p -> 0 <= t <= s ->
  (t < s -> M !! (Z.to_nat (zsum (take r seq)) + Z.to_nat t)%nat = Some (t <? p)) /\
  count id (take (Z.to_nat (zsum (take r seq)) + Z.to_nat t)%nat M) = zsum (take r pre) + Z.min t p.
Proof using Hle.
  revert r. induction Hle as [|s' p' seq' pre' Hsp Hrest IH]; intros [|r] Hs Hp Ht; try done.
  - injection Hs as ->. injection Hp as ->. cbn [zip_with concat].
    change (Z.to_nat (zsum (take 0 (s :: seq'))) + Z.to_nat t)%nat with (Z.to_nat t). change (zsum (take 0 (p :: pre'))) with 0. split.
    + intros Hlt. rewrite lookup_app_l by (unfold prefix_mask; rewrite length_map, length_seqZ; lia).
      unfold prefix_mask. rewrite list_lookup_fmap, lookup_seqZ_lt by lia. simpl. do 2 f_equal. lia.
    + rewrite take_app_le by (unfold prefix_mask; rewrite length_map, length_seqZ; lia). rewrite prefix_mask_count by lia. done.
  - cbn [lookup list_lookup] in Hs, Hp. destruct (IH Hrest r Hs Hp Ht) as [IH1 IH2].
    cbn [take zip_with concat]. assert (El : length (prefix_mask s' p') = Z.to_nat s') by (unfold prefix_mask; by rewrite length_map, length_seqZ).
    assert (Hz : 0 <= zsum (take r seq')).
    { apply zsum_take_le, list.Forall_lookup. intros i x Hx. destruct (Forall2_lookup_l _ _ _ _ _ Hrest Hx) as (y & _ & ?). lia. }
    change (zsum (s' :: take r seq')) with (s' + zsum (take r seq')). change (zsum (p' :: take r pre')) with (p' + zsum (take r pre')).
    replace (Z.to_nat (s' + zsum (take r seq')) + Z.to_nat t)%nat with (length (prefix_mask s' p') + (Z.to_nat (zsum (take r seq')) + Z.to_nat t))%nat by lia.
    split.
    + intros Hlt. rewrite lookup_app_r by lia. rewrite Nat.add_sub'. by apply IH1.
    + rewrite take_app_add, count_app, IH2. rewrite <- (firstn_all (prefix_mask s' p')). rewrite El, prefix_mask_count by lia. lia.
Qed.

Lemma mask_length : zlen M = zsum seq.
Proof using Hle.
  induction Hle as [|s p seq' pre' Hsp Hrest IH]; [done|]. cbn [zip_with concat]. rewrite zlen_app, prefix_mask_length.
  change (zsum (s :: seq')) with (s + zsum seq'). rewrite <- (IH Hrest). lia.
Qed.
End masks.

(** ** The plan *)

Section plan.
Context (seq pre : list Z) (Hle : Forall2 (fun s p => 0 <= p <= s) seq pre).
Notation M := (concat (zip_with prefix_mask seq pre)).
Notation P := (zsum pre).

Lemma lens_nat : length seq = length pre.
Proof using Hle. eapply Forall2_length, Hle. Qed.

Lemma lens_eq : zlen seq = zlen pre.
Proof using Hle. unfold zlen. by rewrite lens_nat. Qed.

Lemma request_lens r : 0 <= r < zlen seq -> seq !! Z.to_nat r = Some (tget seq r) /\ pre !! Z.to_nat r = Some (tget pre r) /\ 0 <= tget pre r <= tget seq r.
Proof using Hle.
  intros Hr. pose proof lens_eq as E. destruct (lookup_lt_is_Some_2 seq (Z.to_nat r)) as [s Es]; [unfold zlen in Hr; lia|].
  destruct (Forall2_lookup_l _ _ _ _ _ Hle Es) as (p & Ep & Hsp). unfold tget.
  by rewrite (list_lookup_total_correct _ _ _ Es), (list_lookup_total_correct _ _ _ Ep).
Qed.

(** Entry and running count at position [t] of request [r], by index. *)
Lemma mask_index r t : 0 <= r < zlen seq -> 0 <= t < tget seq r ->
  M !! Z.to_nat (seg_start seq r + t) = Some (t <? tget pre r) /\
  count id (take (Z.to_nat (seg_start seq r + t)) M) = seg_start pre r + Z.min t (tget pre r).
Proof using Hle.
  intros Hr Ht. destruct (request_lens r Hr) as (Es & Ep & Hsp). unfold seg_start.
  pose proof (zsum_take_le seq (Z.to_nat r) (seqs_nonneg seq pre Hle)).
  rewrite Z2Nat.inj_add by lia. destruct (mask_at seq pre Hle (Z.to_nat r) t _ _ Es Ep ltac:(lia)) as [H1 H2]. split; [apply H1; lia|done].
Qed.

Lemma seg_start_exts r : 0 <= r <= zlen seq -> seg_start (zip_with Z.sub seq pre) r = seg_start seq r - seg_start pre r.
Proof using Hle.
  intros _. unfold seg_start. generalize (Z.to_nat r). intros k. revert k. induction Hle as [|s p seq' pre' _ Hrest IH]; intros [|k]; try done.
  cbn [zip_with take]. change (zsum (s - p :: take k (zip_with Z.sub seq' pre'))) with (s - p + zsum (take k (zip_with Z.sub seq' pre'))).
  change (zsum (s :: take k seq')) with (s + zsum (take k seq')). change (zsum (p :: take k pre')) with (p + zsum (take k pre')).
  rewrite (IH Hrest). lia.
Qed.

(** New token [u] of request [r] among the new tokens of the batch. *)
Lemma ext_row_range r u : 0 <= r < zlen seq -> 0 <= u < tget seq r - tget pre r ->
  0 <= seg_start (zip_with Z.sub seq pre) r + u < zsum (zip_with Z.sub seq pre).
Proof using Hle.
  intros Hr Hu. destruct (request_lens r Hr) as (Es & Ep & Hsp).
  assert (Hpos : Forall (fun n => 0 <= n) (zip_with Z.sub seq pre)).
  { apply list.Forall_lookup. intros j x Hx. rewrite lookup_zip_with in Hx.
    destruct (seq !! j) as [a|] eqn:Ea; [|done]. destruct (pre !! j) as [b|] eqn:Eb; [|done]. injection Hx as <-.
    pose proof (Forall2_lookup_lr _ _ _ _ _ _ Hle Ea Eb). simpl in *. lia. }
  assert (Et : tget (zip_with Z.sub seq pre) r = tget seq r - tget pre r).
  { unfold tget at 1. apply list_lookup_total_correct. by rewrite lookup_zip_with, Es, Ep. }
  pose proof (seg_start_range _ Hpos r) as Hs. rewrite Et in Hs. unfold zlen in *. rewrite length_zip_with, <- lens_nat in Hs. lia.
Qed.

(** The scratch row of position [t] of request [r]. *)
Definition scratch_row (r t : Z) : Z :=
  if t <? tget pre r then seg_start pre r + t else P + (seg_start (zip_with Z.sub seq pre) r + (t - tget pre r)).

Lemma counts_at (m : list bool) i b : m !! i = Some b ->
  map (fun c => c - 1) (cumsum (map b2z m)) !! i = Some (count id (take i m) + b2z b - 1).
Proof.
  intros Hb. rewrite list_lookup_fmap. unfold cumsum. rewrite cumsum_from_lookup by (rewrite length_map; by eapply lookup_lt_Some).
  cbn [fmap option_fmap option_map]. rewrite firstn_map, zsum_mask, (count_take_S _ _ _ Hb). done.
Qed.

Lemma scratch_rows_at r t : 0 <= r < zlen seq -> 0 <= t < tget seq r ->
  (scratch_plan seq pre P).1 !! Z.to_nat (seg_start seq r + t) = Some (scratch_row r t).
Proof using Hle.
  intros Hr Ht. destruct (mask_index r t Hr Ht) as [Hm Hc]. destruct (request_lens r Hr) as (_ & _ & Hsp).
  unfold scratch_plan. rewrite mask_concat by apply lens_nat. cbn [fst]. unfold zip_where.
  rewrite lookup_zip_with, Hm. cbn [mbind option_bind]. rewrite lookup_zip_with, (counts_at _ _ _ Hm). cbn [mbind option_bind].
  assert (Hn : map negb M !! Z.to_nat (seg_start seq r + t) = Some (negb (t <? tget pre r))) by (by rewrite list_lookup_fmap, Hm).
  rewrite (list_lookup_fmap (fun n => P + n)), (counts_at _ _ _ Hn). cbn [fmap option_fmap option_map mbind option_bind]. f_equal.
  unfold scratch_row. destruct (Z.ltb_spec t (tget pre r)); cbn [negb b2z].
  - rewrite Hc. lia.
  - rewrite firstn_map, count_negb_mask, Hc, seg_start_exts by lia. unfold zlen. rewrite length_take_le by (apply lookup_lt_Some in Hm; lia).
    pose proof (seg_start_range seq (seqs_nonneg seq pre Hle) r Hr). lia.
Qed.

Lemma prefix_pos_at r t : 0 <= r < zlen seq -> 0 <= t < tget pre r ->
  (scratch_plan seq pre P).2 !! Z.to_nat (seg_start pre r + t) = Some (seg_start seq r + t).
Proof using Hle.
  intros Hr Ht. destruct (request_lens r Hr) as (_ & _ & Hsp). destruct (mask_index r t Hr ltac:(lia)) as [Hm Hc].
  unfold scratch_plan. rewrite mask_concat by apply lens_nat. cbn [snd].
  destruct (Z.ltb_spec t (tget pre r)); [|lia]. pose proof (nonzero_lookup _ _ Hm) as Hn. rewrite Hc, Z.min_l in Hn by lia. rewrite Hn.
  pose proof (seg_start_range seq (seqs_nonneg seq pre Hle) r Hr). f_equal. lia.
Qed.

Lemma scratch_plan_lengths : zlen (scratch_plan seq pre P).1 = zsum seq /\ zlen (scratch_plan seq pre P).2 = P.
Proof using Hle.
  unfold scratch_plan. rewrite mask_concat by apply lens_nat. cbn [fst snd]. split.
  - rewrite <- (mask_length seq pre Hle). unfold zlen, zip_where, cumsum.
    rewrite !length_zip_with, !length_map, !cumsum_from_length, !length_map. f_equal. lia.
  - rewrite nonzero_length. induction Hle as [|s p seq' pre' Hsp Hrest IH]; [done|]. cbn [zip_with concat]. rewrite count_app, (IH Hrest).
    pose proof (prefix_mask_count s p s ltac:(lia) ltac:(lia)) as Hc.
    rewrite take_ge in Hc by (unfold prefix_mask; rewrite length_map, length_seqZ; lia). rewrite Hc, Z.min_r by lia. done.
Qed.
End plan.

(** ** Planning a batch *)

Lemma row_assign_front row a vals : 0 <= a -> a + zlen vals <= zlen row ->
  row_assign row a (a + zlen vals) vals = Ok (take (Z.to_nat a) row ++ vals ++ drop (Z.to_nat (a + zlen vals)) row).
Proof.
  intros Ha Hv. pose proof (zlen_nonneg vals). unfold row_assign, py_bound.
  repeat (match goal with |- context [?x <? ?y] => destruct (Z.ltb_spec x y); [try lia|] end).
  all: rewrite ?Z.min_l, ?Z.max_r by lia.
  all: cbv zeta. all: replace (a + zlen vals - a) with (zlen vals) by lia. all: by rewrite Z.eqb_refl.
Qed.

Lemma indptr_buffer buf lens : zlen lens + 1 <= zlen buf -> tget buf 0 = 0 ->
  exists b, row_assign buf 1 (zlen lens + 1) (cumsum lens) = Ok b /\ slice_to b (zlen lens + 1) = indptr lens.
Proof.
  intros Hl H0. assert (El : zlen (cumsum lens) = zlen lens) by (unfold zlen, cumsum; by rewrite cumsum_from_length).
  pose proof (row_assign_front buf 1 (cumsum lens) ltac:(lia) ltac:(lia)) as E. rewrite El in E. rewrite Z.add_comm in E.
  eexists. split; [exact E|]. pose proof (zlen_nonneg lens). rewrite slice_to_take by lia.
  destruct buf as [|x buf]; [unfold zlen in Hl; simpl in Hl; lia|]. unfold tget in H0. simpl in H0. subst x. simpl. unfold indptr.
  replace (Z.to_nat (zlen lens + 1)) with (S (length (cumsum lens))) by (unfold zlen in *; lia). simpl. by rewrite take_app_length.
Qed.

(** What the scheduler hands to the attention backend. *)
Record extend_wf (w : nat) (rt : ReqToTokenPool) (fb : ForwardBatch) (kv_indptr qo_indptr order empty_slots empty_indices : list Z) : Prop := {
  ew_extend : fb_is_extend fb = true;
  ew_table : shape w (req_to_token rt); ew_width : max_context_len rt = Z.of_nat w;
  ew_seq_cpu : fb_seq_lens_cpu fb = fb_seq_lens fb; ew_pre_cpu : fb_extend_prefix_lens_cpu fb = fb_extend_prefix_lens fb;
  ew_lens : Forall2 (fun s p => 0 <= p <= s) (fb_seq_lens fb) (fb_extend_prefix_lens fb);
  ew_idx : length (fb_req_pool_indices fb) = length (fb_seq_lens fb);
  ew_rows : forall r, 0 <= r < zlen (fb_seq_lens fb) ->
    0 <= tget (fb_req_pool_indices fb) r < zlen (req_to_token rt) /\ tget (fb_seq_lens fb) r <= Z.of_nat w;
  ew_kv : zlen (fb_seq_lens fb) + 1 <= zlen kv_indptr /\ tget kv_indptr 0 = 0;
  ew_qo : zlen (fb_seq_lens fb) + 1 <= zlen qo_indptr /\ tget qo_indptr 0 = 0;
  ew_slots : zlen empty_slots = zsum (fb_seq_lens fb) + 256; ew_indices : zlen empty_indices = zsum (fb_seq_lens fb) + 256;
  ew_order : order ≡ₚ seqZ 0 (zlen (fb_seq_lens fb))
}.

(** The slot at position [t] of request [r]. *)
Definition slot_of (rt : ReqToTokenPool) (fb : ForwardBatch) (r t : Z) : Z :=
  tget (req_to_token rt !!! Z.to_nat (tget (fb_req_pool_indices fb) r)) t.

Section batch.
Context (w : nat) (rt : ReqToTokenPool) (fb : ForwardBatch) (kv_indptr qo_indptr order empty_slots empty_indices : list Z).
Context (Hwf : extend_wf w rt fb kv_indptr qo_indptr order empty_slots empty_indices).
Notation seq := (fb_seq_lens fb).
Notation pre := (fb_extend_prefix_lens fb).
Notation ext := (zip_with Z.sub (fb_seq_lens fb) (fb_extend_prefix_lens fb)).

Lemma exts_sum : zsum ext = zsum seq - zsum pre.
Proof using Hwf.
  pose proof (seg_start_exts seq pre (ew_lens _ _ _ _ _ _ _ _ Hwf) (zlen seq) ltac:(pose proof (zlen_nonneg seq); lia)) as E.
  unfold seg_start in E. pose proof (lens_eq _ _ (ew_lens _ _ _ _ _ _ _ _ Hwf)) as El. unfold zlen in *.
  rewrite Nat2Z.id in E. rewrite !take_ge in E by (rewrite ?length_zip_with; lia). done.
Qed.

(** The plan: the rows of the scratch in position order, and the prefix slots. *)
Lemma extend_planned : exists meta plan,
  update_single_wrapper order empty_slots empty_indices rt kv_indptr qo_indptr fb = Ok (meta, plan) /\
  num_prefix meta = zsum pre /\ num_new meta = zsum ext /\ zlen (prefix_slots meta) = zsum pre /\
  plan_kv_indptr plan = indptr seq /\ plan_qo_indptr plan = indptr ext /\
  (forall r t, 0 <= r < zlen seq -> 0 <= t < tget seq r -> tget (plan_kv_indices plan) (seg_start seq r + t) = scratch_row seq pre r t) /\
  (forall r t, 0 <= r < zlen seq -> 0 <= t < tget pre r -> tget (prefix_slots meta) (seg_start pre r + t) = slot_of rt fb r t).
Proof using Hwf.
  destruct Hwf as [He Ht Hw Es Ep Hle Hi Hr [Hk Hk0] [Hq Hq0] Hes Hei Ho]. unfold update_single_wrapper, call_begin_forward. rewrite Es, Ep.
  assert (Epl : zlen pre =? zlen seq = true) by (apply Z.eqb_eq; by rewrite (lens_eq _ _ Hle)). rewrite Epl. cbn [negb andb rassert rbind].
  destruct (indptr_buffer kv_indptr seq Hk Hk0) as (b1 & E1 & S1). rewrite E1. cbn [rbind]. rewrite S1, Hw.
  destruct (kv_indices_cells w (req_to_token rt) (fb_req_pool_indices fb) seq None order empty_slots) as (L & C & _);
    [done|done|by apply (seqs_nonneg _ pre)|done|lia|intros r Hr'; specialize (Hr r Hr'); split; [tauto|lia]|].
  set (kv_slots := launch _ order empty_slots) in *.
  destruct (scratch_plan_lengths seq pre Hle) as [L1 L2]. pose proof (scratch_rows_at seq pre Hle) as R1. pose proof (prefix_pos_at seq pre Hle) as R2.
  destruct (scratch_plan seq pre (zsum pre)) as [rows pos]. cbn [fst snd] in *.
  pose proof (row_assign_front empty_indices 0 rows ltac:(lia) ltac:(lia)) as E2. rewrite Z.add_0_l, L1 in E2. rewrite E2. cbn [rbind].
  assert (El : zlen ext = zlen seq) by (unfold zlen; rewrite length_zip_with, <- (lens_nat _ _ Hle); lia).
  destruct (indptr_buffer qo_indptr ext ltac:(lia) Hq0) as (b2 & E3 & S2). rewrite El in E3, S2. rewrite E3. cbn [rbind].
  eexists _, _. split; [reflexivity|]. cbn [num_prefix num_new prefix_slots plan_kv_indptr plan_qo_indptr plan_kv_indices].
  split; [done|]. split; [by rewrite exts_sum|].
  assert (Hcell : forall r t, 0 <= r < zlen seq -> 0 <= t < tget pre r -> 0 < zsum pre /\ seg_start pre r + t < zsum pre).
  { intros r t Hr' Ht'. pose proof (seg_start_range pre (pres_nonneg _ _ Hle) r ltac:(rewrite <- (lens_eq _ _ Hle); done)). lia. }
  split.
  { destruct (Z.ltb_spec 0 (zsum pre)); [unfold zlen in *; by rewrite length_map|].
    pose proof (zsum_nonneg pre (pres_nonneg _ _ Hle)). unfold zlen. simpl. lia. }
  split; [done|]. split; [done|]. split.
  - intros r t Hr' Ht'. unfold tget at 1. apply list_lookup_total_correct.
    change (take (Z.to_nat 0) empty_indices) with (@nil Z). rewrite app_nil_l, lookup_app_l; [by apply R1|]. specialize (R1 r t Hr' Ht'). by apply lookup_lt_Some in R1.
  - intros r t Hr' Ht'. destruct (Hcell r t Hr' Ht') as [H1 H2]. destruct (Z.ltb_spec 0 (zsum pre)); [|lia].
    unfold tget at 1. apply list_lookup_total_correct. rewrite list_lookup_fmap, (R2 r t Hr' Ht'). cbn [fmap option_fmap option_map]. f_equal.
    unfold tget. apply list_lookup_total_correct. destruct (request_lens _ _ Hle r Hr') as (_ & _ & Hsp). rewrite C by lia. unfold slot_of. do 2 f_equal.
Qed.
End batch.

(** ** Filling the scratch *)

Lemma copy_rows_cells t x a n c src : DeviceMemory.dim src 0 = n -> exists y, copy_rows t x a n c src = Ok y /\ DeviceMemory.shape y = DeviceMemory.shape x /\
  (forall i, i < a * c -> elems y i = elems x i) /\ (forall i, a * c <= i < (a + n) * c -> elems y i = cast_to t (elems src (i - a * c))).
Proof.
  intros Hn. unfold copy_rows. rewrite Hn, Z.eqb_refl. eexists. split; [reflexivity|]. cbn [with_elems DeviceMemory.shape elems]. split; [done|]. split.
  - intros i Hi. destruct (Z.leb_spec (a * c) i); [lia|done].
  - intros i Hi. destruct (Z.leb_spec (a * c) i); [|lia]. destruct (Z.ltb_spec i ((a + n) * c)); [done|lia].
Qed.

Section scratch.
Context (t : dtype) (gather_order : list (Z * Z)) (st : ExtendState) (H D N : Z) (p : TriaxialKVPool) (l : Z) (kv : TriaxialLayerKV).
Context (Hkv : layer_kv p l = Ok kv) (Hs : kv_shaped kv H D) (H64 : check_head_dim D 64 = Ok tt) (HH : 0 <= H).
Notation slots := (prefix_slots (es_meta st)).
Notation P := (zlen (prefix_slots (es_meta st))).
Context (HP : num_prefix (es_meta st) = P) (HN : num_new (es_meta st) = N) (HN0 : 0 <= N) (Hgo : gather_order ≡ₚ grid2 (tl_cdiv P 32) H).
Context (Hsk : DeviceMemory.shape (scratch_k st) = [P + N; H; D]) (Hsv : DeviceMemory.shape (scratch_v st) = [P + N; H; D]).
Context (k v : tensor spec_float) (Hk : DeviceMemory.shape k = [N; H; D]) (Hv : DeviceMemory.shape v = [N; H; D]).

Lemma gathered : let view (x : tensor spec_float) := {| DeviceMemory.shape := [P; H; D]; elems := elems x |} in
  exists gk gv, (if 0 <? P then (let! kv := layer_kv p l in dequant_gather gather_order t slots kv (view (scratch_k st)) (view (scratch_v st)))
    else Ok (view (scratch_k st), view (scratch_v st))) = Ok (gk, gv) /\
  forall i h d, 0 <= i < P -> 0 <= h < H -> 0 <= d < D ->
    elems gk ((i * H + h) * D + d) = cast_to t (slot_k kv (tget slots i) h d) /\ elems gv ((i * H + h) * D + d) = cast_to t (slot_v kv (tget slots i) h d).
Proof using Hkv Hs H64 Hgo.
  intros view. destruct (Z.ltb_spec 0 P) as [Hpos|Hz].
  - rewrite Hkv. cbn [rbind]. assert (HD0 : 0 < D) by (destruct (check_head_dim_ok _ _ H64); lia).
    destruct (gather_slots t kv H D Hs HD0 slots gather_order (view (scratch_k st)) (view (scratch_v st))) as (gk & gv & E & _ & _ & Hc); try done.
    { intros E. rewrite E in Hpos. done. }
    by exists gk, gv.
  - eexists _, _. split; [reflexivity|]. lia.
Qed.

Lemma fill_scratch_cells : exists sk sv, fill_scratch gather_order t st H D p l k v = Ok (sk, sv) /\
  forall i h d, 0 <= h < H -> 0 <= d < D ->
  (0 <= i < P -> at_ sk [i; h; d] = cast_to t (slot_k kv (tget slots i) h d) /\ at_ sv [i; h; d] = cast_to t (slot_v kv (tget slots i) h d)) /\
  (0 <= i < N -> at_ sk [P + i; h; d] = cast_to t (vec k i h d) /\ at_ sv [P + i; h; d] = cast_to t (vec v i h d)).
Proof using All.
  assert (HD0 : 0 < D) by (destruct (check_head_dim_ok _ _ H64); lia). destruct gathered as (gk & gv & E & Hc). cbv zeta in E.
  unfold fill_scratch. rewrite HP, HN, E. cbn [rbind].
  destruct (copy_rows_cells t (with_elems (scratch_k st) (elems gk)) P N (H * D) k) as (sk & Ek & Sk & Lk & Ck); [unfold DeviceMemory.dim; by rewrite Hk|].
  destruct (copy_rows_cells t (with_elems (scratch_v st) (elems gv)) P N (H * D) v) as (sv & Ev & Sv & Lv & Cv); [unfold DeviceMemory.dim; by rewrite Hv|].
  rewrite Ek. cbn [rbind]. rewrite Ev. cbn [rbind]. exists sk, sv. split; [done|]. cbn [with_elems DeviceMemory.shape elems] in Sk, Sv, Lk, Lv.
  assert (Ek1 : DeviceMemory.dim k 1 = H) by (unfold DeviceMemory.dim; by rewrite Hk). assert (Ek2 : DeviceMemory.dim k 2 = D) by (unfold DeviceMemory.dim; by rewrite Hk).
  assert (Ev1 : DeviceMemory.dim v 1 = H) by (unfold DeviceMemory.dim; by rewrite Hv). assert (Ev2 : DeviceMemory.dim v 2 = D) by (unfold DeviceMemory.dim; by rewrite Hv).
  intros i h d Hh Hd. assert (Hin : 0 <= h * D + d < H * D) by nia.
  assert (Ra : forall j, at_ sk [j; h; d] = elems sk ((j * H + h) * D + d)) by (intros j; apply at_row3; by rewrite Sk, Hsk).
  assert (Rb : forall j, at_ sv [j; h; d] = elems sv ((j * H + h) * D + d)) by (intros j; apply at_row3; by rewrite Sv, Hsv).
  rewrite !Ra, !Rb. split; intros Hi.
  - rewrite Lk, Lv by nia. by apply Hc.
  - rewrite Ck, Cv by nia. unfold vec. rewrite Ek1, Ek2, Ev1, Ev2.
    by replace (((P + i) * H + h) * D + d - P * (H * D)) with (i * (H * D) + h * D + d) by lia.
Qed.
End scratch.

(** ** The property *)

Section forward.
Context (w : nat) (rt : ReqToTokenPool) (fb : ForwardBatch) (kv_indptr qo_indptr order empty_slots empty_indices : list Z).
Context (Hwf : extend_wf w rt fb kv_indptr qo_indptr order empty_slots empty_indices).
Notation seq := (fb_seq_lens fb).
Notation pre := (fb_extend_prefix_lens fb).
Notation ext := (zip_with Z.sub (fb_seq_lens fb) (fb_extend_prefix_lens fb)).
Notation loc := (fb_out_cache_loc fb).
Context (sched : nat -> Z -> Z -> list (Z * Z)) (Hsched : forall k n m, sched k n m ≡ₚ grid2 n m).
Context (p : TriaxialKVPool) (Hpool : pool_ok p) (Hcache : cache_ok p loc) (l : Z) (Hl : start_layer p <= l) (kv : TriaxialLayerKV) (Hkv : layer_kv p l = Ok kv).
Notation H := (head_num p).
Notation D := (pool_head_dim p).
Context (HH : 0 <= head_num p) (H64 : check_head_dim (pool_head_dim p) 64 = Ok tt).
(** The slots of the new tokens: whole INT2 pages, none of a cached prefix. *)
Context (Hnew : zlen (loc_slots loc) = zsum ext) (Hpages : whole_pages (offset (pool_shape p)) (loc_slots loc)).
Context (Hpage0 : forall s, s ∈ loc_slots loc -> PAGE <= s).
Context (Hprefix : forall r t, 0 <= r < zlen seq -> 0 <= t < tget pre r -> 0 <= slot_of rt fb r t /\ slot_of rt fb r t ∉ loc_slots loc).
Context (ty : dtype) (half : bool) (k v : tensor spec_float).
Context (Hk : DeviceMemory.shape k = [zsum ext; H; D]) (Hv : DeviceMemory.shape v = [zsum ext; H; D]).
Context (Fk : fits_all H (loc_slots loc) (to_half half k)) (Fv : fits_all H (loc_slots loc) (to_half half v)).
Context (gather_order : list (Z * Z)) (Hgo : gather_order ≡ₚ grid2 (tl_cdiv (zsum pre) 32) H).

(** C8: Prefill attention sees every request in position order: the row of the
    scratch buffer that the plan gives for position [t] of request [r] holds,
    for a cached position, the dequantised key and value of the slot in the
    request table, as they were before the batch was written, and for a new
    position the unquantised key and value of its token, while the pool stores
    the new tokens at the same time. *)
Theorem extend_scratch_in_order {Out} (flashinfer : WrapperPlan -> tensor spec_float -> tensor spec_float -> tensor spec_float -> Out) empty_k empty_v q :
  exists st p' sk sv,
    init_forward_metadata order empty_slots empty_indices rt kv_indptr qo_indptr H D empty_k empty_v fb = Ok st /\
    forward_extend sched gather_order flashinfer ty st H D p l fb true half q k v = Ok (flashinfer (es_plan st) q sk sv, p') /\
    forall r t h d, 0 <= r < zlen seq -> 0 <= t < tget seq r -> 0 <= h < H -> 0 <= d < D ->
      let row := tget (plan_kv_indices (es_plan st)) (tget (plan_kv_indptr (es_plan st)) r + t) in
      let i := tget (plan_qo_indptr (es_plan st)) r + (t - tget pre r) in
      if t <? tget pre r then
        at_ sk [row; h; d] = cast_to ty (slot_k kv (slot_of rt fb r t) h d) /\ at_ sv [row; h; d] = cast_to ty (slot_v kv (slot_of rt fb r t) h d)
      else at_ sk [row; h; d] = cast_to ty (at_ k [i; h; d]) /\ at_ sv [row; h; d] = cast_to ty (at_ v [i; h; d]).
Proof using All.
  pose proof (ew_lens _ _ _ _ _ _ _ _ Hwf) as Hle.
  destruct (extend_planned w rt fb kv_indptr qo_indptr order empty_slots empty_indices Hwf) as (meta & plan & E & EP & EN & LP & K1 & K2 & K3 & K4).
  unfold init_forward_metadata. rewrite (ew_extend _ _ _ _ _ _ _ _ Hwf), E. cbn [rassert rbind].
  set (st := {| es_meta := meta; es_plan := plan; scratch_k := _; scratch_v := _ |}).
  destruct (set_kv_buffer_spec sched 0 p l loc half k v kv) as (p' & kv' & Ew & Hok' & _ & Hkv' & Hs' & [_ Hframe] & _); try done.
  { by rewrite Hnew. } { by rewrite Hnew. }
  assert (HN : 0 <= zsum ext) by (rewrite <- Hnew; apply zlen_nonneg).
  assert (Elen : zlen pre = zlen seq) by (by rewrite (lens_eq _ _ Hle)).
  destruct (fill_scratch_cells ty gather_order st H D (zsum ext) p' l kv' Hkv' Hs' H64 HH) with (k := k) (v := v) as (sk & sv & Ef & Hc);
    try (subst st; cbn [es_meta scratch_k scratch_v DeviceMemory.shape]; by rewrite ?LP, ?EP, ?EN).
  exists st, p', sk, sv. split; [reflexivity|]. split; [unfold forward_extend; rewrite Ew; cbn [rbind]; rewrite Ef; done|].
  subst st. cbn [es_meta es_plan] in *. rewrite K1, K2, LP in *. intros r t h d Hr Ht Hh Hd. cbv zeta.
  destruct (request_lens _ _ Hle r Hr) as (_ & _ & Hsp). rewrite !indptr_start by (unfold zlen in *; rewrite ?length_zip_with; lia). rewrite K3 by done.
  pose proof (seg_start_range pre (pres_nonneg _ _ Hle) r ltac:(lia)) as Hpr. pose proof (seg_start_range seq (seqs_nonneg _ _ Hle) r Hr) as Hsr.
  unfold scratch_row. destruct (Z.ltb_spec t (tget pre r)) as [Hlt|Hge].
  - destruct (Hc (seg_start pre r + t) h d Hh Hd) as [[-> ->] _]; [lia|]. rewrite K4 by lia. destruct (Hprefix r t Hr ltac:(lia)) as [Hs0 Hsn].
    destruct (Hframe _ h d Hs0 Hsn Hh Hd) as [-> ->]. done.
  - assert (Hi : 0 <= seg_start ext r + (t - tget pre r) < zsum ext) by (apply (ext_row_range _ _ Hle); lia).
    destruct (Hc (seg_start ext r + (t - tget pre r)) h d Hh Hd) as [_ [-> ->]]; [done|].
    by rewrite !(at_vec _ (zsum ext) H D).
Qed.
End forward.

(** ** A batch of two requests, the first with one cached token *)

Definition toy_table : ReqToTokenPool :=
  {| pool_size := 2; max_context_len := 4; req_to_token := [[68; 0; 0; 0]; [65; 66; 67; 0]]; free_slots := [] |}.

Definition toy_batch : ForwardBatch :=
  {| fb_is_extend := true; fb_req_pool_indices := [1; 0]; fb_seq_lens := [3; 1]; fb_seq_lens_cpu := [3; 1];
     fb_extend_prefix_lens := [1; 0]; fb_extend_prefix_lens_cpu := [1; 0]; fb_out_cache_loc := {| loc_id := 7; loc_slots := [66; 67; 68] |} |}.

Lemma toy_extend_wf : extend_wf 4 toy_table toy_batch [0; 9; 9; 9] [0; 8; 8] [1; 0] (replicate 260 0) (replicate 260 0).
Proof.
  split; try reflexivity.
  - repeat constructor.
  - repeat constructor; lia.
  - intros r Hr. change (zlen (fb_seq_lens toy_batch)) with 2 in Hr. assert (r = 0 \/ r = 1) as [-> | ->] by lia; vm_compute; repeat split; discriminate.
  - split; [discriminate|reflexivity].
  - split; [discriminate|reflexivity].
  - apply Permutation_swap.
Qed.

Lemma extend_scratch_in_order_witness : exists st p' sk sv,
  init_forward_metadata [1; 0] (replicate 260 0) (replicate 260 0) toy_table [0; 9; 9; 9] [0; 8; 8] 1 64 (fun _ => f_zero) (fun _ => f_zero) toy_batch = Ok st /\
  forward_extend toy_sched (toy_sched 0 1 1) (fun _ _ a b => (a, b)) BF16 st 1 64 toy_pool 1 toy_batch true true (toy_x 3 0) (toy_x 3 29) (toy_x 3 31) = Ok ((sk, sv), p') /\
  at_ sk [tget (plan_kv_indices (es_plan st)) (tget (plan_kv_indptr (es_plan st)) 0 + 0); 0; 5] = cast_to BF16 (slot_k toy_layer 65 0 5) /\
  at_ sk [tget (plan_kv_indices (es_plan st)) (tget (plan_kv_indptr (es_plan st)) 1 + 0); 0; 5] =
    cast_to BF16 (at_ (toy_x 3 29) [tget (plan_qo_indptr (es_plan st)) 1 + (0 - 0); 0; 5]).
Proof.
  destruct (extend_scratch_in_order 4 toy_table toy_batch [0; 9; 9; 9] [0; 8; 8] [1; 0] (replicate 260 0) (replicate 260 0) toy_extend_wf
    toy_sched toy_sched_ok toy_pool (proj1 toy_ok) (proj2 toy_ok _) 1 ltac:(discriminate) toy_layer eq_refl ltac:(discriminate) eq_refl eq_refl) with (ty := BF16) (half := true) (k := toy_x 3 29) (v := toy_x 3 31)
    (gather_order := toy_sched 0 1 1) (flashinfer := fun (_ : WrapperPlan) (_ a b : tensor spec_float) => (a, b))
    (empty_k := fun _ : Z => f_zero) (empty_v := fun _ : Z => f_zero) (q := toy_x 3 0) as (st & p' & sk & sv & E1 & E2 & Hc).
  - split; [apply (bool_decide_unpack _); vm_compute; exact I|]. intros s j Hs Hr. exfalso. change (offset (pool_shape toy_pool)) with 64 in Hr.
    change (loc_slots (fb_out_cache_loc toy_batch)) with [66; 67; 68] in Hs. set_solver by lia.
  - intros s Hs. change (loc_slots (fb_out_cache_loc toy_batch)) with [66; 67; 68] in Hs. unfold PAGE. set_solver by lia.
  - intros r t Hr Ht. change (zlen (fb_seq_lens toy_batch)) with 2 in Hr. assert (r = 0 \/ r = 1) as [-> | ->] by lia.
    + change (tget (fb_extend_prefix_lens toy_batch) 0) with 1 in Ht. assert (t = 0) as -> by lia.
      change (slot_of toy_table toy_batch 0 0) with 65. change (loc_slots (fb_out_cache_loc toy_batch)) with [66; 67; 68]. set_solver by lia.
    + change (tget (fb_extend_prefix_lens toy_batch) 1) with 0 in Ht. lia.
  - reflexivity.
  - reflexivity.
  - intros i h Hi Hh. apply toy_fits; [right; split; [done|by left]|done|done].
  - intros i h Hi Hh. apply toy_fits; [right; split; [done|by right]|done|done].
  - apply toy_sched_ok.
  - exists st, p', sk, sv. split; [exact E1|]. split; [exact E2|]. split.
    + apply (Hc 0 0 0 5); vm_compute; split; reflexivity || discriminate.
    + apply (Hc 1 0 0 5); vm_compute; split; reflexivity || discriminate.
Defined.
