(* ===== verification/DecodeAttention.v ===== *)
(** * Decode attention over the mixed cache

    The decode kernels of [layers/attention/triton_ops/triaxial_kv.py]: the
    split-KV first stage, which unpacks and dequantises the cache block by
    block, the second stage, which combines the splits, their launchers, and the
    torch reference [ref_attention].

    The kernels are written over an arithmetic [F]: what they load, round, add,
    multiply, exponentiate and compare.  [tl.dot] and [tl.sum] add their lanes
    from left to right; the hardware may use any order. *)

From S2P Require Import Prelude Tensors Floats DeviceFloats DeviceMemory QuantKernels DequantKernels Triton.

(** The operations of the kernels on [F]. *)
Class Arith (F : Type) := {
  a_load : spec_float -> F;
  a_zero : F;
  a_ninf : F;
  a_add : F -> F -> F;
  a_sub : F -> F -> F;
  a_mul : F -> F -> F;
  a_div : F -> F -> F;
  a_max : F -> F -> F;
  a_exp : F -> F;
  a_log : F -> F;
  a_sigmoid : F -> F;
  a_tanh : F -> F;
  a_two : F;
  a_one : F;
  a_cast : dtype -> F -> F
}.

Definition MIN_BLOCK_KV : Z := 32.

(** The running maximum, sum and weighted values of one query head. *)
Record online (F : Type) := { e_max : F; e_sum : F; acc : Z -> Z -> F }.
Arguments e_max {F} _.
Arguments e_sum {F} _.
Arguments acc {F} _ _ _.

Section kernels.
Context {F : Type} {AF : Arith F}.

Definition a_sum (l : list F) : F := foldl a_add a_zero l.
Definition a_maximum (l : list F) : F := match l with [] => a_ninf | x :: xs => foldl a_max x xs end.

(** [_tanh] *)
Definition k_tanh (x : F) : F := a_sub (a_mul a_two (a_sigmoid (a_mul a_two x))) a_one.

(** The positions [[start, end)] of split [split_kv_id]. *)
Definition split_range (seq_len kv_splits split_kv_id : Z) : Z * Z :=
  let kv_len_per_split := tl_cdiv (tl_cdiv seq_len kv_splits) MIN_BLOCK_KV * MIN_BLOCK_KV in
  let split_kv_start := kv_len_per_split * split_kv_id in
  (split_kv_start, Z.min (split_kv_start + kv_len_per_split) seq_len).

Definition online_init : online F := {| e_max := a_ninf; e_sum := a_zero; acc := fun _ _ => a_zero |}.

Section first_stage.
Context (t : dtype) (kv : TriaxialLayerKV) (H D NG BLOCK_N : Z).

(** The key and value tiles of a block: all INT2, all INT4, or selected per slot. *)
Definition block_tiles (cur_kv_head : Z) (loc : Z -> Z) (mask_n : Z -> bool) (n b : Z) : tile4 * tile4 :=
  let off := kv_offset kv in
  let lanes := seqZ 0 BLOCK_N in
  let is2 n := loc n <? off in
  let loc_hi := zmax (map (fun n => if mask_n n then loc n else 0) lanes) in
  let loc_lo := zmin (map (fun n => if mask_n n then loc n else off) lanes) in
  let k2 m := k2_tiles D H cur_kv_head (elems (k2_data kv)) (elems (k2_meta kv)) BLOCK_N loc m n b in
  let v2 m := v2_tiles D NG H cur_kv_head (elems (v2_data kv)) (elems (v2_meta kv)) (loc n) (m n) b in
  let k4 m := k4_tiles D NG H cur_kv_head (elems (k4_data kv)) (elems (k4_meta kv)) off (loc n) (m n) b in
  let v4 m := v4_tiles D NG H cur_kv_head (elems (v4_data kv)) (elems (v4_meta kv)) off (loc n) (m n) b in
  if loc_hi <? off then (k2 mask_n, v2 mask_n)
  else if off <=? loc_lo then (k4 mask_n, v4 mask_n)
  else
    let m2 (n : Z) : bool := mask_n n && is2 n in
    let m4 (n : Z) : bool := mask_n n && negb (is2 n) in
    (if is2 n then k2 m2 else k4 m4, if is2 n then v2 m2 else v4 m4).

(** One iteration of the block loop for one query head; [q c b] is channel [4b + c]. *)
Definition block_step (sm_scale : F) (logit_cap : option F) (q : Z -> Z -> F) (mask_h : bool) (mask_n : Z -> bool) (tiles : Z -> Z -> tile4 * tile4)
    (s : online F) : online F :=
  let lanes := seqZ 0 BLOCK_N in
  let bs := seqZ 0 (D / 4) in
  let k n c b := a_load (cast_to t (sub_tile (tiles n b).1 c)) in
  let v n c b := a_load (cast_to t (sub_tile (tiles n b).2 c)) in
  let dot n c := a_sum (map (fun b => a_mul (q c b) (k n c b)) bs) in
  let qk n := a_mul (a_add (a_add (a_add (dot n 0) (dot n 1)) (dot n 2)) (dot n 3)) sm_scale in
  let qk n := match logit_cap with Some cap => a_mul cap (k_tanh (a_div (qk n) cap)) | None => qk n end in
  let qk n := if mask_h && mask_n n then qk n else a_ninf in
  let n_e_max := a_max (a_maximum (map qk lanes)) (e_max s) in
  let re_scale := a_exp (a_sub (e_max s) n_e_max) in
  let p n := a_exp (a_sub (qk n) n_e_max) in
  {| e_max := n_e_max;
     e_sum := a_add (a_mul (e_sum s) re_scale) (a_sum (map p lanes));
     acc := fun c b => a_add (a_mul (acc s c b) re_scale) (a_sum (map (fun n => a_mul (a_cast t (p n)) (v n c b)) lanes)) |}.

(** [range(start, stop, BLOCK_N)] *)
Definition block_starts (start stop : Z) : list Z := map (fun i => start + i * BLOCK_N) (seqZ 0 (tl_cdiv (stop - start) BLOCK_N)).

(** The final state of one query head over the positions [[start, stop)] of its request. *)
Definition split_loop (sm_scale : F) (logit_cap : option F) (q : Z -> Z -> F) (mask_h : bool) (cur_kv_head : Z) (slot : Z -> Z) (start stop : Z) : online F :=
  foldl (fun s start_n =>
      let mask_n n := start_n + n <? stop in
      let loc n := if mask_n n then slot (start_n + n) else 0 in
      block_step sm_scale logit_cap q mask_h mask_n (block_tiles cur_kv_head loc mask_n) s)
    online_init (block_starts start stop).

(** Query heads of one program, and the key-value head it reads. *)
Definition VALID_BLOCK_H (kv_group_num BLOCK_H : Z) : Z := if BLOCK_H <? kv_group_num then BLOCK_H else kv_group_num.
Definition program_kv_head (kv_group_num BLOCK_H cur_head_id : Z) : Z := cur_head_id / tl_cdiv kv_group_num BLOCK_H.

(** The writes of program [(cur_batch, cur_head_id, split_kv_id)] to [Att_Out] and [Att_Lse]. *)
Definition stage1_kernel (Q : mem spec_float) (sm_scale : F) (kv_indptr kv_indices num_kv_splits : list Z)
    (stride_qbs stride_qh stride_mid_ob stride_mid_oh stride_mid_os kv_group_num q_head_num BLOCK_H : Z) (logit_cap : option F) (pid : Z * Z * Z)
  : list (Z * F) * list (Z * F) :=
  let '(cur_batch, cur_head_id, split_kv_id) := pid in
  let cur_kv_head := program_kv_head kv_group_num BLOCK_H cur_head_id in
  let valid := VALID_BLOCK_H kv_group_num BLOCK_H in
  let cur_head i := cur_head_id * valid + i in
  let mask_h i := (cur_head i <? (cur_head_id + 1) * valid) && (cur_head i <? q_head_num) in
  let kv_start := tl_load kv_indptr cur_batch in
  let seq_len := tl_load kv_indptr (cur_batch + 1) - kv_start in
  let kv_splits := tl_load num_kv_splits cur_batch in
  let (split_kv_start, split_kv_end) := split_range seq_len kv_splits split_kv_id in
  if split_kv_start <? split_kv_end then
    let q i c b := if mask_h i then a_load (Q (cur_batch * stride_qbs + cur_head i * stride_qh + 4 * b + c)) else a_zero in
    let final i := split_loop sm_scale logit_cap (q i) (mask_h i) cur_kv_head (fun j => tl_load kv_indices (kv_start + j)) split_kv_start split_kv_end in
    let mid i := cur_batch * stride_mid_ob + cur_head i * stride_mid_oh + split_kv_id * stride_mid_os in
    let heads := List.filter mask_h (seqZ 0 BLOCK_H) in
    (flat_map (fun c => flat_map (fun i => let s := final i in
        map (fun b => (mid i + 4 * b + c, a_div (acc s c b) (e_sum s))) (seqZ 0 (D / 4))) heads) (seqZ 0 4),
     map (fun i => let s := final i in (mid i / D, a_add (e_max s) (a_log (e_sum s)))) heads)
  else ([], []).
End first_stage.

(** The writes of program [(cur_batch, cur_head)] to [O]. *)
Definition stage2_kernel (t : dtype) (Mid_O Mid_O_1 : mem F) (kv_indptr num_kv_splits : list Z)
    (stride_mid_ob stride_mid_oh stride_mid_os stride_obs stride_oh MAX_KV_SPLITS Lv : Z) (pid : Z * Z) : list (Z * F) :=
  let (cur_batch, cur_head) := pid in
  let seq_len := tl_load kv_indptr (cur_batch + 1) - tl_load kv_indptr cur_batch in
  let kv_splits := tl_load num_kv_splits cur_batch in
  let offs_v d := cur_batch * stride_mid_ob + cur_head * stride_mid_oh + d in
  let offs_logic := (cur_batch * stride_mid_ob + cur_head * stride_mid_oh) / Lv in
  let step (s : F * F * (Z -> F)) split_kv_id :=
    let '(em, es, ac) := s in
    let (split_kv_start, split_kv_end) := split_range seq_len kv_splits split_kv_id in
    if split_kv_start <? split_kv_end then
      let tv d := Mid_O (offs_v d + split_kv_id * stride_mid_os) in
      let tlogic := Mid_O_1 (offs_logic + split_kv_id * stride_mid_os / Lv) in
      let n_e_max := a_max tlogic em in
      let old_scale := a_exp (a_sub em n_e_max) in
      let exp_logic := a_exp (a_sub tlogic n_e_max) in
      (n_e_max, a_add (a_mul es old_scale) exp_logic, fun d => a_add (a_mul (ac d) old_scale) (a_mul exp_logic (tv d)))
    else s in
  let '(_, es, ac) := foldl step (a_ninf, a_zero, fun _ => a_zero) (seqZ 0 MAX_KV_SPLITS) in
  map (fun d => (cur_batch * stride_obs + cur_head * stride_oh + d, a_cast t (a_div (ac d) es))) (seqZ 0 Lv).

(** ** Launchers *)

(** The programs [(p, q, r)] of a grid of three axes. *)
Definition grid3 (n m l : Z) : list (Z * Z * Z) := flat_map (fun pq => map (pair pq) (seqZ 0 l)) (grid2 n m).

(** The grids of the two launches. *)
Definition stage1_grid (batch head_num kv_group_num max_kv_splits : Z) : list (Z * Z * Z) :=
  grid3 batch (tl_cdiv head_num (Z.min 16 kv_group_num)) max_kv_splits.
Definition stage2_grid (batch head_num : Z) : list (Z * Z) := grid2 batch head_num.

Section launchers.
(** The orders in which the programs of the two launches run. *)
Context (order1 : list (Z * Z * Z)) (order2 : list (Z * Z)).

(** [att_out] has shape [_, head_num, max_kv_splits, D] and is contiguous, like [q] and [o]. *)
Definition decode_grouped_att_m_fwd_mixed (t : dtype) (q : tensor spec_float) (kv : TriaxialLayerKV) (att_out att_lse : tensor F)
    (kv_indptr kv_indices num_kv_splits : list Z) (sm_scale : F) (logit_cap : option F) : result (mem F * mem F) :=
  let BLOCK := 32 in
  let '(H, D) := (num_kv_heads kv, head_dim kv) in
  let head_num := dim q 1 in
  let kv_group_num := head_num / H in
  let! _ := rassert (kv_group_num * H =? head_num) in
  let prog := stage1_kernel t kv H D (D / G) BLOCK (elems q) sm_scale kv_indptr kv_indices num_kv_splits
                (dim q 1 * dim q 2) (dim q 2) (dim att_out 1 * dim att_out 2 * dim att_out 3) (dim att_out 2 * dim att_out 3) (dim att_out 3)
                kv_group_num head_num 16 logit_cap in
  Ok (foldl (fun m p => apply_writes m (prog p).1) (elems att_out) order1,
      foldl (fun m p => apply_writes m (prog p).2) (elems att_lse) order1).

Definition decode_softmax_reducev_fwd (t : dtype) (logits : tensor F) (Mid_O Mid_O_1 : mem F) (q : tensor spec_float) (o : mem F) (Lv : Z)
    (kv_indptr num_kv_splits : list Z) (max_kv_splits : Z) : mem F :=
  let prog := stage2_kernel t Mid_O Mid_O_1 kv_indptr num_kv_splits
                (dim logits 1 * dim logits 2 * dim logits 3) (dim logits 2 * dim logits 3) (dim logits 3) (dim q 1 * dim q 2) (dim q 2) max_kv_splits Lv in
  foldl (fun m p => apply_writes m (prog p)) o order2.

Definition decode_attention_fwd_mixed (t : dtype) (q : tensor spec_float) (kv : TriaxialLayerKV) (o : tensor F) (kv_indptr kv_indices : list Z)
    (attn_logits attn_lse : tensor F) (num_kv_splits : list Z) (max_kv_splits : Z) (sm_scale : F) (logit_cap : option F) : result (tensor F) :=
  let! _ := rassert (max_kv_splits =? dim attn_logits 2) in
  let! _ := rassert (dim q 0 <=? zlen kv_indptr - 1) in
  let! _ := rassert (dim q 0 <=? dim attn_logits 0) in
  let D := head_dim kv in
  let! _ := rassert ((dim q 2 =? D) && bool_decide (shape o = shape q)) in
  let! _ := rassert (dim attn_logits 3 =? D) in
  let! (mid, lse) := decode_grouped_att_m_fwd_mixed t q kv attn_logits attn_lse kv_indptr kv_indices num_kv_splits sm_scale logit_cap in
  Ok (with_elems o (decode_softmax_reducev_fwd t attn_logits mid lse q (elems o) D kv_indptr num_kv_splits max_kv_splits)).
End launchers.

(** ** The reference *)

(** [torch.softmax] over a list. *)
Definition softmax (s : list F) : list F :=
  let m := a_maximum s in
  let e := map (fun x => a_exp (a_sub x m)) s in
  map (fun x => a_div x (a_sum e)) e.

(** Output channel [d] of query head [h] of request [b]; [q] is [bs, Hq, D], [k] and
    [v] are [total, H, D] in the order of [kv_indptr]. *)
Definition ref_attention (Hq H D : Z) (q k v : Z -> Z -> Z -> F) (kv_indptr : list Z) (sm_scale : F) (logit_cap : option F) (b h d : Z) : F :=
  let group := Hq / H in
  let lo := tget kv_indptr b in
  let rows := seqZ lo (tget kv_indptr (b + 1) - lo) in
  let s n := a_mul (a_sum (map (fun d => a_mul (q b h d) (k n (h / group) d)) (seqZ 0 D))) sm_scale in
  let s n := match logit_cap with Some cap => a_mul cap (a_tanh (a_div (s n) cap)) | None => s n end in
  a_sum (zip_with (fun p n => a_mul p (v n (h / group) d)) (softmax (map s rows)) rows).
End kernels.
