(* ===== verification/OnlineSoftmax.v ===== *)
(** * Exact arithmetic and the online softmax of the decode kernels

    The arithmetic of the attention kernels without rounding: reals, minus
    infinity for masked scores, and [Undef] for every combination that exact
    arithmetic does not settle (an infinite or NaN input, a division by zero, the
    difference of two infinities).  In this arithmetic a query head that has seen
    a set of tokens holds, up to the factor of its running maximum, the sum of
    the exponentials of their scores and the sums of their weighted values. *)

From Stdlib Require Import Reals Lra.
From S2P Require Import Prelude Floats DeviceFloats DeviceMemory QuantKernels DequantKernels Triton DecodeAttention.

(** ** Exact arithmetic *)

Inductive xr := Fin (r : R) | NInf | Undef.

(** The value of a finite float. *)
Definition sf_R (x : spec_float) : R :=
  match x with
  | S754_finite s m e => ((if s then -1 else 1) * IZR (Zpos m) * powerRZ 2 e)%R
  | _ => 0%R
  end.

Definition x_load (x : spec_float) : xr := if is_finite x then Fin (sf_R x) else Undef.

Definition x_add (a b : xr) : xr :=
  match a, b with
  | Fin x, Fin y => Fin (x + y)
  | NInf, Fin _ | Fin _, NInf | NInf, NInf => NInf
  | _, _ => Undef
  end.

Definition x_sub (a b : xr) : xr :=
  match a, b with
  | Fin x, Fin y => Fin (x - y)
  | NInf, Fin _ => NInf
  | _, _ => Undef
  end.

Definition x_mul (a b : xr) : xr := match a, b with Fin x, Fin y => Fin (x * y) | _, _ => Undef end.

Definition x_div (a b : xr) : xr :=
  match a, b with Fin x, Fin y => if Req_dec_T y 0 then Undef else Fin (x / y) | _, _ => Undef end.

Definition x_max (a b : xr) : xr :=
  match a, b with
  | Fin x, Fin y => Fin (Rmax x y)
  | Fin x, NInf | NInf, Fin x => Fin x
  | NInf, NInf => NInf
  | _, _ => Undef
  end.

Definition x_exp (a : xr) : xr := match a with Fin x => Fin (exp x) | NInf => Fin 0 | Undef => Undef end.
Definition x_log (a : xr) : xr := match a with Fin x => if Rlt_dec 0 x then Fin (ln x) else Undef | _ => Undef end.
Definition x_map (f : R -> R) (a : xr) : xr := match a with Fin x => Fin (f x) | _ => Undef end.

#[global] Instance exact : Arith xr := {|
  a_load := x_load; a_zero := Fin 0; a_ninf := NInf; a_add := x_add; a_sub := x_sub; a_mul := x_mul; a_div := x_div;
  a_max := x_max; a_exp := x_exp; a_log := x_log; a_sigmoid := x_map (fun x => / (1 + exp (- x)))%R; a_tanh := x_map tanh;
  a_two := Fin 2; a_one := Fin 1; a_cast := fun _ x => x |}.

(** ** Sums *)

Definition Rsum (l : list R) : R := foldr Rplus 0%R l.

Lemma Rsum_app l k : Rsum (l ++ k) = (Rsum l + Rsum k)%R.
Proof. unfold Rsum. induction l as [|x l IH]; simpl; [lra|]. rewrite IH. lra. Qed.

Lemma Rsum_scale {A} c (f : A -> R) l : Rsum (map (fun x => c * f x)%R l) = (c * Rsum (map f l))%R.
Proof. unfold Rsum. induction l as [|x l IH]; simpl; [lra|]. rewrite IH. lra. Qed.

Lemma Rsum_plus {A} (f g : A -> R) l : Rsum (map (fun x => f x + g x)%R l) = (Rsum (map f l) + Rsum (map g l))%R.
Proof. unfold Rsum. induction l as [|x l IH]; simpl; [lra|]. rewrite IH. lra. Qed.

Lemma Rsum_ext {A} (f g : A -> R) l : (forall x, x ∈ l -> f x = g x) -> Rsum (map f l) = Rsum (map g l).
Proof.
  unfold Rsum. induction l as [|x l IH]; intros E; [done|]. simpl. rewrite IH, E; [done|set_solver|intros; apply E; set_solver].
Qed.

Lemma Rsum_nonneg {A} (f : A -> R) l : (forall x, x ∈ l -> 0 <= f x)%R -> (0 <= Rsum (map f l))%R.
Proof.
  unfold Rsum. induction l as [|x l IH]; intros Hf; simpl; [lra|].
  assert (0 <= f x)%R by (apply Hf; set_solver). assert (0 <= foldr Rplus 0 (map f l))%R by (apply IH; intros; apply Hf; set_solver). lra.
Qed.

Lemma Rsum_pos {A} (f : A -> R) l : l <> [] -> (forall x, x ∈ l -> 0 < f x)%R -> (0 < Rsum (map f l))%R.
Proof.
  destruct l as [|x l]; [done|]. intros _ Hf. change (0 < f x + Rsum (map f l))%R.
  assert (0 < f x)%R by (apply Hf; set_solver). assert (0 <= Rsum (map f l))%R by (apply Rsum_nonneg; intros y Hy; apply Rlt_le, Hf; set_solver). lra.
Qed.

(** A sum over a filtered list, with zeros for the other elements. *)
Lemma Rsum_filter {A} (P : A -> bool) (f : A -> R) l : Rsum (map (fun x => if P x then f x else 0%R) l) = Rsum (map f (List.filter P l)).
Proof. unfold Rsum. induction l as [|x l IH]; [done|]. simpl. rewrite IH. destruct (P x); simpl; lra. Qed.

Lemma a_sum_fin {A} (f : A -> xr) (g : A -> R) l : (forall x, x ∈ l -> f x = Fin (g x)) -> a_sum (map f l) = Fin (Rsum (map g l)).
Proof.
  intros Hf. unfold a_sum. assert (Hacc : forall r, foldl a_add (Fin r) (map f l) = Fin (r + Rsum (map g l))); [|change (a_zero) with (Fin 0); rewrite (Hacc 0%R); f_equal; lra].
  induction l as [|x l IH]; intros r; simpl; [f_equal; unfold Rsum; simpl; lra|].
  rewrite Hf by set_solver. cbn [a_add exact x_add]. rewrite IH by (intros; apply Hf; set_solver). f_equal. unfold Rsum. simpl. lra.
Qed.

(** Maxima of scores, of which some are masked. *)
Lemma x_max_masked a b : a = NInf \/ (exists x, a = Fin x) -> b = NInf \/ (exists y, b = Fin y) ->
  (x_max a b = NInf <-> a = NInf /\ b = NInf) /\ (x_max a b = NInf \/ exists z, x_max a b = Fin z).
Proof. intros [->|[x ->]] [->|[y ->]]; cbn [x_max]; split; try split; naive_solver. Qed.

Lemma a_maximum_masked l : (forall a, a ∈ l -> a = NInf \/ exists x, a = Fin x) ->
  a_maximum l = NInf /\ (forall a, a ∈ l -> a = NInf) \/ exists z, a_maximum l = Fin z.
Proof.
  destruct l as [|a l]; [left; split; [done|set_solver]|]. intros Hl. unfold a_maximum.
  assert (Hgen : forall b, b = NInf \/ (exists x, b = Fin x) -> (forall a, a ∈ l -> a = NInf \/ exists x, a = Fin x) ->
    foldl a_max b l = NInf /\ b = NInf /\ (forall a, a ∈ l -> a = NInf) \/ exists z, foldl a_max b l = Fin z).
  { clear Hl. induction l as [|c l IH]; intros b Hb Hl.
    - destruct Hb as [->|[x ->]]; [left|right; by exists x]. split; [done|]. split; [done|set_solver].
    - simpl. destruct (x_max_masked b c Hb ltac:(apply Hl; set_solver)) as [Hiff Hor].
      destruct (IH (x_max b c) Hor ltac:(intros; apply Hl; set_solver)) as [(E & Em & Hr)|Hz]; [left|by right].
      apply Hiff in Em as [-> ->]. split; [exact E|]. split; [done|]. set_solver. }
  destruct (Hgen a ltac:(apply Hl; set_solver) ltac:(intros; apply Hl; set_solver)) as [(E & -> & Hr)|Hz]; [left|by right].
  split; [exact E|]. set_solver.
Qed.

(** ** The two tanh *)

Lemma k_tanh_exact x : k_tanh (Fin x) = Fin (tanh x).
Proof.
  unfold k_tanh. cbn [a_two a_one a_mul a_sub a_sigmoid exact x_mul x_sub x_map]. f_equal. unfold tanh, sinh, cosh.
  replace (exp (- (2 * x)))%R with (exp (- x) * exp (- x))%R by (rewrite <- exp_plus; f_equal; lra).
  assert (Hp : (exp x * exp (- x) = 1)%R) by (rewrite <- exp_plus, Rplus_opp_r; apply exp_0).
  pose proof (exp_pos x). pose proof (exp_pos (- x)). set (a := exp x) in *. set (b := exp (- x)) in *.
  assert (1 + b * b <> 0)%R by nra. assert (a + b <> 0)%R by lra.
  field_simplify_eq; [|split; lra]. nra.
Qed.

(** ** Sums over blocks of channels and tokens *)

Lemma seqZ_snoc a k : 0 <= k -> seqZ a (k + 1) = seqZ a k ++ [a + k].
Proof. intros Hk. by rewrite seqZ_app by lia. Qed.

Lemma Rsum_quads (f : Z -> R) n : 0 <= n ->
  (Rsum (map (fun b => f (4 * b)%Z) (seqZ 0 n)) + Rsum (map (fun b => f (4 * b + 1)%Z) (seqZ 0 n)) +
   Rsum (map (fun b => f (4 * b + 2)%Z) (seqZ 0 n)) + Rsum (map (fun b => f (4 * b + 3)%Z) (seqZ 0 n)))%R = Rsum (map f (seqZ 0 (4 * n))).
Proof.
  intros Hn. pattern n. apply natlike_ind; [unfold Rsum; simpl; lra| |done]. clear n Hn. intros n Hn IH. unfold Z.succ.
  replace (4 * (n + 1)) with (4 * n + 1 + 1 + 1 + 1) by lia. rewrite !seqZ_snoc by lia. rewrite !map_app, !Rsum_app, <- IH.
  unfold Rsum. cbn [map foldr]. replace (0 + n) with n by lia. replace (0 + 4 * n) with (4 * n) by lia.
  replace (0 + (4 * n + 1)) with (4 * n + 1) by lia. replace (0 + (4 * n + 1 + 1)) with (4 * n + 2) by lia.
  replace (0 + (4 * n + 1 + 1 + 1)) with (4 * n + 3) by lia. lra.
Qed.

(** The valid lanes of a block are the next tokens. *)
Lemma valid_lanes B start stop : 0 <= B ->
  map (fun n => start + n) (List.filter (fun n => start + n <? stop) (seqZ 0 B)) = seqZ start (Z.min B (stop - start)).
Proof.
  intros HB. pattern B. apply natlike_ind; [| |done].
  - simpl. unfold seqZ. by replace (Z.to_nat (Z.min 0 (stop - start))) with 0%nat by lia.
  - clear B HB. intros B HB IH. unfold Z.succ. rewrite seqZ_snoc, List.filter_app, map_app, IH by lia. cbn [List.filter]. rewrite Z.add_0_l.
    destruct (Z.ltb_spec (start + B) stop).
    + rewrite !Z.min_l by lia. by rewrite seqZ_snoc by lia.
    + rewrite !Z.min_r by lia. by rewrite app_nil_r.
Qed.

(** ** One block *)

Definition cap_R (cap : option R) (x : R) : R := match cap with Some c => (c * tanh (x / c))%R | None => x end.

(** The score of a token with key [kr] for a query [qr] of [D] channels. *)
Definition score_R (D : Z) (scale : R) (cap : option R) (qr kr : Z -> R) : R :=
  cap_R cap (Rsum (map (fun d => qr d * kr d)%R (seqZ 0 D)) * scale).

(** [s] has seen tokens whose exponentials sum to [S] and weighted values to [A]. *)
Definition seen (D : Z) (s : online xr) (S : R) (A : Z -> R) : Prop :=
  (e_max s = NInf /\ S = 0%R /\ e_sum s = Fin 0 /\ forall c b, 0 <= c < 4 -> 0 <= b < D / 4 -> acc s c b = Fin 0 /\ A (4 * b + c) = 0%R) \/
  (exists m, e_max s = Fin m /\ e_sum s = Fin (exp (- m) * S) /\
     forall c b, 0 <= c < 4 -> 0 <= b < D / 4 -> acc s c b = Fin (exp (- m) * A (4 * b + c))).

Lemma seen_init D : seen D online_init 0 (fun _ => 0%R).
Proof. left. by split_and!. Qed.

Lemma seen_ext D s S S' A A' : S = S' -> (forall d, A d = A' d) -> seen D s S A -> seen D s S' A'.
Proof.
  intros <- EA [(E1 & E2 & E3 & E4)|(m & E1 & E2 & E3)]; [left|right].
  - split_and!; try done. intros c b Hc Hb. rewrite <- EA. by apply E4.
  - exists m. split_and!; try done. intros c b Hc Hb. rewrite <- EA. by apply E3.
Qed.

Section block.
Context (t : dtype) (D B : Z) (HD : D mod 4 = 0) (HD0 : 0 <= D).
Context (scale : R) (cap : option R) (Hcap : forall c, cap = Some c -> c <> 0%R).
Context (q : Z -> Z -> xr) (qr : Z -> R) (Hq : forall c b, 0 <= c < 4 -> 0 <= b < D / 4 -> q c b = Fin (qr (4 * b + c))).
Context (mask_n : Z -> bool) (tiles : Z -> Z -> tile4 * tile4) (kr vr : Z -> Z -> R).
Context (Hk : forall n c b, 0 <= n < B -> mask_n n = true -> 0 <= c < 4 -> 0 <= b < D / 4 -> x_load (cast_to t (sub_tile (tiles n b).1 c)) = Fin (kr n (4 * b + c))).
Context (Hv : forall n c b, 0 <= n < B -> mask_n n = true -> 0 <= c < 4 -> 0 <= b < D / 4 -> x_load (cast_to t (sub_tile (tiles n b).2 c)) = Fin (vr n (4 * b + c))).
(** Masked lanes hold finite values. *)
Context (Hm : forall n c b, 0 <= n < B -> mask_n n = false -> 0 <= c < 4 -> 0 <= b < D / 4 -> exists r, x_load (cast_to t (sub_tile (tiles n b).2 c)) = Fin r).
Context (Hvalid : exists n, 0 <= n < B /\ mask_n n = true).
Notation score n := (score_R D scale cap qr (kr n)).
Notation valid := (List.filter mask_n (seqZ 0 B)).

(** The masked scores of the block. *)
Definition scores (n : Z) : xr :=
  let dot c := a_sum (map (fun b => a_mul (q c b) (a_load (cast_to t (sub_tile (tiles n b).1 c)))) (seqZ 0 (D / 4))) in
  let qk := a_mul (a_add (a_add (a_add (dot 0) (dot 1)) (dot 2)) (dot 3)) (Fin scale) in
  let qk := match option_map Fin cap with Some cap => a_mul cap (k_tanh (a_div qk cap)) | None => qk end in
  if true && mask_n n then qk else a_ninf.

Lemma dot_exact n c : 0 <= n < B -> mask_n n = true -> 0 <= c < 4 ->
  a_sum (map (fun b => a_mul (q c b) (a_load (cast_to t (sub_tile (tiles n b).1 c)))) (seqZ 0 (D / 4))) =
  Fin (Rsum (map (fun b => qr (4 * b + c)%Z * kr n (4 * b + c)%Z)%R (seqZ 0 (D / 4)))).
Proof using Hq Hk.
  intros Hn Hmn Hc. apply a_sum_fin. intros b Hb%elem_of_seqZ. rewrite Hq by lia. cbn [a_mul a_load exact]. rewrite Hk by (done || lia). done.
Qed.

Lemma scores_exact n : 0 <= n < B -> scores n = if mask_n n then Fin (score n) else NInf.
Proof using Hq Hk HD HD0 Hcap.
  intros Hn. unfold scores. cbv zeta. destruct (mask_n n) eqn:Em; [|done]. cbn [andb]. rewrite !dot_exact by (done || lia).
  cbn [a_add a_mul exact x_add x_mul]. unfold score_R.
  set (f := fun d => (qr d * kr n d)%R). pose proof (Rsum_quads f (D / 4) ltac:(dlia)) as Hs. replace (4 * (D / 4)) with D in Hs by dlia. subst f. cbv beta in Hs.
  rewrite (Rsum_ext (fun b => (qr (4 * b + 0)%Z * kr n (4 * b + 0)%Z)%R) (fun b => (qr (4 * b)%Z * kr n (4 * b)%Z)%R)) by (intros; by rewrite Z.add_0_r).
  rewrite Hs. destruct cap as [c|] eqn:Ec; [|done]. cbn [option_map cap_R]. cbn [a_div exact x_div].
  destruct (Req_dec_T c 0) as [E|_]; [by specialize (Hcap c eq_refl)|]. rewrite k_tanh_exact. done.
Qed.

(** The maximum of a block with a valid lane is finite. *)
Lemma block_max e : e = NInf \/ (exists m, e = Fin m) -> exists m, a_max (a_maximum (map scores (seqZ 0 B))) e = Fin m.
Proof using Hq Hk HD HD0 Hcap Hvalid.
  intros He. destruct Hvalid as (n & Hn & Hmn).
  destruct (a_maximum_masked (map scores (seqZ 0 B))) as [[_ Hall]|[z Ez]].
  - intros a (i & -> & Hi%elem_of_seqZ)%list_elem_of_fmap. rewrite scores_exact by lia. destruct (mask_n i); eauto.
  - exfalso. assert (Hin : scores n ∈ map scores (seqZ 0 B)) by (apply list_elem_of_fmap; exists n; split; [done|apply elem_of_seqZ; lia]).
    apply Hall in Hin. by rewrite scores_exact, Hmn in Hin.
  - rewrite Ez. destruct He as [->|[m ->]]; cbn [a_max exact x_max]; eauto.
Qed.

Lemma block_seen s S A : seen D s S A ->
  seen D (block_step t D B (Fin scale) (option_map Fin cap) q true mask_n tiles s)
    (S + Rsum (map (fun n => exp (score n)) valid)) (fun d => A d + Rsum (map (fun n => exp (score n) * vr n d) valid))%R.
Proof using All.
  intros Hs. right.
  change (block_step t D B (Fin scale) (option_map Fin cap) q true mask_n tiles s) with
    (let mx := a_max (a_maximum (map scores (seqZ 0 B))) (e_max s) in
     let r := a_exp (a_sub (e_max s) mx) in
     {| e_max := mx; e_sum := a_add (a_mul (e_sum s) r) (a_sum (map (fun n => a_exp (a_sub (scores n) mx)) (seqZ 0 B)));
        acc := fun c b => a_add (a_mul (acc s c b) r) (a_sum (map (fun n => a_mul (a_cast t (a_exp (a_sub (scores n) mx)))
                                  (a_load (cast_to t (sub_tile (tiles n b).2 c)))) (seqZ 0 B))) |}). cbv zeta.
  destruct (block_max (e_max s)) as [m Em]; [destruct Hs as [(-> & _)|(m & -> & _)]; eauto|].
  exists m. cbn [e_max e_sum acc]. rewrite Em. split; [done|].
  assert (Hp : forall n, 0 <= n < B -> a_exp (a_sub (scores n) (Fin m)) = Fin (if mask_n n then exp (- m) * exp (score n) else 0)%R).
  { intros n Hn. rewrite scores_exact by done. destruct (mask_n n); [|done]. cbn [a_sub a_exp exact x_sub x_exp]. f_equal. rewrite <- exp_plus. f_equal. lra. }
  assert (Hscale : exists r, a_exp (a_sub (e_max s) (Fin m)) = Fin r /\ a_mul (e_sum s) (Fin r) = Fin (exp (- m) * S) /\
    forall c b, 0 <= c < 4 -> 0 <= b < D / 4 -> a_mul (acc s c b) (Fin r) = Fin (exp (- m) * A (4 * b + c)%Z)).
  { destruct Hs as [(E1 & -> & E3 & E4)|(m0 & E1 & E3 & E4)]; rewrite E1, E3.
    - exists 0%R. split; [done|]. split; [cbn; f_equal; lra|]. intros c b Hc Hb. destruct (E4 c b Hc Hb) as [-> ->]. cbn. f_equal. lra.
    - exists (exp (m0 - m)). split; [done|]. assert (Ex : forall x, (exp (- m0) * x * exp (m0 - m) = exp (- m) * x)%R).
      { intros x. replace (exp (- m)) with (exp (- m0) * exp (m0 - m))%R by (rewrite <- exp_plus; f_equal; lra). lra. }
      split; [cbn; f_equal; apply Ex|]. intros c b Hc Hb. rewrite E4 by done. cbn. f_equal. apply Ex. }
  destruct Hscale as (r & Er & E1 & E2). rewrite Er. split.
  - rewrite E1, (a_sum_fin _ (fun n => if mask_n n then exp (- m) * exp (score n) else 0)%R) by (intros n Hn%elem_of_seqZ; apply Hp; lia).
    cbn [a_add exact x_add]. f_equal. rewrite Rsum_filter, Rsum_scale. lra.
  - intros c b Hc Hb. rewrite E2 by done.
    rewrite (a_sum_fin _ (fun n => if mask_n n then exp (- m) * (exp (score n) * vr n (4 * b + c)%Z) else 0)%R).
    + cbn [a_add exact x_add]. f_equal. rewrite Rsum_filter, Rsum_scale. lra.
    + intros n Hn%elem_of_seqZ. rewrite Hp by lia. cbn [a_cast a_load exact]. destruct (mask_n n) eqn:En.
      * rewrite Hv by (done || lia). cbn. f_equal. lra.
      * destruct (Hm n c b ltac:(lia) En Hc Hb) as [x ->]. cbn. f_equal. lra.
Qed.
End block.

(** ** Leaving the first stage, and the second stage *)

Lemma seen_final D s S A : seen D s S A -> (0 < S)%R ->
  (forall c b, 0 <= c < 4 -> 0 <= b < D / 4 -> a_div (acc s c b) (e_sum s) = Fin (A (4 * b + c)%Z / S)) /\
  a_add (e_max s) (a_log (e_sum s)) = Fin (ln S).
Proof.
  intros [(_ & -> & _)|(m & E1 & E2 & E3)] HS; [lra|]. rewrite E1, E2. pose proof (exp_pos (- m)) as He. assert (Hp : (0 < exp (- m) * S)%R) by nra. split.
  - intros c b Hc Hb. rewrite E3 by done. cbn [a_div exact x_div]. destruct (Req_dec_T _ _); [lra|]. f_equal. field. lra.
  - cbn [a_log a_add exact x_log]. destruct (Rlt_dec _ _); [|lra]. cbn [x_add]. f_equal. rewrite ln_mult, ln_exp by lra. lra.
Qed.

(** The state of the second stage over [L] channels. *)
Definition seen2 (L : Z) (s : xr * xr * (Z -> xr)) (S : R) (A : Z -> R) : Prop :=
  let '(em, es, ac) := s in
  (em = NInf /\ S = 0%R /\ es = Fin 0 /\ forall d, 0 <= d < L -> ac d = Fin 0 /\ A d = 0%R) \/
  (exists m, em = Fin m /\ es = Fin (exp (- m) * S) /\ forall d, 0 <= d < L -> ac d = Fin (exp (- m) * A d)).

Lemma seen2_ext L s S S' A A' : S = S' -> (forall d, A d = A' d) -> seen2 L s S A -> seen2 L s S' A'.
Proof.
  destruct s as [[em es] ac]. intros <- EA [(E1 & E2 & E3 & E4)|(m & E1 & E2 & E3)]; [left|right].
  - split_and!; try done. intros d Hd. rewrite <- EA. by apply E4.
  - exists m. split_and!; try done. intros d Hd. rewrite <- EA. by apply E3.
Qed.

Lemma combine_seen L em es ac S A tlogic (tv : Z -> xr) Sj (Aj : Z -> R) : seen2 L (em, es, ac) S A -> (0 < Sj)%R ->
  tlogic = Fin (ln Sj) -> (forall d, 0 <= d < L -> tv d = Fin (Aj d / Sj)) ->
  let mx := a_max tlogic em in
  let old := a_exp (a_sub em mx) in
  let new := a_exp (a_sub tlogic mx) in
  seen2 L (mx, a_add (a_mul es old) new, fun d => a_add (a_mul (ac d) old) (a_mul new (tv d))) (S + Sj) (fun d => A d + Aj d)%R.
Proof.
  intros Hs HSj -> Htv mx old new.
  assert (Hm : exists m, mx = Fin m) by (destruct Hs as [(-> & _)|(m & -> & _)]; cbn; eauto). destruct Hm as [m Em].
  assert (En : new = Fin (exp (- m) * Sj)).
  { unfold new. rewrite Em. cbn. f_equal. replace (ln Sj - m)%R with (- m + ln Sj)%R by lra. by rewrite exp_plus, exp_ln. }
  assert (Ho : exists r, old = Fin r /\ a_mul es (Fin r) = Fin (exp (- m) * S) /\ forall d, 0 <= d < L -> a_mul (ac d) (Fin r) = Fin (exp (- m) * A d)).
  { unfold old. rewrite Em. destruct Hs as [(-> & -> & -> & E4)|(m0 & -> & -> & E4)].
    - exists 0%R. split; [done|]. split; [cbn; f_equal; lra|]. intros d Hd. destruct (E4 d Hd) as [-> ->]. cbn. f_equal. lra.
    - exists (exp (m0 - m)). split; [done|]. assert (Ex : forall x, (exp (- m0) * x * exp (m0 - m) = exp (- m) * x)%R).
      { intros x. replace (exp (- m)) with (exp (- m0) * exp (m0 - m))%R by (rewrite <- exp_plus; f_equal; lra). lra. }
      split; [cbn; f_equal; apply Ex|]. intros d Hd. rewrite E4 by done. cbn. f_equal. apply Ex. }
  destruct Ho as (r & -> & E1 & E2). right. exists m. rewrite Em, En, E1. split; [done|]. split; [cbn; f_equal; lra|].
  intros d Hd. rewrite E2, Htv by done. cbn. f_equal. field. lra.
Qed.
