(* ===== verification/DecodeAttentionProps.v ===== *)
(** * Decode attention computes the reference

    In exact arithmetic, and whatever the order of the programs, the two stages
    of the decode kernel return the attention of [ref_attention] over the
    dequantised cache. *)

From Stdlib Require Import Reals Lra.
From S2P Require Import Prelude Tensors Floats DeviceFloats DeviceFloatsTheory DeviceMemory QuantKernels QuantTheory QuantProps DequantKernels DequantProps Triton KVIndices TriaxialBuffers TriaxialBuffersTheory QuantRoundTrip TriaxialPoolProps TriaxialDecodeProps DecodeAttention OnlineSoftmax.

(** ** The tiles of a block *)

Section tiles.
Context (kv : TriaxialLayerKV) (H D : Z) (Hs : kv_shaped kv H D) (h : Z) (loc : Z -> Z) (mask : Z -> bool).
Notation tiles := (block_tiles kv H D (D / 32) 32 h loc mask).

Lemma block_tiles_valid n b c : 0 <= n < 32 -> mask n = true -> 0 <= c < 4 ->
  sub_tile (tiles n b).1 c = slot_k kv (loc n) h (4 * b + c) /\ sub_tile (tiles n b).2 c = slot_v kv (loc n) h (4 * b + c).
Proof using Hs.
  intros Hn Hm Hc. destruct (shaped_heads kv H D Hs) as [EH ED]. unfold slot_k, slot_v. rewrite EH, ED. unfold block_tiles. cbv zeta.
  assert (Hin : n ∈ seqZ 0 32) by (apply elem_of_seqZ; lia).
  match goal with |- context [zmax ?l] => assert (Hhi : loc n <= zmax l) end.
  { apply zmax_ge, elem_of_lmap. exists n. by rewrite Hm. }
  match goal with |- context [zmin ?l] => assert (Hlo : zmin l <= loc n) end.
  { apply zmin_le, elem_of_lmap. exists n. by rewrite Hm. }
  destruct (Z.ltb_spec (zmax (map (fun n => if mask n then loc n else 0) (seqZ 0 32))) (kv_offset kv)).
  { destruct (Z.ltb_spec (loc n) (kv_offset kv)); [|lia]. cbn [fst snd]. rewrite k2_tile_stored, Hm by done. split; [done|]. by apply v2_tile_stored. }
  destruct (Z.leb_spec (kv_offset kv) (zmin (map (fun n => if mask n then loc n else kv_offset kv) (seqZ 0 32)))).
  { destruct (Z.ltb_spec (loc n) (kv_offset kv)); [lia|]. cbn [fst snd]. rewrite Hm. split; [by apply k4_tile_stored|by apply v4_tile_stored]. }
  destruct (Z.ltb_spec (loc n) (kv_offset kv)) as [Hl|Hl]; cbn [fst snd].
  - assert (E2 : mask n && (loc n <? kv_offset kv) = true) by (rewrite Hm; apply Z.ltb_lt in Hl; by rewrite Hl).
    rewrite k2_tile_stored by done. rewrite Hm. split; [done|]. by apply v2_tile_stored.
  - rewrite Hm. cbn [andb negb]. split; [by apply k4_tile_stored|by apply v4_tile_stored].
Qed.

(** Masked lanes of the value tiles are zero. *)
Lemma block_tiles_masked n b c : mask n = false -> 0 <= c < 4 -> sub_tile (tiles n b).2 c = S754_zero false.
Proof.
  intros Hm Hc. unfold block_tiles. cbv zeta. rewrite Hm. cbn [andb negb].
  assert (Z2 : sub_tile (v2_tiles D (D / 32) H h (elems (v2_data kv)) (elems (v2_meta kv)) (loc n) false b) c = S754_zero false) by (by_residue c; reflexivity).
  assert (Z4 : sub_tile (v4_tiles D (D / 32) H h (elems (v4_data kv)) (elems (v4_meta kv)) (kv_offset kv) (loc n) false b) c = S754_zero false) by (by_residue c; reflexivity).
  destruct (_ <? _); [done|]. destruct (_ <=? _); [done|]. cbn [snd]. by destruct (_ <? _).
Qed.
End tiles.

(** ** One split of one head *)

Section split.
Context (t : dtype) (kv : TriaxialLayerKV) (H D : Z) (Hs : kv_shaped kv H D) (HD : 0 < D).
Context (scale : R) (cap : option R) (Hcap : forall c, cap = Some c -> c <> 0%R).
Context (q : Z -> Z -> xr) (qr : Z -> R) (Hq : forall c b, 0 <= c < 4 -> 0 <= b < D / 4 -> q c b = Fin (qr (4 * b + c))).
Context (h : Z) (slot : Z -> Z).

(** The key and the value of token [j], as the kernel reads them. *)
Definition key_R (j d : Z) : R := sf_R (cast_to t (slot_k kv (slot j) h d)).
Definition val_R (j d : Z) : R := sf_R (cast_to t (slot_v kv (slot j) h d)).
Notation weight j := (exp (score_R D scale cap qr (key_R j))).

Context (start stop : Z).
Context (Hfin : forall j d, start <= j < stop -> 0 <= d < D -> is_finite (cast_to t (slot_k kv (slot j) h d)) = true /\ is_finite (cast_to t (slot_v kv (slot j) h d)) = true).

Lemma x_load_fin x : is_finite x = true -> x_load x = Fin (sf_R x).
Proof. intros E. unfold x_load. by rewrite E. Qed.

Lemma block_seen_split start_n s S A : start <= start_n < stop -> seen D s S A ->
  let mask_n n := start_n + n <? stop in
  let loc n := if mask_n n then slot (start_n + n) else 0 in
  seen D (block_step t D 32 (Fin scale) (option_map Fin cap) q true mask_n (block_tiles kv H D (D / 32) 32 h loc mask_n) s)
    (S + Rsum (map (fun j => weight j) (seqZ start_n (Z.min 32 (stop - start_n)))))
    (fun d => A d + Rsum (map (fun j => weight j * val_R j d) (seqZ start_n (Z.min 32 (stop - start_n)))))%R.
Proof using Hs HD Hcap Hq Hfin.
  intros Hn Hsn mask_n loc. pose proof (sh_dim kv H D Hs) as [H0 Hmod].
  assert (Hv : forall n, 0 <= n < 32 -> mask_n n = true -> loc n = slot (start_n + n) /\ start <= start_n + n < stop).
  { intros n Hn' Hm. unfold loc. rewrite Hm. unfold mask_n in Hm. apply Z.ltb_lt in Hm. split; [done|lia]. }
  eapply seen_ext, (block_seen t D 32 ltac:(dlia) H0 scale cap Hcap q qr Hq mask_n (block_tiles kv H D (D / 32) 32 h loc mask_n)
    (fun n => key_R (start_n + n)) (fun n => val_R (start_n + n))), Hsn.
  - by rewrite <- (valid_lanes 32 start_n stop), map_map by lia.
  - intros d. by rewrite <- (valid_lanes 32 start_n stop), map_map by lia.
  - intros n c b Hn' Hm Hc Hb. destruct (Hv n Hn' Hm) as [El Hr]. destruct (block_tiles_valid kv H D Hs h loc mask_n n b c Hn' Hm Hc) as [-> _].
    rewrite El. apply x_load_fin, Hfin; [done|]. dlia.
  - intros n c b Hn' Hm Hc Hb. destruct (Hv n Hn' Hm) as [El Hr]. destruct (block_tiles_valid kv H D Hs h loc mask_n n b c Hn' Hm Hc) as [_ ->].
    rewrite El. apply x_load_fin, Hfin; [done|]. dlia.
  - intros n c b Hn' Hm Hc Hb. rewrite block_tiles_masked by done. exists 0%R. by destruct t.
  - exists 0. split; [lia|]. unfold mask_n. apply Z.ltb_lt. lia.
Qed.

(** The state after the whole split. *)
Lemma split_seen : start < stop ->
  seen D (split_loop t kv H D (D / 32) 32 (Fin scale) (option_map Fin cap) q true h slot start stop)
    (Rsum (map (fun j => weight j) (seqZ start (stop - start)))) (fun d => Rsum (map (fun j => weight j * val_R j d) (seqZ start (stop - start))))%R.
Proof using Hs HD Hcap Hq Hfin.
  intros Hlt. unfold split_loop, block_starts.
  set (step := fun s start_n => _).
  assert (Hgen : forall i, 0 <= i <= tl_cdiv (stop - start) 32 ->
    seen D (foldl step online_init (map (fun i => start + i * 32) (seqZ 0 i)))
      (Rsum (map (fun j => weight j) (seqZ start (Z.min (i * 32) (stop - start)))))
      (fun d => Rsum (map (fun j => weight j * val_R j d) (seqZ start (Z.min (i * 32) (stop - start)))))%R).
  { intros i [H0 Hi]. revert Hi. pattern i. apply natlike_ind; [intros _|clear i H0; intros i H0 IH Hi|done].
    - eapply seen_ext; [| |apply seen_init]; [|intros d]; rewrite Z.min_l by lia; done.
    - unfold Z.succ in *. rewrite seqZ_snoc, map_app, foldl_app by lia. cbn [map foldl]. rewrite Z.add_0_l.
      assert (Hin : start <= start + i * 32 < stop) by (unfold tl_cdiv in Hi; dlia).
      eapply seen_ext, (block_seen_split (start + i * 32)), IH; [| |done|lia].
      + replace (Z.min ((i + 1) * 32) (stop - start)) with (i * 32 + Z.min 32 (stop - (start + i * 32))) by lia.
        rewrite seqZ_app, map_app, Rsum_app by lia. by rewrite Z.min_l by lia.
      + intros d. replace (Z.min ((i + 1) * 32) (stop - start)) with (i * 32 + Z.min 32 (stop - (start + i * 32))) by lia.
        rewrite seqZ_app, map_app, Rsum_app by lia. by rewrite Z.min_l by lia. }
  eapply seen_ext, (Hgen (tl_cdiv (stop - start) 32)); [| |unfold tl_cdiv; dlia]; [|intros d]; by rewrite Z.min_r by (unfold tl_cdiv; dlia).
Qed.
End split.

(** ** The splits cover the request *)

Lemma split_len len ks : 0 < len -> 0 < ks -> let L := tl_cdiv (tl_cdiv len ks) MIN_BLOCK_KV * MIN_BLOCK_KV in 0 < L /\ len <= L * ks.
Proof.
  intros Hl Hk L. unfold L, tl_cdiv, MIN_BLOCK_KV. set (c := (len + ks - 1) / ks).
  assert (Hc : len <= c * ks) by (unfold c; pose proof (Z.div_mod (len + ks - 1) ks ltac:(lia)); pose proof (Z.mod_pos_bound (len + ks - 1) ks ltac:(lia)); nia).
  assert (H1 : 0 < c) by nia. assert (H2 : c <= (c + 32 - 1) / 32 * 32) by dlia. split; [lia|nia].
Qed.

Section combine.
Context (len ks MS : Z) (Hlen : 0 < len) (Hks : 0 < ks <= MS) (Lv : Z).
Context (w : Z -> R) (Hw : forall j, (0 < w j)%R) (x : Z -> Z -> R) (tlogic : Z -> xr) (tv : Z -> Z -> xr).
(** What the first stage leaves for the splits that hold tokens. *)
Context (Hmid : forall id start stop, 0 <= id < MS -> split_range len ks id = (start, stop) -> start < stop ->
  tlogic id = Fin (ln (Rsum (map w (seqZ start (stop - start))))) /\
  forall d, 0 <= d < Lv -> tv id d = Fin (Rsum (map (fun j => w j * x j d)%R (seqZ start (stop - start))) / Rsum (map w (seqZ start (stop - start))))).

Definition combine_step (s : xr * xr * (Z -> xr)) (id : Z) : xr * xr * (Z -> xr) :=
  let '(em, es, ac) := s in
  let (start, stop) := split_range len ks id in
  if start <? stop then
    let mx := a_max (tlogic id) em in
    let old := a_exp (a_sub em mx) in
    let new := a_exp (a_sub (tlogic id) mx) in
    (mx, a_add (a_mul es old) new, fun d => a_add (a_mul (ac d) old) (a_mul new (tv id d)))
  else s.

Lemma combine_all : seen2 Lv (foldl combine_step (NInf, Fin 0, fun _ => Fin 0) (seqZ 0 MS))
  (Rsum (map w (seqZ 0 len))) (fun d => Rsum (map (fun j => w j * x j d)%R (seqZ 0 len))).
Proof using All.
  destruct (split_len len ks Hlen ltac:(lia)) as [HL Hcov]. set (L := tl_cdiv (tl_cdiv len ks) MIN_BLOCK_KV * MIN_BLOCK_KV) in *.
  assert (Hgen : forall i, 0 <= i <= MS -> seen2 Lv (foldl combine_step (NInf, Fin 0, fun _ => Fin 0) (seqZ 0 i))
    (Rsum (map w (seqZ 0 (Z.min (L * i) len)))) (fun d => Rsum (map (fun j => w j * x j d)%R (seqZ 0 (Z.min (L * i) len))))).
  { intros i [H0 Hi]. revert Hi. pattern i. apply natlike_ind; [intros _|clear i H0; intros i H0 IH Hi|done].
    - left. replace (Z.min (L * 0) len) with 0 by lia. by split_and!.
    - unfold Z.succ in *. rewrite seqZ_snoc, foldl_app by lia. cbn [foldl]. rewrite Z.add_0_l. specialize (IH ltac:(lia)).
      destruct (foldl combine_step _ (seqZ 0 i)) as [[em es] ac]. unfold combine_step at 1.
      destruct (split_range len ks i) as [start stop] eqn:E. pose proof E as E'. unfold split_range in E'. cbv zeta in E'. fold L in E'. injection E' as <- <-.
      destruct (Z.ltb_spec (L * i) (Z.min (L * i + L) len)) as [Hlt|Hge].
      + destruct (Hmid i _ _ ltac:(lia) E Hlt) as [Ht Hd].
        assert (Esz : Z.min (L * (i + 1)) len = Z.min (L * i) len + (Z.min (L * i + L) len - L * i)) by lia.
        eapply seen2_ext, combine_seen; [| |exact IH| |exact Ht|exact Hd].
        * rewrite Esz, seqZ_app, map_app, Rsum_app by lia. by rewrite Z.add_0_l, Z.min_l by lia.
        * intros d. cbv beta. rewrite Esz, seqZ_app, map_app, Rsum_app by lia. by rewrite Z.add_0_l, Z.min_l by lia.
        * apply Rsum_pos; [|intros; apply Hw]. intros En. apply (f_equal length) in En. rewrite length_seqZ in En. simpl in En. lia.
      + replace (Z.min (L * (i + 1)) len) with (Z.min (L * i) len) by lia. exact IH. }
  eapply seen2_ext, (Hgen MS); [| |lia]; [|intros d]; by rewrite Z.min_r by nia.
Qed.
End combine.

(** ** Query heads and key-value heads *)

(** The key-value head that a program reads is the one of each of its query
    heads if the group has at most 16 query heads or a multiple of 16. *)
Lemma kv_head_of group h : 0 < group -> (group <= 16 \/ group mod 16 = 0) -> 0 <= h ->
  program_kv_head group 16 (h / VALID_BLOCK_H group 16) = h / group.
Proof.
  intros Hg Hdiv Hh. unfold program_kv_head, VALID_BLOCK_H, tl_cdiv. destruct (Z.ltb_spec 16 group).
  - assert (exists k, group = 16 * k /\ 0 < k) as (k & -> & Hk) by (exists (group / 16); dlia).
    replace ((16 * k + 16 - 1) / 16) with k by dlia. rewrite Z.div_div by lia. done.
  - replace ((group + 16 - 1) / 16) with 1 by dlia. by rewrite Z.div_1_r.
Qed.

(** C40: The programs of the first stage read the key-value head of each of their
    query heads exactly when there is one key-value head, or the number of query
    heads per key-value head is at most 16 or a multiple of 16; otherwise the
    first query head of the second group is served with the keys and values of
    the first. *)
Theorem programs_read_own_head group H : 0 < group -> 0 < H ->
  (forall h, 0 <= h < group * H -> program_kv_head group 16 (h / VALID_BLOCK_H group 16) = h / group) <->
  group <= 16 \/ group mod 16 = 0 \/ H = 1.
Proof.
  intros Hg HH. split.
  - intros Hall. destruct (Z_le_gt_dec group 16); [by left|]. destruct (Z.eq_dec (group mod 16) 0); [by right; left|].
    right. right. destruct (Z.eq_dec H 1); [done|exfalso]. specialize (Hall group ltac:(nia)).
    unfold program_kv_head, VALID_BLOCK_H, tl_cdiv in Hall. destruct (Z.ltb_spec 16 group); [|lia].
    rewrite Z.div_same in Hall by lia. rewrite Z.div_small in Hall by dlia. lia.
  - intros [Hd|[Hd|Hd]] h Hh; [apply kv_head_of; [done|by left|lia]|apply kv_head_of; [done|by right|lia]|]. subst H.
    rewrite (Z.div_small h group) by lia. unfold program_kv_head, VALID_BLOCK_H, tl_cdiv. destruct (Z.ltb_spec 16 group).
    + apply Z.div_small. dlia.
    + rewrite (Z.div_small h group) by lia. apply Z.div_0_l. dlia.
Qed.

Section launch1.
Context (t : dtype) (kv : TriaxialLayerKV) (H D : Z) (HD : 0 < D) (HD4 : D mod 4 = 0).
Context (Q : mem spec_float) (scale : R) (cap : option R) (kv_indptr kv_indices num_kv_splits : list Z).
Context (bs Hq MS group : Z) (HMS : 0 < MS) (HHq : 0 <= Hq) (Hg : 0 < group) (Hdiv : group <= 16 \/ group mod 16 = 0).
Notation prog := (stage1_kernel t kv H D (D / 32) 32 Q (Fin scale) kv_indptr kv_indices num_kv_splits
  (Hq * D) D (Hq * MS * D) (MS * D) D group Hq 16 (option_map Fin cap)).
Notation V := (VALID_BLOCK_H group 16).

Definition range_of (b sp : Z) : Z * Z :=
  split_range (tl_load kv_indptr (b + 1) - tl_load kv_indptr b) (tl_load num_kv_splits b) sp.

(** The final state of head [h] of request [b] on split [sp]. *)
Definition lane (b h sp : Z) : online xr :=
  split_loop t kv H D (D / 32) 32 (Fin scale) (option_map Fin cap) (fun c bb => a_load (Q (b * (Hq * D) + h * D + 4 * bb + c))) true (h / group)
    (fun j => tl_load kv_indices (tl_load kv_indptr b + j)) (range_of b sp).1 (range_of b sp).2.

Lemma V_pos : 0 < V <= 16.
Proof using Hg. unfold VALID_BLOCK_H. destruct (Z.ltb_spec 16 group); lia. Qed.

(** The heads of a program. *)
Lemma head_mask hid i : 0 <= hid -> 0 <= i < 16 ->
  (hid * V + i <? (hid + 1) * V) && (hid * V + i <? Hq) = true <-> i < V /\ hid * V + i < Hq.
Proof using Hg. intros Hh Hi. rewrite andb_true_iff, !Z.ltb_lt. pose proof V_pos. split; intros [? ?]; split; nia || lia. Qed.

(** What a program of the first stage writes. *)
Lemma stage1_writes b hid sp : 0 <= hid ->
  ((range_of b sp).1 < (range_of b sp).2 ->
    (forall a w, (a, w) ∈ (prog (b, hid, sp)).1 <-> exists i c bb, 0 <= i < V /\ hid * V + i < Hq /\ 0 <= c < 4 /\ 0 <= bb < D / 4 /\
       a = b * (Hq * MS * D) + (hid * V + i) * (MS * D) + sp * D + 4 * bb + c /\ w = a_div (acc (lane b (hid * V + i) sp) c bb) (e_sum (lane b (hid * V + i) sp))) /\
    (forall a w, (a, w) ∈ (prog (b, hid, sp)).2 <-> exists i, 0 <= i < V /\ hid * V + i < Hq /\
       a = (b * (Hq * MS * D) + (hid * V + i) * (MS * D) + sp * D) / D /\ w = a_add (e_max (lane b (hid * V + i) sp)) (a_log (e_sum (lane b (hid * V + i) sp))))) /\
  ((range_of b sp).2 <= (range_of b sp).1 -> prog (b, hid, sp) = ([], [])).
Proof using Hg Hdiv.
  intros Hh. unfold stage1_kernel. cbv zeta. fold V. pose proof V_pos as HV.
  unfold lane, range_of. destruct (split_range _ _ sp) as [start stop]. cbn [fst snd]. split; intros Hr.
  - destruct (Z.ltb_spec start stop); [|lia]. cbn [fst snd].
    assert (Hk : forall i, 0 <= i < V -> program_kv_head group 16 hid = (hid * V + i) / group).
    { intros i Hi. rewrite <- (kv_head_of group (hid * V + i)) by (done || nia). f_equal. apply Z.div_unique with i; lia. }
    split; intros a w.
    + rewrite elem_of_flat_map. split.
      * intros (c & Hc%elem_of_seqZ & Hin). apply elem_of_flat_map in Hin as (i & Hi & (bb & Hb%elem_of_seqZ & E)%elem_of_lmap).
        apply elem_of_filter_b in Hi as [Hi%elem_of_seqZ Hm]. pose proof Hm as [H1 H2]%head_mask; [|lia|lia].
        exists i, c, bb. rewrite Hm in E. rewrite (Hk i) in E by lia. apply pair_equal_spec in E as [-> ->]. repeat split; lia || done.
      * intros (i & c & bb & Hi & Hi2 & Hc & Hb & -> & ->). exists c. split; [apply elem_of_seqZ; lia|]. apply elem_of_flat_map. exists i.
        assert (Hm : (hid * V + i <? (hid + 1) * V) && (hid * V + i <? Hq) = true) by (apply head_mask; lia).
        split; [apply elem_of_filter_b; split; [apply elem_of_seqZ; lia|done]|]. apply elem_of_lmap. exists bb. split; [apply elem_of_seqZ; lia|].
        rewrite Hm, (Hk i) by lia. done.
    + rewrite elem_of_lmap. split.
      * intros (i & Hi & E). apply elem_of_filter_b in Hi as [Hi%elem_of_seqZ Hm]. pose proof Hm as [H1 H2]%head_mask; [|lia|lia].
        exists i. rewrite Hm in E. rewrite (Hk i) in E by lia. apply pair_equal_spec in E as [-> ->]. repeat split; lia || done.
      * intros (i & Hi & Hi2 & -> & ->). exists i.
        assert (Hm : (hid * V + i <? (hid + 1) * V) && (hid * V + i <? Hq) = true) by (apply head_mask; lia).
        split; [apply elem_of_filter_b; split; [apply elem_of_seqZ; lia|done]|]. rewrite Hm, (Hk i) by lia. done.
  - destruct (Z.ltb_spec start stop); [lia|done].
Qed.

Lemma elem_of_grid3 n m l p q r : (p, q, r) ∈ grid3 n m l <-> 0 <= p < n /\ 0 <= q < m /\ 0 <= r < l.
Proof.
  unfold grid3. rewrite elem_of_flat_map. split.
  - intros ([x y] & Hxy%elem_of_grid2 & (z & Hz%elem_of_seqZ & [= -> -> ->])%elem_of_lmap). lia.
  - intros (Hp & Hq' & Hr). exists (p, q). split; [by apply elem_of_grid2|]. apply elem_of_lmap. exists r. split; [apply elem_of_seqZ; lia|done].
Qed.

Lemma V_min : V = Z.min 16 group.
Proof using Hg. unfold VALID_BLOCK_H. destruct (Z.ltb_spec 16 group); lia. Qed.

Context (order : list (Z * Z * Z)) (Horder : order ≡ₚ stage1_grid bs Hq group MS).

(** The program and the lane of a head. *)
Lemma head_program h : 0 <= h < Hq -> 0 <= h / V < tl_cdiv Hq (Z.min 16 group) /\ 0 <= h mod V < V /\ h / V * V + h mod V = h.
Proof using Hg HHq.
  intros Hh. rewrite <- V_min. pose proof V_pos as HV. pose proof (Z.mod_pos_bound h V ltac:(lia)). pose proof (Z.div_mod h V ltac:(lia)).
  split; [|lia]. split; [apply Z.div_pos; lia|]. unfold tl_cdiv. apply Z.div_lt_upper_bound; [lia|].
  pose proof (Z.div_mod (Hq + V - 1) V ltac:(lia)). pose proof (Z.mod_pos_bound (Hq + V - 1) V ltac:(lia)). nia.
Qed.

Lemma cell_unique b h sp d b' h' sp' d' : 0 <= h < Hq -> 0 <= h' < Hq -> 0 <= sp < MS -> 0 <= sp' < MS -> 0 <= d < D -> 0 <= d' < D ->
  b * (Hq * MS * D) + h * (MS * D) + sp * D + d = b' * (Hq * MS * D) + h' * (MS * D) + sp' * D + d' -> b = b' /\ h = h' /\ sp = sp' /\ d = d'.
Proof.
  intros H1 H2 H3 H4 H5 H6 E.
  assert (E' : ((b * Hq + h) * MS + sp) * D + d = ((b' * Hq + h') * MS + sp') * D + d') by lia.
  apply offset_inj in E' as [E' ->]; [|done..]. apply offset_inj in E' as [E' ->]; [|done..]. apply offset_inj in E' as [-> ->]; done.
Qed.

Section cell.
Context (b h sp : Z) (Hb : 0 <= b < bs) (Hh : 0 <= h < Hq) (Hsp : 0 <= sp < MS) (Hr : (range_of b sp).1 < (range_of b sp).2).

Lemma stage1_out m c bb : 0 <= c < 4 -> 0 <= bb < D / 4 ->
  apply_writes m (flat_map (fun p => (prog p).1) order) (b * (Hq * MS * D) + h * (MS * D) + sp * D + (4 * bb + c)) =
  a_div (acc (lane b h sp) c bb) (e_sum (lane b h sp)).
Proof using All.
  intros Hc Hbb. destruct (head_program h Hh) as (G1 & G2 & G3).
  apply (launch_cell (fun p => (prog p).1) m order (stage1_grid bs Hq group MS)); [done| |].
  - exists (b, h / V, sp). split; [by apply elem_of_grid3|]. destruct (stage1_writes b (h / V) sp ltac:(lia)) as [Hw _].
    apply (proj1 (Hw Hr)). exists (h mod V), c, bb. rewrite G3. repeat split; lia || done.
  - intros [[b' hid] sp'] w [Hb' [Hh' Hs']]%elem_of_grid3 Hin. destruct (stage1_writes b' hid sp' ltac:(lia)) as [Hw Hn].
    destruct (Z_lt_le_dec (range_of b' sp').1 (range_of b' sp').2) as [Hr'|Hr']; [|rewrite (Hn Hr') in Hin; cbn [fst snd] in Hin; by apply elem_of_nil in Hin].
    apply (proj1 (Hw Hr')) in Hin as (i & c' & bb' & Hi & Hi2 & Hc' & Hb2 & Ea & ->). rewrite <- (Z.add_assoc _ (4 * bb') c') in Ea.
    apply cell_unique in Ea as (-> & Eh & -> & Ed); [|nia|nia|lia|lia|dlia|dlia].
    assert (bb' = bb /\ c' = c) as [-> ->] by lia. by rewrite <- Eh.
Qed.

Lemma stage1_lse m : apply_writes m (flat_map (fun p => (prog p).2) order) ((b * Hq + h) * MS + sp) =
  a_add (e_max (lane b h sp)) (a_log (e_sum (lane b h sp))).
Proof using All.
  destruct (head_program h Hh) as (G1 & G2 & G3).
  assert (Hdiv' : forall b h sp, (b * (Hq * MS * D) + h * (MS * D) + sp * D) / D = (b * Hq + h) * MS + sp).
  { intros x y z. replace (x * (Hq * MS * D) + y * (MS * D) + z * D) with (((x * Hq + y) * MS + z) * D) by lia. apply Z.div_mul. lia. }
  apply (launch_cell (fun p => (prog p).2) m order (stage1_grid bs Hq group MS)); [done| |].
  - exists (b, h / V, sp). split; [by apply elem_of_grid3|]. destruct (stage1_writes b (h / V) sp ltac:(lia)) as [Hw _].
    apply (proj2 (Hw Hr)). exists (h mod V). rewrite G3, Hdiv'. repeat split; lia || done.
  - intros [[b' hid] sp'] w [Hb' [Hh' Hs']]%elem_of_grid3 Hin. destruct (stage1_writes b' hid sp' ltac:(lia)) as [Hw Hn].
    destruct (Z_lt_le_dec (range_of b' sp').1 (range_of b' sp').2) as [Hr'|Hr']; [|rewrite (Hn Hr') in Hin; cbn [fst snd] in Hin; by apply elem_of_nil in Hin].
    apply (proj2 (Hw Hr')) in Hin as (i & Hi & Hi2 & Ea & ->). rewrite Hdiv' in Ea.
    apply offset_inj in Ea as [Ea ->]; [|done..]. apply offset_inj in Ea as [-> <-]; [done|done|nia].
Qed.
End cell.
End launch1.

(** ** The reference in exact arithmetic *)

Lemma zip_with_map_self {A B C} (f : B -> A -> C) (g : A -> B) l : zip_with f (map g l) l = map (fun x => f (g x) x) l.
Proof. induction l as [|x l IH]; [done|]. simpl. by rewrite IH. Qed.

(** [softmax] weights and the weighted sum of finite scores and values. *)
Lemma softmax_exact (s v : Z -> R) rows : rows <> [] ->
  a_sum (zip_with (fun p n => a_mul p (Fin (v n))) (softmax (map (fun n => Fin (s n)) rows)) rows) =
  Fin (Rsum (map (fun n => exp (s n) * v n)%R rows) / Rsum (map (fun n => exp (s n)) rows)).
Proof.
  intros Hne. unfold softmax. cbv zeta.
  destruct (a_maximum_masked (map (fun n => Fin (s n)) rows)) as [[_ Hall]|[m ->]].
  { intros a (n & _ & ->)%elem_of_lmap. eauto. }
  { exfalso. destruct rows as [|n rows]; [done|]. by specialize (Hall (Fin (s n)) ltac:(left)). }
  rewrite !map_map. set (S := Rsum (map (fun n => exp (s n)) rows)).
  assert (HS : (0 < S)%R) by (apply Rsum_pos; [done|intros; apply exp_pos]).
  assert (Es : a_sum (map (fun n => a_exp (a_sub (Fin (s n)) (Fin m))) rows) = Fin (exp (- m) * S)).
  { rewrite (a_sum_fin _ (fun n => exp (- m) * exp (s n))%R) by (intros n _; cbn; f_equal; rewrite <- exp_plus; f_equal; lra). by rewrite Rsum_scale. }
  rewrite Es, zip_with_map_self. pose proof (exp_pos (- m)) as He. assert (Hp : (exp (- m) * S <> 0)%R) by nra.
  rewrite (a_sum_fin _ (fun n => / S * (exp (s n) * v n))%R).
  - f_equal. rewrite Rsum_scale. field. lra.
  - intros n _. cbn [a_mul a_div a_exp a_sub exact x_sub x_exp x_div]. destruct (Req_dec_T _ _); [done|]. cbn [x_mul]. f_equal.
    replace (exp (s n - m)) with (exp (- m) * exp (s n))%R by (rewrite <- exp_plus; f_equal; lra). field. lra.
Qed.

(** ** The property *)

(** Key and value [n] of the reference gather, rounded to the type of the queries. *)
Definition gathered (t : dtype) (l : list (list (list spec_float))) (n h d : Z) : xr :=
  match get3 l n h d with Some x => a_load (cast_to t x) | None => a_zero end.

Record decode_wf (t : dtype) (kv : TriaxialLayerKV) (H D bs Hq MS : Z) (q : tensor spec_float) (o logits : tensor xr)
    (kv_indptr kv_indices num_kv_splits : list Z) : Prop := {
  dw_kv : kv_shaped kv H D; dw_D : 0 < D; dw_H : 0 < H;
  dw_q : shape q = [bs; Hq; D]; dw_o : shape o = [bs; Hq; D]; dw_logits : exists B, shape logits = [B; Hq; MS; D] /\ bs <= B;
  dw_group : exists group, Hq = group * H /\ 0 < group /\ (group <= 16 \/ group mod 16 = 0);
  dw_ptr_len : bs <= zlen kv_indptr - 1;
  dw_ptr : forall b, 0 <= b < bs -> 0 <= tget kv_indptr b < tget kv_indptr (b + 1) /\ tget kv_indptr (b + 1) <= zlen kv_indices;
  dw_splits : forall b, 0 <= b < bs -> 0 < tget num_kv_splits b <= MS;
  dw_fin_q : forall b h d, 0 <= b < bs -> 0 <= h < Hq -> 0 <= d < D -> is_finite (at_ q [b; h; d]) = true;
  dw_fin_kv : forall n h d, 0 <= n < zlen kv_indices -> 0 <= h < H -> 0 <= d < D ->
    is_finite (cast_to t (slot_k kv (tget kv_indices n) h d)) = true /\ is_finite (cast_to t (slot_v kv (tget kv_indices n) h d)) = true
}.

Section exact_attention.
Context (t : dtype) (kv : TriaxialLayerKV) (H D bs Hq MS : Z) (q : tensor spec_float) (o logits lse : tensor xr) (kv_indptr kv_indices num_kv_splits : list Z).
Context (Hwf : decode_wf t kv H D bs Hq MS q o logits kv_indptr kv_indices num_kv_splits).
Context (scale : R) (cap : option R) (Hcap : forall c, cap = Some c -> c <> 0%R).

Lemma gathered_k n h d : 0 <= n < zlen kv_indices -> 0 <= h < H -> 0 <= d < D ->
  gathered t (ref_dequant_gather kv_indices kv).1 n h d = Fin (sf_R (cast_to t (slot_k kv (tget kv_indices n) h d))) /\
  gathered t (ref_dequant_gather kv_indices kv).2 n h d = Fin (sf_R (cast_to t (slot_v kv (tget kv_indices n) h d))).
Proof using Hwf.
  intros Hn Hh Hd. pose proof (dw_kv _ _ _ _ _ _ _ _ _ _ _ _ _ Hwf) as Hs. destruct (shaped_heads kv H D Hs) as [EH ED].
  unfold gathered, ref_dequant_gather. rewrite EH. cbn [fst snd]. rewrite !get3_map by done.
  rewrite (ref_gather_k_slot kv H D), (ref_gather_v_slot kv H D), !tabulate_get by done.
  destruct (dw_fin_kv _ _ _ _ _ _ _ _ _ _ _ _ _ Hwf n h d Hn Hh Hd) as [F1 F2]. cbn [a_load exact]. by rewrite !x_load_fin.
Qed.

Context (group : Z) (Egroup : Hq = group * H) (Hg : 0 < group) (Hdiv : group <= 16 \/ group mod 16 = 0).

(** Request [b]: its first position, its length, and the query of its head [h]. *)
Definition lo (b : Z) : Z := tget kv_indptr b.
Definition len (b : Z) : Z := tget kv_indptr (b + 1) - tget kv_indptr b.
Definition slot_at (b j : Z) : Z := tl_load kv_indices (lo b + j).
Definition query_R (b h d : Z) : R := sf_R (at_ q [b; h; d]).
Notation w b h j := (exp (score_R D scale cap (query_R b h) (key_R t kv (h / group) (slot_at b) j))).
Notation x b h := (val_R t kv (h / group) (slot_at b)).
Notation lane_ := (lane t kv H D (elems q) scale cap kv_indptr kv_indices num_kv_splits Hq group).

Lemma at_q b h d : at_ q [b; h; d] = elems q (b * (Hq * D) + h * D + d).
Proof using Hwf. unfold at_. rewrite (dw_q _ _ _ _ _ _ _ _ _ _ _ _ _ Hwf). simpl. f_equal. lia. Qed.

Lemma kv_head_range h : 0 <= h < Hq -> 0 <= h / group < H.
Proof using Hwf Egroup Hg. intros Hh. rewrite Egroup in Hh. split; [apply Z.div_pos; lia|apply Z.div_lt_upper_bound; lia]. Qed.

Lemma slot_at_tget b j : 0 <= b < bs -> 0 <= j < len b -> slot_at b j = tget kv_indices (lo b + j) /\ 0 <= lo b + j < zlen kv_indices.
Proof using Hwf Hg.
  intros Hb Hj. destruct (dw_ptr _ _ _ _ _ _ _ _ _ _ _ _ _ Hwf b Hb) as [H1 H2]. unfold slot_at, lo, len in *. rewrite tl_load_tget by lia. split; [done|lia].
Qed.

Lemma range_facts b sp : 0 <= b < bs -> 0 <= sp -> range_of kv_indptr num_kv_splits b sp = split_range (len b) (tget num_kv_splits b) sp /\
  0 <= (range_of kv_indptr num_kv_splits b sp).1 /\ (range_of kv_indptr num_kv_splits b sp).2 <= len b.
Proof using Hwf Hg.
  intros Hb Hsp. unfold range_of, len. rewrite !tl_load_tget by lia. split; [done|]. unfold split_range. cbv zeta. cbn [fst snd].
  destruct (dw_ptr _ _ _ _ _ _ _ _ _ _ _ _ _ Hwf b Hb) as [H1 H2]. pose proof (dw_splits _ _ _ _ _ _ _ _ _ _ _ _ _ Hwf b Hb).
  destruct (split_len (tget kv_indptr (b + 1) - tget kv_indptr b) (tget num_kv_splits b) ltac:(lia) ltac:(lia)) as [HL _]. split; [nia|lia].
Qed.

(** What a head leaves for the second stage after a split that holds tokens. *)
Lemma lane_final b h sp start stop : 0 <= b < bs -> 0 <= h < Hq -> 0 <= sp -> split_range (len b) (tget num_kv_splits b) sp = (start, stop) -> start < stop ->
  (forall c bb, 0 <= c < 4 -> 0 <= bb < D / 4 -> a_div (acc (lane_ b h sp) c bb) (e_sum (lane_ b h sp)) =
     Fin (Rsum (map (fun j => w b h j * x b h j (4 * bb + c)%Z)%R (seqZ start (stop - start))) / Rsum (map (fun j => w b h j) (seqZ start (stop - start))))) /\
  a_add (e_max (lane_ b h sp)) (a_log (e_sum (lane_ b h sp))) = Fin (ln (Rsum (map (fun j => w b h j) (seqZ start (stop - start))))).
Proof using Hwf Hcap Egroup Hg.
  intros Hb Hh Hsp Er Hlt. pose proof (dw_kv _ _ _ _ _ _ _ _ _ _ _ _ _ Hwf) as Hs. pose proof (dw_D _ _ _ _ _ _ _ _ _ _ _ _ _ Hwf) as HD.
  destruct (range_facts b sp Hb Hsp) as (E & R1 & R2). rewrite E, Er in R1, R2. cbn [fst snd] in R1, R2.
  unfold lane. rewrite E, Er. cbn [fst snd]. rewrite tl_load_tget by lia. fold (lo b).
  apply (seen_final D _ (Rsum (map (fun j => w b h j) (seqZ start (stop - start))))
    (fun d => Rsum (map (fun j => w b h j * x b h j d)%R (seqZ start (stop - start))))).
  2: { apply Rsum_pos; [|intros; apply exp_pos]. intros En. apply (f_equal length) in En. rewrite length_seqZ in En. simpl in En. lia. }
  apply (split_seen t kv H D Hs HD scale cap Hcap _ (query_R b h)); [| |done].
  - intros c bb Hc Hbb. cbn [a_load exact]. unfold query_R. rewrite at_q.
    replace (b * (Hq * D) + h * D + 4 * bb + c) with (b * (Hq * D) + h * D + (4 * bb + c)) by lia. apply x_load_fin. rewrite <- at_q.
    apply (dw_fin_q _ _ _ _ _ _ _ _ _ _ _ _ _ Hwf); [done|done|dlia].
  - intros j d Hj Hd. fold (slot_at b j). destruct (slot_at_tget b j Hb ltac:(lia)) as [-> Hn].
    apply (dw_fin_kv _ _ _ _ _ _ _ _ _ _ _ _ _ Hwf); [done|by apply kv_head_range|done].
Qed.

(** The reference in exact arithmetic. *)
Lemma ref_exact b h d : 0 <= b < bs -> 0 <= h < Hq -> 0 <= d < D ->
  ref_attention Hq H D (fun b h d => a_load (at_ q [b; h; d])) (gathered t (ref_dequant_gather kv_indices kv).1)
    (gathered t (ref_dequant_gather kv_indices kv).2) kv_indptr (Fin scale) (option_map Fin cap) b h d =
  Fin (Rsum (map (fun j => w b h j * x b h j d)%R (seqZ 0 (len b))) / Rsum (map (fun j => w b h j) (seqZ 0 (len b)))).
Proof using Hwf Hcap Egroup Hg.
  intros Hb Hh Hd. pose proof (dw_H _ _ _ _ _ _ _ _ _ _ _ _ _ Hwf) as HH. destruct (dw_ptr _ _ _ _ _ _ _ _ _ _ _ _ _ Hwf b Hb) as [P1 P2].
  unfold ref_attention. cbv zeta. assert (Eg : Hq / H = group) by (rewrite Egroup; apply Z.div_mul; lia). rewrite Eg. fold (lo b). change (tget kv_indptr (b + 1) - lo b) with (len b).
  pose proof (kv_head_range h Hh) as Hkh.
  assert (Erows : seqZ (lo b) (len b) = map (fun j => lo b + j) (seqZ 0 (len b))) by (rewrite (fmap_add_seqZ (lo b) 0); f_equal; lia).
  set (rows := seqZ (lo b) (len b)).
  assert (Hrow : forall n, n ∈ rows -> 0 <= n < zlen kv_indices /\ slot_at b (n - lo b) = tget kv_indices n).
  { intros n Hn%elem_of_seqZ. destruct (slot_at_tget b (n - lo b) Hb ltac:(lia)) as [-> Hr]. by replace (lo b + (n - lo b)) with n in * by lia. }
  assert (Hscore : forall n, n ∈ rows ->
    (let s := a_mul (a_sum (map (fun d => a_mul (a_load (at_ q [b; h; d])) (gathered t (ref_dequant_gather kv_indices kv).1 n (h / group) d)) (seqZ 0 D))) (Fin scale) in
     match option_map Fin cap with Some cap => a_mul cap (a_tanh (a_div s cap)) | None => s end) =
    Fin (score_R D scale cap (query_R b h) (key_R t kv (h / group) (slot_at b) (n - lo b)))).
  { intros n Hn. destruct (Hrow n Hn) as [Hr Es]. cbv zeta.
    rewrite (a_sum_fin _ (fun d => query_R b h d * key_R t kv (h / group) (slot_at b) (n - lo b) d)%R).
    - unfold score_R. cbn [a_mul exact x_mul]. destruct cap as [c|] eqn:Ec; [|done]. cbn [option_map cap_R a_div exact x_div].
      destruct (Req_dec_T c 0) as [E|_]; [by specialize (Hcap c eq_refl)|]. done.
    - intros e He%elem_of_seqZ. destruct (gathered_k n (h / group) e Hr Hkh ltac:(lia)) as [-> _].
      cbn [a_load exact]. rewrite x_load_fin by (apply (dw_fin_q _ _ _ _ _ _ _ _ _ _ _ _ _ Hwf); done || lia).
      unfold key_R. rewrite Es. done. }
  cbv zeta in Hscore. rewrite (map_ext_in _ _ rows (fun n Hn => Hscore n (proj2 (list_elem_of_In _ _) Hn))).
  assert (Hv : zip_with (fun p n => a_mul p (gathered t (ref_dequant_gather kv_indices kv).2 n (h / group) d))
      (softmax (map (fun n => Fin (score_R D scale cap (query_R b h) (key_R t kv (h / group) (slot_at b) (n - lo b)))) rows)) rows =
    zip_with (fun p n => a_mul p (Fin (x b h (n - lo b) d)))
      (softmax (map (fun n => Fin (score_R D scale cap (query_R b h) (key_R t kv (h / group) (slot_at b) (n - lo b)))) rows)) rows).
  { unfold softmax. cbv zeta. rewrite !map_map, !zip_with_map_self. apply map_ext_in. intros n Hn%list_elem_of_In.
    destruct (Hrow n Hn) as [Hr Es]. destruct (gathered_k n (h / group) d Hr Hkh Hd) as [_ ->]. unfold val_R. by rewrite Es. }
  rewrite Hv, softmax_exact.
  - subst rows. rewrite Erows, !map_map. apply (f_equal Fin), (f_equal2 Rdiv); apply Rsum_ext; intros j _; by replace (lo b + j - lo b) with j by lia.
  - subst rows. intros En. apply (f_equal length) in En. rewrite length_seqZ in En. unfold len in En. simpl in En. lia.
Qed.

Context (order1 : list (Z * Z * Z)) (order2 : list (Z * Z)).
Context (Ho1 : order1 ≡ₚ stage1_grid bs Hq group MS) (Ho2 : order2 ≡ₚ stage2_grid bs Hq).
Notation prog1 := (stage1_kernel t kv H D (D / 32) 32 (elems q) (Fin scale) kv_indptr kv_indices num_kv_splits
  (Hq * D) D (Hq * MS * D) (MS * D) D group Hq 16 (option_map Fin cap)).

(** The second stage of one head, over what the first stage left. *)
Lemma stage2_head b h m1 m2 : 0 <= b < bs -> 0 <= h < Hq ->
  exists ac, stage2_kernel t (apply_writes m1 (flat_map (fun p => (prog1 p).1) order1)) (apply_writes m2 (flat_map (fun p => (prog1 p).2) order1))
      kv_indptr num_kv_splits (Hq * MS * D) (MS * D) D (Hq * D) D MS D (b, h) = map (fun d => (b * (Hq * D) + h * D + d, ac d)) (seqZ 0 D) /\
    forall d, 0 <= d < D -> ac d = Fin (Rsum (map (fun j => w b h j * x b h j d)%R (seqZ 0 (len b))) / Rsum (map (fun j => w b h j) (seqZ 0 (len b)))).
Proof using All.
  intros Hb Hh. pose proof (dw_D _ _ _ _ _ _ _ _ _ _ _ _ _ Hwf) as HD. pose proof (dw_splits _ _ _ _ _ _ _ _ _ _ _ _ _ Hwf b Hb) as Hsp.
  destruct (dw_ptr _ _ _ _ _ _ _ _ _ _ _ _ _ Hwf b Hb) as [P1 P2]. destruct (sh_dim kv H D (dw_kv _ _ _ _ _ _ _ _ _ _ _ _ _ Hwf)) as [_ Hmod].
  set (M1 := apply_writes m1 _). set (M2 := apply_writes m2 _).
  set (tl := fun sp => M2 ((b * (Hq * MS * D) + h * (MS * D)) / D + sp * D / D)).
  set (tv := fun sp d => M1 (b * (Hq * MS * D) + h * (MS * D) + d + sp * D)).
  pose proof (combine_all (len b) (tget num_kv_splits b) MS ltac:(unfold len; lia) Hsp D (fun j => w b h j) (fun j => exp_pos _) (fun j d => x b h j d) tl tv) as Hall.
  unfold stage2_kernel. cbv zeta. rewrite !tl_load_tget by lia. fold (lo b). change (tget kv_indptr (b + 1) - lo b) with (len b).
  change (fun (s : xr * xr * (Z -> xr)) split_kv_id => _) with (combine_step (len b) (tget num_kv_splits b) tl tv).
  change (a_ninf, a_zero, fun _ : Z => a_zero) with (NInf, Fin 0, fun _ : Z => Fin 0).
  destruct (foldl _ _ (seqZ 0 MS)) as [[em es] ac]. exists (fun d => a_cast t (a_div (ac d) es)). split; [done|]. intros d Hd.
  assert (HS : (0 < Rsum (map (fun j => w b h j) (seqZ 0 (len b))))%R).
  { apply Rsum_pos; [|intros; apply exp_pos]. intros En. apply (f_equal length) in En. rewrite length_seqZ in En. unfold len in En. simpl in En. lia. }
  destruct Hall as [(_ & E & _)|(m & _ & -> & Hac)]; [|lra|].
  - intros sp start stop Hspr Er Hlt. destruct (range_facts b sp Hb ltac:(lia)) as (Erg & _).
    assert (Hr : (range_of kv_indptr num_kv_splits b sp).1 < (range_of kv_indptr num_kv_splits b sp).2) by (by rewrite Erg, Er).
    destruct (lane_final b h sp start stop Hb Hh ltac:(lia) Er Hlt) as [Hacc Hlse]. split.
    + unfold tl. replace (b * (Hq * MS * D) + h * (MS * D)) with ((b * Hq + h) * MS * D) by lia. rewrite !Z.div_mul by lia.
      unfold M2. rewrite (stage1_lse t kv H D HD ltac:(dlia) (elems q) scale cap kv_indptr kv_indices num_kv_splits bs Hq MS group ltac:(lia) ltac:(lia) Hg Hdiv order1 Ho1 b h sp Hb Hh Hspr Hr).
      exact Hlse.
    + intros e He. unfold tv, M1.
      replace (b * (Hq * MS * D) + h * (MS * D) + e + sp * D) with (b * (Hq * MS * D) + h * (MS * D) + sp * D + (4 * (e / 4) + e mod 4)) by dlia.
      rewrite (stage1_out t kv H D HD ltac:(dlia) (elems q) scale cap kv_indptr kv_indices num_kv_splits bs Hq MS group ltac:(lia) ltac:(lia) Hg Hdiv order1 Ho1 b h sp Hb Hh Hspr Hr) by dlia.
      rewrite Hacc by dlia. by replace (4 * (e / 4) + e mod 4) with e by dlia.
  - rewrite Hac by done. cbn [a_cast a_div exact x_div]. pose proof (exp_pos (- m)) as He. destruct (Req_dec_T _ _); [nra|]. f_equal. field. lra.
Qed.
End exact_attention.

(** The cells of the output. *)
Lemma attention_cells t kv H D bs Hq MS q o logits lse kv_indptr kv_indices num_kv_splits scale cap order1 order2 :
  decode_wf t kv H D bs Hq MS q o logits kv_indptr kv_indices num_kv_splits -> (forall c, cap = Some c -> c <> 0%R) ->
  order1 ≡ₚ stage1_grid bs Hq (Hq / H) MS -> order2 ≡ₚ stage2_grid bs Hq ->
  exists o', decode_attention_fwd_mixed order1 order2 t q kv o kv_indptr kv_indices logits lse num_kv_splits MS (Fin scale) (option_map Fin cap) = Ok o' /\ shape o' = shape o /\
    forall b h d, 0 <= b < bs -> 0 <= h < Hq -> 0 <= d < D ->
      at_ o' [b; h; d] = ref_attention Hq H D (fun b h d => a_load (at_ q [b; h; d])) (gathered t (ref_dequant_gather kv_indices kv).1)
        (gathered t (ref_dequant_gather kv_indices kv).2) kv_indptr (Fin scale) (option_map Fin cap) b h d /\
      exists r, at_ o' [b; h; d] = Fin r.
Proof.
  intros Hwf Hcap Ho1 Ho2. destruct (dw_group _ _ _ _ _ _ _ _ _ _ _ _ _ Hwf) as (group & Eg & Hg & Hdiv).
  pose proof Hwf as [Hs HD HH Eq Eo (B & El & HB) _ Hpl Hp Hsp Hfq Hfkv]. destruct (shaped_heads kv H D Hs) as [EH ED].
  assert (Egr : Hq / H = group) by (rewrite Eg; apply Z.div_mul; lia). rewrite Egr in Ho1.
  unfold decode_attention_fwd_mixed, decode_grouped_att_m_fwd_mixed. unfold dim. rewrite EH, ED, Eq, Eo, El. cbn [lookup_total list_lookup_total].
  rewrite Egr. replace (group * H =? Hq) with true by (symmetry; apply Z.eqb_eq; lia).
  rewrite !Z.eqb_refl, (proj2 (Z.leb_le _ _) Hpl), (proj2 (Z.leb_le _ _) HB), bool_decide_true by done. cbn [andb rassert rbind].
  eexists. split; [reflexivity|]. split; [done|]. intros b h d Hb Hh Hd. rewrite (at_row3 _ Hq D) by (cbn [with_elems shape]; by rewrite Eo). cbn [with_elems elems].
  unfold decode_softmax_reducev_fwd, dim. rewrite Eq, El. cbn [lookup_total list_lookup_total].
  rewrite !(launch_flat (fun p => (stage1_kernel _ _ _ _ _ _ _ _ _ _ _ _ _ _ _ _ _ _ _ _ p).1)), !(launch_flat (fun p => (stage1_kernel _ _ _ _ _ _ _ _ _ _ _ _ _ _ _ _ _ _ _ _ p).2)).
  rewrite launch_flat. change G with 32.
  pose proof (fun b h m1 m2 => stage2_head t kv H D bs Hq MS q o logits lse kv_indptr kv_indices num_kv_splits Hwf scale cap Hcap group Eg Hg Hdiv order1 order2 Ho1 Ho2 b h m1 m2) as Hhead.
  match goal with |- apply_writes ?m (flat_map ?prog order2) ?a = _ /\ _ => assert (Hcell : apply_writes m (flat_map prog order2) a =
    ref_attention Hq H D (fun b h d => a_load (at_ q [b; h; d])) (gathered t (ref_dequant_gather kv_indices kv).1)
      (gathered t (ref_dequant_gather kv_indices kv).2) kv_indptr (Fin scale) (option_map Fin cap) b h d) end.
  { rewrite (ref_exact t kv H D bs Hq MS q o logits kv_indptr kv_indices num_kv_splits Hwf scale cap Hcap group Eg Hg b h d Hb Hh Hd).
    apply (launch_cell _ _ order2 (stage2_grid bs Hq)); [done| |].
    - exists (b, h). split; [by apply elem_of_grid2|]. destruct (Hhead b h (elems logits) (elems lse) Hb Hh) as (ac & E & Hac). 
      cbv beta. rewrite E. apply elem_of_lmap. exists d. split; [apply elem_of_seqZ; lia|]. rewrite Hac by done. f_equal. lia.
    - intros [b' h'] v [Hb' Hh']%elem_of_grid2 Hin. destruct (Hhead b' h' (elems logits) (elems lse) Hb' Hh') as (ac & E & Hac). 
      cbv beta in Hin. rewrite E in Hin. apply elem_of_lmap in Hin as (d' & Hd'%elem_of_seqZ & Ea). apply pair_equal_spec in Ea as [Ea ->].
      assert (Ea' : (b * Hq + h) * D + d = (b' * Hq + h') * D + d') by lia.
      apply offset_inj in Ea' as [Ea' <-]; [|done|lia]. apply offset_inj in Ea' as [<- <-]; [|done|done]. by apply Hac. }
  split; [exact Hcell|]. rewrite Hcell.
  rewrite (ref_exact t kv H D bs Hq MS q o logits kv_indptr kv_indices num_kv_splits Hwf scale cap Hcap group Eg Hg b h d Hb Hh Hd). eauto.
Qed.

(** C5: In exact arithmetic the decode kernels compute the reference attention:
    for every request, query head and channel, the split-KV first stage over the
    packed INT2 and INT4 cache followed by the combining second stage gives the
    softmax-weighted sum of [ref_attention] over the keys and values of
    [ref_dequant_gather], rounded to the type of the queries, whatever the number
    of splits up to the maximum, the mix of slots in a block, the logit cap and
    the order in which the programs run.  The query heads per key-value head are
    at most 16 or a multiple of 16: otherwise programs read the wrong head. *)
Theorem decode_attention_exact t kv H D bs Hq MS q o logits lse kv_indptr kv_indices num_kv_splits scale cap order1 order2 :
  decode_wf t kv H D bs Hq MS q o logits kv_indptr kv_indices num_kv_splits -> (forall c, cap = Some c -> c <> 0%R) ->
  order1 ≡ₚ stage1_grid bs Hq (Hq / H) MS -> order2 ≡ₚ stage2_grid bs Hq ->
  exists o', decode_attention_fwd_mixed order1 order2 t q kv o kv_indptr kv_indices logits lse num_kv_splits MS (Fin scale) (option_map Fin cap) = Ok o' /\
    forall b h d, 0 <= b < bs -> 0 <= h < Hq -> 0 <= d < D ->
      at_ o' [b; h; d] = ref_attention Hq H D (fun b h d => a_load (at_ q [b; h; d])) (gathered t (ref_dequant_gather kv_indices kv).1)
        (gathered t (ref_dequant_gather kv_indices kv).2) kv_indptr (Fin scale) (option_map Fin cap) b h d /\
      exists r, at_ o' [b; h; d] = Fin r.
Proof.
  intros Hwf Hcap Ho1 Ho2.
  destruct (attention_cells t kv H D bs Hq MS q o logits lse kv_indptr kv_indices num_kv_splits scale cap order1 order2 Hwf Hcap Ho1 Ho2) as (o' & E & _ & Hc).
  by exists o'.
Qed.

(** ** Witnesses *)

Lemma programs_read_own_head_witness : ~ (forall h, 0 <= h < 24 * 2 -> program_kv_head 24 16 (h / VALID_BLOCK_H 24 16) = h / 24).
Proof. intros Hall. apply (programs_read_own_head 24 2 ltac:(lia) ltac:(lia)) in Hall. vm_compute in Hall. destruct Hall as [E|[E|E]]; [by apply E|discriminate..]. Defined.

(** Two query heads of one request of three tokens, of both precisions, in two splits. *)
Definition toy_q : tensor spec_float := {| shape := [1; 2; 64]; elems := elems (toy_x 2 29) |}.
Definition toy_o : tensor xr := {| shape := [1; 2; 64]; elems := fun _ => Undef |}.
Definition toy_logits : tensor xr := {| shape := [1; 2; 2; 64]; elems := fun _ => Undef |}.

Lemma toy_decode_wf : decode_wf BF16 toy_layer 1 64 1 2 2 toy_q toy_o toy_logits [0; 3] [65; 33; 66] [2].
Proof.
  split; [by apply new_layer_shaped|lia|lia|done|done|by exists 1|exists 2; split; [done|]; split; [lia|]; left; lia|vm_compute; discriminate|..].
  - intros b Hb. assert (b = 0) as -> by lia. vm_compute. repeat split; discriminate.
  - intros b Hb. assert (b = 0) as -> by lia. vm_compute. split; [done|discriminate].
  - intros b h d Hb Hh Hd. assert (b = 0) as -> by lia.
    assert (Hall : forallb (fun h => forallb (fun d => is_finite (at_ toy_q [0; h; d])) (seqZ 0 64)) (seqZ 0 2) = true) by (vm_compute; reflexivity).
    apply (forallb_seqZ _ 2 h) in Hall; [|done]. by apply (forallb_seqZ _ 64 d) in Hall.
  - intros n h d Hn Hh Hd. assert (h = 0) as -> by lia.
    assert (Hall : forallb (fun n => forallb (fun d => is_finite (cast_to BF16 (slot_k toy_layer (tget [65; 33; 66] n) 0 d)) &&
      is_finite (cast_to BF16 (slot_v toy_layer (tget [65; 33; 66] n) 0 d))) (seqZ 0 64)) (seqZ 0 3) = true) by (vm_compute; reflexivity).
    apply (forallb_seqZ _ 3 n) in Hall; [|done]. apply (forallb_seqZ _ 64 d) in Hall; [|done]. by apply andb_true_iff in Hall.
Qed.

Lemma decode_attention_exact_witness : exists o',
  decode_attention_fwd_mixed (rev (stage1_grid 1 2 2 2)) (stage2_grid 1 2) BF16 toy_q toy_layer toy_o [0; 3] [65; 33; 66] toy_logits toy_o [2] 2
    (Fin 1) (Some (Fin 30)) = Ok o' /\
  at_ o' [0; 1; 5] = ref_attention 2 1 64 (fun b h d => a_load (at_ toy_q [b; h; d])) (gathered BF16 (ref_dequant_gather [65; 33; 66] toy_layer).1)
    (gathered BF16 (ref_dequant_gather [65; 33; 66] toy_layer).2) [0; 3] (Fin 1) (Some (Fin 30)) 0 1 5.
Proof.
  destruct (decode_attention_exact BF16 toy_layer 1 64 1 2 2 toy_q toy_o toy_logits toy_o [0; 3] [65; 33; 66] [2] 1 (Some 30%R)
    (rev (stage1_grid 1 2 2 2)) (stage2_grid 1 2) toy_decode_wf) as (o' & E & Hc).
  - intros c [= <-]. lra.
  - symmetry. apply Permutation_rev.
  - reflexivity.
  - exists o'. split; [exact E|]. apply (Hc 0 1 5); lia.
Defined.
