(* ===== verification/DecodePlan.v ===== *)
(** * Decode attention of a batch

    The decode side of the attention backends: the split counts and the slot
    lists of [TritonAttnBackend] ([layers/attention/triton_backend.py]) and
    [TriaxialTritonBackend.forward_decode] ([layers/attention/triaxial_backend.py]),
    which stores the new keys and values and runs the decode kernels.  Decode
    batches without speculative decoding and without a sliding window, which the
    TriAxialKV backend does not serve. *)

From S2P Require Import Prelude Tensors Triton Floats DeviceFloats DeviceMemory QuantKernels DequantKernels TriaxialPool TriaxialBuffers ReqPool KVIndices DecodeAttention.

(** Python's [a // b]. *)
Definition py_floordiv (a b : Z) : result Z := if b =? 0 then Err ZeroDivisionError else Ok (a / b).

(** ** The backend *)

Record TritonAttnBackend := {
  num_head : Z;
  num_kv_head : Z;
  v_head_dim : Z;
  device_core_count : Z;
  static_kv_splits : bool;
  max_kv_splits : Z;
  enable_deterministic : bool;
  split_tile_size : option Z;
  (** the buffer of row starts, one more than the requests of the table *)
  kv_indptr_buf : list Z
}.

Definition set_kv_indptr_buf (b : TritonAttnBackend) (l : list Z) : TritonAttnBackend :=
  {| num_head := num_head b; num_kv_head := num_kv_head b; v_head_dim := v_head_dim b; device_core_count := device_core_count b;
     static_kv_splits := static_kv_splits b; max_kv_splits := max_kv_splits b; enable_deterministic := enable_deterministic b;
     split_tile_size := split_tile_size b; kv_indptr_buf := l |}.

(** [__init__]: [env_static] and [env_tile_size] are the two environment variables,
    [arg_num_kv_splits] and [arg_tile_size] the server arguments. *)
Definition backend_init (max_bs heads kv_heads head_dim max_context_len core_count : Z) (env_static : bool) (arg_num_kv_splits : Z)
    (deterministic : bool) (env_tile_size : Z) (arg_tile_size : option Z) : result TritonAttnBackend :=
  let static := if deterministic then false else env_static in
  let tile := if deterministic then Some env_tile_size else arg_tile_size in
  let! splits := match tile with Some s => py_floordiv (max_context_len + s - 1) s | None => Ok arg_num_kv_splits end in
  Ok {| num_head := heads; num_kv_head := kv_heads; v_head_dim := head_dim; device_core_count := core_count; static_kv_splits := static;
        max_kv_splits := splits; enable_deterministic := deterministic; split_tile_size := tile; kv_indptr_buf := replicate (Z.to_nat (max_bs + 1)) 0 |}.

(** ** Split counts *)

Section splits.
(** [tl.log2], and what the conversion of a value outside of [int32] gives. *)
Context (log2 : spec_float -> spec_float) (undef : Z).

(** The core count scaled by the logarithm of the longest request. *)
Definition ext_device_core_count (device_core_count max_seq_len : Z) : Z :=
  let ext_seq_len := f32_div (f32_of_Z max_seq_len) (f32_of_Z 64) in
  f_to_int undef (f32_mul (f32_of_Z device_core_count) (f_max (log2 ext_seq_len) (f32_of_Z 1))).

Definition get_num_kv_splits_triton (num_kv_splits seq_lens : list Z) (num_seq num_group num_head num_kv_head max_kv_splits device_core_count MAX_NUM_SEQ : Z)
  : list Z :=
  let offs_seq := tl_arange MAX_NUM_SEQ in
  let mask_seq l := l <? num_seq in
  let max_seq_len := zmax (map (fun l => tl_load_masked 0 seq_lens (mask_seq l) l) offs_seq) in
  let seq_len l := tl_load_masked max_seq_len seq_lens (mask_seq l) l in
  let min_seq_len := zmin (map seq_len offs_seq) in
  let min_seq_len := if max_seq_len * 8 <? min_seq_len * 10 then max_seq_len else min_seq_len in
  let max_kv_splits_1 := Z.min (tl_cdiv max_seq_len min_seq_len) max_kv_splits in
  let kv_chunk_size_1 := tl_cdiv max_seq_len max_kv_splits_1 in
  let cores := ext_device_core_count device_core_count max_seq_len in
  let num_kv_group := num_head / num_kv_head in
  let token_grid :=
    if num_kv_group =? 1 then num_seq * num_group * num_head
    else num_seq * num_group * tl_cdiv num_head (Z.min 16 num_kv_group) in
  let max_kv_splits_2 := Z.min (tl_cdiv cores token_grid) max_kv_splits in
  let kv_chunk_size_2 := tl_cdiv max_seq_len max_kv_splits_2 in
  let splits l := Z.max (tl_cdiv (seq_len l) kv_chunk_size_1) (tl_cdiv (seq_len l) kv_chunk_size_2) in
  foldl (fun out i => tl_store out offs_seq (fun l => i + l * num_group) splits (fun l => l * num_group <? num_seq * num_group))
    num_kv_splits (seqZ 0 num_group).

(** [triton.next_power_of_2] *)
Definition next_power_of_2 (n : Z) : Z := 2 ^ Z.log2_up n.

(** [num_kv_splits] is the tensor to fill: its length is the number of tokens. *)
Definition get_num_kv_splits (b : TritonAttnBackend) (num_kv_splits seq_lens : list Z) : result (list Z) :=
  let num_token := zlen num_kv_splits in
  let num_seq := zlen seq_lens in
  let! num_group := py_floordiv num_token num_seq in
  let! _ := rassert (num_group * num_seq =? num_token) in
  if (static_kv_splits b || (device_core_count b <=? 0)) && negb (enable_deterministic b) then
    Ok (replicate (length num_kv_splits) (max_kv_splits b))
  else
    match split_tile_size b, enable_deterministic b with
    | Some tile, true =>
        let expanded_seq_lens := if 1 <? num_group then flat_map (replicate (Z.to_nat num_group)) seq_lens else seq_lens in
        row_assign num_kv_splits 0 num_token (map (fun n => (n + tile - 1) / tile) expanded_seq_lens)
    | _, _ =>
        let SCHEDULE_SEQ := if num_seq <? 256 then 256 else next_power_of_2 num_seq in
        Ok (get_num_kv_splits_triton num_kv_splits seq_lens num_seq num_group (num_head b) (num_kv_head b) (max_kv_splits b) (device_core_count b)
              SCHEDULE_SEQ)
    end.

(** ** Metadata of a decode batch *)

(** The batch fields that the decode path reads. *)
Record DecodeForwardBatch := {
  db_req_pool_indices : list Z;
  db_seq_lens : list Z;
  db_seq_lens_sum : Z;
  db_out_cache_loc : list Z
}.

Record ForwardMetadata (F : Type) := {
  attn_logits : tensor F;
  attn_lse : tensor F;
  num_kv_splits : list Z;
  kv_indptr : list Z;
  kv_indices : list Z
}.
Arguments attn_logits {F} _.
Arguments attn_lse {F} _.
Arguments num_kv_splits {F} _.
Arguments kv_indptr {F} _.
Arguments kv_indices {F} _.

Section decode.
Context {F : Type} {AF : Arith F}.

(** The row starts, written to the buffer of the backend, and the slot list.
    [order] is the program order of the index kernel; [fresh] gives the contents of
    the uninitialised tensor. *)
Definition decode_indices (order : list Z) (fresh : Z -> Z) (b : TritonAttnBackend) (rt : ReqToTokenPool) (fb : DecodeForwardBatch)
  : result (list Z * list Z * list Z) :=
  let bs := zlen (db_seq_lens fb) in
  let! buf := row_assign (kv_indptr_buf b) 1 (bs + 1) (cumsum (db_seq_lens fb)) in
  let indptr := slice_to buf (bs + 1) in
  let indices := launch (create_flashinfer_kv_indices (concat (req_to_token rt)) (db_req_pool_indices fb) (db_seq_lens fb) indptr None
                           (max_context_len rt)) order (map fresh (seqZ 0 (db_seq_lens_sum fb))) in
  Ok (buf, indptr, indices).

(** The decode branch of [init_forward_metadata], with [fresh_mem] in the uninitialised
    float tensors. *)
Definition init_forward_metadata_decode (order : list Z) (fresh : Z -> Z) (fresh_mem : mem F) (b : TritonAttnBackend) (rt : ReqToTokenPool)
    (fb : DecodeForwardBatch) : result (TritonAttnBackend * ForwardMetadata F) :=
  let bs := zlen (db_seq_lens fb) in
  let! (buf, indptr, indices) := decode_indices order fresh b rt fb in
  let! splits := get_num_kv_splits b (map fresh (seqZ 0 bs)) (db_seq_lens fb) in
  Ok (set_kv_indptr_buf b buf,
      {| attn_logits := {| shape := [bs; num_head b; max_kv_splits b; v_head_dim b]; elems := fresh_mem |};
         attn_lse := {| shape := [bs; num_head b; max_kv_splits b]; elems := fresh_mem |};
         num_kv_splits := splits; kv_indptr := indptr; kv_indices := indices |}).

(** ** The layer *)

(** [scaling] and [logit_cap] are the fp32 numbers that the kernel receives. *)
Record RadixAttention := {
  layer_id : Z;
  tp_q_head_num : Z;
  qk_head_dim : Z;
  layer_v_head_dim : Z;
  scaling : spec_float;
  logit_cap : spec_float;
  sliding_window_size : option Z
}.

(** [x.view(-1, h, d)] of a contiguous tensor. *)
Definition view_heads {A} (x : tensor A) (h d : Z) : result (tensor A) :=
  if (0 <? h * d) && (numel x mod (h * d) =? 0) then Ok {| shape := [numel x / (h * d); h; d]; elems := elems x |} else Err RuntimeError.

(** [x.reshape(-1, w)] *)
Definition view_rows {A} (x : tensor A) (w : Z) : result (tensor A) :=
  if (0 <? w) && (numel x mod w =? 0) then Ok {| shape := [numel x / w; w]; elems := elems x |} else Err RuntimeError.

(** Only a positive cap is applied. *)
Definition positive_cap (cap : spec_float) : option F := if SFltb f_zero cap then Some (a_load cap) else None.

Definition forward_decode (sched : nat -> Z -> Z -> list (Z * Z)) (order1 : list (Z * Z * Z)) (order2 : list (Z * Z)) (fresh_mem : mem F) (t : dtype)
    (b : TritonAttnBackend) (md : ForwardMetadata F) (p : TriaxialKVPool) (layer : RadixAttention) (fb : DecodeForwardBatch)
    (save_kv_cache half sinks : bool) (q k v : tensor spec_float) : result (tensor F * TriaxialKVPool) :=
  let! _ := rassert (negb sinks && match sliding_window_size layer with None => true | Some w => w =? -1 end) in
  let! q := view_rows q (tp_q_head_num layer * qk_head_dim layer) in
  let o := {| shape := shape q; elems := fresh_mem |} in
  let! p1 := if save_kv_cache then set_kv_buffer_int4 sched p (layer_id layer) (db_out_cache_loc fb) half k v else Ok p in
  let! q3 := view_heads q (tp_q_head_num layer) (qk_head_dim layer) in
  let! kv := layer_kv p1 (layer_id layer) in
  let! o3 := view_heads o (tp_q_head_num layer) (layer_v_head_dim layer) in
  let! o3 := decode_attention_fwd_mixed order1 order2 t q3 kv o3 (kv_indptr md) (kv_indices md) (attn_logits md) (attn_lse md) (num_kv_splits md)
               (max_kv_splits b) (a_load (scaling layer)) (positive_cap (logit_cap layer)) in
  Ok (with_elems o (elems o3), p1).
End decode.

Definition forward_extend_unsupported {F : Type} : result (tensor F) := Err RuntimeError.
End splits.

Example next_power_300 : next_power_of_2 300 = 512.
Proof. reflexivity. Qed.
