(* ===== verification/DecodePlanTheory.v ===== *)
(** * Bounds of the split counts *)

From S2P Require Import Prelude Tensors Triton Floats DeviceFloats DeviceFloatsTheory DeviceMemory DequantKernels DequantProps ReqPool KVIndices DecodeAttention DecodePlan.

(** ** Floats of at least one *)

(** A finite number of at least one. *)
Definition ge_one (x : spec_float) : Prop :=
  match x with S754_finite false m e => 0 <= e \/ 2 ^ (- e) <= Z.pos m | _ => False end.

Lemma ge_one_to_int undef x : ge_one x -> 1 <= f_to_int undef x.
Proof.
  destruct x as [| | |[] m e]; try done. cbn [ge_one f_to_int]. intros H. destruct (Z.leb_spec 0 e).
  - assert (0 < 2 ^ e) by lia. nia.
  - apply Z.div_le_lower_bound; [lia|]. destruct H; lia.
Qed.

(** Rounding keeps a number at least one, unless it overflows. *)
Lemma round_aux_ge_one m e : 0 < m -> (0 <= e \/ 2 ^ (- e) <= m) -> e <= fexp 24 128 (Zdigits2 m + e) -> Zdigits2 m + e <= 100 ->
  ge_one (binary_round_aux 24 128 false m e loc_Exact).
Proof.
  intros Hm Hge He Hup. rewrite binary_round_aux_exact by lia. cbv zeta.
  set (m1 := round_mant 24 128 m e). set (e1 := round_exp 24 128 m e).
  assert (Hd : 1 <= Zdigits2 m + e).
  { rewrite Zdigits2_pos by done. destruct Hge as [?|Hge]; [pose proof (Z.log2_nonneg m); lia|].
    destruct (Z.le_gt_cases 0 e); [pose proof (Z.log2_nonneg m); lia|]. apply Z.log2_le_pow2 in Hge; lia. }
  assert (Hmin : emin 24 128 < e1) by (unfold e1, round_exp, fexp; unfold emin in *; lia).
  pose proof (round_mant_large 24 128 ltac:(lia) m e Hm He Hmin) as Hl. fold m1 in Hl.
  assert (He1 : -23 <= e1 <= 76) by (unfold e1, round_exp, fexp in *; unfold emin in *; lia).
  pose proof (second_shift 24 128 ltac:(lia) m e Hm ltac:(fold m1; lia)) as Hs. cbv zeta in Hs. fold m1 e1 in Hs.
  destruct Hs as [[Hb Hs]|[Hb Hs]]; rewrite Hs.
  - rewrite Z.sub_diag, Z.pow_0_r, Z.div_1_r. destruct m1 as [|p|p] eqn:E; try lia.
    destruct (Z.leb_spec e1 (128 - 24)); [|lia]. cbn [ge_one]. destruct (Z.le_gt_cases 0 e1); [by left|right].
    rewrite <- E in *. etrans; [|exact Hl]. apply Z.pow_le_mono_r; lia.
  - rewrite Hb. replace (e1 + 1 - e1) with 1 by lia. change (2 ^ 24 / 2 ^ 1) with 8388608.
    destruct (Z.leb_spec (e1 + 1) (128 - 24)); [|lia]. cbn [ge_one]. destruct (Z.le_gt_cases 0 (e1 + 1)); [by left|right].
    change 8388608 with (2 ^ 23). apply Z.pow_le_mono_r; lia.
Qed.

(** A normal number in [[1, 2^k)]. *)
Definition normal_ge_one (k : Z) (x : spec_float) : Prop := ge_one x /\ valid_binary 24 128 x = true /\ below k x.

Lemma of_Z_ge_one c : 1 <= c < 2 ^ 24 -> normal_ge_one 24 (f32_of_Z c).
Proof.
  intros Hc. destruct c as [|c|c]; try lia. unfold normal_ge_one, f32_of_Z, binary_normalize, binary_round.
  assert (Hd : Z.log2 (Z.pos c) < 24) by (apply Z.log2_lt_pow2; lia). pose proof (Z.log2_nonneg (Z.pos c)).
  destruct (shl_align_spec c 0 (fexp 24 128 (Z.pos (digits2_pos c) + 0))) as (m & e & -> & He & Hm).
  rewrite Z.add_0_r, digits2_log2 in He. unfold fexp, emin in He. assert (Ee : e = Z.log2 (Z.pos c) + 1 - 24) by lia. clear He.
  assert (Hdm : Z.pos (digits2_pos m) = 24) by (rewrite digits2_log2, Hm, log2_mul_pow2' by lia; lia).
  rewrite round_aux_id; [|unfold fexp, emin; lia|lia]. split_and!.
  - cbn [ge_one]. right. replace (0 - e) with (- e) in Hm by lia. assert (0 < 2 ^ (- e)) by lia. nia.
  - cbn [valid_binary]. unfold bounded, canonical_mantissa. rewrite andb_true_iff, Z.eqb_eq, Z.leb_le. unfold fexp, emin. lia.
  - cbn [below]. lia.
Qed.

Lemma normal_digits k x : normal_ge_one k x -> exists m e, x = S754_finite false m e /\ Z.pos (digits2_pos m) = 24 /\ -23 <= e /\ e + 24 <= k.
Proof.
  intros (Hg & Hv & Hb). destruct x as [| | |[] m e]; try done. exists m, e. split; [done|]. cbn [ge_one valid_binary below] in *.
  unfold bounded, canonical_mantissa in Hv. apply andb_true_iff in Hv as [Hc%Z.eqb_eq He%Z.leb_le]. unfold fexp, emin in Hc.
  assert (Hd : 0 <= e \/ 1 - e <= Z.pos (digits2_pos m)).
  { destruct Hg as [?|Hg]; [by left|]. destruct (Z.le_gt_cases 0 e); [by left|right]. rewrite digits2_log2. apply Z.log2_le_pow2 in Hg; lia. }
  split; [lia|]. split; lia.
Qed.

Lemma mul_ge_one k l x y : k + l <= 100 -> normal_ge_one k x -> normal_ge_one l y -> ge_one (f32_mul x y).
Proof.
  intros Hkl Hx Hy. destruct (normal_digits k x Hx) as (m & e & -> & Dm & Em & Bm). destruct (normal_digits l y Hy) as (n & f & -> & Dn & En & Bn).
  destruct Hx as (Hx & _ & _), Hy as (Hy & _ & _). cbn [ge_one] in *. unfold f32_mul. cbn [SFmul xorb]. rewrite digits2_log2 in Dm, Dn.
  assert (Hlo : 46 <= Z.log2 (Z.pos (m * n)) <= 47).
  { rewrite Pos2Z.inj_mul. pose proof (Z.log2_mul_below (Z.pos m) (Z.pos n)). pose proof (Z.log2_mul_above (Z.pos m) (Z.pos n)). lia. }
  assert (Hp : forall m e, 0 <= e \/ 2 ^ (- e) <= Z.pos m -> 2 ^ Z.max 0 (- e) <= Z.pos m) by (intros a b [?|?]; destruct (Z.le_gt_cases 0 b); [rewrite Z.max_l by lia; simpl; lia|lia|rewrite Z.max_l by lia; simpl; lia|by rewrite Z.max_r by lia]).
  apply round_aux_ge_one; [lia| |cbn [Zdigits2]; rewrite digits2_log2; unfold fexp, emin; lia|cbn [Zdigits2]; rewrite digits2_log2; lia].
  destruct (Z.le_gt_cases 0 (e + f)); [by left|right]. apply Hp in Hx, Hy. rewrite Pos2Z.inj_mul.
  transitivity (2 ^ Z.max 0 (- e) * 2 ^ Z.max 0 (- f)); [rewrite <- Z.pow_add_r by lia; apply Z.pow_le_mono_r; lia|nia].
Qed.

(** What the kernel relies on of [tl.log2]: of the lengths it is called with it
    gives fp32 numbers of magnitude below 256. *)
Definition log2_ok (log2 : spec_float -> spec_float) : Prop :=
  forall n, 1 <= n < 2 ^ 24 -> let y := log2 (f32_div (f32_of_Z n) (f32_of_Z 64)) in valid_binary 24 128 y = true /\ below 8 y.

Lemma max_one_ge_one x : valid_binary 24 128 x = true -> below 8 x -> normal_ge_one 8 (f_max x (f32_of_Z 1)).
Proof.
  intros Hv Hb. assert (H1 : normal_ge_one 8 (f32_of_Z 1)) by (vm_compute; repeat split; try discriminate; by right).
  change (f32_of_Z 1) with (S754_finite false 8388608 (-23)) in *.
  destruct x as [[]|[]| |s m e]; try done. unfold f_max. destruct (SFltb _ _) eqn:E; [done|].
  split_and!; [|done|done]. unfold SFltb, SFcompare in E. destruct s; [done|]. cbn [ge_one]. 
  assert (Hd : -23 <= e); [|destruct (Z.le_gt_cases 0 e); [by left|right]].
  { destruct (Z.compare_spec e (-23)); [lia|done|lia]. }
  destruct (Z.compare_spec e (-23)) as [-> |?|?]; [|done|].
  - change (2 ^ (- (-23))) with 8388608. change (Pos.compare_cont Eq m 8388608) with (Pos.compare m 8388608) in E.
    destruct (Pos.compare_spec m 8388608); [subst; lia|done|lia].
  - cbn [valid_binary] in Hv. unfold bounded, canonical_mantissa in Hv. apply andb_true_iff in Hv as [Hc%Z.eqb_eq He%Z.leb_le]. unfold fexp, emin in Hc.
    pose proof (Z.log2_spec (Z.pos m) ltac:(lia)) as [Hl _]. rewrite digits2_log2 in Hc. etrans; [|exact Hl]. apply Z.pow_le_mono_r; lia.
Qed.

(** ** Maxima and minima of lanes *)

Lemma foldl_pick (f : Z -> Z -> Z) (Hf : forall a b, f a b = a \/ f a b = b) x l : foldl f x l ∈ x :: l.
Proof.
  revert x. induction l as [|y l IH]; intros x; [set_solver|]. simpl. specialize (IH (f x y)). apply elem_of_cons in IH as [->|IH]; [|set_solver].
  destruct (Hf x y) as [-> | ->]; set_solver.
Qed.

Lemma zmax_in l : l <> [] -> zmax l ∈ l.
Proof. destruct l; [done|]. intros _. apply foldl_pick. lia. Qed.

Lemma zmin_in l : l <> [] -> zmin l ∈ l.
Proof. destruct l; [done|]. intros _. apply foldl_pick. lia. Qed.

(** ** Chunks *)

Lemma cdiv_pos n c : 0 < n -> 0 < c -> 1 <= tl_cdiv n c.
Proof. intros Hn Hc. unfold tl_cdiv. apply Z.div_le_lower_bound; lia. Qed.

Lemma cdiv_cover n c : 0 < c -> n <= c * tl_cdiv n c.
Proof. intros Hc. unfold tl_cdiv. pose proof (Z.div_mod (n + c - 1) c ltac:(lia)). pose proof (Z.mod_pos_bound (n + c - 1) c Hc). lia. Qed.

Lemma cdiv_least n c k : 0 < c -> n <= c * k -> tl_cdiv n c <= k.
Proof. intros Hc Hn. unfold tl_cdiv. apply Z.lt_succ_r, Z.div_lt_upper_bound; lia. Qed.

(** The chunks of a request no longer than the longest one. *)
Lemma chunks_bound n mx s : 0 < n <= mx -> 0 < s -> 1 <= tl_cdiv n (tl_cdiv mx s) <= s.
Proof.
  intros Hn Hs. pose proof (cdiv_pos mx s ltac:(lia) Hs). pose proof (cdiv_cover mx s Hs).
  split; [apply cdiv_pos; lia|apply cdiv_least; lia].
Qed.

(** Stores at a stride fill the tensor. *)
Lemma strided_store (P : Z -> Prop) W g ns val out : 0 < g -> ns <= W -> zlen out = g * ns -> (forall l, 0 <= l < ns -> P (val l)) ->
  Forall P (foldl (fun out i => tl_store out (tl_arange W) (fun l => i + l * g) val (fun l => l * g <? ns * g)) out (seqZ 0 g)).
Proof.
  intros Hg HW Hlen HP. set (step := fun out i => _).
  assert (Hl : forall k, length (foldl step out (seqZ 0 k)) = length out) by (intros k; apply foldl_length; intros; apply tl_store_length).
  assert (Hgen : forall k j, 0 <= k <= g -> Z.of_nat j < g * ns -> Z.of_nat j mod g < k -> exists v, foldl step out (seqZ 0 k) !! j = Some v /\ P v).
  { intros k j [H0 Hk] Hj. revert Hk. pattern k. apply natlike_ind; [pose proof (Z.mod_pos_bound (Z.of_nat j) g Hg); lia| |done]. clear k H0.
    intros k H0 IH Hk Hm. unfold Z.succ in *. rewrite seqZ_app, foldl_app by lia. replace (seqZ (0 + k) 1) with [k] by (unfold seqZ; simpl; f_equal; lia).
    cbn [foldl]. specialize (IH ltac:(lia)). set (o := foldl step out (seqZ 0 k)) in *.
    destruct (tl_store_lookup o (tl_arange W) (fun l => k + l * g) val (fun l => l * g <? ns * g) j) as [H1 H2].
    - intros a b _ _ E. nia.
    - intros l Hin%elem_of_seqZ _. nia.
    - apply NoDup_seqZ.
    - unfold o. rewrite Hl. unfold zlen in Hlen. lia.
    - pose proof (Z.div_mod (Z.of_nat j) g ltac:(lia)). pose proof (Z.mod_pos_bound (Z.of_nat j) g Hg).
      assert (Hq : 0 <= Z.of_nat j / g < ns) by (split; [apply Z.div_pos; lia|apply Z.div_lt_upper_bound; lia]).
      destruct (Z.eq_dec (Z.of_nat j mod g) k) as [E|E].
      + exists (val (Z.of_nat j / g)). split; [|by apply HP]. apply H1; [apply elem_of_seqZ; lia|apply Z.ltb_lt; nia|lia].
      + destruct (IH ltac:(lia)) as (v & Hv & Pv). exists v. split; [|done]. unfold step. rewrite H2; [done|]. intros l _ _ El.
        apply E. rewrite <- El. rewrite Z.mod_add by lia. apply Z.mod_small. lia. }
  apply list.Forall_lookup. intros j x Hx. pose proof (lookup_lt_Some _ _ _ Hx) as Hj. rewrite Hl in Hj.
  destruct (Hgen g j) as (v & Hv & Pv); [lia|unfold zlen in Hlen; lia|apply Z.mod_pos_bound; lia|]. rewrite Hx in Hv. by injection Hv as ->.
Qed.

Section splits.
Context (log2 : spec_float -> spec_float) (Hlog : log2_ok log2) (undef : Z).

Lemma cores_pos cores n : 1 <= cores < 2 ^ 24 -> 1 <= n < 2 ^ 24 -> 1 <= ext_device_core_count log2 undef cores n.
Proof using Hlog.
  intros Hc Hn. unfold ext_device_core_count. cbv zeta. apply ge_one_to_int. destruct (Hlog n Hn) as [Hv Hb].
  eapply (mul_ge_one 24 8); [lia|by apply of_Z_ge_one|by apply max_one_ge_one].
Qed.

Context (seq_lens : list Z) (Hlens : Forall (fun n => 1 <= n < 2 ^ 24) seq_lens).

Lemma kernel_bounds out num_group num_head num_kv_head max_kv_splits cores W :
  0 < zlen seq_lens <= W -> 0 < num_group -> zlen out = num_group * zlen seq_lens -> 0 < num_kv_head <= num_head -> 0 < max_kv_splits -> 1 <= cores < 2 ^ 24 ->
  let res := get_num_kv_splits_triton log2 undef out seq_lens (zlen seq_lens) num_group num_head num_kv_head max_kv_splits cores W in
  length res = length out /\ Forall (fun n => 1 <= n <= max_kv_splits) res.
Proof using Hlog Hlens.
  intros Hns Hg Hout Hh HM Hc. unfold get_num_kv_splits_triton. cbv zeta.
  split; [apply foldl_length; intros; apply tl_store_length|].
  set (lanes := tl_arange W). set (mx := zmax _).
  assert (Hne : forall f : Z -> Z, map f lanes <> []).
  { intros f E. apply (f_equal length) in E. unfold lanes, tl_arange in E. rewrite length_map, length_seqZ in E. simpl in E. lia. }
  assert (Hlen : forall l, 0 <= l < zlen seq_lens -> 1 <= tl_load seq_lens l < 2 ^ 24).
  { intros l Hl. rewrite tl_load_tget by lia. unfold tget. destruct (lookup_lt_is_Some_2 seq_lens (Z.to_nat l)) as [x E]; [unfold zlen in Hl; lia|].
    rewrite (list_lookup_total_correct _ _ _ E). rewrite list.Forall_lookup in Hlens. by eapply Hlens. }
  assert (Hmx : 1 <= mx < 2 ^ 24 /\ forall l, 0 <= l < zlen seq_lens -> tl_load seq_lens l <= mx).
  { assert (Hle : forall l, 0 <= l < zlen seq_lens -> tl_load seq_lens l <= mx).
    { intros l Hl. apply zmax_ge, elem_of_lmap. exists l. split; [apply elem_of_seqZ; lia|]. unfold tl_load_masked. by rewrite (proj2 (Z.ltb_lt _ _)) by lia. }
    split; [|done]. split; [etrans; [|apply (Hle 0 ltac:(lia))]; apply Hlen; lia|].
    assert (Hin : mx ∈ map (fun l => tl_load_masked 0 seq_lens (l <? zlen seq_lens) l) lanes) by apply zmax_in, Hne.
    apply elem_of_lmap in Hin as (l & Hl%elem_of_seqZ & E). rewrite E. unfold tl_load_masked.
    destruct (Z.ltb_spec l (zlen seq_lens)); [apply Hlen; lia|lia]. }
  destruct Hmx as [Hmx Hle].
  set (mn := zmin _). assert (Hmn : 1 <= mn <= mx).
  { assert (Hin : mn ∈ map (fun l => tl_load_masked mx seq_lens (l <? zlen seq_lens) l) lanes) by apply zmin_in, Hne.
    apply elem_of_lmap in Hin as (l & Hl%elem_of_seqZ & E). rewrite E. unfold tl_load_masked.
    destruct (Z.ltb_spec l (zlen seq_lens)); [split; [apply Hlen; lia|apply Hle; lia]|lia]. }
  match goal with |- context [if ?c then mx else mn] => set (mn' := if c then mx else mn) end. assert (Hmn' : 1 <= mn' <= mx) by (unfold mn'; case_match; lia).
  assert (HW : zlen seq_lens <= W) by lia. apply strided_store; [done|done|done|]. intros l Hl. unfold tl_load_masked. rewrite (proj2 (Z.ltb_lt _ _)) by lia.
  specialize (Hle l Hl). specialize (Hlen l Hl). pose proof (cores_pos cores mx Hc ltac:(lia)) as Hcores.
  match goal with |- context [if num_head / num_kv_head =? 1 then ?a else ?b] => set (grid := if num_head / num_kv_head =? 1 then a else b) end.
  assert (Hgrid : 0 < grid).
  { assert (0 < num_head / num_kv_head) by (apply Z.div_str_pos; lia). pose proof (cdiv_pos num_head (Z.min 16 (num_head / num_kv_head)) ltac:(lia) ltac:(lia)).
    unfold grid. case_match; apply Z.mul_pos_pos; nia. }
  set (s1 := Z.min (tl_cdiv mx mn') max_kv_splits). set (s2 := Z.min (tl_cdiv _ grid) max_kv_splits).
  assert (H1 : 0 < s1 <= max_kv_splits) by (pose proof (cdiv_pos mx mn' ltac:(lia) ltac:(lia)); unfold s1; lia).
  assert (H2 : 0 < s2 <= max_kv_splits).
  { pose proof (cdiv_pos (ext_device_core_count log2 undef cores mx) grid ltac:(lia) Hgrid). unfold s2. lia. }
  pose proof (chunks_bound (tl_load seq_lens l) mx s1 ltac:(lia) ltac:(lia)). pose proof (chunks_bound (tl_load seq_lens l) mx s2 ltac:(lia) ltac:(lia)). lia.
Qed.
End splits.
