(* ===== verification/DecodePlanProps.v ===== *)
(** * A decode step computes the attention of every request *)

From Stdlib Require Import Reals Lra.
From S2P Require Import Prelude Tensors Triton Floats DeviceFloats DeviceFloatsTheory DeviceMemory QuantKernels QuantTheory QuantProps DequantKernels DequantProps QuantRoundTrip TriaxialPool TriaxialBuffers TriaxialBuffersTheory TriaxialPoolProps TriaxialDecodeProps ReqPool TableKernels TableKernelsTheory KVIndices DecodeAttention OnlineSoftmax DecodeAttentionProps DecodePlan DecodePlanTheory.

(** ** Split counts *)

(** The arguments of [__init__] that the split counts depend on. *)
Record split_config := {
  cfg_heads : Z; cfg_kv_heads : Z; cfg_context_len : Z; cfg_cores : Z; cfg_static : bool; cfg_num_kv_splits : Z;
  cfg_deterministic : bool; cfg_env_tile : Z; cfg_arg_tile : option Z
}.

Definition init_with (c : split_config) (max_bs head_dim : Z) : result TritonAttnBackend :=
  backend_init max_bs (cfg_heads c) (cfg_kv_heads c) head_dim (cfg_context_len c) (cfg_cores c) (cfg_static c) (cfg_num_kv_splits c)
    (cfg_deterministic c) (cfg_env_tile c) (cfg_arg_tile c).

(** Positive sizes; lengths and core counts below [2^24], where fp32 is exact. *)
Record config_ok (c : split_config) : Prop := {
  co_heads : 0 < cfg_kv_heads c <= cfg_heads c;
  co_context : 0 < cfg_context_len c < 2 ^ 24;
  co_cores : cfg_cores c < 2 ^ 24;
  co_splits : 0 < cfg_num_kv_splits c;
  co_env_tile : 0 < cfg_env_tile c;
  co_arg_tile : forall s, cfg_arg_tile c = Some s -> 0 < s
}.

Lemma tile_splits n ctx s : 0 < s -> 1 <= n <= ctx -> 1 <= (n + s - 1) / s <= (ctx + s - 1) / s.
Proof. intros Hs Hn. split; [apply Z.div_le_lower_bound; lia|apply Z.div_le_mono; lia]. Qed.

Lemma init_splits_pos c max_bs D b : config_ok c -> init_with c max_bs D = Ok b -> 0 < max_kv_splits b.
Proof.
  intros [] E. unfold init_with, backend_init, py_floordiv in E.
  assert (Hs : forall s, 0 < s -> 0 < (cfg_context_len c + s - 1) / s) by (intros s ?; pose proof (tile_splits 1 (cfg_context_len c) s); lia).
  destruct (cfg_deterministic c); [|destruct (cfg_arg_tile c) as [s|] eqn:Ea; [specialize (co_arg_tile0 s eq_refl)|]];
    repeat match type of E with context [?x =? 0] => destruct (Z.eqb_spec x 0); [lia|] end; cbn [rbind] in E; injection E as <-; cbn; auto.
Qed.

(** The lengths repeated for the tokens of a request. *)
Lemma expanded_lens g (lens : list Z) : 0 < g -> let l := if 1 <? g then flat_map (replicate (Z.to_nat g)) lens else lens in
  zlen l = g * zlen lens /\ forall x, x ∈ l -> x ∈ lens.
Proof.
  intros Hg l. unfold l. destruct (Z.ltb_spec 1 g).
  - split; [|intros x (y & Hy & Hx)%elem_of_flat_map; by apply elem_of_replicate in Hx as [-> _]].
    clear -Hg. unfold zlen. induction lens as [|n lens IH]; [simpl; lia|]. cbn [flat_map length]. rewrite length_app, length_replicate. lia.
  - replace g with 1 by lia. split; [lia|done].
Qed.

(** The entries of the tensor that holds [g] tokens per request. *)
Lemma splits_bounded log2 undef c max_bs D b g out seq_lens : log2_ok log2 -> config_ok c -> init_with c max_bs D = Ok b ->
  Forall (fun n => 1 <= n <= cfg_context_len c) seq_lens -> seq_lens <> [] -> 0 < g -> zlen out = g * zlen seq_lens ->
  exists res, get_num_kv_splits log2 undef b out seq_lens = Ok res /\ length res = length out /\ Forall (fun n => 1 <= n <= max_kv_splits b) res.
Proof.
  intros Hlog Hc E Hlens Hne Hg Hout. pose proof (init_splits_pos _ _ _ _ Hc E) as Hpos. destruct Hc.
  assert (Hns : 0 < zlen seq_lens) by (unfold zlen; destruct seq_lens; [done|simpl; lia]).
  assert (Eb : num_head b = cfg_heads c /\ num_kv_head b = cfg_kv_heads c /\ device_core_count b = cfg_cores c /\ enable_deterministic b = cfg_deterministic c /\
    (cfg_deterministic c = true -> split_tile_size b = Some (cfg_env_tile c) /\ max_kv_splits b = (cfg_context_len c + cfg_env_tile c - 1) / cfg_env_tile c)).
  { unfold init_with, backend_init in E. apply rbind_ok in E as (x & Ex & [= <-]). cbn. split_and!; try done. intros Hd. rewrite Hd in *. split; [done|].
    unfold py_floordiv in Ex. destruct (Z.eqb_spec (cfg_env_tile c) 0); [lia|]. by injection Ex. }
  destruct Eb as (E1 & E2 & E3 & E4 & E5). unfold get_num_kv_splits, py_floordiv. cbv zeta. destruct (Z.eqb_spec (zlen seq_lens) 0); [lia|]. cbn [rbind].
  rewrite Hout, Z.div_mul, Z.eqb_refl by lia. cbn [rassert rbind]. rewrite E3, E4.
  destruct ((static_kv_splits b || (cfg_cores c <=? 0)) && negb (cfg_deterministic c)) eqn:Est.
  { eexists. split; [done|]. split; [by rewrite length_replicate|]. apply Forall_replicate. lia. }
  assert (Hker : 1 <= cfg_cores c -> exists res, Ok (get_num_kv_splits_triton log2 undef out seq_lens (zlen seq_lens) g (num_head b) (num_kv_head b) (max_kv_splits b) (cfg_cores c)
      (if zlen seq_lens <? 256 then 256 else next_power_of_2 (zlen seq_lens))) = Ok res /\ length res = length out /\ Forall (fun n => 1 <= n <= max_kv_splits b) res).
  { intros Hco. eexists. split; [reflexivity|]. apply kernel_bounds; try done; [|split; [done|]|lia..|].
    - apply (list.Forall_impl _ _ _ Hlens). simpl. lia.
    - destruct (Z.ltb_spec (zlen seq_lens) 256); [lia|]. unfold next_power_of_2. apply Z.log2_up_spec. lia.
    - lia. }
  destruct (cfg_deterministic c).
  - destruct (E5 eq_refl) as [-> ->]. destruct (expanded_lens g seq_lens Hg) as [Hl He].
    rewrite row_assign_ok; [|nia|lia|unfold zlen; rewrite length_map; unfold zlen in Hl; lia].
    eexists. split; [done|]. change (take (Z.to_nat 0) out) with (@nil Z). cbn [app]. rewrite drop_ge, app_nil_r by (unfold zlen in *; lia).
    split; [rewrite length_map; unfold zlen in *; lia|]. apply list.Forall_forall. intros y (x & Hx & ->)%elem_of_lmap.
    rewrite list.Forall_forall in Hlens. by apply tile_splits, Hlens, He.
  - rewrite andb_true_r in Est. apply orb_false_iff in Est as [_ Est%Z.leb_gt]. destruct (split_tile_size b); apply Hker; lia.
Qed.

(** ** The slot list *)

(** The slots of the requests' rows, in position order. *)
Definition request_slots (rt : ReqToTokenPool) (fb : DecodeForwardBatch) : list Z :=
  concat (zip_with (fun i n => take (Z.to_nat n) (req_to_token rt !!! Z.to_nat i)) (db_req_pool_indices fb) (db_seq_lens fb)).

(** Every position is in a segment. *)
Lemma seg_find lens i : Forall (fun n => 0 <= n) lens -> 0 <= i < zsum lens ->
  exists r j, 0 <= r < zlen lens /\ 0 <= j < tget lens r /\ i = seg_start lens r + j.
Proof.
  intros Hpos. revert i. induction Hpos as [|n lens Hn Hpos IH]; intros i Hi; [simpl in Hi; lia|].
  change (zsum (n :: lens)) with (n + zsum lens) in Hi. destruct (Z.lt_ge_cases i n) as [Hlt|Hge].
  - exists 0, i. split; [unfold zlen; simpl; lia|]. split; [change (tget (n :: lens) 0) with n; lia|]. change (seg_start (n :: lens) 0) with 0. lia.
  - destruct (IH (i - n) ltac:(lia)) as (r & j & Hr & Hj & E). exists (r + 1), j. unfold seg_start, tget, zlen in *.
    replace (Z.to_nat (r + 1)) with (S (Z.to_nat r)) by lia. cbn [take length]. change (zsum (n :: take (Z.to_nat r) lens)) with (n + zsum (take (Z.to_nat r) lens)).
    split; [lia|]. split; [exact Hj|lia].
Qed.

(** The concatenation of rows, by segment. *)
Lemma concat_segment (rows : list (list Z)) r j : 0 <= r < zlen rows -> 0 <= j < zlen (rows !!! Z.to_nat r) ->
  concat rows !! Z.to_nat (seg_start (map zlen rows) r + j) = Some (tget (rows !!! Z.to_nat r) j).
Proof.
  revert r. induction rows as [|row rows IH]; intros r Hr Hj; [unfold zlen in Hr; simpl in Hr; lia|].
  destruct (Z.eq_dec r 0) as [-> |Hne].
  - change (seg_start (map zlen (row :: rows)) 0) with 0. change ((row :: rows) !!! Z.to_nat 0) with row in *. cbn [concat].
    unfold zlen in Hj. rewrite lookup_app_l by lia. unfold tget. rewrite Z.add_0_l. by apply list_lookup_lookup_total_lt; lia.
  - replace (Z.to_nat r) with (S (Z.to_nat (r - 1))) in Hj |- * by lia.
    change ((row :: rows) !!! S (Z.to_nat (r - 1))) with (rows !!! Z.to_nat (r - 1)) in *.
    specialize (IH (r - 1) ltac:(unfold zlen in *; simpl in Hr; lia) Hj).
    assert (Hs : 0 <= seg_start (map zlen rows) (r - 1)).
    { apply zsum_take_le. apply list.Forall_forall. intros x (y & _ & ->)%elem_of_lmap. unfold zlen. lia. }
    replace (seg_start (map zlen (row :: rows)) r) with (zlen row + seg_start (map zlen rows) (r - 1)).
    2: { unfold seg_start. replace (Z.to_nat r) with (S (Z.to_nat (r - 1))) by lia. done. }
    cbn [concat]. unfold zlen at 1. rewrite lookup_app_r by lia. rewrite <- IH. f_equal. lia.
Qed.

(** A decode batch: one row of the table per request, as long as its sequence,
    which has at least one token and fits the context. *)
Record batch_wf (rt : ReqToTokenPool) (fb : DecodeForwardBatch) (ctx max_bs : Z) : Prop := {
  bw_table : TableKernelsTheory.shape (Z.to_nat (max_context_len rt)) (req_to_token rt);
  bw_context : ctx <= max_context_len rt;
  bw_bs : 0 < zlen (db_seq_lens fb) <= max_bs;
  bw_idx : length (db_req_pool_indices fb) = length (db_seq_lens fb);
  bw_rows : Forall (fun i => 0 <= i < zlen (req_to_token rt)) (db_req_pool_indices fb);
  bw_lens : Forall (fun n => 1 <= n <= ctx) (db_seq_lens fb);
  bw_sum : db_seq_lens_sum fb = zsum (db_seq_lens fb)
}.

Section batch.
Context (rt : ReqToTokenPool) (fb : DecodeForwardBatch) (ctx max_bs : Z) (Hfb : batch_wf rt fb ctx max_bs).
Notation lens := (db_seq_lens fb).
Notation idx := (db_req_pool_indices fb).
Notation row r := (req_to_token rt !!! Z.to_nat (tget idx r)).

Lemma lens_nonneg : Forall (fun n => 0 <= n) lens.
Proof using Hfb. apply (list.Forall_impl _ _ _ (bw_lens _ _ _ _ Hfb)). simpl. lia. Qed.

Lemma request_facts r : 0 <= r < zlen lens ->
  idx !! Z.to_nat r = Some (tget idx r) /\ lens !! Z.to_nat r = Some (tget lens r) /\ 0 <= tget idx r < zlen (req_to_token rt) /\ 1 <= tget lens r <= ctx /\
  zlen (row r) = max_context_len rt.
Proof using Hfb.
  intros Hr. destruct Hfb as [Ht Hc _ Hl Hrows Hlens _]. unfold zlen in Hr.
  destruct (lookup_lt_is_Some_2 lens (Z.to_nat r)) as [n En]; [lia|]. destruct (lookup_lt_is_Some_2 idx (Z.to_nat r)) as [i Ei]; [lia|].
  rewrite list.Forall_lookup in Hrows, Hlens. specialize (Hrows _ _ Ei). specialize (Hlens _ _ En). unfold tget.
  rewrite (list_lookup_total_correct _ _ _ En), (list_lookup_total_correct _ _ _ Ei). split_and!; try done; try lia.
  destruct (lookup_lt_is_Some_2 (req_to_token rt) (Z.to_nat i)) as [rw Er]; [unfold zlen in Hrows; lia|].
  rewrite (list_lookup_total_correct _ _ _ Er). unfold TableKernelsTheory.shape in Ht. rewrite list.Forall_lookup in Ht. unfold zlen. rewrite (Ht _ _ Er). lia.
Qed.

Notation rows := (zip_with (fun i n => take (Z.to_nat n) (req_to_token rt !!! Z.to_nat i)) idx lens).

Lemma request_row r : 0 <= r < zlen lens -> rows !! Z.to_nat r = Some (take (Z.to_nat (tget lens r)) (row r)).
Proof using Hfb. intros Hr. destruct (request_facts r Hr) as (E1 & E2 & _). by rewrite lookup_zip_with, E1, E2. Qed.

Lemma rows_lens : map zlen rows = lens.
Proof using Hfb.
  assert (El : length rows = length lens) by (rewrite length_zip_with, (bw_idx _ _ _ _ Hfb); lia).
  apply list_eq. intros k. rewrite list_lookup_fmap. destruct (decide (k < length lens)%nat) as [Hk|Hk].
  - destruct (request_facts (Z.of_nat k)) as (_ & E2 & _ & Hn & Hw); [unfold zlen; lia|].
    pose proof (request_row (Z.of_nat k) ltac:(unfold zlen; lia)) as Hrow. rewrite !Nat2Z.id in *. rewrite Hrow, E2. cbn. f_equal.
    unfold zlen in *. rewrite length_take. pose proof (bw_context _ _ _ _ Hfb). lia.
  - rewrite !lookup_ge_None_2 by lia. done.
Qed.

(** The slots of the batch, by request and position. *)
Lemma request_slot r j : 0 <= r < zlen lens -> 0 <= j < tget lens r -> request_slots rt fb !! Z.to_nat (seg_start lens r + j) = Some (tget (row r) j).
Proof using Hfb.
  intros Hr Hj. unfold request_slots. rewrite <- rows_lens at 1.
  destruct (request_facts r Hr) as (_ & _ & _ & Hn & Hw). pose proof (bw_context _ _ _ _ Hfb).
  assert (El : length rows = length lens) by (rewrite length_zip_with, (bw_idx _ _ _ _ Hfb); lia).
  rewrite concat_segment; rewrite ?(list_lookup_total_correct _ _ _ (request_row r Hr)).
  - f_equal. unfold tget at 1. rewrite lookup_total_take, decide_True by lia. done.
  - unfold zlen in *. lia.
  - unfold zlen in *. rewrite length_take. lia.
Qed.

Lemma request_slots_length : zlen (request_slots rt fb) = zsum lens.
Proof using Hfb.
  rewrite <- rows_lens. unfold request_slots. generalize rows. intros l. induction l as [|x l IH]; [done|]. cbn [concat map]. rewrite zlen_app, IH. done.
Qed.

(** What the index kernel leaves in a fresh tensor. *)
Lemma indices_are_slots order (fresh : Z -> Z) : order ≡ₚ seqZ 0 (zlen lens) ->
  launch (create_flashinfer_kv_indices (concat (req_to_token rt)) idx lens (indptr lens) None (max_context_len rt)) order
    (map fresh (seqZ 0 (db_seq_lens_sum fb))) = request_slots rt fb.
Proof using Hfb.
  intros Ho. set (out := map fresh _). pose proof (bw_context _ _ _ _ Hfb) as Hc. pose proof lens_nonneg as Hpos.
  assert (Hw : 0 <= max_context_len rt) by (destruct (request_facts 0) as (_ & _ & _ & _ & <-); [pose proof (bw_bs _ _ _ _ Hfb); lia|unfold zlen; lia]).
  assert (Hout : zlen out = zsum lens).
  { unfold out, zlen. rewrite length_map, length_seqZ, (bw_sum _ _ _ _ Hfb). pose proof (zsum_take_le lens (length lens) Hpos) as Hz.
    rewrite firstn_all in Hz. lia. }
  destruct (kv_indices_cells (Z.to_nat (max_context_len rt)) (req_to_token rt) idx lens None order out) as (L & C & _).
  - apply Hfb.
  - apply Hfb.
  - done.
  - done.
  - lia.
  - intros r Hr. destruct (request_facts r Hr) as (_ & _ & H1 & H2 & _). lia.
  - rewrite Z2Nat.id in * by done. apply list_eq. intros k. pose proof request_slots_length as Hs.
    destruct (decide (Z.of_nat k < zsum lens)) as [Hk|Hk]; [|rewrite !lookup_ge_None_2; [done|unfold zlen in *; lia..]].
    destruct (seg_find lens (Z.of_nat k) Hpos ltac:(lia)) as (r & j & Hr & Hj & E). specialize (C r j Hr Hj). rewrite <- E, Nat2Z.id in C.
    pose proof (request_slot r j Hr Hj) as C'. rewrite <- E, Nat2Z.id in C'. rewrite C'. exact C.
Qed.
End batch.

(** ** The decode step *)

(** A backend between batches: its buffer has an entry per request and one more,
    and starts with 0. *)
Definition backend_ready (c : split_config) (max_bs D : Z) (b : TritonAttnBackend) : Prop :=
  exists b0 buf, init_with c max_bs D = Ok b0 /\ b = set_kv_indptr_buf b0 (0 :: buf) /\ zlen buf = max_bs.

Lemma init_ready c max_bs D b : 0 <= max_bs -> init_with c max_bs D = Ok b -> backend_ready c max_bs D b.
Proof.
  intros Hb E. exists b, (replicate (Z.to_nat max_bs) 0). split; [done|]. unfold init_with, backend_init in E. apply rbind_ok in E as (x & _ & [= <-]).
  unfold set_kv_indptr_buf, zlen. cbn. split; [|rewrite length_replicate; lia]. by replace (Z.to_nat (max_bs + 1)) with (S (Z.to_nat max_bs)) by lia.
Qed.

Lemma ready_fields c max_bs D b : backend_ready c max_bs D b -> num_head b = cfg_heads c /\ v_head_dim b = D.
Proof.
  intros (b0 & buf & E & -> & _). unfold init_with, backend_init in E. apply rbind_ok in E as (x & _ & [= <-]). done.
Qed.

(** What planning gives for a batch. *)
Lemma metadata_planned log2 undef c max_bs D b rt fb order fresh (fresh_mem : mem xr) : log2_ok log2 -> config_ok c -> backend_ready c max_bs D b ->
  batch_wf rt fb (cfg_context_len c) max_bs -> order ≡ₚ seqZ 0 (zlen (db_seq_lens fb)) ->
  exists b' splits, init_forward_metadata_decode log2 undef order fresh fresh_mem b rt fb = Ok (b',
      {| attn_logits := {| DeviceMemory.shape := [zlen (db_seq_lens fb); cfg_heads c; max_kv_splits b; D]; elems := fresh_mem |};
         attn_lse := {| DeviceMemory.shape := [zlen (db_seq_lens fb); cfg_heads c; max_kv_splits b]; elems := fresh_mem |};
         num_kv_splits := splits; kv_indptr := indptr (db_seq_lens fb); kv_indices := request_slots rt fb |}) /\
    backend_ready c max_bs D b' /\ max_kv_splits b' = max_kv_splits b /\
    zlen splits = zlen (db_seq_lens fb) /\ Forall (fun n => 1 <= n <= max_kv_splits b) splits.
Proof.
  intros Hlog Hc Hb Hfb Ho. destruct (ready_fields _ _ _ _ Hb) as [E1 E2]. destruct Hb as (b0 & buf & Ei & -> & Hbuf).
  pose proof (bw_bs _ _ _ _ Hfb) as Hbs. unfold init_forward_metadata_decode, decode_indices. cbv zeta. cbn [kv_indptr_buf set_kv_indptr_buf].
  set (n := zlen (db_seq_lens fb)) in *. assert (Hcum : zlen (cumsum (db_seq_lens fb)) = n) by (unfold zlen, cumsum; by rewrite cumsum_from_length).
  rewrite row_assign_ok; [|lia|unfold zlen in *; cbn [length]; lia|lia]. cbn [rbind].
  change (take (Z.to_nat 1) (0 :: buf)) with [0]. replace (Z.to_nat (n + 1)) with (S (Z.to_nat n)) by lia. cbn [drop app].
  assert (Esl : slice_to (0 :: cumsum (db_seq_lens fb) ++ drop (Z.to_nat n) buf) (n + 1) = indptr (db_seq_lens fb)).
  { rewrite slice_to_take by lia. replace (Z.to_nat (n + 1)) with (S (Z.to_nat n)) by lia. cbn [take]. unfold indptr. f_equal.
    apply take_app_length'. unfold zlen in Hcum. lia. }
  rewrite Esl, (indices_are_slots rt fb _ _ Hfb order fresh Ho).
  destruct (splits_bounded log2 undef c max_bs D b0 1 (map fresh (seqZ 0 n)) (db_seq_lens fb) Hlog Hc Ei (bw_lens _ _ _ _ Hfb)) as (splits & Es & Hl & Hf).
  - intros E. unfold n in Hbs. rewrite E in Hbs. unfold zlen in Hbs. simpl in Hbs. lia.
  - lia.
  - unfold zlen. rewrite length_map, length_seqZ. unfold n, zlen. lia.
  - change (get_num_kv_splits log2 undef (set_kv_indptr_buf b0 (0 :: buf))) with (get_num_kv_splits log2 undef b0). rewrite Es. cbn [rbind].
    rewrite E1, E2. eexists _, splits. split; [reflexivity|]. split; [|split; [done|]].
    + eexists b0, _. split; [done|]. split; [reflexivity|]. rewrite zlen_app, Hcum. unfold zlen in *. rewrite length_drop. lia.
    + split; [|done]. unfold zlen. rewrite Hl, length_map, length_seqZ. unfold n, zlen. lia.
Qed.

Lemma cap_positive (cap : spec_float) : is_finite cap = true -> let r := if SFltb f_zero cap then Some (sf_R cap) else None in
  positive_cap cap = option_map Fin r /\ forall x, r = Some x -> x <> 0%R.
Proof.
  intros Hf r. unfold positive_cap, r. destruct (SFltb f_zero cap) eqn:E; [|split; [done|congruence]]. split; [cbn; by rewrite x_load_fin|].
  intros x [= <-]. destruct cap as [| | |[] m e]; try done. cbn [sf_R]. pose proof (powerRZ_lt 2 e ltac:(lra)). pose proof (IZR_lt 0 (Z.pos m) eq_refl). nra.
Qed.

Lemma view_rows_ok {A} (x : tensor A) n w : 0 < w -> numel x = n * w -> view_rows x w = Ok {| DeviceMemory.shape := [n; w]; elems := elems x |}.
Proof. intros Hw Hn. unfold view_rows. rewrite Hn, Z.mod_mul, Z.div_mul, (proj2 (Z.ltb_lt _ _)) by lia. done. Qed.

Lemma view_heads_ok {A} (m : mem A) n h d : 0 < h -> 0 < d ->
  view_heads {| DeviceMemory.shape := [n; h * d]; elems := m |} h d = Ok {| DeviceMemory.shape := [n; h; d]; elems := m |}.
Proof.
  intros Hh Hd. unfold view_heads, numel. cbn [DeviceMemory.shape foldr]. rewrite Z.mul_1_r, Z.mod_mul, Z.div_mul, (proj2 (Z.ltb_lt _ _)) by nia. done.
Qed.

(** One layer of a planned batch: as many query heads per key-value head as the
    kernel serves, a query of every request, and finite numbers. *)
Record layer_wf (t : dtype) (layer : RadixAttention) (kv : TriaxialLayerKV) (H D bs : Z) (slots : list Z) (q : tensor spec_float) : Prop := {
  lw_kv : kv_shaped kv H D; lw_D : 0 < D; lw_H : 0 < H;
  lw_dims : qk_head_dim layer = D /\ layer_v_head_dim layer = D;
  lw_group : exists group, tp_q_head_num layer = group * H /\ 0 < group /\ (group <= 16 \/ group mod 16 = 0);
  lw_window : sliding_window_size layer = None \/ sliding_window_size layer = Some (-1);
  lw_q : numel q = bs * (tp_q_head_num layer * D);
  lw_fin : is_finite (scaling layer) = true /\ is_finite (logit_cap layer) = true;
  lw_fin_q : forall i, 0 <= i < numel q -> is_finite (elems q i) = true;
  lw_fin_kv : forall n h d, 0 <= n < zlen slots -> 0 <= h < H -> 0 <= d < D ->
    is_finite (cast_to t (slot_k kv (tget slots n) h d)) = true /\ is_finite (cast_to t (slot_v kv (tget slots n) h d)) = true
}.

(** The conditions of the decode kernels on a planned batch. *)
Lemma step_wf rt fb ctx max_bs (Hfb : batch_wf rt fb ctx max_bs) splits MS (Hsl : zlen splits = zlen (db_seq_lens fb)) (Hsp : Forall (fun n => 1 <= n <= MS) splits)
    t kv H D Hq (q : tensor spec_float) (fresh_o fresh_mem : mem xr) : let bs := zlen (db_seq_lens fb) in
  kv_shaped kv H D -> 0 < D -> 0 < H -> (exists group, Hq = group * H /\ 0 < group /\ (group <= 16 \/ group mod 16 = 0)) ->
  numel q = bs * (Hq * D) -> (forall i, 0 <= i < numel q -> is_finite (elems q i) = true) ->
  (forall n h d, 0 <= n < zlen (request_slots rt fb) -> 0 <= h < H -> 0 <= d < D ->
    is_finite (cast_to t (slot_k kv (tget (request_slots rt fb) n) h d)) = true /\ is_finite (cast_to t (slot_v kv (tget (request_slots rt fb) n) h d)) = true) ->
  decode_wf t kv H D bs Hq MS {| DeviceMemory.shape := [bs; Hq; D]; elems := elems q |} {| DeviceMemory.shape := [bs; Hq; D]; elems := fresh_o |}
    {| DeviceMemory.shape := [bs; Hq; MS; D]; elems := fresh_mem |} (indptr (db_seq_lens fb)) (request_slots rt fb) splits.
Proof.
  intros bs Hs HD HH Hgr Hnq Fq Fkv. pose proof (lens_nonneg rt fb ctx max_bs Hfb) as Hpos. split; [done..|by exists bs|done| | | | |done].
  - unfold indptr, zlen. cbn [length]. unfold cumsum. rewrite cumsum_from_length. unfold bs, zlen. lia.
  - intros r Hr. rewrite !indptr_start, (request_slots_length rt fb ctx max_bs Hfb) by (unfold bs in Hr; lia). rewrite seg_start_succ by done.
    destruct (request_facts rt fb ctx max_bs Hfb r Hr) as (_ & _ & _ & Hn & _). pose proof (seg_start_range _ Hpos r Hr). lia.
  - intros r Hr. rewrite list.Forall_lookup in Hsp. destruct (lookup_lt_is_Some_2 splits (Z.to_nat r)) as [x Ex]; [unfold zlen in Hsl; unfold bs, zlen in Hr; lia|].
    unfold tget. rewrite (list_lookup_total_correct _ _ _ Ex). specialize (Hsp _ _ Ex). simpl in Hsp. lia.
  - intros r h d Hr Hh Hd. apply Fq. rewrite Hnq. cbn [DeviceMemory.shape offset_from]. rewrite Z.mul_0_l, Z.add_0_l. assert (0 <= r * Hq + h < bs * Hq) by nia. rewrite Z.mul_assoc. nia.
Qed.

(** C1: A decode step computes the attention of every request: planning a batch
    succeeds and leaves the backend ready for the next one, and then, for every
    layer, after the new keys and values are stored, [forward_decode] returns for
    every request, query head and channel the reference attention of the query
    over the dequantised slots of the request's row of the table, from position 0
    to its length, in exact arithmetic, whatever the numbers of splits chosen and
    the order in which the programs of the launches run.  The query heads per
    key-value head of a layer are at most 16 or a multiple of 16. *)
Theorem decode_step_exact log2 undef c max_bs D b rt fb order fresh fresh_mem : log2_ok log2 -> config_ok c -> backend_ready c max_bs D b ->
  batch_wf rt fb (cfg_context_len c) max_bs -> order ≡ₚ seqZ 0 (zlen (db_seq_lens fb)) ->
  let bs := zlen (db_seq_lens fb) in
  let slots := request_slots rt fb in
  exists b' md, init_forward_metadata_decode log2 undef order fresh fresh_mem b rt fb = Ok (b', md) /\ backend_ready c max_bs D b' /\
    forall sched order1 order2 fresh_o t H p p1 kv layer save half q k v,
      tp_q_head_num layer = cfg_heads c ->
      (if save : bool then set_kv_buffer_int4 sched p (layer_id layer) (db_out_cache_loc fb) half k v else Ok p) = Ok p1 ->
      layer_kv p1 (layer_id layer) = Ok kv -> layer_wf t layer kv H D bs slots q ->
      order1 ≡ₚ stage1_grid bs (cfg_heads c) (cfg_heads c / H) (max_kv_splits b) -> order2 ≡ₚ stage2_grid bs (cfg_heads c) ->
      exists o, forward_decode sched order1 order2 fresh_o t b' md p layer fb save half false q k v = Ok (o, p1) /\
        DeviceMemory.shape o = [bs; cfg_heads c * D] /\
        forall r h d, 0 <= r < bs -> 0 <= h < cfg_heads c -> 0 <= d < D ->
          at_ o [r; h * D + d] = ref_attention (cfg_heads c) H D (fun b h d => a_load (elems q ((b * cfg_heads c + h) * D + d)))
            (gathered t (ref_dequant_gather slots kv).1) (gathered t (ref_dequant_gather slots kv).2) (indptr (db_seq_lens fb))
            (Fin (sf_R (scaling layer))) (positive_cap (logit_cap layer)) r h d /\
          exists x, at_ o [r; h * D + d] = Fin x.
Proof.
  intros Hlog Hc Hb Hfb Ho bs slots.
  destruct (metadata_planned log2 undef c max_bs D b rt fb order fresh fresh_mem Hlog Hc Hb Hfb Ho) as (b' & splits & E & Hb' & Em & Hsl & Hsp).
  eexists b', _. split; [exact E|]. split; [exact Hb'|]. fold bs slots in E, Hsl |- *.
  intros sched order1 order2 fresh_o t H p p1 kv layer save half q k v EH Ew Ekv [Hs HD HH [Ed1 Ed2] Hgr Hwin Hnq [Fs Fc] Fq Fkv] Ho1 Ho2.
  rewrite EH in Hgr, Hnq. pose proof (co_heads _ Hc) as Hheads. pose proof (bw_bs _ _ _ _ Hfb) as Hbs. fold bs in Hbs.
  unfold forward_decode. rewrite EH, Ed1, Ed2. replace (negb false && _) with true by (destruct Hwin as [-> | ->]; done). cbn [rassert rbind].
  rewrite (view_rows_ok q bs) by nia. cbn [rbind DeviceMemory.shape elems]. rewrite Ew. cbn [rbind]. rewrite !view_heads_ok by lia. cbn [rbind]. rewrite Ekv. cbn [rbind].
  destruct (cap_positive _ Fc) as [Ecap Hcap]. set (cap := if SFltb f_zero (logit_cap layer) then _ else _) in *. rewrite Ecap.
  set (q3 := {| DeviceMemory.shape := [bs; cfg_heads c; D]; elems := elems q |}).
  set (o3 := {| DeviceMemory.shape := [bs; cfg_heads c; D]; elems := fresh_o |}). cbn [kv_indptr kv_indices attn_logits attn_lse num_kv_splits]. rewrite Em.
  set (logits := {| DeviceMemory.shape := _; elems := fresh_mem |}). set (lse := {| DeviceMemory.shape := [bs; _; _]; elems := fresh_mem |}).
  assert (Hwf : decode_wf t kv H D bs (cfg_heads c) (max_kv_splits b) q3 o3 logits (indptr (db_seq_lens fb)) slots splits).
  { by apply (step_wf rt fb (cfg_context_len c) max_bs Hfb splits (max_kv_splits b) Hsl Hsp). }
  destruct (attention_cells t kv H D bs (cfg_heads c) (max_kv_splits b) q3 o3 logits lse (indptr (db_seq_lens fb)) slots splits
    (sf_R (scaling layer)) cap order1 order2 Hwf Hcap Ho1 Ho2) as (o' & Eo & Esh & Hcell).
  cbn [a_load exact]. rewrite (x_load_fin _ Fs). rewrite Eo. cbn [rbind]. eexists. split; [reflexivity|]. split; [done|].
  intros r h d Hr Hh Hd. specialize (Hcell r h d Hr Hh Hd). rewrite (at_row3 o' (cfg_heads c) D) in Hcell by (by rewrite Esh).
  unfold at_ at 1 2. cbn [with_elems DeviceMemory.shape elems offset_from]. 
  replace ((0 * bs + r) * (cfg_heads c * D) + (h * D + d)) with ((r * cfg_heads c + h) * D + d) by ring. exact Hcell.
Qed.

(** ** Witness *)

(** The integer part of the binary logarithm of a positive number. *)
Definition floor_log2 (x : spec_float) : spec_float :=
  f32_of_Z (match x with S754_finite false m e => Z.max (-149) (Z.min 128 (Z.log2 (Z.pos m) + e)) | _ => 0 end).

Lemma floor_log2_ok : log2_ok floor_log2.
Proof.
  intros n _. unfold floor_log2. set (k := match _ with S754_finite false m e => _ | _ => _ end).
  assert (Hk : 0 <= k + 149 < 278) by (unfold k; destruct (f32_div _ _) as [| | |[] m e]; lia). clearbody k. cbv zeta.
  assert (Hall : forallb (fun i => valid_binary 24 128 (f32_of_Z (i - 149)) &&
    match f32_of_Z (i - 149) with S754_zero _ => true | S754_finite _ m e => Z.pos (digits2_pos m) + e <=? 8 | _ => false end) (seqZ 0 278) = true) by (vm_compute; reflexivity).
  apply (forallb_seqZ _ 278 (k + 149)) in Hall; [|done]. cbv beta in Hall. replace (k + 149 - 149) with k in Hall by lia. apply andb_true_iff in Hall as [H1 H2].
  split; [exact H1|]. destruct (f32_of_Z k); try done. by apply Z.leb_le.
Qed.

(** A backend for two query heads on one key-value head, and one request of three tokens in row 1 of the table. *)
Definition toy_config : split_config :=
  {| cfg_heads := 2; cfg_kv_heads := 1; cfg_context_len := 8; cfg_cores := 4; cfg_static := false; cfg_num_kv_splits := 2;
     cfg_deterministic := false; cfg_env_tile := 256; cfg_arg_tile := None |}.
Definition toy_table : ReqToTokenPool :=
  {| pool_size := 2; max_context_len := 8; req_to_token := [replicate 8 0; [65; 33; 66; 0; 0; 0; 0; 0]]; free_slots := [] |}.
Definition toy_batch : DecodeForwardBatch := {| db_req_pool_indices := [1]; db_seq_lens := [3]; db_seq_lens_sum := 3; db_out_cache_loc := [66] |}.
Definition toy_attention : RadixAttention :=
  {| layer_id := 0; tp_q_head_num := 2; qk_head_dim := 64; layer_v_head_dim := 64; scaling := f32_div (f32_of_Z 1) (f32_of_Z 8); logit_cap := f32_of_Z 30; sliding_window_size := Some (-1) |}.
Definition toy_backend : TritonAttnBackend :=
  match init_with toy_config 2 64 with Ok b => b | Err _ => {| num_head := 0; num_kv_head := 0; v_head_dim := 0; device_core_count := 0; static_kv_splits := false;
    max_kv_splits := 0; enable_deterministic := false; split_tile_size := None; kv_indptr_buf := [] |} end.

Lemma toy_backend_ready : backend_ready toy_config 2 64 toy_backend.
Proof. apply init_ready; [lia|reflexivity]. Qed.

Lemma toy_config_ok : config_ok toy_config.
Proof. by split; cbn; lia || done. Qed.

Lemma toy_batch_wf : batch_wf toy_table toy_batch 8 2.
Proof. split; [repeat constructor|cbn; lia|vm_compute; split; [done|discriminate]|done|repeat constructor; discriminate|repeat constructor; discriminate|done]. Qed.

(** The pool after the new token is stored. *)
Definition toy_pool1 : TriaxialKVPool :=
  match set_kv_buffer_int4 toy_sched toy_pool 0 [66] true (toy_x 1 29) (toy_x 1 31) with Ok p => p | Err _ => toy_pool end.
Definition toy_kv1 : TriaxialLayerKV := match layer_kv toy_pool1 0 with Ok kv => kv | Err _ => toy_layer end.

Lemma toy_layer_wf : layer_wf BF16 toy_attention toy_kv1 1 64 1 (request_slots toy_table toy_batch) (toy_x 2 29).
Proof.
  split; [|lia|lia|done|exists 2; split; [done|]; split; [lia|]; left; lia|by right|done|done|..].
  - split; vm_compute; try reflexivity. split; [discriminate|reflexivity].
  - intros i Hi. assert (Hall : forallb (fun i => is_finite (elems (toy_x 2 29) i)) (seqZ 0 128) = true) by (vm_compute; reflexivity).
    by apply (forallb_seqZ _ 128 i) in Hall.
  - intros n h d Hn Hh Hd. assert (h = 0) as -> by lia.
    assert (Hall : forallb (fun n => forallb (fun d => is_finite (cast_to BF16 (slot_k toy_kv1 (tget (request_slots toy_table toy_batch) n) 0 d)) &&
      is_finite (cast_to BF16 (slot_v toy_kv1 (tget (request_slots toy_table toy_batch) n) 0 d))) (seqZ 0 64)) (seqZ 0 3) = true) by (vm_compute; reflexivity).
    apply (forallb_seqZ _ 3 n) in Hall; [|done]. apply (forallb_seqZ _ 64 d) in Hall; [|done]. by apply andb_true_iff in Hall.
Qed.

Lemma decode_step_exact_witness : exists b' md o,
  init_forward_metadata_decode floor_log2 0 [0] (fun i => i) (fun _ => Undef) toy_backend toy_table toy_batch = Ok (b', md) /\
  forward_decode toy_sched (rev (stage1_grid 1 2 2 2)) (stage2_grid 1 2) (fun _ => Undef) BF16 b' md toy_pool toy_attention toy_batch true true false
    (toy_x 2 29) (toy_x 1 29) (toy_x 1 31) = Ok (o, toy_pool1) /\
  exists x, at_ o [0; 69] = Fin x.
Proof.
  destruct (decode_step_exact floor_log2 0 toy_config 2 64 toy_backend toy_table toy_batch [0] (fun i => i) (fun _ => Undef)
    floor_log2_ok toy_config_ok toy_backend_ready toy_batch_wf (Permutation_refl _)) as (b' & md & E & _ & Hl).
  destruct (Hl toy_sched (rev (stage1_grid 1 2 2 2)) (stage2_grid 1 2) (fun _ => Undef) BF16 1 toy_pool toy_pool1 toy_kv1 toy_attention true true
    (toy_x 2 29) (toy_x 1 29) (toy_x 1 31)) as (o & Eo & _ & Hc); [reflexivity|vm_compute; reflexivity|vm_compute; reflexivity|exact toy_layer_wf|
    symmetry; apply Permutation_rev|reflexivity|].
  exists b', md, o. split; [exact E|]. split; [exact Eo|]. apply (Hc 0 1 5); vm_compute; split; reflexivity || discriminate.
Defined.
