(* ===== verification/KVAllocator.v ===== *)
(** * The allocator interface

    What the prefix cache and the batch allocation need of a KV slot allocator,
    as a class of operations and a class of laws, with the token allocator and
    the TriAxialKV allocator as instances. *)

From S2P Require Import Prelude Tensors BaseAllocator TokenAllocator TriaxialPool TriaxialAllocator TriaxialAllocatorTheory TriaxialInvariant.

Class KVAllocator (A : Type) := {
  kv_alloc : A -> Z -> option (list Z) * A;
  kv_free : A -> list Z -> A;
  kv_available : A -> Z;
  (** whether a request for [n] slots makes the caller evict first *)
  kv_short : A -> Z -> bool;
  (** slots the scheduler counts on for a prefill, and for a decode step *)
  kv_admission : A -> result Z;
  kv_decode_available : A -> Z
}.

(** Free groups: slots freed between begin and end return together. *)
Class KVGroup (A : Type) := {
  kv_group_begin : A -> A;
  kv_group_end : A -> A
}.

(** [kv_inv a owned]: the slots in [owned] are held by callers, once each, and
    none of them is free. *)
Class KVAllocatorLaws (A : Type) `{KVAllocator A} := {
  kv_inv : A -> list Z -> Prop;
  kv_inv_perm a l k : l ≡ₚ k -> kv_inv a l -> kv_inv a k;
  kv_free_inv a l owned : kv_inv a (l ++ owned) -> kv_inv (kv_free a l) owned;
  kv_alloc_inv a n out a' owned :
    0 <= n -> kv_inv a owned -> kv_alloc a n = (Some out, a') -> zlen out = n /\ kv_inv a' (out ++ owned);
  kv_alloc_none a n a' owned : 0 <= n -> kv_inv a owned -> kv_alloc a n = (None, a') -> kv_inv a' owned
}.

#[global] Instance kv_inv_proper `{KVAllocatorLaws A} a : Proper ((≡ₚ) ==> iff) (kv_inv a).
Proof. intros l k Hp. split; apply kv_inv_perm; [done|by symmetry]. Qed.

(** Releasing several tensors, one call each. *)
Lemma kv_free_all `{KVAllocatorLaws A} a vs owned :
  kv_inv a (concat vs ++ owned) -> kv_inv (foldl kv_free a vs) owned.
Proof.
  revert a. induction vs as [|v vs IH]; intros a Hi; [done|]. simpl in *. apply IH, kv_free_inv.
  by rewrite app_assoc.
Qed.

(** ** Instances *)

#[global] Instance token_allocator : KVAllocator BaseAllocator := {|
  kv_alloc := TokenAllocator.alloc;
  kv_free := TokenAllocator.free;
  kv_available := TokenAllocator.available_size;
  kv_short := fun a n => TokenAllocator.available_size a <? n;
  kv_admission := fun a => Ok (TokenAllocator.available_size a);
  kv_decode_available := TokenAllocator.available_size
|}.

#[global] Instance token_group : KVGroup BaseAllocator := {|
  kv_group_begin := BaseAllocator.free_group_begin;
  kv_group_end := TokenAllocator.group_end
|}.

#[global] Program Instance token_allocator_laws : KVAllocatorLaws BaseAllocator := {| kv_inv := token_inv |}.
Next Obligation. intros a l k Hp. simpl. by rewrite Hp. Qed.
Next Obligation. intros a l owned. apply token_inv_free. Qed.
Next Obligation. intros a n out a' owned Hn Hi E. apply (token_inv_alloc _ _ _ _ _ Hi Hn E). Qed.
Next Obligation. intros a n a' owned Hn Hi E. apply (token_inv_alloc _ _ _ _ _ Hi Hn E). Qed.

#[global] Instance triaxial_allocator : KVAllocator TriaxialAllocator := {|
  kv_alloc := TriaxialAllocator.alloc;
  kv_free := TriaxialAllocator.free;
  kv_available := TriaxialAllocator.available_size;
  kv_short := fun a n => (TriaxialAllocator.available_size a <? n) || (TriaxialAllocator.available_size_int4 a <? n);
  kv_admission := TriaxialAllocator.admission_size;
  kv_decode_available := TriaxialAllocator.available_size_int4
|}.

#[global] Instance triaxial_group : KVGroup TriaxialAllocator := {|
  kv_group_begin := TriaxialAllocator.free_group_begin;
  kv_group_end := TriaxialAllocator.free_group_end
|}.

Lemma inv_perm a l k : l ≡ₚ k -> inv a l -> inv a k.
Proof.
  intros Hp [I1 I2 I3 I4 I5 I6 I7 I8 I9 I10 I11 I12 I13]. split; try done.
  - by rewrite <- (filter_perm _ _ _ Hp).
  - intros p Hr. rewrite <- (in_page_perm p l k Hp). by apply I10.
  - by rewrite <- Hp.
  - intros s. rewrite <- Hp. apply I12.
Qed.

Lemma real_perm l k : l ≡ₚ k -> real l ≡ₚ real k.
Proof. apply filter_perm. Qed.

#[global] Program Instance triaxial_allocator_laws : KVAllocatorLaws TriaxialAllocator := {|
  kv_inv := fun a owned => inv a (pending a ++ real owned)
|}.
Next Obligation. intros a l k Hp. simpl. apply inv_perm. by rewrite (real_perm _ _ Hp). Qed.
Next Obligation. intros a l owned. simpl. rewrite real_app. apply inv_free. Qed.
Next Obligation.
  intros a n out a' owned Hn Hi E. simpl in *. pose proof (inv_alloc _ _ _ _ _ Hi Hn E) as Hi'.
  unfold alloc in E. destruct (Z.ltb_spec (zlen (free_slots4 a)) n) as [|Hge]; [done|]. injection E as Eo <-.
  rewrite slice_to_take in Eo by done. split; [rewrite <- Eo; apply zlen_take; lia|].
  rewrite real_app. replace (real out) with out.
  - eapply inv_perm; [|exact Hi']. change (pending (set_free4 a _)) with (pending a). apply Permutation_app_swap_app.
  - symmetry. apply filter_all. intros s Hs.
    pose proof (inv_owned_range _ _ Hi' s ltac:(apply elem_of_app; by left)). bool_lia.
Qed.
Next Obligation.
  intros a n a' owned _ Hi E. simpl in *. unfold alloc in E.
  destruct (zlen (free_slots4 a) <? n); [|done]. by injection E as <-.
Qed.
