(* ===== verification/ReqCache.v ===== *)
(** * Caching requests

    [cache_finished_req] and [cache_unfinished_req] of [RadixCache]
    ([srt/mem_cache/radix_cache.py]) and the class [ChunkCache]
    ([srt/mem_cache/chunk_cache.py]), over any slot allocator.  [Mem] is what
    these methods share: the tree, the allocator and the request table. *)

From S2P Require Import Prelude Tensors RadixKeys RadixCache Request ReqPool KVAllocator.

Record Mem (A : Type) := { tree_cache : RadixCache; allocator : A; req_pool : ReqToTokenPool }.
Arguments tree_cache {A}. Arguments allocator {A}. Arguments req_pool {A}. Arguments Build_Mem {A}.

Definition with_tree {A} (m : Mem A) (t : RadixCache) : Mem A :=
  {| tree_cache := t; allocator := allocator m; req_pool := req_pool m |}.
Definition with_allocator {A} (m : Mem A) (a : A) : Mem A :=
  {| tree_cache := tree_cache m; allocator := a; req_pool := req_pool m |}.
Definition with_pool {A} (m : Mem A) (p : ReqToTokenPool) : Mem A :=
  {| tree_cache := tree_cache m; allocator := allocator m; req_pool := p |}.

Section reqcache.
Context (monotonic : nat -> Z) (get_hash_str : list tok -> option string -> string).
Context {A : Type} `{KVAllocator A}.

Definition release (m : Mem A) (l : list Z) : Mem A := with_allocator m (kv_free (allocator m) l).

(** Tree keys of a token sequence: bigrams for EAGLE, whole pages only. *)
Definition tree_keys (st : RadixCache) (ids : list Z) : list tok :=
  let toks := map (fun t => (t, None)) ids in
  page_align_keys (if is_eagle st then convert_to_bigram_key toks else toks) (RadixCache.page_size st).

Definition tree_key (st : RadixCache) (ids : list Z) (ek : option string) : RadixKey :=
  {| token_ids := tree_keys st ids; RadixKeys.extra_key := ek; is_bigram := is_eagle st |}.

Definition dec_last_node (m : Mem A) (n : option nat) : result (Mem A) :=
  match n with
  | Some n => let! (_, t) := dec_lock_ref (tree_cache m) n in Ok (with_tree m t)
  | None => Err TypeError
  end.

Definition cache_finished_req (m : Mem A) (r : Req) (is_insert : bool) : result (Mem A * Req) :=
  let st := tree_cache m in
  let is_insert := if disable_finished_insert st then false else is_insert in
  let! (committed, r) := pop_committed_kv_cache r in
  let! row := get_row (req_pool m) (req_pool_idx (kv r)) in
  if disable st then Ok (release m (slice_to row committed), r)
  else
    let ids := slice_to (origin_input_ids r ++ output_ids r) committed in
    let kv_indices := slice_to row (zlen ids) in
    let keys := tree_keys st ids in
    let values := slice_to kv_indices (zlen keys) in
    let prot := cache_protected_len (pre r) in
    let! m1 :=
      if is_insert then
        let! (new_prefix_len, t) :=
          insert monotonic get_hash_str st (tree_key st ids (extra_key (info r))) (Some values)
            (Some (default 0 (priority (info r)))) false in
        Ok (release (with_tree m t) (py_slice kv_indices prot new_prefix_len))
      else Ok (release m (py_slice kv_indices prot (zlen keys))) in
    let m2 := release m1 (slice_from kv_indices (zlen keys)) in
    let! m3 := dec_last_node m2 (last_node (pre r)) in
    Ok (m3, r).

(** Called while no free group is open: an open group would keep the freed
    slice as a view of the row that is rewritten below. *)
Definition cache_unfinished_req (m : Mem A) (r : Req) (chunked : bool) : result (Mem A * Req) :=
  let st := tree_cache m in
  if disable st then Ok (m, r)
  else
    let p := pre r in
    let! row := get_row (req_pool m) (req_pool_idx (kv r)) in
    let kv_indices := slice_to row (zlen (fill_ids p)) in
    let keys := tree_keys st (fill_ids p) in
    let values := slice_to kv_indices (zlen keys) in
    let k := tree_key st (fill_ids p) (extra_key (info r)) in
    let prot := cache_protected_len p in
    let! (new_prefix_len, t1) :=
      insert monotonic get_hash_str st k (Some values) (Some (default 0 (priority (info r)))) chunked in
    let m1 := release (with_tree m t1) (py_slice kv_indices prot new_prefix_len) in
    let! (mr, t2) := match_prefix monotonic t1 k in
    let new_indices := device_indices mr in
    let! _ := rassert (zlen new_indices =? zlen keys) in
    let! pool' := write_slice (req_pool m1) (req_pool_idx (kv r)) prot (zlen new_indices) (slice_from new_indices prot) in
    let m2 := with_pool (with_tree m1 t2) pool' in
    let! m3 := dec_last_node m2 (last_node p) in
    let! (_, t3) := inc_lock_ref (tree_cache m3) (last_device_node mr) in
    (* [kv_indices] is a view of the row: it shows the slots just written *)
    let! row' := get_row pool' (req_pool_idx (kv r)) in
    let kv_now := slice_to row' (zlen (fill_ids p)) in
    let ids := if zlen new_indices <? zlen kv_indices
               then new_indices ++ slice_from kv_now (zlen new_indices) else new_indices in
    Ok (with_tree m3 t3,
        set_pre r (set_prefix p ids (Some (last_device_node mr)) (host_hit_length p) (zlen new_indices))).

(** ** Without a prefix cache *)

Definition chunk_cache_finished_req (m : Mem A) (r : Req) : result (Mem A * Req) :=
  let! (committed, r) := pop_committed_kv_cache r in
  let! row := get_row (req_pool m) (req_pool_idx (kv r)) in
  Ok (release m (slice_to row committed), r).

Definition chunk_cache_unfinished_req (m : Mem A) (r : Req) : result (Mem A * Req) :=
  let p := pre r in
  let! row := get_row (req_pool m) (req_pool_idx (kv r)) in
  Ok (m, set_pre r (set_prefix p (slice_to row (zlen (fill_ids p))) (last_node p) (host_hit_length p) (cache_protected_len p))).

Definition chunk_match_prefix : list Z := [].
Definition chunk_insert : Z := 0.
Definition chunk_evict : Z := 0.

(** [release_kv_cache] ([srt/mem_cache/common.py]) without mamba states; [spec]
    tells whether speculative decoding is on and [page] is the server's page
    size. *)
Definition ceil_align (x a : Z) : Z := (x + a - 1) / a * a.

Definition release_kv_cache (spec : bool) (page : Z) (m : Mem A) (r : Req) (is_insert : bool) : result (Mem A * Req) :=
  let! _ := rassert (negb (is_none (req_pool_idx (kv r)))) in
  let! (m1, r1) := cache_finished_req m r is_insert in
  let! (start_p, end_p, r2) := pop_overallocated_kv_cache r1 in
  let! _ := if spec then Ok tt else rassert (start_p =? end_p) in
  let start_p := if 1 <? page then ceil_align start_p page else start_p in
  let! m2 :=
    if start_p <? end_p then
      let! row := get_row (req_pool m1) (req_pool_idx (kv r2)) in
      Ok (release m1 (py_slice row start_p end_p))
    else Ok m1 in
  let! (pool', r3) := free (req_pool m2) r2 in
  Ok (with_pool m2 pool', r3).
End reqcache.
