(* ===== verification/ReqCacheProps.v ===== *)
(** * Caching requests: no slot is lost or freed twice

    How [cache_finished_req] and [cache_unfinished_req] distribute the slots of
    a request between the tree and the allocator, for every allocator that
    satisfies the interface. *)

From S2P Require Import Prelude Tensors BaseAllocator TokenAllocator RadixKeys RadixKeysTheory RadixCache RadixTheory RadixSplit RadixWalk RadixInsert RadixOps RadixLocks RadixEvict RadixFacts RadixProps Request ReqPool KVAllocator ReqCache.

(** ** Slots under the cache operations *)


(** A row whose first [length ni] entries are replaced by [ni], its first [p]
    entries being already those of [ni]. *)
Lemma row_merge (row ni : list Z) p k : (p <= length ni <= k)%nat -> (k <= length row)%nat ->
  take p ni = take p (take k row) ->
  take p row ++ drop p ni ++ drop (length ni) row = ni ++ drop (length ni) row /\
  take k (ni ++ drop (length ni) row) = ni ++ drop (length ni) (take k row).
Proof.
  intros Hp Hk Hs. rewrite take_take, Nat.min_l in Hs by lia. split.
  - by rewrite <- Hs, app_assoc, take_drop.
  - rewrite take_app_ge by lia. f_equal. symmetry. apply skipn_firstn_comm.
Qed.

Section slots.
Context (mono : nat -> Z) (gh : list tok -> option string -> string).

Lemma relocked_slots d D st st' L : relocked d D st st' -> tree_slots st' L = tree_slots st L.
Proof.
  intros Hr. apply tree_slots_ext. intros n _. unfold node_slots. rewrite (rl_nodes _ _ _ _ Hr).
  destruct (nodes st !! n); simpl; [|done]. by destruct (decide (n ∈ D)).
Qed.

Lemma insert_slots st H k v prio chunked m st' :
  rreach mono gh st H -> insertable st k v -> insert mono gh st k (Some v) prio chunked = Ok (m, st') ->
  held_slots st' ≡ₚ drop (Z.to_nat m) (ins_val st k v) ++ held_slots st.
Proof.
  intros Hr Hok E. destruct (rreach_inv _ _ _ _ Hr) as (Hc & L & pl & Hi).
  destruct (insert_spec mono gh st L pl k v prio chunked (ri_tree _ _ _ _ Hi) (ri_acct _ _ _ _ Hi) Hc Hok)
    as (m' & w & s & L' & pl' & E' & Hin). rewrite E in E'. injection E' as <- <-.
  rewrite (held_slots_perm _ _ _ (in_tree _ _ _ _ _ _ _ _ _ Hin)), (held_slots_perm _ _ _ (ri_tree _ _ _ _ Hi)). apply Hin.
Qed.

Lemma match_slots st H k r st' : rreach mono gh st H -> match_prefix mono st k = Ok (r, st') -> held_slots st' ≡ₚ held_slots st.
Proof.
  intros Hr E. destruct (rreach_inv _ _ _ _ Hr) as (Hc & L & pl & Hi).
  destruct (match_prefix_spec mono st L pl k (ri_tree _ _ _ _ Hi) (proj1 Hc)) as (r' & s & L' & pl' & E' & He & _).
  rewrite E in E'. injection E' as <- <-.
  rewrite (held_slots_perm _ _ _ (ex_tree _ _ _ _ _ He)), (held_slots_perm _ _ _ (ri_tree _ _ _ _ Hi)). apply He.
Qed.

Lemma match_config st H k r st' : rreach mono gh st H -> match_prefix mono st k = Ok (r, st') ->
  RadixCache.page_size st' = RadixCache.page_size st /\ is_eagle st' = is_eagle st.
Proof.
  intros Hr E. destruct (rreach_inv _ _ _ _ Hr) as (Hc & L & pl & Hi).
  destruct (match_prefix_spec mono st L pl k (ri_tree _ _ _ _ Hi) (proj1 Hc)) as (r' & s & L' & pl' & E' & He & _).
  rewrite E in E'. injection E' as <- <-. split; apply He.
Qed.

Lemma dec_step st n H : rreach mono gh st (n :: H) ->
  exists d st', dec_lock_ref st n = Ok (d, st') /\ rreach mono gh st' H /\ held_slots st' ≡ₚ held_slots st /\
    forall s a ks vs, reach st s a ks vs <-> reach st' s a ks vs.
Proof.
  intros Hr. destruct (rreach_inv _ _ _ _ Hr) as (Hc & L & pl & Hi).
  destruct (dec_lock_ref_spec st L pl H n Hi (proj1 Hc)) as (P & st' & _ & E & Hi' & Hrl & _).
  eexists _, st'. split; [done|]. split; [by eapply rreach_dec|]. split.
  - rewrite (held_slots_perm _ _ _ (ri_tree _ _ _ _ Hi')), (held_slots_perm _ _ _ (ri_tree _ _ _ _ Hi)).
    by rewrite (relocked_slots _ _ _ _ _ Hrl).
  - intros. by eapply relocked_reach.
Qed.

Lemma relocked_key d D st st' n x : relocked d D st st' -> nodes st' !! n = Some x ->
  exists y, nodes st !! n = Some y /\ key y = key x.
Proof.
  intros Hr Hx. destruct (relocked_back _ _ _ _ _ _ Hr Hx) as (y & Hy).
  destruct (relocked_lookup _ _ _ _ _ _ Hr Hy) as (x2 & Hx2 & _ & _ & E3 & _). exists y. split; [done|]. congruence.
Qed.

(** Moving a request's lock from one node to another. *)
Lemma move_lock st n H a ks vs : rreach mono gh st (n :: H) -> reach st (root_node st) a ks vs ->
  exists d1 st1 d2 st2, dec_lock_ref st n = Ok (d1, st1) /\ inc_lock_ref st1 a = Ok (d2, st2) /\
    rreach mono gh st2 (a :: H) /\ held_slots st2 ≡ₚ held_slots st /\ reach st2 (root_node st2) a ks vs /\
    RadixCache.page_size st2 = RadixCache.page_size st /\ is_eagle st2 = is_eagle st /\
    forall x, nodes st2 !! a = Some x -> exists y, nodes st !! a = Some y /\ key y = key x.
Proof.
  intros Hr Hre. destruct (rreach_inv _ _ _ _ Hr) as (Hc & L & pl & Hi).
  pose proof (reach_live _ _ _ _ _ _ _ (ri_tree _ _ _ _ Hi) (tr_root _ _ _ (ri_tree _ _ _ _ Hi)) Hre) as Ha.
  destruct (dec_lock_ref_spec st L pl H n Hi (proj1 Hc)) as (P1 & st1 & _ & E1 & Hi1 & Hl1 & _).
  assert (Hd1 : disable st1 = false) by (rewrite (rl_disable _ _ _ _ Hl1); apply Hc).
  destruct (inc_lock_ref_spec st1 L pl H a Hi1 Ha Hd1) as (P2 & st2 & _ & E2 & Hi2 & Hl2 & _).
  assert (Hre1 : reach st1 (root_node st1) a ks vs) by (rewrite (rl_root _ _ _ _ Hl1); exact (proj1 (relocked_reach _ _ _ _ _ _ _ _ Hl1) Hre)).
  eexists _, st1, _, st2. split; [exact E1|]. split; [exact E2|]. split_and!.
  - eapply rreach_inc; [by eapply rreach_dec|exact Hre1|exact E2].
  - rewrite (held_slots_perm _ _ _ (ri_tree _ _ _ _ Hi2)), (held_slots_perm _ _ _ (ri_tree _ _ _ _ Hi)).
    by rewrite (relocked_slots _ _ _ _ _ Hl2), (relocked_slots _ _ _ _ _ Hl1).
  - rewrite (rl_root _ _ _ _ Hl2). exact (proj1 (relocked_reach _ _ _ _ _ _ _ _ Hl2) Hre1).
  - by rewrite (rl_ps _ _ _ _ Hl2), (rl_ps _ _ _ _ Hl1).
  - by rewrite (rl_eagle _ _ _ _ Hl2), (rl_eagle _ _ _ _ Hl1).
  - intros x Hx. destruct (relocked_key _ _ _ _ _ _ Hl2 Hx) as (y & Hy & Ek).
    destruct (relocked_key _ _ _ _ _ _ Hl1 Hy) as (z & Hz & Ek'). exists z. split; [done|congruence].
Qed.

(** ** Keys of a request *)

Lemma adjacent_length l : (length (adjacent l) <= length l)%nat.
Proof. induction l as [|a [|b l] IH]; simpl in *; lia. Qed.

Lemma tree_keys_len st ids : zlen (tree_keys st ids) <= zlen ids.
Proof.
  unfold tree_keys, page_align_keys.
  set (ks := if is_eagle st then _ else _).
  assert (Hk : zlen ks <= zlen ids).
  { unfold ks, zlen. destruct (is_eagle st); [|by rewrite length_map].
    unfold convert_to_bigram_key. destruct ids as [|i ids]; [done|]. simpl map. cbn [is_tuple snd].
    destruct (_ <? 2); [simpl; lia|]. pose proof (adjacent_length (map (fun t => (t, None)) (i :: ids))) as Ha.
    rewrite length_map in Ha. simpl in *. lia. }
  destruct (RadixCache.page_size st =? 1); [done|]. unfold slice_to, py_slice, zlen in *.
  rewrite length_take, length_drop. lia.
Qed.

Lemma tree_keys_aligned st ids : 1 <= RadixCache.page_size st -> aligned (RadixCache.page_size st) (tree_keys st ids).
Proof.
  intros HP. unfold tree_keys, page_align_keys. set (ks := if is_eagle st then _ else _). unfold aligned.
  destruct (Z.eqb_spec (RadixCache.page_size st) 1) as [->|Hne]; [apply Z.mod_1_r|].
  pose proof (zlen_nonneg ks). assert (0 <= zlen ks / RadixCache.page_size st) by (apply Z.div_pos; lia).
  rewrite slice_to_take by nia. pose proof (Z.mul_div_le (zlen ks) (RadixCache.page_size st) ltac:(lia)).
  rewrite zlen_take by nia. apply Z.mod_mul. lia.
Qed.

Lemma tree_key_ins st ids ek : ins_key st (tree_key st ids ek) = tree_key st ids ek.
Proof. unfold ins_key, maybe_bigram_convert, tree_key. simpl. by destruct (is_eagle st). Qed.

Lemma tree_val_ins st ids ek v : ins_val st (tree_key st ids ek) v = v.
Proof. unfold ins_val, maybe_bigram_convert, tree_key. simpl. by destruct (is_eagle st). Qed.

Lemma tree_key_insertable st ids ek v :
  1 <= RadixCache.page_size st -> zlen v = zlen (tree_keys st ids) -> insertable st (tree_key st ids ek) v.
Proof.
  intros HP Hl. unfold insertable. rewrite tree_key_ins, tree_val_ins. split; [by apply tree_keys_aligned|done].
Qed.

(** ** The prefix a request holds in the tree *)

(** The first [prot] slots of the request are those of its node's path. *)
Record prefix_held (st : RadixCache) (keys : list tok) (ek : option string) (slots : list Z) (n : nat) (prot : Z) : Prop := {
  ph_range : 0 <= prot <= zlen keys;
  ph_mod : prot mod RadixCache.page_size st = 0;
  ph_reach : reach st (root_node st) n (take (Z.to_nat prot) keys) (take (Z.to_nat prot) slots);
  ph_extra : 0 < prot -> forall x, nodes st !! n = Some x -> RadixKeys.extra_key (key x) = ek
}.

Lemma prefix_held_ext st keys ek slots slots' n prot : take (Z.to_nat prot) slots = take (Z.to_nat prot) slots' ->
  prefix_held st keys ek slots n prot -> prefix_held st keys ek slots' n prot.
Proof. intros E [H1 H2 H3 H4]. split; [done|done|by rewrite <- E|done]. Qed.

Lemma held_stored st L pl keys ek slots n prot : tree st L pl -> prefix_held st keys ek slots n prot -> 0 < prot ->
  stored st ek (take (Z.to_nat prot) keys) (take (Z.to_nat prot) slots).
Proof.
  intros Ht [H1 H2 H3 H4] Hp. pose proof (reach_live _ _ _ _ _ _ _ Ht (tr_root _ _ _ Ht) H3) as Hn.
  destruct (tree_value _ _ _ _ Ht Hn) as (x & _ & Hx & _).
  exists n, x, (take (Z.to_nat prot) keys), (take (Z.to_nat prot) slots), (Z.to_nat prot).
  rewrite !take_take, !Nat.min_id. split_and!; try done. by apply H4.
Qed.

(** Insertion finds at least the prefix the request holds. *)
Lemma held_prefix_found st L pl keys ek slots n prot q m :
  tree st L pl -> prefix_held st keys ek slots n prot -> token_ids q = keys -> RadixKeys.extra_key q = ek ->
  longest st q m -> 0 <= m -> prot <= m.
Proof.
  intros Ht Hh Ek Ee Hl Hm. pose proof Hh as [H1 H2 _ _]. destruct (decide (0 < prot)) as [Hp|]; [|lia].
  subst. apply (Hl _ _ prot (held_stored _ _ _ _ _ _ _ _ Ht Hh Hp)); try done; unfold key_len; lia.
Qed.

Lemma split4 {B} (l : list B) a b c :
  0 <= a <= b -> b <= c -> c <= zlen l ->
  drop (Z.to_nat a) l = py_slice l a b ++ drop (Z.to_nat b) (take (Z.to_nat c) l) ++ drop (Z.to_nat c) l.
Proof.
  intros H1 H2 H3. rewrite py_slice_take_drop by lia.
  rewrite <- (take_drop (Z.to_nat (b - a)) (drop (Z.to_nat a) l)) at 1. f_equal.
  rewrite drop_drop. replace (Z.to_nat a + Z.to_nat (b - a))%nat with (Z.to_nat b) by lia.
  rewrite <- (take_drop (Z.to_nat (c - b)) (drop (Z.to_nat b) l)) at 1. rewrite drop_drop.
  replace (Z.to_nat b + Z.to_nat (c - b))%nat with (Z.to_nat c) by lia. f_equal.
  rewrite <- skipn_firstn_comm || rewrite firstn_skipn_comm. f_equal. f_equal. lia.
Qed.

(** ** Nodes in place

    Insertion, lookup, locking and unlocking leave every node where it is: the
    tokens and slots of its path and its namespace stay the same. *)
Record keeps (st st' : RadixCache) : Prop := {
  kp_page : RadixCache.page_size st' = RadixCache.page_size st;
  kp_eagle : is_eagle st' = is_eagle st;
  kp_reach : forall h ks vs, reach st (root_node st) h ks vs -> reach st' (root_node st') h ks vs;
  kp_extra : forall h ks vs y, reach st (root_node st) h ks vs -> nodes st' !! h = Some y ->
    exists x, nodes st !! h = Some x /\ RadixKeys.extra_key (key x) = RadixKeys.extra_key (key y)
}.

Lemma keeps_trans st1 st2 st3 : keeps st1 st2 -> keeps st2 st3 -> keeps st1 st3.
Proof.
  intros [A1 A2 A3 A4] [B1 B2 B3 B4]. split; try congruence; eauto.
  intros h ks vs z Hre Hz. destruct (B4 h ks vs z (A3 _ _ _ Hre) Hz) as (y & Hy & <-). by apply (A4 h ks vs y).
Qed.

Lemma relocked_keeps d D st st' : relocked d D st st' -> keeps st st'.
Proof.
  intros Hl. split; [apply Hl|apply Hl| |].
  - intros h ks vs Hre. rewrite (rl_root _ _ _ _ Hl). exact (proj1 (relocked_reach _ _ _ _ _ _ _ _ Hl) Hre).
  - intros h ks vs y _ Hy. destruct (relocked_key _ _ _ _ _ _ Hl Hy) as (x & Hx & E1). exists x. by rewrite E1.
Qed.

Lemma live_keeps st st' L pl : tree st L pl -> RadixCache.page_size st' = RadixCache.page_size st -> is_eagle st' = is_eagle st ->
  (forall h ks vs, reach st (root_node st) h ks vs -> reach st' (root_node st') h ks vs) ->
  (forall n x, n ∈ L -> nodes st !! n = Some x -> exists y, nodes st' !! n = Some y /\ RadixKeys.extra_key (key y) = RadixKeys.extra_key (key x)) ->
  keeps st st'.
Proof.
  intros Ht E1 E2 Hre Hex. split; try done. intros h ks vs y Hh Hy. pose proof (reach_live _ _ _ _ _ _ _ Ht (tr_root _ _ _ Ht) Hh) as HL.
  destruct (tree_value _ _ _ _ Ht HL) as (x & vx & Hx & _). exists x. split; [done|].
  destruct (Hex h x HL Hx) as (y' & Hy' & E). rewrite Hy in Hy'. by injection Hy' as <-.
Qed.

Lemma inserted_keeps st L pl k v st' L' pl' m w : tree st L pl -> inserted st L k v st' L' pl' m w -> keeps st st'.
Proof. intros Ht Hin. eapply live_keeps; [exact Ht|apply Hin..]. Qed.

Lemma ext_keeps st L pl st' L' pl' : tree st L pl -> ext st L st' L' pl' -> keeps st st'.
Proof.
  intros Ht He. eapply live_keeps; [exact Ht|apply He|apply He| |apply He].
  intros h ks vs Hre. rewrite (ex_root _ _ _ _ _ He). by apply (ex_reach _ _ _ _ _ He _ _ _ _ (tr_root _ _ _ Ht)).
Qed.

Lemma lookup_keeps st H k r st' : rreach mono gh st H -> match_prefix mono st k = Ok (r, st') -> keeps st st'.
Proof.
  intros Hr E. destruct (rreach_inv _ _ _ _ Hr) as (Hc & L & pl & Hi).
  destruct (match_prefix_spec mono st L pl k (ri_tree _ _ _ _ Hi) (proj1 Hc)) as (r' & s & L' & pl' & E' & He & _).
  rewrite E in E'. injection E' as <- <-. by eapply ext_keeps; [apply Hi|].
Qed.

Lemma dec_keeps st n H d st' : rreach mono gh st (n :: H) -> dec_lock_ref st n = Ok (d, st') -> keeps st st'.
Proof.
  intros Hr E. destruct (rreach_inv _ _ _ _ Hr) as (Hc & L & pl & Hi).
  destruct (dec_lock_ref_spec _ L pl H n Hi (proj1 Hc)) as (P & t' & _ & E' & _ & Hl & _). rewrite E in E'. injection E' as _ <-.
  by eapply relocked_keeps.
Qed.

Lemma inc_keeps st n H ks vs d st' : rreach mono gh st H -> reach st (root_node st) n ks vs -> inc_lock_ref st n = Ok (d, st') -> keeps st st'.
Proof.
  intros Hr Hre E. destruct (rreach_inv _ _ _ _ Hr) as (Hc & L & pl & Hi).
  pose proof (reach_live _ _ _ _ _ _ _ (ri_tree _ _ _ _ Hi) (tr_root _ _ _ (ri_tree _ _ _ _ Hi)) Hre) as Hn.
  destruct (inc_lock_ref_spec _ L pl H n Hi Hn (proj1 Hc)) as (P & t' & _ & E' & _ & Hl & _). rewrite E in E'. injection E' as _ <-.
  by eapply relocked_keeps.
Qed.

(** Inserting a request's pages, looking them up again and moving the request's
    lock to the node found. *)
Lemma tree_update st n Hs ids ek slots prot prio chunked :
  let keys := tree_keys st ids in let k := tree_key st ids ek in let v := take (length keys) slots in
  rreach mono gh st (n :: Hs) -> zlen keys <= zlen slots -> prefix_held st keys ek slots n prot ->
  exists pm t1 mr t2 d1 t3 d2 t4,
    insert mono gh st k (Some v) prio chunked = Ok (pm, t1) /\ match_prefix mono t1 k = Ok (mr, t2) /\
    dec_lock_ref t2 n = Ok (d1, t3) /\ inc_lock_ref t3 (last_device_node mr) = Ok (d2, t4) /\
    prot <= pm <= zlen keys /\ zlen (device_indices mr) = zlen keys /\
    take (Z.to_nat prot) (device_indices mr) = take (Z.to_nat prot) slots /\
    rreach mono gh t4 (last_device_node mr :: Hs) /\ held_slots t4 ≡ₚ drop (Z.to_nat pm) v ++ held_slots st /\
    tree_keys t4 ids = keys /\ prefix_held t4 keys ek (device_indices mr) (last_device_node mr) (zlen keys) /\ keeps st t4.
Proof.
  intros keys k v Hr Hlen Hheld. destruct (rreach_inv _ _ _ _ Hr) as (Hc & L & pl & Hi).
  pose proof (ri_tree _ _ _ _ Hi) as Ht. pose proof (tr_ps _ _ _ Ht) as HP. pose proof (ph_range _ _ _ _ _ _ Hheld) as Hprot.
  assert (Hvlen : zlen v = zlen keys) by (unfold v, zlen in *; rewrite length_take; lia).
  assert (Hok : insertable st k v) by (by apply tree_key_insertable).
  destruct (insert_spec mono gh st L pl k v prio chunked Ht (ri_acct _ _ _ _ Hi) Hc Hok)
    as (pm & w' & t1 & L1 & pl1 & E1 & Hin).
  pose proof (rreach_insert _ _ _ _ _ _ _ _ _ _ Hr Hok E1) as Hr1.
  pose proof (insert_slots _ _ _ _ _ _ _ _ Hr Hok E1) as Hsl1.
  destruct (insert_match _ _ _ _ _ _ _ _ _ _ Hr Hok E1) as (w & mr & t2 & E2 & Bm & _ & Bl & _ & _ & _ & Elen & Bre & Bex & Bst & Bkeep & Bps).
  unfold k in *. rewrite tree_key_ins, ?tree_val_ins in *. change (key_len _) with (zlen keys) in *. simpl token_ids in *.
  simpl RadixKeys.extra_key in *. fold keys in Bre, Bst.
  destruct (match_reach _ _ _ _ _ _ _ Hr1 E2) as [Hr2 _]. pose proof (match_slots _ _ _ _ _ Hr1 E2) as Hsl2.
  destruct (match_config _ _ _ _ _ Hr1 E2) as [Cps Cea].
  destruct (move_lock _ _ _ _ _ _ Hr2 Bre) as (d1 & t3 & d2 & t4 & E3 & E4 & Hr4 & Hsl4 & Hre4 & Eps4 & Eea4 & Hkey4).
  exists pm, t1, mr, t2, d1, t3, d2, t4. split_and!; try done; try lia.
  - eapply (held_prefix_found st L pl keys); [apply Hi|exact Hheld| | |exact Bl|lia]; done.
  - destruct (decide (0 < prot)) as [Hp|Hp]; [|by replace prot with 0 by lia].
    eapply (stored_unique t1 L1 pl1 ek (take (Z.to_nat prot) keys)); [apply Hin| | |].
    + unfold aligned. rewrite zlen_take by lia. rewrite Bps. apply Hheld.
    + apply stored_take, Bst. lia.
    + apply Bkeep. by eapply held_stored.
  - by rewrite Hsl4, Hsl2, Hsl1.
  - unfold tree_keys. by rewrite Eps4, Cps, Bps, Eea4, Cea, (in_eagle _ _ _ _ _ _ _ _ _ Hin).
  - split.
    + pose proof (zlen_nonneg keys). lia.
    + rewrite Eps4, Cps, Bps. by apply tree_keys_aligned.
    + rewrite !to_nat_zlen, firstn_all, (take_ge (device_indices mr)) by (unfold zlen in *; lia). done.
    + intros Hp x Hx. destruct (Hkey4 x Hx) as (y & Hy & <-). by apply Bex.
  - apply (keeps_trans _ t1); [by eapply inserted_keeps|]. apply (keeps_trans _ t2); [by eapply lookup_keeps|].
    apply (keeps_trans _ t3); [by eapply dec_keeps|]. pose proof (rreach_dec _ _ _ _ _ _ _ Hr2 E3) as Hr3.
    eapply inc_keeps; [exact Hr3|eapply (kp_reach _ _ (dec_keeps _ _ _ _ _ Hr2 E3)); exact Bre|exact E4].
Qed.
End slots.

(** What eviction, insertion and unlocking have in common: the nodes [H] stay
    in place and the request table is not touched. *)
Record spares {A} (m m' : Mem A) (H : list nat) : Prop := {
  ev_pool : req_pool m' = req_pool m;
  ev_page : RadixCache.page_size (tree_cache m') = RadixCache.page_size (tree_cache m);
  ev_eagle : is_eagle (tree_cache m') = is_eagle (tree_cache m);
  ev_locked : forall h ks vs, h ∈ H -> reach (tree_cache m) (root_node (tree_cache m)) h ks vs ->
    reach (tree_cache m') (root_node (tree_cache m')) h ks vs;
  ev_extra : forall h ks vs y, h ∈ H -> reach (tree_cache m) (root_node (tree_cache m)) h ks vs -> nodes (tree_cache m') !! h = Some y ->
    exists x, nodes (tree_cache m) !! h = Some x /\ RadixKeys.extra_key (key x) = RadixKeys.extra_key (key y)
}.

Lemma spares_refl {A} (m : Mem A) H : spares m m H.
Proof. split; eauto. Qed.

Lemma spares_trans {A} (m1 m2 m3 : Mem A) H : spares m1 m2 H -> spares m2 m3 H -> spares m1 m3 H.
Proof.
  intros [A1 A2 A3 A4 A5] [B1 B2 B3 B4 B5]. split; try congruence; eauto.
  intros h ks vs z Hh Hre Hz. destruct (B5 h ks vs z Hh (A4 _ _ _ Hh Hre) Hz) as (y & Hy & <-). by apply (A5 h ks vs y).
Qed.

Lemma spares_alloc {A} (m1 m2 : Mem A) H a : spares m1 m2 H -> spares m1 (with_allocator m2 a) H.
Proof. by intros []. Qed.

Lemma keeps_spares {A} (m m' : Mem A) H : keeps (tree_cache m) (tree_cache m') -> req_pool m' = req_pool m -> spares m m' H.
Proof. intros [K1 K2 K3 K4] Ep. split; eauto. Qed.

Section conserve.
Context (mono : nat -> Z) (gh : list tok -> option string -> string).
Context {A : Type} `{KVAllocatorLaws A}.

(** A request whose committed tokens have slots in its row of the table, the
    first [cache_protected_len] of them shared with the tree under its node. *)
Record holds_kv (m : Mem A) (r : Req) (ids : list Z) (n : nat) (row : list Z) : Prop := {
  hk_row : get_row (req_pool m) (req_pool_idx (kv r)) = Ok row;
  hk_len : zlen ids <= zlen row;
  hk_node : last_node (pre r) = Some n;
  hk_held : prefix_held (tree_cache m) (tree_keys (tree_cache m) ids) (extra_key (info r))
              (take (length ids) row) n (cache_protected_len (pre r))
}.

(** The slots of the request that are not shared with the tree. *)
Definition private_slots (r : Req) (ids row : list Z) : list Z :=
  drop (Z.to_nat (cache_protected_len (pre r))) (take (length ids) row).

Lemma row_slots m r ids n row : holds_kv m r ids n row ->
  slice_to row (zlen ids) = take (length ids) row /\ zlen (take (length ids) row) = zlen ids.
Proof.
  intros [_ Hl _ _]. split.
  - rewrite slice_to_take by apply zlen_nonneg. unfold zlen. by rewrite Nat2Z.id.
  - unfold zlen in *. rewrite length_take. lia.
Qed.

Lemma dec_last_step (m : Mem A) n Hs : rreach mono gh (tree_cache m) (n :: Hs) ->
  exists t, dec_last_node m (Some n) = Ok (with_tree m t) /\ rreach mono gh t Hs /\ held_slots t ≡ₚ held_slots (tree_cache m) /\
    exists d, dec_lock_ref (tree_cache m) n = Ok (d, t).
Proof.
  intros Hr. destruct (dec_step mono gh _ _ _ Hr) as (d & t & E & Hr' & Hs' & _). exists t. simpl. rewrite E. split_and!; eauto.
Qed.

(** A finishing request: where its slots go, and that the locked nodes stay. *)
Lemma finish_conserves m r ids n Hs row others is_insert :
  rreach mono gh (tree_cache m) (n :: Hs) -> kv_committed_freed (kv r) = false ->
  ids = slice_to (origin_input_ids r ++ output_ids r) (kv_committed_len (kv r)) ->
  holds_kv m r ids n row ->
  kv_inv (allocator m) (private_slots r ids row ++ held_slots (tree_cache m) ++ others) ->
  exists m' r', cache_finished_req mono gh m r is_insert = Ok (m', r') /\
    rreach mono gh (tree_cache m') Hs /\
    kv_inv (allocator m') (held_slots (tree_cache m') ++ others) /\
    spares m m' Hs /\ pop_committed_kv_cache r = Ok (kv_committed_len (kv r), r') /\
    exists l1 l2, allocator m' = kv_free (kv_free (allocator m) l1) l2.
Proof.
  intros Hr Hfr Eids Hk Hinv. pose proof Hk as [Hrow Hlen Hnode Hheld].
  destruct (row_slots _ _ _ _ _ Hk) as [Eslots Hslen]. destruct (rreach_inv _ _ _ _ Hr) as (Hc & L & pl & Hi).
  unfold cache_finished_req, pop_committed_kv_cache. rewrite Hfr. cbn [rassert negb rbind].
  cbn [kv set_kv req_pool_idx pre info origin_input_ids output_ids]. rewrite Hrow. cbn [rbind].
  rewrite (proj1 Hc), <- Eids, Eslots.
  set (st := tree_cache m) in *. set (kvi := take (length ids) row) in *. set (keys := tree_keys st ids) in *.
  set (prot := cache_protected_len (pre r)) in *.
  pose proof (ph_range _ _ _ _ _ _ Hheld) as Hprot. pose proof (tree_keys_len st ids) as Hkeys. fold keys in Hkeys.
  assert (Hvals : slice_to kvi (zlen keys) = take (length keys) kvi).
  { rewrite slice_to_take by apply zlen_nonneg. unfold zlen. by rewrite Nat2Z.id. }
  assert (Hvlen : zlen (take (length keys) kvi) = zlen keys) by (unfold zlen in *; rewrite length_take; lia).
  rewrite Hvals, slice_from_drop by apply zlen_nonneg. rewrite Hnode.
  unfold private_slots in Hinv. fold kvi prot in Hinv.
  destruct (if disable_finished_insert st then false else is_insert) eqn:Eb.
  - assert (Hok : insertable st (tree_key st ids (extra_key (info r))) (take (length keys) kvi)).
    { apply tree_key_insertable; [apply (tr_ps _ _ _ (ri_tree _ _ _ _ Hi))|done]. }
    destruct (insert_spec mono gh st L pl _ _ (Some (default 0 (priority (info r)))) false (ri_tree _ _ _ _ Hi) (ri_acct _ _ _ _ Hi) Hc Hok)
      as (pl_len & w & t & L' & pl' & E & Hin). rewrite E. cbn [rbind].
    pose proof (rreach_insert _ _ _ _ _ _ _ _ _ _ Hr Hok E) as Hr1.
    pose proof (insert_slots mono gh _ _ _ _ _ _ _ _ Hr Hok E) as Hsl. rewrite tree_val_ins in Hsl.
    pose proof (in_m _ _ _ _ _ _ _ _ _ Hin) as Hm. rewrite tree_key_ins in Hm. change (key_len _) with (zlen keys) in Hm.
    assert (Hpm : prot <= pl_len).
    { eapply (held_prefix_found st L pl keys); [apply Hi|exact Hheld| | |apply (in_longest _ _ _ _ _ _ _ _ _ Hin)|lia];
        by rewrite tree_key_ins. }
    match goal with |- context [dec_last_node ?mm _] => destruct (dec_last_step mm n Hs Hr1) as (t2 & E2 & Hr2 & Hs2 & d & Ed) end.
    rewrite E2. cbn [rbind]. eexists _, _. split; [done|]. simpl.
    split_and!; try done; [| |by eexists _, _].
    2: { apply keeps_spares; [|done]. simpl. apply (keeps_trans _ t); [by eapply inserted_keeps; [apply Hi|exact Hin]|by eapply dec_keeps]. }
    rewrite Hs2. simpl. apply kv_free_inv, kv_free_inv. rewrite Hsl.
    eapply kv_inv_perm; [|exact Hinv]. rewrite (split4 kvi prot pl_len (zlen keys)) by (done || lia).
    rewrite !to_nat_zlen, <- !app_assoc. apply Permutation_app_head.
    rewrite Permutation_app_swap_app. apply Permutation_app_head. done.
  - cbn [rbind]. match goal with |- context [dec_last_node ?mm _] => destruct (dec_last_step mm n Hs Hr) as (t2 & E2 & Hr2 & Hs2 & d & Ed) end.
    rewrite E2. cbn [rbind]. eexists _, _. split; [done|]. simpl.
    split_and!; try done; [|by apply keeps_spares; [eapply dec_keeps|]|by eexists _, _]. rewrite Hs2. simpl.
    apply kv_free_inv, kv_free_inv. eapply kv_inv_perm; [|exact Hinv].
    rewrite (split4 kvi prot (zlen keys) (zlen keys)) by (done || lia).
    rewrite (drop_ge (take _ kvi)) by (rewrite length_take; lia). simpl. rewrite <- !app_assoc. done.
Qed.

(** C30: when a request finishes, each slot it does not share with the tree ends
    up in exactly one place: the tokens the tree did not have are kept by the
    tree, the others return to the allocator.  The request's lock is released
    and the cache stays well formed. *)
Theorem finished_req_conserves m r ids n Hs row others is_insert :
  rreach mono gh (tree_cache m) (n :: Hs) -> kv_committed_freed (kv r) = false ->
  ids = slice_to (origin_input_ids r ++ output_ids r) (kv_committed_len (kv r)) ->
  holds_kv m r ids n row ->
  kv_inv (allocator m) (private_slots r ids row ++ held_slots (tree_cache m) ++ others) ->
  exists m' r', cache_finished_req mono gh m r is_insert = Ok (m', r') /\
    rreach mono gh (tree_cache m') Hs /\
    kv_inv (allocator m') (held_slots (tree_cache m') ++ others) /\
    req_pool m' = req_pool m /\ kv_committed_freed (kv r') = true.
Proof.
  intros Hr Hfr Eids Hk Hinv.
  destruct (finish_conserves m r ids n Hs row others is_insert Hr Hfr Eids Hk Hinv) as (m' & r' & E & H1 & H2 & H3 & H4 & _). apply ev_pool in H3.
  exists m', r'. split_and!; try done. unfold pop_committed_kv_cache in H4. rewrite Hfr in H4. by injection H4 as <-.
Qed.

(** caching an unfinished request (a prefill chunk) always succeeds: the
    lookup after the insertion covers every whole page, so the assertion holds.
    Duplicate slots return to the allocator, the request's row and prefix now
    name the slots of the tree, its lock moves to the new node, and only the
    tokens of the last partial page stay private. *)
Lemma unfinished_req_conserves m r n Hs row others chunked :
  rreach mono gh (tree_cache m) (n :: Hs) -> holds_kv m r (fill_ids (pre r)) n row ->
  kv_inv (allocator m) (private_slots r (fill_ids (pre r)) row ++ held_slots (tree_cache m) ++ others) ->
  exists m' r' n' row', cache_unfinished_req mono gh m r chunked = Ok (m', r') /\
    rreach mono gh (tree_cache m') (n' :: Hs) /\
    holds_kv m' r' (fill_ids (pre r)) n' row' /\
    kv_inv (allocator m') (private_slots r' (fill_ids (pre r)) row' ++ held_slots (tree_cache m') ++ others) /\
    cache_protected_len (pre r') = zlen (tree_keys (tree_cache m) (fill_ids (pre r))) /\
    prefix_indices (pre r') = take (length (fill_ids (pre r))) row' /\
    (exists ids prot, r' = set_pre r (set_prefix (pre r) ids (Some n') (host_hit_length (pre r)) prot)) /\ keeps (tree_cache m) (tree_cache m') /\ (exists l, allocator m' = kv_free (allocator m) l) /\
    free_slots (req_pool m') = free_slots (req_pool m) /\ pool_size (req_pool m') = pool_size (req_pool m) /\
    (forall k j, req_pool_idx (kv r) = Some k -> 0 <= k -> 0 <= j -> j <> k -> get_row (req_pool m') (Some j) = get_row (req_pool m) (Some j)) /\
    zlen row' = zlen row.
Proof.
  set (ids := fill_ids (pre r)). intros Hr Hk Hinv. pose proof Hk as [Hrow Hlen Hnode Hheld].
  destruct (row_slots _ _ _ _ _ Hk) as [Eslots Hslen]. destruct (rreach_inv _ _ _ _ Hr) as (Hc & _).
  unfold cache_unfinished_req. rewrite (proj1 Hc), Hrow. cbn [rbind]. fold ids. rewrite Eslots.
  pose proof (tree_keys_len (tree_cache m) ids) as Hkeys. unfold private_slots in Hinv.
  set (st := tree_cache m) in *. set (kvi := take (length ids) row) in *. set (prot := cache_protected_len (pre r)) in *.
  destruct (tree_update mono gh st n Hs ids (extra_key (info r)) kvi prot (Some (default 0 (priority (info r)))) chunked Hr ltac:(lia) Hheld)
    as (pm & t1 & mr & t2 & d1 & t3 & d2 & t4 & E1 & E2 & E3 & E4 & Hpm & Elen & Hsame & Hr4 & Hsl4 & Etk & Hheld4 & Hkeep).
  pose proof (ph_range _ _ _ _ _ _ Hheld) as Hprot. set (keys := tree_keys st ids) in *. set (ni := device_indices mr) in *.
  assert (Hnil : length ni = length keys) by (unfold zlen in Elen; lia).
  rewrite slice_to_take, to_nat_zlen, E1 by apply zlen_nonneg. cbn [rbind]. rewrite E2. cbn [rbind]. fold ni.
  rewrite Elen, Z.eqb_refl. cbn [rassert rbind].
  destruct (write_slice_ok (req_pool m) (req_pool_idx (kv r)) row prot (zlen keys) (slice_from ni prot) Hrow)
    as (pool' & Ew & Efree & Hrow' & Esize & Hother); [lia|lia|rewrite slice_from_drop by lia; unfold zlen in *; rewrite length_drop; lia|].
  simpl req_pool. rewrite Ew. cbn [rbind]. unfold dec_last_node. rewrite Hnode. simpl tree_cache. rewrite E3. cbn [rbind].
  simpl tree_cache. rewrite E4. cbn [rbind]. rewrite Hrow'. cbn [rbind]. rewrite (slice_from_drop ni) by lia.
  rewrite (slice_from_drop ni) in Hrow' by lia. rewrite to_nat_zlen, <- Hnil in *.
  destruct (row_merge row ni (Z.to_nat prot) (length ids)) as [Em Et]; [unfold zlen in *; lia|unfold zlen in *; lia|done|].
  rewrite Em in *. set (row' := ni ++ drop (length ni) row) in *.
  assert (Hrl : zlen ids <= zlen row') by (unfold row', zlen in *; rewrite length_app, length_drop; lia).
  rewrite (slice_to_take row'), slice_from_drop, !to_nat_zlen, Et, <- Hnil by apply zlen_nonneg.
  eexists _, _, (last_device_node mr), row'. split; [done|]. simpl. split_and!; try done; [| | |by eexists _, _|by eexists|].
  - split; simpl; [done|done|done|]. rewrite Etk. eapply prefix_held_ext; [|exact Hheld4].
    by rewrite Et, to_nat_zlen, <- Hnil, take_app_length, firstn_all.
  - apply kv_free_inv. eapply kv_inv_perm; [|exact Hinv]. unfold private_slots. simpl.
    rewrite Et, to_nat_zlen, <- Hnil, drop_app_length, Hsl4. fold kvi.
    rewrite (split4 kvi prot pm (zlen keys)), to_nat_zlen, <- Hnil by lia.
    rewrite <- !app_assoc. apply Permutation_app_head.
    apply Permutation_app_swap_app.
  - rewrite drop_app_length, Et. destruct (Z.ltb_spec (zlen keys) (zlen kvi)); [done|].
    rewrite drop_ge, app_nil_r; [done|]. unfold zlen in *. fold kvi. lia.
  - unfold row', zlen in *. rewrite length_app, length_drop. lia.
Qed.
End conserve.

(** ** A concrete cache *)

(** The sample tree, a token allocator that holds the other slots of [1..30],
    and a request whose first three tokens are cached. *)
Definition sample_free : list Z := seqZ 1 10 ++ [26; 27; 28; 29; 30].
Definition sample_alloc : BaseAllocator := set_free (TokenAllocator.clear 30 false) sample_free [].
Definition sample_row : list Z := [11; 12; 13; 14; 0; 0; 0; 0; 0; 0; 0; 0].
Definition sample_mem : Mem BaseAllocator :=
  {| tree_cache := RadixProps.demo; allocator := sample_alloc;
     req_pool := {| pool_size := 1; max_context_len := 12; req_to_token := [sample_row]; free_slots := [] |} |}.
Definition sample : Req := sample_req (Some 0) [1; 2; 3; 4] (Some 1%nat) 3.

Lemma sample_holds : holds_kv sample_mem sample [1; 2; 3; 4] 1 sample_row.
Proof.
  split; [reflexivity|vm_compute; discriminate|reflexivity|]. split.
  - vm_compute. split; discriminate.
  - reflexivity.
  - eassert (E0 : nodes RadixProps.demo !! 0%nat = Some _) by (vm_compute; reflexivity).
    eassert (E1 : nodes RadixProps.demo !! 1%nat = Some _) by (vm_compute; reflexivity).
    eassert (E2 : nodes RadixProps.demo !! 2%nat = Some _) by (vm_compute; reflexivity).
    pose proof (reach_step _ 2 _ (None, [(3, None)]) 1 _ [13] 1 [] [] E2 ltac:(vm_compute; reflexivity) E1 eq_refl (reach_here _ _)) as R1.
    exact (reach_step _ 0 _ (None, [(1, None)]) 2 _ [11; 12] 1 _ _ E0 ltac:(vm_compute; reflexivity) E2 eq_refl R1).
  - intros _ x Hx. vm_compute in Hx. by injection Hx as <-.
Qed.

Lemma sample_inv : kv_inv sample_alloc (private_slots sample [1; 2; 3; 4] sample_row ++ held_slots RadixProps.demo ++ seqZ 15 9).
Proof. apply (bool_decide_unpack (_ ≡ₚ _)). vm_compute. done. Qed.

Lemma finished_req_conserves_witness : exists m' r',
  cache_finished_req RadixProps.clock RadixProps.no_hash sample_mem sample true = Ok (m', r') /\
  kv_inv (allocator m') (held_slots (tree_cache m') ++ seqZ 15 9).
Proof.
  destruct (finished_req_conserves RadixProps.clock RadixProps.no_hash sample_mem sample [1; 2; 3; 4] 1 [] sample_row
    (seqZ 15 9) true RadixProps.demo_reach eq_refl eq_refl sample_holds sample_inv) as (m' & r' & E & _ & Hk & _).
  exists m', r'. split; [exact E|exact Hk].
Defined.
