(* ===== verification/MemCommon.v ===== *)
(** * Allocating the memory of a batch

    The allocation functions of [srt/mem_cache/common.py]: eviction before an
    allocation, the slots of an extend or decode batch for each kind of
    allocator, request slots, and the writes into the request table.  The
    hybrid (sliding window and mamba) pools are not covered, and a state is not
    backed up. *)

From S2P Require Import Prelude Tensors BaseAllocator TokenAllocator PagedAllocator RadixKeys RadixCache Request ReqPool TableKernels TriaxialPool TriaxialAllocator KVAllocator ReqCache.

(** The fields of a [ScheduleBatch] the allocation reads. *)
Record Batch := {
  reqs : list Req;
  prefix_lens : list Z;
  extend_lens : list Z;
  seq_lens : list Z;
  extend_num_tokens : Z;
  req_pool_indices : list Z
}.

Definition set_reqs (b : Batch) (rs : list Req) (idx : list Z) : Batch :=
  {| reqs := rs; prefix_lens := prefix_lens b; extend_lens := extend_lens b; seq_lens := seq_lens b;
     extend_num_tokens := extend_num_tokens b; req_pool_indices := idx |}.

Section evict.
Context (get_hash_str : list tok -> option string -> string) (is_chunk_cache : bool).
Context {A : Type} `{KVAllocator A}.

(** [tree_cache.evict]: the freed slots go back to the allocator. *)
Definition tree_evict (m : Mem A) (n : Z) : result (Mem A) :=
  let! (_, al, t) := evict get_hash_str kv_free (allocator m) (tree_cache m) n in
  Ok (with_allocator (with_tree m t) al).

Definition evict_from_tree_cache (m : Mem A) (num_tokens : Z) : result (Mem A) :=
  if is_chunk_cache then Ok m
  else if kv_short (allocator m) num_tokens then tree_evict m num_tokens else Ok m.

Definition alloc_token_slots (m : Mem A) (num_tokens : Z) : result (list Z * Mem A) :=
  let! m1 := evict_from_tree_cache m num_tokens in
  match kv_alloc (allocator m1) num_tokens with
  | (Some out, al) => Ok (out, with_allocator m1 al)
  | (None, _) => Err RuntimeError
  end.
End evict.

Section alloc.
Context (get_hash_str : list tok -> option string -> string) (is_chunk_cache : bool).

(** ** TriAxialKV *)

(** Bits of the new tokens of one request: positions past the prompt are INT4. *)
Definition bits_chunk (r : Req) (p e : Z) : list Z :=
  match triaxial_bits r with
  | None => replicate (Z.to_nat e) 4
  | Some bits =>
      let seg := py_slice bits p (p + e) in
      if zlen seg <? e then seg ++ replicate (Z.to_nat (e - zlen seg)) 4 else seg
  end.

Definition batch_bits (b : Batch) : list Z :=
  concat (zip_with (fun r '(p, e) => bits_chunk r p e) (reqs b) (zip (prefix_lens b) (extend_lens b))).

Definition alloc_token_slots_triaxial (m : Mem TriaxialAllocator) (b : Batch) : result (list Z * Mem TriaxialAllocator) :=
  let num_tokens := extend_num_tokens b in
  let! m1 := evict_from_tree_cache get_hash_str is_chunk_cache m num_tokens in
  let bits_flat := batch_bits b in
  let! (out, al) := alloc_mixed (allocator m1) bits_flat (extend_lens b) in
  match out with
  | Some l => Ok (l, with_allocator m1 al)
  | None =>
      let! m2 := tree_evict get_hash_str (with_allocator m1 al) num_tokens in
      let! (out, al) := alloc_mixed (allocator m2) bits_flat (extend_lens b) in
      match out with
      | Some l => Ok (l, with_allocator m2 al)
      | None => Err RuntimeError
      end
  end.

(** ** Pages *)

(** A page-granular allocator, outside debug mode, where neither call raises
    ([PagedAllocator.alloc_ok], [PagedAllocator.free_ok]): the branches for [Err]
    are not reached. *)
Record PagedKV := { paged : BaseAllocator }.

#[global] Instance paged_allocator : KVAllocator PagedKV := {|
  kv_alloc := fun a n => match PagedAllocator.alloc false (paged a) n with
                         | Ok (out, a') => (out, {| paged := a' |})
                         | Err _ => (None, a)
                         end;
  kv_free := fun a l => match PagedAllocator.free false (paged a) l with
                        | Ok a' => {| paged := a' |}
                        | Err _ => a
                        end;
  kv_available := fun a => BaseAllocator.available_size (paged a);
  kv_short := fun a n => BaseAllocator.available_size (paged a) <? n;
  kv_admission := fun a => Ok (BaseAllocator.available_size (paged a));
  kv_decode_available := fun a => BaseAllocator.available_size (paged a)
|}.

Definition with_paged (m : Mem PagedKV) (a : BaseAllocator) : Mem PagedKV := with_allocator m {| paged := a |}.

(** [order n] is the order in which the programs of a launch over [n] requests run. *)
Context (undef : Z) (order : Z -> list Z).

Definition alloc_paged_token_slots_extend (m : Mem PagedKV) (prefix_lens seq_lens last_loc : list Z) (extend_num_tokens : Z)
  : result (list Z * Mem PagedKV) :=
  let num_tokens := extend_num_tokens + zlen seq_lens * BaseAllocator.page_size (paged (allocator m)) in
  let! m1 := evict_from_tree_cache get_hash_str is_chunk_cache m num_tokens in
  let! (out, al) := alloc_extend false undef (order (zlen seq_lens)) (paged (allocator m1)) prefix_lens seq_lens last_loc extend_num_tokens in
  match out with
  | Some l => Ok (l, with_paged m1 al)
  | None => Err RuntimeError
  end.

Definition alloc_paged_token_slots_decode (m : Mem PagedKV) (seq_lens last_loc : list Z) : result (list Z * Mem PagedKV) :=
  let num_tokens := zlen seq_lens * BaseAllocator.page_size (paged (allocator m)) in
  let! m1 := evict_from_tree_cache get_hash_str is_chunk_cache m num_tokens in
  let! (out, al) := PagedAllocator.alloc_decode false undef (order (zlen seq_lens)) (paged (allocator m1)) seq_lens last_loc in
  match out with
  | Some l => Ok (l, with_paged m1 al)
  | None => Err RuntimeError
  end.

(** ** The slots of a batch, by kind of allocator *)

Class BatchAllocator (A : Type) `{KVAllocator A} := {
  extend_slots : Mem A -> Batch -> result (list Z * Mem A);
  decode_slots : Mem A -> Batch -> Z -> result (list Z * Mem A)
}.

#[global] Instance token_batch_allocator : BatchAllocator BaseAllocator := {|
  extend_slots := fun m b => alloc_token_slots get_hash_str is_chunk_cache m (extend_num_tokens b);
  decode_slots := fun m b token_per_req => alloc_token_slots get_hash_str is_chunk_cache m (zlen (seq_lens b) * token_per_req)
|}.

#[global] Instance triaxial_batch_allocator : BatchAllocator TriaxialAllocator := {|
  extend_slots := alloc_token_slots_triaxial;
  decode_slots := fun m b token_per_req => alloc_token_slots get_hash_str is_chunk_cache m (zlen (seq_lens b) * token_per_req)
|}.

(** [last_loc]: the last slot of each prefix; for a decode batch read from the table. *)
Definition prefix_last_loc (r : Req) : Z :=
  match slice_from (prefix_indices (pre r)) (-1) with [] => -1 | x :: _ => x end.

Definition table_last_loc (p : ReqToTokenPool) (idx seq_lens : list Z) : result (list Z) :=
  rmap (fun '(i, s) => let! row := get_row p (Some i) in py_get row (s - 1)) (zip idx seq_lens).

#[global] Instance paged_batch_allocator : BatchAllocator PagedKV := {|
  extend_slots := fun m b =>
    alloc_paged_token_slots_extend m (prefix_lens b) (seq_lens b) (map prefix_last_loc (reqs b)) (extend_num_tokens b);
  decode_slots := fun m b token_per_req =>
    let! last_loc := table_last_loc (req_pool m) (req_pool_indices b) (seq_lens b) in
    alloc_paged_token_slots_decode m (map (fun s => s + token_per_req) (seq_lens b)) last_loc
|}.
End alloc.

Section batch.
Context {A : Type} `{BatchAllocator A} (support_triton : bool) (order : Z -> list Z).

Definition alloc_req_slots (p : ReqToTokenPool) (rs : list Req) : result (list Z * list Req * ReqToTokenPool) :=
  let! (idx, rs', p') := ReqPool.alloc p rs in
  match idx with
  | Some idx => Ok (idx, rs', p')
  | None => Err RuntimeError
  end.

Definition alloc_for_extend (m : Mem A) (b : Batch) : result (list Z * Batch * Mem A) :=
  let prefix_tensors := map (fun r => prefix_indices (pre r)) (reqs b) in
  let! (idx, rs, pool') := alloc_req_slots (req_pool m) (reqs b) in
  let b1 := set_reqs b rs idx in
  let! (out, m1) := extend_slots (with_pool m pool') b1 in
  let! pool2 := write_cache_indices support_triton (order (zlen idx)) out idx (prefix_lens b) (seq_lens b) (extend_lens b)
                  prefix_tensors (req_pool m1) in
  Ok (out, b1, with_pool m1 pool2).

(** [encoder_lens] for encoder-decoder models. *)
Definition alloc_for_decode (encoder_lens : option (list Z)) (m : Mem A) (b : Batch) (token_per_req : Z) : result (list Z * Mem A) :=
  let! (out, m1) := decode_slots m b token_per_req in
  let locs := match encoder_lens with Some e => zip_with Z.add e (seq_lens b) | None => seq_lens b end in
  let! pool' := write_cells (req_pool m1) (req_pool_indices b) locs out in
  Ok (out, with_pool m1 pool').
End batch.
