(* ===== verification/TokenMemProps.v ===== *)
(** * Eviction and allocation behind the prefix cache

    Evicting from the tree and allocating slots keeps the tree well formed and
    every slot accounted for, for every allocator that satisfies the laws.
    [alloc_token_slots] with the token allocator fails only when free and
    evictable slots together do not suffice. *)

From S2P Require Import Prelude Tensors BaseAllocator TokenAllocator RadixKeys RadixKeysTheory RadixCache RadixTheory RadixLocks RadixEvict RadixFacts RadixProps Request ReqPool KVAllocator ReqCache ReqCacheProps MemCommon.

Section memory.
Context (mono : nat -> Z) (gh : list tok -> option string -> string).

(** The tree is well formed with the locks [H]; its slots and [others] are held. *)
Definition mem_ok {A} {KV : KVAllocator A} {KL : KVAllocatorLaws A} (m : Mem A) (H : list nat) (others : list Z) : Prop :=
  rreach mono gh (tree_cache m) H /\ kv_inv (allocator m) (held_slots (tree_cache m) ++ others).

Section generic.
Context {A : Type} {KV : KVAllocator A} {KL : KVAllocatorLaws A}.

Lemma tree_evict_spec m H others n : mem_ok m H others ->
  exists m' vs, tree_evict gh m n = Ok m' /\ mem_ok m' H others /\ spares m m' H /\
    allocator m' = foldl kv_free (allocator m) vs /\ (n <= zlen (concat vs) \/ evictable_size (tree_cache m') = 0) /\
    evictable_size (tree_cache m') = evictable_size (tree_cache m) - zlen (concat vs) /\
    held_slots (tree_cache m) ≡ₚ concat vs ++ held_slots (tree_cache m').
Proof.
  intros [Hr Hk]. destruct (rreach_inv _ _ _ _ Hr) as (Hc & L & pl & Hi). unfold tree_evict.
  destruct (evict_spec gh kv_free (allocator m) (tree_cache m) L pl H n Hi (proj2 Hc) (proj1 Hc))
    as (st' & vs & E & [(L' & Hi' & Hs) H1 _ _]).
  pose proof (rreach_evict _ _ _ _ _ _ _ _ _ _ Hr E) as Hr'.
  rewrite E. cbn [rbind]. eexists _, vs. split; [done|]. destruct (sh_config _ _ _ _ _ _ Hs) as (C1 & C2 & C3 & C4 & C5 & C6).
  assert (Hsl : held_slots (tree_cache m) ≡ₚ concat vs ++ held_slots st').
  { rewrite (held_slots_perm _ _ _ (ri_tree _ _ _ _ Hi)), (held_slots_perm _ _ _ (ri_tree _ _ _ _ Hi')). apply Hs. }
  split_and!; try done; simpl.
  - split; [done|]. simpl. apply kv_free_all. rewrite app_assoc. by rewrite <- Hsl.
  - split; try done; simpl.
    + intros h ks w Hh. rewrite C2. by apply (sh_held _ _ _ _ _ _ Hs).
    + intros h ks w y _ _ Hy. destruct (sh_keys _ _ _ _ _ _ Hs h y Hy) as (x & Hx & E1). exists x. by rewrite E1.
  - apply Hs.
Qed.

Lemma evict_from_tree_cache_spec chunk m H others n : mem_ok m H others ->
  exists m', evict_from_tree_cache gh chunk m n = Ok m' /\ mem_ok m' H others /\ spares m m' H.
Proof.
  intros Hm. pose proof (spares_refl m H) as Hre. unfold evict_from_tree_cache.
  destruct chunk; [by exists m|]. destruct (kv_short _ _); [|by exists m].
  destruct (tree_evict_spec m H others n Hm) as (m' & vs & E & Hm' & He & _). by exists m'.
Qed.

Lemma alloc_token_slots_spec chunk m H others n : mem_ok m H others -> 0 <= n ->
  alloc_token_slots gh chunk m n = Err RuntimeError \/
  exists out m', alloc_token_slots gh chunk m n = Ok (out, m') /\ zlen out = n /\ mem_ok m' H (out ++ others) /\ spares m m' H.
Proof.
  intros Hm Hn. unfold alloc_token_slots.
  destruct (evict_from_tree_cache_spec chunk m H others n Hm) as (m1 & E & [Hr Hk] & He). rewrite E. cbn [rbind].
  destruct (kv_alloc (allocator m1) n) as [[out|] al] eqn:Ea; [|by left]. right.
  destruct (kv_alloc_inv _ _ _ _ _ Hn Hk Ea) as [Hl Hk']. exists out, (with_allocator m1 al). split_and!; try done.
  - split; [done|]. simpl. by rewrite Permutation_app_swap_app.
  - by apply spares_alloc.
Qed.
End generic.
End memory.

(** ** The token allocator *)

Lemma evictable_nonneg mono gh st H : rreach mono gh st H -> 0 <= evictable_size st.
Proof.
  intros Hr. destruct (rreach_inv _ _ _ _ Hr) as (_ & L & pl & Hi). unfold evictable_size.
  rewrite (ac_evictable _ _ (ri_acct _ _ _ _ Hi)). unfold node_sum. induction (elements L) as [|n l IH]; [done|]. simpl.
  enough (0 <= match nodes st !! n with Some x => unlocked_len x | None => 0 end) by lia.
  destruct (nodes st !! n) as [x|]; [|done]. unfold unlocked_len, key_len. pose proof (zlen_nonneg (token_ids (key x))).
  destruct (lock_ref x =? 0); lia.
Qed.

(** No free group is open; released slots wait apart only when the lists are sorted. *)
Definition token_open (a : BaseAllocator) : Prop :=
  is_not_in_free_group a = true /\ (need_sort a = false -> release_pages a = []).

Lemma token_free_open a l : token_open a ->
  token_open (TokenAllocator.free a l) /\ TokenAllocator.available_size (TokenAllocator.free a l) = TokenAllocator.available_size a + zlen l.
Proof.
  intros [H1 H2]. unfold TokenAllocator.free, TokenAllocator.available_size.
  destruct (Z.eqb_spec (zlen l) 0) as [E|E]; [rewrite E; split; [done|lia]|]. rewrite H1.
  destruct (need_sort a) eqn:Es; simpl; rewrite zlen_app; (split; [|lia]); split; simpl; congruence || done || auto.
Qed.

Lemma token_frees_open vs : forall a, token_open a ->
  token_open (foldl TokenAllocator.free a vs) /\
  TokenAllocator.available_size (foldl TokenAllocator.free a vs) = TokenAllocator.available_size a + zlen (concat vs).
Proof.
  induction vs as [|v vs IH]; intros a Ha; simpl; [split; [done|change (zlen []) with 0; lia]|].
  destruct (token_free_open a v Ha) as [H1 H2]. destruct (IH _ H1) as [H3 H4]. split; [done|]. rewrite zlen_app. lia.
Qed.

Lemma token_alloc_none a n : token_open a -> 0 <= n ->
  fst (TokenAllocator.alloc a n) = None <-> TokenAllocator.available_size a < n.
Proof.
  intros [_ H2] Hn. rewrite TokenAllocator.alloc_state by done. unfold TokenAllocator.available_size.
  pose proof (zlen_nonneg (release_pages a)).
  destruct (need_sort a) eqn:Es; simpl.
  - destruct (Z.ltb_spec (zlen (free_pages a)) n) as [Hlt|Hge].
    + assert (Hz : zlen (free_pages (merge_and_sort_free a)) = zlen (free_pages a) + zlen (release_pages a)).
      { pose proof (Permutation_length (merge_and_sort_free_perm a)) as Hp. rewrite !length_app in Hp.
        destruct (merge_and_sort_free_fields a) as (_ & _ & _ & _ & _). unfold merge_and_sort_free in *.
        destruct (Z.ltb_spec 0 (zlen (release_pages a))); simpl in *; unfold zlen in *; lia. }
      destruct (Z.ltb_spec (zlen (free_pages (merge_and_sort_free a))) n); simpl; split; try done; lia.
    + destruct (Z.ltb_spec (zlen (free_pages a)) n); simpl; split; try done; lia.
  - rewrite (H2 eq_refl). change (zlen []) with 0. destruct (Z.ltb_spec (zlen (free_pages a)) n); simpl; split; try done; lia.
Qed.

Lemma token_alloc_room mono gh m H others n :
  mem_ok mono gh m H others -> token_open (allocator m) -> 0 <= n ->
  let room := TokenAllocator.available_size (allocator m) + evictable_size (tree_cache m) in
  (alloc_token_slots gh false m n = Err RuntimeError <-> room < n) /\
  (n <= room -> exists out m', alloc_token_slots gh false m n = Ok (out, m') /\ zlen out = n /\
     mem_ok mono gh m' H (out ++ others) /\ spares m m' H).
Proof.
  intros Hm Ho Hn room. assert (Hpos : 0 <= evictable_size (tree_cache m)) by (eapply evictable_nonneg, Hm).
  assert (Hiff : alloc_token_slots gh false m n = Err RuntimeError <-> room < n).
  { unfold alloc_token_slots, evict_from_tree_cache. change (kv_short (allocator m) n) with (TokenAllocator.available_size (allocator m) <? n).
    destruct (Z.ltb_spec (TokenAllocator.available_size (allocator m)) n) as [Hlt|Hge].
    - destruct (tree_evict_spec mono gh m H others n Hm) as (m1 & vs & E & [Hr1 _] & _ & Ea & Hen & Hev & _).
      rewrite E. cbn [rbind]. destruct (token_frees_open vs _ Ho) as [Ho1 Hav].
      change TokenAllocator.free with (@kv_free BaseAllocator _) in Ho1, Hav. rewrite <- Ea in Ho1, Hav.
      pose proof (token_alloc_none _ n Ho1 Hn) as Hnone. pose proof (evictable_nonneg _ _ _ _ Hr1) as Hp1.
      change (kv_alloc (allocator m1) n) with (TokenAllocator.alloc (allocator m1) n).
      assert (Hz : 0 <= TokenAllocator.available_size (allocator m)).
      { unfold TokenAllocator.available_size. pose proof (zlen_nonneg (free_pages (allocator m))). pose proof (zlen_nonneg (release_pages (allocator m))). lia. }
      assert (Hroom : room < n <-> TokenAllocator.available_size (allocator m1) < n) by (unfold room; rewrite Hav; lia).
      rewrite Hroom, <- Hnone. destruct (TokenAllocator.alloc (allocator m1) n) as [[out|] al]; simpl; split; done.
    - cbn [rbind]. pose proof (token_alloc_none _ n Ho Hn) as Hnone.
      change (kv_alloc (allocator m) n) with (TokenAllocator.alloc (allocator m) n).
      destruct (TokenAllocator.alloc (allocator m) n) as [[out|] al]; simpl in *; split; try done; try (unfold room; lia).
      intros _. destruct Hnone as [Hn1 _]. specialize (Hn1 eq_refl). lia. }
  split; [done|]. intros Hroom. destruct (alloc_token_slots_spec mono gh false m H others n Hm Hn) as [E|E]; [|done].
  apply Hiff in E. lia.
Qed.

(** C31: allocating tokens from a token allocator behind the prefix cache runs
    out of memory exactly when the free slots and the evictable slots of the
    tree together do not suffice.  Otherwise it returns that many slots that
    nobody else holds, whatever had to be evicted was unlocked, and tree and
    allocator stay consistent. *)
Theorem token_alloc_exact mono gh m H others n :
  mem_ok mono gh m H others -> token_open (allocator m) -> 0 <= n ->
  let room := TokenAllocator.available_size (allocator m) + evictable_size (tree_cache m) in
  (alloc_token_slots gh false m n = Err RuntimeError <-> room < n) /\
  (n <= room -> exists out m', alloc_token_slots gh false m n = Ok (out, m') /\ zlen out = n /\
     mem_ok mono gh m' H (out ++ others) /\ spares m m' H).
Proof. apply token_alloc_room. Qed.

Lemma sample_mem_ok : mem_ok RadixProps.clock RadixProps.no_hash sample_mem [1%nat] (seqZ 14 10).
Proof.
  split; [exact RadixProps.demo_reach|]. apply (bool_decide_unpack (_ ≡ₚ _)). vm_compute. done.
Qed.

Lemma token_alloc_exact_witness :
  (exists out m', alloc_token_slots RadixProps.no_hash false sample_mem 17 = Ok (out, m') /\ zlen out = 17) /\
  alloc_token_slots RadixProps.no_hash false sample_mem 18 = Err RuntimeError.
Proof.
  assert (Ho : token_open (allocator sample_mem)) by (split; reflexivity). split.
  - destruct (token_alloc_exact RadixProps.clock RadixProps.no_hash sample_mem [1%nat] (seqZ 14 10) 17 sample_mem_ok Ho)
      as [_ H]; [lia|]. destruct H as (out & m' & E & Hl & _); [vm_compute; discriminate|].
    exists out, m'. split; [exact E|exact Hl].
  - apply (token_alloc_exact RadixProps.clock RadixProps.no_hash sample_mem [1%nat] (seqZ 14 10) 18 sample_mem_ok Ho);
      [lia|vm_compute; reflexivity].
Defined.
