(* ===== verification/ExtendProps.v ===== *)
(** * The extend path

    What every batch allocator promises ([BatchAllocatorLaws]) and
    [alloc_for_extend] proved against that promise: request slots, KV slots and
    the rows of the table after the allocation of a prefill batch. *)

From S2P Require Import Prelude Tensors BaseAllocator RadixKeys RadixCache RadixTheory RadixFacts RadixProps Request ReqPool TableKernels TableKernelsTheory KVAllocator ReqCache ReqCacheProps MemCommon TokenMemProps.

(** A prefill batch as [prepare_for_extend] builds it. *)
Record batch_ok (b : Batch) : Prop := {
  bo_pre : prefix_lens b = map (fun r => zlen (prefix_indices (pre r))) (reqs b);
  bo_len : length (extend_lens b) = length (reqs b);
  bo_ext : Forall (fun n => 0 <= n) (extend_lens b);
  bo_sum : zsum (extend_lens b) = extend_num_tokens b;
  bo_seq : seq_lens b = zip_with Z.add (prefix_lens b) (extend_lens b)
}.

Section extend.
Context (mono : nat -> Z) (gh : list tok -> option string -> string).

(** The slots of a batch are new to everybody; the only failure is to run out of memory. *)
Class BatchAllocatorLaws (A : Type) {KV : KVAllocator A} {KL : KVAllocatorLaws A} {BA : BatchAllocator A} := {
  extend_slots_law m b H others : mem_ok mono gh m H others -> batch_ok b ->
    extend_slots m b = Err RuntimeError \/
    exists out m', extend_slots m b = Ok (out, m') /\ zlen out = extend_num_tokens b /\
      mem_ok mono gh m' H (out ++ others) /\ spares m m' H
}.

#[global] Instance token_batch_laws chunk : @BatchAllocatorLaws BaseAllocator _ _ (token_batch_allocator gh chunk).
Proof.
  split. intros m b H others Hm Hb. apply alloc_token_slots_spec; [done|].
  rewrite <- (bo_sum _ Hb). apply zsum_nonneg, Hb.
Qed.

Context {A : Type} {KV : KVAllocator A} {KL : KVAllocatorLaws A} {BA : BatchAllocator A} {BL : BatchAllocatorLaws A}.

(** The table has [pool_size] rows of [max_context_len] entries. *)
Definition table_ok (p : ReqToTokenPool) : Prop :=
  0 <= max_context_len p /\ zlen (req_to_token p) = pool_size p /\ shape (Z.to_nat (max_context_len p)) (req_to_token p).

(** The rows and lengths of a batch after its requests have slots are as the
    table writes expect them. *)
Lemma batch_ok_wf p b idx out : table_ok p -> batch_ok b -> length idx = length (reqs b) -> NoDup idx ->
  Forall (fun r => 0 <= r < pool_size p) idx -> Forall (fun n => n <= max_context_len p) (seq_lens b) ->
  zlen out = extend_num_tokens b ->
  batch_wf (Z.to_nat (max_context_len p)) (req_to_token p) idx (prefix_lens b) (seq_lens b) (extend_lens b) out
    (map (fun r => prefix_indices (pre r)) (reqs b)).
Proof.
  intros (T1 & T2 & T3) [B1 B2 B3 B4 B5] Hl Hnd Hr Hfit Ho. split; try done.
  - by rewrite length_map.
  - lia.
  - by rewrite B1, map_map.
  - lia.
  - rewrite list.Forall_forall in *. intros n Hn. specialize (Hfit n Hn). simpl in Hfit. lia.
  - by rewrite T2.
Qed.

(** C14: allocating a prefill batch either runs out of memory or gives every
    request a row of its own that starts with its cached prefix followed by its
    new slots; the new slots are held by nobody else, rows of other requests are
    untouched, locked tree nodes survive the eviction, and the tree, the
    allocator and the request slots stay consistent.  This holds for every
    allocator that keeps [BatchAllocatorLaws], which are proved for the token and
    the TriAxialKV allocator, and for both implementations of the table write. *)
Theorem alloc_for_extend_safe triton order m b H others rows :
  mem_ok mono gh m H others -> batch_ok b -> table_ok (req_pool m) ->
  pool_inv (req_pool m) (held (reqs b) ++ rows) -> Forall (fun r => req_pool_idx (kv r) <> None -> reusable r = true) (reqs b) ->
  Forall (fun n => n <= max_context_len (req_pool m)) (seq_lens b) -> (forall n, order n ≡ₚ seqZ 0 n) ->
  alloc_for_extend triton order m b = Err RuntimeError \/
  exists out b' m', alloc_for_extend triton order m b = Ok (out, b', m') /\ zlen out = extend_num_tokens b /\
    mem_ok mono gh m' H (out ++ others) /\ pool_inv (req_pool m') (held (reqs b') ++ rows) /\
    (forall i r S, reqs b' !! i = Some r -> segs_of (extend_lens b) out !! i = Some S ->
       exists row, get_row (req_pool m') (req_pool_idx (kv r)) = Ok (prefix_indices (pre r) ++ S ++ row)) /\
    (forall r, r ∉ held (reqs b') -> 0 <= r -> get_row (req_pool m') (Some r) = get_row (req_pool m) (Some r)) /\
    (forall h ks vs, h ∈ H -> reach (tree_cache m) (root_node (tree_cache m)) h ks vs ->
       reach (tree_cache m') (root_node (tree_cache m')) h ks vs).
Proof.
  intros Hm Hb Ht Hp Hre Hfit Ho. unfold alloc_for_extend, alloc_req_slots.
  destruct (req_alloc_spec (req_pool m) (reqs b) rows Hp Hre) as (o & rs & p1 & E & _ & Hcase). rewrite E. cbn [rbind].
  destruct (alloc_frame _ _ _ _ _ E) as (Epre & Etab & Ectx & Esz). destruct o as [idx|]; [|by left]. cbn [rbind].
  destruct Hcase as (Eidx & Hil & Hnd & Hp1 & _). set (m1 := with_pool m p1). set (b1 := set_reqs b rs idx).
  assert (Hpres : map (fun r => prefix_indices (pre r)) rs = map (fun r => prefix_indices (pre r)) (reqs b)).
  { rewrite <- (map_map pre prefix_indices), Epre. by rewrite map_map. }
  assert (Hlen : length rs = length (reqs b)) by (rewrite <- (length_map pre rs), Epre; apply length_map).
  assert (Hb1 : batch_ok b1).
  { destruct Hb as [B1 B2 B3 B4 B5]. split; try done; simpl.
    - by rewrite <- (map_map (fun r => prefix_indices (pre r)) zlen), Hpres, map_map.
    - by rewrite Hlen. }
  destruct (extend_slots_law m1 b1 H others Hm Hb1) as [Ee|(out & m2 & Ee & Hol & Hm2 & Hev)]; [rewrite Ee; by left|].
  rewrite Ee. cbn [rbind]. right. assert (Epool : req_pool m2 = p1) by apply Hev. rewrite Epool.
  assert (Hrange : Forall (fun r => 0 <= r < pool_size p1) idx).
  { apply list.Forall_forall. intros r Hr. assert (Hs : r ∈ seqZ 0 (pool_size p1)).
    { rewrite <- Hp1, Eidx in *. set_solver. } apply elem_of_seqZ in Hs. lia. }
  assert (Ht1 : table_ok p1) by (unfold table_ok; by rewrite Ectx, Esz, Etab).
  assert (Hwf : batch_wf (Z.to_nat (max_context_len p1)) (req_to_token p1) idx (prefix_lens b) (seq_lens b) (extend_lens b) out
                  (map (fun r => prefix_indices (pre r)) (reqs b))).
  { apply batch_ok_wf; try done; [unfold zlen in Hil; lia|by rewrite Ectx]. }
  rewrite (write_cache_indices_ok triton p1 idx _ _ _ _ _ (order (zlen idx)) Hwf) by (apply Ht1 || apply Ho). cbn [rbind].
  destruct (batch_rows _ p1 _ _ _ _ _ _ Hwf) as [Hrow Hother].
  eexists out, b1, _. split; [done|]. simpl. split_and!; try done.
  - intros i r S Hi HS.
    destruct (held_lookup rs i r) as (k & Ek & Hk); [rewrite <- Eidx; unfold zlen in Hil; lia|done|].
    rewrite Ek. rewrite <- Eidx in Hk. destruct (locs_row (Z.to_nat (max_context_len p1)) (req_to_token p1) k) as (row & Hr1 & Hr2 & _).
    { apply Ht1. }
    { pose proof (proj1 (list.Forall_lookup _ _) Hrange _ _ Hk) as Hkr. simpl in Hkr. rewrite (proj1 (proj2 Ht1)). done. }
    eexists. eapply Hrow; try done. rewrite <- Hpres, map_lookup, Hi. done.
  - intros r Hr H0. rewrite <- Eidx in Hr. etrans; [apply (Hother r Hr H0)|]. unfold get_row. by rewrite Etab.
  - intros h ks vs Hh. apply (ev_locked _ _ _ Hev h ks vs Hh).
Qed.
End extend.

(** ** A concrete batch *)

Definition sample_mem2 : Mem BaseAllocator :=
  with_pool sample_mem {| pool_size := 2; max_context_len := 12; req_to_token := [sample_row; replicate 12 0]; free_slots := [1] |}.

Definition sample_batch : Batch :=
  {| reqs := [sample_req None [5; 6; 7; 8] None 0]; prefix_lens := [0]; extend_lens := [4]; seq_lens := [4];
     extend_num_tokens := 4; req_pool_indices := [] |}.

Lemma alloc_for_extend_safe_witness : exists out b' m',
  @alloc_for_extend _ _ (token_batch_allocator RadixProps.no_hash false) true (seqZ 0) sample_mem2 sample_batch = Ok (out, b', m') /\
  zlen out = 4.
Proof.
  destruct (@alloc_for_extend_safe RadixProps.clock RadixProps.no_hash BaseAllocator _ _ _ (token_batch_laws _ _ false)
    true (seqZ 0) sample_mem2 sample_batch [1%nat] (seqZ 14 10) [0]) as [E|(out & b' & m' & E & Hl & _)].
  - exact sample_mem_ok.
  - split; try reflexivity. by repeat constructor.
  - split; [vm_compute; discriminate|]. split; [reflexivity|]. by repeat constructor.
  - apply Permutation_swap.
  - repeat constructor.
  - repeat constructor. vm_compute. discriminate.
  - done.
  - exfalso. vm_compute in E. discriminate E.
  - exists out, b', m'. split; [exact E|exact Hl].
Defined.
