(* ===== verification/TriaxialBatch.v ===== *)
(** * The TriAxialKV allocator as a batch allocator

    [alloc_token_slots_triaxial] keeps the promise of [BatchAllocatorLaws]: the
    bits of a batch match its lengths, so the mixed allocation is well formed,
    and the retry after an eviction loses no slot. *)

From S2P Require Import Prelude Tensors RadixKeys RadixCache RadixFacts RadixProps Request TableKernelsTheory TriaxialPool TriaxialAllocator TriaxialAllocatorTheory TriaxialInvariant TriaxialAllocatorProps KVAllocator ReqCache MemCommon ReqCacheProps TokenMemProps ExtendProps.

Lemma bits_chunk_length r p e : 0 <= p -> 0 <= e -> zlen (bits_chunk r p e) = e.
Proof.
  intros Hp He. unfold bits_chunk. destruct (triaxial_bits r) as [bits|]; [|unfold zlen; rewrite length_replicate; lia].
  rewrite py_slice_take_drop by lia. replace (p + e - p) with e by lia. set (seg := take _ _).
  assert (Hl : zlen seg <= e) by (unfold seg, zlen; rewrite length_take; lia).
  destruct (Z.ltb_spec (zlen seg) e); [|lia]. rewrite zlen_app. unfold zlen at 2. rewrite length_replicate. lia.
Qed.

Lemma batch_bits_length b : batch_ok b -> zlen (batch_bits b) = zsum (extend_lens b).
Proof.
  intros [B1 B2 B3 _ _]. unfold batch_bits. rewrite B1. clear B1. revert B2 B3. generalize (extend_lens b).
  induction (reqs b) as [|r rs IH]; intros [|e es] Hl He; try done. simpl in *. inversion_clear He as [|? ? He1 He2].
  rewrite zlen_app, bits_chunk_length, IH by (done || lia || apply zlen_nonneg). done.
Qed.

Lemma alloc_mixed_kv a bits lens owned : mixed_args bits lens -> kv_inv a owned ->
  exists out a', alloc_mixed a bits lens = Ok (out, a') /\
    match out with
    | Some l => zlen l = zlen bits /\ kv_inv a' (l ++ owned)
    | None => kv_inv a' owned
    end.
Proof.
  intros Ha Hi. destruct (decide (bits = [])) as [->|Hne].
  { exists (Some []), a. split; [done|]. done. }
  rewrite alloc_mixed_eq by done. destruct (alloc_mixed_ref a (split_lens bits lens)) as [out a'] eqn:E.
  exists out, a'. split; [done|]. simpl in *. pose proof (pending_eq a a' (alloc_mixed_ref_group _ _ _ _ E)) as Ep.
  destruct out as [l|]; rewrite Ep; [|by eapply inv_alloc_mixed_none].
  pose proof (inv_alloc_mixed_ref _ _ _ _ _ Hi E) as Hi'. split.
  - destruct (alloc_mixed_ref_out _ _ _ _ E) as (ps & s4 & _ & _ & _ & L1 & L2 & Eo & _).
    destruct (split_lens_spec bits lens) as [Hcat _]; [apply Ha|apply Ha|].
    unfold zlen. rewrite Eo, merge_mask_length by done. unfold mixed_mask. by rewrite keep_first_length, keep_ref_length, Hcat.
  - rewrite real_app. replace (real l) with l.
    + eapply inv_perm; [|exact Hi']. apply Permutation_app_swap_app.
    + symmetry. apply filter_all. intros s Hs. pose proof (inv_owned_range _ _ Hi' s ltac:(apply elem_of_app; by left)). bool_lia.
Qed.

#[global] Instance triaxial_batch_laws mono gh chunk : @BatchAllocatorLaws mono gh TriaxialAllocator _ _ (triaxial_batch_allocator gh chunk).
Proof.
  split. intros m b H others Hm Hb. change (extend_slots m b) with (alloc_token_slots_triaxial gh chunk m b).
  unfold alloc_token_slots_triaxial. pose proof (batch_bits_length b Hb) as Hbits.
  assert (Ha : mixed_args (batch_bits b) (extend_lens b)) by (split; [apply Hb|done]).
  destruct (evict_from_tree_cache_spec mono gh chunk m H others (extend_num_tokens b) Hm) as (m1 & E1 & [Hr1 Hk1] & He1).
  rewrite E1. cbn [rbind]. destruct (alloc_mixed_kv _ _ _ _ Ha Hk1) as (out & al & E2 & Hout). rewrite E2. cbn [rbind].
  destruct out as [l|].
  - right. exists l, (with_allocator m1 al). destruct Hout as [Hl Hk]. split_and!; try done.
    + rewrite Hl, Hbits. apply Hb.
    + split; [done|]. eapply kv_inv_perm; [apply Permutation_app_swap_app|exact Hk].
    + by apply spares_alloc.
  - assert (Hm1 : mem_ok mono gh (with_allocator m1 al) H others) by (by split).
    destruct (tree_evict_spec mono gh _ H others (extend_num_tokens b) Hm1) as (m2 & vs & E3 & [Hr2 Hk2] & He2 & _).
    rewrite E3. cbn [rbind]. destruct (alloc_mixed_kv _ _ _ _ Ha Hk2) as (out & al' & E4 & Hout'). rewrite E4. cbn [rbind].
    destruct out as [l|]; [|by left]. right. exists l, (with_allocator m2 al'). destruct Hout' as [Hl Hk]. split_and!; try done.
    + rewrite Hl, Hbits. apply Hb.
    + split; [done|]. eapply kv_inv_perm; [apply Permutation_app_swap_app|exact Hk].
    + apply spares_alloc. eapply spares_trans; [|exact He2]. by apply spares_alloc.
Qed.
