(* ===== verification/SchedulePolicy.v ===== *)
(** * Scheduling policies

    Class [SchedulePolicy] of [srt/managers/schedule_policy.py]: validation of
    the policy, prefix matching of the waiting queue, and the sort orders.  The
    sorts of Python are stable; [py_sort] is insertion sort, which gives the
    same result.  Dictionaries of children are unordered in the model of the
    tree, so the order in which a dictionary lists its values is a parameter, as
    is the shuffle.  Times are points of a clock. *)

From S2P Require Import Prelude Tensors RadixKeys RadixCache Request.

(** ** Stable sorting *)

Fixpoint insert_by {A K} (lt : K -> K -> bool) (x : K * A) (l : list (K * A)) : list (K * A) :=
  match l with
  | [] => [x]
  | y :: l' => if lt (fst y) (fst x) then y :: insert_by lt x l' else x :: l
  end.

(** [l.sort(key)] for elements that carry their keys. *)
Definition py_sort {A K} (lt : K -> K -> bool) (l : list (K * A)) : list (K * A) := foldr (insert_by lt) [] l.

(** Keys are computed once, before sorting. *)
Definition sort_key {A K} (lt : K -> K -> bool) (key : A -> result K) (l : list A) : result (list A) :=
  let! ks := rmap (fun x => let! k := key x in Ok (k, x)) l in
  Ok (map snd (py_sort lt ks)).

(** ** Policies *)

Inductive CacheAwarePolicy := LPM | DFS_WEIGHT.
Inductive CacheAgnosticPolicy := FCFS | LOF | RANDOM | ROUTING_KEY.
Inductive Policy := Aware (p : CacheAwarePolicy) | Agnostic (p : CacheAgnosticPolicy).

Definition aware_of (s : string) : option CacheAwarePolicy :=
  if String.eqb s "lpm" then Some LPM else if String.eqb s "dfs-weight" then Some DFS_WEIGHT else None.

Definition agnostic_of (s : string) : option CacheAgnosticPolicy :=
  if String.eqb s "fcfs" then Some FCFS else if String.eqb s "lof" then Some LOF
  else if String.eqb s "random" then Some RANDOM else if String.eqb s "routing-key" then Some ROUTING_KEY else None.

Record SchedulePolicy := {
  policy : Policy;
  enable_priority_scheduling : bool;
  priority_sign : Z;
  waiting_queue_radix_tree : RadixCache
}.

Definition validate_and_adjust_policy (s : string) (tree_disabled : bool) : result Policy :=
  match aware_of s with
  | Some p => Ok (if tree_disabled then Agnostic FCFS else Aware p)
  | None => match agnostic_of s with Some p => Ok (Agnostic p) | None => Err ValueError end
  end.

Definition determine_active_policy (sp : SchedulePolicy) (queue : list Req) : Policy :=
  match policy sp with
  | Aware LPM => if 128 <? zlen queue then Agnostic FCFS else Aware LPM
  | p => p
  end.

(** ** Sort orders *)

Definition priority_of (r : Req) : result Z :=
  match priority (info r) with Some p => Ok p | None => Err TypeError end.

Definition sort_by_priority_and_fcfs (q : list Req) (sign : Z) : result (list Req) :=
  sort_key lex_lt (fun r => let! p := priority_of r in Ok [p * sign; wait_queue_entry_time (info r)]) q.

Definition sort_by_longest_output (q : list Req) (enable_priority : bool) (sign : Z) : result (list Req) :=
  if enable_priority
  then sort_key lex_lt (fun r => let! p := priority_of r in Ok [p * sign; - max_new_tokens (sampling_params (info r))]) q
  else sort_key lex_lt (fun r => Ok [- max_new_tokens (sampling_params (info r))]) q.

(** The key is a length or infinity, here a second component. *)
Definition sort_by_longest_prefix (q : list Req) (deprioritized : list string) : result (list Req) :=
  sort_key lex_lt
    (fun r => Ok (if existsb (String.eqb (rid (info r))) deprioritized then [1; 0]
                  else [0; - zlen (prefix_indices (pre r))])) q.

(** [Counter] of the nonempty routing keys of the running requests. *)
Definition nonempty_key (r : Req) : option string :=
  match routing_key (info r) with Some k => if String.eqb k "" then None else Some k | None => None end.

Definition routing_key_count (running : list Req) (k : string) : Z :=
  count (fun r => match nonempty_key r with Some k' => String.eqb k' k | None => false end) running.

Definition key_lt (a b : Z * Z * string) : bool :=
  let '(a1, a2, s) := a in let '(b1, b2, t) := b in
  (a1 <? b1) || (a1 =? b1) && ((a2 <? b2) || (a2 =? b2) && String.ltb s t).

Definition routing_sort_key (running : list Req) (r : Req) : Z * Z * string :=
  match nonempty_key r with
  | Some k => let c := routing_key_count running k in
              if 0 <? c then (0, - c, k) else (1, 0, k)
  | None => (1, 0, ""%string)
  end.

Definition sort_by_routing_key (q running : list Req) : result (list Req) :=
  if forallb (fun r => match nonempty_key r with Some _ => false | None => true end) running then Ok q
  else sort_key key_lt (fun r => Ok (routing_sort_key running r)) q.

(** ** Depth-first order *)

Section dfs.
Context (dict_values : gmap ckey nat -> list nat).

Definition weight (w : gmap nat Z) (n : nat) : Z := default 0 (w !! n).

(** Both walks recurse along the tree; [fuel] bounds its depth. *)
Fixpoint calc_weight (fuel : nat) (st : RadixCache) (n : nat) (w : gmap nat Z) : result (gmap nat Z) :=
  match fuel with
  | O => Err RecursionError
  | S f =>
      let! x := deref st n in
      rfold (fun w c => let! w1 := calc_weight f st c w in Ok (<[n := weight w1 n + weight w1 c]> w1))
        w (dict_values (children x))
  end.

Definition reqs_at (q : list Req) (n : nat) : list Req :=
  List.filter (fun r => match last_node (pre r) with Some m => (m =? n)%nat | None => false end) q.

Fixpoint get_dfs_priority (fuel : nat) (st : RadixCache) (w : gmap nat Z) (q : list Req) (n : nat) : result (list Req) :=
  match fuel with
  | O => Err RecursionError
  | S f =>
      let! x := deref st n in
      let! cs := sort_key Z.ltb (fun c => Ok (- weight w c)) (dict_values (children x)) in
      let! qs := rmap (get_dfs_priority f st w q) cs in
      Ok (concat qs ++ reqs_at q n)
  end.

Definition sort_by_dfs_weight (q : list Req) (st : RadixCache) : result (list Req) :=
  let w0 := foldr (fun r w => match last_node (pre r) with
                              | Some n => <[n := zlen (reqs_at q n)]> w
                              | None => w
                              end) ∅ q in
  let fuel := S (size (nodes st)) in
  let! w := calc_weight fuel st (root_node st) w0 in
  get_dfs_priority fuel st w q (root_node st).
End dfs.

(** ** Prefix matches *)

Definition IN_BATCH_PREFIX_CACHING_CHECK_THRESHOLD : Z := 32.
Definition IN_BATCH_PREFIX_CACHING_DEPRIORITIZE_THRESHOLD : Z := 32.

Section policy.
Context (monotonic : nat -> Z) (get_hash_str : list tok -> option string -> string).
Context (dict_values : gmap ckey nat -> list nat) (shuffle : list Req -> list Req).

(** The tree, the tree of the waiting queue and the deprioritised requests. *)
Definition match_state : Type := RadixCache * RadixCache * list string.

(** [garbage n]: the contents of an uninitialised tensor, used for its length only. *)
Definition match_one (garbage : nat -> Z) (s : match_state) (r : Req) : result (match_state * Req) :=
  let '(tree, wtree, depri) := s in
  let k := req_key (origin_input_ids r ++ output_ids r) (extra_key (info r)) in
  let! (m, tree) := match_prefix monotonic tree k in
  let p := pre r in
  let r := set_pre r (set_prefix p (device_indices m) (Some (last_device_node m)) 0 (cache_protected_len p)) in
  if zlen (device_indices m) <=? IN_BATCH_PREFIX_CACHING_CHECK_THRESHOLD then
    let! (m2, wtree) := match_prefix monotonic wtree k in
    if IN_BATCH_PREFIX_CACHING_DEPRIORITIZE_THRESHOLD <=? zlen (device_indices m2)
    then Ok (tree, wtree, rid (info r) :: depri, r)
    else
      let! (_, wtree) := insert monotonic get_hash_str wtree k (Some (map garbage (seq 0 (length (token_ids k))))) (Some 0) false in
      Ok (tree, wtree, depri, r)
  else Ok (tree, wtree, depri, r).

Fixpoint match_all (garbage : nat -> Z) (s : match_state) (q : list Req) : result (match_state * list Req) :=
  match q with
  | [] => Ok (s, [])
  | r :: q' =>
      let! (s1, r1) := match_one garbage s r in
      let! (s2, q2) := match_all garbage s1 q' in
      Ok (s2, r1 :: q2)
  end.

Definition compute_prefix_matches (garbage : nat -> Z) (tree wtree : RadixCache) (q : list Req)
  : result (match_state * list Req) :=
  match_all garbage (tree, reset monotonic wtree, []) q.

Definition set_waiting_tree (sp : SchedulePolicy) (w : RadixCache) : SchedulePolicy :=
  {| policy := policy sp; enable_priority_scheduling := enable_priority_scheduling sp;
     priority_sign := priority_sign sp; waiting_queue_radix_tree := w |}.

(** Returns whether prefixes were computed, the reordered queue and the new states. *)
Definition calc_priority (garbage : nat -> Z) (sp : SchedulePolicy) (tree : RadixCache) (q : list Req) (running : option (list Req))
  : result (bool * list Req * RadixCache * SchedulePolicy) :=
  match policy sp with
  | Agnostic FCFS =>
      let! q' := if enable_priority_scheduling sp then sort_by_priority_and_fcfs q (priority_sign sp) else Ok q in
      Ok (false, q', tree, sp)
  | _ =>
      match determine_active_policy sp q with
      | Aware p =>
          let! (tree', wtree, depri, q1) := compute_prefix_matches garbage tree (waiting_queue_radix_tree sp) q in
          let! q' := match p with
                     | LPM => sort_by_longest_prefix q1 depri
                     | DFS_WEIGHT => sort_by_dfs_weight dict_values q1 tree'
                     end in
          Ok (true, q', tree', set_waiting_tree sp wtree)
      | Agnostic p =>
          let! q' := match p with
                     | FCFS => Ok q
                     | LOF => sort_by_longest_output q (enable_priority_scheduling sp) (priority_sign sp)
                     | RANDOM => Ok (shuffle q)
                     | ROUTING_KEY => match running with Some rs => sort_by_routing_key q rs | None => Ok q end
                     end in
          Ok (false, q', tree, sp)
      end
  end.
End policy.

(** [SchedulePolicy(policy, tree_cache, ...)]; the simulated tree starts at id [c]. *)
Definition schedule_policy_init (monotonic : nat -> Z) (s : string) (tree_disabled prio low_first : bool) (c : nat)
  : result SchedulePolicy :=
  let! p := validate_and_adjust_policy s tree_disabled in
  let! w := init monotonic false 1 false false false "lru" c in
  Ok {| policy := p; enable_priority_scheduling := prio; priority_sign := if low_first then 1 else -1;
        waiting_queue_radix_tree := w |}.
