(* ===== verification/SchedulePolicyTheory.v ===== *)
(** * Sorting and walking the waiting queue *)

From S2P Require Import Prelude Tensors RadixKeys RadixCache RadixTheory RadixSplit RadixWalk RadixInsert RadixOps RadixLocks RadixFacts Request SchedulePolicy.

(** ** Stable sorting *)

Lemma insert_by_perm {A K} (lt : K -> K -> bool) (x : K * A) l : insert_by lt x l ≡ₚ x :: l.
Proof.
  induction l as [|y l IH]; [done|]. simpl. destruct (lt (fst y) (fst x)); [|done]. rewrite IH. apply Permutation_swap.
Qed.

Lemma py_sort_perm {A K} (lt : K -> K -> bool) (l : list (K * A)) : py_sort lt l ≡ₚ l.
Proof. induction l as [|x l IH]; [done|]. simpl. by rewrite insert_by_perm, IH. Qed.

(** Sorting by a key that always exists permutes the list. *)
Lemma sort_key_perm {A K} (lt : K -> K -> bool) (key : A -> result K) l :
  (forall x, x ∈ l -> exists k, key x = Ok k) -> exists l', sort_key lt key l = Ok l' /\ l' ≡ₚ l.
Proof.
  intros Hk. assert (Hr : exists ks, rmap (fun x => let! k := key x in Ok (k, x)) l = Ok ks /\ map snd ks = l).
  { induction l as [|x l IH]; [by exists []|]. destruct (Hk x) as [k E]; [by left|].
    destruct IH as (ks & E' & Es); [intros y Hy; apply Hk; by right|]. exists ((k, x) :: ks). simpl. rewrite E. cbn [rbind].
    rewrite E'. cbn [rbind]. split; [done|]. simpl. by rewrite Es. }
  destruct Hr as (ks & E & Es). unfold sort_key. rewrite E. cbn [rbind]. eexists. split; [done|].
  rewrite <- Es. apply (Permutation_map snd), py_sort_perm.
Qed.

(** ** Requests by node *)

Lemma reqs_at_cons r q n : reqs_at (r :: q) n =
  if decide (last_node (pre r) = Some n) then r :: reqs_at q n else reqs_at q n.
Proof.
  unfold reqs_at. simpl. destruct (last_node (pre r)) as [m|]; [|done]. destruct (Nat.eqb_spec m n) as [-> |Hne].
  - by rewrite decide_True.
  - rewrite decide_False; [done|congruence].
Qed.

Lemma reqs_at_skip r q D : (forall n, n ∈ D -> last_node (pre r) <> Some n) ->
  map (reqs_at (r :: q)) D = map (reqs_at q) D.
Proof.
  intros H. apply map_ext_in. intros n Hn%list_elem_of_In. rewrite reqs_at_cons. by rewrite decide_False by (by apply H).
Qed.

(** Listing the requests of every node once lists every request once. *)
Lemma reqs_partition q D : NoDup D -> (forall r, r ∈ q -> exists n, n ∈ D /\ last_node (pre r) = Some n) ->
  concat (map (reqs_at q) D) ≡ₚ q.
Proof.
  intros Hnd. induction q as [|r q IH]; intros Hq.
  - induction D as [|n D IH]; [done|]. simpl. apply IH; [by inversion Hnd|]. intros r Hr. by apply elem_of_nil in Hr.
  - destruct (Hq r) as (n & Hn & En); [by left|]. apply list_elem_of_split in Hn as (D1 & D2 & ->).
    apply list.NoDup_app in Hnd as (Hn1 & Hd & Hn2). apply list.NoDup_cons in Hn2 as [Hn2 _].
    specialize (IH ltac:(intros r' Hr'; apply Hq; by right)).
    trans (r :: concat (map (reqs_at q) (D1 ++ n :: D2))); [|by rewrite IH]. rewrite !map_app, !concat_app. cbn [map concat]. rewrite reqs_at_cons, decide_True by done.
    rewrite !reqs_at_skip; [cbn [app]; symmetry; apply Permutation_middle| |].
    + intros m Hm. rewrite En. intros [= ->]. done.
    + intros m Hm. rewrite En. intros [= ->]. by eapply Hd; [|left].
Qed.

(** ** Depth-first walks *)

Section walk.
Context (st : RadixCache) (L : gset nat) (pl : nat -> Z) (Ht : tree st L pl).
Context (dict_values : gmap ckey nat -> list nat) (Hdict : forall c, dict_values c ≡ₚ map snd (map_to_list c)).

(** [m] lies in the subtree of [n]. *)
Definition below (n m : nat) : Prop := m ∈ L /\ exists P, path st m P /\ (n ∈ P \/ n = root_node st).

Lemma path_suffix m P c : path st m P -> c ∈ P ->
  exists A Pc y p, P = A ++ c :: Pc /\ nodes st !! c = Some y /\ parent y = Some p /\ path st p Pc.
Proof.
  induction 1 as [|n x p P Hnr Hx Hp HP IH]; intros Hc; [by apply elem_of_nil in Hc|].
  apply elem_of_cons in Hc as [-> |Hc]; [by exists [], P, x, p|].
  destruct (IH Hc) as (A & Pc & y & q & -> & Hy & Hq & HPc). by exists (n :: A), Pc, y, q.
Qed.

Lemma below_children n m : n ∈ L -> below n m <->
  m = n \/ exists c, c ∈ L /\ c <> root_node st /\ (exists y, nodes st !! c = Some y /\ parent y = Some n) /\ below c m.
Proof.
  intros Hn. split.
  - intros (Hm & P & HP & Hin). revert Hm Hin. induction HP as [|m x p P Hmr Hx Hp HP IH]; intros Hm Hin.
    + destruct Hin as [Hin| ->]; [by apply elem_of_nil in Hin|by left].
    + destruct (decide (m = n)) as [-> |Hne]; [by left|right].
      destruct (parent_live st L pl Ht m x p Hm Hmr Hx Hp) as (HpL & _).
      destruct IH as [-> |(c & Hc & Hcr & Hy & HcL & P' & HP' & Hin')]; [done|set_solver| |].
      * exists m. split_and!; try done; [by exists x|]. split; [done|]. exists (m :: P). split; [by econstructor|]. left. by left.
      * exists c. split_and!; try done. split; [done|]. rewrite (path_fun _ _ _ _ HP' HP) in Hin'.
        exists (m :: P). split; [by econstructor|]. destruct Hin'; [left; by right|by right].
  - intros [-> |(c & Hc & Hcr & (y & Hy & Hp) & Hm & P & HP & Hin)].
    + destruct (path_ex st L pl Ht n Hn) as [P HP]. split; [done|]. exists P. split; [done|].
      inversion HP; subst; [by right|left; by left].
    + split; [done|]. exists P. split; [done|]. destruct Hin as [Hin| ->]; [|done].
      destruct (path_suffix _ _ _ HP Hin) as (A & Pc & y' & p & -> & Hy' & Hp' & HPc). simplify_eq.
      inversion HPc; subst; [by right|]. left. apply elem_of_app. right. right. by left.
Qed.

(** Subtrees of different children are disjoint. *)
Lemma below_disjoint n c1 c2 y1 y2 m : c1 <> root_node st -> c2 <> root_node st ->
  nodes st !! c1 = Some y1 -> parent y1 = Some n -> nodes st !! c2 = Some y2 -> parent y2 = Some n ->
  below c1 m -> below c2 m -> c1 = c2.
Proof.
  intros R1 R2 H1 P1 H2 P2 (_ & P & HP & [Hin1|?]) (_ & P' & HP' & [Hin2|?]); try done.
  rewrite (path_fun _ _ _ _ HP' HP) in Hin2.
  destruct (path_suffix _ _ _ HP Hin1) as (A & Pa & y & p & Ea & Hy & Hp & HPa).
  destruct (path_suffix _ _ _ HP Hin2) as (B & Pb & z & s & Eb & Hz & Hs & HPb). simplify_eq.
  rewrite (path_fun _ _ _ _ HPb HPa) in Eb. by apply app_inj_2 in Eb as [_ [= ->]].
Qed.

(** The children a walk visits. *)
Lemma dict_children n x m : n ∈ L -> nodes st !! n = Some x ->
  m ∈ dict_values (children x) <-> m ∈ L /\ m <> root_node st /\ exists y, nodes st !! m = Some y /\ parent y = Some n.
Proof. intros Hn Hx. rewrite Hdict. by apply (child_list_spec st L pl Ht). Qed.

Lemma child_fuel n x P c f : n ∈ L -> path st n P -> nodes st !! n = Some x -> c ∈ dict_values (children x) ->
  (size (nodes st) < S f + length P)%nat -> c ∈ L /\ path st c (c :: P) /\ (size (nodes st) < f + length (c :: P))%nat.
Proof.
  intros Hn HP Hx Hc Hf. apply (dict_children n x c Hn Hx) in Hc as (HcL & Hcr & y & Hy & Hp).
  split_and!; [done|by econstructor|simpl; lia].
Qed.

Lemma calc_weight_ok fuel : forall n P w, n ∈ L -> path st n P -> (size (nodes st) < fuel + length P)%nat ->
  exists w', calc_weight dict_values fuel st n w = Ok w'.
Proof.
  induction fuel as [|f IH]; intros n P w Hn HP Hf.
  - pose proof (path_len st L pl Ht n P HP Hn). simpl in Hf. lia.
  - simpl. destruct (tree_value _ _ _ _ Ht Hn) as (x & _ & Hx & _). rewrite (deref_ok _ _ _ Hx). cbn [rbind].
    assert (Hcs : forall c, c ∈ dict_values (children x) -> c ∈ L /\ path st c (c :: P) /\ (size (nodes st) < f + length (c :: P))%nat)
      by (intros c Hc; by eapply child_fuel).
    revert w Hcs. induction (dict_values (children x)) as [|c cs IHc]; intros w Hcs; [by exists w|]. simpl.
    destruct (Hcs c) as (HcL & HcP & Hcf); [by left|]. destruct (IH c (c :: P) w HcL HcP Hcf) as [w1 E]. rewrite E. cbn [rbind].
    apply IHc. intros d Hd. apply Hcs. by right.
Qed.

(** The walk lists the requests of the subtree of [n], node by node. *)
Definition lists_subtrees (q : list Req) (S : nat -> Prop) (out : list Req) : Prop :=
  exists D, out ≡ₚ concat (map (reqs_at q) D) /\ NoDup D /\ forall m, m ∈ D <-> S m.

Lemma rmap_subtrees q n (f : nat -> result (list Req)) cs : NoDup cs ->
  (forall c, c ∈ cs -> c <> root_node st /\ exists y, nodes st !! c = Some y /\ parent y = Some n) ->
  (forall c, c ∈ cs -> exists out, f c = Ok out /\ lists_subtrees q (below c) out) ->
  exists outs, rmap f cs = Ok outs /\ lists_subtrees q (fun m => exists c, c ∈ cs /\ below c m) (concat outs).
Proof.
  induction cs as [|c cs IH]; intros Hnd Hp Hf.
  - exists []. split; [done|]. exists []. split_and!; [done|constructor|]. intros m. split; [by intros ?%elem_of_nil|].
    by intros (c & Hc%elem_of_nil & _).
  - apply list.NoDup_cons in Hnd as [Hc Hnd]. destruct (Hf c) as (out & E & D & HD & HnD & HmD); [by left|].
    destruct IH as (outs & E' & D' & HD' & HnD' & HmD'); [done|intros; apply Hp; by right|intros; apply Hf; by right|].
    exists (out :: outs). simpl. rewrite E. cbn [rbind]. rewrite E'. cbn [rbind]. split; [done|]. exists (D ++ D').
    split_and!.
    + by rewrite map_app, concat_app, HD, HD'.
    + apply list.NoDup_app. split_and!; try done. intros m Hm Hm'. apply HmD in Hm. apply HmD' in Hm' as (d & Hd & Hm').
      destruct (Hp c) as (Rc & y & Hy & Py); [by left|]. destruct (Hp d) as (Rd & z & Hz & Pz); [by right|].
      by rewrite (below_disjoint n c d y z m Rc Rd Hy Py Hz Pz Hm Hm') in Hc.
    + intros m. rewrite elem_of_app, HmD, HmD'. split.
      * intros [Hm|(d & Hd & Hm)]; [exists c|exists d]; (split; [set_solver|done]).
      * intros (d & [-> |Hd]%elem_of_cons & Hm); [by left|right; by exists d].
Qed.

Lemma dfs_lists w q fuel : forall n P, n ∈ L -> path st n P -> (size (nodes st) < fuel + length P)%nat ->
  exists out, get_dfs_priority dict_values fuel st w q n = Ok out /\ lists_subtrees q (below n) out.
Proof.
  induction fuel as [|f IH]; intros n P Hn HP Hf.
  - pose proof (path_len st L pl Ht n P HP Hn). simpl in Hf. lia.
  - simpl. destruct (tree_value _ _ _ _ Ht Hn) as (x & _ & Hx & _). rewrite (deref_ok _ _ _ Hx). cbn [rbind].
    destruct (sort_key_perm Z.ltb (fun c => Ok (- weight w c)) (dict_values (children x))) as (cs & E & Hcs); [by eexists|].
    rewrite E. cbn [rbind].
    destruct (rmap_subtrees q n (get_dfs_priority dict_values f st w q) cs) as (outs & E' & D & HD & HnD & HmD).
    + rewrite Hcs, Hdict. by apply (child_list_nodup st L pl Ht n).
    + intros c Hc. rewrite Hcs in Hc. by apply (dict_children n x c Hn Hx) in Hc as (_ & ? & ?).
    + intros c Hc. rewrite Hcs in Hc. destruct (child_fuel n x P c f Hn HP Hx Hc Hf) as (HcL & HcP & Hcf). by eapply IH.
    + rewrite E'. cbn [rbind]. eexists. split; [done|]. exists (D ++ [n]). split_and!.
      * rewrite map_app, concat_app, HD. simpl. by rewrite app_nil_r.
      * apply list.NoDup_app. split_and!; [done| |apply NoDup_singleton]. intros m Hm ->%list_elem_of_singleton.
        apply HmD in Hm as (c & Hc & Hb). rewrite Hcs in Hc. apply (dict_children n x c Hn Hx) in Hc as (HcL & Hcr & y & Hy & Hp).
        destruct Hb as (_ & P' & HP' & [Hin|?]); [|done]. rewrite (path_fun _ _ _ _ HP' HP) in Hin.
        destruct (path_props st L pl Ht n P HP Hn) as [_ Hall]. apply Hall in Hin as (_ & _ & Hle & _).
        destruct (parent_live st L pl Ht c y n HcL Hcr Hy Hp) as (_ & Hlt & _). lia.
      * intros m. rewrite elem_of_app, list_elem_of_singleton, HmD, (below_children n m Hn). split.
        -- intros [(c & Hc & Hb)|Hm]; [right|by left]. rewrite Hcs in Hc.
           apply (dict_children n x c Hn Hx) in Hc as (HcL & Hcr & Hy). by exists c.
        -- intros [-> |(c & HcL & Hcr & Hy & Hb)]; [by right|left]. exists c. split; [|done]. rewrite Hcs.
           by apply (dict_children n x c Hn Hx).
Qed.

(** Sorting by depth-first weight loses no request whose node is in the tree. *)
Lemma sort_by_dfs_weight_perm q : (forall r, r ∈ q -> exists n, n ∈ L /\ last_node (pre r) = Some n) ->
  exists q', sort_by_dfs_weight dict_values q st = Ok q' /\ q' ≡ₚ q.
Proof.
  intros Hq. unfold sort_by_dfs_weight. pose proof (tr_root _ _ _ Ht) as Hr.
  destruct (calc_weight_ok (S (size (nodes st))) (root_node st) [] (foldr (fun r w => match last_node (pre r) with
    | Some n => <[n := zlen (reqs_at q n)]> w | None => w end) ∅ q) Hr ltac:(constructor) ltac:(simpl; lia)) as [w E].
  rewrite E. cbn [rbind].
  destruct (dfs_lists w q (S (size (nodes st))) (root_node st) [] Hr ltac:(constructor) ltac:(simpl; lia)) as (q' & E' & D & HD & HnD & HmD).
  exists q'. split; [done|]. rewrite HD. apply reqs_partition; [done|]. intros r Hr'. destruct (Hq r Hr') as (n & Hn & En).
  exists n. split; [|done]. apply HmD. destruct (path_ex st L pl Ht n Hn) as [P HP]. split; [done|]. exists P. split; [done|by right].
Qed.
End walk.
