(* ===== verification/SchedulePolicyProps.v ===== *)
(** * Scheduling loses no request

    [calc_priority] under every policy: the queue is permuted, and after prefix
    matching every request's cached slots are those of its node. *)

From S2P Require Import Prelude Tensors RadixKeys RadixCache RadixTheory RadixSplit RadixWalk RadixInsert RadixOps RadixLocks RadixFacts RadixProps Request ReqCacheProps SchedulePolicy SchedulePolicyTheory.

(** What scheduling must not change. *)
Definition core (r : Req) : ReqStatic * list Z * list Z * ReqKV * ReqFinish :=
  (info r, origin_input_ids r, output_ids r, kv r, fin r).

(** The tree of a simulated cache: single tokens, no bigrams. *)
Definition simulated (st : RadixCache) : Prop := RadixCache.page_size st = 1 /\ is_eagle st = false.

(** The request's slots are those on the path of its node. *)
Definition prefix_aligned (st : RadixCache) (r : Req) : Prop :=
  exists n ks, last_node (pre r) = Some n /\ reach st (root_node st) n ks (prefix_indices (pre r)).

Section props.
Context (mono : nat -> Z) (gh : list tok -> option string -> string) (garbage : nat -> Z).
Context (dict_values : gmap ckey nat -> list nat) (Hdict : forall c, dict_values c ≡ₚ map snd (map_to_list c)).
Context (shuffle : list Req -> list Req) (Hshuffle : forall q, shuffle q ≡ₚ q).

(** Lookups keep every path. *)
Lemma match_keeps st H k r st' : rreach mono gh st H -> match_prefix mono st k = Ok (r, st') ->
  forall n ks vs, reach st (root_node st) n ks vs -> reach st' (root_node st') n ks vs.
Proof.
  intros Hr E. destruct (rreach_inv _ _ _ _ Hr) as (Hc & L & pl & Hi).
  destruct (match_prefix_spec mono st L pl k (ri_tree _ _ _ _ Hi) (proj1 Hc)) as (r' & s & L' & pl' & E' & He & _).
  rewrite E in E'. injection E' as <- <-. intros n ks vs Hre. rewrite (ex_root _ _ _ _ _ He).
  apply (ex_reach _ _ _ _ _ He); [apply Hi|done].
Qed.

Lemma match_total st H k : rreach mono gh st H -> exists r st', match_prefix mono st k = Ok (r, st').
Proof.
  intros Hr. destruct (rreach_inv _ _ _ _ Hr) as (Hc & L & pl & Hi).
  destruct (match_prefix_spec mono st L pl k (ri_tree _ _ _ _ Hi) (proj1 Hc)) as (r & s & L' & pl' & E & _). by exists r, s.
Qed.

Lemma simulated_insertable st k v : simulated st -> zlen v = zlen (token_ids k) -> insertable st k v.
Proof.
  intros [Hp He] Hl. unfold insertable, ins_key, ins_val, maybe_bigram_convert. rewrite He, Hp. simpl.
  split; [apply Z.mod_1_r|done].
Qed.

Lemma simulated_insert st H k v prio chunked : rreach mono gh st H -> simulated st -> zlen v = zlen (token_ids k) ->
  exists m st', insert mono gh st k (Some v) prio chunked = Ok (m, st') /\ rreach mono gh st' H /\ simulated st'.
Proof.
  intros Hr Hs Hl. pose proof (simulated_insertable st k v Hs Hl) as Hok. destruct (rreach_inv _ _ _ _ Hr) as (Hc & L & pl & Hi).
  destruct (insert_spec mono gh st L pl k v prio chunked (ri_tree _ _ _ _ Hi) (ri_acct _ _ _ _ Hi) Hc Hok)
    as (m & w & st' & L' & pl' & E & Hin). exists m, st'. split_and!; [done|by eapply rreach_insert|].
  destruct Hs. split; [rewrite (in_ps _ _ _ _ _ _ _ _ _ Hin)|rewrite (in_eagle _ _ _ _ _ _ _ _ _ Hin)]; done.
Qed.

Lemma simulated_match st H k r st' : rreach mono gh st H -> simulated st -> match_prefix mono st k = Ok (r, st') -> simulated st'.
Proof. intros Hr [Hp He] E. destruct (match_config _ _ _ _ _ _ _ Hr E) as [E1 E2]. split; congruence. Qed.

Lemma simulated_reset st H : rreach mono gh st H -> simulated st -> simulated (reset mono st).
Proof.
  intros Hr [Hp He]. destruct (rreach_inv _ _ _ _ Hr) as (_ & L & pl & Hi).
  destruct (reset_spec mono st (tr_fresh _ _ _ (ri_tree _ _ _ _ Hi)) (tr_ps _ _ _ (ri_tree _ _ _ _ Hi))) as (_ & E1 & _ & E2 & _).
  split; congruence.
Qed.

Lemma match_one_ok tree H wtree Hw depri r : rreach mono gh tree H -> rreach mono gh wtree Hw -> simulated wtree ->
  exists tree' wtree' depri' r', match_one mono gh garbage (tree, wtree, depri) r = Ok (tree', wtree', depri', r') /\
    rreach mono gh tree' H /\ held_slots tree' ≡ₚ held_slots tree /\ rreach mono gh wtree' Hw /\ simulated wtree' /\ core r' = core r /\ prefix_aligned tree' r' /\
    forall n ks vs, reach tree (root_node tree) n ks vs -> reach tree' (root_node tree') n ks vs.
Proof.
  intros Hr Hrw Hs. unfold match_one. set (k := req_key _ _).
  destruct (match_total tree H k Hr) as (m & t1 & E). rewrite E. cbn [rbind].
  destruct (match_reach _ _ _ _ _ _ _ Hr E) as [Hr1 (ks & Hre)]. pose proof (match_slots _ _ _ _ _ _ _ Hr E) as Hsl. pose proof (match_keeps _ _ _ _ _ Hr E) as Hk.
  assert (Hal : forall p, prefix_aligned t1 (set_pre r (set_prefix p (device_indices m) (Some (last_device_node m)) 0 (cache_protected_len (pre r)))))
    by (intros p; by exists (last_device_node m), ks).
  destruct (_ <=? _); [|by eexists t1, wtree, depri, _].
  destruct (match_total wtree Hw k Hrw) as (m2 & w1 & E2). rewrite E2. cbn [rbind].
  destruct (match_reach _ _ _ _ _ _ _ Hrw E2) as [Hw1 _]. pose proof (simulated_match _ _ _ _ _ Hrw Hs E2) as Hs1.
  destruct (_ <=? _); [by eexists t1, w1, _, _|].
  destruct (simulated_insert w1 Hw k (map garbage (seq 0 (length (token_ids k)))) (Some 0) false Hw1 Hs1) as (mm & w2 & E3 & Hw2 & Hs2).
  { unfold zlen. by rewrite length_map, length_seq. }
  rewrite E3. cbn [rbind]. by eexists t1, w2, depri, _.
Qed.

Lemma match_all_ok q : forall tree H wtree Hw depri, rreach mono gh tree H -> rreach mono gh wtree Hw -> simulated wtree ->
  exists tree' wtree' depri' q', match_all mono gh garbage (tree, wtree, depri) q = Ok (tree', wtree', depri', q') /\
    rreach mono gh tree' H /\ held_slots tree' ≡ₚ held_slots tree /\ rreach mono gh wtree' Hw /\ simulated wtree' /\ map core q' = map core q /\
    Forall (prefix_aligned tree') q' /\
    forall n ks vs, reach tree (root_node tree) n ks vs -> reach tree' (root_node tree') n ks vs.
Proof.
  induction q as [|r q IH]; intros tree H wtree Hw depri Hr Hrw Hs; [by exists tree, wtree, depri, []|]. cbn [match_all].
  destruct (match_one_ok tree H wtree Hw depri r Hr Hrw Hs) as (t1 & w1 & d1 & r1 & E & Hr1 & Hl1 & Hw1 & Hs1 & Hc1 & (n1 & ks1 & En & Hre) & Hk1).
  rewrite E. cbn [rbind]. destruct (IH t1 H w1 Hw d1 Hr1 Hw1 Hs1) as (t2 & w2 & d2 & q2 & E2 & Hr2 & Hl2 & Hw2 & Hs2 & Hc2 & Ha2 & Hk2).
  rewrite E2. cbn [rbind]. exists t2, w2, d2, (r1 :: q2). split_and!; try done.
  - by rewrite Hl2, Hl1.
  - simpl. by rewrite Hc1, Hc2.
  - constructor; [|done]. exists n1, ks1. split; [done|]. by apply Hk2.
  - intros n ks vs Hn. by apply Hk2, Hk1.
Qed.

(** The sorts of each policy permute the queue. *)
Lemma sort_by_priority_perm q sign : (forall r, r ∈ q -> exists p, priority_of r = Ok p) ->
  exists q', sort_by_priority_and_fcfs q sign = Ok q' /\ q' ≡ₚ q.
Proof. intros Hp. apply sort_key_perm. intros r Hr. destruct (Hp r Hr) as [p E]. rewrite E. by eexists. Qed.

Lemma agnostic_perm q (prio : bool) sign running p : (prio = true -> forall r, r ∈ q -> exists p, priority_of r = Ok p) ->
  exists q', match p with
             | FCFS => Ok q
             | LOF => sort_by_longest_output q prio sign
             | RANDOM => Ok (shuffle q)
             | ROUTING_KEY => match running with Some rs => sort_by_routing_key q rs | None => Ok q end
             end = Ok q' /\ q' ≡ₚ q.
Proof.
  intros Hp. destruct p.
  - by exists q.
  - unfold sort_by_longest_output. destruct prio; apply sort_key_perm; [|by eexists].
    intros r Hr. destruct (Hp eq_refl r Hr) as [p E]. rewrite E. by eexists.
  - by exists (shuffle q).
  - destruct running as [rs|]; [|by exists q]. unfold sort_by_routing_key. destruct (forallb _ _); [by exists q|].
    apply sort_key_perm. by eexists.
Qed.

Lemma aware_perm tree H q depri p : rreach mono gh tree H -> Forall (prefix_aligned tree) q ->
  exists q', match p with
             | LPM => sort_by_longest_prefix q depri
             | DFS_WEIGHT => sort_by_dfs_weight dict_values q tree
             end = Ok q' /\ q' ≡ₚ q.
Proof.
  intros Hr Hal. destruct p; [apply sort_key_perm; by eexists|].
  destruct (rreach_inv _ _ _ _ Hr) as (_ & L & pl & Hi). apply (sort_by_dfs_weight_perm tree L pl (ri_tree _ _ _ _ Hi)); [done|].
  intros r Hrq. rewrite list.Forall_forall in Hal. destruct (Hal r Hrq) as (n & ks & En & Hre). exists n. split; [|done].
  eapply reach_live; [apply Hi|apply Hi|done].
Qed.

Lemma aware_run sp tree H Hw q p : rreach mono gh tree H ->
  rreach mono gh (waiting_queue_radix_tree sp) Hw -> simulated (waiting_queue_radix_tree sp) ->
  exists q' tree' sp',
    (let! (tree', wtree, depri, q1) := compute_prefix_matches mono gh garbage tree (waiting_queue_radix_tree sp) q in
     let! q' := match p with LPM => sort_by_longest_prefix q1 depri | DFS_WEIGHT => sort_by_dfs_weight dict_values q1 tree' end in
     Ok (true, q', tree', set_waiting_tree sp wtree)) = Ok (true, q', tree', sp') /\
    map core q' ≡ₚ map core q /\ rreach mono gh tree' H /\ held_slots tree' ≡ₚ held_slots tree /\ policy sp' = policy sp /\ Forall (prefix_aligned tree') q'.
Proof.
  intros Hr Hrw Hs. unfold compute_prefix_matches. pose proof (simulated_reset _ _ Hrw Hs) as Hs0.
  destruct (match_all_ok q tree H _ [] [] Hr (rreach_reset _ _ _ _ Hrw) Hs0) as (t & w & d & q1 & E & Hr1 & Hl1 & _ & _ & Hc & Ha & _).
  rewrite E. cbn [rbind]. destruct (aware_perm t H q1 d p Hr1 Ha) as (q' & E' & HP). rewrite E'. cbn [rbind].
  eexists q', t, _. split_and!; try done; [|by rewrite HP]. by rewrite <- Hc, HP.
Qed.

Lemma calc_priority_ok sp tree H Hw q running :
  rreach mono gh tree H -> rreach mono gh (waiting_queue_radix_tree sp) Hw -> simulated (waiting_queue_radix_tree sp) ->
  (enable_priority_scheduling sp = true -> Forall (fun r => priority (info r) <> None) q) ->
  exists b q' tree' sp', calc_priority mono gh dict_values shuffle garbage sp tree q running = Ok (b, q', tree', sp') /\
    map core q' ≡ₚ map core q /\ rreach mono gh tree' H /\ held_slots tree' ≡ₚ held_slots tree /\ policy sp' = policy sp /\
    (b = true -> Forall (prefix_aligned tree') q').
Proof.
  intros Hr Hrw Hs Hprio.
  assert (Hp : enable_priority_scheduling sp = true -> forall r, r ∈ q -> exists p, priority_of r = Ok p).
  { intros He r Hq. specialize (Hprio He). rewrite list.Forall_forall in Hprio. specialize (Hprio r Hq). unfold priority_of.
    destruct (priority (info r)) as [p|]; [by exists p|done]. }
  assert (Hagn : forall p, exists q', match p with
             | FCFS => Ok q
             | LOF => sort_by_longest_output q (enable_priority_scheduling sp) (priority_sign sp)
             | RANDOM => Ok (shuffle q)
             | ROUTING_KEY => match running with Some rs => sort_by_routing_key q rs | None => Ok q end
             end = Ok q' /\ q' ≡ₚ q) by (intros p; by apply agnostic_perm).
  assert (Hfin : forall q', q' ≡ₚ q -> exists b q2 tree' sp', @Ok (bool * list Req * RadixCache * SchedulePolicy) (false, q', tree, sp) = Ok (b, q2, tree', sp') /\
    map core q2 ≡ₚ map core q /\ rreach mono gh tree' H /\ held_slots tree' ≡ₚ held_slots tree /\ policy sp' = policy sp /\ (b = true -> Forall (prefix_aligned tree') q2)).
  { intros q' HP. exists false, q', tree, sp. split_and!; try done. by rewrite HP. }
  unfold calc_priority, determine_active_policy. destruct (policy sp) as [p|p] eqn:Epol.
  - assert (Hcase : (match p with LPM => if 128 <? zlen q then Agnostic FCFS else Aware LPM | DFS_WEIGHT => Aware DFS_WEIGHT end) = Aware p \/
                    (match p with LPM => if 128 <? zlen q then Agnostic FCFS else Aware LPM | DFS_WEIGHT => Aware DFS_WEIGHT end) = Agnostic FCFS)
      by (destruct p; [destruct (128 <? zlen q)|]; auto).
    destruct Hcase as [-> | ->].
    + destruct (aware_run sp tree H Hw q p Hr Hrw Hs) as (q' & t & sp' & E & H1 & H2 & H2' & H3 & H4). exists true, q', t, sp'. rewrite <- E, <- Epol. destruct p; by split_and!.
    + cbn [rbind]. destruct p; by apply Hfin.
  - destruct p.
    + destruct (enable_priority_scheduling sp); [|by apply Hfin].
      destruct (sort_by_priority_perm q (priority_sign sp) (Hp eq_refl)) as (q' & E & HP). rewrite E. by apply Hfin.
    + destruct (Hagn LOF) as (q' & E & HP). rewrite E. by apply Hfin.
    + destruct (Hagn RANDOM) as (q' & E & HP). by apply Hfin.
    + destruct (Hagn ROUTING_KEY) as (q' & E & HP). rewrite E. by apply Hfin.
Qed.

(** [calc_priority] succeeds under every policy and only reorders the
    waiting queue: no request is lost, duplicated or changed except for its
    cached prefix, and the tree keeps its locks and its slots.  When it computed prefixes, each request's cached slots are
    exactly those on the path of the tree node it points to, although later
    lookups may have split nodes on that path. *)
Theorem calc_priority_permutes sp tree H Hw q running :
  rreach mono gh tree H -> rreach mono gh (waiting_queue_radix_tree sp) Hw -> simulated (waiting_queue_radix_tree sp) ->
  (enable_priority_scheduling sp = true -> Forall (fun r => priority (info r) <> None) q) ->
  exists b q' tree' sp', calc_priority mono gh dict_values shuffle garbage sp tree q running = Ok (b, q', tree', sp') /\
    map core q' ≡ₚ map core q /\ rreach mono gh tree' H /\ held_slots tree' ≡ₚ held_slots tree /\ policy sp' = policy sp /\
    (b = true -> Forall (prefix_aligned tree') q').
Proof. by apply calc_priority_ok. Qed.
End props.

(** ** A concrete queue *)

Definition any_order (c : gmap ckey nat) : list nat := map snd (map_to_list c).

Definition sample_policy (p : Policy) : SchedulePolicy :=
  {| policy := p; enable_priority_scheduling := false; priority_sign := -1; waiting_queue_radix_tree := ok_or blank demo0 |}.

Lemma calc_priority_permutes_witness : exists q' tree' sp',
  calc_priority clock no_hash any_order (fun q => rev q) (fun _ => 0) (sample_policy (Aware DFS_WEIGHT)) RadixProps.demo
    [sample_req None [9; 9] None 0; sample_req None [1; 2; 4; 7] None 0; sample_req None [1; 2; 4; 5; 6] None 0] None
  = Ok (true, q', tree', sp').
Proof.
  assert (R0 : rreach clock no_hash (ok_or blank demo0) []).
  { eapply (rreach_init _ _ 1 false false "lru" 0); [lia|]. vm_compute. reflexivity. }
  destruct (calc_priority_permutes clock no_hash (fun _ => 0) any_order (fun _ => Permutation_refl _) (fun q => rev q)
    (fun q => symmetry (Permutation_rev q)) (sample_policy (Aware DFS_WEIGHT)) RadixProps.demo [1%nat] []
    [sample_req None [9; 9] None 0; sample_req None [1; 2; 4; 7] None 0; sample_req None [1; 2; 4; 5; 6] None 0] None
    RadixProps.demo_reach R0) as (b & q' & t & sp' & E & _).
  - split; vm_compute; reflexivity.
  - discriminate.
  - exists q', t, sp'. destruct b; [exact E|]. exfalso. vm_compute in E. discriminate E.
Defined.
