(* ===== verification/DecodeBatch.v ===== *)
(** * The running decode batch

    The part of class [ScheduleBatch] ([srt/managers/schedule_batch.py]) that
    filters, merges and retracts decode batches, without speculative decoding
    and outside disaggregated decode servers. *)

From S2P Require Import Prelude Tensors Floats RadixKeys RadixCache Request ReqPool KVAllocator ReqCache MemCommon SchedulePolicy.

Record DecodeBatch := {
  b_reqs : list Req;
  b_req_pool_indices : list Z;
  b_seq_lens : list Z;
  b_orig_seq_lens : list Z;
  b_seq_lens_sum : Z;
  b_output_ids : option (list Z);
  b_out_cache_loc : option (list Z);
  b_return_logprob : bool
}.

Definition with_reqs (b : DecodeBatch) (rs : list Req) : DecodeBatch :=
  {| b_reqs := rs; b_req_pool_indices := b_req_pool_indices b; b_seq_lens := b_seq_lens b;
     b_orig_seq_lens := b_orig_seq_lens b; b_seq_lens_sum := b_seq_lens_sum b; b_output_ids := b_output_ids b;
     b_out_cache_loc := b_out_cache_loc b; b_return_logprob := b_return_logprob b |}.

(** [[l[i] for i in keep]] *)
Definition gather {A} (l : list A) (keep : list Z) : result (list A) := rmap (py_get l) keep.

(** The indices that stay: given, or those of unfinished requests that are not excluded. *)
Definition kept_indices (b : DecodeBatch) (exclude : list string) (keep : option (list Z)) : list Z :=
  match keep with
  | Some k => k
  | None => List.filter (fun i => match b_reqs b !! Z.to_nat i with
                                  | Some r => negb (finished r) && negb (existsb (String.eqb (rid (info r))) exclude)
                                  | None => false
                                  end) (seqZ 0 (zlen (b_reqs b)))
  end.

Definition filter_batch (b : DecodeBatch) (exclude : list string) (keep : option (list Z)) : result DecodeBatch :=
  let keep := kept_indices b exclude keep in
  if zlen keep =? 0 then Ok (with_reqs b [])
  else if zlen keep =? zlen (b_reqs b) then Ok b
  else
    let! rs := gather (b_reqs b) keep in
    let! idx := gather (b_req_pool_indices b) keep in
    let! seqs := gather (b_seq_lens b) keep in
    let! orig := gather (b_orig_seq_lens b) keep in
    let! outs := match b_output_ids b with
                 | Some o => let! o' := gather o keep in Ok (Some o')
                 | None => Ok None
                 end in
    Ok {| b_reqs := rs; b_req_pool_indices := idx; b_seq_lens := seqs; b_orig_seq_lens := orig;
          b_seq_lens_sum := zsum seqs; b_output_ids := outs; b_out_cache_loc := None;
          b_return_logprob := existsb (fun r => return_logprob (info r)) rs |}.

Definition merge_batch (b other : DecodeBatch) : result DecodeBatch :=
  let! outs := match b_output_ids b, b_output_ids other with
               | Some o, Some o' => Ok (Some (o ++ o'))
               | Some _, None => Err TypeError
               | None, _ => Ok None
               end in
  Ok {| b_reqs := b_reqs b ++ b_reqs other; b_req_pool_indices := b_req_pool_indices b ++ b_req_pool_indices other;
        b_seq_lens := b_seq_lens b ++ b_seq_lens other; b_orig_seq_lens := b_orig_seq_lens b ++ b_orig_seq_lens other;
        b_seq_lens_sum := b_seq_lens_sum b + b_seq_lens_sum other; b_output_ids := outs; b_out_cache_loc := None;
        b_return_logprob := b_return_logprob b || b_return_logprob other |}.

Section memory.
Context (monotonic : nat -> Z) (get_hash_str : list tok -> option string -> string) (is_chunk_cache : bool).
Context {A : Type} `{KVAllocator A} (page_size retract_decode_steps : Z).

(** ** Memory of the next decode step *)

Definition new_tokens_required_next_decode (b : DecodeBatch) (selected : option (list Z)) : result Z :=
  let! rs := match selected with None => Ok (b_reqs b) | Some s => gather (b_reqs b) s end in
  Ok (count (fun r => kv_committed_len (kv r) mod page_size =? 0) rs * page_size).

Definition check_decode_mem (m : Mem A) (b : DecodeBatch) (selected : option (list Z)) : result (bool * Mem A) :=
  let! num_tokens := new_tokens_required_next_decode b selected in
  let! m1 := evict_from_tree_cache get_hash_str is_chunk_cache m num_tokens in
  Ok (num_tokens <=? kv_decode_available (allocator m1), m1).

(** ** Retraction *)

Definition release_req (m : Mem A) (b : DecodeBatch) (idx remaining : Z) : result (Mem A * DecodeBatch) :=
  let! r := py_get (b_reqs b) idx in
  let! (m1, r1) := release_kv_cache monotonic get_hash_str false page_size m r false in
  let! m2 := evict_from_tree_cache get_hash_str is_chunk_cache m1 (remaining * retract_decode_steps) in
  Ok (m2, with_reqs b (<[Z.to_nat idx := reset_for_retract r1]> (b_reqs b))).

Fixpoint release_all (idxs : list Z) (m : Mem A) (b : DecodeBatch) : result (Mem A * DecodeBatch) :=
  match idxs with
  | [] => Ok (m, b)
  | i :: rest => let! (m1, b1) := release_req m b i (zlen (b_reqs b) - i) in release_all rest m1 b1
  end.

(** Returns the retracted requests and the emptied batch. *)
Definition retract_all (m : Mem A) (b : DecodeBatch) : result (list Req * Mem A * DecodeBatch) :=
  let! (m1, b1) := release_all (seqZ 0 (zlen (b_reqs b))) m b in
  let! b2 := filter_batch b1 (map (fun r => rid (info r)) (b_reqs b1)) None in
  Ok (b_reqs b1, m1, b2).

(** Longest output first, then shortest input: the last one is retracted first. *)
Definition retract_order (b : DecodeBatch) : result (list Z) :=
  sort_key (fun x y => lex_lt y x)
    (fun i => let! r := py_get (b_reqs b) i in Ok [zlen (output_ids r); - zlen (origin_input_ids r)])
    (seqZ 0 (zlen (b_reqs b))).

(** [fuel]: one per request and one for the empty batch, whose [pop] raises; [first] is [first_iter]. *)
Fixpoint retract_loop (fuel : nat) (first : bool) (m : Mem A) (b : DecodeBatch) (sorted retracted : list Z)
  : result (Mem A * DecodeBatch * list Z * list Z) :=
  let! (go, m1) := if first then Ok (true, m)
                   else let! (ok, m1) := check_decode_mem m b (Some sorted) in Ok (negb ok, m1) in
  if negb go then Ok (m1, b, sorted, retracted)
  else if zlen sorted =? 1 then Ok (m1, b, sorted, retracted)
  else
    match fuel with
    | O => Err RecursionError
    | S f =>
        let! idx := py_get sorted (-1) in
        let rest := removelast sorted in
        let! (m2, b1) := release_req m1 b idx (zlen rest) in
        retract_loop f false m2 b1 rest (retracted ++ [idx])
    end.

Definition set_to_finish (r : Req) (f : FinishReason) : Req :=
  set_fin r {| finished_reason := finished_reason (fin r); finished_len := finished_len (fin r); to_finish := Some f |}.

Definition abort_message : string :=
  "Out of memory even after retracting all other requests in the decode batch. Aborting the last request.".

Definition new_estimate_ratio (rs : list Req) : f64 :=
  let decoded := zsum (map (fun r => zlen (output_ids r)) rs) in
  let limit := zsum (map (fun r => max_new_tokens (sampling_params (info r))) rs) in
  let ratio := f64_ratio (decoded + retract_decode_steps * zlen rs) (limit + 1) in
  if SFltb ratio f64_one then ratio else f64_one.

(** The retracted and the aborted requests, the new ratio, memory and batch. *)
Definition retract_decode (m : Mem A) (b : DecodeBatch)
  : result (list Req * f64 * list Req * Mem A * DecodeBatch) :=
  let! sorted := retract_order b in
  let! (m1, b1, sorted, retracted) := retract_loop (S (length sorted)) true m b sorted [] in
  let! (m2, b2, sorted, aborted) :=
    if zlen sorted <=? 1 then
      let! (ok, m2) := check_decode_mem m1 b1 (Some sorted) in
      if negb ok then
        let! idx := py_get sorted (-1) in
        let! r := py_get (b_reqs b1) idx in
        let b2 := with_reqs b1 (<[Z.to_nat idx := set_to_finish r (FINISH_ABORT abort_message)]> (b_reqs b1)) in
        let! (m3, b3) := release_req m2 b2 idx 0 in
        Ok (m3, b3, removelast sorted, [idx])
      else Ok (m2, b1, sorted, [])
    else Ok (m1, b1, sorted, []) in
  let! b3 := filter_batch b2 [] (Some sorted) in
  let! retracted_reqs := gather (b_reqs b2) retracted in
  let! reqs_to_abort := gather (b_reqs b2) aborted in
  Ok (retracted_reqs, new_estimate_ratio (b_reqs b3), reqs_to_abort, m2, b3).
End memory.
