(* ===== verification/PrefillAdder.v ===== *)
(** * Admission of prefill requests

    Class [PrefillAdder] of [srt/managers/schedule_policy.py] over the radix
    cache, without diffusion models and hybrid pools.  The budget that is scaled
    by [new_token_ratio] is a Python number: an integer until a running request
    contributes a float.  Requests are identified by their id. *)

From S2P Require Import Prelude Tensors Floats RadixKeys RadixCache Request ReqPool KVAllocator ReqCache MemCommon SchedulePolicy DecodeBatch.

Definition CLIP_MAX_NEW_TOKENS : Z := 4096.
Definition IGNORE_EOS_RESERVE_TOKENS : Z := 1.

Inductive AddReqResult := CONTINUE | NO_TOKEN | OTHER.

(** Limits fixed for a scheduling pass; [single_prefill]: context parallelism
    allows one request per batch. *)
Record AdderConfig := {
  page_size : Z;
  new_token_ratio : f64;
  priority_scheduling_preemption_threshold : Z;
  prefill_max_requests : option Z;
  single_prefill : bool
}.

Record PrefillAdder (A : Type) := {
  config : AdderConfig;
  mem : Mem A;
  running_batch : option DecodeBatch;
  rem_input_tokens : Z;
  rem_chunk_tokens : option Z;
  rem_total_token_offset : num;
  cur_rem_token_offset : Z;
  req_states : option (list (num * Z));
  can_run_list : list Req;
  preempt_list : list Req;
  new_chunked_req : option Req;
  log_hit_tokens : Z;
  log_input_tokens : Z
}.
Arguments config {A}. Arguments mem {A}. Arguments running_batch {A}. Arguments rem_input_tokens {A}.
Arguments rem_chunk_tokens {A}. Arguments rem_total_token_offset {A}. Arguments cur_rem_token_offset {A}.
Arguments req_states {A}. Arguments can_run_list {A}. Arguments preempt_list {A}. Arguments new_chunked_req {A}.
Arguments log_hit_tokens {A}. Arguments log_input_tokens {A}.

Section adder.
Context (monotonic : nat -> Z) (get_hash_str : list tok -> option string -> string) (is_chunk_cache : bool) (retract_decode_steps : Z).
Context {A : Type} `{KVAllocator A}.

Definition set_mem (a : PrefillAdder A) (m : Mem A) : PrefillAdder A :=
  {| config := config a; mem := m; running_batch := running_batch a; rem_input_tokens := rem_input_tokens a;
     rem_chunk_tokens := rem_chunk_tokens a; rem_total_token_offset := rem_total_token_offset a;
     cur_rem_token_offset := cur_rem_token_offset a; req_states := req_states a; can_run_list := can_run_list a;
     preempt_list := preempt_list a; new_chunked_req := new_chunked_req a; log_hit_tokens := log_hit_tokens a;
     log_input_tokens := log_input_tokens a |}.

Definition set_req_states (a : PrefillAdder A) (s : list (num * Z)) : PrefillAdder A :=
  {| config := config a; mem := mem a; running_batch := running_batch a; rem_input_tokens := rem_input_tokens a;
     rem_chunk_tokens := rem_chunk_tokens a; rem_total_token_offset := rem_total_token_offset a;
     cur_rem_token_offset := cur_rem_token_offset a; req_states := Some s; can_run_list := can_run_list a;
     preempt_list := preempt_list a; new_chunked_req := new_chunked_req a; log_hit_tokens := log_hit_tokens a;
     log_input_tokens := log_input_tokens a |}.

(** [can_run_list.append(req)], and [new_chunked_req = req] when [chunked]. *)
Definition push_req (a : PrefillAdder A) (r : Req) (chunked : bool) : PrefillAdder A :=
  {| config := config a; mem := mem a; running_batch := running_batch a; rem_input_tokens := rem_input_tokens a;
     rem_chunk_tokens := rem_chunk_tokens a; rem_total_token_offset := rem_total_token_offset a;
     cur_rem_token_offset := cur_rem_token_offset a; req_states := req_states a; can_run_list := can_run_list a ++ [r];
     preempt_list := preempt_list a; new_chunked_req := if chunked then Some r else new_chunked_req a;
     log_hit_tokens := log_hit_tokens a; log_input_tokens := log_input_tokens a |}.

(** ** Budgets *)

Definition get_running_request_total_token_offset (ratio : f64) (r : Req) : num :=
  num_mul (NInt (Z.min (max_new_tokens (sampling_params (info r)) - zlen (output_ids r)) CLIP_MAX_NEW_TOKENS)) (NFloat ratio).

Definition adder_init (c : AdderConfig) (m : Mem A) (running : option DecodeBatch) (rem_input : Z) (rem_chunk : option Z)
    (mixed_with_decode_tokens : Z) : PrefillAdder A :=
  {| config := c; mem := m; running_batch := running; rem_input_tokens := rem_input - mixed_with_decode_tokens;
     rem_chunk_tokens := (fun x => x - mixed_with_decode_tokens) <$> rem_chunk;
     rem_total_token_offset :=
       match running with
       | Some b => num_add (NInt mixed_with_decode_tokens)
                     (num_sum (map (get_running_request_total_token_offset (new_token_ratio c)) (b_reqs b)))
       | None => NInt mixed_with_decode_tokens
       end;
     cur_rem_token_offset := mixed_with_decode_tokens; req_states := None; can_run_list := []; preempt_list := [];
     new_chunked_req := None; log_hit_tokens := 0; log_input_tokens := 0 |}.

Definition available_and_evictable (a : PrefillAdder A) : result Z :=
  let! n := kv_admission (allocator (mem a)) in Ok (n + evictable_size (tree_cache (mem a))).

Definition rem_total_tokens (a : PrefillAdder A) : result num :=
  let! n := available_and_evictable a in Ok (num_sub (NInt n) (rem_total_token_offset a)).

Definition cur_rem_tokens (a : PrefillAdder A) : result Z :=
  let! n := available_and_evictable a in Ok (n - cur_rem_token_offset a).

Definition ceil_paged_tokens (a : PrefillAdder A) (tokens : Z) : Z :=
  - (- tokens / page_size (config a)) * page_size (config a).

Definition budget_state (a : PrefillAdder A) : result AddReqResult :=
  let! total := rem_total_tokens a in
  let! cur := cur_rem_tokens a in
  if num_leb total (NInt 0) || (cur <=? 0) then Ok NO_TOKEN
  else if rem_input_tokens a <=? 0 then Ok OTHER
  else match rem_chunk_tokens a with
       | Some c => Ok (if c <=? 0 then OTHER else CONTINUE)
       | None => Ok CONTINUE
       end.

Definition update_prefill_budget (a : PrefillAdder A) (prefix_len extend_input_len max_new : Z) : PrefillAdder A :=
  let ext := ceil_paged_tokens a extend_input_len in
  let page_overhead := page_size (config a) in
  {| config := config a; mem := mem a; running_batch := running_batch a; rem_input_tokens := rem_input_tokens a - ext;
     rem_chunk_tokens := (fun c => c - ext) <$> rem_chunk_tokens a;
     rem_total_token_offset := num_add (rem_total_token_offset a) (NInt (ext + max_new + page_overhead));
     cur_rem_token_offset := cur_rem_token_offset a + (ext + page_overhead); req_states := req_states a;
     can_run_list := can_run_list a; preempt_list := preempt_list a; new_chunked_req := new_chunked_req a;
     log_hit_tokens := log_hit_tokens a + prefix_len; log_input_tokens := log_input_tokens a + ext |}.

(** ** Locks *)

Definition inc_lock (a : PrefillAdder A) (n : option nat) : result (PrefillAdder A) :=
  let st := tree_cache (mem a) in
  if disable st then Ok a
  else match n with
       | Some n => let! (_, t) := inc_lock_ref st n in Ok (set_mem a (with_tree (mem a) t))
       | None => Err AttributeError
       end.

Definition dec_lock (a : PrefillAdder A) (n : option nat) : result (PrefillAdder A) :=
  let st := tree_cache (mem a) in
  if disable st then Ok a
  else match n with
       | Some n => let! (_, t) := dec_lock_ref st n in Ok (set_mem a (with_tree (mem a) t))
       | None => Err AttributeError
       end.

(** ** Chunked requests *)

Definition clipped (r : Req) : Z := Z.min (max_new_tokens (sampling_params (info r))) CLIP_MAX_NEW_TOKENS.

(** Truncate the tokens of the next prefill after [n] positions. *)
Definition truncate_fill (r : Req) (n : Z) : Req := set_pre r (set_fill_ids (pre r) (slice_to (fill_ids (pre r)) n)).

(** Returns the request as added and whether its prefill is not finished. *)
Definition add_chunked_req (a : PrefillAdder A) (r : Req) : result (bool * Req * PrefillAdder A) :=
  match rem_chunk_tokens a with
  | None => Err TypeError
  | Some c =>
      let! total := rem_total_tokens a in
      let! t := num_int total in
      let rem := Z.min c t in
      let rem := if rem <=? 0 then c else rem in
      let truncated := rem <? extend_input_len (pre r) in
      let r1 := set_extend_input_len r (Z.min (extend_input_len (pre r)) rem) in
      let r2 := truncate_fill r1 (zlen (prefix_indices (pre r1)) + extend_input_len (pre r1)) in
      let a1 := push_req a r2 false in
      Ok (truncated, r2, update_prefill_budget a1 0 (extend_input_len (pre r2)) (if truncated then 0 else clipped r))
  end.

(** ** Requests that ignore the end of sequence, without a prefix cache *)

Definition req_state (a : PrefillAdder A) (r : Req) : option (num * Z) :=
  let ratio := if ignore_eos (sampling_params (info r)) then NFloat f64_one else NFloat (new_token_ratio (config a)) in
  let tokens_left := num_sub (num_mul (NInt (max_new_tokens (sampling_params (info r)))) ratio) (NInt (zlen (output_ids r))) in
  if num_leb tokens_left (NInt 0) then None
  else Some (tokens_left, zlen (origin_input_ids r) + zlen (output_ids r)).

(** The position the loop [for i in range(len(states))] stops at: the first state
    that is not smaller, else the last index. *)
Fixpoint insert_position (tokens_left : num) (states : list (num * Z)) : nat :=
  match states with
  | [] => 0
  | s :: rest => if num_leb tokens_left (fst s) then 0
                 else match rest with [] => 0 | _ => S (insert_position tokens_left rest) end
  end%nat.

(** [l.insert(i, x)] *)
Definition list_insert {B} (l : list B) (i : nat) (x : B) : list B := take i l ++ x :: drop i l.

Definition insert_req_state (states : list (num * Z)) (s : option (num * Z)) : list (num * Z) :=
  match s with
  | None => states
  | Some s => list_insert states (insert_position (fst s) states) s
  end.

Definition all_req_states (a : PrefillAdder A) (r : Req) : list (num * Z) :=
  omap (req_state a) ([r] ++ match running_batch a with Some b => b_reqs b | None => [] end ++ can_run_list a).

(** Enough memory at every future finish of a request? *)
Fixpoint states_fit (cur : Z) (freed : Z) (states : list (num * Z)) : bool :=
  match states with
  | [] => true
  | (tokens_left, occupied) :: rest =>
      let bs := zlen states in
      if num_leb (num_sub (NInt (cur + freed)) (num_mul tokens_left (NInt bs))) (NInt (IGNORE_EOS_RESERVE_TOKENS * bs)) then false
      else states_fit cur (freed + occupied) rest
  end.

Definition add_one_req_ignore_eos (a : PrefillAdder A) (r : Req) : result (AddReqResult * Req * PrefillAdder A) :=
  let! cur := cur_rem_tokens a in
  let! total := rem_total_tokens a in
  let need := ceil_paged_tokens a (extend_input_len (pre r)) in
  if num_ltb (num_min (NInt cur) total) (NInt need) then Ok (NO_TOKEN, r, a)
  else
    let states := match req_states a with
                  | None => map snd (py_sort num_ltb (map (fun s => (fst s, s)) (all_req_states a r)))
                  | Some states => insert_req_state states (req_state a r)
                  end in
    let a1 := set_req_states a states in
    if negb (states_fit (cur - need) 0 states) then Ok (NO_TOKEN, r, a1)
    else
      match rem_chunk_tokens a1 with
      | Some c =>
          if extend_input_len (pre r) <=? c then
            let a2 := update_prefill_budget (push_req a1 r false) 0 (extend_input_len (pre r)) (clipped r) in
            let! s := budget_state a2 in Ok (s, r, a2)
          else if c <=? 0 then Ok (OTHER, r, a1)
          else
            let r1 := truncate_fill (set_extend_input_len r c) c in
            let a2 := update_prefill_budget (push_req a1 r1 true) 0 c 0 in
            let! s := budget_state a2 in Ok (s, r1, a2)
      | None =>
          let a2 := update_prefill_budget (push_req a1 r false) 0 (extend_input_len (pre r)) (clipped r) in
          let! s := budget_state a2 in Ok (s, r, a2)
      end.

(** ** One request *)

(** What happens while the request's node is locked. *)
Definition add_locked (a : PrefillAdder A) (r : Req) (total_tokens : Z) (truncation_align_size : option Z)
  : result (option AddReqResult * Req * PrefillAdder A) :=
  let! total := rem_total_tokens a in
  if num_leb total (NInt total_tokens) then Ok (Some NO_TOKEN, r, a)
  else if 0 <? host_hit_length (pre r) then Err NotImplementedError  (* init_load_back *)
  else
    let prefix_len := zlen (prefix_indices (pre r)) in
    let input_tokens := ceil_paged_tokens a (extend_input_len (pre r)) in
    if (rem_input_tokens a <=? input_tokens) && negb (zlen (can_run_list a) =? 0) then Ok (Some OTHER, r, a)
    else
      let whole (_ : unit) :=
        let! a1 := inc_lock (push_req a r false) (last_node (pre r)) in
        Ok (None, r, update_prefill_budget a1 prefix_len input_tokens (clipped r)) in
      match rem_chunk_tokens a with
      | None => whole tt
      | Some c =>
          if input_tokens <=? c then whole tt
          else
            let trunc_len := c / page_size (config a) * page_size (config a) in
            if trunc_len <=? 0 then Ok (Some OTHER, r, a)
            else
              match truncation_align_size with
              | Some al =>
                  if trunc_len <? al then Ok (Some OTHER, r, a)
                  else
                    let trunc_len := al * (trunc_len / al) in
                    let r1 := truncate_fill (set_extend_input_len r trunc_len) (zlen (prefix_indices (pre r)) + trunc_len) in
                    let! a1 := inc_lock (push_req a r1 true) (last_node (pre r1)) in
                    Ok (None, r1, update_prefill_budget a1 prefix_len trunc_len 0)
              | None =>
                  let r1 := truncate_fill (set_extend_input_len r trunc_len) (zlen (prefix_indices (pre r)) + trunc_len) in
                  let! a1 := inc_lock (push_req a r1 true) (last_node (pre r1)) in
                  Ok (None, r1, update_prefill_budget a1 prefix_len trunc_len 0)
              end
      end.

(** [allow_prefill]: the answer of the prefill delayer, true without one. *)
Definition add_one_req (allow_prefill : bool) (a : PrefillAdder A) (r : Req) (truncation_align_size : option Z)
  : result (AddReqResult * Req * PrefillAdder A) :=
  if negb allow_prefill then Ok (OTHER, r, a)
  else if single_prefill (config a) && (1 <=? zlen (can_run_list a)) then Ok (OTHER, r, a)
  else if match prefill_max_requests (config a) with Some x => x <=? zlen (can_run_list a) | None => false end
  then Ok (OTHER, r, a)
  else if ignore_eos (sampling_params (info r)) && disable (tree_cache (mem a)) then add_one_req_ignore_eos a r
  else
    let total_tokens := extend_input_len (pre r) +
      Z.min (Z.max (max_new_tokens (sampling_params (info r)) - zlen (output_ids r)) 0) CLIP_MAX_NEW_TOKENS in
    let real_input_tokens := ceil_paged_tokens a (extend_input_len (pre r) - host_hit_length (pre r)) in
    let! total := rem_total_tokens a in
    if num_leb total (NInt total_tokens) then Ok (NO_TOKEN, r, a)
    else if (rem_input_tokens a <=? real_input_tokens) && negb (zlen (can_run_list a) =? 0) then Ok (OTHER, r, a)
    else
      let node := last_node (pre r) in
      let! a1 := inc_lock a node in
      let! (early, r1, a2) := add_locked a1 r total_tokens truncation_align_size in
      let! a3 := dec_lock a2 node in
      match early with
      | Some res => Ok (res, r1, a3)
      | None => let! s := budget_state a3 in Ok (s, r1, a3)
      end.

(** ** Preemption *)

Definition is_req (r q : Req) : bool := String.eqb (rid (info r)) (rid (info q)).

(** The requests to preempt, in order, and the tokens still missing. *)
Fixpoint choose_preempted (ratio : f64) (threshold sign p : Z) (missing : num) (rs : list Req) : result (list Req * num) :=
  match rs with
  | [] => Ok ([], missing)
  | r :: rest =>
      let! q := priority_of r in
      if threshold <? (p - q) * - sign then
        let missing := num_sub missing (get_running_request_total_token_offset ratio r) in
        if num_leb missing (NInt 0) then Ok ([r], missing)
        else let! (l, missing) := choose_preempted ratio threshold sign p missing rest in Ok (r :: l, missing)
      else Ok ([], missing)
  end.

(** Release the chosen requests, position by position; [i] is the current one. *)
Fixpoint release_chosen (a : PrefillAdder A) (b : DecodeBatch) (chosen : list Req) (i released : Z) (rs : list Req)
  : result (PrefillAdder A * DecodeBatch * list Z) :=
  match rs with
  | [] => Ok (a, b, [])
  | r :: rest =>
      if existsb (is_req r) chosen then
        let off := num_sub (rem_total_token_offset a) (get_running_request_total_token_offset (new_token_ratio (config a)) r) in
        let! (m, b1) := release_req monotonic get_hash_str is_chunk_cache (page_size (config a)) retract_decode_steps
                          (mem a) b i (zlen (b_reqs b) - (released + 1)) in
        let a1 := {| config := config a; mem := m; running_batch := running_batch a; rem_input_tokens := rem_input_tokens a;
                     rem_chunk_tokens := rem_chunk_tokens a; rem_total_token_offset := off;
                     cur_rem_token_offset := cur_rem_token_offset a; req_states := req_states a;
                     can_run_list := can_run_list a; preempt_list := preempt_list a; new_chunked_req := new_chunked_req a;
                     log_hit_tokens := log_hit_tokens a; log_input_tokens := log_input_tokens a |} in
        release_chosen a1 b1 chosen (i + 1) (released + 1) rest
      else
        let! (a1, b1, keep) := release_chosen a b chosen (i + 1) released rest in Ok (a1, b1, i :: keep)
  end.

Definition set_running (a : PrefillAdder A) (b : DecodeBatch) (preempted : list Req) : PrefillAdder A :=
  {| config := config a; mem := mem a; running_batch := Some b; rem_input_tokens := rem_input_tokens a;
     rem_chunk_tokens := rem_chunk_tokens a; rem_total_token_offset := rem_total_token_offset a;
     cur_rem_token_offset := cur_rem_token_offset a; req_states := req_states a; can_run_list := can_run_list a;
     preempt_list := preempt_list a ++ preempted; new_chunked_req := new_chunked_req a;
     log_hit_tokens := log_hit_tokens a; log_input_tokens := log_input_tokens a |}.

Definition preempt_to_schedule (low_first : bool) (a : PrefillAdder A) (r : Req) : result (bool * PrefillAdder A) :=
  match running_batch a with
  | None => Err AttributeError
  | Some b =>
      let sign := if low_first then 1 else -1 in
      let valid := List.filter (fun q => negb (existsb (is_req q) (preempt_list a)) && negb (finished q)) (b_reqs b) in
      let! sorted := sort_key lex_lt (fun q => let! p := priority_of q in Ok [p * - sign; - wait_queue_entry_time (info q)]) valid in
      let! total := rem_total_tokens a in
      let missing := num_sub (NInt (extend_input_len (pre r) + clipped r)) total in
      let! p := match sorted with [] => Ok 0 | _ => priority_of r end in
      let! (chosen, missing) := choose_preempted (new_token_ratio (config a)) (priority_scheduling_preemption_threshold (config a)) sign p missing sorted in
      if (zlen chosen =? 0) || num_ltb (NInt 0) missing then Ok (false, a)
      else
        let! (a1, b1, keep) := release_chosen a b chosen 0 0 (b_reqs b) in
        let preempted := List.filter (fun q => existsb (is_req q) chosen) (b_reqs b1) in
        let! b2 := filter_batch b1 [] (Some keep) in
        Ok (true, set_running a1 b2 preempted)
  end.
End adder.
