(* ===== verification/PrefillAdderProps.v ===== *)
(** * The budgets of the adder cover what it admits

    The budgets of [PrefillAdder] against the free and evictable memory of the
    token allocator, while no request is running. *)

From S2P Require Import Prelude Tensors Floats BaseAllocator TokenAllocator RadixKeys RadixCache RadixTheory RadixSplit RadixWalk RadixLocks RadixFacts RadixProps Request ReqPool KVAllocator ReqCache ReqCacheProps MemCommon TokenMemProps SchedulePolicy DecodeBatch PrefillAdder.

(** ** Lock and unlock *)

Lemma inc_dec_same mono gh st H n ks vs : rreach mono gh st H -> reach st (root_node st) n ks vs ->
  exists d1 st1 d2 st2, inc_lock_ref st n = Ok (d1, st1) /\ dec_lock_ref st1 n = Ok (d2, st2) /\
    rreach mono gh st1 (n :: H) /\ rreach mono gh st2 H /\ evictable_size st2 = evictable_size st /\
    held_slots st1 ≡ₚ held_slots st /\ held_slots st2 ≡ₚ held_slots st /\
    (forall m ks vs, reach st (root_node st) m ks vs -> reach st1 (root_node st1) m ks vs) /\
    (forall m ks vs, reach st (root_node st) m ks vs -> reach st2 (root_node st2) m ks vs).
Proof.
  intros Hr Hre. destruct (rreach_inv _ _ _ _ Hr) as (Hc & L & pl & Hi).
  pose proof (reach_live _ _ _ _ _ _ _ (ri_tree _ _ _ _ Hi) (tr_root _ _ _ (ri_tree _ _ _ _ Hi)) Hre) as Hn.
  destruct (inc_lock_ref_spec st L pl H n Hi Hn (proj1 Hc)) as (P & st1 & HP & E1 & Hi1 & Hl1 & _).
  assert (Hd1 : disable st1 = false) by (rewrite (rl_disable _ _ _ _ Hl1); apply Hc).
  destruct (dec_lock_ref_spec st1 L pl H n Hi1 Hd1) as (P' & st2 & HP' & E2 & Hi2 & Hl2 & _).
  assert (P' = P) as -> by exact (path_fun _ _ _ _ (relocked_path _ _ _ _ _ _ Hl1 HP') HP).
  pose proof (relocked_undo _ _ _ _ Hl1 Hl2) as En.
  pose proof (rreach_inc _ _ _ _ _ _ _ _ _ Hr Hre E1) as Hr1. pose proof (rreach_dec _ _ _ _ _ _ _ Hr1 E2) as Hr2.
  assert (Hreach1 : forall m ks vs, reach st (root_node st) m ks vs -> reach st1 (root_node st1) m ks vs).
  { intros m ks' vs' Hm. rewrite (rl_root _ _ _ _ Hl1). exact (proj1 (relocked_reach _ _ _ _ _ _ _ _ Hl1) Hm). }
  eexists _, st1, _, st2. split_and!; try done.
  - unfold evictable_size. rewrite (ac_evictable _ _ (ri_acct _ _ _ _ Hi2)), (ac_evictable _ _ (ri_acct _ _ _ _ Hi)).
    unfold node_sum. by rewrite En.
  - rewrite (held_slots_perm _ _ _ (ri_tree _ _ _ _ Hi1)), (held_slots_perm _ _ _ (ri_tree _ _ _ _ Hi)).
    by rewrite (relocked_slots _ _ _ _ _ Hl1).
  - rewrite (held_slots_perm _ _ _ (ri_tree _ _ _ _ Hi2)), (held_slots_perm _ _ _ (ri_tree _ _ _ _ Hi)).
    by rewrite (relocked_slots _ _ _ _ _ Hl2), (relocked_slots _ _ _ _ _ Hl1).
  - intros m ks' vs' Hm. rewrite (rl_root _ _ _ _ Hl2). exact (proj1 (relocked_reach _ _ _ _ _ _ _ _ Hl2) (Hreach1 _ _ _ Hm)).
Qed.

(** ** Page arithmetic *)

Lemma ceil_paged_ge {A} `{KVAllocator A} (a : PrefillAdder A) x : 1 <= page_size (config a) -> x <= ceil_paged_tokens a x.
Proof. intros Hp. unfold ceil_paged_tokens. pose proof (Z.mul_div_le (- x) (page_size (config a)) ltac:(lia)). lia. Qed.

(** A chunk cut to whole pages below the rounded length is below the length. *)
Lemma trunc_le x c p : 1 <= p -> c < - (- x / p) * p -> c / p * p <= x.
Proof.
  intros Hp Hc. pose proof (Z.mul_succ_div_gt (- x) p ltac:(lia)) as H1. pose proof (Z.mul_div_le c p ltac:(lia)) as H2.
  assert (c / p < - (- x / p)) by nia. nia.
Qed.

(** ** Outcomes under the lock *)

(** The tokens of the next prefill are those after the prefix. *)
Definition filled (r : Req) : Prop := zlen (fill_ids (pre r)) - zlen (prefix_indices (pre r)) = extend_input_len (pre r).

Lemma filled_truncate r n : filled r -> 0 <= n <= extend_input_len (pre r) ->
  filled (truncate_fill (set_extend_input_len r n) (zlen (prefix_indices (pre r)) + n)).
Proof.
  unfold filled. simpl. intros Hf Hn. pose proof (zlen_nonneg (prefix_indices (pre r))). rewrite slice_to_take by lia.
  unfold zlen in *. rewrite length_take. lia.
Qed.

Section fits.
Context (mono : nat -> Z) (gh : list tok -> option string -> string).

Lemma add_locked_cases {A} `{KVAllocator A} (a : PrefillAdder A) r n o total align :
  1 <= page_size (config a) -> 0 <= extend_input_len (pre r) -> filled r -> host_hit_length (pre r) = 0 ->
  0 <= max_new_tokens (sampling_params (info r)) -> match align with Some al => 1 <= al | None => True end ->
  available_and_evictable a = Ok n -> rem_total_token_offset a = NInt o ->
  (exists res, add_locked a r total align = Ok (Some res, r, a)) \/
  exists r' flag len upd mx, total < n - o /\ 0 <= extend_input_len (pre r') <= extend_input_len (pre r) /\ filled r' /\
    extend_input_len (pre r') <= upd /\ 0 <= mx /\
    add_locked a r total align =
      (let! a1 := inc_lock (push_req a r' flag) (last_node (pre r)) in Ok (None, r', update_prefill_budget a1 len upd mx)).
Proof.
  intros Hp Hext Hfill Hh Hmax Hal En Eo. unfold add_locked, rem_total_tokens. rewrite En. cbn [rbind]. rewrite Eo. simpl num_sub.
  rewrite num_leb_int. destruct (Z.leb_spec (n - o) total) as [|Hlt]; [left; by eexists|]. rewrite Hh. simpl.
  set (ext := extend_input_len (pre r)) in *. pose proof (ceil_paged_ge a ext Hp) as Hge.
  destruct (_ && _); [left; by eexists|].
  assert (Hclip : 0 <= clipped r) by (unfold clipped, CLIP_MAX_NEW_TOKENS; lia).
  destruct (rem_chunk_tokens a) as [c|].
  2: { right. eexists r, false, _, _, _. split_and!; try done; lia. }
  destruct (Z.leb_spec (ceil_paged_tokens a ext) c) as [|Hc].
  { right. eexists r, false, _, _, _. split_and!; try done; lia. }
  set (t := c / page_size (config a) * page_size (config a)) in *.
  assert (Ht : t <= ext) by (apply trunc_le; [done|exact Hc]).
  destruct (Z.leb_spec t 0); [left; by eexists|]. destruct align as [al|].
  - destruct (Z.ltb_spec t al); [left; by eexists|]. right.
    assert (0 <= al * (t / al) <= t) by (split; [apply Z.mul_nonneg_nonneg; [lia|apply Z.div_pos; lia]|apply Z.mul_div_le; lia]).
    eexists (truncate_fill (set_extend_input_len r (al * (t / al))) _), true, _, (al * (t / al)), 0.
    split_and!; try reflexivity; try (apply filled_truncate; [done|]); simpl; lia.
  - right. eexists (truncate_fill (set_extend_input_len r t) _), true, _, t, 0.
    split_and!; try reflexivity; try (apply filled_truncate; [done|]); simpl; lia.
Qed.

(** Tokens the admitted requests will need. *)
Definition extend_total (rs : list Req) : Z := zsum (map (fun r => extend_input_len (pre r)) rs).

Lemma extend_total_snoc rs r : extend_total (rs ++ [r]) = extend_total rs + extend_input_len (pre r).
Proof. unfold extend_total. rewrite map_app, zsum_app. unfold zsum at 2. simpl. lia. Qed.

Definition room (m : Mem BaseAllocator) : Z := TokenAllocator.available_size (allocator m) + evictable_size (tree_cache m).

(** A request of the waiting queue whose prefix was just matched in the tree of [m]. *)
Record queued (m : Mem BaseAllocator) (r : Req) : Prop := {
  qd_ext : 0 <= extend_input_len (pre r);
  qd_fill : filled r;
  qd_max : 0 <= max_new_tokens (sampling_params (info r));
  qd_host : host_hit_length (pre r) = 0;
  qd_node : exists n ks vs, last_node (pre r) = Some n /\ reach (tree_cache m) (root_node (tree_cache m)) n ks vs
}.

(** What holds between two calls: the integer budget covers the admitted
    requests, and they fit into free and evictable memory. *)
Record admitting (al : BaseAllocator) (H : list nat) (others : list Z) (a : PrefillAdder BaseAllocator) : Prop := {
  ad_alloc : allocator (mem a) = al;
  ad_mem : exists Hs, mem_ok mono gh (mem a) (Hs ++ H) others;
  ad_off : exists o, rem_total_token_offset a = NInt o /\ cur_rem_token_offset a <= o;
  ad_sum : extend_total (can_run_list a) <= cur_rem_token_offset a;
  ad_fit : extend_total (can_run_list a) <= room (mem a);
  ad_page : 1 <= page_size (config a);
  ad_nonneg : 0 <= extend_total (can_run_list a);
  ad_fill : Forall (fun r => filled r /\ 0 <= extend_input_len (pre r)) (can_run_list a)
}.

(** Locking and unlocking the node of a request. *)
Lemma lock_pair {A} {KV : KVAllocator A} {KL : KVAllocatorLaws A} (a : PrefillAdder A) H others n ks vs :
  mem_ok mono gh (mem a) H others -> reach (tree_cache (mem a)) (root_node (tree_cache (mem a))) n ks vs ->
  exists t1 t2, inc_lock a (Some n) = Ok (set_mem a (with_tree (mem a) t1)) /\
    (forall b : PrefillAdder A, tree_cache (mem b) = t1 -> dec_lock b (Some n) = Ok (set_mem b (with_tree (mem b) t2))) /\
    mem_ok mono gh (with_tree (mem a) t1) (n :: H) others /\ mem_ok mono gh (with_tree (mem a) t2) H others /\
    evictable_size t2 = evictable_size (tree_cache (mem a)) /\
    (forall m ks vs, reach (tree_cache (mem a)) (root_node (tree_cache (mem a))) m ks vs -> reach t1 (root_node t1) m ks vs) /\
    (forall m ks vs, reach (tree_cache (mem a)) (root_node (tree_cache (mem a))) m ks vs -> reach t2 (root_node t2) m ks vs).
Proof.
  intros [Hr Hk] Hre. destruct (inc_dec_same mono gh _ H n ks vs Hr Hre) as (d1 & t1 & d2 & t2 & E1 & E2 & Hr1 & Hr2 & Hev & S1 & S2 & K1 & K2).
  exists t1, t2. pose proof (proj1 (proj1 (rreach_inv _ _ _ _ Hr))) as Hd. pose proof (proj1 (proj1 (rreach_inv _ _ _ _ Hr1))) as Hd1.
  split_and!; try done.
  - unfold inc_lock. by rewrite Hd, E1.
  - intros b Hb. unfold dec_lock. rewrite Hb, Hd1, E2. done.
  - split; [done|]. eapply kv_inv_perm; [|exact Hk]. simpl. by rewrite S1.
  - split; [done|]. eapply kv_inv_perm; [|exact Hk]. simpl. by rewrite S2.
Qed.

Lemma room_nonneg m H others : mem_ok mono gh m H others -> 0 <= room m.
Proof.
  intros Hm. unfold room, TokenAllocator.available_size. pose proof (evictable_nonneg _ _ _ _ (proj1 Hm)).
  pose proof (zlen_nonneg (free_pages (allocator m))). pose proof (zlen_nonneg (release_pages (allocator m))). lia.
Qed.

Lemma add_one_req_admits al H others allow a r align :
  admitting al H others a -> queued (mem a) r -> match align with Some x => 1 <= x | None => True end ->
  exists res r' a', add_one_req allow a r align = Ok (res, r', a') /\ admitting al H others a'.
Proof.
  intros Ha [Q1 Qf Q2 Q3 (n & ks & vs & En & Hre)] Hal. pose proof Ha as [A1 (Hs & A2) (o & Eo & A4) A5 A6 A7 A8 A9].
  pose proof (proj1 (proj1 (rreach_inv _ _ _ _ (proj1 A2)))) as Hd.
  unfold add_one_req. destruct allow; cbn [negb]; [|by eexists _, _, _].
  destruct (single_prefill (config a) && _); [by eexists _, _, _|]. destruct (match prefill_max_requests (config a) with Some x => _ | None => _ end); [by eexists _, _, _|].
  rewrite Hd, andb_false_r. set (total := extend_input_len (pre r) + _).
  assert (Htot : extend_input_len (pre r) <= total) by (unfold total, CLIP_MAX_NEW_TOKENS; lia).
  unfold rem_total_tokens. change (available_and_evictable a) with (Ok (room (mem a))). cbn [rbind].
  destruct (num_leb _ _); [by eexists _, _, _|]. destruct (_ && _); [by eexists _, _, _|].
  rewrite En. destruct (lock_pair a (Hs ++ H) others n ks vs A2 Hre) as (t1 & t2 & E1 & D1 & M1 & M2 & V2 & K1 & K2).
  rewrite E1. cbn [rbind]. set (a1 := set_mem a (with_tree (mem a) t1)).
  assert (Eav : available_and_evictable a1 = Ok (room (mem a1))) by reflexivity.
  destruct (add_locked_cases a1 r (room (mem a1)) o total align A7 Q1 Qf Q3 Q2 Hal Eav Eo)
    as [(res & E)|(r' & flag & len & upd & mx & Hlt & Hext & Hfill & Hupd & Hmx & E)]; rewrite E; cbn [rbind].
  - rewrite (D1 a1 eq_refl). cbn [rbind]. eexists _, _, _. split; [done|]. split; simpl; try done.
    + by exists Hs.
    + by exists o.
    + unfold room in *. simpl. by rewrite V2.
  - rewrite En. destruct (lock_pair (push_req a1 r' flag) (n :: Hs ++ H) others n ks vs M1 (K1 _ _ _ Hre))
      as (t3 & t4 & E3 & D3 & M3 & M4 & V4 & K3 & K4).
    rewrite E3. cbn [rbind]. set (a2 := update_prefill_budget _ len upd mx).
    rewrite (D3 a2 eq_refl). cbn [rbind]. set (a3 := set_mem a2 _).
    assert (Hb : exists s, budget_state a3 = Ok s).
    { unfold budget_state, rem_total_tokens, cur_rem_tokens. change (available_and_evictable a3) with (Ok (room (mem a3))). cbn [rbind].
      repeat case_match; by eexists. }
    destruct Hb as [s Eb]. rewrite Eb. cbn [rbind]. eexists _, _, a3. split; [done|].
    assert (Hceil : extend_input_len (pre r') <= ceil_paged_tokens a2 upd)
      by (etrans; [exact Hupd|]; apply (ceil_paged_ge a2); exact A7).
    assert (Hroom : room (mem a3) = room (mem a1)) by (unfold room; simpl; by rewrite V4).
    split.
    + exact A1.
    + exists (n :: Hs). exact M4.
    + exists (o + (ceil_paged_tokens a1 upd + mx + page_size (config a))). simpl. rewrite Eo. split; [done|].
      change (ceil_paged_tokens _ upd) with (ceil_paged_tokens a1 upd). lia.
    + simpl. rewrite extend_total_snoc. change (ceil_paged_tokens _ upd) with (ceil_paged_tokens a2 upd). lia.
    + rewrite Hroom. change (can_run_list a3) with (can_run_list a ++ [r']). rewrite extend_total_snoc. lia.
    + exact A7.
    + change (can_run_list a3) with (can_run_list a ++ [r']). rewrite extend_total_snoc. lia.
    + apply Forall_app. split; [exact A9|]. constructor; [|done]. split; [done|lia].
Qed.
End fits.

(** ** Order of the request states *)

(** a state that outlives all known ones is inserted before the last of
    them, not after it: the list, which the memory estimate of
    [add_one_req_ignore_eos] reads in order of finish, is no longer sorted. *)
Theorem latest_state_misplaced states t s :
  Forall (fun x => num_leb (fst s) (fst x) = false) (states ++ [t]) ->
  insert_req_state (states ++ [t]) (Some s) = states ++ [s; t].
Proof.
  intros Hf. simpl. assert (Hp : insert_position (fst s) (states ++ [t]) = length states).
  { induction states as [|x states IH]; inversion_clear Hf as [|? ? H1 H2]; simpl; rewrite H1; [done|].
    rewrite <- (IH H2). by destruct states. }
  rewrite Hp. unfold list_insert. by rewrite take_app_length, drop_app_length.
Qed.

Lemma latest_state_misplaced_witness :
  insert_req_state [(NInt 3, 10); (NInt 5, 20)] (Some (NInt 9, 7)) = [(NInt 3, 10); (NInt 9, 7); (NInt 5, 20)].
Proof. apply (latest_state_misplaced [(NInt 3, 10)] (NInt 5, 20) (NInt 9, 7)). by repeat constructor. Defined.

(** ** A concrete pass *)

Definition sample_config : AdderConfig :=
  {| page_size := 1; new_token_ratio := f64_ratio 7 10; priority_scheduling_preemption_threshold := 10;
     prefill_max_requests := None; single_prefill := false |}.
