(* ===== verification/RunningReqs.v ===== *)
(** * The memory of running requests

    A batch of running requests: every request holds its row of the request
    table, a lock on its node of the tree and the slots of its committed tokens.
    What releasing one of them and evicting from the tree does to the others. *)

From S2P Require Import Prelude Tensors BaseAllocator TokenAllocator TriaxialPool TriaxialAllocator TriaxialAllocatorTheory TriaxialInvariant RadixKeys RadixKeysTheory RadixCache RadixTheory RadixLocks RadixEvict RadixFacts RadixProps Request ReqPool KVAllocator ReqCache ReqCacheProps MemCommon TokenMemProps.

(** ** The promise of an allocator to the decode step

    Outside a free group, as many slots as the scheduler counts on for a decode
    step can be allocated, without a prior eviction. *)
Class KVDecodeLaws (A : Type) {KV : KVAllocator A} {KL : KVAllocatorLaws A} := {
  kv_open : A -> Prop;
  kv_open_free a l : kv_open a -> kv_open (kv_free a l);
  kv_open_alloc a n out a' : kv_open a -> kv_alloc a n = (out, a') -> kv_open a';
  kv_decode_law a n owned : kv_open a -> kv_inv a owned -> 0 <= n <= kv_decode_available a ->
    kv_short a n = false /\ exists out a', kv_alloc a n = (Some out, a')
}.

#[global] Program Instance token_decode_laws : KVDecodeLaws BaseAllocator := {| kv_open := token_open |}.
Next Obligation. intros a l Ha. by apply token_free_open. Qed.
Next Obligation.
  intros a n out a' [H1 H2] E. simpl in E. unfold TokenAllocator.alloc in E.
  cbv zeta in E. set (a1 := if need_sort a && _ then merge_and_sort_free a else a) in E.
  assert (Ho : token_open a1).
  { unfold a1. destruct (_ && _); [|done]. destruct (merge_and_sort_free_fields a) as (_ & _ & F3 & F4 & _).
    split; [by rewrite F4|]. intros _. apply merge_and_sort_free_all. }
  destruct (zlen (BaseAllocator.free_pages a1) <? n); injection E as <- <-; [done|]. exact Ho.
Qed.
Next Obligation.
  intros a n owned Ha _ [H0 Hn]. simpl in *. split; [by apply Z.ltb_ge|].
  destruct (TokenAllocator.alloc a n) as [[out|] a'] eqn:E; [by eexists _, _|].
  pose proof (proj1 (token_alloc_none a n Ha H0)) as Hx. rewrite E in Hx. specialize (Hx eq_refl). lia.
Qed.

#[global] Program Instance triaxial_decode_laws : KVDecodeLaws TriaxialAllocator := {| kv_open := fun a => is_not_in_free_group a = true |}.
Next Obligation.
  intros a l Ha. simpl in *. unfold TriaxialAllocator.free. destruct (_ =? 0); [done|]. rewrite Ha. simpl. by rewrite free_now_group.
Qed.
Next Obligation.
  intros a n out a' Ha E. simpl in *. unfold TriaxialAllocator.alloc in E. destruct (_ <? n); by injection E as _ <-.
Qed.
Next Obligation.
  intros a n owned _ Hi [H0 Hn]. simpl in *.
  unfold TriaxialAllocator.available_size, TriaxialAllocator.alloc, TriaxialAllocator.available_size_int4 in *.
  assert (Hp : 0 <= partial_slots a).
  { rewrite (inv_partial _ _ Hi). apply zsum_nonneg, list.Forall_lookup. intros i x Hx. rewrite <- (tget_lookup_Some _ _ _ Hx).
    apply (inv_cnt_range _ _ Hi). apply lookup_lt_Some in Hx. rewrite <- (inv_cnt_len _ _ Hi). unfold zlen. lia. }
  pose proof (zlen_nonneg (free_pages2 a)). unfold PAGE in *.
  rewrite (proj2 (Z.ltb_ge _ n)) by lia. rewrite (proj2 (Z.ltb_ge (zlen (free_slots4 a)) n)) by lia. split; [done|by eexists _, _].
Qed.

(** ** The promise of an allocator to the processing of results

    Between the beginning and the end of a free group slots are only parked. *)
Class KVGroupLaws (A : Type) {KV : KVAllocator A} {KL : KVAllocatorLaws A} {KD : KVDecodeLaws A} {KG : KVGroup A} := {
  kv_grouped : A -> Prop;
  kv_begin_law a owned : kv_open a -> kv_inv a owned -> kv_grouped (kv_group_begin a) /\ kv_inv (kv_group_begin a) owned;
  kv_grouped_free a l : kv_grouped a -> kv_grouped (kv_free a l);
  kv_end_law a owned : kv_grouped a -> kv_inv a owned -> kv_open (kv_group_end a) /\ kv_inv (kv_group_end a) owned
}.

#[global] Program Instance token_group_laws : KVGroupLaws BaseAllocator := {|
  kv_grouped := fun a => BaseAllocator.is_not_in_free_group a = false /\ (BaseAllocator.need_sort a = false -> BaseAllocator.release_pages a = [])
|}.
Next Obligation.
  intros a owned [H1 H2] Hi. simpl in *. split; [done|]. unfold token_inv, parked in *. simpl. by rewrite H1 in Hi.
Qed.
Next Obligation.
  intros a l [H1 H2]. simpl. unfold TokenAllocator.free. destruct (_ =? 0); [done|]. rewrite H1. done.
Qed.
Next Obligation.
  intros a owned [H1 H2] Hi. simpl in *. split; [|by apply token_inv_group_end].
  unfold TokenAllocator.group_end, BaseAllocator.free_group_end. simpl. destruct (BaseAllocator.free_group a); [done|].
  by apply token_free_open.
Qed.

#[global] Program Instance triaxial_group_laws : KVGroupLaws TriaxialAllocator := {| kv_grouped := fun a => is_not_in_free_group a = false |}.
Next Obligation.
  intros a owned Ha Hi. simpl in *. split; [done|]. unfold pending in *. rewrite Ha in Hi. simpl. by apply inv_set_group.
Qed.
Next Obligation.
  intros a l Ha. simpl in *. unfold TriaxialAllocator.free. destruct (_ =? 0); [done|]. by rewrite Ha.
Qed.
Next Obligation.
  intros a owned Ha Hi. simpl in *. destruct (inv_group_end a _ Hi Ha) as [H1 H2]. split; [done|]. unfold pending. by rewrite H2.
Qed.

Definition committed_ids (r : Req) : list Z := slice_to (origin_input_ids r ++ output_ids r) (kv_committed_len (kv r)).
Definition node_of (r : Req) : nat := default 0%nat (last_node (pre r)).

(** What [release_kv_cache] leaves of the memory fields of a request. *)
Definition released (r : Req) : Req :=
  set_kv r {| req_pool_idx := None; kv_committed_len := kv_committed_len (kv r); kv_allocated_len := kv_allocated_len (kv r);
              kv_committed_freed := true; kv_overallocated_freed := true |}.

Section running.
Context (mono : nat -> Z) (gh : list tok -> option string -> string).
Context {A : Type} {KV : KVAllocator A} {KL : KVAllocatorLaws A} {KD : KVDecodeLaws A}.

Definition row_of (m : Mem A) (r : Req) : list Z :=
  match get_row (req_pool m) (req_pool_idx (kv r)) with Ok row => row | Err _ => [] end.

(** The slots of the request that the tree does not have. *)
Definition own_slots (m : Mem A) (r : Req) : list Z := private_slots r (committed_ids r) (row_of m r).

Record running (m : Mem A) (r : Req) : Prop := {
  rn_held : holds_kv m r (committed_ids r) (node_of r) (row_of m r);
  rn_committed : kv_committed_freed (kv r) = false;
  rn_over : kv_overallocated_freed (kv r) = false;
  rn_alloc : kv_allocated_len (kv r) = kv_committed_len (kv r);
  (* the row takes all tokens the request may still get *)
  rn_room : Z.max (seqlen r) (zlen (origin_input_ids r) + max_new_tokens (sampling_params (info r))) <= zlen (row_of m r)
}.

(** The requests [rs] run; besides them the nodes [Hs] are locked, the slots
    [others] are held and the rows [rows] of the table are taken. *)
Record running_ok (m : Mem A) (rs : list Req) (Hs : list nat) (others rows : list Z) : Prop := {
  ro_tree : rreach mono gh (tree_cache m) (map node_of rs ++ Hs);
  ro_slots : kv_inv (allocator m) (concat (map (own_slots m) rs) ++ held_slots (tree_cache m) ++ others);
  ro_rows : pool_inv (req_pool m) (held rs ++ rows);
  ro_reqs : Forall (running m) rs;
  ro_open : kv_open (allocator m)
}.

(** The same without a word on the allocator's mode: also inside a free group. *)
Record holding (m : Mem A) (rs : list Req) (Hs : list nat) (others rows : list Z) : Prop := {
  ho_tree : rreach mono gh (tree_cache m) (map node_of rs ++ Hs);
  ho_slots : kv_inv (allocator m) (concat (map (own_slots m) rs) ++ held_slots (tree_cache m) ++ others);
  ho_rows : pool_inv (req_pool m) (held rs ++ rows);
  ho_reqs : Forall (running m) rs
}.

Lemma running_holding m rs Hs others rows : running_ok m rs Hs others rows <-> holding m rs Hs others rows /\ kv_open (allocator m).
Proof. split; [intros []; by split|]. intros [[] ?]. by split. Qed.

(** ** Changes that do not concern a request *)

Lemma running_table m p r : get_row p (req_pool_idx (kv r)) = get_row (req_pool m) (req_pool_idx (kv r)) ->
  running m r -> running (with_pool m p) r /\ own_slots (with_pool m p) r = own_slots m r.
Proof.
  intros E [[R1 R2 R3 R4] H2 H3 H4 H5]. assert (Er : row_of (with_pool m p) r = row_of m r) by (unfold row_of; simpl; by rewrite E).
  unfold own_slots. rewrite Er. split; [|done]. split; try done; rewrite Er; [|done]. split; try done. simpl. by rewrite E.
Qed.

Lemma running_evicts m m' H r : spares m m' H -> node_of r ∈ H ->
  running m r -> running m' r /\ own_slots m' r = own_slots m r.
Proof.
  intros [V1 V2 V3 V4 V5] Hin [[R1 R2 R3 [P1 P2 P3 P4]] H2 H3 H4 H5].
  assert (Er : row_of m' r = row_of m r) by (unfold row_of; by rewrite V1).
  assert (Ek : tree_keys (tree_cache m') (committed_ids r) = tree_keys (tree_cache m) (committed_ids r)) by (unfold tree_keys; by rewrite V2, V3).
  unfold own_slots. rewrite Er. split; [|done]. split; try done; rewrite Er; [|done]. split; [by rewrite V1|done|done|].
  rewrite Ek. split; [done|by rewrite V2|by apply V4|].
  intros Hp y Hy. destruct (V5 _ _ _ _ Hin P3 Hy) as (x & Hx & <-). by apply P4.
Qed.

Lemma running_all m m' H rs : spares m m' H -> (forall r, r ∈ rs -> node_of r ∈ H) -> Forall (running m) rs ->
  Forall (running m') rs /\ map (own_slots m') rs = map (own_slots m) rs.
Proof.
  intros He. induction rs as [|r rs IH]; intros Hin Hr; [done|]. apply list.Forall_cons in Hr as [H1 H2].
  destruct (running_evicts _ _ _ r He) as [G1 G2]; [apply Hin; by left|done|].
  destruct IH as [G3 G4]; [intros q Hq; apply Hin; by right|done|]. simpl. by rewrite G2, G4; split; [constructor|].
Qed.

Lemma node_in rs (Hs : list nat) r : r ∈ rs -> node_of r ∈ map node_of rs ++ Hs.
Proof. intros Hr. apply elem_of_app. left. apply list_elem_of_fmap. by exists r. Qed.

#[global] Instance running_ok_perm m : Proper ((≡ₚ) ==> eq ==> eq ==> eq ==> impl) (running_ok m).
Proof.
  intros rs rs' Hp ? Hs -> ? others -> ? rows -> [H1 H2 H3 H4 H5]. split; [..|done].
  - eapply rreach_perm; [exact H1|]. by rewrite Hp.
  - eapply kv_inv_perm; [|exact H2]. by rewrite Hp.
  - unfold pool_inv, held in *. by rewrite <- Hp.
  - by rewrite <- Hp.
Qed.

(** ** Eviction *)

Lemma kv_open_frees a vs : kv_open a -> kv_open (foldl kv_free a vs).
Proof. revert a. induction vs as [|v vs IH]; intros a Ha; [done|]. simpl. by apply IH, kv_open_free. Qed.

Lemma evict_open chunk m H o k m' : mem_ok mono gh m H o -> evict_from_tree_cache gh chunk m k = Ok m' ->
  kv_open (allocator m) -> kv_open (allocator m').
Proof.
  intros Hm. unfold evict_from_tree_cache. destruct chunk; [by intros [= <-]|]. destruct (kv_short _ _); [|by intros [= <-]].
  destruct (tree_evict_spec mono gh m H o k Hm) as (m1 & vs & E & _ & _ & Ea & _). rewrite E. intros [= <-] Ho.
  rewrite Ea. by apply kv_open_frees.
Qed.

Lemma evict_running chunk m rs Hs others rows k : running_ok m rs Hs others rows ->
  exists m', evict_from_tree_cache gh chunk m k = Ok m' /\ running_ok m' rs Hs others rows.
Proof.
  intros [H1 H2 H3 H4 H5].
  assert (Hm : mem_ok mono gh m (map node_of rs ++ Hs) (concat (map (own_slots m) rs) ++ others)).
  { split; [done|]. by rewrite Permutation_app_swap_app. }
  destruct (evict_from_tree_cache_spec mono gh chunk m _ _ k Hm) as (m' & E & [Hr Hk] & Hev).
  destruct (running_all _ _ _ rs Hev) as [G1 G2]; [intros r Hr'; by apply node_in|done|].
  exists m'. split; [done|]. split; [done| |by rewrite (ev_pool _ _ _ Hev)|done|by eapply evict_open].
  rewrite G2. by rewrite Permutation_app_swap_app.
Qed.

(** ** Releasing a request *)

Lemma ceil_align_ge x a : 1 <= a -> x <= ceil_align x a.
Proof. intros Ha. unfold ceil_align. pose proof (Z.mul_succ_div_gt (x + a - 1) a ltac:(lia)). nia. Qed.

Lemma release_holding ins page m r rs Hs others rows : holding m (r :: rs) Hs others rows ->
  exists m' l1 l2, release_kv_cache mono gh false page m r ins = Ok (m', released r) /\ holding m' rs Hs others rows /\
    allocator m' = kv_free (kv_free (allocator m) l1) l2.
Proof.
  intros [H1 H2 H3 H4]. apply list.Forall_cons in H4 as [[Hh Hc Ho Ha _] Hrs]. simpl in H1, H2.
  destruct (req_pool_idx (kv r)) as [i|] eqn:Ei; [|by pose proof (hk_row _ _ _ _ _ Hh) as E; rewrite Ei in E].
  destruct (finish_conserves mono gh m r (committed_ids r) (node_of r) (map node_of rs ++ Hs) (row_of m r)
    (concat (map (own_slots m) rs) ++ others) ins H1 Hc eq_refl Hh) as (m1 & r1 & E & Hr & Hk & Hev & Epop & f1 & f2 & Eal).
  { eapply kv_inv_perm; [|exact H2]. simpl. rewrite <- app_assoc. apply Permutation_app_head, Permutation_app_swap_app. }
  pose proof (ev_pool _ _ _ Hev) as Hp.
  destruct (running_all _ _ _ rs Hev) as [G1 G2]; [intros q Hq; by apply node_in|done|].
  unfold pop_committed_kv_cache in Epop. rewrite Hc in Epop. injection Epop as <-.
  unfold release_kv_cache. rewrite Ei. cbn [is_none negb rassert rbind]. rewrite E. cbn [rbind].
  unfold pop_overallocated_kv_cache. simpl. rewrite Ho. cbn [rassert negb rbind]. rewrite Ha, Z.eqb_refl. cbn [rassert rbind].
  set (start := if 1 <? page then _ else _). assert (Hst : kv_committed_len (kv r) <= start).
  { unfold start. destruct (Z.ltb_spec 1 page); [apply ceil_align_ge; lia|lia]. }
  destruct (Z.ltb_spec start (kv_committed_len (kv r))); [lia|]. cbn [rbind]. unfold free. simpl. rewrite Ei. cbn [rbind].
  eexists _, f1, f2. split; [unfold released; by rewrite Ha|]. split; [|exact Eal].
  set (p' := set_free_slots _ _).
  split; simpl; [done| | |].
  - eapply kv_inv_perm; [|exact Hk]. rewrite <- G2. by rewrite Permutation_app_swap_app.
  - unfold pool_inv in *. simpl. rewrite Hp. rewrite held_cons, Ei in H3. rewrite <- app_assoc. simpl. exact H3.
  - eapply list.Forall_impl; [exact G1|]. intros q Hq. by apply (running_table m1 p').
Qed.

Lemma release_running ins page m r rs Hs others rows : running_ok m (r :: rs) Hs others rows ->
  exists m', release_kv_cache mono gh false page m r ins = Ok (m', released r) /\ running_ok m' rs Hs others rows.
Proof.
  rewrite running_holding. intros [Hh Ho]. destruct (release_holding ins page m r rs Hs others rows Hh) as (m' & l1 & l2 & E & Hh' & Ea).
  exists m'. split; [done|]. apply running_holding. split; [done|]. rewrite Ea. by do 2 apply kv_open_free.
Qed.
End running.
