(* ===== verification/DecodeBatchProps.v ===== *)
(** * Retraction of the running batch

    [retract_decode] and the methods under it, over every allocator of the
    interface: it always returns, keeps the requests of highest rank, gives back
    the memory of the others and leaves enough for the next decode step. *)

From S2P Require Import Prelude Tensors Floats RadixKeys RadixCache RadixTheory RadixProps Request ReqPool BaseAllocator KVAllocator ReqCache ReqCacheProps MemCommon TokenMemProps SchedulePolicy RadixEvict SchedulePolicyTheory DecodeBatch RunningReqs.

(** ** The order of retraction *)

Section sorting.
Context {B K : Type} (lt : K -> K -> bool).
Context (lt_asym : forall a b, lt a b = true -> lt b a = false).
Context (lt_neg : forall a b c, lt a b = false -> lt b c = false -> lt a c = false).

Definition not_after (p q : K * B) : Prop := lt (fst q) (fst p) = false.

Lemma insert_by_sorted x l : StronglySorted not_after l -> StronglySorted not_after (insert_by lt x l).
Proof using lt_asym lt_neg.
  induction 1 as [|y l Hl IH Hy]; simpl; [by repeat constructor|]. destruct (lt (fst y) (fst x)) eqn:E.
  - constructor; [done|]. rewrite insert_by_perm. constructor; [|done]. unfold not_after. by apply lt_asym.
  - constructor; [by constructor|]. constructor; [done|]. eapply list.Forall_impl; [exact Hy|].
    intros z Hz. unfold not_after in *. by eapply lt_neg.
Qed.

Lemma py_sort_sorted l : StronglySorted not_after (py_sort lt l).
Proof using lt_asym lt_neg. induction l as [|x l IH]; simpl; [constructor|by apply insert_by_sorted]. Qed.

(** Sorting by a key gives a list without inversions. *)
Lemma sort_key_sorted (key : B -> result K) l l' : sort_key lt key l = Ok l' ->
  StronglySorted (fun x y => forall kx ky, key x = Ok kx -> key y = Ok ky -> lt ky kx = false) l'.
Proof using lt_asym lt_neg.
  unfold sort_key. destruct (rmap _ l) as [ks|] eqn:E; [|done]. cbn [rbind]. intros [= <-].
  assert (Hk : Forall (fun p => key (snd p) = Ok (fst p)) (py_sort lt ks)).
  { rewrite py_sort_perm. revert ks E. induction l as [|x l IH]; intros ks E; simpl in E; [by injection E as <-|].
    destruct (key x) as [k|] eqn:Ek; [|done]. cbn [rbind] in E. destruct (rmap _ l) as [ks'|]; [|done]. injection E as <-.
    constructor; [done|]. by apply IH. }
  revert Hk. induction (py_sort_sorted ks) as [|p ps Hps IH Hp]; intros Hk; simpl; [constructor|].
  apply list.Forall_cons in Hk as [Hk1 Hk2]. constructor; [by apply IH|]. apply list.Forall_forall.
  intros y Hy kx ky Ex Ey. apply list_elem_of_fmap in Hy as (q & -> & Hq).
  rewrite list.Forall_forall in Hp, Hk2. specialize (Hp q Hq). specialize (Hk2 q Hq). unfold not_after in Hp. congruence.
Qed.
End sorting.

Lemma sorted_weaken {B} (R R' : B -> B -> Prop) l : (forall x y, R x y -> R' x y) -> StronglySorted R l -> StronglySorted R' l.
Proof. intros Hi. induction 1 as [|x l Hl IH Hx]; constructor; [done|]. eapply list.Forall_impl; [exact Hx|]. auto. Qed.

(** [r] is kept at least as long as [q]: more output, or the same and a prompt
    that is not longer. *)
Definition outranks (r q : Req) : Prop :=
  zlen (output_ids q) < zlen (output_ids r) \/
  (zlen (output_ids q) = zlen (output_ids r) /\ zlen (origin_input_ids r) <= zlen (origin_input_ids q)).

Definition at_index {B} (l : list B) (i : Z) (x : B) : Prop := 0 <= i /\ l !! Z.to_nat i = Some x.

Lemma py_get_at {B} (l : list B) i x : at_index l i x -> py_get l i = Ok x.
Proof. intros [H0 E]. unfold py_get. cbv zeta. destruct (Z.ltb_spec i 0); [lia|]. destruct (Z.ltb_spec i 0); [lia|]. by rewrite E. Qed.

Lemma retract_order_spec b : exists order, retract_order b = Ok order /\ order ≡ₚ seqZ 0 (zlen (b_reqs b)) /\
  StronglySorted (fun i j => forall r q, at_index (b_reqs b) i r -> at_index (b_reqs b) j q -> outranks r q) order.
Proof.
  unfold retract_order.
  set (key := fun i => let! r := py_get (b_reqs b) i in Ok [zlen (output_ids r); - zlen (origin_input_ids r)]).
  set (lt := fun x y => lex_lt y x).
  destruct (sort_key_perm lt key (seqZ 0 (zlen (b_reqs b)))) as (order & E & Hp).
  { intros i [H1 H2]%elem_of_seqZ. destruct (lookup_lt_is_Some_2 (b_reqs b) (Z.to_nat i)) as [r Er]; [unfold zlen in H2; lia|].
    unfold key. rewrite (py_get_at _ i r) by done. by eexists. }
  exists order. split; [done|]. split; [done|].
  eapply sorted_weaken; [|eapply (sort_key_sorted lt)]; [| | |exact E].
  - intros i j Hij r q Hr Hq. specialize (Hij [zlen (output_ids r); - zlen (origin_input_ids r)] [zlen (output_ids q); - zlen (origin_input_ids q)]).
    unfold key in Hij. rewrite (py_get_at _ _ _ Hr), (py_get_at _ _ _ Hq) in Hij. specialize (Hij eq_refl eq_refl).
    unfold lt in Hij. simpl in Hij. unfold outranks. bool_lia.
  - intros x y Hxy. unfold lt in *. destruct (lex_lt x y) eqn:E2; [|done]. pose proof (lex_lt_trans _ _ _ Hxy E2) as C. by rewrite lex_lt_irrefl in C.
  - intros x y z H1 H2. unfold lt in *. by eapply lex_lt_neg_trans.
Qed.

(** ** Requests by index *)

Definition picks {B} (l : list B) (idx : list Z) (xs : list B) : Prop := Forall2 (at_index l) idx xs.

Lemma gather_picks {B} (l : list B) idx xs : picks l idx xs -> gather l idx = Ok xs.
Proof.
  unfold gather. induction 1 as [|i x idx xs Hi _ IH]; [done|]. simpl. rewrite (py_get_at _ _ _ Hi). cbn [rbind].
  rewrite IH. done.
Qed.

Lemma picks_all {B} (l : list B) : picks l (seqZ 0 (zlen l)) l.
Proof.
  apply Forall2_same_length_lookup. split; [unfold zlen; rewrite length_seqZ; lia|].
  intros i j x Hi%lookup_seqZ Hx. destruct Hi as [-> _]. split; [lia|]. by replace (Z.to_nat (0 + Z.of_nat i)) with i by lia.
Qed.

Lemma picks_perm {B} (l : list B) idx idx' : idx ≡ₚ idx' -> forall xs, picks l idx xs ->
  exists xs', picks l idx' xs' /\ xs ≡ₚ xs'.
Proof.
  unfold picks. induction 1 as [|i idx idx' _ IH|i j idx|idx1 idx2 idx3 _ IH1 _ IH2]; intros xs Hx.
  - by exists xs.
  - apply Forall2_cons_inv_l in Hx as (x & xs0 & Hi & Hx & ->). destruct (IH _ Hx) as (xs' & ? & Hp).
    exists (x :: xs'). split; [by constructor|by rewrite Hp].
  - apply Forall2_cons_inv_l in Hx as (x & xs0 & Hi & Hx & ->). apply Forall2_cons_inv_l in Hx as (y & xs1 & Hj & Hx & ->).
    exists (y :: x :: xs1). split; [constructor; [done|by constructor]|constructor].
  - destruct (IH1 _ Hx) as (xs1 & H1 & E1). destruct (IH2 _ H1) as (xs2 & H2 & E2). exists xs2. split; [done|by etrans].
Qed.

Lemma picks_snoc {B} (l : list B) idx i xs : picks l (idx ++ [i]) xs ->
  exists xs0 x, xs = xs0 ++ [x] /\ picks l idx xs0 /\ at_index l i x.
Proof.
  intros Hx. apply Forall2_app_inv_l in Hx as (xs0 & k2 & H1 & H2 & ->).
  apply Forall2_cons_inv_l in H2 as (x & k3 & Hi & H3 & ->). apply Forall2_nil_inv_l in H3 as ->. by exists xs0, x.
Qed.

(** What retraction does to a request. *)
Definition retracted (r : Req) : Req := reset_for_retract (released r).

(** [l'] is [l] with the requests at the indices [back] retracted. *)
Definition marks (l : list Req) (back : list Z) (l' : list Req) : Prop :=
  length l' = length l /\
  forall i r, at_index l i r -> at_index l' i (if decide (i ∈ back) then retracted r else r).

Lemma marks_refl l : marks l [] l.
Proof. split; [done|]. intros i r Hi. by rewrite decide_False by apply not_elem_of_nil. Qed.

Lemma marks_step l back l' i r : marks l back l' -> at_index l i r ->
  marks l (back ++ [i]) (<[Z.to_nat i := retracted r]> l').
Proof.
  intros [Hlen Hm] Hi. split; [by rewrite length_insert|]. intros j q Hj. pose proof (Hm _ _ Hj) as [H0 Hl]. destruct (decide (j = i)) as [->|Hne].
  - destruct Hi as [_ Hi], Hj as [_ Hj]. rewrite Hi in Hj. injection Hj as <-. rewrite decide_True by set_solver.
    split; [done|]. apply list_lookup_insert_eq. by eapply lookup_lt_Some.
  - replace (if decide (j ∈ back ++ [i]) then retracted q else q) with (if decide (j ∈ back) then retracted q else q).
    2: { destruct (decide (j ∈ back)), (decide (j ∈ back ++ [i])); set_solver. }
    split; [done|]. rewrite list_lookup_insert_ne; [done|]. destruct Hi. lia.
Qed.

Lemma marks_kept l back l' idx rs : marks l back l' -> (forall i, i ∈ idx -> i ∉ back) -> picks l idx rs -> picks l' idx rs.
Proof.
  intros Hm Hd Hp. induction Hp as [|i r idx rs Hi Hp IH]; [constructor|].
  constructor; [|apply IH; intros j Hj; apply Hd; by right].
  pose proof (proj2 Hm _ _ Hi) as H. rewrite decide_False in H by (apply Hd; by left). done.
Qed.

Lemma picks_map {B} (f : B -> B) l l' idx xs : (forall i x, at_index l i x -> i ∈ idx -> at_index l' i (f x)) ->
  picks l idx xs -> picks l' idx (map f xs).
Proof.
  intros Hf Hp. induction Hp as [|i x idx xs Hi Hp IH]; [constructor|].
  constructor; [apply Hf; [done|by left]|apply IH; intros j y Hj Hin; apply Hf; [done|by right]].
Qed.

(** ** Filtering *)

Record arrays_ok (b : DecodeBatch) : Prop := {
  ao_rows : length (b_req_pool_indices b) = length (b_reqs b);
  ao_seqs : length (b_seq_lens b) = length (b_reqs b);
  ao_orig : length (b_orig_seq_lens b) = length (b_reqs b);
  ao_outs : forall o, b_output_ids b = Some o -> length o = length (b_reqs b)
}.

Lemma picks_total {B C} (l : list B) (k : list C) idx xs : length k = length l -> picks l idx xs -> exists ys, picks k idx ys.
Proof.
  intros Hl. induction 1 as [|i x idx xs [Hi0 Hi] _ [ys IH]]; [by exists []; constructor|].
  destruct (lookup_lt_is_Some_2 k (Z.to_nat i)) as [y Hy]; [rewrite Hl; by eapply lookup_lt_Some|].
  exists (y :: ys). constructor; done.
Qed.

Lemma picks_unique {B} (l : list B) idx xs ys : picks l idx xs -> picks l idx ys -> xs = ys.
Proof.
  intros Hx. revert ys. induction Hx as [|i x idx xs [_ Hi] _ IH]; intros ys Hy; [by apply Forall2_nil_inv_l in Hy|].
  apply Forall2_cons_inv_l in Hy as (y & ys' & [_ Hy] & Hys & ->). f_equal; [congruence|by apply IH].
Qed.

(** Filtering by a list of indices that is the whole batch only in its order. *)
Lemma filter_keep b kept rs : arrays_ok b -> picks (b_reqs b) kept rs -> kept <> [] ->
  (length kept = length (b_reqs b) -> kept = seqZ 0 (zlen (b_reqs b))) ->
  exists b', filter_batch b [] (Some kept) = Ok b' /\ b_reqs b' = rs /\
    picks (b_req_pool_indices b) kept (b_req_pool_indices b') /\ picks (b_seq_lens b) kept (b_seq_lens b') /\ arrays_ok b' /\
    (forall o, b_output_ids b = Some o -> exists o', b_output_ids b' = Some o').
Proof.
  intros [A1 A2 A3 A4] Hp Hne Hall. unfold filter_batch. cbn [kept_indices].
  destruct (Z.eqb_spec (zlen kept) 0) as [E|_]; [by destruct kept|].
  destruct (Z.eqb_spec (zlen kept) (zlen (b_reqs b))) as [E|_].
  - exists b. assert (Hk : kept = seqZ 0 (zlen (b_reqs b))) by (apply Hall; unfold zlen in E; lia). split; [done|]. rewrite Hk in *.
    split; [by eapply picks_unique; [apply picks_all|]|].
    replace (zlen (b_reqs b)) with (zlen (b_req_pool_indices b)) at 1 by (unfold zlen; lia).
    replace (zlen (b_reqs b)) with (zlen (b_seq_lens b)) by (unfold zlen; lia). split; [apply picks_all|]. split; [apply picks_all|]. split; [done|]. intros o Ho. by exists o.
  - rewrite (gather_picks _ _ _ Hp). cbn [rbind].
    destruct (picks_total _ _ _ _ A1 Hp) as [idx H1]. rewrite (gather_picks _ _ _ H1). cbn [rbind].
    destruct (picks_total _ _ _ _ A2 Hp) as [seqs H2]. rewrite (gather_picks _ _ _ H2). cbn [rbind].
    destruct (picks_total _ _ _ _ A3 Hp) as [orig H3]. rewrite (gather_picks _ _ _ H3). cbn [rbind].
    destruct (b_output_ids b) as [o|] eqn:Eo; cbn [rbind].
    2: { eexists. split; [done|]. split; [done|]. split; [done|]. split; [done|]. split; [|done].
         split; simpl; try done; rewrite <- (list.Forall2_length _ _ _ Hp); symmetry; by eapply list.Forall2_length. }
    destruct (picks_total _ o _ _ (A4 o eq_refl) Hp) as [outs H4]. rewrite (gather_picks _ _ _ H4). cbn [rbind].
    eexists. split; [done|]. split; [done|]. split; [done|]. split; [done|]. split; [|by eexists].
    split; simpl; [..|intros o' [= <-]]; rewrite <- (list.Forall2_length _ _ _ Hp); symmetry; by eapply list.Forall2_length.
Qed.

Section retraction.
Context (mono : nat -> Z) (gh : list tok -> option string -> string) (chunk : bool).
Context {A : Type} {KV : KVAllocator A} {KL : KVAllocatorLaws A} {KD : KVDecodeLaws A} (page steps : Z).
Context (Hs : list nat) (others rows : list Z).

Local Notation ok := (fun m rs => running_ok mono gh m rs Hs others rows).

(** Tokens of the next decode step of [rs], and that they fit. *)
Definition need (rs : list Req) : Z := count (fun r => kv_committed_len (kv r) mod page =? 0) rs * page.
Definition fits (m : Mem A) (rs : list Req) : Prop := need rs <= kv_decode_available (allocator m).

Lemma check_decode_mem_ok m b idx rs : picks (b_reqs b) idx rs -> ok m rs ->
  exists res m', check_decode_mem gh chunk page m b (Some idx) = Ok (res, m') /\ ok m' rs /\
    evict_from_tree_cache gh chunk m (need rs) = Ok m' /\ (res = true <-> fits m' rs).
Proof.
  intros Hp Hm. unfold check_decode_mem, new_tokens_required_next_decode. rewrite (gather_picks _ _ _ Hp). cbn [rbind].
  destruct (evict_running mono gh chunk _ _ _ _ _ (need rs) Hm) as (m' & E & Hm').
  unfold need in E. rewrite E. cbn [rbind]. eexists _, m'. split; [done|]. split; [done|]. split; [done|]. apply Z.leb_le.
Qed.

Lemma release_req_ok m b i r rs k : at_index (b_reqs b) i r -> ok m (r :: rs) ->
  exists m', release_req mono gh chunk page steps m b i k = Ok (m', with_reqs b (<[Z.to_nat i := retracted r]> (b_reqs b))) /\ ok m' rs.
Proof.
  intros Hi Hm. unfold release_req. rewrite (py_get_at _ _ _ Hi). cbn [rbind].
  destruct (release_running mono gh false page _ _ _ _ _ _ Hm) as (m1 & E1 & Hm1). rewrite E1. cbn [rbind].
  destruct (evict_running mono gh chunk _ _ _ _ _ (k * steps) Hm1) as (m2 & E2 & Hm2). rewrite E2. cbn [rbind]. by exists m2.
Qed.

Lemma py_get_snoc {B} (l : list B) x : py_get (l ++ [x]) (-1) = Ok x.
Proof.
  unfold py_get, zlen. simpl. rewrite length_app. simpl. destruct (Z.ltb_spec (-1 + Z.of_nat (length l + 1)) 0); [lia|].
  by rewrite list_lookup_middle by lia.
Qed.

Lemma retract_loop_ok l fuel : forall first m b sorted back rs,
  marks l back (b_reqs b) -> (forall i, i ∈ sorted -> i ∉ back) -> NoDup sorted -> picks l sorted rs -> ok m rs ->
  sorted <> [] -> (length sorted <= fuel)%nat ->
  exists m' l' kept more rs',
    retract_loop mono gh chunk page steps fuel first m b sorted back = Ok (m', with_reqs b l', kept, back ++ more) /\
    sorted = kept ++ rev more /\ kept <> [] /\ marks l (back ++ more) l' /\ picks l kept rs' /\ ok m' rs' /\
    (length kept = 1%nat \/ fits m' rs') /\ (first = true -> (1 < length sorted)%nat -> more <> []).
Proof.
  induction fuel as [|f IH]; intros first m b sorted back rs Hmk Hdis Hnd Hp Hm Hne Hf; [destruct sorted; simpl in Hf; [done|lia]|].
  assert (Hgo : exists go m1, (if first then Ok (true, m) else let! (okm, m1) := check_decode_mem gh chunk page m b (Some sorted) in Ok (negb okm, m1))
     = Ok (go, m1) /\ ok m1 rs /\ (go = false -> first = false /\ fits m1 rs)).
  { destruct first; [by exists true, m|].
    destruct (check_decode_mem_ok m b sorted rs (marks_kept _ _ _ _ _ Hmk Hdis Hp) Hm) as (res & m1 & E & Hm1 & _ & Hres).
    rewrite E. cbn [rbind]. exists (negb res), m1. split_and!; try done. intros ->%negb_false_iff. split; [done|by apply Hres]. }
  destruct Hgo as (go & m1 & Ego & Hm1 & Hfit). cbn [retract_loop]. rewrite Ego. cbn [rbind].
  assert (Hstop : forall (C : length sorted = 1%nat \/ fits m1 rs), (first = true -> length sorted = 1%nat) -> exists m' l' kept more rs',
    Ok (m1, b, sorted, back) = Ok (m', with_reqs b l', kept, back ++ more) /\
    sorted = kept ++ rev more /\ kept <> [] /\ marks l (back ++ more) l' /\ picks l kept rs' /\ ok m' rs' /\
    (length kept = 1%nat \/ fits m' rs') /\ (first = true -> (1 < length sorted)%nat -> more <> [])).
  { intros C Hone. exists m1, (b_reqs b), sorted, [], rs. simpl. rewrite !app_nil_r. destruct b. split_and!; try done.
    intros Ht. specialize (Hone Ht). lia. }
  destruct go; simpl negb; cbn iota; [|apply Hstop; destruct (Hfit eq_refl) as [-> ?]; [by right|done]].
  destruct (Z.eqb_spec (zlen sorted) 1) as [E1|E1]; [apply Hstop; unfold zlen in E1; [left|]; lia|].
  clear Hstop. destruct (exists_last Hne) as (rest & i & ->). rewrite py_get_snoc, removelast_last. cbn [rbind].
  destruct (picks_snoc _ _ _ _ Hp) as (rs0 & r & -> & Hp0 & Hi).
  assert (Hdi : i ∉ back) by (apply Hdis; set_solver).
  assert (Hi' : at_index (b_reqs b) i r). { pose proof (proj2 Hmk _ _ Hi) as Hx. by rewrite decide_False in Hx. }
  destruct (release_req_ok m1 b i r rs0 (zlen rest) Hi') as (m2 & E2 & Hm2).
  { cbv beta in *. by rewrite Permutation_cons_append. }
  rewrite E2. cbn [rbind]. apply list.NoDup_app in Hnd as (Hnd & Hni & _).
  destruct (IH false m2 (with_reqs b (<[Z.to_nat i := retracted r]> (b_reqs b))) rest (back ++ [i]) rs0)
    as (m' & l' & kept & more & rs' & E & Hsplit & Hk & Hmk' & Hp' & Hm' & Hend & _); try done.
  - by apply marks_step.
  - intros j Hj [Hb|Hb]%elem_of_app; [eapply Hdis; [|exact Hb]; set_solver|]. apply list_elem_of_singleton in Hb as ->.
    eapply Hni; [exact Hj|]. by left.
  - intros ->. unfold zlen in E1. simpl in E1. lia.
  - rewrite length_app in Hf. simpl in Hf. lia.
  - exists m', l', kept, (i :: more), rs'. rewrite E. rewrite <- !app_assoc in *. simpl in *. split_and!; try done.
    by rewrite Hsplit, app_assoc.
Qed.

(** Marking a request as finished does not touch its memory. *)
Lemma running_ok_fin m r f rs : ok m (r :: rs) -> ok m (set_fin r f :: rs).
Proof.
  intros [H1 H2 H3 H4 H5]. split; [exact H1|exact H2|exact H3| |exact H5].
  apply list.Forall_cons in H4 as [[[R1 R2 R3 R4] G2 G3 G4 G5] H4]. constructor; [|done]. split; [split|..]; done.
Qed.

(** The last request, when even it does not fit, is aborted and released. *)
Lemma abort_last m b l back i r : marks l back (b_reqs b) -> i ∉ back -> at_index l i r -> ok m [r] ->
  let r' := set_to_finish r (FINISH_ABORT abort_message) in
  exists m' l', release_req mono gh chunk page steps m (with_reqs b (<[Z.to_nat i := r']> (b_reqs b))) i 0 = Ok (m', with_reqs b l') /\
    ok m' [] /\ at_index l' i (retracted r') /\ (forall j q, at_index l j q -> j ∈ back -> at_index l' j (retracted q)).
Proof.
  intros Hm Hi Hr Hok r'. pose proof (proj2 Hm _ _ Hr) as [Hi0 Hl]. rewrite decide_False in Hl by done.
  pose proof (lookup_lt_Some _ _ _ Hl) as Hlt.
  destruct (release_req_ok m (with_reqs b (<[Z.to_nat i := r']> (b_reqs b))) i r' [] 0) as (m' & E & Hok').
  { split; [done|]. simpl. by apply list_lookup_insert_eq. }
  { by apply running_ok_fin. }
  simpl in E. rewrite list_insert_insert_eq in E. eexists m', _. split; [exact E|]. split; [done|]. split.
  - split; [done|]. apply list_lookup_insert_eq. done.
  - intros j q Hj Hb. pose proof (proj2 Hm _ _ Hj) as [Hj0 Hjl]. rewrite decide_True in Hjl by done. split; [done|].
    rewrite list_lookup_insert_ne; [done|]. intros Hij. apply Hi. by replace i with j by lia.
Qed.

(** After the loop: the last request is checked again and aborted if it does
    not fit. *)
Definition abort_step (m1 : Mem A) (b1 : DecodeBatch) (sorted : list Z) : result (Mem A * DecodeBatch * list Z * list Z) :=
  if zlen sorted <=? 1 then
    let! (okm, m2) := check_decode_mem gh chunk page m1 b1 (Some sorted) in
    if negb okm then
      let! idx := py_get sorted (-1) in
      let! r := py_get (b_reqs b1) idx in
      let b2 := with_reqs b1 (<[Z.to_nat idx := set_to_finish r (FINISH_ABORT abort_message)]> (b_reqs b1)) in
      let! (m3, b3) := release_req mono gh chunk page steps m2 b2 idx 0 in
      Ok (m3, b3, removelast sorted, [idx])
    else Ok (m2, b1, sorted, [])
  else Ok (m1, b1, sorted, []).

Lemma abort_step_ok l m b l1 kept back rs : marks l back l1 -> (forall i, i ∈ kept -> i ∉ back) -> picks l kept rs ->
  kept <> [] -> ok m rs -> length kept = 1%nat \/ fits m rs ->
  exists m' l' kept' lost, abort_step m (with_reqs b l1) kept = Ok (m', with_reqs b l', kept', lost) /\ kept = kept' ++ lost /\
    (forall j q, at_index l j q -> j ∈ back -> at_index l' j (retracted q)) /\
    ((lost = [] /\ ok m' rs /\ fits m' rs /\ picks l' kept rs /\ length l' = length l1) \/
     (kept' = [] /\ ok m' [] /\ exists i r m2, lost = [i] /\ rs = [r] /\
      at_index l' i (retracted (set_to_finish r (FINISH_ABORT abort_message))) /\
      evict_from_tree_cache gh chunk m (need [r]) = Ok m2 /\ ~ fits m2 [r])).
Proof.
  intros Hmk Hdis Hp Hne Hok Hend. pose proof (marks_kept _ _ _ _ _ Hmk Hdis Hp) as Hp1.
  assert (Hret : forall j q, at_index l j q -> j ∈ back -> at_index l1 j (retracted q)).
  { intros j q Hj Hb. pose proof (proj2 Hmk _ _ Hj) as Hx. by rewrite decide_True in Hx. }
  unfold abort_step. destruct (Z.leb_spec (zlen kept) 1) as [H1|H1].
  2: { exists m, l1, kept, []. rewrite app_nil_r. destruct Hend as [Hend|Hend]; [unfold zlen in H1; lia|]. split_and!; try done. by left. }
  destruct kept as [|i [|j kept]]; [done| |unfold zlen in H1; simpl in H1; lia].
  apply Forall2_cons_inv_l in Hp as (r & rs0 & Hi & Hnil & ->). apply Forall2_nil_inv_l in Hnil as ->.
  destruct (check_decode_mem_ok m (with_reqs b l1) [i] [r] Hp1 Hok) as (res & m2 & Ec & Hok2 & Eev & Hres).
  rewrite Ec. cbn [rbind]. destruct res; simpl negb; cbn iota.
  - exists m2, l1, [i], []. split_and!; try done. left. split_and!; try done. by apply Hres.
  - apply Forall2_cons_1 in Hp1 as [Hi1 _]. change (py_get [i] (-1)) with (@Ok Z i). cbn [rbind].
    change (b_reqs (with_reqs b l1)) with l1. rewrite (py_get_at _ _ _ Hi1). cbn [rbind].
    destruct (abort_last m2 (with_reqs b l1) l back i r Hmk (Hdis i ltac:(by left)) Hi Hok2) as (m3 & l3 & E3 & Hok3 & Hi3 & Hb3).
    cbv zeta in E3. simpl b_reqs in E3. rewrite E3. cbn [rbind]. exists m3, l3, [], [i]. split_and!; try done. right. split_and!; try done.
    exists i, r, m2. split_and!; try done. intros Hf. by apply Hres in Hf.
Qed.

(** Keeping as many indices as there are requests means a batch of one. *)
Lemma whole_batch n kept back : kept ++ rev back ≡ₚ seqZ 0 n -> length kept = Z.to_nat n -> (1 < n -> back <> []) -> 1 <= n ->
  kept = seqZ 0 n.
Proof.
  intros Hp Hl Hb Hn. pose proof (Permutation_length Hp) as Hlen. rewrite length_app, length_rev, length_seqZ in Hlen.
  destruct back as [|j back]; [|simpl in Hlen; lia]. assert (n = 1) as -> by (destruct (decide (1 < n)); [by destruct Hb|lia]).
  simpl in Hp. rewrite app_nil_r in Hp. change (seqZ 0 1) with [0] in *. by apply Permutation_singleton_r in Hp.
Qed.

(** Retraction as a whole. *)
Lemma retract_decode_ok m b :
  b_reqs b <> [] -> arrays_ok b -> running_ok mono gh m (b_reqs b) Hs others rows ->
  exists out ratio aborted m' b' kept back lost rs,
    retract_decode mono gh chunk page steps m b = Ok (out, ratio, aborted, m', b') /\
    kept ++ lost ++ rev back ≡ₚ seqZ 0 (zlen (b_reqs b)) /\
    StronglySorted (fun i j => forall r q, at_index (b_reqs b) i r -> at_index (b_reqs b) j q -> outranks r q) (kept ++ lost ++ rev back) /\
    picks (b_reqs b) kept (b_reqs b') /\ picks (b_reqs b) back rs /\ out = map retracted rs /\
    (1 < zlen (b_reqs b) -> back <> []) /\
    running_ok mono gh m' (b_reqs b') Hs others rows /\
    ((lost = [] /\ aborted = [] /\ kept <> [] /\
      (exists k, new_tokens_required_next_decode page b' None = Ok k /\ k <= kv_decode_available (allocator m')) /\
      picks (b_req_pool_indices b) kept (b_req_pool_indices b') /\ picks (b_seq_lens b) kept (b_seq_lens b') /\ arrays_ok b') \/
     (kept = [] /\ exists i r m1 m2, lost = [i] /\ at_index (b_reqs b) i r /\
      aborted = [retracted (set_to_finish r (FINISH_ABORT abort_message))] /\
      evict_from_tree_cache gh chunk m1 (need [r]) = Ok m2 /\ kv_decode_available (allocator m2) < need [r])).
Proof.
  intros Hne Har Hok. destruct (retract_order_spec b) as (order & Eo & Hpo & Hsort).
  assert (Hlo : length order = length (b_reqs b)) by (rewrite Hpo; unfold zlen; rewrite length_seqZ; lia).
  assert (Hnd : NoDup order) by (rewrite Hpo; apply NoDup_seqZ).
  assert (Hno : order <> []) by (intros ->; by destruct (b_reqs b)).
  destruct (picks_perm (b_reqs b) _ order (symmetry Hpo) _ (picks_all _)) as (ro & Hro & Hprm).
  destruct (retract_loop_ok (b_reqs b) (S (length order)) true m b order [] ro) as
    (m1 & l1 & kept & back & rs1 & E & Hsplit & Hk & Hmk & Hp1 & Hok1 & Hend & Hsome); try done;
    [intros i _; apply not_elem_of_nil|by rewrite <- Hprm|lia|].
  unfold retract_decode. rewrite Eo. cbn [rbind]. rewrite E. cbn [rbind]. simpl app in *.
  rewrite Hsplit in Hro. pose proof Hro as Hrb. apply Forall2_app_inv_l in Hrb as (rk & rb & Hrk & Hrb & ->).
  pose proof (picks_unique _ _ _ _ Hrk Hp1) as ->.
  destruct (picks_perm (b_reqs b) (rev back) back (symmetry (Permutation_rev back)) _ Hrb) as (rs & Hrs & _).
  assert (Hdis : forall i, i ∈ kept -> i ∉ back).
  { intros i H1 H2. rewrite Hsplit in Hnd. apply list.NoDup_app in Hnd as (_ & Hnd & _). apply (Hnd i H1). by rewrite <- Permutation_rev. }
  destruct (abort_step_ok (b_reqs b) m1 b l1 kept back rs1 Hmk Hdis Hp1 Hk Hok1 Hend)
    as (m2 & l2 & kept2 & lost & E2 & Hsp2 & Hret & Hcase).
  unfold abort_step in E2. rewrite E2. cbn [rbind]. clear E2.
  assert (Hg : gather (b_reqs (with_reqs b l2)) back = Ok (map retracted rs)).
  { apply gather_picks. by apply (picks_map retracted (b_reqs b)). }
  assert (Hlast : 1 < zlen (b_reqs b) -> back <> []) by (intros H1; apply Hsome; [done|unfold zlen in H1; lia]).
  rewrite Hsplit, Hsp2, <- app_assoc in Hsort, Hpo.
  destruct Hcase as [(-> & Hok2 & Hfit & Hp2 & Hl2)|(-> & Hok2 & i & r & m3 & -> & -> & Hi & Eev & Hnf)].
  - rewrite app_nil_r in Hsp2. subst kept2.
    destruct (filter_keep (with_reqs b l2) kept rs1) as (b' & Ef & Eb & F1 & F2 & Har' & _); try done.
    { destruct Har. split; simpl; rewrite Hl2, (proj1 Hmk); done. }
    { simpl. assert (El : zlen l2 = zlen (b_reqs b)) by (unfold zlen; by rewrite Hl2, (proj1 Hmk)).
      rewrite Hl2, (proj1 Hmk), El. intros Hlk. apply (whole_batch _ _ back); [exact Hpo|unfold zlen; lia|done|].
      unfold zlen. destruct (b_reqs b); [done|]. simpl length. lia. }
    rewrite Ef. cbn [rbind]. rewrite Hg. cbn [rbind]. eexists _, _, _, m2, b', kept, back, [], rs. rewrite Eb. split_and!; try done.
    left. split_and!; try done. exists (need rs1). split; [|done]. unfold new_tokens_required_next_decode. by rewrite Eb.
  - unfold filter_batch. simpl. simpl b_reqs in Hg. rewrite Hg. cbn [rbind].
    unfold gather. simpl. rewrite (py_get_at _ _ _ Hi). cbn [rbind]. eexists _, _, _, m2, _, [], back, [i], rs. split_and!; try done. { constructor. }
    right. split; [done|]. exists i, r, m1, m3. subst kept. apply Forall2_cons_1 in Hp1 as [Hi1 _]. split_and!; try done.
    unfold fits in Hnf. lia.
Qed.

(** C15: when decoding runs out of memory, [retract_decode] always returns.  The
    requests it keeps, aborts and retracts are the whole batch; a request is
    kept rather than retracted only if it has more output, or as much output and
    a prompt that is not longer; at least one request goes back to the queue
    when there are two.  What the others held is given back, the tree, the
    allocator and the table are consistent for the requests that stay, and their
    next decode step fits.  A request is aborted only when it is the last one
    and does not fit after eviction. *)
Theorem retract_decode_sound m b :
  b_reqs b <> [] -> arrays_ok b -> running_ok mono gh m (b_reqs b) Hs others rows ->
  exists out ratio aborted m' b' kept back lost rs,
    retract_decode mono gh chunk page steps m b = Ok (out, ratio, aborted, m', b') /\
    kept ++ lost ++ rev back ≡ₚ seqZ 0 (zlen (b_reqs b)) /\
    StronglySorted (fun i j => forall r q, at_index (b_reqs b) i r -> at_index (b_reqs b) j q -> outranks r q) (kept ++ lost ++ rev back) /\
    picks (b_reqs b) kept (b_reqs b') /\ picks (b_reqs b) back rs /\ out = map retracted rs /\
    (1 < zlen (b_reqs b) -> back <> []) /\
    running_ok mono gh m' (b_reqs b') Hs others rows /\
    ((lost = [] /\ aborted = [] /\ kept <> [] /\
      (exists k, new_tokens_required_next_decode page b' None = Ok k /\ k <= kv_decode_available (allocator m')) /\
      picks (b_req_pool_indices b) kept (b_req_pool_indices b') /\ picks (b_seq_lens b) kept (b_seq_lens b') /\ arrays_ok b') \/
     (kept = [] /\ exists i r m1 m2, lost = [i] /\ at_index (b_reqs b) i r /\
      aborted = [retracted (set_to_finish r (FINISH_ABORT abort_message))] /\
      evict_from_tree_cache gh chunk m1 (need [r]) = Ok m2 /\ kv_decode_available (allocator m2) < need [r])).
Proof. apply retract_decode_ok. Qed.
End retraction.

(** ** A concrete batch *)

(** Two running requests: the first shares three tokens with the tree, the
    second, which has the shorter prompt, shares none. *)
Definition second : Req := sample_req (Some 1) [5; 6] (Some 0%nat) 0.
Definition pair_mem : Mem BaseAllocator :=
  with_pool sample_mem {| pool_size := 2; max_context_len := 12; req_to_token := [sample_row; [15; 16] ++ replicate 10 0]; free_slots := [] |}.
Definition pair_batch : DecodeBatch :=
  {| b_reqs := [sample; second]; b_req_pool_indices := [0; 1]; b_seq_lens := [4; 2]; b_orig_seq_lens := [4; 2];
     b_seq_lens_sum := 6; b_output_ids := Some [9; 9]; b_out_cache_loc := None; b_return_logprob := false |}.

Lemma demo_reach_root : rreach RadixProps.clock RadixProps.no_hash RadixProps.demo [1%nat; 0%nat].
Proof.
  eapply rreach_perm; [|apply perm_swap].
  eapply (rreach_inc _ _ RadixProps.demo [1%nat] 0 [] [] 0 RadixProps.demo); [exact RadixProps.demo_reach|constructor|].
  vm_compute. reflexivity.
Qed.

Lemma pair_running : running_ok RadixProps.clock RadixProps.no_hash pair_mem (b_reqs pair_batch) [] (seqZ 17 7) [].
Proof.
  split.
  - exact demo_reach_root.
  - apply (bool_decide_unpack (_ ≡ₚ _)). vm_compute. done.
  - apply (bool_decide_unpack (_ ≡ₚ _)). vm_compute. done.
  - constructor; [|constructor; [|constructor]].
    + split; [|reflexivity..|vm_compute; discriminate]. destruct sample_holds as [H1 H2 H3 H4]. split; [reflexivity|exact H2|reflexivity|exact H4].
    + split; [|reflexivity..|vm_compute; discriminate]. split; [reflexivity|vm_compute; discriminate|reflexivity|].
      assert (Er : root_node RadixProps.demo = 0%nat) by (vm_compute; reflexivity). split.
      * vm_compute. split; discriminate.
      * reflexivity.
      * change (reach RadixProps.demo (root_node RadixProps.demo) 0 [] []). rewrite Er. constructor.
      * intros Hp. exfalso. vm_compute in Hp. discriminate Hp.
  - split; reflexivity.
Qed.

Lemma retract_decode_sound_witness : exists out ratio aborted m' b',
  retract_decode RadixProps.clock RadixProps.no_hash false 1 20 pair_mem pair_batch = Ok (out, ratio, aborted, m', b') /\
  out = [retracted sample] /\ b_reqs b' = [second] /\ aborted = [] /\
  running_ok RadixProps.clock RadixProps.no_hash m' (b_reqs b') [] (seqZ 17 7) [].
Proof.
  destruct (retract_decode_sound RadixProps.clock RadixProps.no_hash false 1 20 [] (seqZ 17 7) [] pair_mem pair_batch)
    as (out & ratio & aborted & m' & b' & kept & back & lost & rs & E & _ & _ & _ & _ & _ & _ & Hok & _).
  - done.
  - split; try done. intros o Ho. by injection Ho as <-.
  - exact pair_running.
  - exists out, ratio, aborted, m', b'. split; [exact E|]. clear - E Hok.
    revert Hok. vm_compute in E. injection E as <- <- <- <- <-. intros Hok. split_and!; try reflexivity. exact Hok.
Defined.
