(* ===== verification/PrefillDelayer.v ===== *)
(** * The prefill delayer

    Models [srt/managers/prefill_delayer.py]: before a prefill the ranks of a
    data-parallel group exchange whether they have work and decide together
    whether to wait for each other.  [torch.distributed] is a parameter
    [all_gather]: it takes the tensor of this rank, returns the rows of all ranks
    in rank order and may change the world [W] it runs in.  Clock readings are
    arguments. *)

From S2P Require Import Prelude Tensors Floats.

Record State := { delayed_count : Z; start_time : Z }.

Definition bump_delayed_count (s : State) : State := {| delayed_count := delayed_count s + 1; start_time := start_time s |}.

Inductive Prefillable := st_all | st_none | st_mixed.

Record NegotiateOutput := {
  next_state : option State;
  input_estimation : Prefillable;
  output_allow : bool;
  output_reason : string;
  num_prefillable : Z;
  num_token_watermark_force_allow : Z
}.

(** The server arguments the delayer reads. *)
Record DelayerArgs := {
  arg_enable_dp_attention : bool;
  disaggregation_null : bool;
  disable_overlap_schedule : bool
}.

Record PrefillDelayer := {
  max_delay_passes : Z;
  token_usage_low_watermark : option f64;
  dp_size : Z;
  attn_tp_size : Z;
  enable_dp_attention : bool;
  curr_state : option State;
  skip_first_delayer : bool
}.

(** The optional keyword arguments; a missing one counts as 0. *)
Record Kwargs := { running_bs : Z; max_prefill_bs : Z; max_running_requests : Z }.
Definition no_kwargs : Kwargs := {| running_bs := 0; max_prefill_bs := 0; max_running_requests := 0 |}.

Definition delayer_init (dp tp : Z) (args : DelayerArgs) (passes : Z) (watermark : option f64) : result PrefillDelayer :=
  let! _ := rassert (disaggregation_null args) in
  let! _ := rassert (negb (disable_overlap_schedule args)) in
  Ok {| max_delay_passes := passes; token_usage_low_watermark := watermark; dp_size := dp; attn_tp_size := tp;
        enable_dp_attention := arg_enable_dp_attention args; curr_state := None; skip_first_delayer := true |}.

Definition set_curr_state (d : PrefillDelayer) (s : option State) : PrefillDelayer :=
  {| max_delay_passes := max_delay_passes d; token_usage_low_watermark := token_usage_low_watermark d; dp_size := dp_size d;
     attn_tp_size := attn_tp_size d; enable_dp_attention := enable_dp_attention d; curr_state := s;
     skip_first_delayer := skip_first_delayer d |}.

Definition clear_skip (d : PrefillDelayer) : PrefillDelayer :=
  {| max_delay_passes := max_delay_passes d; token_usage_low_watermark := token_usage_low_watermark d; dp_size := dp_size d;
     attn_tp_size := attn_tp_size d; enable_dp_attention := enable_dp_attention d; curr_state := curr_state d;
     skip_first_delayer := false |}.

(** [t.max().item()] and [t.min().item()]: an empty tensor has neither. *)
Definition tensor_max (l : list Z) : result Z := match l with [] => Err RuntimeError | x :: xs => Ok (foldl Z.max x xs) end.
Definition tensor_min (l : list Z) : result Z := match l with [] => Err RuntimeError | x :: xs => Ok (foldl Z.min x xs) end.

Definition dp_size_dim (d : PrefillDelayer) : Z := if enable_dp_attention d then dp_size d else 1.

(** Rows of the first rank of every attention group: [buffer[:, 0, :]]. *)
Definition tp0_rows (d : PrefillDelayer) (buffer : list (list Z)) : list (list Z) :=
  map (fun i => buffer !!! Z.to_nat (i * attn_tp_size d)) (seqZ 0 (dp_size_dim d)).

Definition column (rows : list (list Z)) (c : Z) : list Z := map (fun row => tget row c) rows.

Definition local_token_watermark_force_allow (d : PrefillDelayer) (local_prefillable : bool) (token_usage : f64) : bool :=
  local_prefillable && match token_usage_low_watermark d with Some x => SFltb token_usage x | None => false end.

(** The row this rank contributes. *)
Definition local_info (d : PrefillDelayer) (local_prefillable : bool) (token_usage : f64) (kw : Kwargs) : list Z :=
  [b2z local_prefillable; b2z (local_token_watermark_force_allow d local_prefillable token_usage); running_bs kw; max_prefill_bs kw].

Definition prefillable_status (prefillable : list Z) : result Prefillable :=
  let! lo := tensor_min prefillable in
  if 0 <? lo then Ok st_all
  else let! hi := tensor_max prefillable in
       if hi =? 0 then Ok st_none else Ok st_mixed.

(** Whether the running batches leave less room than a prefill batch takes. *)
Definition little_room (d : PrefillDelayer) (rows : list (list Z)) (kw : Kwargs) : result bool :=
  let limit := if enable_dp_attention d then max_running_requests kw
               else (max_running_requests kw + dp_size d - 1) / dp_size d in
  let! running := tensor_max (column rows 2) in
  let! bs := tensor_max (column rows 3) in
  Ok (limit - running <? bs).

Definition bumped (prev : option State) (now : Z) : State :=
  bump_delayed_count (default {| delayed_count := 0; start_time := now |} prev).

(** [_negotiate_should_allow_prefill_pure] on the gathered rows; the delayer
    returned differs in [skip_first_delayer] only. *)
Definition negotiate_pure (d : PrefillDelayer) (prev : option State) (buffer : list (list Z)) (kw : Kwargs) (now : Z)
  : result (NegotiateOutput * PrefillDelayer) :=
  let rows := tp0_rows d buffer in
  let prefillable := column rows 0 in
  let force := column rows 1 in
  let! status := prefillable_status prefillable in
  let! max_force := tensor_max force in
  let out next allow reason :=
    {| next_state := next; input_estimation := status; output_allow := allow; output_reason := reason;
       num_prefillable := zsum prefillable; num_token_watermark_force_allow := zsum force |} in
  let success := match prev with Some _ => "wait_success"%string | None => "no_wait"%string end in
  match status with
  | st_all =>
      let! short := little_room d rows kw in
      if short then
        if skip_first_delayer d then Ok (out None true success, clear_skip d)
        else Ok (out (Some (bumped prev now)) false "delay"%string, d)
      else Ok (out None true success, d)
  | st_none => Ok (out None true ""%string, d)
  | st_mixed =>
      if 0 <? max_force then Ok (out None true "token_watermark"%string, d)
      else
        let prev_delayed_count := match prev with Some s => delayed_count s | None => 0 end in
        if prev_delayed_count <? max_delay_passes d - 1
        then Ok (out (Some (bumped prev now)) false "delay"%string, d)
        else Ok (out None true "wait_timeout"%string, d)
  end.

Section world.
Context {W : Type} (all_gather : W -> list Z -> list (list Z) * W).

(** [_negotiate_should_allow_prefill] *)
Definition negotiate (w : W) (d : PrefillDelayer) (local_prefillable : bool) (token_usage : f64) (kw : Kwargs) (now : Z)
  : result (NegotiateOutput * PrefillDelayer * W) :=
  let (buffer, w1) := all_gather w (local_info d local_prefillable token_usage kw) in
  let! (out, d1) := negotiate_pure d (curr_state d) buffer kw now in
  Ok (out, set_curr_state d1 (next_state out), w1).

(** ** One scheduling pass *)

Record SinglePassExecutor := {
  prefill_delayer : PrefillDelayer;
  token_usage : f64;
  pass_result : option NegotiateOutput
}.

Definition executor_init (d : PrefillDelayer) (usage : f64) : SinglePassExecutor :=
  {| prefill_delayer := d; token_usage := usage; pass_result := None |}.

(** [negotiate_should_allow_prefill]: negotiates at most once. *)
Definition negotiate_should_allow_prefill (w : W) (e : SinglePassExecutor) (local_prefillable : bool) (kw : Kwargs) (now : Z)
  : result (bool * SinglePassExecutor * W) :=
  match pass_result e with
  | Some out => Ok (output_allow out, e, w)
  | None =>
      let! (out, d, w1) := negotiate w (prefill_delayer e) local_prefillable (token_usage e) kw now in
      Ok (output_allow out, {| prefill_delayer := d; token_usage := token_usage e; pass_result := Some out |}, w1)
  end.

(** What a pass reports to the metrics. *)
Record Outcome := {
  forward_passes : Z;
  wait_seconds : Z;
  oc_estimation : Prefillable;
  oc_allow : bool;
  oc_reason : string;
  actual_execution : bool
}.

(** [_record_single_pass_result]; [debug] is the debug log. *)
Definition record_single_pass_result (debug actual : bool) (out : NegotiateOutput) (now : Z) : result Outcome :=
  let known := existsb (String.eqb (output_reason out)) [""; "wait_success"; "no_wait"; "delay"]%string in
  let! _ := if debug then
              if output_allow out && String.eqb (output_reason out) "wait_timeout" then Ok tt
              else if output_allow out && String.eqb (output_reason out) "token_watermark" then Ok tt
              else rassert known
            else Ok tt in
  let '(passes, seconds) := match next_state out with
                            | Some s => (delayed_count s, now - start_time s)
                            | None => (0, 0)
                            end in
  Ok {| forward_passes := passes; wait_seconds := seconds; oc_estimation := input_estimation out;
        oc_allow := output_allow out; oc_reason := output_reason out; actual_execution := actual |}.

Definition finalize (debug : bool) (w : W) (e : SinglePassExecutor) (actual_prefill : bool) (now : Z)
  : result (Outcome * SinglePassExecutor * W) :=
  let! (e1, w1) := match pass_result e with
                   | Some _ => Ok (e, w)
                   | None => let! (_, e1, w1) := negotiate_should_allow_prefill w e false no_kwargs now in Ok (e1, w1)
                   end in
  match pass_result e1 with
  | Some out => let! oc := record_single_pass_result debug actual_prefill out now in Ok (oc, e1, w1)
  | None => Err AttributeError
  end.

(** A pass: the calls of the admission, each with its time, then [finalize]. *)
Fixpoint pass_calls (w : W) (e : SinglePassExecutor) (calls : list (bool * Kwargs * Z))
  : result (list bool * SinglePassExecutor * W) :=
  match calls with
  | [] => Ok ([], e, w)
  | (prefillable, kw, now) :: rest =>
      let! (b, e1, w1) := negotiate_should_allow_prefill w e prefillable kw now in
      let! (bs, e2, w2) := pass_calls w1 e1 rest in
      Ok (b :: bs, e2, w2)
  end.
End world.
