(* ===== verification/PrefillDelayerProps.v ===== *)
(** * What the prefill delayer guarantees

    Ranks that start alike decide alike, a pass takes part in exactly one
    exchange, and a prefill that some ranks are ready for is not put off for
    more than the configured number of passes. *)

From S2P Require Import Prelude Tensors Floats PrefillDelayer.

(** ** The negotiation is defined *)

Lemma tensor_max_ok l : l <> [] -> exists x, tensor_max l = Ok x.
Proof. destruct l; [done|]. by eexists. Qed.

Lemma tensor_min_ok l : l <> [] -> exists x, tensor_min l = Ok x.
Proof. destruct l; [done|]. by eexists. Qed.

Lemma column_ne d buffer c : 1 <= dp_size_dim d -> column (tp0_rows d buffer) c <> [].
Proof.
  intros Hd E. apply (f_equal length) in E. unfold column, tp0_rows in E. rewrite !length_map, length_seqZ in E. simpl in E. lia.
Qed.

Lemma status_ok l : l <> [] -> exists s, prefillable_status l = Ok s.
Proof.
  intros Hl. unfold prefillable_status. destruct (tensor_min_ok l Hl) as [lo ->]. cbn [rbind]. destruct (0 <? lo); [by eexists|].
  destruct (tensor_max_ok l Hl) as [hi ->]. cbn [rbind]. destruct (hi =? 0); by eexists.
Qed.

Lemma little_room_ok d buffer kw : 1 <= dp_size_dim d -> exists b, little_room d (tp0_rows d buffer) kw = Ok b.
Proof.
  intros Hd. unfold little_room. destruct (tensor_max_ok _ (column_ne d buffer 2 Hd)) as [x ->]. cbn [rbind].
  destruct (tensor_max_ok _ (column_ne d buffer 3 Hd)) as [y ->]. cbn [rbind]. by eexists.
Qed.

(** The fields that negotiation does not change. *)
Definition same_config (d d' : PrefillDelayer) : Prop :=
  max_delay_passes d' = max_delay_passes d /\ dp_size d' = dp_size d /\ attn_tp_size d' = attn_tp_size d /\
  enable_dp_attention d' = enable_dp_attention d.

#[global] Instance same_config_equiv : Equivalence same_config.
Proof. split; [done|intros a b (?&?&?&?); done|]. intros a b c (?&?&?&?) (?&?&?&?). split_and!; congruence. Qed.

Definition known_reason (o : NegotiateOutput) : Prop :=
  (output_allow o = true /\ (output_reason o = "wait_timeout" \/ output_reason o = "token_watermark")%string) \/
  existsb (String.eqb (output_reason o)) [""; "wait_success"; "no_wait"; "delay"]%string = true.

Lemma negotiate_pure_ok d prev buffer kw now : 1 <= dp_size_dim d ->
  exists out d', negotiate_pure d prev buffer kw now = Ok (out, d') /\ same_config d d' /\ known_reason out /\
    prefillable_status (column (tp0_rows d buffer) 0) = Ok (input_estimation out) /\
    (output_allow out = true -> next_state out = None).
Proof.
  intros Hd. unfold negotiate_pure. destruct (status_ok _ (column_ne d buffer 0 Hd)) as [s Es]. rewrite Es. cbn [rbind].
  destruct (tensor_max_ok _ (column_ne d buffer 1 Hd)) as [f ->]. cbn [rbind].
  destruct (little_room_ok d buffer kw Hd) as [b Eb]. unfold known_reason.
  destruct s; [rewrite Eb; cbn [rbind]; destruct b; [destruct (skip_first_delayer d)|]| |destruct (0 <? f); [|destruct (_ <? _)]];
    (eexists _, _; split; [done|]; split; [done|]; split; [|by split]); simpl; first [by left; auto|by right; destruct prev|by right].
Qed.

(** ** Bounded waiting *)

Definition count_of (d : PrefillDelayer) : Z := match curr_state d with Some s => delayed_count s | None => 0 end.

(** One negotiation of this rank, on the rows [all_gather] returned. *)
Definition negotiate_step (d : PrefillDelayer) (s : list (list Z) * Kwargs * Z) : result (NegotiateOutput * PrefillDelayer) :=
  let '(buffer, kw, now) := s in
  let! (out, d1) := negotiate_pure d (curr_state d) buffer kw now in
  Ok (out, set_curr_state d1 (next_state out)).

Fixpoint negotiate_run (d : PrefillDelayer) (steps : list (list (list Z) * Kwargs * Z)) : result (list NegotiateOutput * PrefillDelayer) :=
  match steps with
  | [] => Ok ([], d)
  | s :: rest =>
      let! (out, d1) := negotiate_step d s in
      let! (outs, d2) := negotiate_run d1 rest in
      Ok (out :: outs, d2)
  end.

Lemma negotiate_step_ok d s : 1 <= dp_size_dim d ->
  exists out d', negotiate_step d s = Ok (out, d') /\ same_config d d' /\ 1 <= dp_size_dim d' /\ curr_state d' = next_state out.
Proof.
  destruct s as [[buffer kw] now]. intros Hd. destruct (negotiate_pure_ok d (curr_state d) buffer kw now Hd) as (out & d1 & E & Hc & _).
  unfold negotiate_step. rewrite E. cbn [rbind]. eexists _, _. split; [done|]. split; [exact Hc|]. split; [|done].
  destruct Hc as (_ & E2 & _ & E4). unfold dp_size_dim in *. simpl. by rewrite E4, E2.
Qed.

Lemma negotiate_run_ok d steps : 1 <= dp_size_dim d -> exists outs d', negotiate_run d steps = Ok (outs, d').
Proof.
  revert d. induction steps as [|s steps IH]; intros d Hd; [by eexists _, _|]. simpl.
  destruct (negotiate_step_ok d s Hd) as (out & d1 & E & _ & Hd1 & _). rewrite E. cbn [rbind].
  destruct (IH d1 Hd1) as (outs & d2 & E2). rewrite E2. cbn [rbind]. by eexists _, _.
Qed.

Definition is_mixed (d : PrefillDelayer) (s : list (list Z) * Kwargs * Z) : Prop :=
  prefillable_status (column (tp0_rows d (fst (fst s))) 0) = Ok st_mixed.

Lemma is_mixed_config d d' s : same_config d d' -> is_mixed d s -> is_mixed d' s.
Proof. intros (_ & E2 & E3 & E4). unfold is_mixed, tp0_rows, dp_size_dim. by rewrite E2, E3, E4. Qed.

(** In the mixed state a delay counts one more pass and happens only below the limit. *)
Lemma mixed_step d s out d' : negotiate_step d s = Ok (out, d') -> is_mixed d s ->
  output_allow out = true \/ (count_of d < max_delay_passes d - 1 /\ count_of d' = count_of d + 1).
Proof.
  destruct s as [[buffer kw] now]. unfold negotiate_step, is_mixed, negotiate_pure, count_of. simpl fst. intros E Hm.
  rewrite Hm in E. cbn [rbind] in E. destruct (tensor_max _) as [f|]; [|done]. cbn [rbind] in E.
  destruct (0 <? f); [injection E as <- <-; by left|].
  destruct (Z.ltb_spec (match curr_state d with Some s => delayed_count s | None => 0 end) (max_delay_passes d - 1)).
  - injection E as <- <-. right. simpl. destruct (curr_state d); simpl; lia.
  - injection E as <- <-. by left.
Qed.

Lemma some_allowed d steps : 1 <= dp_size_dim d -> Forall (is_mixed d) steps -> steps <> [] ->
  max_delay_passes d - count_of d <= zlen steps ->
  exists outs d', negotiate_run d steps = Ok (outs, d') /\ exists o, o ∈ outs /\ output_allow o = true.
Proof.
  revert d. induction steps as [|s steps IH]; intros d Hd Hm Hne Hlen; [done|]. simpl. apply list.Forall_cons in Hm as [Hs Hm].
  destruct (negotiate_step_ok d s Hd) as (out & d1 & E & Hc & Hd1 & _). rewrite E. cbn [rbind].
  destruct (mixed_step _ _ _ _ E Hs) as [Ha|[H1 H2]].
  - destruct (negotiate_run_ok d1 steps Hd1) as (outs & d2 & E2). rewrite E2. cbn [rbind]. eexists _, _. split; [done|].
    exists out. split; [by left|done].
  - rewrite zlen_cons in Hlen. destruct (IH d1) as (outs & d2 & E2 & o & Ho & Ha); [done| | | |].
    + eapply list.Forall_impl; [exact Hm|]. intros x. by apply is_mixed_config.
    + intros ->. change (zlen (@nil (list (list Z) * Kwargs * Z))) with 0 in Hlen. lia.
    + rewrite H2, (proj1 Hc). lia.
    + rewrite E2. cbn [rbind]. eexists _, _. split; [done|]. exists o. split; [by right|done].
Qed.

(** States of a delayer after any negotiations. *)
Inductive dreach : PrefillDelayer -> Prop :=
  | dreach_init dp tp args passes watermark d :
      1 <= dp -> delayer_init dp tp args passes watermark = Ok d -> dreach d
  | dreach_step d s out d' : dreach d -> negotiate_step d s = Ok (out, d') -> dreach d'.

Lemma dreach_inv d : dreach d -> 1 <= dp_size_dim d /\ 0 <= count_of d.
Proof.
  induction 1 as [dp tp args passes wm d Hdp E|d [[buffer kw] now] out d' _ [IH1 IH2] E].
  - unfold delayer_init in E. destruct (disaggregation_null args); [|done]. destruct (disable_overlap_schedule args); [done|].
    injection E as <-. unfold dp_size_dim, count_of. simpl. destruct (arg_enable_dp_attention args); lia.
  - destruct (negotiate_step_ok d (buffer, kw, now) IH1) as (out' & d1 & E' & _ & Hd1 & Hcs). rewrite E in E'. injection E' as <- <-.
    split; [done|]. unfold count_of. rewrite Hcs. unfold negotiate_step, negotiate_pure in E.
    destruct (prefillable_status _) as [s|]; [|done]. destruct (tensor_max _) as [f|]; [|done]. cbn [rbind] in E.
    unfold count_of in IH2. assert (Hb : 0 <= delayed_count (bumped (curr_state d) now)) by (destruct (curr_state d); simpl in *; lia).
    destruct s; [destruct (little_room _ _ _) as [b|]; [|done]; cbn [rbind] in E; destruct b; [destruct (skip_first_delayer d)|]| |
      destruct (0 <? f); [|destruct (_ <? _)]]; by injection E as <- _.
Qed.

(** C33: a prefill that some ranks are ready for is delayed for a bounded time:
    whatever happened before, of [max_delay_passes] consecutive passes in which
    some ranks but not all are ready at least one allows the prefill. *)
Theorem delayer_bounded_wait d steps :
  dreach d -> Forall (is_mixed d) steps -> Z.max 1 (max_delay_passes d) <= zlen steps ->
  exists outs d', negotiate_run d steps = Ok (outs, d') /\ exists o, o ∈ outs /\ output_allow o = true.
Proof.
  intros Hd Hm Hl. destruct (dreach_inv _ Hd) as [H1 H2]. apply some_allowed; [done|done| |lia].
  intros ->. change (zlen (@nil (list (list Z) * Kwargs * Z))) with 0 in Hl. lia.
Qed.

(** ** Agreement of the ranks *)

(** Delayers of different ranks: equal but for the clock and the watermark. *)
Definition alike (d d' : PrefillDelayer) : Prop :=
  same_config d d' /\ skip_first_delayer d' = skip_first_delayer d /\
  option_map delayed_count (curr_state d') = option_map delayed_count (curr_state d).

(** The same decision, reason and number of delayed passes. *)
Definition same_decision (o o' : NegotiateOutput) : Prop :=
  output_allow o' = output_allow o /\ output_reason o' = output_reason o /\ input_estimation o' = input_estimation o /\
  option_map delayed_count (next_state o') = option_map delayed_count (next_state o).

Lemma bumped_count p p' now now' : option_map delayed_count p = option_map delayed_count p' ->
  delayed_count (bumped p now) = delayed_count (bumped p' now').
Proof. destruct p, p'; simpl; congruence. Qed.

Lemma alike_step d d' buffer kw kw' now now' out d1 :
  alike d d' -> negotiate_step d (buffer, kw, now) = Ok (out, d1) ->
  (input_estimation out = st_all -> max_running_requests kw' = max_running_requests kw) ->
  exists out' d1', negotiate_step d' (buffer, kw', now') = Ok (out', d1') /\ same_decision out out' /\ alike d1 d1'.
Proof.
  intros ((E1 & E2 & E3 & E4) & Es & Ec) E Hall. unfold negotiate_step, negotiate_pure in *.
  assert (Er : tp0_rows d' buffer = tp0_rows d buffer) by (unfold tp0_rows, dp_size_dim; by rewrite E2, E3, E4). rewrite Er.
  destruct (prefillable_status _) as [s|] eqn:Est; [|done]. cbn [rbind] in *. destruct (tensor_max _) as [f|]; [|done]. cbn [rbind] in *.
  pose proof (bumped_count _ _ now' now Ec) as Eb.
  assert (Elr : s = st_all -> little_room d' (tp0_rows d buffer) kw' = little_room d (tp0_rows d buffer) kw).
  { intros ->. unfold little_room. rewrite Hall, E2, E4; [done|]. destruct (little_room d _ kw) as [b|]; [|done]. cbn [rbind] in E.
    destruct b; [destruct (skip_first_delayer d)|]; by injection E as <- _. }
  assert (Hsuc : match curr_state d' with Some _ => "wait_success"%string | None => "no_wait"%string end =
                 match curr_state d with Some _ => "wait_success"%string | None => "no_wait"%string end) by (by destruct (curr_state d), (curr_state d')).
  destruct s.
  - rewrite (Elr eq_refl), Hsuc. destruct (little_room d _ kw) as [b|]; [|done]. cbn [rbind] in *. rewrite Es.
    destruct b; [destruct (skip_first_delayer d) eqn:Esk|]; injection E as <- <-; eexists _, _; (split; [done|]); unfold same_decision, alike; split_and!; first [done|exact (f_equal Some Eb)|simpl; congruence].
  - injection E as <- <-. eexists _, _. split; [done|]. unfold same_decision, alike. by split_and!.
  - replace (match curr_state d' with Some s => delayed_count s | None => 0 end) with (match curr_state d with Some s => delayed_count s | None => 0 end)
      by (destruct (curr_state d), (curr_state d'); simpl in *; congruence). rewrite E1.
    destruct (0 <? f); [|destruct (_ <? _)]; injection E as <- <-; eexists _, _; (split; [done|]); unfold same_decision, alike; split_and!; first [done|exact (f_equal Some Eb)|simpl; congruence].
Qed.

Lemma rmap_ext {B C} (f g : B -> result C) l : (forall x, f x = g x) -> rmap f l = rmap g l.
Proof. intros Hf. induction l as [|x l IH]; [done|]. simpl. by rewrite Hf, IH. Qed.

(** ** A pass of all ranks *)

(** What a rank brings to a pass: whether it has a prefill, its memory use, its
    arguments and its clock. *)
Record Local := { lo_prefillable : bool; lo_usage : f64; lo_kw : Kwargs; lo_now : Z }.

(** The exchange: every rank contributes its row and receives all rows. *)
Definition exchange (ds : list PrefillDelayer) (ls : list Local) : list (list Z) :=
  zip_with (fun d l => local_info d (lo_prefillable l) (lo_usage l) (lo_kw l)) ds ls.

(** Every rank negotiates with the rows of the exchange. *)
Definition round (ds : list PrefillDelayer) (ls : list Local) : result (list (NegotiateOutput * PrefillDelayer)) :=
  let rows := exchange ds ls in
  rmap (fun p => let! (out, d, _) := negotiate (fun (w : unit) _ => (rows, w)) tt (fst p) (lo_prefillable (snd p)) (lo_usage (snd p)) (lo_kw (snd p)) (lo_now (snd p)) in Ok (out, d))
    (zip ds ls).

Lemma negotiate_as_step {W} (w : W) rows d l :
  (let! (out, d1, _) := negotiate (fun (w : W) _ => (rows, w)) w d (lo_prefillable l) (lo_usage l) (lo_kw l) (lo_now l) in Ok (out, d1))
  = negotiate_step d (rows, lo_kw l, lo_now l).
Proof.
  unfold negotiate, negotiate_step. destruct (negotiate_pure _ _ _ _ _) as [[out d1]|]; done.
Qed.

(** Passes one after the other: the decisions of every pass and the delayers at
    the end. *)
Fixpoint rounds (ds : list PrefillDelayer) (lss : list (list Local)) : result (list (list NegotiateOutput) * list PrefillDelayer) :=
  match lss with
  | [] => Ok ([], ds)
  | ls :: rest =>
      let! outs := round ds ls in
      let! (outss, ds') := rounds (map snd outs) rest in
      Ok (map fst outs :: outss, ds')
  end.

(** The inputs of a pass: one per rank, the ranks of an attention group agree on
    whether they have a prefill, and the ranks that have one pass the same limit
    on running requests. *)
Record inputs_ok (tp limit n : Z) (ls : list Local) : Prop := {
  io_len : zlen ls = n;
  io_group : forall k l g, 0 <= k -> ls !! Z.to_nat k = Some l -> ls !! Z.to_nat (k / tp * tp) = Some g -> lo_prefillable l = lo_prefillable g;
  io_limit : forall l, l ∈ ls -> lo_prefillable l = true -> max_running_requests (lo_kw l) = limit
}.

Lemma foldl_min_le l : forall a x, x = a \/ x ∈ l -> foldl Z.min a l <= x.
Proof.
  induction l as [|y l IH]; intros a x Hx; simpl.
  - destruct Hx as [->|Hx]; [lia|by apply not_elem_of_nil in Hx].
  - destruct Hx as [->|[->|Hx]%elem_of_cons].
    + pose proof (IH (Z.min a y) (Z.min a y) ltac:(by left)). lia.
    + pose proof (IH (Z.min a y) (Z.min a y) ltac:(by left)). lia.
    + apply IH. by right.
Qed.

Lemma status_all l x : prefillable_status l = Ok st_all -> x ∈ l -> 0 < x.
Proof.
  unfold prefillable_status. destruct l as [|y l]; [done|]. simpl. intros E Hx. pose proof (foldl_min_le l y x) as Hle.
  destruct (Z.ltb_spec 0 (foldl Z.min y l)); [|by destruct (_ =? 0)]. apply elem_of_cons in Hx. specialize (Hle Hx). lia.
Qed.

(** When the first ranks of all groups have a prefill, every rank has one. *)
Lemma all_prefillable d0 ds ls limit k l :
  1 <= attn_tp_size d0 -> 1 <= dp_size_dim d0 -> zlen ds = dp_size_dim d0 * attn_tp_size d0 ->
  inputs_ok (attn_tp_size d0) limit (zlen ds) ls ->
  prefillable_status (column (tp0_rows d0 (exchange ds ls)) 0) = Ok st_all -> ls !! k = Some l -> lo_prefillable l = true.
Proof.
  intros Htp Hdim Hds [L1 L2 L3] Hst Hl. set (tp := attn_tp_size d0) in *. pose proof (lookup_lt_Some _ _ _ Hl) as Hk.
  assert (Hk' : 0 <= Z.of_nat k < dp_size_dim d0 * tp) by (unfold zlen in *; lia).
  set (i := Z.of_nat k / tp). assert (Hi : 0 <= i < dp_size_dim d0).
  { split; [by apply Z.div_pos; lia|]. apply Z.div_lt_upper_bound; lia. }
  pose proof (Z.mul_div_le (Z.of_nat k) tp ltac:(lia)) as Hle. fold i in Hle.
  assert (Hg : exists g, ls !! Z.to_nat (i * tp) = Some g) by (apply lookup_lt_is_Some_2; lia).
  assert (Hd : exists d, ds !! Z.to_nat (i * tp) = Some d) by (apply lookup_lt_is_Some_2; unfold zlen in *; lia).
  destruct Hg as [g Hg], Hd as [d Hd]. rewrite (L2 (Z.of_nat k) l g); [|lia|by rewrite Nat2Z.id|by fold i].
  assert (Hin : b2z (lo_prefillable g) ∈ column (tp0_rows d0 (exchange ds ls)) 0).
  { apply list_elem_of_fmap. exists (local_info d (lo_prefillable g) (lo_usage g) (lo_kw g)). split; [done|].
    apply list_elem_of_fmap. exists i. split; [|apply elem_of_seqZ; lia]. fold tp. symmetry. apply list_lookup_total_correct.
    unfold exchange. by rewrite lookup_zip_with, Hd, Hg. }
  pose proof (status_all _ _ Hst Hin) as Hp. by destruct (lo_prefillable g).
Qed.

(** With the same rows every rank decides like the reference [d0]. *)
Lemma round_rows rows d0 kw now o d1 ds ls :
  negotiate_step d0 (rows, kw, now) = Ok (o, d1) -> Forall (alike d0) ds -> zlen ls = zlen ds ->
  (input_estimation o = st_all -> Forall (fun l => max_running_requests (lo_kw l) = max_running_requests kw) ls) ->
  exists outs, rmap (fun p => negotiate_step (fst p) (rows, lo_kw (snd p), lo_now (snd p))) (zip ds ls) = Ok outs /\
    Forall (fun p => same_decision o (fst p) /\ alike d1 (snd p)) outs /\ zlen outs = zlen ds.
Proof.
  intros E. revert ls. induction ds as [|d ds IH]; intros [|l ls] Hal Hlen Hlim; try (unfold zlen in Hlen; simpl in Hlen; lia).
  { by exists []. }
  apply list.Forall_cons in Hal as [Hd Hal]. rewrite !zlen_cons in Hlen.
  destruct (alike_step _ _ _ _ (lo_kw l) _ (lo_now l) _ _ Hd E) as (out & d' & Es & Ho & Ha).
  { intros Hs. specialize (Hlim Hs). by apply list.Forall_cons in Hlim as [-> _]. }
  destruct (IH ls Hal) as (outs & Er & Hf & Hl); [lia|intros Hs; specialize (Hlim Hs); by apply list.Forall_cons in Hlim as [_ ?]|].
  exists ((out, d') :: outs). cbn [zip zip_with rmap fst snd]. rewrite Es. cbn [rbind].
  change (zip_with pair ds ls) with (zip ds ls). rewrite Er. cbn [rbind]. rewrite !zlen_cons, Hl.
  split; [done|]. split; [by constructor|done].
Qed.

Lemma round_agree d0 ds ls limit :
  1 <= attn_tp_size d0 -> 1 <= dp_size_dim d0 -> zlen ds = dp_size_dim d0 * attn_tp_size d0 ->
  Forall (alike d0) ds -> inputs_ok (attn_tp_size d0) limit (zlen ds) ls ->
  exists outs o d1, round ds ls = Ok outs /\ Forall (fun p => same_decision o (fst p) /\ alike d1 (snd p)) outs /\
    same_config d0 d1 /\ zlen outs = zlen ds.
Proof.
  intros Htp Hdim Hds Hal Hin. set (kw := {| running_bs := 0; max_prefill_bs := 0; max_running_requests := limit |}).
  destruct (negotiate_step_ok d0 (exchange ds ls, kw, 0) Hdim) as (o & d1 & E & Hc & _).
  destruct (negotiate_pure_ok d0 (curr_state d0) (exchange ds ls) kw 0 Hdim) as (o' & d1' & E' & _ & _ & Hst & _).
  pose proof E as Eo. unfold negotiate_step in Eo. rewrite E' in Eo. injection Eo as -> _.
  assert (Hlim : input_estimation o = st_all -> Forall (fun l => max_running_requests (lo_kw l) = limit) ls).
  { intros Ho. rewrite Ho in Hst. apply list.Forall_lookup. intros k l Hk. apply (io_limit _ _ _ _ Hin); [by eapply list_elem_of_lookup_2|].
    by eapply (all_prefillable d0 ds ls). }
  destruct (round_rows _ d0 kw 0 o d1 ds ls E Hal (io_len _ _ _ _ Hin) Hlim) as (outs & Er & Hf & Hl).
  exists outs, o, d1. split_and!; try done. rewrite <- Er. unfold round. apply rmap_ext. intros [d l]. apply negotiate_as_step.
Qed.

(** C34: the ranks never disagree: if their delayers start in the same state then
    in every pass all ranks get the same answer for the same reason, and their
    delayers stay in the same state, whatever the ranks have to prefill, also
    when a rank without a prefill joins the exchange at the end of its pass
    without arguments. *)
Theorem ranks_agree d0 ds lss limit :
  1 <= attn_tp_size d0 -> 1 <= dp_size_dim d0 -> zlen ds = dp_size_dim d0 * attn_tp_size d0 ->
  Forall (alike d0) ds -> Forall (inputs_ok (attn_tp_size d0) limit (zlen ds)) lss ->
  exists outss ds' d1, rounds ds lss = Ok (outss, ds') /\
    Forall (fun outs => exists o, Forall (same_decision o) outs) outss /\ Forall (alike d1) ds'.
Proof.
  intros Htp Hdim Hlen Hal Hin. revert d0 ds Htp Hdim Hlen Hal Hin.
  induction lss as [|ls lss IH]; intros d0 ds Htp Hdim Hlen Hal Hin; [by exists [], ds, d0|].
  apply list.Forall_cons in Hin as [Hi Hin].
  destruct (round_agree d0 ds ls limit Htp Hdim Hlen Hal Hi) as (outs & o & d1 & E & Hf & (C1 & C2 & C3 & C4) & Hl).
  assert (Hz : zlen (map snd outs) = zlen ds) by (unfold zlen in *; rewrite length_map; lia).
  assert (Hdim' : dp_size_dim d1 = dp_size_dim d0) by (unfold dp_size_dim; by rewrite C2, C4).
  destruct (IH d1 (map snd outs)) as (outss & ds' & d2 & E2 & H1 & H2); rewrite ?C3, ?Hdim', ?Hz; try done.
  { apply Forall_fmap. eapply list.Forall_impl; [exact Hf|]. by intros p [_ ?]. }
  simpl. rewrite E. cbn [rbind]. rewrite E2. cbn [rbind]. eexists _, _, d2. split; [done|]. split; [|done].
  constructor; [|done]. exists o. apply Forall_fmap. eapply list.Forall_impl; [exact Hf|]. by intros p [? _].
Qed.

(** ** One exchange per pass *)

Section one_exchange.
Context {W : Type} (all_gather : W -> list Z -> list (list Z) * W).

(** Once the pass has an answer, further calls repeat it. *)
Lemma pass_calls_done w e out calls : pass_result e = Some out ->
  pass_calls all_gather w e calls = Ok (map (fun _ => output_allow out) calls, e, w).
Proof.
  intros E. induction calls as [|[[b kw] now] calls IH]; [done|]. simpl. unfold negotiate_should_allow_prefill. rewrite E. cbn [rbind].
  by rewrite IH.
Qed.

Lemma record_ok debug actual out now : known_reason out ->
  exists oc, record_single_pass_result debug actual out now = Ok oc /\ oc_allow oc = output_allow out.
Proof.
  intros Hk. unfold record_single_pass_result.
  assert (E : (if debug then
                 if output_allow out && String.eqb (output_reason out) "wait_timeout" then Ok tt
                 else if output_allow out && String.eqb (output_reason out) "token_watermark" then Ok tt
                 else rassert (existsb (String.eqb (output_reason out)) [""; "wait_success"; "no_wait"; "delay"]%string)
               else Ok tt) = Ok tt).
  { destruct debug; [|done]. destruct Hk as [[-> [-> | ->]]|Hk]; [done|done|]. rewrite Hk.
    destruct (output_allow out && String.eqb (output_reason out) "wait_timeout"); [done|].
    by destruct (output_allow out && String.eqb (output_reason out) "token_watermark"). }
  rewrite E. cbn [rbind]. destruct (next_state out); by eexists.
Qed.

(** A scheduling pass takes part in exactly one exchange between the ranks,
    also when it has nothing to prefill or the admission asks several times:
    the world changes by one [all_gather], with the row of the first call; all
    calls get its answer, and the final check of the debug log never fails. *)
Theorem one_exchange_per_pass w d usage calls debug actual now :
  1 <= dp_size_dim d ->
  let '(p, kw, t) := default (false, no_kwargs, now) (head calls) in
  exists out d' bs e1 w1 oc e2,
    negotiate all_gather w d p usage kw t = Ok (out, d', snd (all_gather w (local_info d p usage kw))) /\
    pass_calls all_gather w (executor_init d usage) calls = Ok (bs, e1, w1) /\
    finalize all_gather debug w1 e1 actual now = Ok (oc, e2, snd (all_gather w (local_info d p usage kw))) /\
    prefill_delayer e2 = d' /\ Forall (fun b => b = output_allow out) bs /\ oc_allow oc = output_allow out.
Proof.
  intros Hd. assert (Hneg : forall p kw t, exists out d', negotiate all_gather w d p usage kw t =
    Ok (out, d', snd (all_gather w (local_info d p usage kw))) /\ known_reason out).
  { intros p kw t. unfold negotiate. destruct (all_gather w _) as [buffer w1]. destruct (negotiate_pure_ok d (curr_state d) buffer kw t Hd) as (out & d1 & E & _ & Hk & _).
    rewrite E. cbn [rbind]. by eexists _, _. }
  destruct calls as [|[[p kw] t] calls]; simpl.
  - destruct (Hneg false no_kwargs now) as (out & d' & E & Hk). destruct (record_ok debug actual out now Hk) as (oc & Eo & Ho).
    eexists out, d', [], _, w, oc, _. split; [exact E|]. split; [done|]. unfold finalize. simpl.
    unfold negotiate_should_allow_prefill. simpl. rewrite E. cbn [rbind]. simpl. rewrite Eo. cbn [rbind]. by split_and!.
  - destruct (Hneg p kw t) as (out & d' & E & Hk). destruct (record_ok debug actual out now Hk) as (oc & Eo & Ho).
    unfold negotiate_should_allow_prefill. simpl. rewrite E. cbn [rbind].
    rewrite (pass_calls_done _ _ out) by done. cbn [rbind]. eexists out, d', _, _, _, oc, _. split; [done|]. split; [done|].
    unfold finalize. simpl. rewrite Eo. cbn [rbind]. split_and!; try done. constructor; [done|].
    apply Forall_fmap, Forall_true. done.
Qed.

(** The executor in the middle of a pass that began with the delayer [d0] in the
    world [w0]: it has not negotiated yet, or it has once. *)
Definition in_pass (d0 : PrefillDelayer) (w0 : W) (x : SinglePassExecutor * W) : Prop :=
  same_config d0 (prefill_delayer x.1) /\
  ((pass_result x.1 = None /\ x.2 = w0) \/
   exists out row, pass_result x.1 = Some out /\ known_reason out /\ x.2 = snd (all_gather w0 row)).

Lemma ask_in_pass d0 w0 e w p kw now : 1 <= dp_size_dim d0 -> in_pass d0 w0 (e, w) ->
  exists b e' w' out, negotiate_should_allow_prefill all_gather w e p kw now = Ok (b, e', w') /\ in_pass d0 w0 (e', w') /\
    pass_result e' = Some out /\ known_reason out.
Proof.
  intros Hd [Hc Hp]. simpl in Hc, Hp. unfold negotiate_should_allow_prefill.
  destruct Hp as [[En ->]|(out & row & Eo & Hk & ->)]; [rewrite En|rewrite Eo; eexists _, e, _, out; split_and!; try done; split; [done|]; right; by exists out, row].
  assert (Hd' : 1 <= dp_size_dim (prefill_delayer e)).
  { destruct Hc as (_ & E2 & _ & E4). unfold dp_size_dim in *. by rewrite E4, E2. }
  unfold negotiate. destruct (all_gather w0 _) as [buffer w1] eqn:Eg.
  destruct (negotiate_pure_ok (prefill_delayer e) (curr_state (prefill_delayer e)) buffer kw now Hd') as (out & d1 & E & Hc1 & Hk & _).
  rewrite E. cbn [rbind]. eexists _, _, w1, out. split; [done|]. split; [|done]. split; [by etrans|].
  right. eexists out, _. split_and!; try done. simpl. by rewrite Eg.
Qed.

Lemma finalize_in_pass d0 w0 e w debug actual now : 1 <= dp_size_dim d0 -> in_pass d0 w0 (e, w) ->
  exists oc e' row, finalize all_gather debug w e actual now = Ok (oc, e', snd (all_gather w0 row)) /\ same_config d0 (prefill_delayer e').
Proof.
  intros Hd Hp. assert (Hdone : exists e' w' out row, (match pass_result e with
      | Some _ => Ok (e, w)
      | None => let! (_, e1, w1) := negotiate_should_allow_prefill all_gather w e false no_kwargs now in Ok (e1, w1)
      end) = Ok (e', w') /\ same_config d0 (prefill_delayer e') /\ pass_result e' = Some out /\ known_reason out /\
      w' = snd (all_gather w0 row)).
  { destruct (ask_in_pass d0 w0 e w false no_kwargs now Hd Hp) as (b & e1 & w1 & out & E & Hp1 & Eo & Hk).
    destruct (pass_result e) as [out0|] eqn:E0.
    - destruct Hp as [Hc [[En _]|(o & row & Eo' & Hk' & Ew)]]; simpl in *; [congruence|]. by exists e, w, o, row.
    - rewrite E. cbn [rbind]. destruct Hp1 as [Hc [[En _]|(o & row & Eo' & Hk' & Ew)]]; simpl in *; [congruence|]. by exists e1, w1, o, row. }
  destruct Hdone as (e' & w' & out & row & E & Hc & Eo & Hk & ->). unfold finalize. rewrite E. cbn [rbind]. rewrite Eo.
  destruct (record_ok debug actual out now Hk) as (oc & -> & _). cbn [rbind]. by exists oc, e', row.
Qed.
End one_exchange.

(** ** Concrete passes *)

Definition two_ranks : PrefillDelayer :=
  {| max_delay_passes := 3; token_usage_low_watermark := None; dp_size := 2; attn_tp_size := 1; enable_dp_attention := true;
     curr_state := None; skip_first_delayer := true |}.
Definition busy (p : bool) : Local :=
  {| lo_prefillable := p; lo_usage := f64_of_Z 0; lo_now := 0;
     lo_kw := if p then {| running_bs := 5; max_prefill_bs := 4; max_running_requests := 8 |} else no_kwargs |}.
Definition mixed_rows : list (list Z) := [[1; 0; 5; 4]; [0; 0; 0; 0]].

Lemma two_ranks_reach : dreach two_ranks.
Proof.
  eapply (dreach_init 2 1 {| arg_enable_dp_attention := true; disaggregation_null := true; disable_overlap_schedule := false |} 3 None);
    [lia|reflexivity].
Qed.

Lemma delayer_bounded_wait_witness : exists outs d',
  negotiate_run two_ranks (replicate 3 (mixed_rows, no_kwargs, 0)) = Ok (outs, d') /\
  map output_allow outs = [false; false; true].
Proof.
  destruct (delayer_bounded_wait two_ranks (replicate 3 (mixed_rows, no_kwargs, 0))) as (outs & d' & E & _).
  - exact two_ranks_reach.
  - repeat constructor.
  - vm_compute. discriminate.
  - exists outs, d'. split; [exact E|]. vm_compute in E. by injection E as <- <-.
Defined.

Lemma busy_ok a b : inputs_ok 1 8 2 [busy a; busy b].
Proof.
  split; [done| |].
  - intros k l g Hk Hl Hg. rewrite Z.div_1_r, Z.mul_1_r, Hl in Hg. by injection Hg as <-.
  - intros l [->|[->|Hl%not_elem_of_nil]%elem_of_cons]%elem_of_cons Hp; [by destruct a|by destruct b|done].
Qed.

(** Both ranks are ready twice (the first time the lack of room is ignored), then one only. *)
Lemma ranks_agree_witness : exists outss ds',
  rounds [two_ranks; two_ranks] [[busy true; busy true]; [busy true; busy true]; [busy true; busy false]] = Ok (outss, ds') /\
  map (map output_allow) outss = [[true; true]; [false; false]; [false; false]].
Proof.
  destruct (ranks_agree two_ranks [two_ranks; two_ranks] [[busy true; busy true]; [busy true; busy true]; [busy true; busy false]] 8)
    as (outss & ds' & d1 & E & _).
  - vm_compute. discriminate.
  - vm_compute. discriminate.
  - reflexivity.
  - repeat constructor.
  - repeat (apply list.Forall_cons; split; [apply busy_ok|]). constructor.
  - exists outss, ds'. split; [exact E|]. vm_compute in E. by injection E as <- <-.
Defined.

Lemma one_exchange_per_pass_witness : exists bs e1 w1 oc e2,
  pass_calls (fun (n : nat) _ => (mixed_rows, S n)) 0%nat (executor_init two_ranks (f64_of_Z 0))
    [(true, lo_kw (busy true), 0); (true, lo_kw (busy true), 1)] = Ok (bs, e1, w1) /\
  finalize (fun (n : nat) _ => (mixed_rows, S n)) true w1 e1 false 2 = Ok (oc, e2, 1%nat) /\ forward_passes oc = 1.
Proof.
  pose proof (one_exchange_per_pass (fun (n : nat) _ => (mixed_rows, S n)) 0%nat two_ranks (f64_of_Z 0)
    [(true, lo_kw (busy true), 0); (true, lo_kw (busy true), 1)] true false 2 ltac:(vm_compute; discriminate))
    as (out & d' & bs & e1 & w1 & oc & e2 & E0 & E1 & E2 & _).
  exists bs, e1, w1, oc, e2. split; [exact E1|]. split; [exact E2|]. vm_compute in E1. injection E1 as <- <- <-.
  vm_compute in E2. by injection E2 as <- <-.
Defined.
