(* ===== verification/SchedulerQueue.v ===== *)
(** * The waiting queue of the scheduler

    How class [Scheduler] ([srt/managers/scheduler.py]) puts requests into the
    waiting queue and takes them out without running them: default priorities,
    the limit on the length of the queue and the waiting timeout, for a server
    without disaggregation and without host caches.  Aborts are messages to the
    tokenizer; the queue keeps them in the order they are sent.  At the end the
    checks a new request passes before it is queued: the second half of
    [handle_generate_request], without grammars, with [validate_input_length]
    ([srt/managers/utils.py]). *)

From stdpp Require Import pretty.
From S2P Require Import Prelude Tensors RadixKeys RadixCache Request SchedulePolicy.

Record QueueConfig := {
  enable_priority_scheduling : bool;
  schedule_low_priority_values_first : bool;
  abort_on_priority_when_disabled : bool;
  max_queued_requests : option Z
}.

(** [AbortReq]: the request and the reason. *)
Record AbortReq := { ab_rid : string; ab_message : string }.

Record Queue := { waiting_queue : list Req; sent : list AbortReq }.

Definition sys_maxsize : Z := 2 ^ 63 - 1.

Definition set_info (r : Req) (i : ReqStatic) : Req :=
  {| info := i; origin_input_ids := origin_input_ids r; output_ids := output_ids r;
     logprob_start_len := logprob_start_len r; decoded_text := decoded_text r; triaxial_bits := triaxial_bits r;
     kv := kv r; pre := pre r; fin := fin r; retract := retract r |}.

Definition set_priority (r : Req) (p : option Z) : Req :=
  let s := info r in
  set_info r {| rid := rid s; sampling_params := sampling_params s; extra_key := extra_key s; routing_key := routing_key s;
                priority := p; eos_token_ids := eos_token_ids s; vocab_size := vocab_size s;
                wait_queue_entry_time := wait_queue_entry_time s; has_input_embeds := has_input_embeds s;
                return_logprob := return_logprob s |}.

Definition set_wait_queue_entry_time (r : Req) (ts : Z) : Req :=
  let s := info r in
  set_info r {| rid := rid s; sampling_params := sampling_params s; extra_key := extra_key s; routing_key := routing_key s;
                priority := priority s; eos_token_ids := eos_token_ids s; vocab_size := vocab_size s;
                wait_queue_entry_time := ts; has_input_embeds := has_input_embeds s;
                return_logprob := return_logprob s |}.

Definition send (q : Queue) (r : Req) (message : string) : Queue :=
  {| waiting_queue := waiting_queue q; sent := sent q ++ [{| ab_rid := rid (info r); ab_message := message |}] |}.

Definition set_queue (q : Queue) (l : list Req) : Queue := {| waiting_queue := l; sent := sent q |}.

Definition priority_disabled_message : string :=
  "Using priority is disabled for this server. Please send a new request without a priority.".
Definition queue_full_message : string := "The request queue is full.".
Definition preempted_message : string := "The request is aborted by a higher priority request.".
Definition waiting_timeout_message : string := "Request waiting timeout reached.".

Section queue.
Context (c : QueueConfig).

(** Smaller numbers are preferred after multiplication with the direction. *)
Definition direction : Z := if schedule_low_priority_values_first c then 1 else -1.

(** [false]: the request has been answered with an abort. *)
Definition set_or_validate_priority (q : Queue) (r : Req) : bool * Req * Queue :=
  match priority (info r) with
  | None =>
      if enable_priority_scheduling c
      then (true, set_priority r (Some (if schedule_low_priority_values_first c then sys_maxsize else - sys_maxsize - 1)), q)
      else (true, r, q)
  | Some _ =>
      if negb (enable_priority_scheduling c) && abort_on_priority_when_disabled c
      then (false, r, send q r priority_disabled_message)
      else (true, r, q)
  end.

Definition queue_key (r : Req) : result (list Z) :=
  let! p := priority_of r in Ok [direction * p; wait_queue_entry_time (info r)].

(** [max(enumerate(l), key)]: the first of the largest; [i] is the index of the head. *)
Fixpoint max_item (i best : Z) (best_key : list Z) (best_req : Req) (l : list Req) : result (Z * Req) :=
  match l with
  | [] => Ok (best, best_req)
  | r :: rest =>
      let! k := queue_key r in
      if lex_lt best_key k then max_item (i + 1) i k r rest else max_item (i + 1) best best_key best_req rest
  end.

Definition least_preferred (l : list Req) : result (Z * Req) :=
  match l with
  | [] => Err ValueError
  | r :: rest => let! k := queue_key r in max_item 1 0 k r rest
  end.

(** [l.pop(i)] for an index in range. *)
Definition pop_at {B} (l : list B) (i : Z) : list B := take (Z.to_nat i) l ++ drop (S (Z.to_nat i)) l.

(** [true]: the incoming request has been aborted. *)
Definition abort_on_queued_limit (q : Queue) (r : Req) : result (bool * Queue) :=
  match max_queued_requests c with
  | None => Ok (false, q)
  | Some limit =>
      if zlen (waiting_queue q) + 1 <=? limit then Ok (false, q)
      else
        let! (victim, q1, message) :=
          if enable_priority_scheduling c then
            let! (idx, candidate) := least_preferred (waiting_queue q) in
            let! p := priority_of r in
            let! cp := priority_of candidate in
            if direction * p <? direction * cp
            then Ok (candidate, set_queue q (pop_at (waiting_queue q) idx), preempted_message)
            else Ok (r, q, queue_full_message)
          else Ok (r, q, queue_full_message) in
        Ok (String.eqb (rid (info victim)) (rid (info r)), send q1 victim message)
  end.

(** [_add_request_to_queue]; [now] is the clock. *)
Definition add_request_to_queue (now : Z) (q : Queue) (r : Req) : result Queue :=
  let '(valid, r1, q1) := set_or_validate_priority q r in
  if negb valid then Ok q1
  else
    let! (aborted, q2) := abort_on_queued_limit q1 r1 in
    if aborted then Ok q2
    else Ok (set_queue q2 (waiting_queue q2 ++ [set_wait_queue_entry_time r1 now])).

(** One request after the other, as in the loops over retracted or preempted requests. *)
Definition add_all_to_queue (now : Z) (q : Queue) (rs : list Req) : result Queue := rfold (add_request_to_queue now) q rs.

(** [_abort_on_waiting_timeout]; requests are removed by identity. *)
Definition timed_out (deadline : Z) (r : Req) : bool :=
  (0 <? wait_queue_entry_time (info r)) && (wait_queue_entry_time (info r) <? deadline).

Definition abort_on_waiting_timeout (timeout now : Z) (q : Queue) : Queue :=
  if timeout <=? 0 then q
  else
    let late := timed_out (now - timeout) in
    {| waiting_queue := List.filter (fun r => negb (late r)) (waiting_queue q);
       sent := sent q ++ map (fun r => {| ab_rid := rid (info r); ab_message := waiting_timeout_message |})
                             (List.filter late (waiting_queue q)) |}.
End queue.

(** ** New requests *)

Record IntakeConfig := {
  max_req_len : Z;
  max_req_input_len : Z;
  allow_auto_truncate : bool
}.

Definition set_prompt (r : Req) (ids : list Z) : Req :=
  {| info := info r; origin_input_ids := ids; output_ids := output_ids r; logprob_start_len := logprob_start_len r;
     decoded_text := decoded_text r; triaxial_bits := triaxial_bits r; kv := kv r; pre := pre r; fin := fin r; retract := retract r |}.

Definition set_bits (r : Req) (bits : option (list Z)) : Req :=
  {| info := info r; origin_input_ids := origin_input_ids r; output_ids := output_ids r; logprob_start_len := logprob_start_len r;
     decoded_text := decoded_text r; triaxial_bits := bits; kv := kv r; pre := pre r; fin := fin r; retract := retract r |}.

Definition set_logprob_start_len (r : Req) (n : Z) : Req :=
  {| info := info r; origin_input_ids := origin_input_ids r; output_ids := output_ids r; logprob_start_len := n;
     decoded_text := decoded_text r; triaxial_bits := triaxial_bits r; kv := kv r; pre := pre r; fin := fin r; retract := retract r |}.

Definition set_max_new_tokens (r : Req) (n : Z) : Req :=
  let s := info r in
  let p := sampling_params s in
  set_info r {| rid := rid s;
                sampling_params := {| max_new_tokens := n; ignore_eos := ignore_eos p; stop_token_ids := stop_token_ids p;
                                      stop_strs := stop_strs p; stop_regex_strs := stop_regex_strs p;
                                      stop_str_max_len := stop_str_max_len p; stop_regex_max_len := stop_regex_max_len p |};
                extra_key := extra_key s; routing_key := routing_key s; priority := priority s; eos_token_ids := eos_token_ids s;
                vocab_size := vocab_size s; wait_queue_entry_time := wait_queue_entry_time s;
                has_input_embeds := has_input_embeds s; return_logprob := return_logprob s |}.

(** [wanted]: the number of tokens the client asked for, if any. *)
Definition init_req_max_new_tokens (i : IntakeConfig) (wanted : option Z) (r : Req) : Req :=
  set_max_new_tokens r (Z.min (default (2 ^ 30) wanted) (max_req_len i - zlen (origin_input_ids r) - 1)).

Definition too_long_message (n limit : Z) : string :=
  "Input length (" +:+ pretty n +:+ " tokens) exceeds the maximum allowed length (" +:+ pretty limit +:+
  " tokens). Use a shorter input or enable --allow-auto-truncate.".

(** The error message, if any, and the request. *)
Definition validate_input_length (i : IntakeConfig) (r : Req) : option string * Req :=
  let n := zlen (origin_input_ids r) in
  if max_req_input_len i <=? n then
    if allow_auto_truncate i then (None, set_prompt r (slice_to (origin_input_ids r) (max_req_input_len i)))
    else (Some (too_long_message n (max_req_input_len i)), r)
  else (None, r).

(** What the client said about log probabilities. *)
Record LogprobArgs := { lp_return : bool; lp_start_len : Z; lp_token_ids : bool }.

Definition start_len_message (start n : Z) : string :=
  "req.logprob_start_len=" +:+ pretty start +:+ " is higher than the number of input tokens len(req.origin_input_ids)=" +:+ pretty n +:+
  ". Please use a smaller logprob_start_len.".

Definition requested_start_len (a : LogprobArgs) (r : Req) : Z :=
  let start := if negb (lp_return a) && negb (lp_start_len a =? -1) then -1 else lp_start_len a in
  if start =? -1 then
    if lp_return a && negb (lp_token_ids a) then zlen (origin_input_ids r)
    else if max_new_tokens (sampling_params (info r)) =? 0 then zlen (origin_input_ids r)
    else -1
  else start.

(** From the tagging of the prompt to the queue; [tag] is the TriAxialKV tagger, if there is one. *)
Definition queue_new_request (c : QueueConfig) (i : IntakeConfig) (tag : option (list Z -> result (list Z))) (wanted : option Z)
    (a : LogprobArgs) (now : Z) (q : Queue) (r : Req) : result Queue :=
  let! r1 := match tag with
             | Some bits => let! l := bits (origin_input_ids r) in Ok (set_bits r (Some l))
             | None => Ok r
             end in
  let r2 := init_req_max_new_tokens i wanted r1 in
  match validate_input_length i r2 with
  | (Some message, r3) => add_request_to_queue c now q (set_finish_with_abort r3 message)
  | (None, r3) =>
      let r4 := set_logprob_start_len r3 (requested_start_len a r3) in
      if zlen (origin_input_ids r4) <? logprob_start_len r4 then
        add_request_to_queue c now q
          (set_finish_with_abort (set_logprob_start_len r4 (-1)) (start_len_message (logprob_start_len r4) (zlen (origin_input_ids r4))))
      else add_request_to_queue c now q r4
  end.
