(* ===== verification/SchedulerQueueProps.v ===== *)
(** * The waiting queue loses no request

    A request given to the queue is in it afterwards or has been answered with
    an abort; the limit on the queue holds; with priorities the request that has
    to go is a least preferred one. *)

From S2P Require Import Prelude Tensors RadixKeys RadixCache RadixEvict Request SchedulePolicy SchedulerQueue.

Section queue.
Context (c : QueueConfig).

(** With priority scheduling every queued request has a priority. *)
Definition has_priority (r : Req) : Prop := enable_priority_scheduling c = true -> exists p, priority (info r) = Some p.

(** [r] is not preferred to [d]. *)
Definition not_after (r d : Req) : Prop :=
  exists p q, priority (info r) = Some p /\ priority (info d) = Some q /\ direction c * p <= direction c * q.

Definition within_limit (l : list Req) : Prop := match max_queued_requests c with Some n => 1 <= n /\ zlen l <= n | None => True end.

Definition rids (l : list Req) : list string := map (fun r => rid (info r)) l.

(** The same work under another priority and queue time: the sampling
    parameters, and with them the number of new tokens, stay the same. *)
Definition same_work (r r' : Req) : Prop :=
  rid (info r') = rid (info r) /\ sampling_params (info r') = sampling_params (info r) /\ origin_input_ids r' = origin_input_ids r /\ output_ids r' = output_ids r /\
  kv r' = kv r /\ pre r' = pre r /\ fin r' = fin r /\ retract r' = retract r /\ triaxial_bits r' = triaxial_bits r.

Lemma queue_key_ok r p : priority (info r) = Some p -> queue_key c r = Ok [direction c * p; wait_queue_entry_time (info r)].
Proof. intros E. unfold queue_key, priority_of. by rewrite E. Qed.

(** The scan for the maximum: [before] has been seen, [best] is its maximum. *)
Lemma max_item_spec l : forall before best k r, (forall x, x ∈ l -> exists p, priority (info x) = Some p) ->
  0 <= best -> (before ++ l) !! Z.to_nat best = Some r -> queue_key c r = Ok k ->
  (forall x kx, x ∈ before -> queue_key c x = Ok kx -> lex_lt k kx = false) ->
  exists i r', max_item c (zlen before) best k r l = Ok (i, r') /\ 0 <= i /\ (before ++ l) !! Z.to_nat i = Some r' /\
    (forall x kx k', x ∈ before ++ l -> queue_key c x = Ok kx -> queue_key c r' = Ok k' -> lex_lt k' kx = false).
Proof.
  induction l as [|y l IH]; intros before best k r Hp H0 Hr Hk Hmax.
  { exists best, r. split_and!; try done. intros x kx k' Hx Ex Ek. rewrite app_nil_r in Hx. rewrite Hk in Ek. injection Ek as <-. by eapply Hmax. }
  destruct (Hp y) as [p Ep]; [by left|]. pose proof (queue_key_ok _ _ Ep) as Ey. simpl. rewrite Ey. cbn [rbind].
  assert (Eb : before ++ y :: l = (before ++ [y]) ++ l) by (rewrite <- app_assoc; reflexivity). rewrite Eb in *.
  replace (zlen before + 1) with (zlen (before ++ [y])) by (unfold zlen; rewrite length_app; simpl; lia).
  assert (Hp' : forall x, x ∈ l -> exists p, priority (info x) = Some p) by (intros x Hx; apply Hp; by right).
  destruct (lex_lt k _) eqn:El.
  - apply IH; [done|apply zlen_nonneg| |done|].
    + rewrite <- app_assoc. simpl. rewrite to_nat_zlen. by apply list_lookup_middle.
    + intros x kx [Hx|Hx]%elem_of_app Ex.
      * specialize (Hmax x kx Hx Ex). destruct (lex_lt [direction c * p; wait_queue_entry_time (info y)] kx) eqn:E2; [|done]. pose proof (lex_lt_trans _ _ _ El E2) as C. congruence.
      * apply list_elem_of_singleton in Hx as ->. rewrite Ey in Ex. injection Ex as <-. apply lex_lt_irrefl.
  - apply IH; try done. intros x kx [Hx|Hx]%elem_of_app Ex; [by eapply Hmax|].
    apply list_elem_of_singleton in Hx as ->. rewrite Ey in Ex. by injection Ex as <-.
Qed.

Lemma least_preferred_spec l : l <> [] -> (forall x, x ∈ l -> exists p, priority (info x) = Some p) ->
  exists i r, least_preferred c l = Ok (i, r) /\ 0 <= i /\ l !! Z.to_nat i = Some r /\ forall x, x ∈ l -> not_after x r.
Proof.
  intros Hne Hp. destruct l as [|y l]; [done|]. destruct (Hp y) as [p Ep]; [by left|]. simpl. rewrite (queue_key_ok _ _ Ep). cbn [rbind].
  destruct (max_item_spec l [y] 0 _ y ltac:(intros x Hx; apply Hp; by right) ltac:(lia) eq_refl (queue_key_ok _ _ Ep)) as (i & r & E & H0 & Hr & Hmax).
  { intros x kx Hx Ex. apply list_elem_of_singleton in Hx as ->. rewrite (queue_key_ok _ _ Ep) in Ex. injection Ex as <-. apply lex_lt_irrefl. }
  exists i, r. split_and!; try done. intros x Hx. destruct (Hp x Hx) as [px Epx].
  destruct (Hp r) as [pr Epr]; [by eapply list_elem_of_lookup_2|]. exists px, pr. split_and!; try done.
  specialize (Hmax x _ _ Hx (queue_key_ok _ _ Epx) (queue_key_ok _ _ Epr)). simpl in Hmax. bool_lia.
Qed.

Lemma pop_at_perm {B} (l : list B) i x : 0 <= i -> l !! Z.to_nat i = Some x -> l ≡ₚ x :: pop_at l i.
Proof. intros _ Hx. unfold pop_at. rewrite <- (take_drop_middle _ _ _ Hx) at 1. by rewrite Permutation_middle. Qed.

(** What becomes of a request given to the queue. *)
Record admitted (q q' : Queue) (r r' : Req) (dropped : list Req) : Prop := {
  ad_work : same_work r r';
  ad_queue : waiting_queue q' ++ dropped ≡ₚ waiting_queue q ++ [r'];
  ad_sent : map ab_rid (sent q') = map ab_rid (sent q) ++ rids dropped;
  ad_limit : within_limit (waiting_queue q) -> within_limit (waiting_queue q');
  ad_priority : Forall has_priority (waiting_queue q');
  ad_least : enable_priority_scheduling c = true -> forall d x, d ∈ dropped -> x ∈ waiting_queue q' -> not_after x d
}.

Lemma full_limit q r1 : max_queued_requests c = None \/ (exists n, max_queued_requests c = Some n /\ zlen (waiting_queue q) + 1 <= n) ->
  abort_on_queued_limit c q r1 = Ok (false, q).
Proof.
  unfold abort_on_queued_limit. intros [->|(n & -> & Hn)]; [done|]. by destruct (Z.leb_spec (zlen (waiting_queue q) + 1) n); [|lia].
Qed.

(** Enqueueing a request whose priority is settled. *)
Lemma enqueue_ok now q r : Forall has_priority (waiting_queue q) -> has_priority r -> rid (info r) ∉ rids (waiting_queue q) ->
  match max_queued_requests c with Some n => 1 <= n | None => True end ->
  exists q' r' dropped, (let! (aborted, q2) := abort_on_queued_limit c q r in
    if aborted then Ok q2 else Ok (set_queue q2 (waiting_queue q2 ++ [set_wait_queue_entry_time r now]))) = Ok q' /\ admitted q q' r r' dropped.
Proof.
  intros Hq Hr Hfresh Hlim. set (r' := set_wait_queue_entry_time r now).
  assert (Hr' : has_priority r') by exact Hr.
  assert (Hcase : (max_queued_requests c = None \/ exists n, max_queued_requests c = Some n /\ zlen (waiting_queue q) + 1 <= n) \/
    exists n, max_queued_requests c = Some n /\ 1 <= n /\ n < zlen (waiting_queue q) + 1).
  { destruct (max_queued_requests c) as [n|]; [|by left; left]. destruct (decide (zlen (waiting_queue q) + 1 <= n)); [left; right|right]; exists n; split_and!; done || lia. }
  destruct Hcase as [Hroom|(n & En & H1 & Hfull)].
  { rewrite (full_limit _ _ Hroom). cbn [rbind]. exists (set_queue q (waiting_queue q ++ [r'])), r', []. split; [done|].
    split; simpl; [by repeat split|by rewrite app_nil_r|by rewrite app_nil_r| | |by intros _ d x ?%not_elem_of_nil].
    - unfold within_limit. destruct Hroom as [->|(n & -> & Hn)]; [done|]. unfold zlen in *. rewrite length_app. simpl. lia.
    - apply Forall_app. split; [done|by constructor]. }
  unfold abort_on_queued_limit. rewrite En. destruct (Z.leb_spec (zlen (waiting_queue q) + 1) n); [lia|].
  assert (Hreject : forall q2, q2 = send q r queue_full_message -> 
    (enable_priority_scheduling c = true -> forall x, x ∈ waiting_queue q -> not_after x r) -> admitted q q2 r r [r]).
  { intros q2 -> Hl. split; simpl; try done; [by rewrite map_app|].
    intros Hp d x ->%list_elem_of_singleton Hx. by apply Hl. }
  destruct (enable_priority_scheduling c) eqn:Ep.
  2: { cbn [rbind]. rewrite String.eqb_refl. exists (send q r queue_full_message), r, [r]. split; [done|]. by apply Hreject. }
  destruct (least_preferred_spec (waiting_queue q)) as (i & d & E & Hi & Hd & Hleast).
  { intros E0. rewrite E0 in Hfull. change (zlen (@nil Req)) with 0 in Hfull. lia. }
  { intros x Hx. rewrite list.Forall_forall in Hq. by apply Hq. }
  rewrite E. cbn [rbind]. destruct (Hr Ep) as [p Epr]. destruct (Hleast d) as (pd & _ & Epd & _); [by eapply list_elem_of_lookup_2|].
  unfold priority_of. rewrite Epr, Epd. cbn [rbind]. destruct (Z.ltb_spec (direction c * p) (direction c * pd)) as [Hlt|Hge]; cbn [rbind].
  - assert (Hne : String.eqb (rid (info d)) (rid (info r)) = false).
    { apply String.eqb_neq. intros Heq. apply Hfresh. rewrite <- Heq. apply list_elem_of_fmap. exists d. split; [done|]. by eapply list_elem_of_lookup_2. }
    rewrite Hne. pose proof (pop_at_perm _ _ _ Hi Hd) as Hpop. eexists _, r', [d]. split; [done|].
    split; simpl; [by repeat split| |by rewrite map_app| | |].
    + rewrite <- Permutation_cons_append. symmetry. exact (Permutation_app_tail [r'] Hpop).
    + unfold within_limit. rewrite En. intros [_ Hw]. apply Permutation_length in Hpop. unfold zlen in *. simpl in Hpop. rewrite length_app. simpl. lia.
    + apply Forall_app. split; [|by constructor]. generalize dependent (pop_at (waiting_queue q) i). intros rest Hpop. rewrite Hpop in Hq. by apply list.Forall_cons in Hq as [_ ?].
    + intros _ d' x ->%list_elem_of_singleton [Hx|Hx]%elem_of_app; [apply Hleast; apply (elem_of_Permutation_proper x _ _ Hpop); by right|].
      apply list_elem_of_singleton in Hx as ->. exists p, pd. split_and!; try done. lia.
  - rewrite String.eqb_refl. exists (send q r queue_full_message), r, [r]. split; [done|]. apply Hreject; [done|].
    intros _ x Hx. destruct (Hleast x Hx) as (px & pd' & E1 & E2 & Hle). exists px, p. split_and!; try done. rewrite Epd in E2. injection E2 as <-. lia.
Qed.

Lemma add_request_ok now q r : Forall has_priority (waiting_queue q) -> rid (info r) ∉ rids (waiting_queue q) ->
  match max_queued_requests c with Some n => 1 <= n | None => True end ->
  exists q' r' dropped, add_request_to_queue c now q r = Ok q' /\ admitted q q' r r' dropped.
Proof.
  intros Hq Hfresh Hlim. unfold add_request_to_queue, set_or_validate_priority. destruct (priority (info r)) as [p|] eqn:Ep.
  - assert (Hr : has_priority r) by (intros _; by exists p).
    destruct (enable_priority_scheduling c) eqn:Ee; [simpl; by apply enqueue_ok|]. destruct (abort_on_priority_when_disabled c); simpl; [|by apply enqueue_ok].
    exists (send q r priority_disabled_message), r, [r]. split; [done|]. split; simpl; try done; [by rewrite map_app|].
    intros Hc. congruence.
  - destruct (enable_priority_scheduling c) eqn:Ee; simpl; [|apply enqueue_ok; try done; intros Hc; congruence].
    set (r1 := set_priority r _).
    destruct (enqueue_ok now q r1 Hq) as (q' & r' & dropped & E & [A1 A2 A3 A4 A5 A6]); [by intros _; eexists|done|done|].
    exists q', r', dropped. split; [done|]. by split.
Qed.

(** C32: putting a request into the waiting queue loses nothing: afterwards the
    queue and the requests answered with an abort are the old queue and the new
    request.  The queue does not outgrow its limit, its requests have
    priorities when priorities count, and then whoever had to go is not
    preferred to anyone in the queue. *)
Theorem queue_admission now q r :
  Forall has_priority (waiting_queue q) -> rid (info r) ∉ rids (waiting_queue q) ->
  match max_queued_requests c with Some n => 1 <= n | None => True end ->
  exists q' r' dropped, add_request_to_queue c now q r = Ok q' /\ admitted q q' r r' dropped.
Proof. apply add_request_ok. Qed.

(** Several requests, one after the other. *)
Record admitted_all (q q' : Queue) (rs rs' dropped : list Req) : Prop := {
  aa_work : Forall2 same_work rs rs';
  aa_queue : waiting_queue q' ++ dropped ≡ₚ waiting_queue q ++ rs';
  aa_sent : map ab_rid (sent q') = map ab_rid (sent q) ++ rids dropped;
  aa_limit : within_limit (waiting_queue q) -> within_limit (waiting_queue q');
  aa_priority : Forall has_priority (waiting_queue q')
}.

Lemma rids_app l k : rids (l ++ k) = rids l ++ rids k.
Proof. apply map_app. Qed.

Lemma add_all_ok now rs : forall q, Forall has_priority (waiting_queue q) -> NoDup (rids (waiting_queue q ++ rs)) ->
  match max_queued_requests c with Some n => 1 <= n | None => True end ->
  exists q' rs' dropped, add_all_to_queue c now q rs = Ok q' /\ admitted_all q q' rs rs' dropped.
Proof.
  induction rs as [|r rs IH]; intros q Hq Hnd Hlim; unfold add_all_to_queue; simpl.
  { exists q, [], []. split; [done|]. split; try done. by rewrite app_nil_r. }
  assert (Hnd' : NoDup (rid (info r) :: rids (waiting_queue q) ++ rids rs)).
  { rewrite rids_app in Hnd. simpl in Hnd. by rewrite <- Permutation_middle in Hnd. }
  apply list.NoDup_cons in Hnd' as [Hfresh Hnd'].
  destruct (add_request_ok now q r Hq) as (q1 & r1 & d1 & E & [A1 A2 A3 A4 A5 A6]); [set_solver|done|]. rewrite E. cbn [rbind].
  pose proof (Permutation_map (fun x => rid (info x)) A2) as Hids. fold (rids (waiting_queue q1 ++ d1)) in Hids. fold (rids (waiting_queue q ++ [r1])) in Hids.
  rewrite !rids_app in Hids. destruct A1 as (Erid & Hw). simpl in Hids. rewrite Erid in Hids.
  assert (Hnd1 : NoDup (rids (waiting_queue q1 ++ rs))).
  { assert (Hx : NoDup ((rids (waiting_queue q1) ++ rids d1) ++ rids rs)).
    { rewrite Hids, <- app_assoc. simpl. rewrite <- Permutation_middle. by constructor. }
    rewrite <- app_assoc, (Permutation_app_comm (rids d1)), app_assoc in Hx. apply list.NoDup_app in Hx as [Hx _]. by rewrite rids_app. }
  destruct (IH q1 A5 Hnd1 Hlim) as (q2 & rs2 & d2 & E2 & [B1 B2 B3 B4 B5]). unfold add_all_to_queue in E2. rewrite E2.
  exists q2, (r1 :: rs2), (d1 ++ d2). split; [done|]. split; [by constructor| | |auto|done].
  - rewrite (Permutation_app_comm d1), app_assoc, B2. rewrite <- app_assoc, (Permutation_app_comm rs2), app_assoc, A2.
    rewrite <- app_assoc. done.
  - rewrite B3, A3, rids_app. by rewrite app_assoc.
Qed.

(** Requests that wait too long are answered, the others stay in order. *)
Lemma waiting_timeout_conserves timeout now q :
  let q' := abort_on_waiting_timeout timeout now q in
  exists late, waiting_queue q' ++ late ≡ₚ waiting_queue q /\ map ab_rid (sent q') = map ab_rid (sent q) ++ rids late /\
    (0 < timeout -> Forall (fun r => timed_out (now - timeout) r = false) (waiting_queue q')).
Proof.
  unfold abort_on_waiting_timeout. destruct (Z.leb_spec timeout 0) as [H|H].
  { exists []. rewrite !app_nil_r. split; [done|]. split; [done|lia]. }
  exists (List.filter (timed_out (now - timeout)) (waiting_queue q)). simpl. split; [|split].
  - rewrite Permutation_app_comm. induction (waiting_queue q) as [|r l IH]; [done|]. simpl.
    destruct (timed_out _ r); simpl; [by rewrite IH|by rewrite <- Permutation_middle, IH].
  - rewrite map_app, map_map. done.
  - intros _. apply list.Forall_forall. intros r Hr%list_elem_of_In%filter_In. by apply negb_true_iff, Hr.
Qed.

(** ** New requests *)

(** All tokens the request may ever have are within the limit. *)
Definition fits_row (i : IntakeConfig) (r : Req) : Prop :=
  Z.max (seqlen r) (zlen (origin_input_ids r) + max_new_tokens (sampling_params (info r))) <= max_req_len i.

(** What the server does to a new prompt: it is cut to the limit, or replaced
    and marked to be aborted. *)
Definition prompt_ok (i : IntakeConfig) (r r' : Req) : Prop :=
  origin_input_ids r' = take (Z.to_nat (max_req_input_len i)) (origin_input_ids r) \/
  exists message, to_finish (fin r') = Some (FINISH_ABORT message).

(** A prompt that passes the check, after truncation if need be. *)
Lemma valid_fits i wanted (r r' : Req) : output_ids r = [] -> 1 <= max_req_input_len i <= max_req_len i ->
  validate_input_length i (init_req_max_new_tokens i wanted r) = (None, r') ->
  rid (info r') = rid (info r) /\ output_ids r' = [] /\ zlen (origin_input_ids r') + max_new_tokens (sampling_params (info r')) < max_req_len i /\ fits_row i r' /\
  max_new_tokens (sampling_params (info r')) <= default (2 ^ 30) wanted /\
  origin_input_ids r' = take (Z.to_nat (max_req_input_len i)) (origin_input_ids r).
Proof.
  intros Ho Hi. unfold validate_input_length. change (origin_input_ids (init_req_max_new_tokens i wanted r)) with (origin_input_ids r).
  set (n := zlen (origin_input_ids r)). pose proof (zlen_nonneg (origin_input_ids r)) as Hn. fold n in Hn.
  unfold fits_row, seqlen. destruct (Z.leb_spec (max_req_input_len i) n) as [Hle|Hlt]; [destruct (allow_auto_truncate i); [|done]|];
    intros [= <-]; (split; [done|]); simpl; rewrite Ho; change (zlen (@nil Z)) with 0; fold n; (split; [done|]).
  - rewrite slice_to_take, zlen_take by (fold n; lia). split; [lia|]. split; [lia|]. split; [lia|done].
  - split; [lia|]. split; [lia|]. split; [lia|]. symmetry. apply take_ge. unfold n, zlen in Hlt. lia.
Qed.

(** A prompt that does not: the request is queued with one token, to be aborted. *)
Lemma invalid_fits i wanted (r r' : Req) message : output_ids r = [] -> 1 <= max_req_input_len i <= max_req_len i ->
  validate_input_length i (init_req_max_new_tokens i wanted r) = (Some message, r') ->
  rid (info r') = rid (info r) /\ max_new_tokens (sampling_params (info r')) <= default (2 ^ 30) wanted /\
  forall text, fits_row i (set_finish_with_abort r' text).
Proof.
  intros Ho Hi. unfold validate_input_length. change (origin_input_ids (init_req_max_new_tokens i wanted r)) with (origin_input_ids r).
  pose proof (zlen_nonneg (origin_input_ids r)) as Hn.
  destruct (Z.leb_spec (max_req_input_len i) (zlen (origin_input_ids r))) as [Hle|Hlt]; [destruct (allow_auto_truncate i); [done|]|done].
  intros [= _ <-]. split; [done|]. split; [simpl; lia|]. intros text. unfold fits_row, seqlen. simpl. rewrite Ho. change (zlen (@nil Z)) with 0. change (zlen [0]) with 1. lia.
Qed.

(** The queued request is the given one up to priority and queue time. *)
Lemma fits_same i r r' : same_work r r' -> fits_row i r -> fits_row i r'.
Proof. intros (_ & Es & Eo & Eu & _). unfold fits_row, seqlen. by rewrite Es, Eo, Eu. Qed.

(** C38: every new request is queued or answered, whatever its prompt, and the
    request that is queued fits the limits of the server: its prompt and all
    tokens it may get, together, have at most [max_req_len] tokens, and it gets
    no more tokens than the client asked for.  Its prompt is the given one, cut
    to [max_req_input_len] tokens if need be, unless it is only queued to be
    aborted. *)
Theorem new_request_fits i tag wanted a now q r :
  output_ids r = [] -> 1 <= max_req_input_len i <= max_req_len i ->
  (forall bits, tag = Some bits -> exists l, bits (origin_input_ids r) = Ok l) ->
  Forall has_priority (waiting_queue q) -> rid (info r) ∉ rids (waiting_queue q) ->
  match max_queued_requests c with Some n => 1 <= n | None => True end ->
  exists r' q' dropped, queue_new_request c i tag wanted a now q r = Ok q' /\
    waiting_queue q' ++ dropped ≡ₚ waiting_queue q ++ [r'] /\ map ab_rid (sent q') = map ab_rid (sent q) ++ rids dropped /\
    rid (info r') = rid (info r) /\ fits_row i r' /\ max_new_tokens (sampling_params (info r')) <= default (2 ^ 30) wanted /\ prompt_ok i r r'.
Proof.
  intros Ho Hi Htag Hq Hfresh Hlim. unfold queue_new_request.
  assert (Ht : exists r0, (match tag with Some bits => let! l := bits (origin_input_ids r) in Ok (set_bits r (Some l)) | None => Ok r end) = Ok r0 /\
    info r0 = info r /\ output_ids r0 = [] /\ origin_input_ids r0 = origin_input_ids r).
  { destruct tag as [bits|]; [|by exists r]. destruct (Htag bits eq_refl) as [l ->]. by eexists. }
  destruct Ht as (r0 & -> & Einf & Ho0 & Eor). cbn [rbind].
  assert (Hadd : forall x, rid (info x) = rid (info r) -> fits_row i x -> max_new_tokens (sampling_params (info x)) <= default (2 ^ 30) wanted ->
    prompt_ok i r x -> exists r' q' dropped, add_request_to_queue c now q x = Ok q' /\
    waiting_queue q' ++ dropped ≡ₚ waiting_queue q ++ [r'] /\ map ab_rid (sent q') = map ab_rid (sent q) ++ rids dropped /\
    rid (info r') = rid (info r) /\ fits_row i r' /\ max_new_tokens (sampling_params (info r')) <= default (2 ^ 30) wanted /\ prompt_ok i r r').
  { intros x Ex Hx Hm Hp. destruct (add_request_ok now q x Hq) as (q' & r' & dropped & E & [A1 A2 A3 _ _ _]); [by rewrite Ex|done|].
    exists r', q', dropped. split_and!; try done; [|by eapply fits_same|destruct A1 as (_ & -> & _); done|].
    - destruct A1 as (-> & _). done.
    - destruct A1 as (_ & _ & E1 & _ & _ & _ & E2 & _). unfold prompt_ok. by rewrite E1, E2. }
  destruct (validate_input_length i (init_req_max_new_tokens i wanted r0)) as [[message|] r3] eqn:Ev.
  - destruct (invalid_fits i wanted r0 r3 message Ho0 Hi Ev) as (Er & Hm & Hf). apply Hadd; [simpl; by rewrite Er, Einf|apply Hf|done|].
    right. by eexists.
  - destruct (valid_fits i wanted r0 r3 Ho0 Hi Ev) as (Er & Ho3 & Hlt & Hf & Hm & Hp). rewrite Einf in Er. rewrite Eor in Hp. set (r4 := set_logprob_start_len r3 _).
    destruct (zlen (origin_input_ids r4) <? logprob_start_len r4); apply Hadd; try done; [|by right; eexists|by left].
    unfold fits_row, seqlen in *. simpl. pose proof (zlen_nonneg (origin_input_ids r3)). rewrite Ho3 in *.
    change (zlen (@nil Z)) with 0 in *. change (zlen [0]) with 1. lia.
Qed.

(** C39: a prompt that is truncated gets no output.  The number of new tokens is
    computed from the prompt before it is truncated, so for a prompt of
    [max_req_len - 1] tokens or more it is not positive, although the truncated
    prompt leaves room: the first token finishes the request, and the output it
    returns is empty. *)
Theorem truncated_prompt_silent i wanted r r' tokenizer detokenize re_search t :
  output_ids r = [] -> fin r = {| finished_reason := None; finished_len := None; to_finish := None |} ->
  allow_auto_truncate i = true -> 1 <= max_req_input_len i <= max_req_len i -> max_req_len i - 1 <= zlen (origin_input_ids r) ->
  max_req_input_len i <= zlen (origin_input_ids r) ->
  validate_input_length i (init_req_max_new_tokens i wanted r) = (None, r') ->
  zlen (origin_input_ids r') = max_req_input_len i /\
  exists r2 n, check_finished tokenizer detokenize re_search None (set_output r' [t]) 1 = Ok r2 /\
    finished_reason (fin r2) = Some (FINISH_LENGTH n) /\ n <= 0 /\ output_ids_through_stop r2 = [].
Proof.
  intros Ho Hfin Hauto Hi Hlong Hlim. unfold validate_input_length. change (origin_input_ids (init_req_max_new_tokens i wanted r)) with (origin_input_ids r).
  destruct (Z.leb_spec (max_req_input_len i) (zlen (origin_input_ids r))); [|lia]. rewrite Hauto. intros [= <-]. simpl origin_input_ids.
  split; [rewrite slice_to_take, zlen_take by lia; done|]. unfold check_finished, finished. simpl fin. rewrite Hfin. simpl to_finish. simpl finished_reason.
  cbn iota. simpl max_new_tokens. simpl output_ids. set (n := Z.min _ _). assert (Hn : n <= 0) by lia.
  destruct (Z.leb_spec n (zlen [t])) as [_|Hlt]; [|change (zlen [t]) with 1 in Hlt; lia].
  eexists _, n. split; [done|]. split; [done|]. split; [done|]. unfold output_ids_through_stop. simpl.
  unfold slice_to, py_slice, py_bound. change (zlen [t]) with 1. change (if 0 <? 0 then _ else _) with 0.
  rewrite Z.sub_0_r. destruct (Z.ltb_spec n 0) as [E|E]; replace (Z.to_nat _) with 0%nat by lia; done.
Qed.
End queue.

(** ** A concrete queue *)

Definition named (id : string) (p : option Z) (r : Req) : Req :=
  set_priority (set_info r {| rid := id; sampling_params := sampling_params (info r); extra_key := extra_key (info r);
    routing_key := routing_key (info r); priority := p; eos_token_ids := eos_token_ids (info r); vocab_size := vocab_size (info r);
    wait_queue_entry_time := wait_queue_entry_time (info r); has_input_embeds := has_input_embeds (info r);
    return_logprob := return_logprob (info r) |}) p.

Definition low_first : QueueConfig :=
  {| enable_priority_scheduling := true; schedule_low_priority_values_first := true; abort_on_priority_when_disabled := true;
     max_queued_requests := Some 2 |}.
Definition full_queue : Queue :=
  {| waiting_queue := [named "a" (Some 7) (sample_req None [1] None 0); named "b" (Some 9) (sample_req None [2] None 0)]; sent := [] |}.

Lemma queue_admission_witness : exists q' r' dropped,
  add_request_to_queue low_first 5 full_queue (named "c" (Some 3) (sample_req None [3] None 0)) = Ok q' /\
  admitted low_first full_queue q' (named "c" (Some 3) (sample_req None [3] None 0)) r' dropped /\ rids dropped = ["b"%string].
Proof.
  destruct (queue_admission low_first 5 full_queue (named "c" (Some 3) (sample_req None [3] None 0))) as (q' & r' & dropped & E & Ha).
  - repeat constructor; intros _; by eexists.
  - vm_compute. set_solver.
  - simpl. lia.
  - exists q', r', dropped. split; [exact E|]. split; [exact Ha|]. pose proof (ad_sent _ _ _ _ _ _ Ha) as Hs.
    vm_compute in E. injection E as <-. simpl in Hs. unfold rids in *. rewrite <- Hs. reflexivity.
Defined.

Definition small_server (truncate : bool) : IntakeConfig :=
  {| max_req_len := 20; max_req_input_len := 15; allow_auto_truncate := truncate |}.
Definition long_request : Req := named "long" (Some 1) (sample_req None (seqZ 0 25) None 0).
Definition no_logprobs : LogprobArgs := {| lp_return := false; lp_start_len := -1; lp_token_ids := false |}.
Definition all_int4 (ids : list Z) : result (list Z) := Ok (map (fun _ => 4) ids).

Lemma new_request_fits_witness : exists r' q' dropped,
  queue_new_request low_first (small_server false) (Some all_int4) (Some 8) no_logprobs 5 full_queue long_request = Ok q' /\
  waiting_queue q' ++ dropped ≡ₚ waiting_queue full_queue ++ [r'] /\ fits_row (small_server false) r' /\ map ab_rid (sent q') = ["b"%string].
Proof.
  destruct (new_request_fits low_first (small_server false) (Some all_int4) (Some 8) no_logprobs 5 full_queue long_request)
    as (r' & q' & dropped & E & Hp & _ & _ & Hf & _).
  - reflexivity.
  - simpl. lia.
  - intros bits [= <-]. by eexists.
  - repeat constructor; intros _; by eexists.
  - vm_compute. set_solver.
  - simpl. lia.
  - exists r', q', dropped. split; [exact E|]. split; [exact Hp|]. split; [exact Hf|]. clear - E. vm_compute in E. by injection E as <-.
Defined.

Lemma truncated_prompt_silent_witness : exists r' r2,
  validate_input_length (small_server true) (init_req_max_new_tokens (small_server true) (Some 3) long_request) = (None, r') /\
  zlen (origin_input_ids r') = 15 /\ check_finished None no_text no_match None (set_output r' [7]) 1 = Ok r2 /\ output_ids_through_stop r2 = [].
Proof.
  destruct (truncated_prompt_silent (small_server true) (Some 3) long_request
    (snd (validate_input_length (small_server true) (init_req_max_new_tokens (small_server true) (Some 3) long_request))) None no_text no_match 7)
    as (Hl & r2 & n & E & _ & _ & Hout).
  - reflexivity.
  - reflexivity.
  - reflexivity.
  - simpl. lia.
  - vm_compute. discriminate.
  - vm_compute. discriminate.
  - reflexivity.
  - eexists _, r2. split; [reflexivity|]. split; [exact Hl|]. split; [exact E|exact Hout].
Defined.
