(* ===== verification/SchedulerDecode.v ===== *)
(** * One decode step of the scheduler

    [prepare_for_decode] of [ScheduleBatch] ([srt/managers/schedule_batch.py])
    as far as memory is concerned, and [update_running_batch] of [Scheduler]
    ([srt/managers/scheduler.py]): finished requests leave the running batch,
    requests are retracted when memory is short, and the next token of every
    other request gets a slot.  [process_batch_result_decode]
    ([srt/managers/scheduler_output_processor_mixin.py]) takes the tokens the
    model returned.  Without speculative decoding, grammars, log probabilities,
    host caches and the hooks that test retraction. *)

From S2P Require Import Prelude Tensors Floats RadixKeys RadixCache Request ReqPool KVAllocator ReqCache MemCommon SchedulePolicy DecodeBatch SchedulerQueue.

(** One more token of the request is committed. *)
Definition bump (r : Req) : Req :=
  let k := kv r in
  set_kv r {| req_pool_idx := req_pool_idx k; kv_committed_len := kv_committed_len k + 1;
              kv_allocated_len := kv_allocated_len k + 1; kv_committed_freed := kv_committed_freed k;
              kv_overallocated_freed := kv_overallocated_freed k |}.

(** What the memory allocation reads of a decode batch. *)
Definition memory_view (b : DecodeBatch) : Batch :=
  {| reqs := b_reqs b; prefix_lens := []; extend_lens := []; seq_lens := b_seq_lens b; extend_num_tokens := 0;
     req_pool_indices := b_req_pool_indices b |}.

Record SchedulerConfig := {
  queue_config : QueueConfig;
  new_token_ratio_decay : f64;
  min_new_token_ratio : f64
}.

Record Scheduler (A : Type) := { memory : Mem A; queue : Queue; new_token_ratio : f64 }.
Arguments memory {A}. Arguments queue {A}. Arguments new_token_ratio {A}. Arguments Build_Scheduler {A}.

(** The abort of a request that retraction gave up: its reason is [to_finish]. *)
Definition send_abort (q : Queue) (r : Req) : result Queue :=
  match to_finish (fin r) with
  | Some (FINISH_ABORT message) => Ok (send q r message)
  | _ => Err AttributeError
  end.

Section decode.
Context (monotonic : nat -> Z) (get_hash_str : list tok -> option string -> string) (is_chunk_cache : bool).
Context {A : Type} {KV : KVAllocator A} {BA : BatchAllocator A} (page_size retract_decode_steps : Z).

(** Returns the input ids of the step, the memory and the batch. *)
Definition prepare_for_decode (m : Mem A) (b : DecodeBatch) : result (option (list Z) * Mem A * DecodeBatch) :=
  let! (out, m1) := alloc_for_decode None m (memory_view b) 1 in
  Ok (b_output_ids b, m1,
      {| b_reqs := map bump (b_reqs b); b_req_pool_indices := b_req_pool_indices b;
         b_seq_lens := map (fun n => n + 1) (b_seq_lens b); b_orig_seq_lens := map (fun n => n + 1) (b_orig_seq_lens b);
         b_seq_lens_sum := b_seq_lens_sum b + zlen (b_reqs b); b_output_ids := None; b_out_cache_loc := Some out;
         b_return_logprob := b_return_logprob b |}).

(** Memory is short: retract, answer the aborted requests, queue the others. *)
Definition retract_and_queue (c : SchedulerConfig) (now : Z) (s : Scheduler A) (b : DecodeBatch)
  : result (Scheduler A * DecodeBatch) :=
  let! (retracted, ratio, to_abort, m, b1) :=
    retract_decode monotonic get_hash_str is_chunk_cache page_size retract_decode_steps (memory s) b in
  let! q1 := rfold send_abort (queue s) to_abort in
  let! q2 := add_all_to_queue (queue_config c) now q1 retracted in
  Ok ({| memory := m; queue := q2; new_token_ratio := ratio |}, b1).

(** [full] is [batch_is_full] of the running batch. *)
Definition update_running_batch (c : SchedulerConfig) (now : Z) (s : Scheduler A) (b : DecodeBatch) (full : bool)
  : result (Scheduler A * DecodeBatch * bool) :=
  let initial_bs := zlen (b_reqs b) in
  let! b1 := filter_batch b [] None in
  if zlen (b_reqs b1) =? 0 then Ok (s, b1, false)
  else
    let! (enough, m1) := check_decode_mem get_hash_str is_chunk_cache page_size (memory s) b1 None in
    let s1 := {| memory := m1; queue := queue s; new_token_ratio := new_token_ratio s |} in
    let! (s2, b2) :=
      if negb enough then retract_and_queue c now s1 b1
      else Ok ({| memory := m1; queue := queue s;
                  new_token_ratio := f64_max (f64_sub (new_token_ratio s) (new_token_ratio_decay c)) (min_new_token_ratio c) |}, b1) in
    let full := if zlen (b_reqs b2) <? initial_bs then false else full in
    if zlen (b_reqs b2) =? 0 then Ok (s2, b2, full)
    else
      let! (_, m2, b3) := prepare_for_decode (memory s2) b2 in
      Ok ({| memory := m2; queue := queue s2; new_token_ratio := new_token_ratio s2 |}, b3, full).

(** ** The tokens of the step *)

Context {KG : KVGroup A} (tokenizer : option Tokenizer) (detokenize : list Z -> string) (re_search : string -> string -> bool).

(** The request takes one token and checks whether it is finished. *)
Definition accept_token (r : Req) (t : Z) : result Req :=
  check_finished tokenizer detokenize re_search None (set_output r (output_ids r ++ [t])) 1.

(** One request; a finished one gives its memory back. *)
Definition process_req (enable_overlap : bool) (m : Mem A) (r : Req) (t : Z) : result (Mem A * Req) :=
  if enable_overlap && (finished r || is_retracted (retract r)) then Ok (m, r)
  else
    let! r1 := accept_token r t in
    if finished r1 then release_kv_cache monotonic get_hash_str false page_size m r1 true else Ok (m, r1).

(** [zip(batch.reqs, next_token_ids)] *)
Fixpoint process_reqs (enable_overlap : bool) (m : Mem A) (rs : list Req) (ts : list Z) : result (Mem A * list Req) :=
  match rs, ts with
  | r :: rs', t :: ts' =>
      let! (m1, r1) := process_req enable_overlap m r t in
      let! (m2, rest) := process_reqs enable_overlap m1 rs' ts' in
      Ok (m2, r1 :: rest)
  | _, _ => Ok (m, rs)
  end.

(** The slots freed meanwhile return to the allocator together, at the end. *)
Definition process_batch_result_decode (enable_overlap : bool) (m : Mem A) (b : DecodeBatch) (next_token_ids : list Z)
  : result (Mem A * DecodeBatch) :=
  let m1 := with_allocator m (kv_group_begin (allocator m)) in
  let! (m2, rs) := process_reqs enable_overlap m1 (b_reqs b) next_token_ids in
  Ok (with_allocator m2 (kv_group_end (allocator m2)), with_reqs b rs).

(** ** Rounds of the event loop without overlap and without prefills

    [forward] is the model: one token for every request of the batch. *)
Context (forward : DecodeBatch -> list Z).

Definition set_output_ids (b : DecodeBatch) (ids : list Z) : DecodeBatch :=
  {| b_reqs := b_reqs b; b_req_pool_indices := b_req_pool_indices b; b_seq_lens := b_seq_lens b;
     b_orig_seq_lens := b_orig_seq_lens b; b_seq_lens_sum := b_seq_lens_sum b; b_output_ids := Some ids;
     b_out_cache_loc := b_out_cache_loc b; b_return_logprob := b_return_logprob b |}.

(** The requests that finish in the round are returned. *)
Definition decode_round (c : SchedulerConfig) (now : Z) (s : Scheduler A) (b : DecodeBatch) (full : bool)
  : result (Scheduler A * DecodeBatch * bool * list Req) :=
  if zlen (b_reqs b) =? 0 then Ok (s, b, full, [])
  else
    let! (s1, b1, full1) := update_running_batch c now s b full in
    if zlen (b_reqs b1) =? 0 then Ok (s1, b1, full1, [])
    else
      let ids := forward b1 in
      let! (m, b2) := process_batch_result_decode false (memory s1) (set_output_ids b1 ids) ids in
      Ok ({| memory := m; queue := queue s1; new_token_ratio := new_token_ratio s1 |}, b2, full1,
          List.filter finished (b_reqs b2)).

(** One round for every clock reading. *)
Fixpoint decode_rounds (c : SchedulerConfig) (nows : list Z) (s : Scheduler A) (b : DecodeBatch) (full : bool)
  : result (Scheduler A * DecodeBatch * bool * list Req) :=
  match nows with
  | [] => Ok (s, b, full, [])
  | now :: rest =>
      let! (s1, b1, full1, finished1) := decode_round c now s b full in
      let! (s2, b2, full2, finished2) := decode_rounds c rest s1 b1 full1 in
      Ok (s2, b2, full2, finished1 ++ finished2)
  end.
End decode.
