(* ===== verification/SchedulerDecodeProps.v ===== *)
(** * A decode step keeps the memory of the running requests

    Every request of a decode step gets a slot of its own for its next token;
    the step never runs out of memory and no request is lost. *)

From S2P Require Import Prelude Tensors Floats TableKernelsTheory BaseAllocator TokenAllocator TriaxialAllocator RadixKeys RadixKeysTheory RadixCache RadixTheory RadixFacts RadixProps Request ReqPool KVAllocator ReqCache ReqCacheProps MemCommon TokenMemProps SchedulePolicy RunningReqs DecodeBatch DecodeBatchProps SchedulerQueue SchedulerQueueProps SchedulerDecode.

(** ** Cells of the table *)

Lemma get_row_nonneg p i row : get_row p (Some i) = Ok row -> 0 <= i -> req_to_token p !! Z.to_nat i = Some row.
Proof. intros Hr H0. destruct (get_row_Some _ _ _ Hr) as [_ Hl]. cbv zeta in Hl. by rewrite (proj2 (Z.ltb_ge i 0)) in Hl by done. Qed.

Lemma lookup_get_row p i row : 0 <= i -> req_to_token p !! Z.to_nat i = Some row -> get_row p (Some i) = Ok row.
Proof. intros H0 E. unfold get_row, py_get. rewrite (proj2 (Z.ltb_ge i 0)) by done. cbv zeta. rewrite (proj2 (Z.ltb_ge i 0)) by done. by rewrite E. Qed.

Lemma write_cell_ok p i col v row : 0 <= i -> 0 <= col < zlen row -> get_row p (Some i) = Ok row ->
  write_cell p (i, col, v) = Ok (set_table p (<[Z.to_nat i := <[Z.to_nat col := v]> row]> (req_to_token p))).
Proof.
  intros Hi [H0 Hc] Hr. unfold write_cell. rewrite Hr. cbn [rbind].
  destruct (lookup_lt_is_Some_2 row (Z.to_nat col)) as [x Hx]; [unfold zlen in Hc; lia|].
  assert (E : py_get row col = Ok x). { unfold py_get. cbv zeta. rewrite (proj2 (Z.ltb_ge col 0)) by done. rewrite (proj2 (Z.ltb_ge col 0)) by done. by rewrite Hx. }
  rewrite E. cbn [rbind]. rewrite (proj2 (Z.ltb_ge col 0)) by done. unfold write_slice. rewrite Hr. cbn [rbind].
  rewrite row_assign_ok by (unfold zlen in *; simpl length; lia). cbn [rbind].
  rewrite (proj2 (Z.ltb_ge i 0)) by done. do 2 f_equal. f_equal.
  rewrite insert_take_drop by (unfold zlen in *; lia). simpl. f_equal. by replace (Z.to_nat (col + 1)) with (S (Z.to_nat col)) by lia.
Qed.

(** Cells in different rows: every row gets its cell, the others are unchanged. *)
Lemma write_cells_ok rows : forall cols vals p, NoDup rows -> length cols = length rows -> length vals = length rows ->
  (forall k i c, rows !! k = Some i -> cols !! k = Some c -> 0 <= i /\ exists row, get_row p (Some i) = Ok row /\ 0 <= c < zlen row) ->
  exists p', write_cells p rows cols vals = Ok p' /\ free_slots p' = free_slots p /\ pool_size p' = pool_size p /\
    (forall k i c v row, rows !! k = Some i -> cols !! k = Some c -> vals !! k = Some v -> get_row p (Some i) = Ok row ->
       get_row p' (Some i) = Ok (<[Z.to_nat c := v]> row)) /\
    (forall j, 0 <= j -> j ∉ rows -> get_row p' (Some j) = get_row p (Some j)).
Proof.
  unfold write_cells. intros cols vals p Hnd Hc Hv. unfold zlen. rewrite Hc, Hv, !Z.eqb_refl. simpl andb. cbn iota.
  revert cols vals p Hnd Hc Hv. induction rows as [|i rows IH]; intros [|c cols] [|v vals] p Hnd Hc Hv Hok; try done.
  { exists p. split_and!; try done. }
  apply list.NoDup_cons in Hnd as [Hi Hnd]. simpl in Hc, Hv.
  destruct (Hok 0%nat i c eq_refl eq_refl) as (H0 & row & Hr & Hcr). cbn [zip zip_with rfold].
  rewrite (write_cell_ok p i c v row) by done. cbn [rbind].
  set (p1 := set_table p _).
  assert (Hother : forall j, 0 <= j -> j <> i -> get_row p1 (Some j) = get_row p (Some j)).
  { intros j Hj Hne. unfold get_row, py_get, p1. simpl. cbv zeta. unfold zlen. rewrite length_insert.
    rewrite (proj2 (Z.ltb_ge j 0)) by done. rewrite list_lookup_insert_ne by lia. done. }
  assert (Hself : get_row p1 (Some i) = Ok (<[Z.to_nat c := v]> row)).
  { apply lookup_get_row; [done|]. apply list_lookup_insert_eq. apply (lookup_lt_Some _ _ row). by apply get_row_nonneg. }
  assert (Hin : forall k j, rows !! k = Some j -> j ∈ rows) by (intros k j Hk; by eapply list_elem_of_lookup_2).
  destruct (IH cols vals p1 Hnd ltac:(lia) ltac:(lia)) as (p' & E & F1 & F2 & Hw & Ho).
  { intros k j d Hj Hd. destruct (Hok (S k) j d Hj Hd) as (Hj0 & rw & Hrw & Hd'). split; [done|]. exists rw.
    rewrite Hother; [done|done|]. intros ->. apply Hi. by eapply Hin. }
  exists p'. split; [exact E|]. split; [by rewrite F1|]. split; [by rewrite F2|]. split.
  - intros [|k] j d w rw Hj Hd Hw' Hrw; simpl in *.
    + injection Hj as <-. injection Hd as <-. injection Hw' as <-. rewrite Hr in Hrw. injection Hrw as <-. rewrite Ho by done. done.
    + destruct (Hok (S k) j d Hj Hd) as (Hj0 & _). apply (Hw k j d w rw Hj Hd Hw'). rewrite Hother; [done|done|]. intros ->. apply Hi. by eapply Hin.
  - intros j Hj Hni. rewrite Ho, Hother; [done|done|set_solver|done|set_solver].
Qed.

(** ** Keys of a longer request *)

Lemma adjacent_snoc l t : adjacent l `prefix_of` adjacent (l ++ [t]).
Proof.
  induction l as [|a [|b l] IH]; [apply prefix_nil|apply prefix_nil|]. change (adjacent (a :: b :: l)) with ((fst a, Some (fst b)) :: adjacent (b :: l)).
  change (adjacent ((a :: b :: l) ++ [t])) with ((fst a, Some (fst b)) :: adjacent ((b :: l) ++ [t])). by apply prefix_cons.
Qed.

Lemma bigram_snoc (ids : list Z) (t : Z) : convert_to_bigram_key (map (fun x => (x, None)) ids) `prefix_of` convert_to_bigram_key (map (fun x => (x, None)) (ids ++ [t])).
Proof.
  rewrite map_app. destruct ids as [|a [|b ids]]; [apply prefix_nil|apply prefix_nil|]. unfold convert_to_bigram_key. simpl map. cbn [is_tuple snd app].
  rewrite !(proj2 (Z.ltb_ge _ 2)) by (unfold zlen; simpl length; lia).
  exact (adjacent_snoc ((a, None) :: (b, None) :: map (fun x => (x, None)) ids) (t, None)).
Qed.

Lemma take_prefix {B} (l k : list B) n n' : l `prefix_of` k -> (n <= n')%nat -> (n <= length l)%nat -> take n l `prefix_of` take n' k.
Proof.
  intros [s ->] Hn Hl. exists (take (n' - n) (drop n (l ++ s))).
  rewrite <- (take_app_le l s n) by lia. replace n' with (n + (n' - n))%nat at 1 by lia. symmetry. apply take_take_drop.
Qed.

Lemma tree_keys_snoc st ids t : 1 <= RadixCache.page_size st -> tree_keys st ids `prefix_of` tree_keys st (ids ++ [t]).
Proof.
  intros HP. unfold tree_keys, page_align_keys. set (ks := if is_eagle st then _ else _). set (ks' := if is_eagle st then _ else _).
  assert (Hp : ks `prefix_of` ks').
  { unfold ks, ks'. destruct (is_eagle st); [apply bigram_snoc|]. rewrite map_app. by eexists. }
  destruct (RadixCache.page_size st =? 1); [done|]. pose proof (prefix_length _ _ Hp) as Hl.
  pose proof (zlen_nonneg ks). pose proof (zlen_nonneg ks').
  assert (Hd : zlen ks / RadixCache.page_size st <= zlen ks' / RadixCache.page_size st) by (apply Z.div_le_mono; unfold zlen; lia).
  assert (0 <= zlen ks / RadixCache.page_size st) by (apply Z.div_pos; lia).
  pose proof (Z.mul_div_le (zlen ks) (RadixCache.page_size st) ltac:(lia)).
  rewrite !slice_to_take by nia. apply take_prefix; [done|nia|unfold zlen in *; nia].
Qed.

Section decode.
Context (mono : nat -> Z) (gh : list tok -> option string -> string) (chunk : bool).
Context {A : Type} {KV : KVAllocator A} {KL : KVAllocatorLaws A} {KD : KVDecodeLaws A} {BA : BatchAllocator A}.

(** Token by token allocation of decode slots, as the token and the TriAxialKV
    allocators have it. *)
Class TokenDecode : Prop := decode_slots_token m b k : decode_slots m b k = alloc_token_slots gh chunk m (zlen (seq_lens b) * k).

Context {TD : TokenDecode} (Hs : list nat) (others rows : list Z).

(** The request has a sampled token that is not committed yet. *)
Definition ready (r : Req) : Prop := 0 <= kv_committed_len (kv r) < seqlen r.

Lemma committed_snoc r : ready r -> zlen (committed_ids r) = kv_committed_len (kv r) /\
  exists t, committed_ids (bump r) = committed_ids r ++ [t].
Proof.
  intros [H0 Hs']. unfold committed_ids. simpl. set (ids := origin_input_ids r ++ output_ids r).
  assert (Hl : kv_committed_len (kv r) < zlen ids) by (unfold ids, seqlen in *; rewrite zlen_app; lia).
  rewrite !slice_to_take by lia. split; [apply zlen_take; lia|].
  destruct (lookup_lt_is_Some_2 ids (Z.to_nat (kv_committed_len (kv r)))) as [t Ht]; [unfold zlen in Hl; lia|]. exists t.
  replace (Z.to_nat (kv_committed_len (kv r) + 1)) with (S (Z.to_nat (kv_committed_len (kv r)))) by lia. by apply take_S_r.
Qed.

(** The new slot joins the slots the request owns. *)
Lemma running_bump (m m' : Mem A) r v : running m r -> ready r -> 1 <= RadixCache.page_size (tree_cache m) -> tree_cache m' = tree_cache m ->
  get_row (req_pool m') (req_pool_idx (kv r)) = Ok (<[Z.to_nat (kv_committed_len (kv r)) := v]> (row_of m r)) ->
  running m' (bump r) /\ own_slots m' (bump r) = own_slots m r ++ [v].
Proof.
  intros [[R1 R2 R3 [P1 P2 P3 P4]] G1 G2 G3 G4] Hrd HP Et Hrow. pose proof Hrd as [H0 Hs'].
  assert (Hc : kv_committed_len (kv r) < zlen (row_of m r)) by lia. destruct (committed_snoc r Hrd) as (Hlen & t & Eids). pose proof (tree_keys_len (tree_cache m) (committed_ids r)) as Hkl.
  set (c := kv_committed_len (kv r)) in *. set (prot := cache_protected_len (pre r)) in *.
  set (row := row_of m r) in *. set (row' := <[Z.to_nat c := v]> row) in *.
  assert (Er : row_of m' (bump r) = row') by (unfold row_of; simpl; by rewrite Hrow).
  assert (Elen : length (committed_ids r) = Z.to_nat c) by (unfold zlen in Hlen; lia).
  assert (Etake : take (Z.to_nat c) row' = take (Z.to_nat c) row) by (unfold row'; by rewrite take_insert_ge by lia).
  assert (Esucc : take (S (Z.to_nat c)) row' = take (Z.to_nat c) row ++ [v]).
  { rewrite (take_S_r row' _ v), Etake; [done|]. unfold row'. apply list_lookup_insert_eq. unfold zlen in Hc. lia. }
  destruct (tree_keys_snoc (tree_cache m) (committed_ids r) t HP) as [ext Eext].
  assert (Hprot : (Z.to_nat prot <= Z.to_nat c)%nat) by lia.
  split.
  - split; try done; [|by simpl; rewrite G3|rewrite Er; unfold row', zlen in *; by rewrite length_insert]. rewrite Er. split; [done| |done|].
    + rewrite Eids, zlen_app. unfold row', zlen in *. rewrite length_insert. simpl length. lia.
    + simpl extra_key. rewrite Eids, Et, Eext, length_app, Elen. simpl length.
      replace (Z.to_nat c + 1)%nat with (S (Z.to_nat c)) by lia. rewrite Esucc. rewrite Elen in P3. split; [| | |done].
      * change (cache_protected_len (pre (bump r))) with prot. rewrite zlen_app. pose proof (zlen_nonneg ext). lia.
      * done.
      * change (cache_protected_len (pre (bump r))) with prot. change (node_of (bump r)) with (node_of r).
        rewrite (take_app_le (tree_keys _ _)) by (unfold zlen in P1; lia).
        rewrite take_app_le; [done|]. rewrite length_take. unfold zlen in *. lia.
  - unfold own_slots, private_slots. rewrite Er, Eids, length_app, Elen. simpl length. change (cache_protected_len (pre (bump r))) with prot.
    fold prot row. replace (Z.to_nat c + 1)%nat with (S (Z.to_nat c)) by lia. rewrite Esucc, drop_app_le; [done|].
    rewrite length_take. unfold zlen in *. lia.
Qed.

Lemma bump_slots (m m' : Mem A) rs out : Forall2 (fun r v => running m' (bump r) /\ own_slots m' (bump r) = own_slots m r ++ [v]) rs out ->
  Forall (running m') (map bump rs) /\ concat (map (own_slots m') (map bump rs)) ≡ₚ out ++ concat (map (own_slots m) rs).
Proof.
  induction 1 as [|r v rs out [H1 H2] _ [IH1 IH2]]; [done|]. simpl. split; [by constructor|]. rewrite H2, IH2, <- app_assoc. simpl.
  rewrite <- Permutation_middle. by rewrite Permutation_app_swap_app.
Qed.

Lemma held_bump rs : held (map bump rs) = held rs.
Proof. induction rs as [|r rs IH]; [done|]. simpl map. rewrite !held_cons, IH. done. Qed.

Lemma node_bump rs : map node_of (map bump rs) = map node_of rs.
Proof. by rewrite map_map. Qed.

(** The arrays of the batch name the rows and the lengths of its requests. *)
Definition aligned (b : DecodeBatch) : Prop :=
  b_req_pool_indices b = held (b_reqs b) /\ b_seq_lens b = map (fun r => kv_committed_len (kv r)) (b_reqs b).

Lemma running_rows m rs : running_ok mono gh m rs Hs others rows ->
  length (held rs) = length rs /\ NoDup (held rs) /\
  forall k r, rs !! k = Some r -> exists i, held rs !! k = Some i /\ req_pool_idx (kv r) = Some i /\ 0 <= i /\ get_row (req_pool m) (Some i) = Ok (row_of m r).
Proof.
  intros [H1 H2 H3 H4 H5].
  assert (Hl : length (held rs) = length rs).
  { apply held_length. eapply list.Forall_impl; [exact H4|]. intros r Hr Ei. pose proof (hk_row _ _ _ _ _ (rn_held _ _ Hr)) as Hg. by rewrite Ei in Hg. }
  unfold pool_inv in H3. split; [done|]. split.
  - assert (Hnd : NoDup (free_slots (req_pool m) ++ held rs ++ rows)) by (rewrite H3; apply NoDup_seqZ).
    apply list.NoDup_app in Hnd as (_ & _ & Hnd). by apply list.NoDup_app in Hnd as (? & _).
  - intros k r Hk. destruct (held_lookup rs k r Hl Hk) as (i & Ei & Hi). exists i. split_and!; try done.
    + assert (Hin : i ∈ seqZ 0 (pool_size (req_pool m))) by (rewrite <- H3; apply elem_of_app; right; apply elem_of_app; left; by eapply list_elem_of_lookup_2).
      apply elem_of_seqZ in Hin. lia.
    + rewrite list.Forall_lookup in H4. specialize (H4 k r Hk). simpl in H4. pose proof (hk_row _ _ _ _ _ (rn_held _ _ H4)) as Hg. by rewrite Ei in Hg.
Qed.

Lemma alloc_decode_tokens m rs n : running_ok mono gh m rs Hs others rows -> 0 <= n <= kv_decode_available (allocator m) ->
  exists out a', alloc_token_slots gh chunk m n = Ok (out, with_allocator m a') /\ zlen out = n /\ kv_open a' /\
    kv_inv a' (out ++ concat (map (own_slots m) rs) ++ held_slots (tree_cache m) ++ others).
Proof.
  intros [H1 H2 H3 H4 H5] Hn. destruct (kv_decode_law _ n _ H5 H2 Hn) as (Esh & out & a' & E).
  unfold alloc_token_slots, evict_from_tree_cache. rewrite Esh. assert (Ee : (if chunk then Ok m else Ok m) = Ok m) by (by destruct chunk).
  rewrite Ee. cbn [rbind]. rewrite E. exists out, a'. destruct (kv_alloc_inv _ _ _ _ _ (proj1 Hn) H2 E) as [Hl Hi].
  split_and!; try done. by eapply kv_open_alloc.
Qed.

Lemma prepare_ok m b : running_ok mono gh m (b_reqs b) Hs others rows -> Forall ready (b_reqs b) -> aligned b -> arrays_ok b ->
  zlen (b_reqs b) <= kv_decode_available (allocator m) ->
  exists ids m' b', prepare_for_decode m b = Ok (ids, m', b') /\ b_reqs b' = map bump (b_reqs b) /\ aligned b' /\ arrays_ok b' /\
    running_ok mono gh m' (b_reqs b') Hs others rows.
Proof.
  intros Hok Hrd [Ea1 Ea2] Har Hfit. set (rs := b_reqs b) in *. destruct (running_rows m rs Hok) as (Hlen & Hnd & Hrow).
  pose proof Hok as [H1 H2 H3 H4 H5]. unfold prepare_for_decode, alloc_for_decode. rewrite decode_slots_token. simpl seq_lens. rewrite Ea2.
  assert (En : zlen (map (fun r => kv_committed_len (kv r)) rs) * 1 = zlen rs) by (unfold zlen; rewrite length_map; lia). rewrite En.
  destruct (alloc_decode_tokens m rs (zlen rs) Hok) as (out & a' & Eal & Hol & Hop & Hinv); [split; [apply zlen_nonneg|done]|].
  rewrite Eal. cbn [rbind]. simpl req_pool_indices. rewrite Ea1. simpl req_pool.
  destruct (write_cells_ok (held rs) (map (fun r => kv_committed_len (kv r)) rs) out (req_pool m)) as (p' & Ew & F1 & F2 & Hw & _).
  - done.
  - by rewrite length_map.
  - unfold zlen in Hol. lia.
  - intros k i cc Hi Hc. rewrite map_lookup in Hc. destruct (rs !! k) as [r|] eqn:Er; [|done]. injection Hc as <-.
    destruct (Hrow k r Er) as (j & Hj & _ & Hj0 & Hg). rewrite Hi in Hj. injection Hj as <-. split; [done|]. exists (row_of m r). split; [done|].
    rewrite list.Forall_lookup in Hrd, H4. destruct (Hrd k r Er). pose proof (rn_room _ _ (H4 k r Er)). simpl in *. lia.
  - rewrite Ew. cbn [rbind]. eexists _, (with_pool (with_allocator m a') p'), _. split; [done|]. split; [done|].
    assert (Hb : Forall2 (fun r v => running (with_pool (with_allocator m a') p') (bump r) /\
      own_slots (with_pool (with_allocator m a') p') (bump r) = own_slots m r ++ [v]) rs out).
    { apply Forall2_same_length_lookup. split; [unfold zlen in Hol; lia|]. intros k r v Hr Hv.
      destruct (Hrow k r Hr) as (i & Hi & Ei & _ & Hg). rewrite list.Forall_lookup in H4, Hrd. apply running_bump; [by eapply H4|by eapply Hrd| |done|].
      - destruct (rreach_inv _ _ _ _ H1) as (_ & L & pl & Hri). apply (tr_ps _ _ _ (RadixLocks.ri_tree _ _ _ _ Hri)).
      - rewrite Ei. simpl. eapply Hw; [exact Hi| |exact Hv|exact Hg]. by rewrite map_lookup, Hr. }
    destruct (bump_slots _ _ _ _ Hb) as [G1 G2]. split.
    { split; simpl; [by rewrite held_bump|]. rewrite !map_map. done. }
    split.
    { split; simpl; rewrite ?length_map; [by rewrite <- Ea1; apply Har|done|apply Har|done]. }
    simpl b_reqs. split; simpl.
    + by rewrite node_bump.
    + eapply kv_inv_perm; [|exact Hinv]. rewrite app_assoc. apply Permutation_app_tail. symmetry. exact G2.
    + rewrite held_bump. unfold pool_inv in *. by rewrite F1, F2.
    + done.
    + done.
Qed.

(** ** Leaving finished requests out *)

Definition live (b : DecodeBatch) : list Req := List.filter (fun r => negb (finished r)) (b_reqs b).

(** The arrays of a batch that may still hold finished requests. *)
Definition rows_aligned (b : DecodeBatch) : Prop :=
  forall i r, at_index (b_reqs b) i r -> finished r = false ->
    exists k, req_pool_idx (kv r) = Some k /\ at_index (b_req_pool_indices b) i k /\ at_index (b_seq_lens b) i (kv_committed_len (kv r)).

Lemma filter_related {B C} (R : B -> C -> Prop) (f : B -> bool) (g : C -> bool) l k :
  (forall x y, R x y -> f x = g y) -> Forall2 R l k -> Forall2 R (List.filter f l) (List.filter g k).
Proof.
  intros Hfg. induction 1 as [|x y l k Hxy _ IH]; [constructor|]. simpl. rewrite (Hfg _ _ Hxy). destruct (g y); [by constructor|done].
Qed.

(** The requests that [filter_batch] keeps. *)
Definition stays (b : DecodeBatch) (exclude : list string) : list Req :=
  List.filter (fun r => negb (finished r) && negb (existsb (String.eqb (rid (info r))) exclude)) (b_reqs b).

Lemma stays_live b : stays b [] = live b.
Proof. unfold stays, live. apply filter_ext. intros r. simpl. by rewrite andb_true_r. Qed.

Lemma kept_stays b ex : picks (b_reqs b) (kept_indices b ex None) (stays b ex).
Proof. unfold kept_indices, stays. eapply filter_related; [|apply picks_all]. intros i r [_ Hr]. by rewrite Hr. Qed.

Lemma filter_whole {B} (f : B -> bool) l : length (List.filter f l) = length l -> List.filter f l = l.
Proof.
  induction l as [|x l IH]; [done|]. simpl. destruct (f x); simpl; intros E; [by rewrite IH by lia|].
  pose proof (filter_length_le f l). lia.
Qed.

Lemma picks_aligned b idx rs ks ns : rows_aligned b -> Forall (fun r => finished r = false) rs -> picks (b_reqs b) idx rs ->
  picks (b_req_pool_indices b) idx ks -> picks (b_seq_lens b) idx ns -> ks = held rs /\ ns = map (fun r => kv_committed_len (kv r)) rs.
Proof.
  intros Ha Hf Hp. revert ks ns Hf. induction Hp as [|i r idx rs Hi _ IH]; intros ks ns Hf Hk Hn.
  { apply Forall2_nil_inv_l in Hk as ->. by apply Forall2_nil_inv_l in Hn as ->. }
  apply Forall2_cons_inv_l in Hk as (k & ks' & [_ Hk] & Hks & ->). apply Forall2_cons_inv_l in Hn as (n & ns' & [_ Hn] & Hns & ->).
  apply list.Forall_cons in Hf as [Hfr Hf]. destruct (Ha i r Hi Hfr) as (k' & Ek & [_ Hk'] & [_ Hn']).
  destruct (IH _ _ Hf Hks Hns) as [-> ->]. rewrite held_cons, Ek. simpl. split; congruence.
Qed.

Lemma live_unfinished b : Forall (fun r => finished r = false) (live b).
Proof. apply list.Forall_forall. intros r Hr%list_elem_of_In%filter_In. by apply negb_true_iff, Hr. Qed.

Lemma stays_unfinished b ex : Forall (fun r => finished r = false) (stays b ex).
Proof. apply list.Forall_forall. intros r Hr%list_elem_of_In%filter_In. destruct Hr as [_ [H _]%andb_prop]. by apply negb_true_iff. Qed.

Lemma filter_stays b ex : arrays_ok b -> rows_aligned b ->
  exists b1, filter_batch b ex None = Ok b1 /\ b_reqs b1 = stays b ex /\ (stays b ex <> [] -> arrays_ok b1 /\ aligned b1) /\
    (forall o, b_output_ids b = Some o -> exists o', b_output_ids b1 = Some o').
Proof.
  intros Har Hal. change (filter_batch b ex None) with (filter_batch b [] (Some (kept_indices b ex None))). pose proof (kept_stays b ex) as Hp.
  destruct (kept_indices b ex None) as [|i idx] eqn:Ek.
  { apply Forall2_nil_inv_l in Hp as ->. exists (with_reqs b []). split_and!; try done. intros o Ho. by exists o. }
  destruct (filter_keep b (i :: idx) (stays b ex) Har Hp) as (b1 & E & Er & P1 & P2 & Har1 & Ho); [done| |].
  { intros Hl. rewrite <- Ek in *. unfold kept_indices in *. apply filter_whole. rewrite Hl. unfold zlen. rewrite length_seqZ. lia. }
  exists b1. split; [done|]. split; [done|]. split; [|done]. intros _. split; [done|].
  destruct (picks_aligned b _ _ _ _ Hal (stays_unfinished b ex) Hp P1 P2). by split; rewrite Er.
Qed.

Lemma aligned_rows b : aligned b -> length (held (b_reqs b)) = length (b_reqs b) -> rows_aligned b.
Proof.
  intros [E1 E2] Hl i r [H0 Hr] _. destruct (held_lookup _ _ _ Hl Hr) as (k & Ek & Hk). exists k. unfold at_index. rewrite E1, E2, map_lookup, Hr. done.
Qed.

(** ** Retracted requests go back to the queue *)

Context (steps : Z) (c : SchedulerConfig).

Definition queue_ok (q : Queue) (rs : list Req) : Prop :=
  Forall (has_priority (queue_config c)) (waiting_queue q) /\ NoDup (rids (waiting_queue q ++ rs)) /\
  match max_queued_requests (queue_config c) with Some n => 1 <= n | None => True end.

(** The requests [back] are queued again (or answered when the queue is full)
    and the requests [aborted] are answered. *)
Record requeued (q q' : Queue) (back aborted : list Req) : Prop := {
  rq_all : exists back' dropped, Forall2 same_work (map retracted back) back' /\
    waiting_queue q' ++ dropped ≡ₚ waiting_queue q ++ back' /\
    map ab_rid (sent q') = map ab_rid (sent q) ++ rids aborted ++ rids dropped;
  rq_limit : within_limit (queue_config c) (waiting_queue q) -> within_limit (queue_config c) (waiting_queue q');
  rq_priority : Forall (has_priority (queue_config c)) (waiting_queue q')
}.

Lemma rids_retracted rs : rids (map retracted rs) = rids rs.
Proof. unfold rids. by rewrite map_map. Qed.

Lemma need_one rs : need 1 rs = zlen rs.
Proof.
  unfold need, count. rewrite (filter_all (fun r => kv_committed_len (kv r) mod 1 =? 0)); [lia|]. intros r _. by rewrite Z.mod_1_r.
Qed.

Lemma queue_stage now q rs back aborted : queue_ok q rs -> back ⊆+ rs ->
  (forall r, r ∈ aborted -> exists m, to_finish (fin r) = Some (FINISH_ABORT m)) ->
  exists q1 q2, rfold send_abort q aborted = Ok q1 /\ add_all_to_queue (queue_config c) now q1 (map retracted back) = Ok q2 /\
    requeued q q2 back aborted.
Proof.
  intros (Hp & Hnd & Hlim) Hsub Hab.
  assert (Hsend : exists q1, rfold send_abort q aborted = Ok q1 /\ waiting_queue q1 = waiting_queue q /\
    map ab_rid (sent q1) = map ab_rid (sent q) ++ rids aborted).
  { clear Hp Hnd Hlim Hsub. revert q. induction aborted as [|r aborted IH]; intros q; [exists q; by rewrite app_nil_r|].
    destruct (Hab r) as [msg Em]; [by left|]. simpl. unfold send_abort at 1. rewrite Em. cbn [rbind].
    destruct (IH ltac:(intros x Hx; apply Hab; by right) (send q r msg)) as (q1 & E & H1 & H2). exists q1. split; [done|]. split; [done|].
    rewrite H2. simpl. rewrite map_app, <- app_assoc. done. }
  destruct Hsend as (q1 & E1 & Ew & Es).
  destruct (add_all_ok (queue_config c) now (map retracted back) q1) as (q2 & back' & dropped & E2 & [A1 A2 A3 A4 A5]).
  - by rewrite Ew.
  - rewrite Ew, rids_app, rids_retracted, <- rids_app. apply submseteq_Permutation in Hsub as [k Hk].
    apply (Permutation_map (fun r => rid (info r))) in Hk. rewrite map_app in Hk.
    rewrite rids_app in Hnd |- *. unfold rids in *. rewrite Hk, app_assoc in Hnd. by apply list.NoDup_app in Hnd as [? _].
  - done.
  - exists q1, q2. split; [done|]. split; [done|]. split; [|by rewrite <- Ew|done].
    exists back', dropped. split_and!; [done|by rewrite A2, Ew|]. by rewrite A3, Es, <- app_assoc.
Qed.

Lemma retract_stage now s b : b_reqs b <> [] -> arrays_ok b -> aligned b -> running_ok mono gh (memory s) (b_reqs b) Hs others rows ->
  Forall (fun r => finished r = false) (b_reqs b) -> queue_ok (queue s) (b_reqs b) ->
  exists s' b' back aborted, retract_and_queue mono gh chunk 1 steps c now s b = Ok (s', b') /\
    b_reqs b ≡ₚ b_reqs b' ++ back ++ aborted /\ running_ok mono gh (memory s') (b_reqs b') Hs others rows /\
    requeued (queue s) (queue s') back aborted /\
    ((aborted = [] /\ b_reqs b' <> [] /\ aligned b' /\ arrays_ok b' /\ zlen (b_reqs b') <= kv_decode_available (allocator (memory s'))) \/
     (b_reqs b' = [] /\ zlen aborted = 1)).
Proof.
  intros Hne Har Hal Hok Hfin Hq. destruct (running_rows _ _ Hok) as (Hhl & _).
  destruct (retract_decode_ok mono gh chunk 1 steps Hs others rows (memory s) b Hne Har Hok)
    as (out & ratio & ab & m' & b' & kept & back & lost & rs & E & Hperm & _ & Hpk & Hpb & -> & _ & Hok' & Hcase).
  destruct (picks_perm (b_reqs b) _ _ (Permutation_sym Hperm) _ (picks_all _)) as (xs & Hxs & Hpx).
  apply Forall2_app_inv_l in Hxs as (rk & rest & Hk & Hrest & ->). apply Forall2_app_inv_l in Hrest as (rl & rb & Hl & Hb & ->).
  rewrite (picks_unique _ _ _ _ Hk Hpk) in Hpx. clear Hk rk.
  destruct (picks_perm (b_reqs b) (rev back) back (Permutation_sym (Permutation_rev back)) _ Hb) as (rb' & Hb' & Hprb).
  rewrite (picks_unique _ _ _ _ Hb' Hpb) in Hprb. clear Hb' rb'. rewrite (Permutation_app_comm rl), Hprb in Hpx.
  assert (Hsub : rs ⊆+ b_reqs b) by (rewrite Hpx, Permutation_app_swap_app; by apply submseteq_inserts_r).
  assert (Habort : forall r, r ∈ ab -> exists msg, to_finish (fin r) = Some (FINISH_ABORT msg)).
  { destruct Hcase as [(_ & -> & _)|(_ & i & r & m1 & m2 & _ & _ & -> & _)]; [by intros r ?%not_elem_of_nil|].
    intros q ->%list_elem_of_singleton. by exists abort_message. }
  destruct (queue_stage now (queue s) (b_reqs b) rs ab Hq Hsub Habort) as (q1 & q2 & E1 & E2 & Hre).
  unfold retract_and_queue. rewrite E. cbn [rbind]. rewrite E1. cbn [rbind]. rewrite E2. cbn [rbind].
  destruct Hcase as [(-> & -> & Hkn & (k & Ek & Hfit) & P1 & P2 & Har')|(-> & i & r & m1 & m2 & -> & Hi & -> & _)].
  - apply Forall2_nil_inv_l in Hl as ->. rewrite app_nil_r in Hpx.
    eexists _, b', rs, []. rewrite app_nil_r. split; [done|]. split; [done|]. split; [done|]. split; [done|]. left. split; [done|]. split.
    { intros E0. rewrite E0 in Hpk. by apply Forall2_nil_inv_r in Hpk. }
    split; [|split; [done|]; unfold new_tokens_required_next_decode in Ek; injection Ek as <-; rewrite <- need_one; exact Hfit].
    assert (Hf : Forall (fun r => finished r = false) (b_reqs b')) by (rewrite Hpx in Hfin; by apply Forall_app in Hfin as [? _]).
    destruct (picks_aligned b _ _ _ _ (aligned_rows b Hal Hhl) Hf Hpk P1 P2). by split.
  - apply Forall2_cons_inv_l in Hl as (r' & l' & [_ Hi'] & Hl & ->). apply Forall2_nil_inv_l in Hl as ->.
    destruct Hi as [_ Hi]. rewrite Hi in Hi'. injection Hi' as <-. apply Forall2_nil_inv_l in Hpk. rewrite Hpk in *.
    eexists _, b', rs, [r]. rewrite Hpk. split; [done|]. split; [done|]. split; [done|]. split; [|by right].
    destruct Hre as [(back' & dropped & W1 & W2 & W3) W4 W5]. split; [|done|done]. by exists back', dropped.
Qed.

Lemma check_all_ok m b : running_ok mono gh m (b_reqs b) Hs others rows ->
  exists res m', check_decode_mem gh chunk 1 m b None = Ok (res, m') /\ running_ok mono gh m' (b_reqs b) Hs others rows /\
    (res = true -> zlen (b_reqs b) <= kv_decode_available (allocator m')).
Proof.
  intros Hm. unfold check_decode_mem, new_tokens_required_next_decode. cbn [rbind]. fold (need 1 (b_reqs b)). rewrite need_one.
  destruct (evict_running mono gh chunk _ _ _ _ _ (zlen (b_reqs b)) Hm) as (m' & E & Hm'). rewrite E. cbn [rbind].
  eexists _, m'. split; [done|]. split; [done|]. apply Z.leb_le.
Qed.

Lemma decode_step_ok now s b full :
  arrays_ok b -> rows_aligned b -> running_ok mono gh (memory s) (live b) Hs others rows -> Forall ready (live b) ->
  queue_ok (queue s) (live b) ->
  exists s' b' full' kept back aborted,
    update_running_batch mono gh chunk 1 steps c now s b full = Ok (s', b', full') /\
    live b ≡ₚ kept ++ back ++ aborted /\ b_reqs b' = map bump kept /\
    running_ok mono gh (memory s') (b_reqs b') Hs others rows /\ (kept <> [] -> aligned b' /\ arrays_ok b') /\
    requeued (queue s) (queue s') back aborted /\
    (aborted <> [] -> kept = [] /\ zlen aborted = 1).
Proof.
  intros Har Hal Hok Hrd Hq. destruct (filter_stays b [] Har Hal) as (b1 & Ef & Er & Hb1 & _). rewrite stays_live in *.
  unfold update_running_batch. rewrite Ef. cbn [rbind]. rewrite Er.
  assert (Hno : requeued (queue s) (queue s) [] []).
  { split; [|done|apply Hq]. exists [], []. split_and!; [constructor|done|by rewrite app_nil_r]. }
  destruct (Z.eqb_spec (zlen (live b)) 0) as [E0|Hne].
  { assert (E1 : live b = []) by (apply zlen_le_0; lia). rewrite E1 in *. eexists s, b1, false, [], [], []. rewrite Er. by split_and!. }
  assert (Hlive : live b <> []) by (intros E0; by rewrite E0 in Hne). destruct (Hb1 Hlive) as [Har1 Hal1]. rewrite <- Er in *.
  destruct (check_all_ok (memory s) b1 Hok) as (res & m1 & Ec & Hok1 & Hfit). rewrite Ec. cbn [rbind].
  assert (Hstage : exists s2 b2 back aborted,
    (if negb res then retract_and_queue mono gh chunk 1 steps c now {| memory := m1; queue := queue s; new_token_ratio := new_token_ratio s |} b1
     else Ok ({| memory := m1; queue := queue s;
        new_token_ratio := f64_max (f64_sub (new_token_ratio s) (new_token_ratio_decay c)) (min_new_token_ratio c) |}, b1)) = Ok (s2, b2) /\
    b_reqs b1 ≡ₚ b_reqs b2 ++ back ++ aborted /\ running_ok mono gh (memory s2) (b_reqs b2) Hs others rows /\
    requeued (queue s) (queue s2) back aborted /\
    ((aborted = [] /\ b_reqs b2 <> [] /\ aligned b2 /\ arrays_ok b2 /\ zlen (b_reqs b2) <= kv_decode_available (allocator (memory s2))) \/
     (b_reqs b2 = [] /\ zlen aborted = 1))).
  { destruct res; simpl negb; cbn iota.
    - eexists _, b1, [], []. rewrite !app_nil_r. split; [done|]. split; [done|]. split; [done|]. split; [done|]. left. by split_and!; auto.
    - exact (retract_stage now {| memory := m1; queue := queue s; new_token_ratio := new_token_ratio s |} b1 Hlive Har1 Hal1 Hok1
        ltac:(rewrite Er; apply live_unfinished) Hq). }
  destruct Hstage as (s2 & b2 & back & aborted & E2 & Hperm & Hok2 & Hre & Hend). rewrite E2. cbn [rbind].
  destruct Hend as [(-> & Hn2 & Hal2 & Har2 & Hfit2)|[E0 Hone]].
  - destruct (Z.eqb_spec (zlen (b_reqs b2)) 0) as [E0|_]; [by assert (b_reqs b2 = []) by (apply zlen_le_0; lia)|].
    assert (Hrd2 : Forall ready (b_reqs b2)) by (rewrite Hperm in Hrd; by apply Forall_app in Hrd as [? _]).
    destruct (prepare_ok (memory s2) b2 Hok2 Hrd2 Hal2 Har2 Hfit2) as (ids & m3 & b3 & E3 & Eb3 & Hal3 & Har3 & Hok3). rewrite E3. cbn [rbind].
    eexists _, b3, _, (b_reqs b2), back, []. split; [done|]. by split_and!.
  - rewrite E0. simpl. eexists s2, b2, _, [], back, aborted. split; [done|]. rewrite E0 in *. by split_and!.
Qed.

(** C11: a decode step of the scheduler always succeeds: it never runs out of
    memory.  The unfinished requests of the running batch are the ones that
    decode, the ones that go back to the queue (or are answered when it is
    full) and at most one that is aborted, which happens only when nothing
    else is left to decode.  Every decoding request has one more slot of its
    own, and the tree, the allocator, the request table and the arrays of the
    batch are consistent with exactly these requests. *)
Theorem decode_step_conserves now s b full :
  arrays_ok b -> rows_aligned b -> running_ok mono gh (memory s) (live b) Hs others rows -> Forall ready (live b) ->
  queue_ok (queue s) (live b) ->
  exists s' b' full' kept back aborted,
    update_running_batch mono gh chunk 1 steps c now s b full = Ok (s', b', full') /\
    live b ≡ₚ kept ++ back ++ aborted /\ b_reqs b' = map bump kept /\
    running_ok mono gh (memory s') (b_reqs b') Hs others rows /\ (kept <> [] -> aligned b' /\ arrays_ok b') /\
    requeued (queue s) (queue s') back aborted /\
    (aborted <> [] -> kept = [] /\ zlen aborted = 1).
Proof. by apply decode_step_ok. Qed.
End decode.

#[global] Instance token_token_decode gh chunk : @TokenDecode gh chunk BaseAllocator _ (token_batch_allocator gh chunk).
Proof. intros m b k. reflexivity. Qed.

#[global] Instance triaxial_token_decode gh chunk : @TokenDecode gh chunk TriaxialAllocator _ (triaxial_batch_allocator gh chunk).
Proof. intros m b k. reflexivity. Qed.

(** ** A concrete step *)

(** Two running requests with a sampled token each and a finished one. *)
Definition step_batch : DecodeBatch :=
  {| b_reqs := [named "a" None (set_output sample [9]);
                set_finished (named "f" None (sample_req None [1] None 0)) (FINISH_LENGTH 1) None;
                named "b" None (set_output second [8])];
     b_req_pool_indices := [0; 0; 1]; b_seq_lens := [4; 1; 2]; b_orig_seq_lens := [4; 1; 2];
     b_seq_lens_sum := 7; b_output_ids := Some [9; 0; 8]; b_out_cache_loc := None; b_return_logprob := false |}.

Definition step_config : SchedulerConfig :=
  {| queue_config := {| enable_priority_scheduling := false; schedule_low_priority_values_first := false;
                        abort_on_priority_when_disabled := false; max_queued_requests := None |};
     new_token_ratio_decay := f64_ratio 1 1000; min_new_token_ratio := f64_ratio 1 10 |}.

Definition step_scheduler : Scheduler BaseAllocator :=
  {| memory := pair_mem; queue := {| waiting_queue := []; sent := [] |}; new_token_ratio := f64_ratio 7 10 |}.

Lemma step_running : running_ok RadixProps.clock RadixProps.no_hash pair_mem (live step_batch) [] (seqZ 17 7) [].
Proof.
  destruct pair_running as [H1 H2 H3 H4 H5]. apply list.Forall_cons in H4 as [[[A1 A2 A3 A4] A5 A6 A7 A8] H4].
  apply list.Forall_cons in H4 as [[[B1 B2 B3 B4] B5 B6 B7 B8] _]. split; [exact H1|exact H2|exact H3| |exact H5].
  constructor; [|constructor; [|constructor]].
  - split; [split; [exact A1|exact A2|exact A3|exact A4]|reflexivity..|vm_compute; discriminate].
  - split; [split; [exact B1|exact B2|exact B3|exact B4]|reflexivity..|vm_compute; discriminate].
Qed.

Lemma decode_step_conserves_witness : exists s' b' full',
  @update_running_batch RadixProps.clock RadixProps.no_hash false BaseAllocator _ (token_batch_allocator RadixProps.no_hash false)
    1 20 step_config 0 step_scheduler step_batch true = Ok (s', b', full') /\
  running_ok RadixProps.clock RadixProps.no_hash (memory s') (b_reqs b') [] (seqZ 17 7) [] /\
  b_seq_lens b' = [5; 3] /\ full' = false.
Proof.
  destruct (@decode_step_conserves RadixProps.clock RadixProps.no_hash false BaseAllocator _ _ _
    (token_batch_allocator RadixProps.no_hash false) _ [] (seqZ 17 7) [] 20 step_config 0 step_scheduler step_batch true)
    as (s' & b' & full' & kept & back & aborted & E & _ & _ & Hok & _).
  - split; try reflexivity. intros o Ho. by injection Ho as <-.
  - intros i r [H0 Hr] Hf. destruct (Z.to_nat i) as [|[|[|k]]] eqn:Ei; simpl in Hr; try discriminate Hr; injection Hr as <-.
    + exists 0. unfold at_index. rewrite Ei. done.
    + discriminate Hf.
    + exists 1. unfold at_index. rewrite Ei. done.
  - exact step_running.
  - constructor; [vm_compute; split; [discriminate|reflexivity]|]. constructor; [vm_compute; split; [discriminate|reflexivity]|constructor].
  - split; [constructor|]. split; [|done]. vm_compute. repeat constructor; set_solver.
  - exists s', b', full'. split; [exact E|]. split; [exact Hok|]. clear - E. vm_compute in E. by injection E as _ <- <-.
Defined.
