(* ===== verification/DecodeRounds.v ===== *)
(** * Decoding round after round

    The tokens of a decode step are accepted, finished requests give their
    memory back, and the batch is ready for the next step: rounds of decoding
    never fail, lose no request, and end. *)

From S2P Require Import Prelude Tensors Floats TableKernelsTheory BaseAllocator TokenAllocator TriaxialAllocator RadixKeys RadixCache RadixTheory RadixFacts RadixProps Request ReqPool KVAllocator ReqCache ReqCacheProps MemCommon TokenMemProps SchedulePolicy RunningReqs DecodeBatch DecodeBatchProps SchedulerQueue SchedulerQueueProps SchedulerDecode SchedulerDecodeProps.

Definition max_new (r : Req) : Z := max_new_tokens (sampling_params (info r)).

(** A request that may still get tokens. *)
Definition hungry (r : Req) : Prop := zlen (output_ids r) < max_new r.

Section rounds.
Context (mono : nat -> Z) (gh : list tok -> option string -> string) (chunk : bool).
Context {A : Type} {KV : KVAllocator A} {KL : KVAllocatorLaws A} {KD : KVDecodeLaws A} {BA : BatchAllocator A} {KG : KVGroup A} {GL : KVGroupLaws A}.
Context {TD : TokenDecode gh chunk} (Hs : list nat) (others rows : list Z).
Context (tokenizer : option Tokenizer) (detokenize : list Z -> string) (re_search : string -> string -> bool).

(** ** One token *)

(** What a token changes in a request, up to its finish. *)
Record took (r r' : Req) : Prop := {
  tk_info : info r' = info r;
  tk_origin : origin_input_ids r' = origin_input_ids r;
  tk_kv : kv r' = kv r;
  tk_pre : pre r' = pre r;
  tk_prefix : take (length (output_ids r)) (output_ids r') = output_ids r;
  tk_len : length (output_ids r') = S (length (output_ids r))
}.

Lemma took_output r t o fi : take (length (output_ids r)) o = output_ids r -> length o = S (length (output_ids r)) ->
  took r (set_fin (set_output (set_output r (output_ids r ++ [t])) o) fi).
Proof. by intros ? ?; split. Qed.

Lemma took_plain r t : took r (set_output r (output_ids r ++ [t])).
Proof. split; try done; simpl; [apply take_app_length|rewrite length_app; simpl; lia]. Qed.

Lemma took_fin r r' fi : took r r' -> took r (set_fin r' fi).
Proof. by intros []. Qed.

Lemma set_last o x (l : list Z) : take (length o) l = o /\ length l = S (length o) ->
  take (length o) (set_at l (zlen o) x) = o /\ length (set_at l (zlen o) x) = S (length o).
Proof. intros [H1 H2]. rewrite set_at_length. split; [|done]. unfold set_at. by rewrite to_nat_zlen, take_insert_ge by lia. Qed.

Lemma vocab_took r t b r' : check_vocab_boundary_finish (set_output r (output_ids r ++ [t])) [t] = (b, r') ->
  took r r' /\ if b then finished r' = true else r' = set_output r (output_ids r ++ [t]).
Proof.
  unfold check_vocab_boundary_finish. simpl find_invalid. destruct (invalid_token _ t); intros [= <- <-]; [|split; [apply took_plain|done]].
  split; [|done]. set (o := output_ids r). simpl output_ids.
  replace (zlen (o ++ [t]) - zlen [t]) with (zlen o) by (unfold zlen; rewrite length_app; simpl; lia).
  assert (Hb : take (length o) (o ++ [t]) = o /\ length (o ++ [t]) = S (length o)) by (rewrite take_app_length, length_app; simpl; split; [done|lia]).
  match goal with |- took r (set_finished (set_output _ ?l) _ _) => assert (Hl : take (length o) l = o /\ length l = S (length o)) end.
  { repeat case_match; repeat apply set_last; exact Hb. }
  apply took_output; apply Hl.
Qed.

Lemma accept_ok r t : finished r = false -> exists r', accept_token tokenizer detokenize re_search r t = Ok r' /\ took r r' /\
  (finished r' = false -> hungry r').
Proof.
  intros Hf. pose proof (took_plain r t) as Hp. unfold accept_token, check_finished. set (r1 := set_output r (output_ids r ++ [t])) in *.
  change (finished r1) with (finished r). rewrite Hf. change (to_finish (fin r1)) with (to_finish (fin r)).
  destruct (to_finish (fin r)) as [f|]; [eexists; split; [done|]; split; [by apply took_fin|done]|].
  change (max_new_tokens _) with (max_new r1). destruct (Z.leb_spec (max_new r1) (zlen (output_ids r1))) as [Hle|Hlt].
  { eexists. split; [done|]. split; [by apply took_fin|done]. }
  cbn [default]. change (output_ids r1) with (output_ids r ++ [t]). change (-1) with (- zlen [t]). rewrite slice_from_suffix by done.
  destruct (check_token_based_finish _ r1 [t]) as [b1 r2] eqn:E1.
  assert (H1 : took r r2 /\ if b1 then finished r2 = true else r2 = r1).
  { unfold check_token_based_finish in E1. clear - E1 Hp. revert E1. case (ignore_eos _); [by intros [= <- <-]|]. case (find_stop _ _ _ _) as [[x pos]|]; intros [= <- <-]; [split; [by apply took_fin|done]|done]. }
  destruct b1; [eexists; split; [done|]; split; [apply H1|intros Hx; destruct H1; congruence]|]. destruct H1 as [_ ->].
  destruct (check_vocab_boundary_finish r1 [t]) as [b2 r3] eqn:E2. destruct (vocab_took _ _ _ _ E2) as [H2 H3].
  destruct b2; [eexists; split; [done|]; split; [done|congruence]|]. subst r3. eexists. split; [done|].
  unfold check_str_based_finish. repeat case_match; simpl; (split; [by try apply took_fin|]); done.
Qed.

(** ** The memory of a request that takes a token *)

Definition settled (r : Req) : Prop := finished r = false /\ 0 <= kv_committed_len (kv r) <= seqlen r /\ hungry r.

Lemma committed_took r r' : took r r' -> 0 <= kv_committed_len (kv r) <= seqlen r -> committed_ids r' = committed_ids r.
Proof.
  intros [T1 T2 T3 T4 T5 T6] [H0 Hc]. unfold committed_ids. rewrite T2, T3. rewrite !slice_to_take by done.
  rewrite <- (take_drop (length (output_ids r)) (output_ids r')), T5, app_assoc. apply take_app_le.
  unfold seqlen, zlen in Hc. rewrite length_app. lia.
Qed.

Lemma running_took (m : Mem A) r r' : took r r' -> settled r -> running m r ->
  running m r' /\ own_slots m r' = own_slots m r /\ node_of r' = node_of r /\ seqlen r' = seqlen r + 1.
Proof.
  intros Ht (Hf & Hc & Hh) [[R1 R2 R3 R4] G1 G2 G3 G4]. pose proof (committed_took r r' Ht Hc) as Ec.
  destruct Ht as [T1 T2 T3 T4 T5 T6].
  assert (Er : row_of m r' = row_of m r) by (unfold row_of; by rewrite T3).
  assert (En : node_of r' = node_of r) by (unfold node_of; by rewrite T4).
  assert (El : seqlen r' = seqlen r + 1) by (unfold seqlen, zlen; rewrite T2, T6; lia).
  split; [|split; [unfold own_slots, private_slots; by rewrite Ec, Er, T4|done]].
  split; rewrite ?T3; try done.
  - rewrite Ec, Er, En. split; rewrite ?T1, ?T3, ?T4; done.
  - rewrite Er, El, T1, T2. unfold hungry, max_new, seqlen in *. lia.
Qed.

Lemma holding_perm (m : Mem A) rs rs' : rs ≡ₚ rs' -> holding mono gh m rs Hs others rows -> holding mono gh m rs' Hs others rows.
Proof.
  intros Hp [H1 H2 H3 H4]. split.
  - eapply rreach_perm; [exact H1|]. by rewrite Hp.
  - eapply kv_inv_perm; [|exact H2]. by rewrite Hp.
  - unfold pool_inv, held in *. by rewrite <- Hp.
  - by rewrite <- Hp.
Qed.

Lemma holding_took (m : Mem A) r r' rs : took r r' -> settled r -> holding mono gh m (r :: rs) Hs others rows -> holding mono gh m (r' :: rs) Hs others rows.
Proof.
  intros Ht Hset [H1 H2 H3 H4]. apply list.Forall_cons in H4 as [Hr H4]. destruct (running_took m r r' Ht Hset Hr) as (G1 & G2 & G3 & _).
  assert (Eh : held (r' :: rs) = held (r :: rs)) by (by rewrite !held_cons, (tk_kv _ _ Ht)).
  split; [simpl; by rewrite G3|simpl; by rewrite G2|by rewrite Eh|by constructor].
Qed.

Definition unfinished (rs : list Req) : list Req := List.filter (fun r => negb (finished r)) rs.

(** ** The requests of a batch, one after the other *)

(** A request after its token: finished, or ready for the next one. *)
Record stepped (r r' : Req) : Prop := {
  st_rid : rid (info r') = rid (info r);
  st_next : finished r' = false -> kv r' = kv r /\ ready r' /\ hungry r' /\ info r' = info r /\
    zlen (output_ids r') = zlen (output_ids r) + 1
}.

Lemma process_req_ok (m : Mem A) r t acc : settled r -> holding mono gh m (r :: acc) Hs others rows -> kv_grouped (allocator m) ->
  exists m' r', process_req mono gh 1 tokenizer detokenize re_search false m r t = Ok (m', r') /\ stepped r r' /\
    holding mono gh m' (unfinished [r'] ++ acc) Hs others rows /\ kv_grouped (allocator m').
Proof.
  intros Hset Hm Hg. pose proof Hset as (Hf & Hc & Hh). unfold process_req. simpl andb. cbn iota.
  destruct (accept_ok r t Hf) as (r1 & E & Ht & Hun). rewrite E. cbn [rbind]. pose proof (holding_took m r r1 acc Ht Hset Hm) as Hm1.
  assert (Hlen : zlen (output_ids r1) = zlen (output_ids r) + 1) by (unfold zlen; rewrite (tk_len _ _ Ht); lia).
  unfold unfinished. destruct (finished r1) eqn:Ef; simpl.
  - destruct (release_holding mono gh true 1 m r1 acc Hs others rows Hm1) as (m' & l1 & l2 & E1 & Hm' & Ea).
    exists m', (released r1). split; [done|]. change (finished (released r1)) with (finished r1). rewrite Ef. simpl. split_and!; [|done|].
    + split; [simpl; by rewrite (tk_info _ _ Ht)|]. change (finished (released r1)) with (finished r1). congruence.
    + rewrite Ea. by do 2 apply kv_grouped_free.
  - exists m, r1. split; [done|]. rewrite Ef. simpl. split_and!; [|done|done].
    split; [by rewrite (tk_info _ _ Ht)|]. intros _. rewrite (tk_kv _ _ Ht), (tk_info _ _ Ht). split_and!; try done; [|by apply Hun].
    unfold ready. rewrite (tk_kv _ _ Ht). unfold seqlen in *. rewrite (tk_origin _ _ Ht). lia.
Qed.

Lemma process_reqs_ok rs : forall ts (m : Mem A) acc, length ts = length rs -> Forall settled rs ->
  holding mono gh m (rs ++ acc) Hs others rows -> kv_grouped (allocator m) ->
  exists m' rs', process_reqs mono gh 1 tokenizer detokenize re_search false m rs ts = Ok (m', rs') /\ Forall2 stepped rs rs' /\
    holding mono gh m' (unfinished rs' ++ acc) Hs others rows /\ kv_grouped (allocator m').
Proof.
  induction rs as [|r rs IH]; intros [|t ts] m acc Hl Hset Hm Hg; try done.
  { exists m, []. by split_and!. }
  apply list.Forall_cons in Hset as [Hr Hset]. cbn [process_reqs].
  destruct (process_req_ok m r t (rs ++ acc) Hr Hm Hg) as (m1 & r1 & E1 & S1 & Hm1 & Hg1). rewrite E1. cbn [rbind].
  destruct (IH ts m1 (unfinished [r1] ++ acc)) as (m2 & rs2 & E2 & S2 & Hm2 & Hg2); [simpl in Hl; lia|done| |done|].
  { eapply holding_perm; [|exact Hm1]. apply Permutation_app_swap_app. }
  rewrite E2. cbn [rbind]. exists m2, (r1 :: rs2). split; [done|]. split; [by constructor|]. split; [|done].
  eapply holding_perm; [|exact Hm2]. unfold unfinished. simpl. destruct (negb (finished r1)); simpl; [|done].
  symmetry. apply Permutation_middle.
Qed.

Lemma running_alloc (m : Mem A) a r : running m r -> running (with_allocator m a) r.
Proof. intros [[] ? ? ? ?]. by split. Qed.

Lemma result_ok (m : Mem A) b ts : length ts = length (b_reqs b) -> Forall settled (b_reqs b) ->
  running_ok mono gh m (b_reqs b) Hs others rows ->
  exists m' rs', process_batch_result_decode mono gh 1 tokenizer detokenize re_search false m b ts = Ok (m', with_reqs b rs') /\
    Forall2 stepped (b_reqs b) rs' /\ running_ok mono gh m' (unfinished rs') Hs others rows.
Proof.
  intros Hl Hset Hok. apply running_holding in Hok as [[H1 H2 H3 H4] Ho]. unfold process_batch_result_decode.
  destruct (kv_begin_law _ _ Ho H2) as [Hg Hi]. set (m1 := with_allocator m _).
  destruct (process_reqs_ok (b_reqs b) ts m1 [] Hl Hset) as (m2 & rs' & E & Hst & Hm2 & Hg2); [|done|].
  { rewrite app_nil_r. split; [exact H1|exact Hi|exact H3|]. eapply list.Forall_impl; [exact H4|]. intros r. apply running_alloc. }
  rewrite E. cbn [rbind]. eexists _, rs'. split; [done|]. split; [done|]. rewrite app_nil_r in Hm2. destruct Hm2 as [G1 G2 G3 G4].
  destruct (kv_end_law _ _ Hg2 G2) as [Ho' Hi']. apply running_holding. split; [|done]. split; [exact G1|exact Hi'|exact G3|].
  eapply list.Forall_impl; [exact G4|]. intros r. apply running_alloc.
Qed.

(** ** Rounds *)

Context (steps : Z) (c : SchedulerConfig) (forward : DecodeBatch -> list Z) (Hforward : forall b, length (forward b) = length (b_reqs b)).

(** The running batch and the scheduler between two rounds. *)
Record rounds_ok (s : Scheduler A) (b : DecodeBatch) : Prop := {
  rd_batch : b_reqs b = [] \/ (arrays_ok b /\ rows_aligned b);
  rd_memory : running_ok mono gh (memory s) (live b) Hs others rows;
  rd_ready : Forall ready (live b);
  rd_hungry : Forall hungry (live b);
  rd_queue : queue_ok c (queue s) (live b)
}.

(** Every request that decoded or waited decodes, waits, is finished or has been answered. *)
Definition accounted (s : Scheduler A) (b : DecodeBatch) (s' : Scheduler A) (b' : DecodeBatch) (done : list Req) : Prop :=
  exists answered, map ab_rid (sent (queue s')) = map ab_rid (sent (queue s)) ++ answered /\
    rids (live b ++ waiting_queue (queue s)) ≡ₚ rids (live b' ++ waiting_queue (queue s') ++ done) ++ answered.

Definition remaining (r : Req) : Z := max_new r - zlen (output_ids r).

Lemma live_nil b : b_reqs b = [] -> live b = [].
Proof. intros E. unfold live. by rewrite E. Qed.

Lemma rids_perm l k : l ≡ₚ k -> rids l ≡ₚ rids k.
Proof. apply Permutation_map. Qed.

Lemma Forall2_rids {R : Req -> Req -> Prop} l k : (forall x y, R x y -> rid (info y) = rid (info x)) -> Forall2 R l k -> rids k = rids l.
Proof. intros Hr. induction 1 as [|x y l k Hxy _ IH]; [done|]. simpl. by rewrite (Hr _ _ Hxy), IH. Qed.

Lemma requeued_rids q q' back aborted (kept : list Req) : requeued c q q' back aborted ->
  exists answered, map ab_rid (sent q') = map ab_rid (sent q) ++ answered /\
    rids ((kept ++ back ++ aborted) ++ waiting_queue q) ≡ₚ rids (kept ++ waiting_queue q') ++ answered.
Proof.
  intros [(back' & dropped & W1 & W2 & W3) _ _]. exists (rids aborted ++ rids dropped). split; [done|].
  apply rids_perm in W2. rewrite !rids_app in *.
  assert (Eb : rids back' = rids back) by (rewrite <- (rids_retracted back); eapply Forall2_rids; [|exact W1]; by intros x y []). rewrite Eb in W2.
  rewrite <- !app_assoc. apply Permutation_app_head. rewrite (Permutation_app_comm (rids aborted) (rids (waiting_queue q))), app_assoc.
  rewrite (Permutation_app_comm (rids back)), <- W2. rewrite <- !app_assoc. apply Permutation_app_head. apply Permutation_app_comm.
Qed.

Lemma finished_split rs : rs ≡ₚ unfinished rs ++ List.filter finished rs.
Proof.
  induction rs as [|r rs IH]; [done|]. unfold unfinished in *. simpl. destruct (finished r); simpl; [|by constructor].
  rewrite <- Permutation_middle. by constructor.
Qed.

Lemma settled_bump r : finished r = false -> ready r -> hungry r -> settled (bump r).
Proof. intros Hf [H0 H1] Hh. split; [done|]. split; [|done]. unfold seqlen in *. simpl. lia. Qed.

(** The tokens of the step, seen from the batch. *)
Lemma token_stage s b1 kept : b_reqs b1 = map bump kept -> aligned b1 -> arrays_ok b1 -> running_ok mono gh (memory s) (b_reqs b1) Hs others rows ->
  Forall (fun r => finished r = false) kept -> Forall ready kept -> Forall hungry kept ->
  exists m b2, process_batch_result_decode mono gh 1 tokenizer detokenize re_search false (memory s) (set_output_ids b1 (forward b1)) (forward b1) = Ok (m, b2) /\
    arrays_ok b2 /\ rows_aligned b2 /\ running_ok mono gh m (live b2) Hs others rows /\ Forall ready (live b2) /\ Forall hungry (live b2) /\
    rids kept ≡ₚ rids (live b2) ++ rids (List.filter finished (b_reqs b2)) /\
    (forall r', r' ∈ live b2 -> exists r, r ∈ kept /\ remaining r' = remaining r - 1).
Proof using Hforward GL TD.
  intros Eb Hal Har Hok Hf Hrd Hhu.
  assert (Hset : Forall settled (b_reqs b1)).
  { rewrite Eb. apply Forall_fmap, list.Forall_forall. intros r Hr. rewrite list.Forall_forall in Hf, Hrd, Hhu. apply settled_bump; auto. }
  destruct (result_ok (memory s) (set_output_ids b1 (forward b1)) (forward b1) (Hforward b1) Hset Hok) as (m & rs' & E & Hst & Hok2).
  destruct (running_rows mono gh Hs others rows _ _ Hok) as (Hhl & _).
  pose proof (aligned_rows b1 Hal Hhl) as Hrows. simpl b_reqs in Hst. pose proof (list.Forall2_length _ _ _ Hst) as Hlen.
  assert (Hback : forall i r', rs' !! i = Some r' -> exists r, b_reqs b1 !! i = Some r /\ stepped r r').
  { intros i r' Hi. destruct (Forall2_lookup_r _ _ _ _ _ Hst Hi) as (r & Hr & H). by exists r. }
  exists m, (with_reqs (set_output_ids b1 (forward b1)) rs'). split; [exact E|].
  assert (Hlive : forall r', r' ∈ unfinished rs' -> finished r' = false /\ exists i r, b_reqs b1 !! i = Some r /\ rs' !! i = Some r' /\ stepped r r').
  { intros r' [Hin Hfr]%list_elem_of_In%filter_In. apply negb_true_iff in Hfr. split; [done|].
    apply list_elem_of_In, list_elem_of_lookup in Hin as [i Hi]. destruct (Hback i r' Hi) as (r & Hr & H). by exists i, r. }
  split; [|split; [|split; [exact Hok2|split; [|split; [|split]]]]].
  - destruct Har as [A1 A2 A3 A4]. split; simpl; [congruence|congruence|congruence|]. intros o [= <-]. rewrite Hforward. congruence.
  - intros i r' [Hi0 Hi] Hfr. destruct (Hback _ _ Hi) as (r & Hr & Hs'). destruct (st_next _ _ Hs' Hfr) as (Ek & _).
    rewrite list.Forall_forall in Hset. assert (Hin : r ∈ b_reqs b1) by (by eapply list_elem_of_lookup_2).
    destruct (Hrows i r (conj Hi0 Hr) (proj1 (Hset r Hin))) as (k & E1 & E2 & E3). exists k. by rewrite Ek.
  - apply list.Forall_forall. intros r' Hr. destruct (Hlive r' Hr) as (Hfr & i & r & _ & _ & Hs'). by apply (st_next _ _ Hs' Hfr).
  - apply list.Forall_forall. intros r' Hr. destruct (Hlive r' Hr) as (Hfr & i & r & _ & _ & Hs'). by apply (st_next _ _ Hs' Hfr).
  - assert (Er : rids kept = rids rs') by (rewrite (Forall2_rids _ _ st_rid Hst), Eb; unfold rids; by rewrite map_map).
    rewrite Er, <- rids_app. apply rids_perm, finished_split.
  - intros r' Hr. destruct (Hlive r' Hr) as (Hfr & i & r & Hi & _ & Hs'). destruct (st_next _ _ Hs' Hfr) as (_ & _ & _ & Einf & Elen).
    rewrite Eb, map_lookup in Hi. destruct (kept !! i) as [r0|] eqn:E0; [|done]. injection Hi as <-.
    exists r0. split; [by eapply list_elem_of_lookup_2|]. unfold remaining, max_new. rewrite Einf, Elen. simpl. lia.
Qed.

Lemma round_ok now s b full : rounds_ok s b ->
  exists s' b' full' done, decode_round mono gh chunk 1 steps tokenizer detokenize re_search forward c now s b full = Ok (s', b', full', done) /\
    rounds_ok s' b' /\ accounted s b s' b' done /\ (forall r', r' ∈ live b' -> exists r, r ∈ live b /\ remaining r' = remaining r - 1).
Proof using Hforward GL TD.
  intros Hok. unfold decode_round. destruct (Z.eqb_spec (zlen (b_reqs b)) 0) as [E0|Hne].
  { assert (E : b_reqs b = []) by (apply zlen_le_0; lia). pose proof (live_nil b E) as El.
    exists s, b, full, []. split; [done|]. split; [done|]. split; [exists []; by rewrite !app_nil_r|]. rewrite El. by intros r' ?%not_elem_of_nil. }
  destruct Hok as [[E|[Har Hal]] Hm Hrd Hhu Hq]; [by rewrite E in Hne|].
  destruct (decode_step_ok mono gh chunk Hs others rows steps c now s b full Har Hal Hm Hrd Hq)
    as (s1 & b1 & full1 & kept & back & aborted & E & Hp & Eb & Hm1 & Hal1 & Hre & _).
  rewrite E. cbn [rbind].
  destruct (requeued_rids _ _ _ _ kept Hre) as (answered & Es & Hrids).
  assert (Hacc : rids (live b ++ waiting_queue (queue s)) ≡ₚ rids (kept ++ waiting_queue (queue s1)) ++ answered).
  { rewrite <- Hrids. apply rids_perm. by rewrite Hp. }
  assert (Hqk : Forall (has_priority (queue_config c)) (waiting_queue (queue s1)) /\ NoDup (rids (kept ++ waiting_queue (queue s1)))).
  { split; [apply Hre|]. destruct Hq as (_ & Hnd & _). rewrite (rids_perm _ _ (Permutation_app_comm _ _)), Hacc in Hnd.
    by apply list.NoDup_app in Hnd as [? _]. }
  destruct Hqk as [Hpr Hnd].
  assert (Hsub : kept ⊆+ live b) by (rewrite Hp; by apply submseteq_inserts_r).
  destruct (Z.eqb_spec (zlen (b_reqs b1)) 0) as [E0|Hne1].
  { assert (E1 : b_reqs b1 = []) by (apply zlen_le_0; lia). pose proof (live_nil b1 E1) as El.
    assert (kept = []) as -> by (destruct kept; [done|by rewrite E1 in Eb]).
    exists s1, b1, full1, []. split; [done|]. split; [|split].
    - split; [by left|by rewrite El, <- E1|by rewrite El|by rewrite El|]. rewrite El. split; [done|]. rewrite app_nil_r. split; [done|]. apply Hq.
    - exists answered. split; [done|]. by rewrite El, app_nil_r.
    - rewrite El. by intros r' ?%not_elem_of_nil. }
  assert (Hkne : kept <> []) by (intros ->; by rewrite Eb in Hne1). destruct (Hal1 Hkne) as [Hal2 Har2].
  assert (Hall : forall P : Req -> Prop, Forall P (live b) -> Forall P kept).
  { intros P HP. rewrite list.Forall_forall in *. intros r Hr. apply HP. by eapply elem_of_submseteq. }
  destruct (token_stage s1 b1 kept Eb Hal2 Har2 Hm1 (Hall _ (live_unfinished b)) (Hall _ Hrd) (Hall _ Hhu))
    as (m & b2 & E2 & Har3 & Hal3 & Hm3 & Hrd3 & Hhu3 & Hr3 & Hrem).
  rewrite E2. cbn [rbind]. eexists _, b2, full1, _. split; [done|].
  rewrite (rids_app kept), Hr3 in Hacc, Hnd. split; [|split].
  - split; simpl; [by right|done|done|done|]. split; [done|]. split; [|apply Hq].
    rewrite (rids_perm _ _ (Permutation_app_comm _ _)), rids_app. rewrite <- app_assoc, (Permutation_app_comm (rids (List.filter _ _))), app_assoc in Hnd.
    by apply list.NoDup_app in Hnd as [? _].
  - exists answered. split; [done|]. simpl. rewrite Hacc, !rids_app, <- !app_assoc. apply Permutation_app_head.
    rewrite !app_assoc. apply Permutation_app_tail, Permutation_app_comm.
  - intros r' Hr'. destruct (Hrem r' Hr') as (r & Hr & Er). exists r. split; [by eapply elem_of_submseteq|done].
Qed.

Lemma accounted_trans s0 b0 s1 b1 d1 s2 b2 d2 : accounted s0 b0 s1 b1 d1 -> accounted s1 b1 s2 b2 d2 -> accounted s0 b0 s2 b2 (d1 ++ d2).
Proof.
  intros (a1 & E1 & P1) (a2 & E2 & P2). exists (a1 ++ a2). split; [by rewrite E2, E1, app_assoc|].
  rewrite P1, (app_assoc (live b1)), (rids_app _ d1), P2. rewrite !rids_app. solve_Permutation.
Qed.

(** C10: decoding goes on for any number of rounds, whatever tokens the model
    returns: no round fails or runs out of memory, and between the rounds the
    tree, the allocator, the request table and the arrays of the batch agree
    with the requests that are decoding.  No request is lost: whoever decoded or
    waited at the start decodes or waits at the end, is finished or has been
    answered.  After as many rounds as any of the requests may still get tokens
    nobody is decoding any more. *)
Theorem decode_rounds_conserve nows s b full : rounds_ok s b ->
  exists s' b' full' done, decode_rounds mono gh chunk 1 steps tokenizer detokenize re_search forward c nows s b full = Ok (s', b', full', done) /\
    rounds_ok s' b' /\ accounted s b s' b' done /\ (Forall (fun r => remaining r <= zlen nows) (live b) -> live b' = []).
Proof using Hforward GL TD.
  revert s b full. induction nows as [|now nows IH]; intros s b full Hok.
  - exists s, b, full, []. split; [done|]. split; [done|]. split; [exists []; by rewrite !app_nil_r|].
    intros Hrem. destruct (live b) as [|r l] eqn:El; [done|]. exfalso. pose proof (rd_hungry _ _ Hok) as Hh. rewrite El in Hh.
    apply list.Forall_cons in Hh as [Hh _]. apply list.Forall_cons in Hrem as [Hr _].
    change (zlen (@nil Z)) with 0 in Hr. unfold hungry, remaining in *. lia.
  - cbn [decode_rounds]. destruct (round_ok now s b full Hok) as (s1 & b1 & full1 & d1 & E1 & Hok1 & A1 & R1). rewrite E1. cbn [rbind].
    destruct (IH s1 b1 full1 Hok1) as (s2 & b2 & full2 & d2 & E2 & Hok2 & A2 & R2). rewrite E2. cbn [rbind].
    exists s2, b2, full2, (d1 ++ d2). split; [done|]. split; [done|]. split; [by eapply accounted_trans|].
    intros Hrem. apply R2. rewrite list.Forall_forall in *. intros r' Hr'. destruct (R1 r' Hr') as (r & Hr & ->).
    specialize (Hrem r Hr). unfold zlen in *. simpl in Hrem. lia.
Qed.
End rounds.

(** ** Concrete rounds *)

Definition same_token (b : DecodeBatch) : list Z := map (fun _ => 7) (b_reqs b).

Lemma step_rounds_ok : rounds_ok RadixProps.clock RadixProps.no_hash [] (seqZ 17 7) [] step_config step_scheduler step_batch.
Proof.
  split.
  - right. split; [split; try reflexivity; intros o Ho; by injection Ho as <-|].
    intros i r [H0 Hr] Hf. destruct (Z.to_nat i) as [|[|[|k]]] eqn:Ei; simpl in Hr; try discriminate Hr; injection Hr as <-.
    + exists 0. unfold at_index. rewrite Ei. done.
    + discriminate Hf.
    + exists 1. unfold at_index. rewrite Ei. done.
  - exact step_running.
  - constructor; [vm_compute; split; [discriminate|reflexivity]|]. constructor; [vm_compute; split; [discriminate|reflexivity]|constructor].
  - repeat constructor.
  - split; [constructor|]. split; [|done]. vm_compute. repeat constructor; set_solver.
Qed.

Definition ten_rounds :=
  @decode_rounds RadixProps.clock RadixProps.no_hash false BaseAllocator _ (token_batch_allocator RadixProps.no_hash false)
    1 20 _ None no_text no_match same_token step_config (seqZ 0 10) step_scheduler step_batch false.

Lemma decode_rounds_conserve_witness : exists s' b' full' done,
  ten_rounds = Ok (s', b', full', done) /\ rids done = ["a"; "b"]%string /\ live b' = [] /\
  running_ok RadixProps.clock RadixProps.no_hash (memory s') [] [] (seqZ 17 7) [].
Proof.
  destruct (@decode_rounds_conserve RadixProps.clock RadixProps.no_hash false BaseAllocator _ _ _
    (token_batch_allocator RadixProps.no_hash false) _ _ _ [] (seqZ 17 7) [] None no_text no_match 20 step_config same_token
    (fun b => length_map _ _) (seqZ 0 10) step_scheduler step_batch false step_rounds_ok)
    as (s' & b' & full' & done & E & Hok & _ & Hend).
  assert (El : live b' = []) by (apply Hend; constructor; [vm_compute; discriminate|constructor; [vm_compute; discriminate|constructor]]).
  exists s', b', full', done. split; [exact E|]. pose proof (rd_memory _ _ _ _ _ _ _ _ Hok) as Hm. rewrite El in Hm.
  split; [|split; [exact El|exact Hm]]. clear - E. vm_compute in E. by injection E as _ _ _ <-.
Defined.
