(* ===== verification/PrefillResults.v ===== *)
(** * The results of a prefill

    [process_batch_result_prefill]
    ([srt/managers/scheduler_output_processor_mixin.py]) for models that
    generate text, and the part of [get_next_batch_to_run]
    ([srt/managers/scheduler.py]) that moves the prefilled requests into the
    running batch and caches the chunk of a chunked one.  Without grammars, log
    probabilities, hidden states, prefill-only batches, diffusion models and
    sparse host pools.  Requests are told apart by their id. *)

From S2P Require Import Prelude Tensors Floats TableKernelsTheory BaseAllocator TokenAllocator TriaxialAllocator RadixKeys RadixCache RadixTheory RadixFacts RadixProps Request ReqPool KVAllocator ReqCache ReqCacheProps MemCommon TokenMemProps SchedulePolicy RunningReqs DecodeBatch DecodeBatchProps SchedulerQueue SchedulerQueueProps SchedulerDecode SchedulerDecodeProps DecodeRounds.

Definition set_is_chunked (r : Req) (n : Z) : Req :=
  let p := pre r in
  set_pre r {| fill_ids := fill_ids p; prefix_indices := prefix_indices p; last_node := last_node p;
               host_hit_length := host_hit_length p; cache_protected_len := cache_protected_len p;
               extend_input_len := extend_input_len p; extend_logprob_start_len := extend_logprob_start_len p; is_chunked := n |}.

Section results.
Context (monotonic : nat -> Z) (get_hash_str : list tok -> option string -> string).
Context {A : Type} {KV : KVAllocator A} (page_size : Z).
Context (tokenizer : option Tokenizer) (detokenize : list Z -> string) (re_search : string -> string -> bool).

(** One request; [decoding] are the decode requests of a mixed batch. *)
Definition process_prefill_req (decoding : list string) (m : Mem A) (r : Req) (t : Z) : result (Mem A * Req) :=
  if finished r || is_retracted (retract r) then Ok (m, r)
  else if is_chunked (pre r) <=? 0 then
    let! r1 := accept_token tokenizer detokenize re_search r t in
    if finished r1 then release_kv_cache monotonic get_hash_str false page_size m r1 true
    else if (zlen decoding =? 0) || negb (existsb (String.eqb (rid (info r1))) decoding)
    then cache_unfinished_req monotonic get_hash_str m r1 false
    else Ok (m, r1)
  else Ok (m, set_is_chunked r (is_chunked (pre r) - 1)).

(** [zip(batch.reqs, next_token_ids)] *)
Fixpoint process_prefill_reqs (decoding : list string) (m : Mem A) (rs : list Req) (ts : list Z) : result (Mem A * list Req) :=
  match rs, ts with
  | r :: rs', t :: ts' =>
      let! (m1, r1) := process_prefill_req decoding m r t in
      let! (m2, rest) := process_prefill_reqs decoding m1 rs' ts' in
      Ok (m2, r1 :: rest)
  | _, _ => Ok (m, rs)
  end.

Definition process_batch_result_prefill (decoding : list string) (m : Mem A) (b : DecodeBatch) (next_token_ids : list Z)
  : result (Mem A * DecodeBatch) :=
  let! (m1, rs) := process_prefill_reqs decoding m (b_reqs b) next_token_ids in
  Ok (m1, with_reqs b rs).

Definition stash_chunked_request (m : Mem A) (r : Req) : result (Mem A * Req) :=
  cache_unfinished_req monotonic get_hash_str m r true.

(** The merge at the start of [get_next_batch_to_run]: [chunked] is the
    scheduler's chunked request, [last] the last batch when it was a prefill,
    with the chunked request it was built with, and [full] is [batch_is_full]
    of the running batch; a fresh prefill batch is not full. *)
Definition merge_last_batch (m : Mem A) (chunked : option Req) (last : option (DecodeBatch * option Req)) (running : DecodeBatch) (full : bool)
  : result (Mem A * option Req * DecodeBatch * bool) :=
  let! (m1, chunked1) :=
    match chunked with
    | Some r => let! (m1, r1) := stash_chunked_request m r in Ok (m1, Some r1)
    | None => Ok (m, None)
    end in
  match last with
  | None => Ok (m1, chunked1, running, full)
  | Some (b, tracked) =>
      let! b1 := filter_batch b (rids (option_list chunked ++ option_list tracked)) None in
      let full := if zlen (b_reqs b1) <? zlen (b_reqs b) then false else full in
      if zlen (b_reqs b1) =? 0 then Ok (m1, chunked1, running, full)
      else if zlen (b_reqs running) =? 0 then Ok (m1, chunked1, b1, false)
      else let! running1 := merge_batch running b1 in Ok (m1, chunked1, running1, full)
  end.

(** Between two rounds of the event loop: the tokens [ts] of the prefill [last]
    arrive, then it joins the running batch.  [chunked] names the request that
    is being chunked, which is an object of the batch.  The requests that
    finish are returned. *)
Definition after_prefill (m : Mem A) (chunked : option string) (last : DecodeBatch) (ts : list Z) (running : DecodeBatch) (full : bool)
  : result (Mem A * option Req * DecodeBatch * bool * list Req) :=
  let! (m1, last1) := process_batch_result_prefill [] m (set_output_ids last ts) ts in
  let now := match chunked with
             | Some id => find (fun r => String.eqb (rid (info r)) id) (b_reqs last1)
             | None => None
             end in
  let! (m2, now, running1, full1) := merge_last_batch m1 now (Some (last1, now)) running full in
  Ok (m2, now, running1, full1, List.filter finished (b_reqs last1)).
End results.

Section joins.
Context (mono : nat -> Z) (gh : list tok -> option string -> string).
Context {A : Type} {KV : KVAllocator A} {KL : KVAllocatorLaws A} {KD : KVDecodeLaws A}.
Context (Hs : list nat) (others rows : list Z).
Context (tokenizer : option Tokenizer) (detokenize : list Z -> string) (re_search : string -> string -> bool).

(** ** Caching one of the requests *)

(** Only what the request knows of its prefix changes. *)
Definition recached (r r' : Req) : Prop :=
  exists ids n prot, r' = set_pre r (set_prefix (pre r) ids (Some n) (host_hit_length (pre r)) prot).

(** The row of another request. *)
Lemma other_rows (m : Mem A) p r rs : running_ok mono gh m (r :: rs) Hs others rows ->
  (forall k j, req_pool_idx (kv r) = Some k -> 0 <= k -> 0 <= j -> j <> k -> get_row p (Some j) = get_row (req_pool m) (Some j)) ->
  forall q, q ∈ rs -> get_row p (req_pool_idx (kv q)) = get_row (req_pool m) (req_pool_idx (kv q)).
Proof.
  intros Hok Hp q [i Hi]%list_elem_of_lookup. destruct (running_rows mono gh Hs others rows _ _ Hok) as (_ & Hnd & Hrow).
  destruct (Hrow 0%nat r eq_refl) as (k & Hk & Ek & Hk0 & _). destruct (Hrow (S i) q Hi) as (j & Hj & Ej & Hj0 & _).
  rewrite Ej. apply (Hp k); try done. intros ->. by pose proof (NoDup_lookup _ _ _ _ Hnd Hk Hj).
Qed.

Lemma cache_running (m : Mem A) r rs chunked : running_ok mono gh m (r :: rs) Hs others rows -> fill_ids (pre r) = committed_ids r ->
  exists m' r', cache_unfinished_req mono gh m r chunked = Ok (m', r') /\ recached r r' /\ running_ok mono gh m' (r' :: rs) Hs others rows /\
    prefix_indices (pre r') = take (length (committed_ids r')) (row_of m' r').
Proof.
  intros Hok Hfill. pose proof (other_rows m) as Hoth. pose proof Hok as [H1 H2 H3 H4 H5].
  apply list.Forall_cons in H4 as [[Hh Hc Ho Ha Hroom] Hrs]. simpl in H1, H2.
  destruct (unfinished_req_conserves mono gh m r (node_of r) (map node_of rs ++ Hs) (row_of m r)
    (concat (map (own_slots m) rs) ++ others) chunked H1) as (m' & r' & n' & row' & E & Hr' & Hh' & Hk' & _ & Epi & (ids & prot & ->) & Hkeep & (l & El) & Ef & Es & Hrows & Elen).
  { by rewrite Hfill. }
  { eapply kv_inv_perm; [|exact H2]. rewrite Hfill. fold (own_slots m r). rewrite <- app_assoc. apply Permutation_app_head, Permutation_app_swap_app. }
  rewrite Hfill in Hh', Hk', Epi. set (r' := set_pre r _) in *. exists m', r'. split; [done|]. split; [by eexists _, _, _|].
  assert (Er : row_of m' r' = row') by (unfold row_of; by rewrite (hk_row _ _ _ _ _ Hh')).
  destruct (running_all m (with_pool m' (req_pool m)) (map node_of rs ++ Hs) rs) as [G1 _]; [by apply keeps_spares| |done|].
  { intros q Hq. by apply node_in. }
  assert (Hq : forall q, q ∈ rs -> running m' q /\ own_slots m' q = own_slots m q).
  { intros q Hq. pose proof (Hoth (req_pool m') r rs Hok Hrows q Hq) as Eg. rewrite list.Forall_forall in G1.
    destruct (running_table (with_pool m' (req_pool m)) (req_pool m') q Eg (G1 q Hq)) as [F1 F2].
    destruct m'. split; [exact F1|exact F2]. }
  assert (Eo : map (own_slots m') rs = map (own_slots m) rs) by (apply map_ext_in; intros q Hin; by apply Hq, list_elem_of_In).
  split; [|by rewrite Er]. split.
  - exact Hr'.
  - cbn [map concat]. rewrite Eo. change (own_slots m' r') with (private_slots r' (committed_ids r) (row_of m' r')). rewrite Er.
    eapply kv_inv_perm; [|exact Hk']. rewrite <- app_assoc. apply Permutation_app_head, Permutation_app_swap_app.
  - unfold pool_inv in *. rewrite Ef, Es. by rewrite held_cons in *.
  - constructor; [|apply list.Forall_forall; intros q Hin; by apply Hq].
    split; try done; [rewrite Er; exact Hh'|]. rewrite Er, Elen. exact Hroom.
  - rewrite El. by apply kv_open_free.
Qed.

(** ** The token of a request *)

(** A request of the batch: its row holds the slots of the tokens that were
    prefilled, all of them or a chunk. *)
Record prefilled (r : Req) : Prop := {
  pf_live : finished r = false;
  pf_kept : is_retracted (retract r) = false;
  pf_fill : fill_ids (pre r) = committed_ids r;
  pf_len : 0 <= kv_committed_len (kv r) <= seqlen r;
  pf_hungry : hungry r
}.

(** The same request after the result. *)
Record landed (r r' : Req) : Prop := {
  ld_rid : rid (info r') = rid (info r);
  ld_kv : finished r' = false -> kv r' = kv r;
  ld_chunk : 0 < is_chunked (pre r) -> finished r' = false /\ fill_ids (pre r') = committed_ids r';
  ld_next : is_chunked (pre r) <= 0 -> finished r' = false -> ready r' /\ hungry r' /\ zlen (output_ids r') = zlen (output_ids r) + 1
}.

Context (page : Z).

Local Notation process := (process_prefill_req mono gh page tokenizer detokenize re_search []).

Lemma prefill_req_ok (m : Mem A) r t acc : prefilled r -> running_ok mono gh m (r :: acc) Hs others rows ->
  exists m' r', process m r t = Ok (m', r') /\ landed r r' /\ running_ok mono gh m' (unfinished [r'] ++ acc) Hs others rows.
Proof.
  intros [P1 P2 P3 P4 P5] Hok. unfold process_prefill_req. rewrite P1, P2. cbn [orb].
  destruct (Z.leb_spec (is_chunked (pre r)) 0) as [Hle|Hlt].
  - destruct (accept_ok tokenizer detokenize re_search r t P1) as (r1 & E & Ht & Hun). rewrite E. cbn [rbind].
    assert (Hok1 : running_ok mono gh m (r1 :: acc) Hs others rows).
    { apply running_holding in Hok as [Hh Ho]. apply running_holding. split; [|done]. by eapply holding_took. }
    assert (Hlen : zlen (output_ids r1) = zlen (output_ids r) + 1) by (unfold zlen; rewrite (tk_len _ _ Ht); lia).
    unfold unfinished. destruct (finished r1) eqn:Ef.
    + destruct (release_running mono gh true page m r1 acc Hs others rows Hok1) as (m' & E1 & Hok').
      exists m', (released r1). split; [done|]. simpl. change (finished (released r1)) with (finished r1). rewrite Ef. simpl. split; [|done].
      split; change (finished (released r1)) with (finished r1); rewrite ?Ef; try done; [simpl; by rewrite (tk_info _ _ Ht)|lia].
    + simpl. destruct (cache_running m r1 acc false Hok1) as (m' & r2 & E2 & (ids & n & prot & ->) & Hok2 & _).
      { by rewrite (tk_pre _ _ Ht), P3, (committed_took r r1 Ht P4). }
      rewrite E2. eexists _, _. split; [done|]. change (finished (set_pre r1 _)) with (finished r1). rewrite Ef. simpl. split; [|done].
      split; simpl; [by rewrite (tk_info _ _ Ht)|by intros _; apply Ht|lia|]. intros _ _. split; [|split; [by apply Hun|done]].
      unfold ready, seqlen in *. simpl. rewrite (tk_kv _ _ Ht), (tk_origin _ _ Ht). lia.
  - eexists m, _. split; [done|]. unfold unfinished. simpl. change (finished (set_is_chunked r _)) with (finished r). rewrite P1. simpl.
    split; [by split; simpl; [..|lia]|]. destruct Hok as [H1 H2 H3 H4 H5]. split; try done.
    apply list.Forall_cons in H4 as [[[] ? ? ? ?] H4]. by constructor.
Qed.

Lemma prefill_reqs_ok rs : forall ts (m : Mem A) acc, length ts = length rs -> Forall prefilled rs -> running_ok mono gh m (rs ++ acc) Hs others rows ->
  exists m' rs', process_prefill_reqs mono gh page tokenizer detokenize re_search [] m rs ts = Ok (m', rs') /\ Forall2 landed rs rs' /\
    running_ok mono gh m' (unfinished rs' ++ acc) Hs others rows.
Proof.
  induction rs as [|r rs IH]; intros [|t ts] m acc Hl Hpf Hm; try done.
  { exists m, []. by split_and!. }
  apply list.Forall_cons in Hpf as [Hr Hpf]. cbn [process_prefill_reqs].
  destruct (prefill_req_ok m r t (rs ++ acc) Hr Hm) as (m1 & r1 & E1 & L1 & Hm1). rewrite E1. cbn [rbind].
  destruct (IH ts m1 (unfinished [r1] ++ acc)) as (m2 & rs2 & E2 & L2 & Hm2); [simpl in Hl; lia|done| |].
  { by rewrite Permutation_app_swap_app. }
  rewrite E2. cbn [rbind]. exists m2, (r1 :: rs2). split; [done|]. split; [by constructor|].
  assert (Hp : unfinished (r1 :: rs2) = unfinished [r1] ++ unfinished rs2) by (unfold unfinished; simpl; by destruct (negb _)).
  rewrite Hp, <- app_assoc. by rewrite Permutation_app_swap_app.
Qed.

(** ** Joining the running batch *)

Lemma at_index_app {B} (l k : list B) i x : at_index (l ++ k) i x -> at_index l i x \/ (zlen l <= i /\ at_index k (i - zlen l) x).
Proof.
  intros [H0 Hx]. apply lookup_app_Some in Hx as [Hx|[Hl Hx]]; [by left|right]. unfold at_index, zlen in *.
  replace (Z.to_nat (i - _)) with (Z.to_nat i - length l)%nat by lia. split; [lia|]. split; [lia|done].
Qed.

Lemma at_index_l {B} (l k : list B) i x : at_index l i x -> at_index (l ++ k) i x.
Proof. intros [H0 Hx]. split; [done|]. by apply lookup_app_l_Some. Qed.

Lemma at_index_r {B} (l k : list B) i n x : zlen l = n -> n <= i -> at_index k (i - n) x -> at_index (l ++ k) i x.
Proof.
  intros <- Hi [H0 Hx]. pose proof (zlen_nonneg l). split; [lia|]. unfold zlen in *. rewrite lookup_app_r by lia.
  by replace (Z.to_nat i - length l)%nat with (Z.to_nat (i - Z.of_nat (length l))) by lia.
Qed.

Lemma merge_ok b b1 o : arrays_ok b -> rows_aligned b -> arrays_ok b1 -> rows_aligned b1 -> b_output_ids b1 = Some o ->
  exists b', merge_batch b b1 = Ok b' /\ b_reqs b' = b_reqs b ++ b_reqs b1 /\ arrays_ok b' /\ rows_aligned b'.
Proof.
  intros [A1 A2 A3 A4] Hal [C1 C2 C3 C4] Hal1 Eo. unfold merge_batch. rewrite Eo.
  assert (Hb : forall outs, (forall l, outs = Some l -> length l = length (b_reqs b ++ b_reqs b1)) ->
    let b' := {| b_reqs := b_reqs b ++ b_reqs b1; b_req_pool_indices := b_req_pool_indices b ++ b_req_pool_indices b1;
        b_seq_lens := b_seq_lens b ++ b_seq_lens b1; b_orig_seq_lens := b_orig_seq_lens b ++ b_orig_seq_lens b1;
        b_seq_lens_sum := b_seq_lens_sum b + b_seq_lens_sum b1; b_output_ids := outs; b_out_cache_loc := None;
        b_return_logprob := b_return_logprob b || b_return_logprob b1 |} in arrays_ok b' /\ rows_aligned b').
  { intros outs Ho. split; [split; simpl; rewrite ?length_app; try lia; intros l Hl; rewrite (Ho l Hl), length_app; lia|].
    intros i r Hi Hf. apply at_index_app in Hi as [Hi|[Hge Hi]]; simpl.
    - destruct (Hal i r Hi Hf) as (k & E & K1 & K2). exists k. split; [done|]. split; by apply at_index_l.
    - destruct (Hal1 _ r Hi Hf) as (k & E & K1 & K2). exists k. split; [done|]. split; (eapply at_index_r; [|exact Hge|done]); unfold zlen; lia. }
  destruct (b_output_ids b) as [o1|]; cbn [rbind]; eexists; (split; [done|]; split; [done|]); apply Hb; [|done].
  intros l [= <-]. rewrite !length_app, (C4 o Eo), (A4 o1 eq_refl). done.
Qed.

(** Requests whose memory is set aside. *)
Lemma running_apart (m : Mem A) ch rs : running_ok mono gh m (ch ++ rs) Hs others rows ->
  running_ok mono gh m rs (map node_of ch ++ Hs) (concat (map (own_slots m) ch) ++ others) (held ch ++ rows).
Proof.
  intros [H1 H2 H3 H4 H5]. apply Forall_app in H4 as [_ H4]. rewrite map_app in *. split; try done.
  - eapply rreach_perm; [exact H1|]. rewrite <- app_assoc. apply Permutation_app_swap_app.
  - eapply kv_inv_perm; [|exact H2]. rewrite concat_app. solve_Permutation.
  - unfold pool_inv in *. rewrite <- H3. apply Permutation_app_head. unfold held. rewrite omap_app, <- app_assoc. apply Permutation_app_swap_app.
Qed.

(** The chunked request leaves the others. *)
Lemma take_out l r0 : NoDup (rids l) -> r0 ∈ l -> finished r0 = false ->
  unfinished l ≡ₚ r0 :: List.filter (fun r => negb (finished r) && negb (existsb (String.eqb (rid (info r))) (rids [r0; r0]))) l.
Proof.
  unfold unfinished. induction l as [|x l IH]; intros Hnd Hin Hf; [by apply not_elem_of_nil in Hin|]. simpl in Hnd.
  apply list.NoDup_cons in Hnd as [Hx Hnd]. apply elem_of_cons in Hin as [->|Hin].
  - simpl. rewrite Hf, String.eqb_refl. simpl. constructor. apply Permutation_refl'. apply filter_ext_in.
    intros q Hq. simpl. destruct (String.eqb_spec (rid (info q)) (rid (info x))) as [E|E]; [|simpl; by rewrite andb_true_r].
    exfalso. apply Hx. rewrite <- E. apply list_elem_of_fmap. exists q. split; [done|by apply list_elem_of_In].
  - specialize (IH Hnd Hin Hf). simpl. destruct (String.eqb_spec (rid (info x)) (rid (info r0))) as [E|E].
    { exfalso. apply Hx. rewrite E. apply list_elem_of_fmap. by exists r0. }
    simpl. destruct (finished x); simpl; [done|]. rewrite perm_swap. by constructor.
Qed.

(** At most one request of a batch is being chunked: the scheduler's. *)
Definition chunk_ok (chunked : option string) (rs : list Req) : Prop :=
  forall r, r ∈ rs -> 0 < is_chunked (pre r) <-> chunked = Some (rid (info r)).

Definition chunk_now (chunked : option string) (rs : list Req) : option Req :=
  match chunked with Some id => find (fun r => String.eqb (rid (info r)) id) rs | None => None end.

Definition left_over (now : option Req) (rs : list Req) : list Req :=
  List.filter (fun r => negb (finished r) && negb (existsb (String.eqb (rid (info r))) (rids (option_list now ++ option_list now)))) rs.

Lemma chunk_now_Some chunked rs rs' r0 : Forall2 landed rs rs' -> chunk_ok chunked rs -> chunk_now chunked rs' = Some r0 ->
  r0 ∈ rs' /\ finished r0 = false /\ fill_ids (pre r0) = committed_ids r0 /\ chunked = Some (rid (info r0)).
Proof.
  intros Hl Hch. unfold chunk_now. destruct chunked as [id|]; [|done]. intros [Hin Hid]%find_some. apply String.eqb_eq in Hid as <-.
  apply list_elem_of_In in Hin. split; [done|]. apply list_elem_of_lookup in Hin as [i Hi].
  destruct (Forall2_lookup_r _ _ _ _ _ Hl Hi) as (r & Hr & Hld). rewrite (ld_rid _ _ Hld) in *.
  destruct (ld_chunk _ _ Hld) as [F1 F2]; [|done]. by apply Hch; [eapply list_elem_of_lookup_2|].
Qed.

Lemma chunk_split chunked rs rs' : NoDup (rids rs') -> Forall2 landed rs rs' -> chunk_ok chunked rs ->
  unfinished rs' ≡ₚ option_list (chunk_now chunked rs') ++ left_over (chunk_now chunked rs') rs'.
Proof.
  intros Hnd Hl Hch. unfold left_over. destruct (chunk_now chunked rs') as [r0|] eqn:E.
  - destruct (chunk_now_Some _ _ _ _ Hl Hch E) as (Hin & Hf & _). by apply take_out.
  - simpl. unfold unfinished. erewrite filter_ext; [done|]. intros r. simpl. by rewrite andb_true_r.
Qed.

(** Who is neither finished nor chunked decodes next. *)
Lemma left_over_ready chunked rs rs' : Forall2 landed rs rs' -> chunk_ok chunked rs ->
  Forall (fun r => ready r /\ hungry r) (left_over (chunk_now chunked rs') rs').
Proof.
  intros Hl Hch. apply list.Forall_forall. intros r' [Hin [Hf Hne]%andb_prop]%list_elem_of_In%filter_In. apply negb_true_iff in Hf, Hne.
  apply list_elem_of_In in Hin. pose proof Hin as Hin'. apply list_elem_of_lookup in Hin as [i Hi].
  destruct (Forall2_lookup_r _ _ _ _ _ Hl Hi) as (r & Hr & Hld). destruct (Z_le_gt_dec (is_chunked (pre r)) 0) as [Hle|Hgt].
  { destruct (ld_next _ _ Hld Hle Hf) as (? & ? & _). by split. }
  exfalso. assert (Hc : chunked = Some (rid (info r'))).
  { rewrite (ld_rid _ _ Hld). apply Hch; [by eapply list_elem_of_lookup_2|lia]. }
  destruct (chunk_now chunked rs') as [r0|] eqn:E.
  - destruct (chunk_now_Some _ _ _ _ Hl Hch E) as (_ & _ & _ & Hc0). rewrite Hc in Hc0. injection Hc0 as Hc0. simpl in Hne. by rewrite Hc0, String.eqb_refl in Hne.
  - unfold chunk_now in E. rewrite Hc in E. apply list_elem_of_In in Hin'. pose proof (find_none _ _ E _ Hin') as Hx. simpl in Hx. by rewrite String.eqb_refl in Hx.
Qed.

Lemma stash_ok (m : Mem A) now rest : running_ok mono gh m (option_list now ++ rest) Hs others rows ->
  (forall r, now = Some r -> fill_ids (pre r) = committed_ids r) ->
  exists m' now', match now with
                  | Some r => let! (m1, r1) := stash_chunked_request mono gh m r in Ok (m1, Some r1)
                  | None => Ok (m, None)
                  end = Ok (m', now') /\ rids (option_list now') = rids (option_list now) /\
    running_ok mono gh m' (option_list now' ++ rest) Hs others rows /\
    (forall r, now' = Some r -> prefix_indices (pre r) = take (length (committed_ids r)) (row_of m' r)).
Proof.
  intros Hok Hfill. destruct now as [r|]; [|by exists m, None].
  destruct (cache_running m r rest true Hok (Hfill r eq_refl)) as (m' & r' & E & (ids & n & prot & ->) & Hok' & Epi).
  unfold stash_chunked_request. rewrite E. cbn [rbind]. eexists m', (Some _). split; [done|]. split; [done|]. split; [done|]. by intros ? [= <-].
Qed.

(** The batch after the result. *)
Lemma landed_batch b ts rs' : arrays_ok b -> rows_aligned b -> length ts = length (b_reqs b) -> Forall prefilled (b_reqs b) ->
  Forall2 landed (b_reqs b) rs' ->
  arrays_ok (with_reqs (set_output_ids b ts) rs') /\ rows_aligned (with_reqs (set_output_ids b ts) rs').
Proof.
  intros [A1 A2 A3 A4] Hal Hts Hpf Hl. pose proof (list.Forall2_length _ _ _ Hl) as Hlen. split.
  - split; simpl; [congruence|congruence|congruence|]. intros o [= <-]. congruence.
  - intros i r' [H0 Hi] Hf. destruct (Forall2_lookup_r _ _ _ _ _ Hl Hi) as (r & Hr & Hld). rewrite (ld_kv _ _ Hld Hf).
    rewrite list.Forall_lookup in Hpf. apply (Hal i r); [by split|]. apply (pf_live _ (Hpf _ _ Hr)).
Qed.

Lemma live_whole b : Forall (fun r => finished r = false) (b_reqs b) -> live b = b_reqs b.
Proof.
  unfold live. induction 1 as [|r l Hr _ IH]; [done|]. simpl. rewrite Hr. simpl. by rewrite IH.
Qed.

(** A batch that is empty, or whose arrays describe its requests. *)
Definition batch_ok (b : DecodeBatch) : Prop := b_reqs b = [] \/ (arrays_ok b /\ rows_aligned b).

Lemma all_held (m : Mem A) rs : Forall (running m) rs -> length (held rs) = length rs.
Proof.
  intros H. apply held_length. eapply list.Forall_impl; [exact H|]. intros r Hr Ei.
  pose proof (hk_row _ _ _ _ _ (rn_held _ _ Hr)) as Hg. by rewrite Ei in Hg.
Qed.

(** The requests [left] joined the batch [running]; the chunk [now] is cached. *)
Record joined (now : option Req) (left : list Req) (running : DecodeBatch) (m : Mem A) (now' : option Req) (b : DecodeBatch) : Prop := {
  jd_batch : batch_ok b;
  jd_live : live b ≡ₚ left ++ live running;
  jd_rid : rids (option_list now') = rids (option_list now);
  jd_memory : running_ok mono gh m (option_list now' ++ live b) Hs others rows;
  jd_prefix : forall r, now' = Some r -> prefix_indices (pre r) = take (length (committed_ids r)) (row_of m r)
}.

Lemma merge_last_ok (m : Mem A) now b running full o :
  batch_ok running -> arrays_ok b -> rows_aligned b -> b_output_ids b = Some o -> (forall r, now = Some r -> fill_ids (pre r) = committed_ids r) ->
  running_ok mono gh m (option_list now ++ left_over now (b_reqs b) ++ live running) Hs others rows ->
  exists m' now' b' full', merge_last_batch mono gh m now (Some (b, now)) running full = Ok (m', now', b', full') /\
    joined now (left_over now (b_reqs b)) running m' now' b'.
Proof.
  intros Hrun Har Hal Eo Hfill Hok. unfold merge_last_batch.
  destruct (stash_ok m now _ Hok Hfill) as (m' & now' & Es & Er & Hok' & Hpi). rewrite Es. cbn [rbind].
  destruct (filter_stays b (rids (option_list now ++ option_list now)) Har Hal) as (b1 & Ef & Eb & Hb1 & Ho). rewrite Ef. cbn [rbind].
  change (stays b _) with (left_over now (b_reqs b)) in *. rewrite Eb.
  assert (Hlu : live b1 = left_over now (b_reqs b)) by (rewrite <- Eb; apply live_whole; rewrite Eb; apply (stays_unfinished b)).
  set (left := left_over now (b_reqs b)) in *.
  assert (Hend : forall b', batch_ok b' -> live b' ≡ₚ left ++ live running -> joined now left running m' now' b').
  { intros b' Hb' Hp. split; try done. by rewrite Hp. }
  destruct (Z.eqb_spec (zlen left) 0) as [E0|Hne].
  { assert (El : left = []) by (apply zlen_le_0; lia). eexists _, _, running, _. split; [done|]. apply Hend; [done|]. by rewrite El. }
  assert (Hle : left <> []) by (intros E; by rewrite E in Hne). destruct (Hb1 Hle) as [Har1 Hal1].
  assert (Hra1 : rows_aligned b1).
  { apply aligned_rows; [done|]. rewrite Eb. apply (all_held m'). pose proof (ro_reqs _ _ _ _ _ _ _ Hok') as Hx.
    by apply Forall_app in Hx as [_ [? _]%Forall_app]. }
  destruct (Z.eqb_spec (zlen (b_reqs running)) 0) as [E0|Hne1].
  { assert (El : b_reqs running = []) by (apply zlen_le_0; lia). eexists _, _, b1, _. split; [done|]. apply Hend; [by right|].
    by rewrite (live_nil running El), app_nil_r, Hlu. }
  destruct Hrun as [El|[Har2 Hal2]]; [by rewrite El in Hne1|]. destruct (Ho o Eo) as [o' Eo'].
  destruct (merge_ok running b1 o' Har2 Hal2 Har1 Hra1 Eo') as (b' & Em & Eb' & Har' & Hal'). rewrite Em. cbn [rbind].
  eexists _, _, b', _. split; [done|]. apply Hend; [by right|].
  assert (Elive : live b' = live running ++ live b1) by (unfold live; by rewrite Eb', filter_app). rewrite Elive, Hlu. apply Permutation_app_comm.
Qed.

Context (c : SchedulerConfig).

(** The prefill batch [last] has run while the batch [running] waited. *)
Record prefill_ok (s : Scheduler A) (chunked : option string) (last running : DecodeBatch) : Prop := {
  po_running : batch_ok running;
  po_ready : Forall ready (live running);
  po_hungry : Forall hungry (live running);
  po_arrays : arrays_ok last;
  po_rows : rows_aligned last;
  po_last : Forall prefilled (b_reqs last);
  po_chunk : chunk_ok chunked (b_reqs last);
  po_memory : running_ok mono gh (memory s) (b_reqs last ++ live running) Hs others rows;
  po_queue : queue_ok c (queue s) (b_reqs last ++ live running)
}.

Lemma landed_rids rs rs' : Forall2 landed rs rs' -> rids rs' = rids rs.
Proof. apply Forall2_rids. by intros x y []. Qed.

(** C12: the tokens of a prefill are always processed, and its requests become
    running requests: who finishes gives its memory back, who is chunked has
    its chunk cached, with a prefix that covers all tokens computed so far, and
    everyone else joins the running batch.  No request is lost, and the running
    batch, with the memory of the chunked request set aside, is ready for
    rounds of decoding. *)
Theorem prefill_joins_running s chunked last ts running full :
  prefill_ok s chunked last running -> length ts = length (b_reqs last) ->
  exists m' now b' full' done,
    after_prefill mono gh page tokenizer detokenize re_search (memory s) chunked last ts running full = Ok (m', now, b', full', done) /\
    rounds_ok mono gh (map node_of (option_list now) ++ Hs) (concat (map (own_slots m') (option_list now)) ++ others)
      (held (option_list now) ++ rows) c {| memory := m'; queue := queue s; new_token_ratio := new_token_ratio s |} b' /\
    rids (b_reqs last ++ live running) ≡ₚ rids (option_list now ++ live b' ++ done) /\
    (forall r, now = Some r -> chunked = Some (rid (info r)) /\ RunningReqs.running m' r /\
       prefix_indices (pre r) = take (length (committed_ids r)) (row_of m' r)).
Proof.
  intros [P1 P2 P3 P4 P5 P6 P7 P8 P9] Hts. destruct (prefill_reqs_ok (b_reqs last) ts (memory s) (live running) Hts P6 P8) as (m1 & rs' & E & Hl & Hok).
  unfold after_prefill, process_batch_result_prefill. simpl b_reqs. rewrite E. cbn [rbind].
  destruct (landed_batch last ts rs' P4 P5 Hts P6 Hl) as [Har Hal]. set (b := with_reqs (set_output_ids last ts) rs') in *.
  change (b_reqs b) with rs'. change (match chunked with Some id => _ | None => None end) with (chunk_now chunked rs').
  pose proof (landed_rids _ _ Hl) as Erid. destruct P9 as (Q1 & Q2 & Q3).
  assert (Hnd : NoDup (rids rs')) by (rewrite Erid, !rids_app in *; by apply list.NoDup_app in Q2 as (_ & _ & [? _]%list.NoDup_app)).
  pose proof (chunk_split chunked _ _ Hnd Hl P7) as Hsplit. pose proof (left_over_ready chunked _ _ Hl P7) as Hready.
  pose proof (fun r => chunk_now_Some chunked _ _ r Hl P7) as Hnow. set (now := chunk_now chunked rs') in *. set (lo := left_over now rs') in *.
  rewrite Hsplit, <- app_assoc in Hok.
  destruct (merge_last_ok m1 now b running full ts P1 Har Hal eq_refl (fun r H => proj1 (proj2 (proj2 (Hnow r H)))) Hok)
    as (m' & now' & b' & full' & Em & [J1 J2 J3 J4 J5]). rewrite Em. cbn [rbind]. change (left_over now (b_reqs b)) with lo in J2.
  eexists m', now', b', full', _. split; [done|].
  assert (Hperm : rids (b_reqs last ++ live running) ≡ₚ rids (option_list now' ++ live b' ++ List.filter finished rs')).
  { rewrite !rids_app, J3, <- Erid, (rids_perm _ _ (finished_split rs')), rids_app, (rids_perm _ _ Hsplit), (rids_perm _ _ J2), !rids_app. solve_Permutation. }
  assert (Hall : forall P : Req -> Prop, (forall r, ready r /\ hungry r -> P r) -> Forall P (live running) -> Forall P (live b')).
  { intros P HP Hr. rewrite J2. apply Forall_app. split; [|done]. by eapply list.Forall_impl. }
  split; [split; simpl|split; [done|]].
  - exact J1.
  - by apply running_apart.
  - apply Hall; [by intros r []|done].
  - apply Hall; [by intros r []|done].
  - split; [done|]. split; [|done]. rewrite rids_app. rewrite (rids_app (waiting_queue _)), Hperm, !rids_app in Q2.
    rewrite (Permutation_app_swap_app (rids (option_list now'))), (app_assoc (rids (waiting_queue _))) in Q2. by apply list.NoDup_app in Q2 as [? _].
  - intros r ->. split; [|split; [|by apply J5]].
    + destruct now as [r0|]; [|done]. simpl in J3. injection J3 as ->. apply (Hnow r0 eq_refl).
    + pose proof (ro_reqs _ _ _ _ _ _ _ J4) as Hx. by apply list.Forall_cons in Hx as [? _].
Qed.
End joins.

(** ** A concrete prefill

    One request is decoding; of the prefilled ones, [b] has its whole prompt and
    [c] the first two of four tokens. *)
Definition chunk_req : Req :=
  let r := named "c" None (sample_req (Some 2) [7; 8; 9; 10] (Some 0%nat) 0) in
  set_is_chunked
    (set_pre (set_kv r {| req_pool_idx := Some 2; kv_committed_len := 2; kv_allocated_len := 2; kv_committed_freed := false; kv_overallocated_freed := false |})
             (pre (sample_req None [7; 8] (Some 0%nat) 0))) 1.
Definition trio_mem : Mem BaseAllocator :=
  with_pool sample_mem {| pool_size := 3; max_context_len := 12; free_slots := [];
    req_to_token := [sample_row; [15; 16] ++ replicate 10 0; [17; 18] ++ replicate 10 0] |}.
Definition trio_running : DecodeBatch :=
  {| b_reqs := [named "a" None (set_output sample [9])]; b_req_pool_indices := [0]; b_seq_lens := [4]; b_orig_seq_lens := [4];
     b_seq_lens_sum := 4; b_output_ids := Some [9]; b_out_cache_loc := None; b_return_logprob := false |}.
Definition trio_last : DecodeBatch :=
  {| b_reqs := [named "b" None second; chunk_req]; b_req_pool_indices := [1; 2]; b_seq_lens := [2; 2]; b_orig_seq_lens := [2; 4];
     b_seq_lens_sum := 4; b_output_ids := None; b_out_cache_loc := None; b_return_logprob := false |}.
Definition trio_scheduler : Scheduler BaseAllocator :=
  {| memory := trio_mem; queue := {| waiting_queue := []; sent := [] |}; new_token_ratio := f64_ratio 7 10 |}.

Lemma root_held r : last_node (pre r) = Some 0%nat -> cache_protected_len (pre r) = 0 -> forall row,
  get_row (req_pool trio_mem) (req_pool_idx (kv r)) = Ok row -> zlen (committed_ids r) <= zlen row ->
  holds_kv trio_mem r (committed_ids r) (node_of r) row.
Proof.
  intros En Ep row Hrow Hl. assert (Er : root_node RadixProps.demo = 0%nat) by (vm_compute; reflexivity).
  split; [done|done|unfold node_of; by rewrite En|]. unfold node_of. rewrite En, Ep. split.
  - pose proof (zlen_nonneg (tree_keys (tree_cache trio_mem) (committed_ids r))). lia.
  - reflexivity.
  - change (reach RadixProps.demo (root_node RadixProps.demo) 0 [] []). rewrite Er. constructor.
  - intros Hp. lia.
Qed.

Lemma trio_running_ok :
  running_ok RadixProps.clock RadixProps.no_hash trio_mem (b_reqs trio_last ++ live trio_running) [] (seqZ 19 5) [].
Proof.
  split.
  - eapply rreach_perm; [|vm_compute; apply (Permutation_app_comm [1%nat] [0%nat; 0%nat])].
    eapply rreach_perm; [|apply (Permutation_app_comm [0%nat; 0%nat] [1%nat])].
    eapply (rreach_inc _ _ RadixProps.demo [0%nat; 1%nat] 0 [] [] 0 RadixProps.demo); [|constructor|vm_compute; reflexivity].
    eapply rreach_perm; [exact demo_reach_root|apply perm_swap].
  - apply (bool_decide_unpack (_ ≡ₚ _)). vm_compute. done.
  - apply (bool_decide_unpack (_ ≡ₚ _)). vm_compute. done.
  - constructor; [|constructor; [|constructor; [|constructor]]].
    + split; [|reflexivity..|vm_compute; discriminate]. apply root_held; [reflexivity..|vm_compute; discriminate].
    + split; [|reflexivity..|vm_compute; discriminate]. apply root_held; [reflexivity..|vm_compute; discriminate].
    + destruct sample_holds as [H1 H2 H3 H4]. split; [split; [reflexivity|exact H2|reflexivity|exact H4]|reflexivity..|vm_compute; discriminate].
  - split; reflexivity.
Qed.

Lemma trio_prefill_ok : prefill_ok RadixProps.clock RadixProps.no_hash [] (seqZ 19 5) [] step_config trio_scheduler (Some "c"%string) trio_last trio_running.
Proof.
  split.
  - right. split; [split; try reflexivity; intros o Ho; by injection Ho as <-|].
    intros i r [H0 Hr] Hf. destruct (Z.to_nat i) as [|k] eqn:Ei; simpl in Hr; try discriminate Hr; injection Hr as <-.
    exists 0. unfold at_index. by rewrite Ei.
  - repeat constructor; vm_compute; discriminate.
  - repeat constructor.
  - split; try reflexivity. intros o Ho. discriminate Ho.
  - intros i r [H0 Hr] Hf. destruct (Z.to_nat i) as [|[|k]] eqn:Ei; simpl in Hr; try discriminate Hr; injection Hr as <-.
    + exists 1. unfold at_index. by rewrite Ei.
    + exists 2. unfold at_index. by rewrite Ei.
  - constructor; [|constructor; [|constructor]]; (split; [reflexivity..|vm_compute; split; discriminate|vm_compute; reflexivity]).
  - intros r Hr. repeat (apply elem_of_cons in Hr as [->|Hr]); [..|by apply not_elem_of_nil in Hr]; vm_compute; split; congruence.
  - exact trio_running_ok.
  - split; [constructor|]. split; [|done]. vm_compute. repeat constructor; set_solver.
Qed.

Lemma prefill_joins_running_witness : exists m' now b' full' done,
  after_prefill RadixProps.clock RadixProps.no_hash 1 None no_text no_match trio_mem (Some "c"%string) trio_last [8; 8] trio_running true
    = Ok (m', now, b', full', done) /\
  rids (option_list now) = ["c"%string] /\ rids (live b') = ["a"; "b"]%string /\ b_seq_lens b' = [4; 2] /\ done = [] /\
  Forall ready (live b').
Proof.
  destruct (prefill_joins_running RadixProps.clock RadixProps.no_hash [] (seqZ 19 5) [] None no_text no_match 1 step_config
    trio_scheduler (Some "c"%string) trio_last [8; 8] trio_running true trio_prefill_ok eq_refl)
    as (m' & now & b' & full' & done & E & Hok & _).
  exists m', now, b', full', done. split; [exact E|]. pose proof (rd_ready _ _ _ _ _ _ _ _ Hok) as Hr. clear Hok.
  vm_compute in E. injection E as <- <- <- <- <-. split_and!; try reflexivity. exact Hr.
Defined.
