(* ===== verification/SchedulerPrefill.v ===== *)
(** * Choosing the next prefill batch

    [_get_new_batch_prefill_raw] and [get_new_batch_prefill] of [Scheduler]
    ([srt/managers/scheduler.py]) up to the construction of the batch, without
    grammars, LoRA, host caches, disaggregation, dynamic chunk sizes and the
    hooks that test retraction.  The
    requests of the waiting queue are objects: what the admission writes into
    them stays there when they are not admitted.  They are told apart by their
    id. *)

From S2P Require Import Prelude Tensors Floats RadixKeys RadixCache Request ReqPool KVAllocator ReqCache MemCommon SchedulePolicy DecodeBatch PrefillAdder PrefillDelayer SchedulerQueue.

Record PrefillConfig := {
  adder_config : AdderConfig;
  max_prefill_tokens : Z;
  chunked_prefill_size : option Z;
  is_mixed_chunk : bool;
  enable_priority_preemption : bool;
  pp_max_micro_batch_size : Z;
  pp_size : Z;
  truncation_align_size : option Z;
  max_running : Z;
  queue_limits : QueueConfig
}.

Record PrefillState (A : Type) := {
  ps_mem : Mem A;
  ps_queue : Queue;
  ps_policy : SchedulePolicy;
  ps_chunked : option Req;
  ps_running : DecodeBatch;
  ps_full : bool;
  ps_max_prefill_bs : Z
}.
Arguments ps_mem {A}. Arguments ps_queue {A}. Arguments ps_policy {A}. Arguments ps_chunked {A}. Arguments ps_running {A}.
Arguments ps_full {A}. Arguments ps_max_prefill_bs {A}. Arguments Build_PrefillState {A}.

Definition set_full {A} (s : PrefillState A) (full : bool) : PrefillState A :=
  {| ps_mem := ps_mem s; ps_queue := ps_queue s; ps_policy := ps_policy s; ps_chunked := ps_chunked s; ps_running := ps_running s;
     ps_full := full; ps_max_prefill_bs := ps_max_prefill_bs s |}.

Definition bump_is_chunked (r : Req) : Req :=
  let p := pre r in
  set_pre r {| fill_ids := fill_ids p; prefix_indices := prefix_indices p; last_node := last_node p;
               host_hit_length := host_hit_length p; cache_protected_len := cache_protected_len p;
               extend_input_len := extend_input_len p; extend_logprob_start_len := extend_logprob_start_len p;
               is_chunked := is_chunked p + 1 |}.

(** [extend_num_tokens] of [prepare_for_extend], for the batch that the pass returns. *)
Definition new_tokens (rs : list Req) : Z := zsum (map (fun r => zlen (slice_from (fill_ids (pre r)) (zlen (prefix_indices (pre r))))) rs).

Section prefill.
Context (monotonic : nat -> Z) (get_hash_str : list tok -> option string -> string) (is_chunk_cache : bool) (retract_decode_steps : Z).
Context (dict_values : gmap ckey nat -> list nat) (shuffle : list Req -> list Req) (garbage : nat -> Z).
Context {A : Type} {KV : KVAllocator A}.

(** The prefill delayer: its state and its answer for the size of the running
    batch and of the largest prefill batch so far. *)
Context {D : Type} (ask : D -> Z -> Z -> result (bool * D)).

Definition running_reqs (a : PrefillAdder A) : list Req :=
  match running_batch a with Some b => b_reqs b | None => [] end.

Definition get_num_allocatable_reqs (c : PrefillConfig) (m : Mem A) (running_bs : Z) : Z :=
  let res := pp_max_micro_batch_size c - running_bs in
  if 1 <? pp_size c then Z.min res (ReqPool.available_size (req_pool m)) else res.

(** The loop over the waiting queue: returns the requests as it leaves them,
    the adder and [batch_is_full]. *)
Fixpoint admit_loop (c : PrefillConfig) (max_bs : Z) (a : PrefillAdder A) (full : bool) (d : D) (todo : list Req)
  : result (list Req * PrefillAdder A * bool * D) :=
  match todo with
  | [] => Ok ([], a, full, d)
  | r :: rest =>
      let full := if get_num_allocatable_reqs c (mem a) (zlen (running_reqs a)) <=? zlen (can_run_list a) then true else full in
      let! (go, a) :=
        if full then
          if enable_priority_preemption c
          then preempt_to_schedule monotonic get_hash_str is_chunk_cache retract_decode_steps
                 (schedule_low_priority_values_first (queue_limits c)) a r
          else Ok (false, a)
        else Ok (true, a) in
      if negb go then Ok (r :: rest, a, full, d)
      else
        let! (r1, t) := init_next_round_input monotonic r (Some (tree_cache (mem a))) in
        let a := match t with Some t => set_mem a (with_tree (mem a) t) | None => a end in
        let! (allow, d) := ask d (zlen (running_reqs a)) max_bs in
        let! (res, r2, a) := add_one_req allow a r1 (truncation_align_size c) in
        match res with
        | CONTINUE => let! (seen, a, full, d) := admit_loop c max_bs a full d rest in Ok (r2 :: seen, a, full, d)
        | NO_TOKEN => Ok (r2 :: rest, a, true, d)
        | OTHER => Ok (r2 :: rest, a, full, d)
        end
  end.

(** The chunked request goes first; returns the chunked request of the next pass. *)
Definition add_chunked (a : PrefillAdder A) (chunked : option Req) : result (option Req * PrefillAdder A) :=
  match chunked with
  | None => Ok (None, a)
  | Some r =>
      let! (r1, _) := init_next_round_input monotonic r None in
      let! (truncated, r2, a) := add_chunked_req a r1 in
      Ok (if truncated then Some r2 else None, a)
  end.

(** [_get_new_batch_prefill_raw]: the requests of the new batch, if any. *)
Definition get_new_batch_prefill_raw (c : PrefillConfig) (now : Z) (s : PrefillState A) (d : D)
  : result (option (list Req) * PrefillState A * D) :=
  let s := if enable_priority_preemption c then set_full s false else s in
  let waiting := waiting_queue (ps_queue s) in
  if (ps_full s || (zlen waiting =? 0)) && is_none (ps_chunked s) then Ok (None, s, d)
  else
    let running_bs := zlen (b_reqs (ps_running s)) in
    if (get_num_allocatable_reqs c (ps_mem s) running_bs <=? 0) && negb (is_none (ps_chunked s)) && negb (enable_priority_preemption c)
    then Ok (None, set_full s true, d)
    else
      let! (_, waiting, tree, policy) :=
        calc_priority monotonic get_hash_str dict_values shuffle garbage (ps_policy s) (tree_cache (ps_mem s)) waiting
          (Some (b_reqs (ps_running s))) in
      let a := adder_init (adder_config c) (with_tree (ps_mem s) tree) (Some (ps_running s)) (max_prefill_tokens c)
                 (chunked_prefill_size c) (if is_mixed_chunk c then running_bs else 0) in
      let! (chunked, a) := add_chunked a (ps_chunked s) in
      let! (seen, a, full, d) := admit_loop c (ps_max_prefill_bs s) a (ps_full s) d waiting in
      let can_run := can_run_list a in
      let running := match running_batch a with Some b => b | None => ps_running s end in
      let after q chunked bs :=
        {| ps_mem := mem a; ps_queue := q; ps_policy := policy; ps_chunked := chunked; ps_running := running; ps_full := full;
           ps_max_prefill_bs := bs |} in
      if zlen can_run =? 0 then Ok (None, after (set_queue (ps_queue s) seen) chunked (ps_max_prefill_bs s), d)
      else
        let remaining := List.filter (fun r => negb (existsb (is_req r) can_run)) seen in
        let! q := add_all_to_queue (queue_limits c) now (set_queue (ps_queue s) remaining) (preempt_list a) in
        let! chunked := match new_chunked_req a with
                        | Some r => let! _ := rassert (is_none chunked) in Ok (Some r)
                        | None => Ok chunked
                        end in
        let chunked := bump_is_chunked <$> chunked in
        let can_run := match chunked with
                       | Some r => map (fun x => if is_req x r then bump_is_chunked x else x) can_run
                       | None => can_run
                       end in
        Ok (Some can_run, after q chunked (Z.max (ps_max_prefill_bs s) (zlen can_run)), d).
End prefill.

(** [get_new_batch_prefill]: with a prefill delayer, one negotiation per pass;
    [usage] is the token usage of the pool. *)
Section delayed.
Context (monotonic : nat -> Z) (get_hash_str : list tok -> option string -> string) (is_chunk_cache : bool) (retract_decode_steps : Z).
Context (dict_values : gmap ckey nat -> list nat) (shuffle : list Req -> list Req) (garbage : nat -> Z).
Context {A : Type} {KV : KVAllocator A} {W : Type} (all_gather : W -> list Z -> list (list Z) * W) (debug : bool).

(** The question [add_one_req] puts to the delayer of the pass. *)
Definition ask_delayer (c : PrefillConfig) (now : Z) (d : SinglePassExecutor * W) (running_bs max_bs : Z)
  : result (bool * (SinglePassExecutor * W)) :=
  let (e, w) := d in
  let! (b, e1, w1) := negotiate_should_allow_prefill all_gather w e true
    {| PrefillDelayer.running_bs := running_bs; max_prefill_bs := max_bs; max_running_requests := max_running c |} now in
  Ok (b, (e1, w1)).

Definition get_new_batch_prefill (c : PrefillConfig) (now : Z) (usage : f64) (s : PrefillState A) (delayer : option PrefillDelayer) (w : W)
  : result (option (list Req) * PrefillState A * option PrefillDelayer * W) :=
  match delayer with
  | None =>
      let! (ret, s, _) := get_new_batch_prefill_raw monotonic get_hash_str is_chunk_cache retract_decode_steps dict_values shuffle garbage
                            (fun (u : unit) _ _ => Ok (true, u)) c now s tt in
      Ok (ret, s, None, w)
  | Some d =>
      let! (ret, s, (e, w)) := get_new_batch_prefill_raw monotonic get_hash_str is_chunk_cache retract_decode_steps dict_values shuffle garbage
                                 (ask_delayer c now) c now s (executor_init d usage, w) in
      let! (_, e, w) := finalize all_gather debug w e (negb (is_none ret)) now in
      Ok (ret, s, Some (prefill_delayer e), w)
  end.
End delayed.
