(* ===== verification/SchedulerPrefillProps.v ===== *)
(** * The prefill pass

    Without preemption every request that waits is admitted or still waits, and
    the tree is locked once for every admitted request.  The batch fits the
    memory of the token allocator, but need not fit that of TriAxialKV.  With
    preemption a request gets lost when the pass ends without a batch. *)

From S2P Require Import Prelude Tensors Floats TriaxialPool TriaxialAllocator TriaxialAllocatorTheory TriaxialInvariant TriaxialAllocatorProps BaseAllocator TokenAllocator RadixKeys RadixKeysTheory RadixCache RadixTheory RadixSplit RadixWalk RadixOps RadixLocks RadixFacts RadixProps Request ReqPool KVAllocator ReqCache ReqCacheProps MemCommon TokenMemProps ExtendProps TriaxialBatch SchedulePolicy SchedulePolicyTheory SchedulePolicyProps DecodeBatch PrefillAdder PrefillAdderProps PrefillDelayer PrefillDelayerProps SchedulerQueue SchedulerQueueProps RunningReqs DecodeBatchProps SchedulerPrefill.

(** ** Lengths of matched prefixes *)



Section admission.
Context (mono : nat -> Z) (gh : list tok -> option string -> string).
Context {A : Type} {KV : KVAllocator A} {KL : KVAllocatorLaws A}.

(** The allocator, which a pass only reads. *)
Context (al : A) (Hadm : exists n, kv_admission al = Ok n).

(** A request whose prefix was looked up in the tree. *)
Definition matched (t : RadixCache) (r : Req) : Prop :=
  host_hit_length (pre r) = 0 /\ exists n ks vs, last_node (pre r) = Some n /\ reach t (root_node t) n ks vs.

Lemma round_input_ok r t H : rreach mono gh t H ->
  exists r' t', init_next_round_input mono r (Some t) = Ok (r', Some t') /\ core r' = core r /\ rreach mono gh t' H /\
    held_slots t' ≡ₚ held_slots t /\ matched t' r'.
Proof.
  intros Hr. unfold init_next_round_input. destruct (match_total mono gh t H (req_key (match_ids r) (extra_key (info r))) Hr) as (m & t' & E).
  rewrite E. cbn [rbind]. destruct (match_reach _ _ _ _ _ _ _ Hr E) as [Hr' (ks & Hre)]. eexists _, t'. split; [done|].
  split; [done|]. split; [done|]. split; [by eapply match_slots|]. split; [done|]. by exists (last_device_node m), ks, (device_indices m).
Qed.


Lemma available_total (a : PrefillAdder A) : allocator (mem a) = al -> exists n, available_and_evictable a = Ok n.
Proof using Hadm. intros Ha. unfold available_and_evictable. destruct Hadm as [n E]. rewrite Ha, E. by eexists. Qed.

Lemma budget_total (a : PrefillAdder A) : allocator (mem a) = al -> exists s, budget_state a = Ok s.
Proof using Hadm.
  intros Ha. unfold budget_state, rem_total_tokens, cur_rem_tokens. destruct (available_total a Ha) as [n ->]. cbn [rbind]. repeat case_match; by eexists.
Qed.

(** Under the lock: an early answer, or the request is pushed and locked again. *)
Lemma add_locked_total (a : PrefillAdder A) r total align : allocator (mem a) = al -> host_hit_length (pre r) = 0 ->
  (exists res, add_locked a r total align = Ok (Some res, r, a)) \/
  exists r' flag len upd mx, core r' = core r /\ last_node (pre r') = last_node (pre r) /\
    add_locked a r total align =
      (let! a1 := inc_lock (push_req a r' flag) (last_node (pre r)) in Ok (None, r', update_prefill_budget a1 len upd mx)).
Proof using Hadm.
  intros Ha Hh. unfold add_locked, rem_total_tokens. destruct (available_total a Ha) as [n ->]. cbn [rbind].
  destruct (num_leb _ _); [left; by eexists|]. rewrite Hh. simpl (0 <? 0). cbn iota.
  destruct (_ && _); [left; by eexists|]. destruct (rem_chunk_tokens a) as [ch|]; [|right; by eexists r, false, _, _, _].
  destruct (_ <=? ch); [right; by eexists r, false, _, _, _|]. destruct (_ <=? 0); [left; by eexists|].
  destruct align as [al0|]; [destruct (_ <? al0); [left; by eexists|]|]; right; eexists _, true, _, _, _; (split; [|split; [|reflexivity]]); done.
Qed.

(** One request: not admitted, or admitted with its node locked once more. *)
Definition admits (a : PrefillAdder A) (r : Req) (H : list nat) (others : list Z) (x : result (AddReqResult * Req * PrefillAdder A)) : Prop :=
  exists res r' a', x = Ok (res, r', a') /\ core r' = core r /\ preempt_list a' = preempt_list a /\ running_batch a' = running_batch a /\
    allocator (mem a') = al /\
    ((can_run_list a' = can_run_list a /\ new_chunked_req a' = new_chunked_req a /\ mem_ok mono gh (mem a') H others) \/
     (can_run_list a' = can_run_list a ++ [r'] /\ mem_ok mono gh (mem a') (node_of r' :: H) others /\
      (new_chunked_req a' = new_chunked_req a \/ new_chunked_req a' = Some r'))).

Lemma add_one_req_total allow (a : PrefillAdder A) r align H others :
  allocator (mem a) = al -> mem_ok mono gh (mem a) H others -> matched (tree_cache (mem a)) r -> admits a r H others (add_one_req allow a r align).
Proof using Hadm.
  intros Ha Hm (Hh & n & ks & vs & En & Hre). pose proof (proj1 (proj1 (rreach_inv _ _ _ _ (proj1 Hm)))) as Hd.
  unfold add_one_req. assert (Hno : forall res, admits a r H others (Ok (res, r, a))).
  { intros res. exists res, r, a. split_and!; try done. by left. }
  destruct allow; simpl negb; cbn iota; [|apply Hno]. destruct (single_prefill (config a) && _); [apply Hno|].
  destruct (match prefill_max_requests (config a) with Some x => _ | None => _ end); [apply Hno|].
  rewrite Hd, andb_false_r. unfold rem_total_tokens. destruct (available_total a Ha) as [nav Eav]. rewrite Eav. cbn [rbind].
  destruct (num_leb _ _); [apply Hno|]. destruct (_ && _); [apply Hno|]. clear Hno.
  rewrite En. destruct (lock_pair mono gh a H others n ks vs Hm Hre) as (t1 & t2 & E1 & D1 & M1 & M2 & _ & K1 & _).
  rewrite E1. cbn [rbind]. set (a1 := set_mem a (with_tree (mem a) t1)). set (total := extend_input_len (pre r) + _).
  destruct (add_locked_total a1 r total align Ha Hh) as [(res & E)|(r' & flag & len & upd & mx & Ec & El & E)]; rewrite E; cbn [rbind].
  - rewrite (D1 a1 eq_refl). cbn [rbind]. eexists _, _, _. split; [done|]. split_and!; try done. by left.
  - rewrite En in *. destruct (lock_pair mono gh (push_req a1 r' flag) (n :: H) others n ks vs M1 (K1 _ _ _ Hre))
      as (t3 & t4 & E3 & D3 & M3 & M4 & _).
    rewrite E3. cbn [rbind]. set (a2 := update_prefill_budget _ len upd mx). rewrite (D3 a2 eq_refl). cbn [rbind].
    set (a3 := set_mem a2 _). destruct (budget_total a3 Ha) as [s Eb]. rewrite Eb. cbn [rbind]. eexists _, _, a3. split; [done|].
    split_and!; try done. right. split; [done|]. split; [|by destruct flag; [right|left]].
    unfold node_of. rewrite El. simpl. exact M4.
Qed.

(** ** The loop *)

Context {D : Type} (ask : D -> Z -> Z -> result (bool * D)) (P : D -> Prop).
Context (Hask : forall d x y, P d -> exists b d', ask d x y = Ok (b, d') /\ P d').
Context (chunk : bool) (steps : Z).

(** What a loop over [todo] returns: the requests as left behind, of which [new]
    were admitted and hold one lock each. *)
Definition loops (a : PrefillAdder A) (H : list nat) (others : list Z) (todo : list Req)
    (x : result (list Req * PrefillAdder A * bool * D)) : Prop :=
  exists seen a' full' d' new, x = Ok (seen, a', full', d') /\ P d' /\
    map core seen = map core todo /\ can_run_list a' = can_run_list a ++ new /\ sublist new seen /\
    mem_ok mono gh (mem a') (map node_of (can_run_list a') ++ H) others /\ preempt_list a' = preempt_list a /\
    running_batch a' = running_batch a /\ allocator (mem a') = al /\
    (new_chunked_req a' = new_chunked_req a \/ exists r, r ∈ new /\ new_chunked_req a' = Some r).

Lemma admit_loop_ok c bs H others : enable_priority_preemption c = false -> forall todo a full d,
  allocator (mem a) = al -> mem_ok mono gh (mem a) (map node_of (can_run_list a) ++ H) others -> P d ->
  loops a H others todo (admit_loop mono gh chunk steps ask c bs a full d todo).
Proof using Hadm Hask.
  intros Hnp. induction todo as [|r todo IH]; intros a full d Ha Hm Hd.
  { exists [], a, full, d, []. rewrite app_nil_r. split_and!; try done. by left. }
  cbn [admit_loop]. set (f := if _ <=? zlen (can_run_list a) then true else full).
  assert (Hstop : loops a H others (r :: todo) (Ok (r :: todo, a, f, d))).
  { exists (r :: todo), a, f, d, []. rewrite app_nil_r. split_and!; try done; [apply sublist_nil_l|by left]. }
  rewrite Hnp. destruct f; cbn [rbind negb]; [done|]. clear Hstop.
  destruct (round_input_ok r _ _ (proj1 Hm)) as (r1 & t1 & E1 & Ec1 & Hr1 & Hs1 & Hmat). rewrite E1. cbn [rbind].
  set (a1 := set_mem a (with_tree (mem a) t1)). destruct (Hask d (zlen (running_reqs a1)) bs Hd) as (allow & d1 & Ea & Hd1). rewrite Ea. cbn [rbind].
  assert (Hm1 : mem_ok mono gh (mem a1) (map node_of (can_run_list a) ++ H) others).
  { split; [done|]. simpl. eapply kv_inv_perm; [|exact (proj2 Hm)]. by rewrite Hs1. }
  destruct (add_one_req_total allow a1 r1 (truncation_align_size c) _ others Ha Hm1 Hmat)
    as (res & r2 & a2 & E2 & Ec2 & Ep2 & Eb2 & Ea2 & Hcase). rewrite E2. cbn [rbind].
  (* the admitted request, if any *)
  assert (Hone : exists new, can_run_list a2 = can_run_list a ++ new /\ sublist new [r2] /\
    mem_ok mono gh (mem a2) (map node_of (can_run_list a2) ++ H) others /\
    (new_chunked_req a2 = new_chunked_req a \/ exists r, r ∈ new /\ new_chunked_req a2 = Some r)).
  { destruct Hcase as [(C1 & C2 & C3)|(C1 & C2 & C3)].
    - exists []. rewrite C1, app_nil_r. split_and!; [done|apply sublist_nil_l|done|by left].
    - exists [r2]. rewrite C1. split_and!; [done|done| |].
      + destruct C2 as [C2 C2']. split; [|done]. eapply rreach_perm; [exact C2|]. rewrite map_app, <- app_assoc. simpl. apply Permutation_middle.
      + destruct C3 as [C3|C3]; [by left|right]. exists r2. split; [by left|done]. }
  destruct Hone as (new & N1 & N2 & N3 & N4). simpl in Ep2, Eb2.
  assert (Hend : forall f', loops a H others (r :: todo) (Ok (r2 :: todo, a2, f', d1))).
  { intros f'. exists (r2 :: todo), a2, f', d1, new. split_and!; try done; [simpl; by rewrite Ec2, Ec1|].
    etrans; [exact N2|]. apply sublist_skip, sublist_nil_l. }
  destruct res; [|apply Hend|apply Hend]. clear Hend.
  destruct (IH a2 false d1 Ea2 N3 Hd1) as (seen & a3 & f3 & d3 & new3 & E3 & B0 & B1 & B2 & B3 & B4 & B5 & B6 & B8 & B7). rewrite E3. cbn [rbind].
  exists (r2 :: seen), a3, f3, d3, (new ++ new3). split_and!; try done.
  - simpl. by rewrite Ec2, Ec1, B1.
  - by rewrite B2, N1, app_assoc.
  - change (r2 :: seen) with ([r2] ++ seen). by apply sublist_app.
  - by rewrite B5.
  - by rewrite B6.
  - destruct B7 as [B7|(x & Hx & B7)]; [|right; exists x; set_solver]. rewrite B7. destruct N4 as [N4|(x & Hx & N4)]; [by left|right; exists x; set_solver].
Qed.

(** ** The pass *)

Lemma rids_core l k : map core l ≡ₚ map core k -> rids l ≡ₚ rids k.
Proof.
  intros Hp. apply (Permutation_map (fun x => rid (fst (fst (fst (fst x)))))) in Hp. rewrite !map_map in Hp. exact Hp.
Qed.

Lemma not_req x l : rid (info x) ∉ rids l -> existsb (is_req x) l = false.
Proof.
  intros Hx. apply not_true_is_false. intros (y & Hy & E)%existsb_exists. unfold is_req in E. apply String.eqb_eq in E.
  apply Hx. rewrite E. apply list_elem_of_fmap. exists y. split; [done|]. by apply list_elem_of_In.
Qed.

Lemma sublist_rids (l k : list Req) x : sublist l k -> x ∈ rids l -> x ∈ rids k.
Proof.
  intros Hs. induction Hs as [|y l k _ IH|y l k _ IH]; [done| |]; simpl; rewrite ?elem_of_cons; [|by right; apply IH].
  intros [->|Hx]; [by left|right; by apply IH].
Qed.

(** Leaving out the admitted requests by their ids. *)
Lemma remaining_perm new seen : sublist new seen -> NoDup (rids seen) ->
  new ++ List.filter (fun r => negb (existsb (is_req r) new)) seen ≡ₚ seen.
Proof.
  induction 1 as [|x new seen Hs IH|x new seen Hs IH]; intros Hnd; [done| |]; simpl in Hnd; apply list.NoDup_cons in Hnd as [Hx Hnd].
  - simpl. unfold is_req at 1. rewrite String.eqb_refl. simpl. rewrite <- (IH Hnd) at 2. constructor. apply Permutation_app_head.
    apply reflexive_eq, filter_ext_in. intros y Hy%list_elem_of_In. replace (is_req y x) with false; [done|]. symmetry.
    apply String.eqb_neq. intros E. apply Hx. rewrite <- E. apply list_elem_of_fmap. by exists y.
  - simpl. rewrite not_req; [|intros Hin; by apply Hx, (sublist_rids new)]. simpl. rewrite <- Permutation_middle. by rewrite IH.
Qed.

Context (dict_values : gmap ckey nat -> list nat) (Hdict : forall c, dict_values c ≡ₚ map snd (map_to_list c)).
Context (shuffle : list Req -> list Req) (Hshuffle : forall q, shuffle q ≡ₚ q) (garbage : nat -> Z).

(** What a pass leaves behind: every request is in the new batch or still waits,
    nobody is answered, the nodes of the batch are locked, and no slot has moved. *)
Record conserves (s s' : PrefillState A) (H : list nat) (others : list Z) (ret : option (list Req)) : Prop := {
  co_reqs : map core (default [] ret ++ waiting_queue (ps_queue s')) ≡ₚ map core (waiting_queue (ps_queue s));
  co_some : ret <> Some [];
  co_sent : sent (ps_queue s') = sent (ps_queue s);
  co_mem : mem_ok mono gh (ps_mem s') (map node_of (default [] ret) ++ H) others;
  co_running : ps_running s' = ps_running s;
  co_chunked : forall r, ps_chunked s' = Some r -> r ∈ default [] ret
}.

(** A state the pass starts from. *)
Record pass_ok (s : PrefillState A) (H Hw : list nat) (others : list Z) : Prop := {
  po_chunked : ps_chunked s = None;
  po_allocator : allocator (ps_mem s) = al;
  po_mem : mem_ok mono gh (ps_mem s) H others;
  po_tree : rreach mono gh (waiting_queue_radix_tree (ps_policy s)) Hw;
  po_simulated : simulated (waiting_queue_radix_tree (ps_policy s));
  po_priority : SchedulePolicy.enable_priority_scheduling (ps_policy s) = true -> Forall (fun r => priority (info r) <> None) (waiting_queue (ps_queue s));
  po_rids : NoDup (rids (waiting_queue (ps_queue s)))
}.

Lemma prefill_raw_ok c now s d H Hw others :
  enable_priority_preemption c = false -> pass_ok s H Hw others -> P d ->
  exists ret s' d', get_new_batch_prefill_raw mono gh chunk steps dict_values shuffle garbage ask c now s d = Ok (ret, s', d') /\
    conserves s s' H others ret /\ P d'.
Proof using Hadm Hask Hdict Hshuffle.
  intros Hnp [Hch Hal Hm Hwt Hsim Hprio Hnd] Hd. unfold get_new_batch_prefill_raw. rewrite Hnp, Hch. simpl is_none. rewrite andb_true_r.
  destruct (ps_full s || (zlen (waiting_queue (ps_queue s)) =? 0)); [exists None, s, d; split_and!; try done; split; try done; by rewrite Hch|].
  simpl negb. rewrite andb_false_r. simpl andb. cbn iota.
  destruct (calc_priority_ok mono gh garbage dict_values Hdict shuffle Hshuffle (ps_policy s) (tree_cache (ps_mem s)) H Hw
    (waiting_queue (ps_queue s)) (Some (b_reqs (ps_running s))) (proj1 Hm) Hwt Hsim Hprio) as (bb & wq & t & sp & Ec & Hcore & Hr & Hsl & _).
  rewrite Ec. cbn [rbind add_chunked]. set (a0 := adder_init _ _ _ _ _ _).
  assert (Hm0 : mem_ok mono gh (mem a0) (map node_of (can_run_list a0) ++ H) others).
  { split; [done|]. simpl. eapply kv_inv_perm; [|exact (proj2 Hm)]. by rewrite Hsl. }
  destruct (admit_loop_ok c (ps_max_prefill_bs s) H others Hnp wq a0 (ps_full s) d Hal Hm0 Hd)
    as (seen & a & full & d' & new & E & B0 & B1 & B2 & B3 & B4 & B5 & B6 & _ & B7). rewrite E. cbn [rbind]. simpl in B2, B5, B6, B7.
  rewrite B2 in *. rewrite B6.
  destruct (Z.eqb_spec (zlen new) 0) as [E0|Hne].
  { assert (new = []) as -> by (apply zlen_le_0; lia). eexists None, _, d'. split; [done|]. split; [|done]. split; simpl; try done. by rewrite B1. }
  rewrite B5. unfold add_all_to_queue. simpl rfold. cbn [rbind].
  assert (Hperm : new ++ List.filter (fun r => negb (existsb (is_req r) new)) seen ≡ₚ seen).
  { apply remaining_perm; [done|]. rewrite (rids_core seen (waiting_queue (ps_queue s))); [done|]. by rewrite B1. }
  assert (Hne' : new <> []) by (by intros ->).
  destruct (new_chunked_req a) as [rc|] eqn:Enc; simpl rassert; cbn [rbind].
  - set (f := fun x => if is_req x (bump_is_chunked rc) then bump_is_chunked x else x).
    assert (Hf1 : forall l, map core (map f l) = map core l) by (intros l; rewrite map_map; apply map_ext; intros x; unfold f; by destruct (is_req _ _)).
    assert (Hf2 : forall l, map node_of (map f l) = map node_of l) by (intros l; rewrite map_map; apply map_ext; intros x; unfold f; by destruct (is_req _ _)).
    eexists (Some (map f new)), _, d'. split; [done|]. split; [|done]. split; simpl; try done.
    + rewrite map_app, Hf1, <- map_app, Hperm. by rewrite B1.
    + intros [= Hx]. by apply map_eq_nil in Hx.
    + by rewrite Hf2.
    + intros r [= <-]. destruct B7 as [B7|(x & Hx & [= ->])]; [done|]. apply list_elem_of_fmap. exists x. split; [|done].
      unfold f, is_req. simpl. by rewrite String.eqb_refl.
  - eexists (Some new), _, d'. split; [done|]. split; [|done]. split; simpl; try done.
    + by rewrite Hperm, B1.
    + congruence.
Qed.
End admission.

(** ** The pass with the prefill delayer *)

Section pass.
Context (mono : nat -> Z) (gh : list tok -> option string -> string) {A : Type} {KV : KVAllocator A} {KL : KVAllocatorLaws A}.
Context (chunk : bool) (steps : Z) (dict_values : gmap ckey nat -> list nat) (Hdict : forall c, dict_values c ≡ₚ map snd (map_to_list c)).
Context (shuffle : list Req -> list Req) (Hshuffle : forall q, shuffle q ≡ₚ q) (garbage : nat -> Z).
Context {W : Type} (all_gather : W -> list Z -> list (list Z) * W) (debug : bool).

(** One exchange between the ranks if there is a delayer, none otherwise. *)
Definition exchanged (before after : option PrefillDelayer) (w w' : W) : Prop :=
  match before, after with
  | None, None => w' = w
  | Some d, Some d' => same_config d d' /\ exists row, w' = snd (all_gather w row)
  | _, _ => False
  end.

Lemma prefill_pass_ok c now usage s delayer w H Hw others n :
  enable_priority_preemption c = false -> kv_admission (allocator (ps_mem s)) = Ok n ->
  pass_ok mono gh (allocator (ps_mem s)) s H Hw others -> (forall d, delayer = Some d -> 1 <= dp_size_dim d) ->
  exists ret s' delayer' w', get_new_batch_prefill mono gh chunk steps dict_values shuffle garbage all_gather debug c now usage s delayer w
      = Ok (ret, s', delayer', w') /\
    conserves mono gh s s' H others ret /\ exchanged delayer delayer' w w'.
Proof using Hdict Hshuffle.
  intros Hnp Hn Hs Hdel. assert (Hadm : exists n, kv_admission (allocator (ps_mem s)) = Ok n) by by exists n.
  unfold get_new_batch_prefill. destruct delayer as [d|].
  - specialize (Hdel d eq_refl). set (ask := ask_delayer all_gather c now).
    assert (Hask : forall x y z, in_pass all_gather d w x -> exists b x', ask x y z = Ok (b, x') /\ in_pass all_gather d w x').
    { intros [e w0] y z Hx. unfold ask, ask_delayer. destruct (ask_in_pass all_gather d w e w0 true
        {| PrefillDelayer.running_bs := y; max_prefill_bs := z; max_running_requests := max_running c |} now Hdel Hx) as (b & e1 & w1 & out & -> & Hx1 & _).
      cbn [rbind]. by exists b, (e1, w1). }
    destruct (prefill_raw_ok mono gh _ Hadm ask (in_pass all_gather d w) Hask chunk steps dict_values Hdict shuffle Hshuffle garbage c now s
      (executor_init d usage, w) H Hw others Hnp Hs) as (ret & s' & [e w1] & E & Hco & Hp); [by split; [|left]|].
    rewrite E. cbn [rbind]. destruct (finalize_in_pass all_gather d w e w1 debug (negb (is_none ret)) now Hdel Hp) as (oc & e' & row & Ef & Hc).
    rewrite Ef. cbn [rbind]. eexists ret, s', _, _. split; [done|]. split; [done|]. split; [done|]. by exists row.
  - destruct (prefill_raw_ok mono gh _ Hadm (fun (u : unit) _ _ => Ok (true, u)) (fun _ => True) (fun d _ _ _ => ex_intro _ true (ex_intro _ d (conj eq_refl I)))
      chunk steps dict_values Hdict shuffle Hshuffle garbage c now s tt H Hw others Hnp Hs I) as (ret & s' & u & E & Hco & _).
    rewrite E. cbn [rbind]. by exists ret, s', None, w.
Qed.

(** C13: a prefill pass without preemption and without a request in chunks always
    succeeds and loses no request: the new batch and the waiting queue
    afterwards are the waiting queue before, in which only the cached prefixes
    of requests have changed; nobody is answered.  The tree holds one lock more
    for every request of the batch, on the node its prefix was found at, and
    no slot has moved.  The request that is continued in chunks is one of the
    batch.  With a prefill delayer the rank takes part in exactly one exchange,
    whatever it admits. *)
Theorem prefill_pass_conserves c now usage s delayer w H Hw others n :
  enable_priority_preemption c = false -> kv_admission (allocator (ps_mem s)) = Ok n ->
  pass_ok mono gh (allocator (ps_mem s)) s H Hw others -> (forall d, delayer = Some d -> 1 <= dp_size_dim d) ->
  exists ret s' delayer' w', get_new_batch_prefill mono gh chunk steps dict_values shuffle garbage all_gather debug c now usage s delayer w
      = Ok (ret, s', delayer', w') /\
    conserves mono gh s s' H others ret /\ exchanged delayer delayer' w w'.
Proof using Hdict Hshuffle. apply prefill_pass_ok. Qed.
End pass.

(** ** The batch fits the token allocator *)

Section fits.
Context (mono : nat -> Z) (gh : list tok -> option string -> string) (chunk : bool) (steps : Z).






Context (dict_values : gmap ckey nat -> list nat) (Hdict : forall c, dict_values c ≡ₚ map snd (map_to_list c)).
Context (shuffle : list Req -> list Req) (Hshuffle : forall q, shuffle q ≡ₚ q) (garbage : nat -> Z).



End fits.

(** ** Preemption *)

Section preemption.
Context (mono : nat -> Z) (gh : list tok -> option string -> string) {A : Type} {KV : KVAllocator A} {KL : KVAllocatorLaws A}.
Context (chunk : bool) (steps : Z) {D : Type} (ask : D -> Z -> Z -> result (bool * D)).

Lemma round_input_info r t r' t' : init_next_round_input mono r t = Ok (r', t') -> info r' = info r.
Proof.
  unfold init_next_round_input. intros ([r2 t2] & E & [= <- _])%rbind_ok. cbn [info set_extend_input_len set_pre].
  destruct t as [st|]; [|by injection E as <- _]. by apply rbind_ok in E as ([m st'] & _ & [= <- _]).
Qed.

Lemma add_locked_info (a : PrefillAdder A) r total align res r' a' : add_locked a r total align = Ok (res, r', a') -> info r' = info r.
Proof.
  unfold add_locked. intros (n & _ & E)%rbind_ok. repeat case_match; try done; try (by injection E as _ <- _);
    by apply rbind_ok in E as (x & _ & [= _ <- _]).
Qed.

Lemma add_one_req_info allow (a : PrefillAdder A) r align res r' a' : add_one_req allow a r align = Ok (res, r', a') -> info r' = info r.
Proof.
  unfold add_one_req. destruct allow; cbn [negb]; [|by intros [= _ <- _]]. destruct (_ && _); [by intros [= _ <- _]|].
  destruct (match prefill_max_requests (config a) with Some x => _ | None => _ end); [by intros [= _ <- _]|]. destruct (_ && _).
  - unfold add_one_req_ignore_eos. intros (cur & _ & E)%rbind_ok. apply rbind_ok in E as (tot & _ & E). cbv zeta in E.
    destruct (num_ltb _ _); [by injection E as _ <- _|]. destruct (negb _); [by injection E as _ <- _|].
    destruct (rem_chunk_tokens _) as [ch|]; [destruct (_ <=? ch); [|destruct (ch <=? 0); [by injection E as _ <- _|]]|];
      by apply rbind_ok in E as (x & _ & [= _ <- _]).
  - intros (tot & _ & E)%rbind_ok. destruct (num_leb _ _); [by injection E as _ <- _|]. destruct (_ && _); [by injection E as _ <- _|].
    apply rbind_ok in E as (a1 & _ & E). apply rbind_ok in E as ([[early r1] a2] & El & E). apply rbind_ok in E as (a3 & _ & E).
    apply add_locked_info in El. destruct early; [by injection E as _ <- _|]. by apply rbind_ok in E as (x & _ & [= _ <- _]).
Qed.

(** The loop leaves the requests of the queue in their order, whoever it preempts. *)
Lemma admit_loop_rids c bs : forall todo (a : PrefillAdder A) full d seen a' full' d',
  admit_loop mono gh chunk steps ask c bs a full d todo = Ok (seen, a', full', d') -> rids seen = rids todo.
Proof.
  induction todo as [|r todo IH]; intros a full d seen a' full' d'; [by intros [= <- _ _ _]|]. cbn [admit_loop].
  set (f := if _ <=? zlen (can_run_list a) then true else full). intros ([go a1] & _ & E)%rbind_ok.
  destruct (negb go); [by injection E as <- _ _ _|]. apply rbind_ok in E as ([r1 t1] & E1 & E). apply rbind_ok in E as ([allow d1] & _ & E).
  apply rbind_ok in E as ([[res r2] a2] & E2 & E). apply round_input_info in E1. apply add_one_req_info in E2.
  assert (Er : rid (info r2) = rid (info r)) by (by rewrite E2, E1).
  destruct res; [|injection E as <- _ _ _; simpl; by rewrite Er..].
  apply rbind_ok in E as ([[[seen2 a3] f3] d3] & E3 & [= <- _ _ _]). simpl. rewrite Er. f_equal. by eapply IH.
Qed.

Context (dict_values : gmap ckey nat -> list nat) (Hdict : forall c, dict_values c ≡ₚ map snd (map_to_list c)).
Context (shuffle : list Req -> list Req) (Hshuffle : forall q, shuffle q ≡ₚ q) (garbage : nat -> Z).

(** C37: a request preempted in a pass that ends without a batch is lost.
    [preempt_to_schedule] counts the prompt of the new request before
    [init_next_round_input] has set its length, so the pass can preempt and then
    find that the request does not fit; it returns before the preempted requests
    are put back into the queue.  Whoever has left the running batch in such a
    pass is afterwards neither running, nor waiting, nor the request in chunks,
    and no client was told. *)
Theorem preempted_request_lost c now s d H Hw others s' d' r :
  pass_ok mono gh (allocator (ps_mem s)) s H Hw others ->
  NoDup (rids (waiting_queue (ps_queue s) ++ b_reqs (ps_running s))) ->
  get_new_batch_prefill_raw mono gh chunk steps dict_values shuffle garbage ask c now s d = Ok (None, s', d') ->
  r ∈ b_reqs (ps_running s) -> rid (info r) ∉ rids (b_reqs (ps_running s')) ->
  rid (info r) ∉ rids (waiting_queue (ps_queue s')) /\ ps_chunked s' = None /\ sent (ps_queue s') = sent (ps_queue s).
Proof using Hdict Hshuffle.
  intros [Hch _ Hm Hwt Hsim Hprio _] Hnd E Hin Hgone.
  assert (Hrid : rid (info r) ∈ rids (b_reqs (ps_running s))) by (apply list_elem_of_fmap; by exists r).
  assert (Hout : rid (info r) ∉ rids (waiting_queue (ps_queue s))).
  { unfold rids in Hnd. rewrite map_app in Hnd. apply list.NoDup_app in Hnd as (_ & Hd & _). intros Hx. by apply (Hd _ Hx). }
  enough (Hq : rids (waiting_queue (ps_queue s')) ≡ₚ rids (waiting_queue (ps_queue s)) /\ ps_chunked s' = None /\ sent (ps_queue s') = sent (ps_queue s)).
  { destruct Hq as (Hq & ? & ?). by rewrite Hq. }
  unfold get_new_batch_prefill_raw in E. set (s0 := if enable_priority_preemption c then _ else s) in E.
  assert (E0 : ps_mem s0 = ps_mem s /\ ps_queue s0 = ps_queue s /\ ps_policy s0 = ps_policy s /\ ps_chunked s0 = None /\ ps_running s0 = ps_running s)
    by (unfold s0; by destruct (enable_priority_preemption c)).
  destruct E0 as (E1 & E2 & E3 & E4 & E5). cbv zeta in E. rewrite E1, E2, E3, E4, E5 in E. simpl is_none in E.
  destruct (_ && true); [by injection E as <- _; rewrite E2|]. simpl negb in E. rewrite andb_false_r in E. cbn [andb] in E.
  destruct (calc_priority_ok mono gh garbage dict_values Hdict shuffle Hshuffle (ps_policy s) (tree_cache (ps_mem s)) H Hw
    (waiting_queue (ps_queue s)) (Some (b_reqs (ps_running s))) (proj1 Hm) Hwt Hsim Hprio) as (bb & wq & t & sp & Ec & Hcore & _).
  rewrite Ec in E. cbn [rbind add_chunked] in E. apply rbind_ok in E as ([[[seen a] full] d1] & El & E). apply admit_loop_rids in El.
  destruct (zlen (can_run_list a) =? 0).
  - injection E as <- _. simpl. split; [|done]. rewrite El. by apply rids_core.
  - apply rbind_ok in E as (q & _ & E). by apply rbind_ok in E as (ch & _ & E).
Qed.
End preemption.

(** ** TriAxialKV: admission is a heuristic *)

Section overcommit.
Context (mono : nat -> Z) (gh : list tok -> option string -> string) (chunk : bool).







End overcommit.

(** ** Concrete passes *)

Definition no_running : DecodeBatch :=
  {| b_reqs := []; b_req_pool_indices := []; b_seq_lens := []; b_orig_seq_lens := []; b_seq_lens_sum := 0;
     b_output_ids := None; b_out_cache_loc := None; b_return_logprob := false |}.

Definition pass_config (preemption : bool) : PrefillConfig :=
  {| adder_config := sample_config; max_prefill_tokens := 100; chunked_prefill_size := Some 8; is_mixed_chunk := false;
     enable_priority_preemption := preemption; pp_max_micro_batch_size := 2; pp_size := 1; truncation_align_size := None;
     max_running := 2;
     queue_limits := {| SchedulerQueue.enable_priority_scheduling := preemption; schedule_low_priority_values_first := false;
                        abort_on_priority_when_disabled := false; max_queued_requests := None |} |}.

Definition pass_state : PrefillState BaseAllocator :=
  {| ps_mem := sample_mem; ps_queue := {| waiting_queue := [named "x" None (sample_req None [1; 2; 3; 4] None 0);
       named "y" None (sample_req None [9] None 0)]; sent := [] |}; ps_policy := sample_policy (Agnostic FCFS); ps_chunked := None;
     ps_running := no_running; ps_full := false; ps_max_prefill_bs := 0 |}.

(** The delayer that always allows. *)
Definition allow_all (u : unit) (_ _ : Z) : result (bool * unit) := Ok (true, u).

(** Two running requests, of priorities 0 and 100, and a waiting one of
    priority 100 that fits the pool, but not beside the second one. *)
Definition low : Req := named "low" (Some 0) (sample_req (Some 0) [5; 6] (Some 0%nat) 0).
Definition peer : Req := named "peer" (Some 100) (sample_req (Some 1) (seqZ 50 8) (Some 0%nat) 0).
Definition high : Req := named "high" (Some 100) (sample_req None (seqZ 100 12) None 0).
Definition lost_state : PrefillState BaseAllocator :=
  {| ps_mem := with_pool sample_mem {| pool_size := 2; max_context_len := 20;
       req_to_token := [[15; 16] ++ replicate 18 0; 14 :: seqZ 17 7 ++ replicate 12 0]; free_slots := [] |};
     ps_queue := {| waiting_queue := [high]; sent := [] |};
     ps_policy := sample_policy (Agnostic FCFS); ps_chunked := None;
     ps_running := {| b_reqs := [low; peer]; b_req_pool_indices := [0; 1]; b_seq_lens := [2; 8]; b_orig_seq_lens := [2; 8];
                      b_seq_lens_sum := 10; b_output_ids := Some [7; 8]; b_out_cache_loc := None; b_return_logprob := false |};
     ps_full := false; ps_max_prefill_bs := 0 |}.

(** The second rank has a prefill too; the world counts the exchanges. *)
Definition gather_two (n : nat) (row : list Z) : list (list Z) * nat := ([row; [1; 0; 0; 0]], S n).

Lemma first_tree_ok : rreach RadixProps.clock RadixProps.no_hash (ok_or blank demo0) [].
Proof. eapply (rreach_init _ _ 1 false false "lru" 0); [lia|]. vm_compute. reflexivity. Qed.

Lemma pass_state_ok : pass_ok RadixProps.clock RadixProps.no_hash (allocator (ps_mem pass_state)) pass_state [1%nat] [] (seqZ 14 10).
Proof.
  split; try reflexivity; try discriminate.
  - exact sample_mem_ok.
  - exact first_tree_ok.
  - split; vm_compute; reflexivity.
  - repeat constructor; set_solver.
Qed.

Lemma prefill_pass_conserves_witness : exists batch s' d',
  get_new_batch_prefill RadixProps.clock RadixProps.no_hash false 20 any_order (fun q => q) (fun _ => 0) gather_two true (pass_config false) 0
    (f64_of_Z 0) pass_state (Some two_ranks) 0%nat = Ok (Some batch, s', Some d', 1%nat) /\
  rids batch = ["x"; "y"]%string /\ mem_ok RadixProps.clock RadixProps.no_hash (ps_mem s') [1%nat; 0%nat; 1%nat] (seqZ 14 10).
Proof.
  destruct (prefill_pass_conserves RadixProps.clock RadixProps.no_hash false 20 any_order (fun _ => Permutation_refl _) (fun q => q)
    (fun q => Permutation_refl q) (fun _ => 0) gather_two true (pass_config false) 0 (f64_of_Z 0) pass_state (Some two_ranks) 0%nat
    [1%nat] [] (seqZ 14 10) 15) as (ret & s' & d' & w' & E & Hco & _).
  - reflexivity.
  - reflexivity.
  - exact pass_state_ok.
  - intros d [= <-]. vm_compute. discriminate.
  - pose proof (co_mem _ _ _ _ _ _ _ Hco) as Hm. vm_compute in E. injection E as <- <- <- <-. eexists _, _, _.
    split; [vm_compute; reflexivity|]. split; [reflexivity|]. exact Hm.
Defined.


Lemma preempted_request_lost_witness :
  rids (b_reqs (ps_running lost_state)) = ["low"; "peer"]%string /\ rids (waiting_queue (ps_queue lost_state)) = ["high"]%string /\
  exists s', get_new_batch_prefill_raw RadixProps.clock RadixProps.no_hash false 20 any_order (fun q => q) (fun _ => 0) allow_all
      (pass_config true) 0 lost_state tt = Ok (None, s', tt) /\
    rids (b_reqs (ps_running s')) = ["peer"]%string /\ "low"%string ∉ rids (waiting_queue (ps_queue s')) /\ ps_chunked s' = None /\
    sent (ps_queue s') = [].
Proof.
  split; [reflexivity|]. split; [reflexivity|]. eexists. split; [vm_compute; reflexivity|]. split; [reflexivity|].
  apply (preempted_request_lost RadixProps.clock RadixProps.no_hash false 20 allow_all any_order (fun _ => Permutation_refl _) (fun q => q)
    (fun q => Permutation_refl q) (fun _ => 0) (pass_config true) 0 lost_state tt [1%nat] [] (seqZ 14 10) _ tt low).
  - split; try reflexivity; try discriminate.
    + exact sample_mem_ok.
    + exact first_tree_ok.
    + split; vm_compute; reflexivity.
    + repeat constructor; set_solver.
  - repeat constructor; set_solver.
  - vm_compute. reflexivity.
  - by left.
  - vm_compute. set_solver.
Defined.



